(* ===== verification/_CoqProject ===== *)
-Q . S2P
Prelude.v
NetText.v
Wire.v
Models.v
Requests.v
NetworkBlocks.v
Netfilter.v
ProxyEnv.v
Crates.v
NetworkParser.v
EgressSpec.v
LxcNames.v
LxcEgress.v
LxcFirewall.v
LxcIngress.v
CmdLine.v
Seccomp.v
CorrelationVector.v
BwrapRules.v
BwrapPayloads.v
WslcSlots.v
WslcTypes.v
WslcWorld.v
WslcWorker.v
WslcInv.v
WslcOps.v
WslcTeardown.v
WslcDaemon.v
WslcStreams.v
WslcExecs.v
WslcStdin.v
WslcExecStream.v
UnixPath.v
FsPolicy.v
DefaultEnv.v
MountView.v
BwrapCommand.v
BwrapLinks.v
BwrapView.v
LxcMounts.v
SeatbeltProfile.v
SeatbeltReader.v
SeatbeltRules.v
SymlinkWalk.v
BwrapProxy.v
BwrapResolve.v
ResolverFile.v
BwrapLaunch.v
WireRequest.v
Validator.v
ConfigParser.v
StateAware.v
ExecRelay.v
Lifecycle.v
Consent.v
LxcBindings.v
LxcRunner.v
