(* ===== verification/Prelude.v ===== *)
(** * Verification of MXC, the Microsoft eXecution Container

    MXC runs untrusted programs in containers.  A request names the program, a
    container backend, a filesystem policy and a network policy; the core lowers
    it to a typed request, and the backend of the platform builds the container
    and enforces the policies.  This library models the parts whose correctness is a matter of
    logic rather than of system calls, translated from the Rust sources (paths
    below are relative to [src/src/mxc-sdk/src]), and proves what they promise.

    ** Foundations

    - [Prelude]: Rust's [Result], the state-and-error monad [stateful] of code
      that mutates or fails, its Hoare triples and its weakest precondition
      [wp], machine integers as [Z] with their wrap-around written out, and the
      text and list lemmas the components share.
    - [NetText]: [std::net] addresses, their [Display] text and [FromStr]
      parser.
    - [Netfilter]: packets, and the reading of the rule language of [iptables]
      that the firewall theorems are stated in.
    - [Crates]: the interface of the [url] and [cidr] crates, with instances
      that satisfy the laws assumed of them.
    - [UnixPath]: [std::path] on Unix, the components of a path and the
      operations on them.
    - [MountView]: what a list of mounts shows at a path, the last mount above
      it deciding; the backends that mount are judged by it.

    ** The core

    - [Wire], [Models], [Requests] ([core/mxc_common/wire.rs], [models.rs],
      [error.rs], [mxc_error.rs]): the wire form of a configuration, the
      typed request, and the response.
    - [WireRequest], [Validator], [ConfigParser] ([wire.rs],
      [common_request_ir.rs], [validator.rs], [config_parser.rs]): every section
      of a configuration becomes part of the request, or is refused.  An accepted
      request is well formed ([accepted_request_well_formed]) and carries a
      learning-mode capability only where it asked for one
      ([learning_mode_is_explicit]).
    - [NetworkParser] ([network_parser.rs]): the [network] section becomes a
      policy.  It is accepted exactly when it is meaningful, and means what was
      written ([convert_egress_accepts], [parse_network_policy_directions],
      [parse_network_policy_proxy]).
    - [NetworkBlocks] ([network_blocks.rs]): a peer's exclusions are subtracted
      from its CIDR, exactly and with the fewest blocks ([subtract_correct],
      [subtract_minimal], [peer_blocks_exact]).
    - [ProxyEnv] ([proxy_env.rs]): no proxy variable of the caller survives, and
      no credential is shown.
    - [CmdLine] ([cmdline.rs]): an argument vector rendered for Windows or for a
      POSIX shell is read back unchanged; what [cmd.exe] makes of a rendering.
    - [CorrelationVector] ([telemetry/correlation_vector.rs]): the operators on
      correlation vectors stay well formed and advance.

    - [DefaultEnv] ([default_env.rs]): the environment of a child, each name set
      once ([overlay_sets_each_name_once]).

    ** The filesystem policy

    A policy lists paths to grant for reading, to grant for writing and to deny.

    - [FsPolicy] ([config_parser.rs], [filesystem_object.rs],
      [filesystem_resolve.rs]): a path named in several lists keeps its strictest
      intent ([parsed_policy_well_formed]), so do the names of one object of the
      host ([object_aliases_tightened], [denied_object_never_granted]), and the
      plan given to the backends orders the paths so that the most specific one
      comes last ([plan_most_specific]).
    - [SymlinkWalk] ([filesystem_symlink.rs]): the host as a tree of nodes with
      the kernel's path walk, and the resolution of a policy path through its
      links, which arrives where the kernel does, now or after missing
      components have been created ([resolution_follows_kernel]).
    - Bubblewrap: [BwrapCommand] ([bwrap_command.rs]) is the argument vector of
      [bwrap]; [BwrapView] reads it as [bwrap] does and shows that the sandbox has
      the access the policy says and the environment of the request
      ([bwrap_enforces_filesystem_policy], [bwrap_environment]); [BwrapLinks]
      that the links recreated for grants through symbolic links lead where they
      should ([grant_links_sound]).  [BwrapResolve] ([bwrap_runner.rs],
      [filesystem_access.rs]) takes a request's policy through tightening, the
      check of the caller's own access and the resolution of every path;
      [BwrapProxy] ([proxy_network.rs]) resolves the address of a proxy and writes
      the hosts and resolver files that are pinned over the sandbox's;
      [ResolverFile] ([resolver_file.rs]) finds the resolver's file and moves the
      policy's mounts to where its links lead; [BwrapLaunch] ([bwrap_runner.rs],
      [proxy_network.rs]) puts them together to the arguments [bwrap] is run with,
      and follows a denied path from the policy to what the sandbox shows
      ([denied_object_hidden]).  [bwrap] resolves a destination that is at a link
      of the sandbox, so the theorems say of a mount list that no mount in it goes
      through one ([settled]).
    - LXC: [LxcMounts] ([filesystem_mounts.rs], [lxc_bindings.rs]) writes mount
      entries into a managed block of the container's configuration
      ([managed_block_replaced]); read back, they give the access the policy says
      ([lxc_enforces_filesystem_policy]) when paths are written plainly and no
      denied path has a link in it.  Two theorems show what happens otherwise.
    - Seatbelt: [SeatbeltProfile] ([backends/seatbelt/common]) is the profile
      text; [SeatbeltReader] reads it back as forms, whatever the strings of the
      request hold ([profile_reads_back]); [SeatbeltRules] gives the forms their
      meaning (a rule that names an operation before one that reaches it by a
      wildcard, a filtered rule before an unfiltered one, then the last) and
      shows what the profile allows ([seatbelt_denies_denied_paths],
      [seatbelt_grants_follow_policy], [seatbelt_outbound_decided],
      [seatbelt_ui_denied]).

    Elsewhere what a path resolves to on the host is a parameter: its object, its
    canonical form, whether it is a file or a link.

    ** The lifecycle of a sandbox

    A sandbox that outlives one command is provisioned, started, used, stopped
    and removed by separate requests.

    - [StateAware] ([state_aware_request.rs], [state_aware_operation.rs],
      [state_aware_input.rs], [config_parser.rs]): the phases and operations,
      their checks, and the common sections of such a request, which are read for
      the backend that will run it ([lifecycle_request_consistent]).
    - [ExecRelay] ([state_aware_dispatch.rs]): the threads that carry the output
      of an attached process, the bounded wait for them, and the order of wait,
      termination and reaping ([exec_relay_reaps], [pump_drains_source]).
    - [Lifecycle] ([state_aware_backend.rs], [state_aware_binding.rs],
      [state_aware_dispatch.rs], [mxc_engine/state_aware.rs]): a backend is a
      type class over its state; a request acts on one backend and only when it
      is authorised ([lifecycle_acts_when_authorised]), and an id leads back to
      the backend that minted it ([provisioned_id_routes_back]).

    ** Telemetry consent

    [Consent] ([telemetry/consent.rs], [telemetry/policy.rs], the gates of
    [telemetry/mod.rs]): the file that keeps the user's decision, the marker of a
    withdrawal, and the requests of several processes, any of which may fail or
    die between two operations.  Nothing is collected without an explicit yes that
    nobody has withdrawn since ([collection_needs_consent]); a yes to an outdated
    question records nothing ([stale_yes_not_recorded]); a withdrawal without
    trouble is final when it returns ([withdrawal_takes_effect]).  The history of
    decisions in the store is ghost state.

    ** Packet filters

    [EgressSpec] says which packets an egress policy permits, on the policy
    alone; the backends are shown to implement it.

    - LXC ([backends/lxc/common]): [LxcEgress] lowers a policy to rules and shows
      that the chain decides every packet as the policy does; [LxcNames] the
      chain names; [LxcFirewall] installs and removes the chain against a host
      whose every command may fail, and keeps a truthful record of what it
      installed ([apply_enforces_policy], [firewall_record_truthful]);
      [LxcIngress] does the same for the inbound chain.  [LxcRunner] puts them
      around a container; see below.
    - Bubblewrap ([backends/bubblewrap/common]): [BwrapRules] plans the chains of
      the private namespace, [BwrapPayloads] the transactions that install them
      (whole, hooks last, within budget, in the order of their file names), and
      [Seccomp] the classic-BPF filter, run by an interpreter of its four
      instructions.

    ** The WSLC daemon

    [bin/wslc_daemon/session_manager.rs] owns the utility VMs, containers and
    runs of every client.  One worker thread serves a queue; boots, pulls, runs
    and releases are threads of their own that report to the same queue.

    - [WslcSlots]: the pool of image stores ([store_slots.rs]).
    - [WslcTypes], [WslcWorld]: the commands and records, the threads and
      channels, and the calls out of the program.
    - [WslcWorker]: one definition per method of the worker, and its loop.
    - [WslcInv], [WslcOps], [WslcTeardown]: reply channels, store leases, session
      handles and thread reports are linear resources; the invariant counts where
      each one is, every method keeps it, and so does the shutdown.
    - [WslcDaemon]: the system as a step relation, with the theorems that hold in
      every state it reaches.

    Around the worker, an exec exchanges bytes with its client:

    - [WslcStreams]: the byte stream with a condition variable that the one-shot
      runner reads from ([stream_buffer.rs]), the bounded queue of live output
      ([enqueue_output]), and the frames of the protocol ([daemon_protocol.rs]).
    - [WslcExecs]: the registry by which another connection cancels an exec or
      claims its stdin ([register_exec], [take_exec_stdin]).
    - [WslcStdin]: the thread that writes the client's input to the process and
      the handle that freezes or stops it ([stdin_writer.rs]).
    - [WslcExecStream]: the handler that pumps a run's output and its terminal
      frame to the pipe ([control_server.rs], [write_exec_result]), composed with
      the queue and with the client that collects the result
      ([daemon_client.rs]).

    Each of these is a step relation whose steps are the critical sections of the
    threads involved; the theorems hold for every interleaving.  A tokio channel
    is taken by its documentation: bounded, first in first out, refusing a send
    when it is full or its receiver is closed.

    The state of the model is the worker, the queue, the pool and the list of
    live threads; an in-flight counter is the number of threads of its kind.  The
    worker's code runs without interruption between two calls out of the
    program; at each call any number of thread steps may happen ([sched]), and
    between two commands clients may send more.  A ghost part records which VM
    may have which store mounted, where every reply channel went, and each use of
    a handle that the SDK forbids.

    ** A run in an LXC container

    [LxcBindings] ([lxc_bindings.rs]) has the command lines of the container
    tools: a start without network overrides every configured interface
    ([isolated_start_covers_interfaces]), and an attach passes exactly the given
    environment ([attach_args_roundtrip]).  [LxcRunner] ([lxc_runner.rs],
    [availability.rs]) has the preparation of a container with all its error
    paths, the run to completion and the handle of a streaming run, on top of the
    firewalls and mounts above.  Values that Rust drops at the end of a scope are
    dropped there, and a ghost history records what was done to the container.
    A prepared sandbox is under its own policy in both directions
    ([prepared_sandbox_enforces]); a failed preparation releases what it took
    ([failed_preparation_releases]); behind a handle the rules outlive the
    workload ([enforcement_outlives_workload]), which a run to completion does
    not ensure ([one_shot_unfilters_running]).

    ** Bounds and fuel

    Recursion that is not structural runs on fuel that is proved to suffice: the
    block subtraction on the prefix length, the walk of a path on the links the
    kernel follows, the lowering loops on the entry
    limit, the search for a free slot on the number of leases, the wait for a
    container's address on the polls its timeout has room for
    ([readiness_wait_ends]), and the drains of
    a shutdown on the number of messages the live threads can still send.
    Running out of it is an error of its own, which the theorems exclude.  Pull
    tokens ([u64]) and slot indices ([usize]) are unbounded here.

    ** What is not modelled

    Logging; the bodies of SDK, COM and system calls, which are parameters or
    answers of an environment constrained only by what their documentation says;
    serialisation derived by macros; in the daemon the named-pipe server, time
    limits on its connections, what is abandoned after a panic of the worker,
    which the theorems exclude, and threads that end without their report; of
    Bubblewrap's private network the supervisor, whose outcome is a parameter.  The
    remaining backends, the command-line tools and the generated bindings are
    listed as not modelled in the manifest beside this library. *)

From Stdlib Require Export ZArith Lia.
From Stdlib Require Import Ascii DecimalString DecimalN DecimalPos.
From stdpp Require Export base tactics sets list option strings.

#[global] Open Scope Z_scope.

Create Rewrite HintDb text.
Create HintDb blocks.

(** ** Fallible code: Rust's [Result] *)

(** [Result<A, E>], with the error type first so that [result E] is a monad. *)
Inductive result (E A : Type) : Type :=
| Ok (a : A)
| Err (e : E).
Arguments Ok {E A} a.
Arguments Err {E A} e.

#[global] Instance result_ret E : MRet (result E) := fun _ a => Ok a.
#[global] Instance result_bind E : MBind (result E) := fun _ _ k m =>
  match m with Ok a => k a | Err e => Err e end.
#[global] Instance result_fmap E : FMap (result E) := fun _ _ f m =>
  match m with Ok a => Ok (f a) | Err e => Err e end.

(** [Option::ok_or]. *)
Definition ok_or {E A} (o : option A) (e : E) : result E A :=
  match o with Some a => Ok a | None => Err e end.

(** [Option::is_some_and]. *)
Definition is_some_and {A} (p : A -> bool) (o : option A) : bool :=
  match o with Some a => p a | None => false end.

(** [Vec::is_empty]. *)
Definition is_empty {A} (l : list A) : bool := match l with [] => true | _ => false end.

(** [Result::map_err]. *)
Definition map_err {E F A} (f : E -> F) (r : result E A) : result F A :=
  match r with Ok a => Ok a | Err e => Err (f e) end.

Definition is_ok {E A} (r : result E A) : bool :=
  match r with Ok _ => true | Err _ => false end.

(** A guard that fails with [e] when [b] holds: [if b { return Err(e) }]. *)
Definition fail_if {E} (b : bool) (e : E) : result E unit :=
  if b then Err e else Ok tt.

(** [Option::transpose] after a fallible map: [o.map(f).transpose()]. *)
Definition map_transpose {E A B} (f : A -> result E B) (o : option A) : result E (option B) :=
  match o with Some a => Some <$> f a | None => Ok None end.

Lemma bind_Ok {E A B} (m : result E A) (k : A -> result E B) b :
  (m ≫= k) = Ok b <-> exists a, m = Ok a /\ k a = Ok b.
Proof. destruct m; naive_solver. Qed.

Lemma bind_Err {E A B} (m : result E A) (k : A -> result E B) e :
  (m ≫= k) = Err e <-> m = Err e \/ exists a, m = Ok a /\ k a = Err e.
Proof. destruct m; naive_solver. Qed.

Lemma fmap_Ok {E A B} (f : A -> B) (m : result E A) b :
  f <$> m = Ok b <-> exists a, m = Ok a /\ b = f a.
Proof. destruct m; naive_solver. Qed.

Lemma map_err_Ok {E F A} (f : E -> F) (m : result E A) a : map_err f m = Ok a <-> m = Ok a.
Proof. destruct m; naive_solver. Qed.

Lemma fail_if_Ok {E} b (e : E) u : fail_if b e = Ok u <-> b = false.
Proof. destruct b, u; naive_solver. Qed.

(** A fallible [map].collect() stops at the first error and otherwise keeps
    every element in order. *)
Lemma mapM_Ok {E A B} (f : A -> result E B) l k :
  mapM f l = Ok k <-> Forall2 (fun a b => f a = Ok b) l k.
Proof.
  revert k. induction l as [|a l IH]; intros k; cbn.
  - split; [intros [= <-]; constructor | by inversion 1].
  - rewrite bind_Ok. split.
    + intros (b & Hb & (k' & Hk & [= <-])%bind_Ok). constructor; [done|by apply IH].
    + inversion 1 as [|? b ? k' Hb Hk]; subst. exists b. split; [done|].
      apply IH in Hk. rewrite Hk. done.
Qed.

(** A [for] loop whose body may fail, over state [S]. *)
Fixpoint foldM {E S A} (f : A -> S -> result E S) (l : list A) (s : S) : result E S :=
  match l with
  | [] => Ok s
  | a :: l => s' ← f a s; foldM f l s'
  end.

Lemma foldM_app {E S A} (f : A -> S -> result E S) l1 l2 s :
  foldM f (l1 ++ l2) s = (s' ← foldM f l1 s; foldM f l2 s').
Proof.
  revert s. induction l1 as [|a l1 IH]; intros s; [done|].
  cbn. destruct (f a s) as [s'|e]; [apply IH|done].
Qed.

Lemma foldM_bind {E S A B} (f : B -> S -> result E S) (g : A -> list B) l s :
  foldM (fun a s => foldM f (g a) s) l s = foldM f (l ≫= g) s.
Proof.
  revert s. induction l as [|a l IH]; intros s; [done|]. cbn. rewrite foldM_app.
  destruct (foldM f (g a) s); [apply IH|done].
Qed.

Lemma foldM_fmap {E S A B} (f : B -> S -> result E S) (g : A -> B) l s :
  foldM f (g <$> l) s = foldM (fun a s => f (g a) s) l s.
Proof.
  revert s. induction l as [|a l IH]; intros s; [done|]. cbn.
  destruct (f (g a) s); [apply IH|done].
Qed.

Lemma foldM_ext {E S A} (f g : A -> S -> result E S) l s :
  (forall a s, f a s = g a s) -> foldM f l s = foldM g l s.
Proof.
  intros H. revert s. induction l as [|a l IH]; intros s; [done|]. cbn. rewrite H.
  destruct (g a s); [apply IH|done].
Qed.

Lemma existsb_elem {A} (f : A -> bool) l : existsb f l = true <-> exists x, x ∈ l /\ f x = true.
Proof. rewrite existsb_exists. by setoid_rewrite list_elem_of_In. Qed.

(** The elements of a successful, joined map. *)
Lemma mapM_join_elem {E A B} (f : A -> result E (list B)) l k :
  mjoin <$> mapM f l = Ok k ->
  (forall a, a ∈ l -> exists bs, f a = Ok bs) /\
  (forall b, b ∈ k <-> exists a bs, a ∈ l /\ f a = Ok bs /\ b ∈ bs).
Proof.
  intros (kss & Hm & ->)%fmap_Ok. apply mapM_Ok in Hm.
  induction Hm as [|a bs l kss Ha _ [IH1 IH2]]; [split; set_solver|].
  change (mjoin (bs :: kss)) with (bs ++ mjoin kss). split.
  - intros a' [->|Ha']%elem_of_cons; eauto.
  - intros b. rewrite elem_of_app, IH2. setoid_rewrite elem_of_cons. split.
    + intros [?|(a' & bs' & ? & ? & ?)]; eauto 10.
    + intros (a' & bs' & [->|Hin] & Hf & Hb); [left; congruence|eauto 10].
Qed.

(** A loop that appends to its accumulator is a concatenating map. *)
Lemma foldM_collect {E A B} (f : A -> result E (list B)) l acc :
  foldM (fun a acc => (fun new => acc ++ new) <$> f a) l acc =
  (fun new => acc ++ new) <$> (mjoin <$> mapM f l).
Proof.
  revert acc. induction l as [|a l IH]; intros acc; [cbn; by rewrite app_nil_r|].
  cbn [foldM mapM]. destruct (f a) as [new|]; cbn; [|done]. rewrite IH.
  destruct (mapM f l); cbn; [|done]. by rewrite <- app_assoc.
Qed.


(** [iter().enumerate()]. *)
Definition enumerate {A} (l : list A) : list (nat * A) := imap pair l.

Lemma snd_enumerate {A} (l : list A) : snd <$> enumerate l = l.
Proof.
  apply list_eq. intros i. unfold enumerate.
  rewrite list_lookup_fmap, list_lookup_imap. by destruct (l !! i).
Qed.

(** An enumerated fallible map whose every element is characterised by [R]. *)
Lemma mapM_enumerate_Ok {E A B} (R : A -> B -> Prop) (f : nat -> A -> result E B) l k :
  (forall i x y, x ∈ l -> f i x = Ok y <-> R x y) ->
  mapM (fun '(i, x) => f i x) (enumerate l) = Ok k <-> Forall2 R l k.
Proof.
  intros HR. rewrite mapM_Ok. unfold enumerate.
  assert (Hg : forall g : nat -> nat,
    Forall2 (fun a b => (let '(i, x) := a in f i x) = Ok b) (imap (fun i x => (g i, x)) l) k <->
    Forall2 R l k); [|apply (Hg (fun i => i))].
  revert k. induction l as [|x l IH]; intros k g.
  - cbn. split; inversion 1; constructor.
  - cbn. destruct k as [|y k]; [split; inversion 1|].
    rewrite !Forall2_cons, HR by set_solver.
    unfold compose. rewrite (IH ltac:(set_solver) k (fun i => g (S i))). done.
Qed.

(** Case analysis on the outermost [bind]s and guards of a successful run. *)
Ltac inv_ok :=
  repeat match goal with
  | H : (_ ≫= _) = Ok _ |- _ => apply bind_Ok in H as (? & ? & H)
  | H : _ <$> _ = Ok _ |- _ => apply fmap_Ok in H as (? & ? & H)
  | H : fail_if _ _ = Ok _ |- _ => apply fail_if_Ok in H
  | H : Ok _ = Ok _ |- _ => injection H as H
  | H : Err _ = Ok _ |- _ => discriminate H
  | H : mret _ = Ok _ |- _ => unfold mret, result_ret in H
  end.

(** ** Stateful fallible code *)

(** A computation over state [S] that may fail with [E]; the state reached is
    kept on failure, as [&mut] arguments are. *)
Definition stateful (S E A : Type) : Type := S -> result E A * S.

#[global] Instance stateful_ret S E : MRet (stateful S E) := fun _ a s => (Ok a, s).
#[global] Instance stateful_bind S E : MBind (stateful S E) := fun _ _ k m s =>
  match m s with
  | (Ok a, s') => k a s'
  | (Err e, s') => (Err e, s')
  end.

Definition throw {S E A} (e : E) : stateful S E A := fun s => (Err e, s).
Definition gets {S E A} (f : S -> A) : stateful S E A := fun s => (Ok (f s), s).
Definition modify {S E} (f : S -> S) : stateful S E unit := fun s => (Ok tt, f s).

(** The outcome of [m] as a value: a [match] on its result. *)
Definition attempt {S E A} (m : stateful S E A) : stateful S E (result E A) := fun s =>
  let '(r, s') := m s in (Ok r, s').

(** A [for] loop over items. *)
Fixpoint for_each {S E A} (f : A -> stateful S E unit) (l : list A) : stateful S E unit :=
  match l with
  | [] => mret tt
  | a :: l => _ ← f a; for_each f l
  end.

Lemma stateful_bind_Ok {S E A B} (m : stateful S E A) (k : A -> stateful S E B) s b s' :
  (m ≫= k) s = (Ok b, s') <-> exists a s1, m s = (Ok a, s1) /\ k a s1 = (Ok b, s').
Proof.
  unfold mbind, stateful_bind. destruct (m s) as [[a|e] s1]; naive_solver.
Qed.

Lemma foldl_inv {S O} (I : S -> Prop) (step : S -> O -> S) (ops : list O) (st : S) :
  I st -> (forall st op, I st -> I (step st op)) -> I (foldl step st ops).
Proof. intros H0 Hs. revert st H0. induction ops; cbn; auto. Qed.

(** Pre- and postconditions of a fallible step. *)
Definition triple {S E A} (P : S -> Prop) (c : stateful S E A) (Q : A -> S -> Prop) (R : S -> Prop) : Prop :=
  forall st r st', P st -> c st = (r, st') ->
    match r with Ok a => Q a st' | Err _ => R st' end.

Lemma triple_bind {S E A B} (P : S -> Prop) (c : stateful S E A) (k : A -> stateful S E B) Q Q' R :
  triple P c Q R -> (forall a, triple (Q a) (k a) Q' R) -> triple P (c ≫= k) Q' R.
Proof.
  intros Hc Hk st r st' HP Hr. unfold mbind, stateful_bind in Hr.
  destruct (c st) as [[a|e] st1] eqn:E1; specialize (Hc _ _ _ HP E1); cbn in Hc.
  - by apply (Hk a st1 r st').
  - by injection Hr as <- <-.
Qed.

Lemma triple_bind_assoc {S E A B C} (P : S -> Prop) (c : stateful S E A) (k : A -> stateful S E B)
    (k' : B -> stateful S E C) Q R :
  triple P ((c ≫= k) ≫= k') Q R -> triple P (c ≫= fun a => k a ≫= k') Q R.
Proof.
  intros Ht st r st' HP Hr. apply (Ht st r st' HP). rewrite <- Hr.
  unfold mbind, stateful_bind. by destruct (c st) as [[a|e] s1].
Qed.

Lemma triple_weaken {S E A} (P P' : S -> Prop) (c : stateful S E A) Q R :
  (forall st, P' st -> P st) -> triple P c Q R -> triple P' c Q R.
Proof. intros HP Hc st r st' HP' Hr. exact (Hc _ _ _ (HP _ HP') Hr). Qed.

Lemma triple_ret {S E A} (a : A) (Q : A -> S -> Prop) R : triple (Q a) (mret a : stateful S E A) Q R.
Proof. by intros st r st' HP [= <- <-]. Qed.

Lemma triple_throw {S E A} (e : E) (Q : A -> S -> Prop) (R : S -> Prop) :
  triple R (throw e : stateful S E A) Q R.
Proof. by intros st r st' HP [= <- <-]. Qed.

Lemma triple_consequence {S E A} (P P' : S -> Prop) (c : stateful S E A) (Q Q' : A -> S -> Prop) R :
  (forall st, P' st -> P st) -> (forall a st, Q a st -> Q' a st) -> triple P c Q R -> triple P' c Q' R.
Proof. intros HP HQ Hc st r st' HP' Hr. specialize (Hc _ _ _ (HP _ HP') Hr). destruct r; auto. Qed.

Lemma triple_for_each {S E A} (P : S -> Prop) (f : A -> stateful S E unit) l R :
  (forall a, triple P (f a) (fun _ => P) R) -> triple P (for_each f l) (fun _ => P) R.
Proof.
  intros Hf. induction l as [|a l IH]; [exact (triple_ret tt _ _)|].
  apply (triple_bind _ _ _ (fun _ => P)); auto.
Qed.

(** The weakest precondition of a step that must not fail: [m] returns, in a
    state [Q] accepts. *)
Definition wp {S E A} (m : stateful S E A) (Q : A -> S -> Prop) (st : S) : Prop :=
  match m st with (Ok a, st') => Q a st' | (Err _, _) => False end.

Lemma wp_ret {S E A} (a : A) (Q : A -> S -> Prop) st : Q a st -> wp (mret a : stateful S E A) Q st.
Proof. done. Qed.

Lemma wp_bind {S E A B} (m : stateful S E A) (k : A -> stateful S E B) Q st :
  wp m (fun a => wp (k a) Q) st -> wp (m ≫= k) Q st.
Proof. unfold wp, mbind, stateful_bind. by destruct (m st) as [[a|e] st']. Qed.

Lemma wp_mono {S E A} (m : stateful S E A) (Q Q' : A -> S -> Prop) st :
  wp m Q st -> (forall a st', Q a st' -> Q' a st') -> wp m Q' st.
Proof. unfold wp. destruct (m st) as [[a|e] st']; naive_solver. Qed.

Lemma wp_and {S E A} (m : stateful S E A) (Q Q' : A -> S -> Prop) st :
  wp m Q st -> wp m Q' st -> wp m (fun a st' => Q a st' /\ Q' a st') st.
Proof. unfold wp. destruct (m st) as [[a|e] st']; naive_solver. Qed.

Lemma wp_gets {S E A} (f : S -> A) (Q : A -> S -> Prop) st : Q (f st) st -> wp (gets f : stateful S E A) Q st.
Proof. done. Qed.

Lemma wp_modify {S E} (f : S -> S) (Q : unit -> S -> Prop) st :
  Q tt (f st) -> wp (modify f : stateful S E unit) Q st.
Proof. done. Qed.

Lemma wp_for_each {S E A} (I : list A -> S -> Prop) (f : A -> stateful S E unit) l st :
  I l st -> (forall a l st, I (a :: l) st -> wp (f a) (fun _ => I l) st) -> wp (for_each f l) (fun _ => I []) st.
Proof.
  intros HI Hf. revert st HI. induction l as [|a l IH]; intros st HI; [done|].
  apply wp_bind, (wp_mono _ (fun _ => I l)); [by apply Hf|]. intros []. apply IH.
Qed.

(** ** Machine integers *)

Definition u8_max : Z := 255.
Definition u16_max : Z := 65535.
Definition u32_max : Z := 4294967295.
Definition u64_max : Z := 18446744073709551615.
Definition u128_max : Z := 340282366920938463463374607431768211455.

(** Unsigned arithmetic wraps at the width of the type. *)
Definition wrap (w x : Z) : Z := x mod 2 ^ w.
Definition u8_add (a b : Z) : Z := wrap 8 (a + b).
Definition u8_sub (a b : Z) : Z := wrap 8 (a - b).
Definition u128_add (a b : Z) : Z := wrap 128 (a + b).
Definition u128_sub (a b : Z) : Z := wrap 128 (a - b).
Definition u128_shl (a n : Z) : Z := wrap 128 (Z.shiftl a n).
(** Bitwise complement on [u128]: [!x]. *)
(** [to_le_bytes] of an [n]-byte integer. *)
Fixpoint le_bytes (n : nat) (x : Z) : list Z :=
  match n with O => [] | S n => x mod 256 :: le_bytes n (x / 256) end.

Definition u128_not (x : Z) : Z := Z.lxor x u128_max.

Lemma wrap_small w x : 0 <= x < 2 ^ w -> wrap w x = x.
Proof. apply Z.mod_small. Qed.

Lemma pow2_pos n : 0 <= n -> 0 < 2 ^ n.
Proof. intros. apply Z.pow_pos_nonneg; lia. Qed.

Lemma pow2_split w k : 0 <= k <= w -> 2 ^ w = 2 ^ k * 2 ^ (w - k).
Proof. intros. rewrite <- Z.pow_add_r by lia. f_equal. lia. Qed.

Lemma pow2_le m n : 0 <= m <= n -> 2 ^ m <= 2 ^ n.
Proof. intros. apply Z.pow_le_mono_r; lia. Qed.

Lemma pow2_S n : 0 <= n -> 2 ^ (n + 1) = 2 * 2 ^ n.
Proof. intros. rewrite Z.pow_add_r by lia. lia. Qed.

(** Setting the low bits of an aligned number adds them. *)
Lemma lor_ones_aligned x k :
  0 <= k -> x mod 2 ^ k = 0 -> Z.lor x (2 ^ k - 1) = x + (2 ^ k - 1).
Proof.
  intros Hk Hx.
  assert (Hl : Z.land x (2 ^ k - 1) = 0).
  { replace (2 ^ k - 1) with (Z.ones k) by (rewrite Z.ones_equiv; lia).
    by rewrite Z.land_ones. }
  rewrite <- Z.lxor_lor by done. symmetry. by apply Z.add_nocarry_lxor.
Qed.

Lemma testbit_high w x i : 0 <= x < 2 ^ w -> 0 <= w <= i -> Z.testbit x i = false.
Proof.
  intros Hx Hi. rewrite <- (Z.mod_small x (2 ^ w)) by lia.
  apply Z.mod_pow2_bits_high. lia.
Qed.

(** Clearing the low bits rounds down to the alignment. *)
Lemma land_not_ones x k :
  0 <= x < 2 ^ 128 -> 0 <= k <= 128 ->
  Z.land x (u128_not (2 ^ k - 1)) = x - x mod 2 ^ k.
Proof.
  intros Hx Hk.
  replace (x - x mod 2 ^ k) with (Z.ldiff x (Z.ones k)).
  2:{ rewrite Z.ldiff_ones_r by lia. rewrite Z.shiftl_mul_pow2, Z.shiftr_div_pow2 by lia.
      pose proof (Z.div_mod x (2 ^ k)). pose proof (pow2_pos k). lia. }
  apply Z.bits_inj'. intros i Hi. unfold u128_not.
  rewrite Z.land_spec, Z.lxor_spec, Z.ldiff_spec.
  replace (2 ^ k - 1) with (Z.ones k) by (rewrite Z.ones_equiv; lia).
  change u128_max with (Z.ones 128).
  destruct (decide (i < 128)).
  - rewrite (Z.ones_spec_low 128) by lia. by rewrite xorb_true_r.
  - rewrite (testbit_high 128 x i) by lia. done.
Qed.

(** ** Text *)

(** Rust strings are byte strings here: [string] is the UTF-8 encoding. *)

Definition byte_of (c : ascii) : Z := Z.of_N (N_of_ascii c).

Definition byte_in (lo hi : Z) (c : ascii) : bool := (lo <=? byte_of c) && (byte_of c <=? hi).

Definition is_ascii_digit : ascii -> bool := byte_in 48 57.
Definition is_ascii_upper : ascii -> bool := byte_in 65 90.
Definition is_ascii_lower : ascii -> bool := byte_in 97 122.
Definition is_ascii_alphabetic (c : ascii) : bool := is_ascii_upper c || is_ascii_lower c.
Definition is_ascii_alphanumeric (c : ascii) : bool :=
  is_ascii_digit c || is_ascii_upper c || is_ascii_lower c.

Definition to_ascii_lowercase_char (c : ascii) : ascii :=
  if is_ascii_upper c then ascii_of_N (N_of_ascii c + 32) else c.

Fixpoint string_map (f : ascii -> ascii) (s : string) : string :=
  match s with EmptyString => EmptyString | String c s => String (f c) (string_map f s) end.

Definition to_ascii_lowercase : string -> string := string_map to_ascii_lowercase_char.

(** [str::eq_ignore_ascii_case]. *)
Definition eq_ignore_ascii_case (a b : string) : bool :=
  bool_decide (to_ascii_lowercase a = to_ascii_lowercase b).

Fixpoint string_all (p : ascii -> bool) (s : string) : bool :=
  match s with EmptyString => true | String c s => p c && string_all p s end.

Definition string_any (p : ascii -> bool) (s : string) : bool :=
  negb (string_all (fun c => negb (p c)) s).

Fixpoint string_filter (p : ascii -> bool) (s : string) : string :=
  match s with
  | EmptyString => EmptyString
  | String c s => if p c then String c (string_filter p s) else string_filter p s
  end.

(** [str::contains] with a string pattern. *)
Definition str_contains (pat s : string) : bool :=
  match String.index 0 pat s with Some _ => true | None => false end.

Fixpoint string_take (n : nat) (s : string) : string :=
  match n, s with
  | S n, String c s => String c (string_take n s)
  | _, _ => EmptyString
  end.

(** [slice::join]. *)
Fixpoint string_join (sep : string) (l : list string) : string :=
  match l with
  | [] => ""
  | [s] => s
  | s :: l => s +:+ sep +:+ string_join sep l
  end.

(** [str::len]. *)
Definition str_len (s : string) : Z := Z.of_nat (String.length s).

Definition string_concat (l : list string) : string := foldr String.append "" l.

Fixpoint string_repeat (c : ascii) (n : nat) : string :=
  match n with O => "" | S n => String c (string_repeat c n) end.

(** [Display] of an unsigned integer: decimal, no leading zeros. *)
Definition dec (z : Z) : string := NilEmpty.string_of_uint (N.to_uint (Z.to_N z)).

(** Decimal digits only, [None] on any other byte. *)
Definition parse_digits (s : string) : option Z :=
  (fun d => Z.of_N (N.of_uint d)) <$> NilEmpty.uint_of_string s.

Lemma parse_digits_dec z : 0 <= z -> parse_digits (dec z) = Some z.
Proof.
  intros Hz. unfold parse_digits, dec. rewrite NilEmpty.usu. cbn.
  by rewrite DecimalN.Unsigned.of_to, Z2N.id.
Qed.

Lemma parse_digits_nonneg s v : parse_digits s = Some v -> 0 <= v.
Proof. unfold parse_digits. destruct (NilEmpty.uint_of_string s); [|done]. intros [= <-]. lia. Qed.

Lemma dec_digits z : string_all is_ascii_digit (dec z) = true.
Proof. unfold dec. induction (N.to_uint (Z.to_N z)); cbn; auto. Qed.

(** No leading zeros. *)
Lemma dec_canonical z s : dec z = String "0" s -> s = "".
Proof.
  unfold dec. set (d := N.to_uint (Z.to_N z)).
  assert (Hd : Decimal.unorm d = d).
  { unfold d. by rewrite <- DecimalN.Unsigned.to_of, DecimalN.Unsigned.of_to. }
  destruct d as [|d| | | | | | | | |]; cbn; try discriminate. intros [= <-].
  unfold Decimal.unorm in Hd. cbn [Decimal.nzhead] in Hd.
  destruct (Decimal.nzhead d) eqn:E; [by injection Hd as <-|..]; try discriminate.
  pose proof (DecimalFacts.nb_digits_nzhead d) as Hn. rewrite E, Hd in Hn. cbn in Hn. lia.
Qed.

Lemma dec_nonempty z : dec z <> "".
Proof.
  unfold dec. destruct (Z.to_N z) as [|p]; [done|]. cbn.
  pose proof (DecimalPos.Unsigned.to_uint_nonnil p) as Hn. by destruct (Pos.to_uint p).
Qed.

Lemma of_uint_acc_ge d acc :
  Z.pos acc * 10 ^ Z.of_nat (Decimal.nb_digits d) <= Z.pos (Pos.of_uint_acc d acc).
Proof.
  revert acc. induction d as [|d IH|d IH|d IH|d IH|d IH|d IH|d IH|d IH|d IH|d IH]; intros acc;
    cbn [Decimal.nb_digits Pos.of_uint_acc]; [cbn; lia|..].
  all: rewrite Nat2Z.inj_succ, Z.pow_succ_r by lia; etransitivity; [|apply IH].
  all: assert (0 <= 10 ^ Z.of_nat (Decimal.nb_digits d)) by (apply Z.pow_nonneg; lia); nia.
Qed.

Lemma uint_of_string_length s d :
  NilEmpty.uint_of_string s = Some d -> Decimal.nb_digits d = String.length s.
Proof.
  revert d. induction s as [|c s IH]; intros d; cbn; [by intros [= <-]|].
  destruct (NilEmpty.uint_of_string s) as [d'|]; [|by destruct c as [[] [] [] [] [] [] [] []]].
  specialize (IH d' eq_refl).
  destruct c as [[] [] [] [] [] [] [] []]; cbn; try discriminate; intros [= <-]; cbn; by rewrite IH.
Qed.

(** A number is at least as large as its digits make it. *)
Lemma parse_digits_ge c s v :
  c <> "0"%char -> parse_digits (String c s) = Some v -> 10 ^ Z.of_nat (String.length s) <= v.
Proof.
  unfold parse_digits. cbn. intros Hc.
  destruct (NilEmpty.uint_of_string s) as [d|] eqn:E; [|by destruct c as [[] [] [] [] [] [] [] []]].
  rewrite <- (uint_of_string_length s d E).
  destruct c as [[] [] [] [] [] [] [] []]; cbn; try discriminate; try (by destruct Hc); intros [= <-].
  all: etransitivity; [|apply of_uint_acc_ge]; assert (0 <= 10 ^ Z.of_nat (Decimal.nb_digits d)) by (apply Z.pow_nonneg; lia); lia.
Qed.


Lemma dec_length z n : (0 < n)%nat -> 0 <= z < 10 ^ Z.of_nat n -> (String.length (dec z) <= n)%nat.
Proof.
  intros Hn Hz. pose proof (parse_digits_dec z ltac:(lia)) as Hp.
  destruct (dec z) as [|c s] eqn:E; [cbn; lia|]. destruct (decide (c = "0"%char)) as [->|Hc].
  - rewrite (dec_canonical z s E). cbn. lia.
  - apply parse_digits_ge in Hp; [|done]. cbn [String.length].
    destruct (Nat.le_gt_cases (S (String.length s)) n) as [?|Hlt]; [done|].
    assert (10 ^ Z.of_nat n <= 10 ^ Z.of_nat (String.length s)) by (apply Z.pow_le_mono_r; lia). lia.
Qed.

(** The value of a string of digits, leading zeros included. *)
Fixpoint digits_value (s : string) : Z :=
  match s with
  | "" => 0
  | String c s => (byte_of c - 48) * 10 ^ Z.of_nat (String.length s) + digits_value s
  end.

Lemma digits_value_bounds s :
  string_all is_ascii_digit s = true -> 0 <= digits_value s < 10 ^ Z.of_nat (String.length s).
Proof.
  induction s as [|c s IH]; [cbn; lia|]. cbn [string_all digits_value String.length].
  rewrite andb_true_iff. intros [Hc Hs]. specialize (IH Hs).
  unfold is_ascii_digit, byte_in in Hc. apply andb_true_iff in Hc as [?%Z.leb_le ?%Z.leb_le].
  rewrite Nat2Z.inj_succ, Z.pow_succ_r by lia. nia.
Qed.

Ltac eval_bytes :=
  repeat match goal with
  | |- context [byte_of ?c] => let v := eval vm_compute in (byte_of c) in change (byte_of c) with v
  end.

Lemma of_uint_acc_value d acc s :
  NilEmpty.uint_of_string s = Some d ->
  Z.pos (Pos.of_uint_acc d acc) = Z.pos acc * 10 ^ Z.of_nat (String.length s) + digits_value s.
Proof.
  revert d acc. induction s as [|c s IH]; intros d acc; cbn [NilEmpty.uint_of_string].
  { intros [= <-]. cbn. lia. }
  destruct (NilEmpty.uint_of_string s) as [d'|]; [|by destruct c as [[] [] [] [] [] [] [] []]].
  cbn [digits_value String.length]. rewrite Nat2Z.inj_succ, Z.pow_succ_r by lia.
  destruct c as [[] [] [] [] [] [] [] []]; cbn; try discriminate; intros [= <-]; cbn [Pos.of_uint_acc];
    rewrite (IH d'), ?Pos2Z.inj_add, ?Pos2Z.inj_mul by done; eval_bytes; lia.
Qed.

Lemma parse_digits_value s v : parse_digits s = Some v -> v = digits_value s.
Proof.
  revert v. unfold parse_digits. induction s as [|c s IH]; intros v; cbn [NilEmpty.uint_of_string].
  { by intros [= <-]. }
  destruct (NilEmpty.uint_of_string s) as [d|] eqn:E; [|by destruct c as [[] [] [] [] [] [] [] []]].
  specialize (IH _ eq_refl). cbn [digits_value].
  destruct c as [[] [] [] [] [] [] [] []]; cbn; try discriminate; intros [= <-].
  all: try (cbn; rewrite (of_uint_acc_value d _ s E); eval_bytes; lia).
  etransitivity; [exact IH|]. eval_bytes. lia.
Qed.

Lemma dec_inj a b : 0 <= a -> 0 <= b -> dec a = dec b -> a = b.
Proof.
  intros Ha Hb E. apply (f_equal parse_digits) in E.
  rewrite !parse_digits_dec in E by lia. congruence.
Qed.

Lemma string_app_nil_l s : "" +:+ s = s.
Proof. done. Qed.

Lemma string_app_cons c s t : String c s +:+ t = String c (s +:+ t).
Proof. done. Qed.

#[export] Hint Rewrite string_app_nil_l string_app_cons : text.

Lemma string_app_nil_r s : s +:+ "" = s.
Proof. induction s as [|c s IH]; autorewrite with text; [done|by f_equal]. Qed.

Lemma string_app_assoc a b c : (a +:+ b) +:+ c = a +:+ (b +:+ c).
Proof. induction a as [|x a IH]; autorewrite with text; [done|by f_equal]. Qed.

Lemma string_length_app a b : String.length (a +:+ b) = (String.length a + String.length b)%nat.
Proof. induction a as [|x a IH]; autorewrite with text; [done|]. cbn. by f_equal. Qed.

Lemma string_all_app p a b : string_all p (a +:+ b) = string_all p a && string_all p b.
Proof.
  induction a as [|x a IH]; autorewrite with text; [done|]. cbn. rewrite IH.
  by rewrite andb_assoc.
Qed.

Lemma string_map_length f s : String.length (string_map f s) = String.length s.
Proof. induction s as [|c s IH]; cbn; [done|by f_equal]. Qed.

Lemma string_take_app n a b :
  string_take n (a +:+ b) = string_take n a +:+ string_take (n - String.length a) b.
Proof.
  revert a. induction n as [|n IH]; intros [|c a]; autorewrite with text; cbn [string_take]; try done.
  by rewrite IH.
Qed.

Lemma string_take_all n s : (String.length s <= n)%nat -> string_take n s = s.
Proof.
  revert s. induction n as [|n IH]; intros [|c s]; cbn; [done|lia|done|].
  intros Hn. by rewrite IH by lia.
Qed.

Lemma string_take_prefix a b : string_take (String.length a) (a +:+ b) = a.
Proof.
  rewrite string_take_app, Nat.sub_diag, string_take_all by lia.
  destruct b; by rewrite string_app_nil_r.
Qed.

Lemma string_take_all_chars p n s : string_all p s = true -> string_all p (string_take n s) = true.
Proof.
  revert s. induction n as [|n IH]; intros [|c s]; cbn; try done.
  rewrite !andb_true_iff. intros [? ?]. auto.
Qed.

(** [str::split] on one character: always at least one piece. *)
Fixpoint string_split (sep : ascii) (s : string) : list string :=
  match s with
  | EmptyString => [""]
  | String c s =>
      if decide (c = sep) then "" :: string_split sep s
      else match string_split sep s with
           | p :: ps => String c p :: ps
           | [] => [String c ""]
           end
  end.

Lemma string_split_ne sep s : string_split sep s <> [].
Proof. destruct s as [|c s]; cbn; [done|]. by destruct (decide _), (string_split sep s). Qed.

Lemma string_split_app sep a b :
  string_split sep (a +:+ String sep b) = string_split sep a ++ string_split sep b.
Proof.
  induction a as [|c a IH]; autorewrite with text; cbn; [by rewrite decide_True|].
  destruct (decide (c = sep)); [by rewrite IH|]. rewrite IH.
  by destruct (string_split sep a) as [|p ps] eqn:E; [apply string_split_ne in E|].
Qed.

Lemma string_join_split sep s : string_join (String sep "") (string_split sep s) = s.
Proof.
  induction s as [|c s IH]; [done|]. cbn [string_split].
  destruct (string_split sep s) as [|p ps] eqn:E; [by apply string_split_ne in E|].
  destruct (decide (c = sep)) as [->|Hc]; rewrite <- IH; by destruct ps.
Qed.

(** The separator does not occur in the text. *)
Definition lacks (sep : ascii) (s : string) : bool :=
  string_all (fun c => negb (bool_decide (c = sep))) s.

Lemma string_all_impl (p q : ascii -> bool) s :
  (forall c, p c = true -> q c = true) -> string_all p s = true -> string_all q s = true.
Proof.
  intros Hpq. induction s as [|c s IH]; [done|]. cbn.
  rewrite !andb_true_iff. intros [? ?]. auto.
Qed.

Lemma string_split_lacks sep s : Forall (fun p => lacks sep p = true) (string_split sep s).
Proof.
  induction s as [|c s IH]; [repeat constructor|]. cbn.
  case_decide as Hc; [by constructor|].
  destruct (string_split sep s) as [|p ps]; inversion IH; subst; constructor; try done;
    unfold lacks; cbn; by rewrite bool_decide_eq_false_2.
Qed.

Lemma string_split_cons sep s t :
  lacks sep s = true -> string_split sep (s +:+ String sep t) = s :: string_split sep t.
Proof.
  induction s as [|c s IH]; autorewrite with text; cbn.
  - by rewrite decide_True.
  - rewrite andb_true_iff, negb_true_iff, bool_decide_eq_false. intros [Hc Hs].
    rewrite decide_False by done. by rewrite (IH Hs).
Qed.

Lemma string_split_single sep s : lacks sep s = true -> string_split sep s = [s].
Proof.
  induction s as [|c s IH]; [done|]. cbn.
  rewrite andb_true_iff, negb_true_iff, bool_decide_eq_false. intros [Hc Hs].
  rewrite decide_False by done. by rewrite (IH Hs).
Qed.

Lemma string_split_join sep l :
  l <> [] -> Forall (fun p => lacks sep p = true) l ->
  string_split sep (string_join (String sep "") l) = l.
Proof.
  intros Hne Hl. induction Hl as [|s l Hs Hl IH]; [done|].
  destruct l as [|s' l]; [by apply string_split_single|].
  change (string_join (String sep "") (s :: s' :: l))
    with (s +:+ String sep "" +:+ string_join (String sep "") (s' :: l)).
  autorewrite with text. rewrite string_split_cons by done. by rewrite IH.
Qed.

Lemma lacks_app c a b : lacks c (a +:+ b) = lacks c a && lacks c b.
Proof. apply string_all_app. Qed.

Lemma string_concat_app l k : string_concat (l ++ k) = string_concat l +:+ string_concat k.
Proof. induction l as [|s l IH]; [done|]. unfold string_concat in *. cbn. by rewrite IH, string_app_assoc. Qed.

Lemma str_len_app a b : str_len (a +:+ b) = str_len a + str_len b.
Proof. unfold str_len. rewrite string_length_app. lia. Qed.

Lemma str_len_nonneg s : 0 <= str_len s.
Proof. unfold str_len. lia. Qed.

(** [s.trim().is_empty()]: every character is Unicode white space, written as
    the UTF-8 sequences of the [White_Space] property. *)
Fixpoint is_blank (s : string) : bool :=
  match s with
  | EmptyString => true
  | String a r =>
      if byte_in 9 13 a || (byte_of a =? 32) then is_blank r
      else match r with
      | EmptyString => false
      | String b r2 =>
          if (byte_of a =? 0xC2) && ((byte_of b =? 0x85) || (byte_of b =? 0xA0)) then is_blank r2
          else match r2 with
          | EmptyString => false
          | String c r3 =>
              if ((byte_of a =? 0xE1) && (byte_of b =? 0x9A) && (byte_of c =? 0x80))
                 || ((byte_of a =? 0xE2) && (byte_of b =? 0x80) &&
                     (byte_in 0x80 0x8A c || byte_in 0xA8 0xA9 c || (byte_of c =? 0xAF)))
                 || ((byte_of a =? 0xE2) && (byte_of b =? 0x81) && (byte_of c =? 0x9F))
                 || ((byte_of a =? 0xE3) && (byte_of b =? 0x80) && (byte_of c =? 0x80))
              then is_blank r3 else false
          end
      end
  end.

(** [str::strip_prefix] and [str::strip_suffix] for one character. *)
Definition strip_prefix_char (c : ascii) (s : string) : option string :=
  match s with String x s => if decide (x = c) then Some s else None | EmptyString => None end.

Fixpoint strip_suffix_char (c : ascii) (s : string) : option string :=
  match s with
  | EmptyString => None
  | String x EmptyString => if decide (x = c) then Some "" else None
  | String x s => String x <$> strip_suffix_char c s
  end.

Lemma strip_suffix_char_app c s : strip_suffix_char c (s +:+ String c "") = Some s.
Proof.
  induction s as [|x s IH]; autorewrite with text; cbn [strip_suffix_char].
  - by rewrite decide_True.
  - rewrite IH. destruct s; done.
Qed.

Lemma strip_suffix_char_Some c s t : strip_suffix_char c s = Some t -> s = t +:+ String c "".
Proof.
  revert t. induction s as [|x s IH]; intros t H; [done|]. cbn [strip_suffix_char] in H.
  destruct s as [|y s].
  - case_decide; simplify_eq. done.
  - destruct (strip_suffix_char c (String y s)) as [u|] eqn:E; [|done].
    injection H as <-. autorewrite with text. by rewrite <- (IH u eq_refl).
Qed.

(** [split_at] at the first character that satisfies [p], or at the end. *)
Fixpoint break_at (p : ascii -> bool) (s : string) : string * string :=
  match s with
  | EmptyString => ("", "")
  | String c r =>
      if p c then ("", s) else let '(a, b) := break_at p r in (String c a, b)
  end.

(** [str::split_once] and [str::rsplit_once] for one character. *)
Fixpoint split_once (c : ascii) (s : string) : option (string * string) :=
  match s with
  | EmptyString => None
  | String x r =>
      if decide (x = c) then Some ("", r)
      else match split_once c r with Some (a, b) => Some (String x a, b) | None => None end
  end.

Fixpoint rsplit_once (c : ascii) (s : string) : option (string * string) :=
  match s with
  | EmptyString => None
  | String x r =>
      match rsplit_once c r with
      | Some (a, b) => Some (String x a, b)
      | None => if decide (x = c) then Some ("", r) else None
      end
  end.

(** [str::trim_start_matches], [str::trim_end_matches] and [str::trim_matches]. *)
Fixpoint trim_start_matches (p : ascii -> bool) (s : string) : string :=
  match s with
  | EmptyString => ""
  | String c r => if p c then trim_start_matches p r else s
  end.

Fixpoint trim_end_matches (p : ascii -> bool) (s : string) : string :=
  match s with
  | EmptyString => ""
  | String c r =>
      match trim_end_matches p r with
      | EmptyString => if p c then "" else String c ""
      | r' => String c r'
      end
  end.

Definition trim_matches (p : ascii -> bool) (s : string) : string :=
  trim_end_matches p (trim_start_matches p s).

Definition starts_with (p : ascii -> bool) (s : string) : bool :=
  match s with EmptyString => false | String c _ => p c end.

Lemma break_at_app p s a b : break_at p s = (a, b) -> s = a +:+ b.
Proof.
  revert a b. induction s as [|c s IH]; intros a b; cbn; [by intros [= <- <-]|].
  destruct (p c); [by intros [= <- <-]|]. destruct (break_at p s) as [a' b'].
  intros [= <- <-]. autorewrite with text. by rewrite (IH a' b').
Qed.

Lemma break_at_spec p s a b :
  break_at p s = (a, b) -> string_all (fun c => negb (p c)) a = true /\ (b = "" \/ starts_with p b = true).
Proof.
  revert a b. induction s as [|c s IH]; intros a b; cbn; [intros [= <- <-]; auto|].
  destruct (p c) eqn:Hc; [intros [= <- <-]; cbn; auto|]. destruct (break_at p s) as [a' b'].
  intros [= <- <-]. cbn. rewrite Hc. by apply IH.
Qed.

Lemma break_at_make p a b :
  string_all (fun c => negb (p c)) a = true -> (b = "" \/ starts_with p b = true) ->
  break_at p (a +:+ b) = (a, b).
Proof.
  intros Ha Hb. induction a as [|c a IH]; autorewrite with text; cbn.
  - destruct Hb as [->|Hb]; [done|]. destruct b; [done|]. cbn in *. by rewrite Hb.
  - cbn in Ha. apply andb_true_iff in Ha as [Hc Ha]. apply negb_true_iff in Hc.
    by rewrite Hc, (IH Ha).
Qed.

Lemma split_once_make c a b : lacks c a = true -> split_once c (a +:+ String c b) = Some (a, b).
Proof.
  induction a as [|x a IH]; autorewrite with text; cbn; [by rewrite decide_True|].
  rewrite andb_true_iff, negb_true_iff, bool_decide_eq_false. intros [Hx Ha].
  by rewrite decide_False, (IH Ha).
Qed.

Lemma split_once_lacks c s : lacks c s = true -> split_once c s = None.
Proof.
  unfold lacks. induction s as [|x s IH]; [done|]. cbn.
  rewrite andb_true_iff, negb_true_iff, bool_decide_eq_false. intros [Hx Hs].
  by rewrite decide_False, (IH Hs).
Qed.

Lemma split_once_Some c s a b :
  split_once c s = Some (a, b) <-> s = a +:+ String c b /\ lacks c a = true.
Proof.
  split; [|intros [-> Ha]; by apply split_once_make].
  revert a. induction s as [|x s IH]; intros a; cbn; [done|]. case_decide as Hx.
  - intros [= <- <-]. by subst.
  - destruct (split_once c s) as [[a' b']|]; [|done]. intros [= <- <-].
    destruct (IH a' eq_refl) as [-> Hl]. split; [done|]. cbn. by rewrite bool_decide_eq_false_2.
Qed.

Lemma split_once_None c s : split_once c s = None <-> lacks c s = true.
Proof.
  split; [|apply split_once_lacks]. unfold lacks. induction s as [|x s IH]; [done|]. cbn.
  case_decide as Hx; [done|]. destruct (split_once c s) as [[]|]; [done|]. intros _.
  rewrite bool_decide_eq_false_2 by done. cbn. by apply IH.
Qed.

Lemma rsplit_once_None c s : rsplit_once c s = None <-> lacks c s = true.
Proof.
  unfold lacks. induction s as [|x s IH]; [done|]. cbn. destruct (rsplit_once c s) as [[]|].
  - split; [done|]. rewrite andb_true_iff. intros [_ H%IH]. done.
  - rewrite (proj1 IH eq_refl), andb_true_r, negb_true_iff, bool_decide_eq_false.
    by case_decide.
Qed.

Lemma rsplit_once_Some c s a b :
  rsplit_once c s = Some (a, b) <-> s = a +:+ String c b /\ lacks c b = true.
Proof.
  revert a. induction s as [|x s IH]; intros a; cbn.
  - split; [done|]. by destruct a as [|? a]; autorewrite with text; intros [? _].
  - destruct (rsplit_once c s) as [[a' b']|] eqn:E.
    + split.
      * intros [= <- <-]. destruct (proj1 (IH a') eq_refl) as [-> ?]. by autorewrite with text.
      * intros [H Hb]. destruct a as [|y a]; autorewrite with text in H; injection H as -> ->.
        { by apply rsplit_once_None in Hb; congruence. }
        pose proof (proj2 (IH a) (conj eq_refl Hb)). by simplify_eq.
    + apply rsplit_once_None in E. split.
      * case_decide; intros [= <- <-]. subst. by autorewrite with text.
      * intros [H Hb]. destruct a as [|y a]; autorewrite with text in H; injection H as -> ->.
        { by rewrite decide_True. }
        exfalso. unfold lacks in E. rewrite string_all_app in E. cbn in E.
        by rewrite bool_decide_eq_true_2, andb_false_r in E.
Qed.

(** ** Counting *)

(** A list whose elements are related to distinct elements of another list is
    no longer than it. *)
Lemma length_le_by_rel {A B} (R : A -> B -> Prop) (l : list A) (k : list B) :
  NoDup l ->
  (forall x, x ∈ l -> exists y, y ∈ k /\ R x y) ->
  (forall x x' y, x ∈ l -> x' ∈ l -> R x y -> R x' y -> x = x') ->
  (length l <= length k)%nat.
Proof.
  revert k. induction l as [|x l IH]; intros k Hnd Hex Hinj; [cbn; lia|].
  apply NoDup_cons in Hnd as [Hx Hnd].
  destruct (Hex x) as (y & Hy & HR); [left|].
  apply list_elem_of_split in Hy as (k1 & k2 & ->).
  enough (length l <= length (k1 ++ k2))%nat by (rewrite length_app in *; cbn in *; lia).
  apply IH; [done| |].
  - intros x' Hx'. destruct (Hex x') as (y' & Hy' & HR'); [by right|].
    exists y'. split; [|done]. apply elem_of_app in Hy' as [?|[->|?]%elem_of_cons];
      [apply elem_of_app; by left| |apply elem_of_app; by right].
    destruct Hx. by rewrite (Hinj x x' y ltac:(left) ltac:(by right) HR HR').
  - intros x1 x2 y' H1 H2. apply Hinj; by right.
Qed.

(** ** White space *)

Definition is_ascii_space (c : ascii) : bool := byte_in 9 13 c || (byte_of c =? 32).

(** The text starts with a white space character ([char::is_whitespace]). *)
Definition starts_white (s : string) : bool :=
  match s with
  | EmptyString => false
  | String a r =>
      is_ascii_space a ||
      match r with
      | EmptyString => false
      | String b r =>
          ((byte_of a =? 0xC2) && ((byte_of b =? 0x85) || (byte_of b =? 0xA0))) ||
          match r with
          | EmptyString => false
          | String c _ =>
              ((byte_of a =? 0xE1) && (byte_of b =? 0x9A) && (byte_of c =? 0x80))
              || ((byte_of a =? 0xE2) && (byte_of b =? 0x80) &&
                  (byte_in 0x80 0x8A c || byte_in 0xA8 0xA9 c || (byte_of c =? 0xAF)))
              || ((byte_of a =? 0xE2) && (byte_of b =? 0x81) && (byte_of c =? 0x9F))
              || ((byte_of a =? 0xE3) && (byte_of b =? 0x80) && (byte_of c =? 0x80))
          end
      end
  end.

(** [chars().any(char::is_whitespace)]: the bytes of a white space character
    start one nowhere else. *)
Fixpoint has_white (s : string) : bool :=
  match s with EmptyString => false | String _ r => starts_white s || has_white r end.

(** [str::trim]. *)
Fixpoint trim_end (s : string) : string :=
  if is_blank s then "" else match s with EmptyString => "" | String c r => String c (trim_end r) end.

Fixpoint trim_start (s : string) : string :=
  match s with
  | EmptyString => ""
  | String a r =>
      if is_ascii_space a then trim_start r
      else if starts_white s then
        match r with
        | String b r =>
            if byte_of a =? 0xC2 then trim_start r
            else match r with String _ r => trim_start r | EmptyString => "" end
        | EmptyString => ""
        end
      else s
  end.

Definition trim (s : string) : string := trim_end (trim_start s).
