(* ===== verification/NetText.v ===== *)
(** * Internet addresses and their text

    [std::net::IpAddr] as the network code uses it: an IPv4 address is its
    [u32] value, an IPv6 address its [u128] value.  [ip_text] is the [Display]
    rendering the packet-filter rules are written with, [parse_ip] the
    [FromStr] parser that decides whether a host is an IP literal. *)

From Stdlib Require Import Ascii.
From S2P Require Import Prelude.

Inductive IpAddr : Type :=
| V4 (bits : Z)
| V6 (bits : Z).

#[global] Instance IpAddr_eq_dec : EqDecision IpAddr.
Proof. solve_decision. Defined.

(** The value fits the type. *)
Definition ip_wf (a : IpAddr) : Prop :=
  match a with V4 x => 0 <= x < 2 ^ 32 | V6 x => 0 <= x < 2 ^ 128 end.

(** [Ipv6Addr::to_ipv4_mapped]: the last 32 bits of [::ffff:0:0/96]. *)
Definition to_ipv4_mapped (x : Z) : option Z :=
  if Z.shiftr x 32 =? 65535 then Some (Z.land x u32_max) else None.

Lemma to_ipv4_mapped_Some x y :
  0 <= x -> to_ipv4_mapped x = Some y <-> 0 <= y < 2 ^ 32 /\ x = 65535 * 2 ^ 32 + y.
Proof.
  intros Hx. unfold to_ipv4_mapped. change u32_max with (Z.ones 32).
  rewrite Z.land_ones, Z.shiftr_div_pow2 by lia.
  pose proof (Z.div_mod x (2 ^ 32)). pose proof (Z.mod_pos_bound x (2 ^ 32)).
  destruct (Z.eqb_spec (x / 2 ^ 32) 65535) as [E|E]; split.
  - intros [= <-]. lia.
  - intros [? ?]. f_equal. lia.
  - discriminate.
  - intros [? ->]. destruct E. rewrite Z.add_comm, Z.div_add by lia.
    rewrite Z.div_small by lia. done.
Qed.

(** ** Display *)

Definition ipv4_text (x : Z) : string :=
  dec (Z.shiftr x 24) +:+ "." +:+ dec (Z.land (Z.shiftr x 16) 255) +:+ "." +:+
  dec (Z.land (Z.shiftr x 8) 255) +:+ "." +:+ dec (Z.land x 255).

Definition hex_digit (d : Z) : ascii :=
  if d <? 10 then ascii_of_N (Z.to_N (48 + d)) else ascii_of_N (Z.to_N (87 + d)).

(** Lower-case hexadecimal of a [u16], no leading zeros. *)
Definition hex16 (x : Z) : string :=
  let d3 := Z.shiftr x 12 in
  let d2 := Z.land (Z.shiftr x 8) 15 in
  let d1 := Z.land (Z.shiftr x 4) 15 in
  let d0 := Z.land x 15 in
  let tail1 := String (hex_digit d0) "" in
  let tail2 := String (hex_digit d1) tail1 in
  let tail3 := String (hex_digit d2) tail2 in
  if 0 <? d3 then String (hex_digit d3) tail3
  else if 0 <? d2 then tail3 else if 0 <? d1 then tail2 else tail1.

(** The eight 16-bit groups, most significant first. *)
Definition segments (x : Z) : list Z :=
  (fun i => Z.land (Z.shiftr x (16 * (7 - Z.of_nat i))) u16_max) <$> seq 0 8.

(** The first longest run of zero groups, as (start, length). *)
Fixpoint longest_zeros (i : nat) (cur best : nat * nat) (l : list Z) : nat * nat :=
  match l with
  | [] => best
  | s :: l =>
      if s =? 0 then
        let cur := if decide (cur.2 = 0%nat) then (i, 1%nat) else (cur.1, S cur.2) in
        longest_zeros (S i) cur (if decide (best.2 < cur.2)%nat then cur else best) l
      else longest_zeros (S i) (0%nat, 0%nat) best l
  end.

Definition ipv6_text (x : Z) : string :=
  match to_ipv4_mapped x with
  | Some v4 => "::ffff:" +:+ ipv4_text v4
  | None =>
      let segs := segments x in
      let '(start, len) := longest_zeros 0 (0%nat, 0%nat) (0%nat, 0%nat) segs in
      if decide (1 < len)%nat then
        string_join ":" (hex16 <$> take start segs) +:+ "::" +:+
        string_join ":" (hex16 <$> drop (start + len) segs)
      else string_join ":" (hex16 <$> segs)
  end.

Definition ip_text (a : IpAddr) : string :=
  match a with V4 x => ipv4_text x | V6 x => ipv6_text x end.

(** ** Parsing *)

Definition parser (A : Type) : Type := list ascii -> option (A * list ascii).

Definition to_digit (radix : Z) (c : ascii) : option Z :=
  let b := byte_of c in
  let d := if byte_in 48 57 c then b - 48
           else if byte_in 97 122 c then b - 87
           else if byte_in 65 90 c then b - 55 else 99 in
  if d <? radix then Some d else None.

(** The digits at the head of the input, and their value. *)
Fixpoint read_digits (radix : Z) (acc : Z) (n : nat) (l : list ascii) : Z * nat * list ascii :=
  match l with
  | c :: l' =>
      match to_digit radix c with
      | Some d => read_digits radix (acc * radix + d) (S n) l'
      | None => (acc, n, l)
      end
  | [] => (acc, n, [])
  end.

(** [Parser::read_number], bounded by [max_value] of the target type. *)
Definition read_number (radix : Z) (max_digits : nat) (allow_zero_prefix : bool) (max_value : Z)
  : parser Z := fun l =>
  let '(v, n, rest) := read_digits radix 0 0 l in
  let leading_zero := match l with c :: _ => bool_decide (byte_of c = 48) | [] => false end in
  if bool_decide (n = 0%nat) then None
  else if bool_decide (max_digits < n)%nat then None
  else if max_value <? v then None
  else if negb allow_zero_prefix && leading_zero && bool_decide (1 < n)%nat then None
  else Some (v, rest).

Definition read_char (c : ascii) : parser unit := fun l =>
  match l with x :: l => if decide (x = c) then Some (tt, l) else None | [] => None end.

Definition read_separator {A} (sep : ascii) (i : nat) (inner : parser A) : parser A := fun l =>
  match i with
  | O => inner l
  | S _ => match read_char sep l with Some (_, l) => inner l | None => None end
  end.

Definition read_octet : parser Z := read_number 10 3 false 255.

Definition read_ipv4 : parser Z := fun l =>
  '(a, l) ← read_octet l;
  '(b, l) ← read_separator "." 1 read_octet l;
  '(c, l) ← read_separator "." 2 read_octet l;
  '(d, l) ← read_separator "." 3 read_octet l;
  Some (((a * 256 + b) * 256 + c) * 256 + d, l).

(** [read_groups]: up to [limit] groups, the last two possibly an IPv4 address. *)
Fixpoint read_groups (i : nat) (left : nat) (l : list ascii) : list Z * bool * list ascii :=
  match left with
  | O => ([], false, l)
  | S left' =>
      let v4 := if decide (left' = 0%nat) then None else read_separator ":" i read_ipv4 l in
      match v4 with
      | Some (x, l') => ([Z.shiftr x 16; Z.land x u16_max], true, l')
      | None =>
          match read_separator ":" i (read_number 16 4 true u16_max) l with
          | Some (g, l') =>
              let '(gs, b, l'') := read_groups (S i) left' l' in (g :: gs, b, l'')
          | None => ([], false, l)
          end
      end
  end.

Definition groups_value (gs : list Z) : Z := foldl (fun acc g => acc * 65536 + g) 0 gs.

Definition read_ipv6 : parser Z := fun l =>
  let '(head, head_v4, l1) := read_groups 0 8 l in
  if decide (length head = 8%nat) then Some (groups_value head, l1)
  else if head_v4 then None
  else
    '(_, l2) ← read_char ":" l1;
    '(_, l3) ← read_char ":" l2;
    let '(tail, _, l4) := read_groups 0 (7 - length head) l3 in
    Some (groups_value (head ++ replicate (8 - length head - length tail) 0 ++ tail), l4).

Definition read_ip : parser IpAddr := fun l =>
  match read_ipv4 l with
  | Some (x, l) => Some (V4 x, l)
  | None => match read_ipv6 l with Some (x, l) => Some (V6 x, l) | None => None end
  end.

(** The parser must consume the whole text. *)
Definition parse_with {A} (p : parser A) (s : string) : option A :=
  match p (String.list_ascii_of_string s) with Some (a, []) => Some a | _ => None end.

(** [Ipv4Addr::from_str]: nothing longer than [255.255.255.255] is tried. *)
Definition parse_ipv4 (s : string) : option Z :=
  if decide (15 < String.length s)%nat then None else parse_with read_ipv4 s.

(** [IpAddr::from_str]. *)
Definition parse_ip (s : string) : option IpAddr := parse_with read_ip s.

Example ip_text_examples :
  ip_text (V4 2130706433) = "127.0.0.1" /\
  ip_text (V6 1) = "::1" /\ ip_text (V6 0) = "::" /\
  ip_text (V6 (65535 * 2 ^ 32 + 167772161)) = "::ffff:10.0.0.1" /\
  ip_text (V6 (0x20010db8000000000000000000000001)) = "2001:db8::1" /\
  ip_text (V6 (0x00010000000000010000000000000001)) = "1:0:0:1::1".
Proof. vm_compute. done. Qed.

Example parse_ip_examples :
  parse_ip "127.0.0.1" = Some (V4 2130706433) /\
  parse_ip "::1" = Some (V6 1) /\ parse_ip "[::1]" = None /\
  parse_ip "01.2.3.4" = None /\ parse_ip "1.2.3" = None /\ parse_ip "localhost" = None /\
  parse_ip "::ffff:10.0.0.1" = Some (V6 (65535 * 2 ^ 32 + 167772161)) /\
  parse_ip "2001:db8::1" = Some (V6 0x20010db8000000000000000000000001).
Proof. vm_compute. done. Qed.

(** ** The IPv4 text is read back *)

Definition starts_digit (radix : Z) (l : list ascii) : bool :=
  match l with c :: _ => bool_decide (is_Some (to_digit radix c)) | [] => false end.

Lemma read_digits_app radix acc n l v m rest :
  read_digits radix acc n l = (v, m, []) -> starts_digit radix rest = false ->
  read_digits radix acc n (l ++ rest) = (v, m, rest).
Proof.
  revert acc n. induction l as [|c l IH]; intros acc n E Hr; cbn in *.
  - injection E as <- <-. destruct rest as [|c rest]; [done|]. cbn in Hr |- *.
    destruct (to_digit radix c); [|done]. by rewrite bool_decide_eq_true_2 in Hr.
  - destruct (to_digit radix c); [by apply IH|done].
Qed.

Lemma read_number_app radix md az mv l v rest :
  read_number radix md az mv l = Some (v, []) -> starts_digit radix rest = false ->
  read_number radix md az mv (l ++ rest) = Some (v, rest).
Proof.
  unfold read_number. destruct (read_digits radix 0 0 l) as [[v' n] r] eqn:E. intros H Hr.
  assert (r = [] /\ v' = v) as [-> ->].
  { repeat case_match; simplify_eq; done. }
  rewrite (read_digits_app _ _ _ _ _ _ _ E Hr).
  destruct l as [|c l]; [injection E as <- <-; done|].
  cbn [app]. repeat case_match; simplify_eq; done.
Qed.

Definition dec_octet_ok (x : Z) : bool :=
  bool_decide (read_octet (String.list_ascii_of_string (dec x)) = Some (x, [])) &&
  bool_decide (String.length (dec x) <= 3)%nat.

Lemma dec_octet x :
  0 <= x < 256 ->
  read_octet (String.list_ascii_of_string (dec x)) = Some (x, []) /\
  (String.length (dec x) <= 3)%nat.
Proof.
  intros Hx.
  assert (H : forallb dec_octet_ok (Z.of_nat <$> seq 0 256) = true) by (vm_compute; done).
  rewrite forallb_forall in H. specialize (H x).
  rewrite <- list_elem_of_In, list_elem_of_fmap in H.
  assert (Hok : dec_octet_ok x = true).
  { apply H. exists (Z.to_nat x). split; [lia|]. apply elem_of_seq. lia. }
  unfold dec_octet_ok in Hok. apply andb_true_iff in Hok as [H1 H2].
  by apply bool_decide_eq_true in H1, H2.
Qed.

Lemma list_ascii_app a b :
  String.list_ascii_of_string (a +:+ b) =
  String.list_ascii_of_string a ++ String.list_ascii_of_string b.
Proof. induction a as [|c a IH]; [done|]. unfold String.app in *. cbn. by f_equal. Qed.

Lemma octets_value x :
  0 <= x < 2 ^ 32 ->
  exists a b c d, 0 <= a < 256 /\ 0 <= b < 256 /\ 0 <= c < 256 /\ 0 <= d < 256 /\
    Z.shiftr x 24 = a /\ Z.land (Z.shiftr x 16) 255 = b /\
    Z.land (Z.shiftr x 8) 255 = c /\ Z.land x 255 = d /\
    ((a * 256 + b) * 256 + c) * 256 + d = x.
Proof.
  intros Hx. change (2 ^ 32) with 4294967296 in Hx.
  change 255 with (Z.ones 8). rewrite !Z.land_ones, !Z.shiftr_div_pow2 by lia.
  change (2 ^ 24) with (2 ^ 8 * 2 ^ 8 * 2 ^ 8). change (2 ^ 16) with (2 ^ 8 * 2 ^ 8).
  rewrite <- !Z.div_div by lia.
  pose proof (Z.div_mod x 256). pose proof (Z.div_mod (x / 256) 256).
  pose proof (Z.div_mod (x / 256 / 256) 256).
  pose proof (Z.mod_pos_bound x 256). pose proof (Z.mod_pos_bound (x / 256) 256).
  pose proof (Z.mod_pos_bound (x / 256 / 256) 256).
  assert (0 <= x / 256 / 256 / 256 < 256).
  { rewrite !Z.div_div by lia. split; [apply Z.div_pos; lia|]. apply Z.div_lt_upper_bound; lia. }
  change (2 ^ 8) with 256 in *.
  exists (x / 256 / 256 / 256), (x / 256 / 256 mod 256), (x / 256 mod 256), (x mod 256).
  repeat (split; [reflexivity || lia|]). lia.
Qed.

Lemma read_separator_cons {A} sep i (inner : parser A) l :
  read_separator sep (S i) inner (sep :: l) = inner l.
Proof. cbn. by rewrite decide_True. Qed.

Lemma read_ipv4_text x rest :
  0 <= x < 2 ^ 32 -> starts_digit 10 rest = false ->
  read_ipv4 (String.list_ascii_of_string (ipv4_text x) ++ rest) = Some (x, rest).
Proof.
  intros Hx Hrest.
  destruct (octets_value x Hx) as (a & b & c & d & Ha & Hb & Hc & Hd & E1 & E2 & E3 & E4 & E).
  unfold ipv4_text. rewrite E1, E2, E3, E4.
  destruct (dec_octet a Ha) as [Pa La], (dec_octet b Hb) as [Pb Lb].
  destruct (dec_octet c Hc) as [Pc Lc], (dec_octet d Hd) as [Pd Ld].
  unfold read_ipv4. rewrite !list_ascii_app, <- !app_assoc.
  cbn [String.list_ascii_of_string app]. unfold read_octet in *.
  do 3 (erewrite read_number_app by done; cbn -[read_number read_separator dec];
        rewrite read_separator_cons).
  erewrite read_number_app by done. cbn. by rewrite E.
Qed.

Lemma parse_ipv4_text x : 0 <= x < 2 ^ 32 -> parse_ipv4 (ipv4_text x) = Some x.
Proof.
  intros Hx. unfold parse_ipv4. rewrite decide_False.
  - unfold parse_with. rewrite <- (app_nil_r (String.list_ascii_of_string _)).
    by rewrite read_ipv4_text.
  - destruct (octets_value x Hx) as (a & b & c & d & Ha & Hb & Hc & Hd & E1 & E2 & E3 & E4 & E).
    unfold ipv4_text. rewrite E1, E2, E3, E4.
    pose proof (proj2 (dec_octet a Ha)). pose proof (proj2 (dec_octet b Hb)).
    pose proof (proj2 (dec_octet c Hc)). pose proof (proj2 (dec_octet d Hd)).
    rewrite !string_length_app. cbn [String.length]. lia.
Qed.

(** ** The IPv6 text is read back *)

Lemma to_digit_hex d : 0 <= d < 16 -> to_digit 16 (hex_digit d) = Some d.
Proof.
  intros Hd. assert (In d [0;1;2;3;4;5;6;7;8;9;10;11;12;13;14;15]) as Hin by (cbn; lia).
  clear Hd. revert d Hin. apply List.Forall_forall. by repeat constructor.
Qed.

Lemma nibbles x :
  0 <= x <= u16_max ->
  exists a b c d, 0 <= a < 16 /\ 0 <= b < 16 /\ 0 <= c < 16 /\ 0 <= d < 16 /\
    Z.shiftr x 12 = a /\ Z.land (Z.shiftr x 8) 15 = b /\
    Z.land (Z.shiftr x 4) 15 = c /\ Z.land x 15 = d /\
    ((a * 16 + b) * 16 + c) * 16 + d = x.
Proof.
  unfold u16_max. intros Hx.
  change 15 with (Z.ones 4). rewrite !Z.land_ones, !Z.shiftr_div_pow2 by lia.
  change (2 ^ 12) with (2 ^ 4 * 2 ^ 4 * 2 ^ 4). change (2 ^ 8) with (2 ^ 4 * 2 ^ 4).
  rewrite <- !Z.div_div by lia. change (2 ^ 4) with 16 in *.
  exists (x / 16 / 16 / 16), (x / 16 / 16 mod 16), (x / 16 mod 16), (x mod 16).
  repeat (split; [reflexivity || Z.to_euclidean_division_equations; lia|]).
  Z.to_euclidean_division_equations; lia.
Qed.

Lemma read_hex_digits ds acc n :
  Forall (fun d => 0 <= d < 16) ds ->
  read_digits 16 acc n (hex_digit <$> ds) =
    (foldl (fun acc d => acc * 16 + d) acc ds, (n + length ds)%nat, []).
Proof.
  intros Hds. revert acc n. induction Hds as [|d ds Hd _ IH]; intros acc n.
  - cbn. by rewrite Nat.add_0_r.
  - cbn -[to_digit]. rewrite to_digit_hex, IH by done. cbn. by rewrite Nat.add_succ_r.
Qed.

Lemma read_hex_number ds :
  Forall (fun d => 0 <= d < 16) ds -> (1 <= length ds <= 4)%nat ->
  foldl (fun acc d => acc * 16 + d) 0 ds <= u16_max ->
  read_number 16 4 true u16_max (hex_digit <$> ds) =
    Some (foldl (fun acc d => acc * 16 + d) 0 ds, []) /\
  Forall (fun c => is_Some (to_digit 16 c)) (hex_digit <$> ds).
Proof.
  intros Hds Hl Hv. split.
  - unfold read_number. rewrite read_hex_digits by done. cbn [Nat.add].
    rewrite !bool_decide_eq_false_2 by lia. destruct (Z.ltb_spec u16_max
      (foldl (fun acc d => acc * 16 + d) 0 ds)); [lia|done].
  - apply Forall_fmap. eapply Forall_impl; [exact Hds|]. intros d Hd. cbn.
    rewrite to_digit_hex by done. by eexists.
Qed.

(** A group is read back, and its text holds only hexadecimal digits. *)
Lemma read_hex16 g :
  0 <= g <= u16_max ->
  read_number 16 4 true u16_max (String.list_ascii_of_string (hex16 g)) = Some (g, []) /\
  Forall (fun c => is_Some (to_digit 16 c)) (String.list_ascii_of_string (hex16 g)).
Proof.
  intros Hg. destruct (nibbles g Hg) as (a & b & c & d & Ha & Hb & Hc & Hd & E1 & E2 & E3 & E4 & E).
  unfold hex16. rewrite E1, E2, E3, E4.
  assert (Hds : exists ds, Forall (fun d => 0 <= d < 16) ds /\ (1 <= length ds <= 4)%nat /\
    foldl (fun acc d => acc * 16 + d) 0 ds = g /\
    String.list_ascii_of_string
      (if 0 <? a then String (hex_digit a) (String (hex_digit b) (String (hex_digit c) (String (hex_digit d) "")))
       else if 0 <? b then String (hex_digit b) (String (hex_digit c) (String (hex_digit d) ""))
       else if 0 <? c then String (hex_digit c) (String (hex_digit d) "")
       else String (hex_digit d) "") = hex_digit <$> ds).
  { destruct (Z.ltb_spec 0 a); [exists [a; b; c; d]|destruct (Z.ltb_spec 0 b);
      [exists [b; c; d]|destruct (Z.ltb_spec 0 c); [exists [c; d]|exists [d]]]];
      (split; [by repeat (apply List.Forall_cons; [done|])|]); cbn; split_and!; (lia || done). }
  destruct Hds as (ds & H1 & H2 & <- & ->). apply read_hex_number; [done|done|lia].
Qed.

Lemma groups_segments x : 0 <= x < 2 ^ 128 -> groups_value (segments x) = x.
Proof.
  intros Hx. unfold groups_value, segments. cbn [fmap list_fmap seq foldl].
  change u16_max with (Z.ones 16). rewrite !Z.land_ones, !Z.shiftr_div_pow2 by lia.
  assert (Hdiv : forall k, 0 <= k -> x / 2 ^ (16 * (k + 1)) = x / 2 ^ (16 * k) / 65536).
  { intros k Hk. rewrite Z.div_div by (try apply pow2_pos; lia). f_equal.
    change 65536 with (2 ^ 16). rewrite <- Z.pow_add_r by lia. f_equal. lia. }
  assert (Hstep : forall k m, 0 <= k -> m = k + 1 ->
    x / 2 ^ (16 * m) * 65536 + (x / 2 ^ (16 * k)) mod 2 ^ 16 = x / 2 ^ (16 * k)).
  { intros k m Hk ->. rewrite Hdiv by done. change (2 ^ 16) with 65536.
    pose proof (Z.div_mod (x / 2 ^ (16 * k)) 65536). lia. }
  assert (Htop : x / 2 ^ (16 * 8) = 0) by (apply Z.div_small; change (16 * 8) with 128; lia).
  pose proof (Hstep 7 8 ltac:(lia) eq_refl) as H7. rewrite Htop in H7.
  change (7 - Z.of_nat 0) with 7. rewrite H7.
  change (7 - Z.of_nat 1) with 6. rewrite (Hstep 6 7 ltac:(lia) eq_refl).
  change (7 - Z.of_nat 2) with 5. rewrite (Hstep 5 6 ltac:(lia) eq_refl).
  change (7 - Z.of_nat 3) with 4. rewrite (Hstep 4 5 ltac:(lia) eq_refl).
  change (7 - Z.of_nat 4) with 3. rewrite (Hstep 3 4 ltac:(lia) eq_refl).
  change (7 - Z.of_nat 5) with 2. rewrite (Hstep 2 3 ltac:(lia) eq_refl).
  change (7 - Z.of_nat 6) with 1. rewrite (Hstep 1 2 ltac:(lia) eq_refl).
  change (7 - Z.of_nat 7) with 0. rewrite (Hstep 0 1 ltac:(lia) eq_refl).
  cbn. apply Z.div_1_r.
Qed.

Lemma segments_range x : Forall (fun g => 0 <= g <= u16_max) (segments x).
Proof.
  apply Forall_fmap, Forall_forall. intros i _. cbn. change u16_max with (Z.ones 16).
  rewrite Z.land_ones by lia.
  pose proof (Z.mod_pos_bound (Z.shiftr x (16 * (7 - Z.of_nat i))) (2 ^ 16) eq_refl).
  change (Z.ones 16) with (2 ^ 16 - 1). lia.
Qed.

(** A run of zero groups inside the list. *)
Definition zero_run (l : list Z) (r : nat * nat) : Prop :=
  (r.1 + r.2 <= length l)%nat /\ forall j, (r.1 <= j < r.1 + r.2)%nat -> l !! j = Some 0.

Lemma longest_zeros_run l i cur best rest :
  drop i l = rest -> (i <= length l)%nat -> zero_run l cur -> zero_run l best ->
  (cur.2 = 0%nat \/ (cur.1 + cur.2)%nat = i) -> zero_run l (longest_zeros i cur best rest).
Proof.
  revert i cur best. induction rest as [|s rest IH]; intros i cur best Hd Hi Hc Hb He; [done|].
  assert (Hs : l !! i = Some s) by (by rewrite <- (Nat.add_0_r i), <- lookup_drop, Hd).
  assert (Hlt : (i < length l)%nat) by (by eapply lookup_lt_Some).
  assert (Hd' : drop (S i) l = rest) by (by rewrite <- Nat.add_1_r, <- drop_drop, Hd).
  cbn [longest_zeros]. destruct (Z.eqb_spec s 0) as [->|Hs0].
  - set (cur' := if decide (cur.2 = 0%nat) then (i, 1%nat) else (cur.1, S cur.2)).
    assert (Hc' : zero_run l cur' /\ (cur'.1 + cur'.2 = S i)%nat).
    { unfold cur'. destruct Hc as [Hc1 Hc2]. case_decide as Hz; cbn; unfold zero_run; cbn.
      - split; [split; [lia|]|lia]. intros j Hj. by replace j with i by lia.
      - destruct He as [|He]; [done|]. split; [split; [lia|]|lia]. intros j Hj.
        destruct (decide (j = i)) as [->|]; [done|]. apply Hc2. lia. }
    destruct Hc' as [Hc' Heq]. apply IH; [done|lia|done| |by right]. by case_decide.
  - apply IH; [done|lia| |done|by left]. split; cbn; [lia|]. intros; lia.
Qed.

(** ** Groups as text *)

(** The groups separated by colons, the first one after a colon unless it is
    the first of its kind, and what follows. *)
Fixpoint groups_text (i : nat) (gs : list Z) (rest : list ascii) : list ascii :=
  match gs with
  | [] => rest
  | g :: gs =>
      match i with O => [] | S _ => [":"%char] end ++
      String.list_ascii_of_string (hex16 g) ++ groups_text (S i) gs rest
  end.

Lemma join_groups_text gs rest :
  String.list_ascii_of_string (string_join ":" (hex16 <$> gs)) ++ rest = groups_text 0 gs rest.
Proof.
  assert (Hs : forall gs i, gs <> [] ->
    ":"%char :: String.list_ascii_of_string (string_join ":" (hex16 <$> gs)) ++ rest =
    groups_text (S i) gs rest).
  { clear gs. induction gs as [|g gs IH]; intros i Hne; [done|]. destruct gs as [|g' gs]; [done|].
    change (string_join ":" (hex16 <$> g :: g' :: gs))
      with (hex16 g +:+ ":" +:+ string_join ":" (hex16 <$> g' :: gs)).
    change (groups_text (S i) (g :: g' :: gs) rest) with
      (":"%char :: String.list_ascii_of_string (hex16 g) ++ groups_text (S (S i)) (g' :: gs) rest).
    rewrite <- IH, !list_ascii_app, <- !app_assoc by done. done. }
  destruct gs as [|g gs]; [done|]. destruct gs as [|g' gs]; [done|].
  change (string_join ":" (hex16 <$> g :: g' :: gs))
    with (hex16 g +:+ ":" +:+ string_join ":" (hex16 <$> g' :: gs)).
  change (groups_text 0 (g :: g' :: gs) rest) with
    (String.list_ascii_of_string (hex16 g) ++ groups_text 1 (g' :: gs) rest).
  rewrite <- (Hs (g' :: gs)), !list_ascii_app, <- !app_assoc by done. done.
Qed.

Lemma read_char_cons c l : read_char c (c :: l) = Some (tt, l).
Proof. cbn. by rewrite decide_True. Qed.

Lemma read_char_None c l : c ∉ l -> read_char c l = None.
Proof. destruct l as [|x l]; [done|]. cbn. intros H. rewrite decide_False; [done|]. set_solver. Qed.

Lemma read_separator_None {A} c i (p : parser A) l : c ∉ l -> read_separator c (S i) p l = None.
Proof. intros H. unfold read_separator. by rewrite read_char_None. Qed.

Lemma read_digits_suffix radix acc n l v m r : read_digits radix acc n l = (v, m, r) -> suffix r l.
Proof.
  revert acc n. induction l as [|c l IH]; intros acc n; cbn; [by intros [= <- <- <-]|].
  destruct (to_digit radix c); [|by intros [= <- <- <-]].
  intros H%IH. by apply suffix_cons_r.
Qed.

Lemma read_number_suffix radix md az mv l v r :
  read_number radix md az mv l = Some (v, r) -> suffix r l.
Proof.
  unfold read_number. destruct (read_digits radix 0 0 l) as [[v' n] r'] eqn:E.
  intros H. assert (r' = r) as -> by (repeat case_match; by simplify_eq).
  by eapply read_digits_suffix.
Qed.

Lemma read_ipv4_no_dot l : "."%char ∉ l -> read_ipv4 l = None.
Proof.
  intros H. unfold read_ipv4. destruct (read_octet l) as [[a r]|] eqn:E; [|done].
  cbn -[read_separator]. rewrite read_separator_None; [done|].
  apply read_number_suffix in E as [k ->]. set_solver.
Qed.

Lemma groups_text_chars i gs rest c :
  Forall (fun g => 0 <= g <= u16_max) gs -> c ∈ groups_text i gs rest ->
  c = ":"%char \/ is_Some (to_digit 16 c) \/ c ∈ rest.
Proof.
  intros Hgs. revert i. induction Hgs as [|g gs Hg _ IH]; intros i; cbn; [auto|].
  rewrite !elem_of_app. intros [H|[H|H]]; [|right; left|by eapply IH].
  - left. destruct i; set_solver.
  - destruct (read_hex16 g Hg) as [_ F]. rewrite Forall_forall in F. by apply F.
Qed.

(** What ends a list of groups: nothing, or the start of the elision. *)
Definition ends_groups (rest : list ascii) : Prop :=
  rest = [] \/ exists l, rest = ":"%char :: ":"%char :: l.

Lemma read_groups_stop i left rest : ends_groups rest -> "."%char ∉ rest ->
  read_groups i left rest = ([], false, rest).
Proof.
  intros He Hdot. destruct left as [|left]; [done|]. cbn [read_groups].
  assert (H4 : read_separator ":" i read_ipv4 rest = None).
  { destruct i; [by apply read_ipv4_no_dot|]. destruct He as [->|[l ->]]; [done|].
    done. }
  assert (Hn : read_separator ":" i (read_number 16 4 true u16_max) rest = None).
  { by destruct He as [->|[l ->]]; destruct i. }
  rewrite H4, Hn. by case_decide.
Qed.

Lemma starts_digit_groups i gs rest :
  ends_groups rest -> starts_digit 16 (groups_text (S i) gs rest) = false.
Proof. intros He. destruct gs; [|done]. by destruct He as [->|[l ->]]. Qed.

Lemma read_groups_text gs i left rest :
  Forall (fun g => 0 <= g <= u16_max) gs -> (length gs <= left)%nat -> ends_groups rest ->
  "."%char ∉ rest -> read_groups i left (groups_text i gs rest) = (gs, false, rest).
Proof.
  intros Hgs. revert i left. induction Hgs as [|g gs Hg Hgs IH]; intros i left Hlen He Hdot.
  - by apply read_groups_stop.
  - destruct left as [|left]; cbn in Hlen; [lia|].
    assert (Hd : "."%char ∉ groups_text i (g :: gs) rest).
    { intros Hin. apply groups_text_chars in Hin as [H|[H|H]]; [done| |done|by constructor].
      by destruct H. }
    assert (H4 : read_separator ":" i read_ipv4 (groups_text i (g :: gs) rest) = None).
    { destruct i; [by apply read_ipv4_no_dot|]. cbn [groups_text app] in *.
      rewrite read_separator_cons. apply read_ipv4_no_dot. set_solver. }
    destruct (read_hex16 g Hg) as [Hr _].
    assert (Hn : read_separator ":" i (read_number 16 4 true u16_max) (groups_text i (g :: gs) rest)
      = Some (g, groups_text (S i) gs rest)).
    { cbn [groups_text]. destruct i; cbn [app]; [|rewrite read_separator_cons];
        unfold read_separator; apply read_number_app; auto using starts_digit_groups. }
    cbn [read_groups]. rewrite H4, Hn, IH by (done || lia). by case_decide.
Qed.

(** ** The round trip *)

(** Either side of the elision is read back around the run of zeros. *)
Lemma elided_groups segs start len :
  length segs = 8%nat -> zero_run segs (start, len) ->
  segs = take start segs ++ replicate len 0 ++ drop (start + len) segs.
Proof.
  intros Hl [Hr Hz]. cbn in Hr, Hz.
  rewrite <- (take_drop start segs) at 1. f_equal.
  rewrite <- (take_drop len (drop start segs)) at 1. rewrite drop_drop. f_equal.
  apply list_eq. intros j. destruct (decide (j < len)%nat) as [Hj|Hj].
  - rewrite lookup_take_lt, lookup_drop, Hz by lia. by rewrite lookup_replicate_2.
  - rewrite (proj2 (lookup_ge_None _ _)), (proj2 (lookup_ge_None _ _)); [done| |];
      rewrite ?length_replicate, ?length_take; lia.
Qed.

Lemma read_ipv6_plain segs :
  length segs = 8%nat -> Forall (fun g => 0 <= g <= u16_max) segs ->
  read_ipv6 (groups_text 0 segs []) = Some (groups_value segs, []).
Proof.
  intros Hl Hs. unfold read_ipv6. rewrite read_groups_text by (done || lia || by left || set_solver).
  by rewrite decide_True.
Qed.

Lemma read_ipv6_elided head tail n :
  Forall (fun g => 0 <= g <= u16_max) head -> Forall (fun g => 0 <= g <= u16_max) tail ->
  (length head + n + length tail = 8)%nat -> (2 <= n)%nat ->
  read_ipv6 (groups_text 0 head (":"%char :: ":"%char :: groups_text 0 tail [])) =
    Some (groups_value (head ++ replicate n 0 ++ tail), []).
Proof.
  intros Hh Ht Hl Hn.
  assert (Hdot : "."%char ∉ groups_text 0 tail []).
  { intros Hin. apply groups_text_chars in Hin as [H|[H|H]]; [done| |set_solver|done]. by destruct H. }
  unfold read_ipv6. rewrite read_groups_text; [|done|lia|right; by eexists|set_solver].
  rewrite decide_False by lia. rewrite read_char_cons. cbn [mbind option_bind].
  rewrite read_char_cons. cbn [mbind option_bind].
  rewrite read_groups_text by (done || lia || by left || set_solver).
  by replace (8 - length head - length tail)%nat with n by lia.
Qed.

Lemma read_ipv6_mapped v4 :
  0 <= v4 < 2 ^ 32 ->
  read_ipv6 (String.list_ascii_of_string ("::ffff:" +:+ ipv4_text v4)) =
    Some (65535 * 2 ^ 32 + v4, []).
Proof.
  intros Hv. rewrite list_ascii_app. cbn [String.list_ascii_of_string app].
  pose proof (read_ipv4_text v4 [] Hv eq_refl) as H4. rewrite app_nil_r in H4.
  set (text := String.list_ascii_of_string (ipv4_text v4)) in *. clearbody text.
  assert (Hg : read_groups 0 7 ("f" :: "f" :: "f" :: "f" :: ":" :: text)%char =
    ([65535; Z.shiftr v4 16; Z.land v4 u16_max], true, [])).
  { assert (Hrest : read_groups 1 6 (":"%char :: text) =
      ([Z.shiftr v4 16; Z.land v4 u16_max], true, [])).
    { cbn [read_groups]. rewrite read_separator_cons, H4. by rewrite decide_False. }
    change (read_groups 0 7 _) with
      (let '(gs, b, l) := read_groups 1 6 (":"%char :: text) in (65535 :: gs, b, l)).
    by rewrite Hrest. }
  unfold read_ipv6. change (read_groups 0 8 _) with
    (([] : list Z), false, (":" :: ":" :: "f" :: "f" :: "f" :: "f" :: ":" :: text)%char).
  cbv beta iota. rewrite decide_False, read_char_cons by done. cbn [mbind option_bind].
  rewrite read_char_cons. cbn [mbind option_bind]. change (7 - length [])%nat with 7%nat.
  rewrite Hg. cbn -[Z.shiftr Z.land Z.mul Z.pow].
  do 2 f_equal. change u16_max with (Z.ones 16). rewrite Z.land_ones, Z.shiftr_div_pow2 by lia.
  pose proof (Z.div_mod v4 (2 ^ 16)). change (2 ^ 16) with 65536 in *. change (2 ^ 32) with 4294967296. lia.
Qed.

Lemma parse_ipv6_text x :
  0 <= x < 2 ^ 128 ->
  read_ipv4 (String.list_ascii_of_string (ipv6_text x)) = None /\
  read_ipv6 (String.list_ascii_of_string (ipv6_text x)) = Some (x, []).
Proof.
  intros Hx. unfold ipv6_text. destruct (to_ipv4_mapped x) as [v4|] eqn:E.
  - apply to_ipv4_mapped_Some in E as [Hv ->]; [|lia]. split; [by rewrite list_ascii_app|].
    by apply read_ipv6_mapped.
  - pose proof (segments_range x) as Hs. pose proof (groups_segments x Hx) as Hval.
    assert (Hl : length (segments x) = 8%nat) by done.
    assert (Hrun : zero_run (segments x) (longest_zeros 0 (0%nat, 0%nat) (0%nat, 0%nat) (segments x))).
    { apply longest_zeros_run; [done|lia|split; cbn; lia..|by left]. }
    destruct (longest_zeros _ _ _ _) as [start len]. set (segs := segments x) in *. clearbody segs.
    assert (Hno : forall i gs, Forall (fun g => 0 <= g <= u16_max) gs -> "."%char ∉ groups_text i gs []).
    { intros i gs Hgs Hin. apply groups_text_chars in Hin as [H|[H|H]]; [done| |set_solver|done].
      by destruct H. }
    case_decide as Hlen.
    + rewrite !list_ascii_app, <- (app_nil_r (_ (string_join ":" (hex16 <$> drop _ _)))).
      rewrite join_groups_text. cbn [String.list_ascii_of_string app]. rewrite join_groups_text.
      destruct Hrun as [Hr Hz]. cbn in Hr, Hz. split.
      * apply read_ipv4_no_dot. intros Hin.
        apply groups_text_chars in Hin as [H|[H|H]]; [done|by destruct H| |by apply Forall_take].
        apply elem_of_cons in H as [|[|H]%elem_of_cons]; [done..|]. revert H. apply Hno. by apply Forall_drop.
      * rewrite (read_ipv6_elided _ _ len); [| | |rewrite length_take, length_drop; lia|lia];
          [|by apply Forall_take|by apply Forall_drop].
        by rewrite <- (elided_groups segs start len), Hval.
    + rewrite <- (app_nil_r (String.list_ascii_of_string _)), join_groups_text. split.
      * apply read_ipv4_no_dot. by apply Hno.
      * by rewrite read_ipv6_plain, Hval.
Qed.

(** The text an address is written with denotes that address: parsing the
    [Display] form of any IPv4 or IPv6 address, zero runs elided and mapped
    addresses dotted, gives the address back. *)
Lemma parse_ip_text (a : IpAddr) : ip_wf a -> parse_ip (ip_text a) = Some a.
Proof.
  unfold parse_ip, parse_with, read_ip. destruct a as [x|x]; cbn [ip_wf ip_text]; intros Hx.
  - rewrite <- (app_nil_r (String.list_ascii_of_string _)). by rewrite read_ipv4_text.
  - destruct (parse_ipv6_text x Hx) as [-> ->]. done.
Qed.

(** ** Characters of an address *)

(** The bytes of an address literal. *)
Definition address_char (c : ascii) : bool :=
  is_ascii_digit c || byte_in 97 102 c || bool_decide (c = "."%char) || bool_decide (c = ":"%char).

Lemma dec_address z : string_all address_char (dec z) = true.
Proof. unfold dec. induction (N.to_uint (Z.to_N z)); cbn; auto. Qed.

Lemma hex_digit_address d : 0 <= d < 16 -> address_char (hex_digit d) = true.
Proof.
  intros Hd. assert (In d [0;1;2;3;4;5;6;7;8;9;10;11;12;13;14;15]) as Hin by (cbn; lia).
  clear Hd. revert d Hin. apply List.Forall_forall. by repeat constructor.
Qed.

Lemma land_15 x : 0 <= Z.land x 15 < 16.
Proof. change 15 with (Z.ones 4). rewrite Z.land_ones by lia. apply Z.mod_pos_bound. lia. Qed.

Lemma hex16_address x : 0 <= x <= u16_max -> string_all address_char (hex16 x) = true.
Proof.
  intros Hx. assert (0 <= Z.shiftr x 12 < 16).
  { rewrite Z.shiftr_div_pow2 by lia. unfold u16_max in Hx.
    split; [apply Z.div_pos; lia|apply Z.div_lt_upper_bound; lia]. }
  unfold hex16. repeat case_match; cbn;
    rewrite !hex_digit_address by (done || apply land_15); done.
Qed.

Lemma join_address l :
  Forall (fun s => string_all address_char s = true) l ->
  string_all address_char (string_join ":" l) = true.
Proof.
  induction 1 as [|s l Hs Hl IH]; [done|]. destruct l; [done|].
  change (string_all address_char (s +:+ ":" +:+ string_join ":" (s0 :: l)) = true).
  by rewrite !string_all_app, Hs, IH.
Qed.

Lemma segments_address x :
  Forall (fun s => string_all address_char s = true) (hex16 <$> segments x).
Proof.
  apply Forall_fmap, Forall_fmap, Forall_forall. intros i _. apply hex16_address.
  change u16_max with (Z.ones 16). rewrite Z.land_ones by lia.
  pose proof (Z.mod_pos_bound (Z.shiftr x (16 * (7 - Z.of_nat i))) (2 ^ 16) eq_refl).
  change (Z.ones 16) with (2 ^ 16 - 1). lia.
Qed.

Lemma ip_text_address a : string_all address_char (ip_text a) = true.
Proof.
  assert (H4 : forall x, string_all address_char (ipv4_text x) = true)
    by (intros x; unfold ipv4_text; by rewrite !string_all_app, !dec_address).
  destruct a as [x|x]; [apply H4|]. cbn. unfold ipv6_text.
  destruct (to_ipv4_mapped x); [by rewrite string_all_app, H4|].
  pose proof (segments_address x) as Hs.
  destruct (longest_zeros _ _ _ _) as [start len].
  case_decide; [|by apply join_address].
  rewrite !string_all_app, !join_address; [done| |].
  - rewrite fmap_drop. by apply Forall_drop.
  - rewrite fmap_take. by apply Forall_take.
Qed.

(** ** Length *)

Lemma string_join_length (sep : string) (n : nat) l :
  Forall (fun s => (String.length s <= n)%nat) l ->
  (String.length (string_join sep l) <= length l * (n + String.length sep))%nat.
Proof.
  induction 1 as [|s l Hs _ IH]; [cbn; lia|]. destruct l as [|s' l]; [cbn; lia|].
  change (string_join sep (s :: s' :: l)) with (s +:+ sep +:+ string_join sep (s' :: l)).
  rewrite !string_length_app. cbn [length] in *. lia.
Qed.

Lemma ipv4_text_length x : 0 <= x < 2 ^ 32 -> (String.length (ipv4_text x) <= 15)%nat.
Proof.
  intros Hx. assert (H : forall z, 0 <= z < 256 -> (String.length (dec z) <= 3)%nat).
  { intros z Hz. apply dec_length; [lia|]. cbn. lia. }
  assert (Hl : forall y, 0 <= Z.land y 255 < 256).
  { intros y. change 255 with (Z.ones 8). rewrite Z.land_ones by lia. apply Z.mod_pos_bound. lia. }
  unfold ipv4_text. rewrite !string_length_app. cbn [String.length].
  pose proof (H _ (Hl x)). pose proof (H _ (Hl (Z.shiftr x 8))). pose proof (H _ (Hl (Z.shiftr x 16))).
  assert (0 <= Z.shiftr x 24 < 256).
  { rewrite Z.shiftr_div_pow2 by lia. split; [apply Z.div_pos; lia|]. apply Z.div_lt_upper_bound; lia. }
  pose proof (H (Z.shiftr x 24)). lia.
Qed.

Lemma hex16_length x : (String.length (hex16 x) <= 4)%nat.
Proof. unfold hex16. repeat case_match; cbn; lia. Qed.

(** A coarse bound, enough for the sizes the backends reserve. *)
Lemma ip_text_length a : ip_wf a -> (String.length (ip_text a) <= 82)%nat.
Proof.
  intros Ha. destruct a as [x|x]; cbn in Ha; cbn [ip_text].
  { pose proof (ipv4_text_length x Ha). lia. }
  assert (H : forall l, (length l <= 8)%nat -> (String.length (string_join ":" (hex16 <$> l)) <= 40)%nat).
  { intros l Hl. etransitivity; [apply (string_join_length ":" 4)|].
    - apply Forall_fmap, Forall_true. intros y. apply hex16_length.
    - rewrite length_fmap. cbn [String.length]. lia. }
  unfold ipv6_text. destruct (to_ipv4_mapped x) as [v4|] eqn:E.
  - apply to_ipv4_mapped_Some in E as [Hv _]; [|lia]. rewrite string_length_app.
    pose proof (ipv4_text_length v4 Hv). cbn [String.length]. lia.
  - destruct (longest_zeros _ _ _ _) as [start len]. case_decide.
    + rewrite !string_length_app. cbn [String.length].
      pose proof (H (take start (segments x))) as H1. pose proof (H (drop (start + len) (segments x))) as H2.
      rewrite length_take in H1. rewrite length_drop in H2. change (length (segments x)) with 8%nat in *. lia.
    + pose proof (H (segments x)). change (length (segments x)) with 8%nat in *. lia.
Qed.
