(* ===== verification/Wire.v ===== *)
(** * The wire model

    The deserialised form of a configuration: the containment names and the
    [network] section of [core/mxc_common/wire.rs].  Field and constructor
    names are the request model's own ([Models]), so clients qualify them with
    [Wire]. *)

From S2P Require Import Prelude.

Inductive Containment : Type :=
| Process | ProcessContainer | Vm | WindowsSandbox | Lxc | Microvm
| Hyperlight | Wslc | Seatbelt | IsolationSession | Bubblewrap.

Definition parse_wire_name (value : string) : option Containment :=
  if decide (value = "process") then Some Process
  else if decide (value = "processcontainer") then Some ProcessContainer
  else if decide (value = "appcontainer") then Some ProcessContainer
  else if decide (value = "vm") then Some Vm
  else if decide (value = "windows_sandbox") then Some WindowsSandbox
  else if decide (value = "lxc") then Some Lxc
  else if decide (value = "microvm") then Some Microvm
  else if decide (value = "hyperlight") then Some Hyperlight
  else if decide (value = "wslc") then Some Wslc
  else if decide (value = "seatbelt") then Some Seatbelt
  else if decide (value = "macos_sandbox") then Some Seatbelt
  else if decide (value = "isolation_session") then Some IsolationSession
  else if decide (value = "bubblewrap") then Some Bubblewrap
  else None.

Inductive NetworkAction : Type := Allow | Deny.
Inductive NetworkProtocol : Type := Tcp | Udp | Icmp | Any.

Record NetworkPeer : Type := {
  cidr : string;
  except : option (list string);
}.

Record NetworkPort : Type := {
  protocol : option NetworkProtocol;
  port : option Z;
  end_port : option Z;
}.

Record NetworkRule : Type := {
  to : option (list NetworkPeer);
  ports : option (list NetworkPort);
}.

Record NetworkEgress : Type := {
  egress_default : option NetworkAction;
  allow : option (list NetworkRule);
  deny : option (list NetworkRule);
}.

Record NetworkIngress : Type := {
  ingress_default : option NetworkAction;
  host_loopback : option NetworkAction;
}.

Record Network : Type := {
  egress : option NetworkEgress;
  ingress : option NetworkIngress;
}.

Record RuntimeConfig : Type := { network_proxy : option string }.

Record ProcessContainerNetwork : Type := { allowed_proxy_peer : option string }.

(** [u16] ports of the wire form. *)
Definition port_wf (p : NetworkPort) : Prop :=
  (forall x, port p = Some x -> 0 <= x <= u16_max) /\
  (forall x, end_port p = Some x -> 0 <= x <= u16_max).
