(* ===== verification/Models.v ===== *)
(** * The request model

    The typed request every backend consumes, [core/mxc_common/models.rs], and
    the error codes of [core/mxc_common/mxc_error.rs] and [error.rs].  Unsigned integers
    are [Z] kept in range by the [_wf] predicates. *)

From Stdlib Require Import Ascii.
From S2P Require Import Prelude NetText Wire.

(** ** Containment *)

Inductive ContainmentBackend : Type :=
| ProcessContainer | Wslc | Lxc | Vm | MicroVm | Hyperlight
| WindowsSandbox | IsolationSession | Seatbelt | Bubblewrap.

#[global] Instance ContainmentBackend_eq_dec : EqDecision ContainmentBackend.
Proof. solve_decision. Defined.

Definition wire_name (b : ContainmentBackend) : string :=
  match b with
  | ProcessContainer => "processcontainer"
  | Wslc => "wslc"
  | Lxc => "lxc"
  | Vm => "vm"
  | MicroVm => "microvm"
  | Hyperlight => "hyperlight"
  | WindowsSandbox => "windows_sandbox"
  | IsolationSession => "isolation_session"
  | Seatbelt => "seatbelt"
  | Bubblewrap => "bubblewrap"
  end.

Definition section_path (b : ContainmentBackend) : option string :=
  match b with
  | ProcessContainer => Some "processContainer"
  | Lxc => Some "lxc"
  | WindowsSandbox => Some "windowsSandbox"
  | Wslc => Some "wslc"
  | Seatbelt => Some "seatbelt"
  | IsolationSession => Some "isolationSession"
  | Hyperlight => Some "hyperlight"
  | Bubblewrap | MicroVm | Vm => None
  end.

(** The host the binary is compiled for ([target_os]). *)
Inductive HostOs : Type := Linux | MacOs | Windows | OtherOs.

(** [impl From<wire::Containment> for ContainmentBackend]: the abstract intents
    resolve per host, concrete backends map verbatim. *)
Definition resolve_containment (os : HostOs) (c : Wire.Containment) : ContainmentBackend :=
  match c with
  | Wire.Process =>
      match os with Linux => Bubblewrap | MacOs => Seatbelt | _ => ProcessContainer end
  | Wire.ProcessContainer => ProcessContainer
  | Wire.Vm => match os with Windows => WindowsSandbox | _ => Vm end
  | Wire.WindowsSandbox => WindowsSandbox
  | Wire.Lxc => Lxc
  | Wire.Microvm => MicroVm
  | Wire.Hyperlight => Hyperlight
  | Wire.Wslc => Wslc
  | Wire.Seatbelt => Seatbelt
  | Wire.IsolationSession => IsolationSession
  | Wire.Bubblewrap => Bubblewrap
  end.

(** ** The network policy *)

Inductive NetworkAction : Type := Allow | Deny.
#[global] Instance NetworkAction_eq_dec : EqDecision NetworkAction.
Proof. solve_decision. Defined.

(** [NetworkAction::default()]. *)
Definition NetworkAction_default : NetworkAction := Deny.

Inductive NetworkProtocol : Type := Tcp | Udp | Icmp | AnyProtocol.
#[global] Instance NetworkProtocol_eq_dec : EqDecision NetworkProtocol.
Proof. solve_decision. Defined.

Record NetworkCidr : Type := MkCidr {
  address : IpAddr;
  prefix_length : Z;
}.
#[global] Instance NetworkCidr_eq_dec : EqDecision NetworkCidr.
Proof. solve_decision. Defined.

Record NetworkPeer : Type := MkPeer {
  cidr : NetworkCidr;
  except : list NetworkCidr;
}.

Record NetworkPort : Type := MkPort {
  protocol : NetworkProtocol;
  port : option Z;
  end_port : option Z;
}.

Record NetworkRule : Type := MkRule {
  to : list NetworkPeer;
  ports : list NetworkPort;
}.

Record NetworkEgressPolicy : Type := MkEgress {
  egress_default : NetworkAction;
  allow : list NetworkRule;
  deny : list NetworkRule;
}.

Record NetworkIngressPolicy : Type := MkIngress {
  ingress_default : NetworkAction;
  host_loopback : NetworkAction;
}.

Definition NetworkEgressPolicy_default : NetworkEgressPolicy := MkEgress Deny [] [].
Definition NetworkIngressPolicy_default : NetworkIngressPolicy := MkIngress Deny Deny.

(** Values that fit their Rust types: [IpAddr], [u8] and [u16]. *)
Definition cidr_wf (c : NetworkCidr) : Prop :=
  ip_wf (address c) /\ 0 <= prefix_length c <= u8_max.

Definition peer_wf (p : NetworkPeer) : Prop := cidr_wf (cidr p) /\ Forall cidr_wf (except p).

Definition port_wf (p : NetworkPort) : Prop :=
  (forall x, port p = Some x -> 0 <= x <= u16_max) /\
  (forall x, end_port p = Some x -> 0 <= x <= u16_max).

(** A selector the backends can lower: ports from 1, ranges in order, no port
    for ICMP. *)
Definition selector_ok (p : NetworkPort) : Prop :=
  (forall s, port p = Some s -> 1 <= s <= u16_max) /\
  (forall e, end_port p = Some e -> exists s, port p = Some s /\ s <= e <= u16_max) /\
  (protocol p = Icmp -> port p = None /\ end_port p = None).

Definition rule_wf (r : NetworkRule) : Prop := Forall peer_wf (to r) /\ Forall port_wf (ports r).

Definition egress_wf (e : NetworkEgressPolicy) : Prop :=
  Forall rule_wf (allow e) /\ Forall rule_wf (deny e).

(** ** The third-party [cidr] crate *)

(** Width of an address family in bits. *)
Definition ip_width (a : IpAddr) : Z := match a with V4 _ => 32 | V6 _ => 128 end.
Definition ip_bits (a : IpAddr) : Z := match a with V4 x => x | V6 x => x end.

Definition same_family (a b : IpAddr) : bool :=
  match a, b with V4 _, V4 _ => true | V6 _, V6 _ => true | _, _ => false end.

(** What the request model calls of [cidr::IpCidr]. *)
Class CidrCrate : Type := {
  IpCidr : Type;
  IpCidr_new : IpAddr -> Z -> option IpCidr;
  IpCidr_parse : string -> result string IpCidr;
  first_address : IpCidr -> IpAddr;
  network_length : IpCidr -> Z;
  IpCidr_contains : IpCidr -> IpAddr -> bool;
}.

(** Its documented behaviour: a value is a network whose length fits the family
    and whose host part is zero, [new] keeps what it is given and rebuilds any
    network from its parts, and [contains] compares the network part.  A parse
    error is its [Display] text. *)
Class CidrCrateLaws (C : CidrCrate) : Prop := {
  cidr_new_spec : forall a l c,
    IpCidr_new a l = Some c -> first_address c = a /\ network_length c = l;
  cidr_new_parts : forall c, IpCidr_new (first_address c) (network_length c) = Some c;
  cidr_valid : forall c,
    ip_wf (first_address c) /\ 0 <= network_length c <= ip_width (first_address c) /\
    ip_bits (first_address c) mod 2 ^ (ip_width (first_address c) - network_length c) = 0;
  cidr_contains_spec : forall c a, ip_wf a ->
    IpCidr_contains c a = true <->
    same_family (first_address c) a = true /\
    let host := ip_width (first_address c) - network_length c in
    ip_bits a / 2 ^ host = ip_bits (first_address c) / 2 ^ host;
}.

Section NetworkCidr.
Context `{CidrCrate}.

(** [impl FromStr for NetworkCidr]. *)
Definition NetworkCidr_from_str (value : string) : result string NetworkCidr :=
  network ← IpCidr_parse value;
  Ok (MkCidr (first_address network) (network_length network)).

Definition contains_cidr (self other : NetworkCidr) : bool :=
  match IpCidr_new (address self) (prefix_length self) with
  | None => false
  | Some parent =>
      match IpCidr_new (address other) (prefix_length other) with
      | None => false
      | Some child =>
          (network_length parent <=? network_length child) &&
          IpCidr_contains parent (first_address child)
      end
  end.

End NetworkCidr.

(** ** Errors *)

Inductive MxcErrorCode : Type :=
| MalformedRequest | UnsupportedContainment | UnsupportedPhase | BackendUnavailable
| MalformedId | StaleId | NotProvisioned | NotStarted | AlreadyStarted | AlreadyStopped
| PolicyValidation | BackendError.

#[global] Instance MxcErrorCode_eq_dec : EqDecision MxcErrorCode.
Proof. solve_decision. Defined.

Definition MxcErrorCode_as_str (c : MxcErrorCode) : string :=
  match c with
  | MalformedRequest => "malformed_request"
  | UnsupportedContainment => "unsupported_containment"
  | UnsupportedPhase => "unsupported_phase"
  | BackendUnavailable => "backend_unavailable"
  | MalformedId => "malformed_id"
  | StaleId => "stale_id"
  | NotProvisioned => "not_provisioned"
  | NotStarted => "not_started"
  | AlreadyStarted => "already_started"
  | AlreadyStopped => "already_stopped"
  | PolicyValidation => "policy_validation"
  | BackendError => "backend_error"
  end.

Definition exit_code (c : MxcErrorCode) : Z :=
  match c with
  | BackendUnavailable | BackendError => -1
  | MalformedRequest | UnsupportedContainment | UnsupportedPhase | MalformedId | StaleId
  | NotProvisioned | NotStarted | AlreadyStarted | AlreadyStopped | PolicyValidation => 1
  end.

(** [WxcError]; the [StateAware] variant carries the wire code of its
    [MxcError]. *)
Inductive WxcError : Type :=
| ConfigParse (msg : string) | StateAware (code : MxcErrorCode) (msg : string)
| Validation (msg : string) | ProcessError (msg : string) | Io (msg : string)
| Firewall (msg : string) | FilesystemPolicy (msg : string) | Initialization (msg : string)
| NetworkProxy (msg : string) | StringConversion (msg : string).

Definition WxcError_code (e : WxcError) : MxcErrorCode :=
  match e with
  | StateAware code _ => code
  | ConfigParse _ | StringConversion _ => MalformedRequest
  | Validation _ => PolicyValidation
  | ProcessError _ | Io _ | Firewall _ | FilesystemPolicy _ | Initialization _ | NetworkProxy _ =>
      BackendError
  end.

(** ** The runtime proxy *)

Record ProxyAddress : Type := MkProxyAddress {
  proxy_address : string;
  proxy_port : Z;
  original_url : option string;
}.

Definition ProxyAddress_new (address : string) (port : Z) : ProxyAddress :=
  MkProxyAddress address port None.

Definition ProxyAddress_from_url (url host : string) (port : Z) : ProxyAddress :=
  MkProxyAddress host port (Some url).

(** Wraps a bare IPv6 literal in brackets, as a URL host component needs. *)
Definition bracket_if_ipv6 (host : string) : string :=
  match parse_ip host with
  | Some (V6 _) => "[" +:+ host +:+ "]"
  | _ => host
  end.

Definition to_url (p : ProxyAddress) : string :=
  match original_url p with
  | Some url => url
  | None => "http://" +:+ bracket_if_ipv6 (proxy_address p) +:+ ":" +:+ dec (proxy_port p)
  end.

(** Strips one pair of surrounding brackets. *)
Definition unbracket_host (host : string) : string :=
  default host (rest ← strip_prefix_char "[" host; strip_suffix_char "]" rest).

Record ProxyHostPin : Type := MkPin { pin_hostname : string; pin_ip : IpAddr }.

Definition hosts_line (p : ProxyHostPin) : string := ip_text (pin_ip p) +:+ " " +:+ pin_hostname p.

Definition hostname_char (c : ascii) : bool :=
  is_ascii_alphanumeric c || bool_decide (c = "-"%char) || bool_decide (c = "."%char).

Definition is_pinnable_hostname (host : string) : bool :=
  negb (bool_decide (host = "")) && string_all hostname_char host.

(** The [WxcError::NetworkProxy] a proxy that cannot be pinned is refused with. *)
Inductive PinError : Type := CannotPin (address : string) (ip : IpAddr).

(** [Ok None]: already a literal; [Err]: a pin is needed and cannot be made. *)
Definition host_pin (p : ProxyAddress) (ip : IpAddr) : result PinError (option ProxyHostPin) :=
  let hostname := unbracket_host (proxy_address p) in
  if bool_decide (is_Some (parse_ip hostname)) then Ok None
  else if negb (is_pinnable_hostname hostname) then Err (CannotPin (proxy_address p) ip)
  else Ok (Some (MkPin hostname ip)).

Record ProxyConfig : Type := MkProxyConfig { proxy_config_address : option ProxyAddress }.

Definition ProxyConfig_default : ProxyConfig := MkProxyConfig None.

Definition is_enabled (p : ProxyConfig) : bool := bool_decide (is_Some (proxy_config_address p)).

(** ** The containment policy *)

Inductive ClipboardPolicy : Type := ClipNone | ClipRead | ClipWrite | ClipAll.

Record UiPolicy : Type := MkUi { disable : bool; clipboard : ClipboardPolicy; injection : bool }.

Definition UiPolicy_default : UiPolicy := MkUi true ClipNone false.

Record BaseProcessUiConfig : Type := MkBaseUi {
  isolation : string;
  desktop_system_control : bool;
  system_settings : string;
  ime : bool;
}.

Definition BaseProcessUiConfig_default : BaseProcessUiConfig :=
  MkBaseUi "container" false "none" false.

Inductive LearningModeCapability : Type := Learning | Permissive.

Definition from_capability_name (name : string) : option LearningModeCapability :=
  if eq_ignore_ascii_case name "learningModeLogging" then Some Learning
  else if eq_ignore_ascii_case name "permissiveLearningMode" then Some Permissive
  else None.

Inductive CaptureDenialsMode : Type := Block | AllowAccess.

Record CaptureDenialsConfig : Type := MkCapture {
  capture_mode : CaptureDenialsMode;
  output_path : option string;
  retain_etl : bool;
}.

Record ContainerPolicy : Type := MkPolicy {
  least_privilege_mode : bool;
  capabilities : list string;
  readwrite_paths : list string;
  readonly_paths : list string;
  enumerate_paths : list string;
  denied_paths : list string;
  network_egress : option NetworkEgressPolicy;
  network_ingress : option NetworkIngressPolicy;
  allowed_proxy_peer : option string;
  network_proxy : ProxyConfig;
  network_specified : bool;
  network_mode_specified : bool;
  runtime_network_proxy_specified : bool;
  ui : UiPolicy;
  ui_specified : bool;
  base_process_ui : BaseProcessUiConfig;
  capture_denials : option CaptureDenialsConfig;
}.

Definition ContainerPolicy_default : ContainerPolicy :=
  MkPolicy false [] [] [] [] [] None None None ProxyConfig_default false false false
    UiPolicy_default false BaseProcessUiConfig_default None.

(** The policy with its network fields replaced. *)
Definition with_network (p : ContainerPolicy) (egress : option NetworkEgressPolicy)
    (ingress : option NetworkIngressPolicy) (peer : option string) (proxy : ProxyConfig)
    (specified mode_specified proxy_specified : bool) : ContainerPolicy :=
  MkPolicy (least_privilege_mode p) (capabilities p) (readwrite_paths p) (readonly_paths p)
    (enumerate_paths p) (denied_paths p) egress ingress peer proxy specified mode_specified
    proxy_specified (ui p) (ui_specified p) (base_process_ui p) (capture_denials p).
