(* ===== verification/Requests.v ===== *)
(** * Execution requests and responses

    The second half of [core/mxc_common/models.rs]: the [ExecutionRequest] a
    backend runs, the working-directory resolution shared by the backends, and
    the [ScriptResponse] with its failure phases. *)

From Stdlib Require Import Ascii.
From S2P Require Import Prelude NetText Models.

(** ** Backend configuration sections *)

Record SeatbeltConfig : Type := MkSeatbelt {
  profile_override : option string;
  gui_access : bool;
  nested_pty : bool;
  keychain_access : bool;
  extra_mach_lookups : list string;
}.
Definition SeatbeltConfig_default : SeatbeltConfig := MkSeatbelt None false true false [].

Record WindowsSandboxConfig : Type := MkWindowsSandbox {
  idle_timeout_ms : Z;
  daemon_pipe_name : string;
}.
Definition WindowsSandboxConfig_default : WindowsSandboxConfig :=
  MkWindowsSandbox 300000 "wxc-windows-sandbox".

Record IsolationSessionProvisionConfig : Type := MkIsolationProvision { app_id : option string }.

Record MicroVmProvisionConfig : Type := MkMicroVm { image : string; memory_mib : option Z }.

Definition validate_memory_mib (memory_mib : option Z) : result WxcError unit :=
  fail_if (bool_decide (memory_mib = Some 0))
    (ConfigParse "microvm.provision.memoryMib must be greater than zero").

Record PortMapping : Type := MkPortMapping {
  windows_port : Z;
  container_port : Z;
  mapping_protocol : string;
}.

Record WslcConfig : Type := MkWslc {
  target_os : string;
  wslc_image : string;
  image_tar_path : option string;
  cpu_count : option Z;
  memory_mb : option Z;
  gpu : bool;
  storage_path : option string;
  port_mappings : list PortMapping;
}.
Definition WslcConfig_default : WslcConfig :=
  MkWslc "linux" "alpine:latest" None None None false None [].

Record WslcProvisionConfig : Type := MkWslcProvision {
  provision_image : option string;
  provision_image_tar_path : option string;
  session_id : option string;
  provision_port_mappings : option (list PortMapping);
}.

Record WslcProvisionSessionConfig : Type := MkWslcSession {
  session_cpu_count : option Z;
  session_memory_mb : option Z;
  session_gpu : option bool;
}.

Record LxcConfig : Type := MkLxc { distribution : string; release : string }.

Record LifecycleConfig : Type := MkLifecycle {
  destroy_on_exit : bool;
  preserve_policy : bool;
}.
Definition LifecycleConfig_default : LifecycleConfig := MkLifecycle true false.

Record TestFeatureConfig : Type := MkTestFeature { message : string }.
Definition TestFeatureConfig_from_raw (message : option string) : TestFeatureConfig :=
  MkTestFeature (default "" message).

Record TelemetryConfig : Type := MkTelemetry {
  telemetry_enabled : option bool;
  requested_sandbox_kind : option string;
}.

Inductive HyperlightRuntime : Type := Agent | Python | PythonShell | Node | Bash | DotnetJit.
#[global] Instance HyperlightRuntime_eq_dec : EqDecision HyperlightRuntime.
Proof. solve_decision. Defined.

Definition HyperlightRuntime_ALL : list HyperlightRuntime :=
  [Agent; Python; PythonShell; Node; Bash; DotnetJit].

Definition HyperlightRuntime_name (r : HyperlightRuntime) : string :=
  match r with
  | Agent => "agent"
  | Python => "python"
  | PythonShell => "python-shell"
  | Node => "node"
  | Bash => "bash"
  | DotnetJit => "dotnet-jit"
  end.

(** The message names the rejected text and the six known names. *)
Inductive RuntimeError : Type := UnknownRuntime (s : string) (known : list string).

Definition HyperlightRuntime_from_str (s : string) : result RuntimeError HyperlightRuntime :=
  ok_or (List.find (fun r => bool_decide (HyperlightRuntime_name r = s)) HyperlightRuntime_ALL)
    (UnknownRuntime s (HyperlightRuntime_name <$> HyperlightRuntime_ALL)).

Record HyperlightConfig : Type := MkHyperlight { runtime : HyperlightRuntime }.
Definition HyperlightConfig_default : HyperlightConfig := MkHyperlight Agent.

(** ** Contract versions *)

Inductive ContractVersion : Type := V0_9_0Alpha | V1_0_0 | V1_1_0Alpha.

Definition ContractVersion_as_str (v : ContractVersion) : string :=
  match v with
  | V0_9_0Alpha => "0.9.0-alpha"
  | V1_0_0 => "1.0.0"
  | V1_1_0Alpha => "1.1.0-alpha"
  end.

Definition parse_exact (value : string) : option ContractVersion :=
  if decide (value = "0.9.0-alpha") then Some V0_9_0Alpha
  else if decide (value = "1.0.0") then Some V1_0_0
  else if decide (value = "1.1.0-alpha") then Some V1_1_0Alpha
  else None.

(** ** The request *)

Record ExecutionRequest : Type := MkRequest {
  source_contract : option ContractVersion;
  container_id : string;
  env : option (list string);
  inherit_default_env : bool;
  script_code : string;
  working_directory : string;
  script_timeout : Z;
  containment : ContainmentBackend;
  lifecycle : LifecycleConfig;
  policy : ContainerPolicy;
  lxc_config : LxcConfig;
  wslc : option WslcConfig;
  seatbelt : option SeatbeltConfig;
  telemetry : option TelemetryConfig;
  test_feature : option TestFeatureConfig;
  windows_sandbox : option WindowsSandboxConfig;
  hyperlight : option HyperlightConfig;
  microvm_image : option string;
  microvm_memory_mib : option Z;
  experimental_enabled : bool;
  dry_run : bool;
}.

(** The derived [Default]. *)
Definition ExecutionRequest_default : ExecutionRequest :=
  MkRequest None "" None false "" "" 0 ProcessContainer LifecycleConfig_default ContainerPolicy_default
    (MkLxc "" "") None None None None None None None None false false.

(** The struct update syntax with a policy. *)
Definition with_policy (r : ExecutionRequest) (p : ContainerPolicy) : ExecutionRequest :=
  MkRequest (source_contract r) (container_id r) (env r) (inherit_default_env r) (script_code r)
    (working_directory r) (script_timeout r) (containment r) (lifecycle r) p (lxc_config r) (wslc r)
    (seatbelt r) (telemetry r) (test_feature r) (windows_sandbox r) (hyperlight r) (microvm_image r)
    (microvm_memory_mib r) (experimental_enabled r) (dry_run r).

Definition source_contract_version (r : ExecutionRequest) : string :=
  default "" (ContractVersion_as_str <$> source_contract r).

(** [None] and [Some []] flattened to the same empty slice. *)
Definition env_entries (r : ExecutionRequest) : list string := default [] (env r).

Inductive WorkingDirectorySource : Type := Explicit | PolicySource.

Record ResolvedWorkingDirectory : Type := MkResolved {
  resolved_path : string;
  resolved_source : WorkingDirectorySource;
}.

(** One segment of the loop of [sandbox_absolute_path]; the stack of segments
    has its top last, as the [Vec] does. *)
Definition push_segment (segments : list string) (segment : string) : list string :=
  if bool_decide (segment = "") || bool_decide (segment = ".") then segments
  else if bool_decide (segment = "..") then removelast segments
  else segments ++ [segment].

Definition sandbox_absolute_path (path : string) : string :=
  "/" +:+ string_join "/" (foldl push_segment [] (string_split "/" path)).

(** The explicit directory, else the first policy grant that is an existing
    directory, read-write grants first. *)
Definition resolved_working_directory_with (r : ExecutionRequest) (is_dir : string -> bool)
  : option ResolvedWorkingDirectory :=
  if negb (is_blank (working_directory r)) then
    Some (MkResolved (working_directory r) Explicit)
  else
    (fun path => MkResolved path PolicySource) <$>
      List.find is_dir
        (List.filter (fun path => negb (is_blank path))
           (readwrite_paths (policy r) ++ readonly_paths (policy r))).

(** ** The response *)

Inductive FailurePhase : Type :=
| NoFailure | LaunchFailed | Rejected | PostLaunchFailed | ProcessExited | Timeout
| PhaseBackendUnavailable.

Definition error_code (p : FailurePhase) : MxcErrorCode :=
  match p with
  | Rejected => PolicyValidation
  | PhaseBackendUnavailable => BackendUnavailable
  | _ => BackendError
  end.

Definition failure_exit_code (p : FailurePhase) : Z := exit_code (error_code p).

Record CaptureDenialsOutput : Type := MkCaptureOutput {
  capture_kind : string;
  capture_output_path : string;
  capture_exit_code : Z;
  total_denials : Z;
  denied_resources_truncated : bool;
  etl_path : option string;
}.

Definition CaptureDenialsOutput_KIND : string := "captureDenials".

Record CaptureDenialsErrorOutput : Type := MkCaptureError {
  capture_error_message : string;
  capture_error_etl_path : string;
}.

Record SandboxOutputMetadata : Type := MkMetadata {
  meta_capture_denials : option CaptureDenialsOutput;
  meta_capture_denials_error : option CaptureDenialsErrorOutput;
}.

Record ScriptResponse : Type := MkResponse {
  response_exit_code : Z;
  standard_out : string;
  standard_err : string;
  error_message : string;
  extended_error : string;
  failure_phase : FailurePhase;
  response_warnings : option (list string);
  output_metadata : option SandboxOutputMetadata;
}.

Definition ScriptResponse_default : ScriptResponse :=
  MkResponse (-1) "" "" "" "" NoFailure None None.

Definition response_error (msg : string) : ScriptResponse :=
  MkResponse (-1) "" msg msg "" NoFailure None None.

Definition failed (phase : FailurePhase) (msg : string) : ScriptResponse :=
  MkResponse (failure_exit_code phase) "" "" msg "" phase None None.

Definition rejected (msg : string) : ScriptResponse := failed Rejected msg.
Definition unavailable (msg : string) : ScriptResponse := failed PhaseBackendUnavailable msg.

Definition warnings (r : ScriptResponse) : list string := default [] (response_warnings r).

Definition extend_warnings (r : ScriptResponse) (incoming : list string) : ScriptResponse :=
  match incoming with
  | [] => r
  | _ => MkResponse (response_exit_code r) (standard_out r) (standard_err r) (error_message r)
           (extended_error r) (failure_phase r)
           (Some (default [] (response_warnings r) ++ incoming)) (output_metadata r)
  end.

(** ** Guest paths never leave the root *)

Definition clean_segment (s : string) : Prop :=
  s <> "" /\ s <> "." /\ s <> ".." /\ lacks "/" s = true.

Lemma removelast_Forall {A} (P : A -> Prop) l : Forall P l -> Forall P (removelast l).
Proof. induction 1 as [|x l ? Hl IH]; [done|]. cbn. destruct l; by repeat constructor. Qed.

Lemma push_segments_clean stack l :
  Forall clean_segment stack -> Forall (fun s => lacks "/" s = true) l ->
  Forall clean_segment (foldl push_segment stack l).
Proof.
  revert stack. induction l as [|s l IH]; intros stack Hstack Hl; [done|].
  inversion Hl; subst. cbn. apply IH; [|done]. unfold push_segment.
  destruct (bool_decide (s = "")) eqn:E1; [done|].
  destruct (bool_decide (s = ".")) eqn:E2; [done|].
  destruct (bool_decide (s = "..")) eqn:E3; cbn; [by apply removelast_Forall|].
  apply Forall_app; split; [done|]. repeat constructor;
    (done || by eapply bool_decide_eq_false_1).
Qed.

Lemma push_clean_segments stack l :
  Forall clean_segment l -> foldl push_segment stack l = stack ++ l.
Proof.
  intros Hl. revert stack. induction Hl as [|s l (? & ? & ? & _) _ IH]; intros stack.
  - by rewrite app_nil_r.
  - cbn. rewrite IH. unfold push_segment. rewrite !bool_decide_eq_false_2 by done. cbn.
    by rewrite <- app_assoc.
Qed.

(** The segments of a path built from clean ones are read back as written. *)
Lemma rooted_segments l :
  Forall clean_segment l ->
  foldl push_segment [] (string_split "/" ("/" +:+ string_join "/" l)) = l.
Proof.
  intros Hl. change ("/" +:+ string_join "/" l) with ("" +:+ String "/" (string_join "/" l)).
  rewrite string_split_cons by done.
  destruct (decide (l = [])) as [->|Hne]; [done|].
  assert (Forall (fun s => lacks "/" s = true) l)
    by (eapply Forall_impl; [exact Hl|]; by intros ? (_ & _ & _ & ?)).
  rewrite (string_split_join "/") by done. cbn. by rewrite (push_clean_segments []).
Qed.

(** [sandbox_absolute_path] is absolute and lexically clean: the result is
    a slash followed by segments none of which is empty, a dot, a double dot or
    holds a slash, so no spelling of the input escapes the guest root; and
    normalising a normalised path changes nothing. *)
Theorem sandbox_absolute_path_clean (path : string) :
  (exists segs, Forall clean_segment segs /\
     sandbox_absolute_path path = "/" +:+ string_join "/" segs) /\
  sandbox_absolute_path (sandbox_absolute_path path) = sandbox_absolute_path path.
Proof.
  assert (Hc : Forall clean_segment (foldl push_segment [] (string_split "/" path)))
    by (apply push_segments_clean; [done|apply string_split_lacks]).
  split; [eauto|]. unfold sandbox_absolute_path. by rewrite rooted_segments.
Qed.

(** ** Hosts entries of a pinned proxy *)

(** What a hosts-file record cannot hold inside a field. *)
Definition field_char (c : ascii) : bool := negb (byte_in 9 13 c) && negb (byte_of c =? 32).

Lemma address_char_field c : address_char c = true -> field_char c = true.
Proof. destruct c as [[] [] [] [] [] [] [] []]; vm_compute; congruence. Qed.

Lemma field_lacks_space s : string_all field_char s = true -> lacks " " s = true.
Proof.
  apply string_all_impl. intros c. destruct c as [[] [] [] [] [] [] [] []]; vm_compute; congruence.
Qed.

Lemma hostname_char_field c : hostname_char c = true -> field_char c = true.
Proof. destruct c as [[] [] [] [] [] [] [] []]; vm_compute; congruence. Qed.

(** A proxy pin writes exactly one mapping: whenever [host_pin] produces a
    pin, the fields of its hosts line are the authorised address and the
    proxy's unbracketed host and nothing else; neither field is empty of text
    or holds white space or a line break, and the host is not itself an address
    literal. *)
Theorem host_pin_single_mapping (p : ProxyAddress) (ip : IpAddr) (pin : ProxyHostPin) :
  host_pin p ip = Ok (Some pin) ->
  let host := unbracket_host (proxy_address p) in
  string_split " " (hosts_line pin) = [ip_text ip; host] /\
  host <> "" /\ parse_ip host = None /\
  Forall (fun field => string_all field_char field = true) [ip_text ip; host].
Proof.
  unfold host_pin. destruct (bool_decide _) eqn:Hlit; [done|].
  destruct (is_pinnable_hostname _) eqn:Hpin; [|done]. cbn. intros [= <-].
  apply andb_true_iff in Hpin as [Hne Hall].
  apply bool_decide_eq_false in Hlit. apply negb_true_iff, bool_decide_eq_false in Hne.
  pose proof (string_all_impl _ _ _ address_char_field (ip_text_address ip)) as Hip.
  pose proof (string_all_impl _ _ _ hostname_char_field Hall) as Hhost.
  split_and!; [|done|by apply eq_None_not_Some|by repeat constructor].
  unfold hosts_line. cbn [pin_ip pin_hostname]. autorewrite with text.
  rewrite string_split_cons, string_split_single by by apply field_lacks_space. done.
Qed.

Lemma host_pin_single_mapping_witness :
  string_split " " (hosts_line (MkPin "proxy.corp" (V4 2130706433))) =
    ["127.0.0.1"; "proxy.corp"] /\
  "proxy.corp" <> "" /\ parse_ip "proxy.corp" = None /\
  Forall (fun field => string_all field_char field = true) ["127.0.0.1"; "proxy.corp"].
Proof.
  apply (host_pin_single_mapping (ProxyAddress_new "proxy.corp" 8080) (V4 2130706433)).
  vm_compute. reflexivity.
Defined.
