(* ===== verification/NetworkBlocks.v ===== *)
(** * CIDR block arithmetic

    [core/mxc_common/network_blocks.rs]: a peer's exclusions are subtracted from
    its CIDR, because a packet-filter rule matches one destination block and
    cannot carry an exclusion.  The theorems show that the subtraction covers
    exactly the surviving addresses, with the fewest blocks, and that what it
    emits is programmed in the family it was computed in. *)

From S2P Require Import Prelude NetText Models.

Module Blocks.

(** ** Definitions *)

Inductive IpFamily : Type := FamilyV4 | FamilyV6.
#[global] Instance IpFamily_eq_dec : EqDecision IpFamily.
Proof. solve_decision. Defined.

(** Bits in an address of this family. *)
Definition width (f : IpFamily) : Z := match f with FamilyV4 => 32 | FamilyV6 => 128 end.

(** A CIDR as a number, with [base] masked to the block's first address. *)
Record AddressBlock : Type := MkBlock { base : Z; prefix : Z }.
#[global] Instance AddressBlock_eq_dec : EqDecision AddressBlock.
Proof. solve_decision. Defined.

(** Mask covering the low [bits] bits, saturating at the full width. *)
Definition host_mask (bits : Z) : Z :=
  if 128 <=? bits then u128_max else u128_sub (u128_shl 1 bits) 1.

(** The block's first address, rendered in [family]. *)
Definition block_address (b : AddressBlock) (family : IpFamily) : IpAddr :=
  match family with
  | FamilyV4 => V4 (wrap 32 (base b))
  | FamilyV6 => V6 (base b)
  end.

Definition last (b : AddressBlock) (w : Z) : Z :=
  Z.lor (base b) (host_mask (u8_sub w (prefix b))).

Definition contains (self inner : AddressBlock) (w : Z) : bool :=
  (base self <=? base inner) && (last inner w <=? last self w).

Definition intersects (self other : AddressBlock) (w : Z) : bool :=
  (base self <=? last other w) && (base other <=? last self w).

(** [::ffff:0:0/96], the range a destination is rewritten out of and programmed
    as IPv4 in. *)
Definition IPV4_MAPPED_BLOCK : AddressBlock := MkBlock 0xffff00000000 96.

Definition MAX_BLOCKS_PER_PEER : Z := 256.
Definition MAX_EGRESS_ENTRIES : Z := 65536.

(** A CIDR as it was written, rather than as the block it resolves to. *)
Definition cidr_text (c : NetworkCidr) : string :=
  ip_text (address c) +:+ "/" +:+ dec (prefix_length c).

(** A CIDR as the family it is programmed in and the block it covers there. *)
Definition resolve (c : NetworkCidr) : option (IpFamily * AddressBlock) :=
  let '(family, raw, prefix) :=
    match address c with
    | V4 ip => (FamilyV4, ip, prefix_length c)
    | V6 ip =>
        match to_ipv4_mapped ip with
        | Some v4 =>
            if 96 <=? prefix_length c
            then (FamilyV4, v4, u8_sub (prefix_length c) 96)
            else (FamilyV6, ip, prefix_length c)
        | None => (FamilyV6, ip, prefix_length c)
        end
    end in
  let w := width family in
  if w <? prefix then None
  else Some (family, MkBlock (Z.land raw (u128_not (host_mask (u8_sub w prefix)))) prefix).

(** Why a peer is refused. *)
Inductive BlockError : Type :=
| ExceptPrefixTooWide (peer excluded : NetworkCidr) (max : Z)
| ExceptOtherFamily (peer excluded : NetworkCidr)
| SplitsMappedRange (peer : NetworkCidr) (crossing : AddressBlock)
| TooManyBlocks
| OutOfFuel.

(** [subtract]: [block] minus [exclusions], pushed on [out]; [remaining] counts
    down the block budget.  Each level of recursion lengthens the prefix by one,
    so [fuel] is the number of levels left; [subtract] below supplies the depth
    of the family and [subtract_carve] shows the bound is never met. *)
Fixpoint subtract_go (fuel : nat) (block : AddressBlock) (exclusions : list AddressBlock)
    (w : Z) (out : list AddressBlock) (remaining : Z)
  : result BlockError (list AddressBlock * Z) :=
  if existsb (fun excluded => contains excluded block w) exclusions then Ok (out, remaining)
  else if negb (existsb (fun excluded => intersects excluded block w) exclusions) then
    if remaining =? 0 then Err TooManyBlocks
    else Ok (out ++ [block], remaining - 1)
  else if w <=? prefix block then Ok (out, remaining)
  else
    match fuel with
    | O => Err OutOfFuel
    | S fuel =>
        let child_prefix := u8_add (prefix block) 1 in
        let step := u128_add (host_mask (u8_sub w child_prefix)) 1 in
        '(out, remaining) ←
          subtract_go fuel (MkBlock (base block) child_prefix) exclusions w out remaining;
        subtract_go fuel (MkBlock (u128_add (base block) step) child_prefix)
          exclusions w out remaining
    end.

Definition subtract (block : AddressBlock) (exclusions : list AddressBlock) (w : Z)
    (out : list AddressBlock) (remaining : Z) : result BlockError (list AddressBlock * Z) :=
  subtract_go (Z.to_nat w) block exclusions w out remaining.

(** The first loop of [peer_blocks]: an exclusion wider than its own family. *)
Definition check_except_prefix (peer : NetworkPeer) (excluded : NetworkCidr)
  : result BlockError unit :=
  let excluded_width := width (match address excluded with V4 _ => FamilyV4 | V6 _ => FamilyV6 end) in
  fail_if (excluded_width <? prefix_length excluded)
    (ExceptPrefixTooWide (cidr peer) excluded excluded_width).

(** The second loop: resolve each exclusion, all in the peer's family. *)
Definition collect_exclusion (peer : NetworkPeer) (family : IpFamily)
    (excluded : NetworkCidr) (exclusions : list AddressBlock)
  : result BlockError (list AddressBlock) :=
  match resolve excluded with
  | None => Ok exclusions
  | Some (excluded_family, excluded_block) =>
      if decide (excluded_family = family) then Ok (exclusions ++ [excluded_block])
      else Err (ExceptOtherFamily (cidr peer) excluded)
  end.

(** The last check: a generated block inside [::ffff:0:0/96] is programmed as
    IPv4, so an IPv6 peer must not be split into one. *)
Definition mapped_guard (peer : NetworkPeer) (family : IpFamily) (block : AddressBlock)
    (blocks : list AddressBlock) (w : Z) : result BlockError unit :=
  if bool_decide (family = FamilyV6) && negb (contains IPV4_MAPPED_BLOCK block w) then
    match List.find (fun candidate => contains IPV4_MAPPED_BLOCK candidate w) blocks with
    | Some crossing => Err (SplitsMappedRange (cidr peer) crossing)
    | None => Ok tt
    end
  else Ok tt.

(** The blocks a peer covers once its exclusions are removed. *)
Definition peer_blocks (peer : NetworkPeer)
  : result BlockError (option (IpFamily * list AddressBlock)) :=
  _ ← mapM (check_except_prefix peer) (except peer);
  match resolve (cidr peer) with
  | None => Ok None
  | Some (family, block) =>
      let w := width family in
      exclusions ← foldM (collect_exclusion peer family) (except peer) [];
      '(blocks, _) ← subtract block exclusions w [] MAX_BLOCKS_PER_PEER;
      _ ← mapped_guard peer family block blocks w;
      Ok (Some (family, blocks))
  end.

Example peer_blocks_splits :
  peer_blocks (MkPeer (MkCidr (V4 0x0a000000) 8) [MkCidr (V4 0x0a800000) 9])
  = Ok (Some (FamilyV4, [MkBlock 0x0a000000 9])).
Proof. vm_compute. done. Qed.

(** ** Well-formed blocks and the addresses they cover *)

Section Width.
Context (w : Z) (Hw : 0 <= w <= 128).

(** Number of host bits, and of addresses, of a block. *)
Definition host (b : AddressBlock) : Z := w - prefix b.
Definition size (b : AddressBlock) : Z := 2 ^ host b.

Definition block_wf (b : AddressBlock) : Prop :=
  0 <= prefix b <= w /\ 0 <= base b /\ base b mod size b = 0 /\ base b + size b <= 2 ^ w.

Definition mem (a : Z) (b : AddressBlock) : Prop := base b <= a < base b + size b.

#[local] Instance mem_dec a b : Decision (mem a b).
Proof. unfold mem. apply _. Defined.

Lemma host_mask_pow k : 0 <= k <= 128 -> host_mask k = 2 ^ k - 1.
Proof.
  intros Hk. unfold host_mask. destruct (Z.leb_spec 128 k).
  - by replace k with 128 by lia.
  - unfold u128_sub, u128_shl. rewrite Z.shiftl_mul_pow2, Z.mul_1_l by lia.
    pose proof (pow2_pos k). pose proof (pow2_le k 127).
    assert (2 ^ 127 < 2 ^ 128) by done.
    rewrite (wrap_small 128 (2 ^ k)), wrap_small; lia.
Qed.

Lemma u8_sub_host b : block_wf b -> u8_sub w (prefix b) = host b.
Proof. intros [? _]. unfold u8_sub, host. apply wrap_small. lia. Qed.

Lemma size_pos b : block_wf b -> 0 < size b.
Proof. intros [? _]. apply pow2_pos. unfold host. lia. Qed.

Lemma last_size b : block_wf b -> last b w = base b + size b - 1.
Proof.
  intros Hb. unfold last. rewrite u8_sub_host by done.
  destruct Hb as (? & ? & Ha & ?). unfold size, host in *.
  rewrite host_mask_pow, lor_ones_aligned by lia. lia.
Qed.

Lemma contains_spec b1 b2 :
  block_wf b1 -> block_wf b2 ->
  contains b1 b2 w = true <-> forall a, mem a b2 -> mem a b1.
Proof.
  intros H1 H2. unfold contains. rewrite !last_size by done.
  pose proof (size_pos b1 H1). pose proof (size_pos b2 H2).
  rewrite andb_true_iff, !Z.leb_le. unfold mem. split; [lia|].
  intros H'. pose proof (H' (base b2)). pose proof (H' (base b2 + size b2 - 1)). lia.
Qed.

Lemma intersects_spec b1 b2 :
  block_wf b1 -> block_wf b2 ->
  intersects b1 b2 w = true <-> exists a, mem a b1 /\ mem a b2.
Proof.
  intros H1 H2. unfold intersects. rewrite !last_size by done.
  pose proof (size_pos b1 H1). pose proof (size_pos b2 H2).
  rewrite andb_true_iff, !Z.leb_le. unfold mem. split.
  - intros. exists (Z.max (base b1) (base b2)). lia.
  - intros (a & ? & ?). lia.
Qed.

(** A block is the set of addresses that share its network part. *)
Lemma mem_div a b : block_wf b -> mem a b <-> a / size b = base b / size b.
Proof.
  intros Hb. pose proof (size_pos b Hb). destruct Hb as (? & ? & Ha & ?).
  pose proof (Z.div_mod (base b) (size b)). pose proof (Z.div_mod a (size b)).
  pose proof (Z.mod_pos_bound a (size b)). unfold mem. split.
  - intros. symmetry. apply (Z.div_unique_pos a (size b) _ (a - base b)); lia.
  - intros E. rewrite E in *. lia.
Qed.

(** CIDR blocks nest or are disjoint. *)
Lemma blocks_nest b1 b2 a :
  block_wf b1 -> block_wf b2 -> prefix b1 <= prefix b2 -> mem a b1 -> mem a b2 ->
  forall x, mem x b2 -> mem x b1.
Proof.
  intros H1 H2 Hp Ha1 Ha2 x Hx. rewrite mem_div in * by done.
  assert (E : size b1 = size b2 * 2 ^ (prefix b2 - prefix b1)).
  { unfold size, host. destruct H1, H2. rewrite <- Z.pow_add_r by lia. f_equal. lia. }
  pose proof (size_pos b2 H2). rewrite E in Ha1 |- *.
  assert (0 < 2 ^ (prefix b2 - prefix b1)) by (apply pow2_pos; lia).
  rewrite <- Ha1, <- !Z.div_div by lia. congruence.
Qed.

(** ** Splitting a block *)

Definition child_prefix (b : AddressBlock) : Z := u8_add (prefix b) 1.
Definition left_half (b : AddressBlock) : AddressBlock := MkBlock (base b) (child_prefix b).
Definition right_half (b : AddressBlock) : AddressBlock :=
  MkBlock (u128_add (base b) (u128_add (host_mask (u8_sub w (child_prefix b))) 1)) (child_prefix b).

Lemma child_prefix_S b : block_wf b -> prefix b < w -> child_prefix b = prefix b + 1.
Proof. intros [? _] ?. unfold child_prefix, u8_add. apply wrap_small. lia. Qed.

Lemma half_size b : block_wf b -> prefix b < w -> size b = 2 * 2 ^ (w - (prefix b + 1)).
Proof.
  intros [? _] ?. unfold size, host. rewrite <- pow2_S by lia. f_equal. lia.
Qed.

Lemma right_half_base b :
  block_wf b -> prefix b < w ->
  base (right_half b) = base b + 2 ^ (w - (prefix b + 1)).
Proof.
  intros Hb Hp. unfold right_half. cbn. rewrite child_prefix_S by done.
  pose proof (half_size b Hb Hp). destruct Hb as (? & ? & Ha & ?).
  assert (0 < 2 ^ (w - (prefix b + 1))) by (apply pow2_pos; lia).
  assert (2 ^ w <= 2 ^ 128) by (apply pow2_le; lia).
  unfold u8_sub, u128_add. rewrite (wrap_small 8) by lia.
  rewrite host_mask_pow by lia. rewrite (wrap_small 128 (_ + 1)) by lia.
  rewrite wrap_small by lia. lia.
Qed.

Lemma halves_wf b :
  block_wf b -> prefix b < w -> block_wf (left_half b) /\ block_wf (right_half b).
Proof.
  intros Hb Hp. pose proof (half_size b Hb Hp) as Hs.
  pose proof (right_half_base b Hb Hp) as Hr. pose proof (child_prefix_S b Hb Hp) as Hc.
  destruct Hb as (? & ? & Ha & ?).
  assert (Hh : 0 < 2 ^ (w - (prefix b + 1))) by (apply pow2_pos; lia).
  assert (Ha' : base b mod 2 ^ (w - (prefix b + 1)) = 0).
  { apply Z.mod_divide; [lia|]. apply Z.mod_divide in Ha; [|lia].
    etransitivity; [|exact Ha]. rewrite Hs. apply Z.divide_factor_r. }
  unfold block_wf, size, host. rewrite Hr. cbn [left_half right_half base prefix].
  rewrite Hc. split; split_and!; try lia.
  rewrite <- Z.add_mod_idemp_l, Ha', Z.add_0_l by lia. apply Z.mod_same. lia.
Qed.

Lemma mem_halves b a :
  block_wf b -> prefix b < w -> mem a b <-> mem a (left_half b) \/ mem a (right_half b).
Proof.
  intros Hb Hp. unfold mem. rewrite right_half_base by done.
  unfold size at 2 3, host. cbn [left_half right_half base prefix].
  rewrite child_prefix_S by done. pose proof (half_size b Hb Hp).
  assert (0 < 2 ^ (w - (prefix b + 1))) by (destruct Hb; apply pow2_pos; lia). lia.
Qed.

Lemma halves_disjoint b a :
  block_wf b -> prefix b < w -> mem a (left_half b) -> mem a (right_half b) -> False.
Proof.
  intros Hb Hp. unfold mem. rewrite right_half_base by done.
  unfold size, host. cbn [left_half right_half base prefix].
  rewrite child_prefix_S by done. lia.
Qed.

(** ** The reference subtraction *)

(** The surviving blocks without the budget: what [subtract] computes. *)
Fixpoint carve (fuel : nat) (b : AddressBlock) (ex : list AddressBlock) : list AddressBlock :=
  if existsb (fun e => contains e b w) ex then []
  else if negb (existsb (fun e => intersects e b w) ex) then [b]
  else match fuel with
       | O => []
       | S fuel => carve fuel (left_half b) ex ++ carve fuel (right_half b) ex
       end.

(** An address no exclusion covers. *)
Definition survives (ex : list AddressBlock) (a : Z) : Prop := forall e, e ∈ ex -> ~ mem a e.

(** Enough levels to reach a single address. *)
Definition levels (fuel : nat) (b : AddressBlock) : Prop := host b <= Z.of_nat fuel.

Section Exclusions.
Context (ex : list AddressBlock) (Hex : Forall block_wf ex).

Lemma existsb_contains b :
  block_wf b ->
  existsb (fun e => contains e b w) ex = true <->
  exists e, e ∈ ex /\ forall a, mem a b -> mem a e.
Proof.
  intros Hb. rewrite existsb_exists. rewrite Forall_forall in Hex. split.
  - intros (e & Hin & H). apply list_elem_of_In in Hin. exists e. split; [done|].
    apply contains_spec; auto.
  - intros (e & Hin & H). exists e. split; [by apply list_elem_of_In|].
    apply contains_spec; auto.
Qed.

Lemma existsb_intersects b :
  block_wf b ->
  existsb (fun e => intersects e b w) ex = true <->
  exists e a, e ∈ ex /\ mem a e /\ mem a b.
Proof.
  intros Hb. rewrite existsb_exists. rewrite Forall_forall in Hex. split.
  - intros (e & Hin & H). apply list_elem_of_In in Hin.
    apply intersects_spec in H as (a & ? & ?); eauto.
  - intros (e & a & Hin & ? & ?). exists e. split; [by apply list_elem_of_In|].
    apply intersects_spec; eauto.
Qed.

(** A single address is contained or disjoint, so the split never meets one. *)
Lemma partial_has_room b :
  block_wf b ->
  existsb (fun e => contains e b w) ex = false ->
  existsb (fun e => intersects e b w) ex = true -> prefix b < w.
Proof.
  intros Hb Hc Hi. apply existsb_intersects in Hi as (e & a & He & Hae & Hab); [|done].
  destruct (Z.lt_ge_cases (prefix b) w) as [|Hge]; [done|]. exfalso.
  apply not_true_iff_false in Hc. destruct Hc. apply existsb_contains; [done|].
  exists e. split; [done|]. intros x Hx.
  assert (x = a) as ->; [|done].
  assert (E : size b = 1). { unfold size, host. destruct Hb. by replace (w - prefix b) with 0 by lia. }
  unfold mem in *. lia.
Qed.

(** The cases of the subtraction, in terms of addresses. *)
Lemma carve_cases (P : nat -> AddressBlock -> list AddressBlock -> Prop) :
  (forall fuel b e, block_wf b -> levels fuel b -> e ∈ ex ->
     (forall a, mem a b -> mem a e) -> P fuel b []) ->
  (forall fuel b, block_wf b -> levels fuel b ->
     (forall a, mem a b -> survives ex a) -> P fuel b [b]) ->
  (forall fuel b e a, block_wf b -> levels (S fuel) b -> prefix b < w ->
     e ∈ ex -> mem a e -> mem a b ->
     P fuel (left_half b) (carve fuel (left_half b) ex) ->
     P fuel (right_half b) (carve fuel (right_half b) ex) ->
     P (S fuel) b (carve fuel (left_half b) ex ++ carve fuel (right_half b) ex)) ->
  forall fuel b, block_wf b -> levels fuel b -> P fuel b (carve fuel b ex).
Proof.
  intros Hin Hout Hsplit. induction fuel as [|fuel IH]; intros b Hb Hl; cbn [carve];
    (destruct (existsb (fun e => contains e b w) ex) eqn:Ec;
      [apply existsb_contains in Ec as (e & ? & ?); eauto|]);
    (destruct (existsb (fun e => intersects e b w) ex) eqn:Ei; cbn [negb];
      [|apply Hout; [done..|]; intros a Ha e He Hae;
        apply not_true_iff_false in Ei; destruct Ei; apply existsb_intersects; eauto]);
    pose proof (partial_has_room b Hb Ec Ei) as Hp.
  - unfold levels, host in Hl. lia.
  - apply existsb_intersects in Ei as (e & a & ? & ? & ?); [|done].
    destruct (halves_wf b Hb Hp). unfold levels, host in *.
    eapply Hsplit; eauto; apply IH; unfold levels, host; cbn [left_half right_half prefix];
      rewrite ?child_prefix_S by done; done || lia.
Qed.

Lemma carve_wf fuel b :
  block_wf b -> levels fuel b ->
  Forall (fun c => block_wf c /\ (forall a, mem a c -> mem a b)) (carve fuel b ex).
Proof.
  apply (carve_cases (fun _ b l => Forall (fun c => block_wf c /\ (forall a, mem a c -> mem a b)) l)).
  - constructor.
  - intros. apply Forall_singleton. done.
  - intros f b' e a Hb _ Hp _ _ _ HL HR.
    apply Forall_app; split; eapply Forall_impl; eauto; cbn;
      intros c (? & Hc); (split; [done|]); intros x Hx%Hc; apply mem_halves; auto.
Qed.

Lemma carve_covers fuel b a :
  block_wf b -> levels fuel b ->
  (exists c, c ∈ carve fuel b ex /\ mem a c) <-> mem a b /\ survives ex a.
Proof.
  apply (carve_cases (fun _ b l => (exists c, c ∈ l /\ mem a c) <-> mem a b /\ survives ex a)).
  - intros _ b' e _ _ He Hsub. split.
    + intros (c & Hc & _). by apply not_elem_of_nil in Hc.
    + intros [Hm Hs]. by destruct (Hs e He (Hsub a Hm)).
  - intros _ b' _ _ Hs. setoid_rewrite list_elem_of_singleton. naive_solver.
  - intros f b' e x Hb _ Hp _ _ _ HL HR. rewrite mem_halves by done.
    setoid_rewrite elem_of_app. split.
    + intros (c & [Hc|Hc] & Hm).
      * destruct (proj1 HL) as [? ?]; eauto.
      * destruct (proj1 HR) as [? ?]; eauto.
    + intros [[Hm|Hm] Hs].
      * destruct (proj2 HL) as (c & ? & ?); eauto.
      * destruct (proj2 HR) as (c & ? & ?); eauto.
Qed.

(** No address is covered twice. *)
Lemma carve_disjoint fuel b :
  block_wf b -> levels fuel b ->
  forall i j c d a, carve fuel b ex !! i = Some c -> carve fuel b ex !! j = Some d ->
    mem a c -> mem a d -> i = j.
Proof.
  apply (carve_cases (fun fuel b l => forall i j c d a, l !! i = Some c -> l !! j = Some d ->
    mem a c -> mem a d -> i = j)).
  - intros; by rewrite lookup_nil in *.
  - intros _ b' _ _ _ i j c d a Hi%list_lookup_singleton_Some Hj%list_lookup_singleton_Some.
    naive_solver lia.
  - intros f b' e x Hb Hl Hp _ _ _ HL HR i j c d a Hi Hj Hc Hd.
    destruct (halves_wf b' Hb Hp) as [WL WR].
    assert (levels f (left_half b') /\ levels f (right_half b')) as [LL LR].
    { unfold levels, host in *. cbn [left_half right_half prefix].
      rewrite child_prefix_S by done. lia. }
    pose proof (carve_wf f _ WL LL) as FL. pose proof (carve_wf f _ WR LR) as FR.
    rewrite Forall_forall in FL, FR.
    assert (Hside : forall k y, (carve f (left_half b') ex ++ carve f (right_half b') ex) !! k = Some y ->
              mem a y -> (carve f (left_half b') ex !! k = Some y /\ mem a (left_half b'))
                      \/ (exists k', k = (length (carve f (left_half b') ex) + k')%nat /\
                            carve f (right_half b') ex !! k' = Some y /\ mem a (right_half b'))).
    { intros k y [Hk|[Hge Hk]]%lookup_app_Some Hy.
      - left. split; [done|]. by apply (FL y (list_elem_of_lookup_2 _ _ _ Hk)).
      - right. exists (k - length (carve f (left_half b') ex))%nat. split_and!; [lia|done|].
        by apply (FR y (list_elem_of_lookup_2 _ _ _ Hk)). }
    destruct (Hside i c Hi Hc) as [[Hi' Hmi]|(i' & -> & Hi' & Hmi)],
             (Hside j d Hj Hd) as [[Hj' Hmj]|(j' & -> & Hj' & Hmj)]; eauto.
    + exfalso; eapply (halves_disjoint b' a); eauto.
    + exfalso; eapply (halves_disjoint b' a); eauto.
Qed.

(** Each surviving block is maximal: no CIDR block inside the surviving
    addresses reaches beyond it. *)
Lemma carve_maximal fuel b :
  block_wf b -> levels fuel b ->
  forall c d x, c ∈ carve fuel b ex -> block_wf d ->
    (forall a, mem a d -> mem a b /\ survives ex a) -> mem x c -> mem x d ->
    forall a, mem a d -> mem a c.
Proof.
  apply (carve_cases (fun fuel b l => forall c d x, c ∈ l -> block_wf d ->
    (forall a, mem a d -> mem a b /\ survives ex a) -> mem x c -> mem x d ->
    forall a, mem a d -> mem a c)).
  - intros _ b' e _ _ _ _ c d x Hc. by apply not_elem_of_nil in Hc.
  - intros _ b' _ _ _ c d x ->%list_elem_of_singleton. naive_solver.
  - intros f b' e y Hb Hl Hp He Hye Hyb HL HR c d x Hc Hd Hsub Hxc Hxd.
    destruct (halves_wf b' Hb Hp) as [WL WR].
    assert (levels f (left_half b') /\ levels f (right_half b')) as [LL LR].
    { unfold levels, host in *. cbn [left_half right_half prefix].
      rewrite child_prefix_S by done. lia. }
    assert (Hside : forall h, h = left_half b' \/ h = right_half b' -> mem x h ->
              forall a, mem a d -> mem a h).
    { intros h Hh Hxh. assert (Wh : block_wf h) by (destruct Hh; by subst).
      assert (Ph : prefix h = prefix b' + 1).
      { destruct Hh; subst; cbn; by apply child_prefix_S. }
      destruct (Z.le_gt_cases (prefix h) (prefix d)) as [Hle|Hgt];
        [by apply (blocks_nest h d x)|].
      exfalso. apply (proj2 (Hsub y ltac:(by apply (blocks_nest d b' x); [..|lia|done|apply Hsub|]))
                e He Hye). }
    pose proof (carve_wf f _ WL LL) as FL. pose proof (carve_wf f _ WR LR) as FR.
    rewrite Forall_forall in FL, FR.
    apply elem_of_app in Hc as [Hc|Hc].
    + pose proof (proj2 (FL c Hc) x Hxc) as Hx.
      eapply HL; eauto. intros a Ha. split; [by apply (Hside _ ltac:(by left))|by apply Hsub].
    + pose proof (proj2 (FR c Hc) x Hxc) as Hx.
      eapply HR; eauto. intros a Ha. split; [by apply (Hside _ ltac:(by right))|by apply Hsub].
Qed.

Lemma carve_nodup fuel b : block_wf b -> levels fuel b -> NoDup (carve fuel b ex).
Proof.
  intros Hb Hl. apply NoDup_alt. intros i j c Hi Hj.
  apply (carve_disjoint fuel b Hb Hl i j c c (base c) Hi Hj);
    pose proof (carve_wf fuel b Hb Hl) as F; rewrite Forall_forall in F;
    destruct (F c (list_elem_of_lookup_2 _ _ _ Hi)) as [Wc _];
    pose proof (size_pos c Wc); unfold mem; lia.
Qed.

(** No set of CIDR blocks covering the same addresses is smaller. *)
Lemma carve_minimal fuel b ds :
  block_wf b -> levels fuel b -> Forall block_wf ds ->
  (forall a, (exists d, d ∈ ds /\ mem a d) <-> mem a b /\ survives ex a) ->
  (length (carve fuel b ex) <= length ds)%nat.
Proof.
  intros Hb Hl Hds Hcov. rewrite Forall_forall in Hds.
  pose proof (carve_wf fuel b Hb Hl) as F. rewrite Forall_forall in F.
  assert (Hbase : forall c, c ∈ carve fuel b ex -> mem (base c) c).
  { intros c Hc. destruct (F c Hc) as [Wc _]. pose proof (size_pos c Wc). unfold mem. lia. }
  apply (length_le_by_rel (fun c d => block_wf d /\ forall a, mem a d -> mem a c)).
  - by apply carve_nodup.
  - intros c Hc.
    destruct (proj2 (Hcov (base c))) as (d & Hd & Hm).
    { apply (carve_covers fuel b); [done..|]. eauto. }
    exists d. split; [done|]. split; [auto|].
    apply (carve_maximal fuel b Hb Hl c d (base c)); auto.
    intros a Ha. apply Hcov. eauto.
  - intros c c' d Hc Hc' [Wd H1] [_ H2].
    apply list_elem_of_lookup in Hc as (i & Hi), Hc' as (j & Hj).
    assert (mem (base d) d) by (pose proof (size_pos d Wd); unfold mem; lia).
    assert (i = j) by (apply (carve_disjoint fuel b Hb Hl i j c c' (base d)); auto). congruence.
Qed.

(** [subtract] is the reference subtraction under a budget: it appends exactly
    the carved blocks, or refuses when they do not fit. *)
Lemma subtract_go_carve fuel b out remaining :
  block_wf b -> levels fuel b -> 0 <= remaining ->
  subtract_go fuel b ex w out remaining =
  let cs := carve fuel b ex in
  if Z.of_nat (length cs) <=? remaining
  then Ok (out ++ cs, remaining - Z.of_nat (length cs)) else Err TooManyBlocks.
Proof.
  revert b out remaining. induction fuel as [|fuel IH]; intros b out rem Hb Hl Hr;
    cbv zeta; cbn [subtract_go carve];
    (destruct (existsb (fun e => contains e b w) ex) eqn:Ec;
      [change (Z.of_nat (length [])) with 0; destruct (Z.leb_spec 0 rem); [|lia];
       by rewrite app_nil_r, Z.sub_0_r|]);
    (destruct (existsb (fun e => intersects e b w) ex) eqn:Ei; cbn [negb];
      [|change (Z.of_nat (length [b])) with 1;
        destruct (Z.eqb_spec rem 0), (Z.leb_spec 1 rem); done || lia]);
    pose proof (partial_has_room b Hb Ec Ei) as Hp.
  - unfold levels, host in Hl. lia.
  - destruct (Z.leb_spec w (prefix b)); [lia|]. destruct (halves_wf b Hb Hp).
    fold (child_prefix b) (left_half b) (right_half b).
    assert (levels fuel (left_half b) /\ levels fuel (right_half b)) as [LL LR].
    { unfold levels, host in *. cbn [left_half right_half prefix].
      rewrite child_prefix_S by done. lia. }
    rewrite IH by done. cbv zeta. rewrite length_app, Nat2Z.inj_add.
    set (l := carve fuel (left_half b) ex). set (r := carve fuel (right_half b) ex).
    destruct (Z.leb_spec (Z.of_nat (length l)) rem); cbn [mbind result_bind].
    2:{ by destruct (Z.leb_spec (Z.of_nat (length l) + Z.of_nat (length r)) rem); [lia|]. }
    rewrite IH by (done || lia). fold r. cbv zeta. rewrite <- app_assoc.
    destruct (Z.leb_spec (Z.of_nat (length r)) (rem - Z.of_nat (length l))),
      (Z.leb_spec (Z.of_nat (length l) + Z.of_nat (length r)) rem); try lia; [|done].
    do 2 f_equal. lia.
Qed.

End Exclusions.
End Width.

Lemma width_bounds f : 0 <= width f <= 128.
Proof. destruct f; cbn; lia. Qed.

Lemma levels_width w b : block_wf w b -> 0 <= w -> levels w (Z.to_nat w) b.
Proof. unfold block_wf, levels, host. lia. Qed.
#[export] Hint Resolve width_bounds levels_width : blocks.

(** The entry point has fuel for every level of the family. *)
Lemma subtract_carve w b ex out remaining :
  0 <= w <= 128 -> block_wf w b -> Forall (block_wf w) ex -> 0 <= remaining ->
  subtract b ex w out remaining =
  let cs := carve w (Z.to_nat w) b ex in
  if Z.of_nat (length cs) <=? remaining
  then Ok (out ++ cs, remaining - Z.of_nat (length cs)) else Err TooManyBlocks.
Proof.
  intros Hw Hb Hex Hr. apply subtract_go_carve; try done. apply levels_width; [done|lia].
Qed.

Lemma subtract_Ok w b ex out remaining out' remaining' :
  0 <= w <= 128 -> block_wf w b -> Forall (block_wf w) ex -> 0 <= remaining ->
  subtract b ex w out remaining = Ok (out', remaining') ->
  let cs := carve w (Z.to_nat w) b ex in
  out' = out ++ cs /\ Z.of_nat (length cs) <= remaining /\
  remaining' = remaining - Z.of_nat (length cs).
Proof.
  intros Hw Hb Hex Hr. rewrite subtract_carve by done. cbv zeta.
  destruct (Z.leb_spec (Z.of_nat (length (carve w (Z.to_nat w) b ex))) remaining); [|done].
  by intros [= <- <-].
Qed.

(** ** What a CIDR names *)

(** Standard CIDR membership of an address, by network part. *)
Definition names (c : NetworkCidr) (a : IpAddr) : Prop :=
  match address c, a with
  | V4 ip, V4 x => prefix_length c <= 32 /\
      x / 2 ^ (32 - prefix_length c) = ip / 2 ^ (32 - prefix_length c)
  | V6 ip, V6 x => prefix_length c <= 128 /\
      x / 2 ^ (128 - prefix_length c) = ip / 2 ^ (128 - prefix_length c)
  | _, _ => False
  end.

(** The IPv4-mapped IPv6 form of an IPv4 address. *)
Definition mapped (x : Z) : Z := 65535 * 2 ^ 32 + x.

(** The block cut out of an in-range address at a prefix. *)
Lemma cut_block_wf w raw p :
  0 <= w <= 128 -> 0 <= raw < 2 ^ w -> 0 <= p <= w ->
  let b := MkBlock (Z.land raw (u128_not (host_mask (u8_sub w p)))) p in
  block_wf w b /\ forall a, mem w a b <-> a / 2 ^ (w - p) = raw / 2 ^ (w - p).
Proof.
  intros Hw Hr Hp. cbv zeta.
  assert (2 ^ w <= 2 ^ 128) by (apply pow2_le; lia).
  assert (0 < 2 ^ (w - p)) by (apply pow2_pos; lia).
  unfold u8_sub. rewrite wrap_small, host_mask_pow, land_not_ones by lia.
  assert (E : raw - raw mod 2 ^ (w - p) = 2 ^ (w - p) * (raw / 2 ^ (w - p))).
  { pose proof (Z.div_mod raw (2 ^ (w - p))). lia. }
  assert (Hd : (raw - raw mod 2 ^ (w - p)) / 2 ^ (w - p) = raw / 2 ^ (w - p)).
  { rewrite E, Z.mul_comm. apply Z.div_mul. lia. }
  assert (W : block_wf w (MkBlock (raw - raw mod 2 ^ (w - p)) p)).
  { unfold block_wf, size, host. cbn [base prefix]. split_and!; try lia.
    - rewrite E. apply Z.mul_nonneg_nonneg; [lia|]. apply Z.div_pos; lia.
    - rewrite E, Z.mul_comm. apply Z.mod_mul. lia.
    - rewrite E, (pow2_split w (w - p)) by lia.
      assert (raw / 2 ^ (w - p) < 2 ^ (w - (w - p))).
      { apply Z.div_lt_upper_bound; [lia|]. rewrite <- pow2_split by lia. lia. }
      nia. }
  split; [done|]. intros a. rewrite mem_div by done. unfold size, host. cbn [base prefix].
  by rewrite Hd.
Qed.

Lemma mapped_div x p :
  0 <= x < 2 ^ 32 -> 0 <= p <= 32 ->
  mapped x / 2 ^ (32 - p) = 65535 * 2 ^ p + x / 2 ^ (32 - p).
Proof.
  intros Hx Hp. unfold mapped. rewrite (pow2_split 32 (32 - p)) by lia.
  replace (32 - (32 - p)) with p by lia.
  assert (0 < 2 ^ (32 - p)) by (apply pow2_pos; lia).
  replace (65535 * (2 ^ (32 - p) * 2 ^ p) + x) with (x + 65535 * 2 ^ p * 2 ^ (32 - p)) by lia.
  rewrite Z.div_add by lia. lia.
Qed.

(** [resolve] programs a CIDR in the family its packets travel in, and the block
    covers the addresses the CIDR names there. *)
Lemma resolve_spec c f b :
  cidr_wf c -> resolve c = Some (f, b) ->
  block_wf (width f) b /\
  match f with
  | FamilyV4 => forall a, 0 <= a < 2 ^ 32 ->
      mem 32 a b <-> names c (V4 a) \/ names c (V6 (mapped a))
  | FamilyV6 => forall a, mem 128 a b <-> names c (V6 a)
  end.
Proof.
  intros [Ha Hp] H. unfold resolve in H. unfold names.
  destruct (address c) as [ip|ip]; cbn in Ha.
  - cbn [width] in H. destruct (Z.ltb_spec 32 (prefix_length c)); [done|]. injection H as <- <-.
    destruct (cut_block_wf 32 ip (prefix_length c)) as [W M]; [lia..|].
    split; [done|]. intros a _. rewrite M. naive_solver.
  - destruct (to_ipv4_mapped ip) as [v4|] eqn:E;
      [apply to_ipv4_mapped_Some in E as [Hv ->]; [|lia];
       destruct (Z.leb_spec 96 (prefix_length c))|]; cbn [width] in H.
    + unfold u8_sub in H. rewrite wrap_small in H by (unfold u8_max in *; lia).
      destruct (Z.ltb_spec 32 (prefix_length c - 96)); [done|]. injection H as <- <-.
      destruct (cut_block_wf 32 v4 (prefix_length c - 96)) as [W M]; [lia..|].
      unfold u8_sub in W, M. split; [done|]. intros a Ha'. rewrite M.
      replace (128 - prefix_length c) with (32 - (prefix_length c - 96)) by lia.
      fold (mapped v4). rewrite !mapped_div by lia. intuition lia.
    + destruct (Z.ltb_spec 128 (prefix_length c)); [done|]. injection H as <- <-.
      destruct (cut_block_wf 128 (65535 * 2 ^ 32 + v4) (prefix_length c)) as [W M]; [lia..|].
      split; [done|]. intros a. rewrite M. intuition lia.
    + destruct (Z.ltb_spec 128 (prefix_length c)); [done|]. injection H as <- <-.
      destruct (cut_block_wf 128 ip (prefix_length c)) as [W M]; [lia..|].
      split; [done|]. intros a. rewrite M. intuition lia.
Qed.


Lemma mapped_block_wf : block_wf 128 IPV4_MAPPED_BLOCK.
Proof. unfold block_wf. cbn [base prefix IPV4_MAPPED_BLOCK]. split_and!; done. Qed.

(** An IPv6 resolution never lies inside the IPv4-mapped range: that range is
    programmed as IPv4. *)
Lemma resolve_v6_outside_mapped c b :
  cidr_wf c -> resolve c = Some (FamilyV6, b) -> contains IPV4_MAPPED_BLOCK b 128 = false.
Proof.
  intros Hc H. destruct (resolve_spec c _ b Hc H) as [W _]. cbn [width] in W.
  apply not_true_iff_false. intros Hin. rewrite contains_spec in Hin; [|lia|apply mapped_block_wf|done].
  pose proof (size_pos 128 b W) as Hs. destruct W as (Hp & Hb & Ha & _).
  pose proof (Hin (base b)) as H1. pose proof (Hin (base b + size 128 b - 1)) as H2.
  unfold mem in H1, H2. change (size 128 IPV4_MAPPED_BLOCK) with (2 ^ 32) in *.
  change (base IPV4_MAPPED_BLOCK) with (65535 * 2 ^ 32) in *.
  assert (96 <= prefix b).
  { destruct (Z.le_gt_cases 96 (prefix b)); [done|].
    assert (2 ^ 33 <= size 128 b) by (apply pow2_le; unfold host; lia).
    change (2 ^ 33) with (2 * 2 ^ 32) in *. lia. }
  destruct Hc as [Hip Hpl]. unfold resolve in H.
  destruct (address c) as [ip|ip]; cbn in Hip; [by repeat case_match|].
  assert (Hbase : base b = ip - ip mod 2 ^ (128 - prefix b) /\ prefix b = prefix_length c).
  { destruct (to_ipv4_mapped ip); [destruct (96 <=? prefix_length c)|]; cbn [width] in H;
      try (by repeat case_match);
      destruct (Z.ltb_spec 128 (prefix_length c)); try done;
      injection H as <-; cbn [base prefix] in *;
      unfold u8_sub; rewrite wrap_small, host_mask_pow, land_not_ones by lia; done. }
  destruct Hbase as [Hbase Hpre].
  assert (Hip32 : ip / 2 ^ 32 = 65535).
  { assert (0 < 2 ^ (128 - prefix b)) by (apply pow2_pos; lia).
    pose proof (Z.mod_pos_bound ip (2 ^ (128 - prefix b))).
    unfold size, host in *. symmetry.
    apply (Z.div_unique_pos _ _ _ (ip - 65535 * 2 ^ 32)); lia. }
  unfold to_ipv4_mapped in H. rewrite Z.shiftr_div_pow2, Hip32 in H by lia. cbn in H.
  destruct (Z.leb_spec 96 (prefix_length c)); [|lia]. by case_match.
Qed.

(** A block of the family, written as a CIDR and resolved again, is itself,
    unless it lies in the IPv4-mapped range. *)
Lemma resolve_block f b :
  block_wf (width f) b ->
  (f = FamilyV6 -> contains IPV4_MAPPED_BLOCK b 128 = false) ->
  resolve (MkCidr (block_address b f) (prefix b)) = Some (f, b).
Proof.
  intros W Hm. pose proof (size_pos _ b W) as Hs. pose proof W as (Hp & Hb & Ha & Htop).
  assert (Hcut : Z.land (base b) (u128_not (host_mask (u8_sub (width f) (prefix b)))) = base b).
  { pose proof (width_bounds f). assert (2 ^ width f <= 2 ^ 128) by (apply pow2_le; lia).
    unfold u8_sub. rewrite wrap_small, host_mask_pow, land_not_ones by lia.
    unfold size, host in Ha. lia. }
  unfold resolve. destruct f; cbn [block_address address prefix_length width] in *.
  - rewrite (wrap_small 32) by lia. destruct (Z.ltb_spec 32 (prefix b)); [lia|].
    rewrite Hcut. by destruct b.
  - specialize (Hm eq_refl).
    assert (Hstay : forall v4, to_ipv4_mapped (base b) = Some v4 -> (96 <=? prefix b) = false).
    { intros v4 Hv. apply to_ipv4_mapped_Some in Hv as [Hv E]; [|lia].
      destruct (Z.leb_spec 96 (prefix b)); [|done]. exfalso.
      apply not_true_iff_false in Hm. apply Hm, contains_spec; [lia|apply mapped_block_wf|done|].
      apply (blocks_nest 128 ltac:(lia) _ _ (base b)); [apply mapped_block_wf|done|cbn; lia| |unfold mem; lia].
      unfold mem. change (size 128 IPV4_MAPPED_BLOCK) with (2 ^ 32).
      change (base IPV4_MAPPED_BLOCK) with (65535 * 2 ^ 32). lia. }
    destruct (to_ipv4_mapped (base b)) as [v4|] eqn:E;
      [rewrite (Hstay v4 eq_refl)|]; cbn [width];
      (destruct (Z.ltb_spec 128 (prefix b)); [lia|]); rewrite Hcut; by destruct b.
Qed.

(** ** Peers *)

(** The destination [a] of a packet of family [f] is one the CIDR names: an
    IPv4 packet carries a plain IPv4 address or an IPv4-mapped IPv6 one. *)
Definition covers (f : IpFamily) (c : NetworkCidr) (a : Z) : Prop :=
  match f with
  | FamilyV4 => names c (V4 a) \/ names c (V6 (mapped a))
  | FamilyV6 => names c (V6 a)
  end.

(** A peer covers a destination its CIDR names and no exclusion does. *)
Definition peer_covers (f : IpFamily) (p : NetworkPeer) (a : Z) : Prop :=
  covers f (cidr p) a /\ forall e, e ∈ except p -> ~ covers f e a.

Lemma resolve_covers c f b a :
  cidr_wf c -> resolve c = Some (f, b) -> 0 <= a < 2 ^ width f ->
  mem (width f) a b <-> covers f c a.
Proof.
  intros Hc H Ha. destruct (resolve_spec c f b Hc H) as [_ M]. destruct f; cbn in *; auto.
Qed.

(** The exclusions collected are those of the peer, resolved in its family. *)
Lemma collect_exclusions peer f l acc ex :
  foldM (collect_exclusion peer f) l acc = Ok ex ->
  exists ex', ex = acc ++ ex' /\
    (forall b, b ∈ ex' <-> exists e, e ∈ l /\ resolve e = Some (f, b)) /\
    (forall e f' b, e ∈ l -> resolve e = Some (f', b) -> f' = f).
Proof.
  revert acc. induction l as [|e l IH]; intros acc H; cbn in H.
  - injection H as <-. exists []. rewrite app_nil_r. split_and!; [done| |set_solver].
    set_solver.
  - apply bind_Ok in H as (acc' & H1 & H2). apply IH in H2 as (ex' & -> & Hin & Hfam).
    unfold collect_exclusion in H1. destruct (resolve e) as [[f' b]|] eqn:E.
    + case_decide as Hf; [|done]. injection H1 as <-. subst f'.
      exists (b :: ex'). rewrite <- app_assoc. split_and!; [done| |].
      * intros b'. rewrite elem_of_cons, Hin. set_solver.
      * set_solver.
    + injection H1 as <-. exists ex'. split_and!; [done| |set_solver].
      intros b'. rewrite Hin. set_solver.
Qed.

(** Every exclusion of an accepted peer fits its own family, so it resolves. *)
Lemma checked_except_resolves peer e :
  cidr_wf e -> check_except_prefix peer e = Ok () -> is_Some (resolve e).
Proof.
  intros [Ha Hp] H. unfold check_except_prefix in H. inv_ok. unfold resolve.
  destruct (address e) as [ip|ip]; cbn [width] in *.
  - rewrite H. eauto.
  - apply Z.ltb_ge in H. destruct (to_ipv4_mapped ip);
      [destruct (Z.leb_spec 96 (prefix_length e))|]; cbn [width].
    + unfold u8_sub. rewrite wrap_small by (unfold u8_max in *; lia).
      destruct (Z.ltb_spec 32 (prefix_length e - 96)); [lia|eauto].
    + destruct (Z.ltb_spec 128 (prefix_length e)); [lia|eauto].
    + destruct (Z.ltb_spec 128 (prefix_length e)); [lia|eauto].
Qed.

Lemma mapped_guard_Ok p f b bs u c :
  mapped_guard p f b bs (width f) = Ok u -> f = FamilyV6 ->
  contains IPV4_MAPPED_BLOCK b 128 = false -> c ∈ bs ->
  contains IPV4_MAPPED_BLOCK c 128 = false.
Proof.
  intros H -> Hb Hc. unfold mapped_guard in H. cbn [width] in H.
  rewrite Hb, bool_decide_eq_true_2 in H by done. cbn [andb negb] in H.
  destruct (List.find _ bs) as [x|] eqn:E; [done|].
  apply (find_none _ _ E). by apply list_elem_of_In.
Qed.

(** What an accepted peer went through. *)
Lemma peer_blocks_inv p f bs :
  peer_wf p -> peer_blocks p = Ok (Some (f, bs)) ->
  exists b ex, resolve (cidr p) = Some (f, b) /\ block_wf (width f) b /\
    Forall (block_wf (width f)) ex /\
    (forall a, 0 <= a < 2 ^ width f ->
       survives (width f) ex a <-> forall e, e ∈ except p -> ~ covers f e a) /\
    bs = carve (width f) (Z.to_nat (width f)) b ex /\
    (length bs <= 256)%nat /\
    (f = FamilyV6 -> forall c, c ∈ bs -> contains IPV4_MAPPED_BLOCK c 128 = false).
Proof.
  intros [Hc Hexc] H. unfold peer_blocks in H.
  apply bind_Ok in H as (u & Hchk & H). apply mapM_Ok in Hchk.
  destruct (resolve (cidr p)) as [[f' b]|] eqn:E; [|done].
  apply bind_Ok in H as (ex & Hcol & H). apply bind_Ok in H as ([bs' rem] & Hsub & H).
  apply bind_Ok in H as (u' & Hguard & [= -> ->]).
  apply collect_exclusions in Hcol as (ex' & -> & Hin & Hfam).
  cbn [app] in *. rewrite Forall_forall in Hexc.
  destruct (resolve_spec _ _ _ Hc E) as [Wb _].
  assert (Wex : Forall (block_wf (width f)) ex').
  { apply Forall_forall. intros c (e & He & Hr)%Hin.
    by apply (resolve_spec e f c (Hexc e He)). }
  destruct (subtract_Ok _ _ _ _ MAX_BLOCKS_PER_PEER _ _ (width_bounds f) Wb Wex ltac:(done) Hsub) as (Hbs & Hlen & _).
  cbn [app] in Hbs. subst bs.
  exists b, ex'. split_and!; [done..| | | |].
  - intros a Ha. split.
    + intros Hs e He Hcov.
      apply list_elem_of_lookup in He as (i & Hi).
      destruct (Forall2_lookup_l _ _ _ _ _ Hchk Hi) as ([] & _ & Hok).
      pose proof (list_elem_of_lookup_2 _ _ _ Hi) as He.
      destruct (checked_except_resolves p e (Hexc e He) Hok) as [[f' c] Hr].
      pose proof (Hfam e f' c He Hr) as ->.
      apply (Hs c); [apply Hin; eauto|]. by apply (resolve_covers e f c a (Hexc e He)).
    + intros Hn c (e & He & Hr)%Hin Hm. apply (Hn e He).
      by apply (resolve_covers e f c a (Hexc e He) Hr Ha).
  - done.
  - unfold MAX_BLOCKS_PER_PEER in Hlen. lia.
  - intros Hv6 c Hcin. apply (mapped_guard_Ok p f b _ u' c Hguard Hv6); [|done].
    apply (resolve_v6_outside_mapped (cidr p)); [done|by rewrite <- Hv6].
Qed.

(** ** Properties *)

(** C33. Subtracting exclusions from a CIDR block covers exactly the addresses of
    the block that no exclusion covers, each by one block, appended to what was
    already emitted and charged to the budget; it fails only by exceeding the
    budget, and then no list of CIDR blocks within the budget covers those
    addresses either. *)
Theorem subtract_correct w b ex out remaining :
  0 <= w <= 128 -> block_wf w b -> Forall (block_wf w) ex -> 0 <= remaining ->
  match subtract b ex w out remaining with
  | Ok (out', remaining') =>
      exists cs, out' = out ++ cs /\ remaining' = remaining - Z.of_nat (length cs) /\
        0 <= remaining' /\ Forall (block_wf w) cs /\
        (forall i j c d a, cs !! i = Some c -> cs !! j = Some d -> mem w a c -> mem w a d -> i = j) /\
        (forall a, (exists c, c ∈ cs /\ mem w a c) <-> mem w a b /\ survives w ex a)
  | Err e => e = TooManyBlocks /\
      forall ds, Forall (block_wf w) ds ->
        (forall a, (exists d, d ∈ ds /\ mem w a d) <-> mem w a b /\ survives w ex a) ->
        remaining < Z.of_nat (length ds)
  end.
Proof.
  intros Hw Hb Hex Hr. pose proof (levels_width w b Hb ltac:(lia)) as Hl.
  rewrite subtract_carve by done. cbv zeta.
  destruct (Z.leb_spec (Z.of_nat (length (carve w (Z.to_nat w) b ex))) remaining) as [Hle|Hgt].
  - exists (carve w (Z.to_nat w) b ex). split_and!; [done|done|lia| | |].
    + eapply Forall_impl; [by apply carve_wf|]. by intros c [? _].
    + by apply carve_disjoint.
    + intros a. by apply carve_covers.
  - split; [done|]. intros ds Hds Hcov.
    pose proof (carve_minimal w Hw ex Hex _ b ds Hb Hl Hds Hcov). lia.
Qed.

(** The emitted blocks are the smallest set of whole CIDR blocks covering
    the surviving addresses: any other list of CIDR blocks with the same
    coverage is at least as long. *)
Theorem subtract_minimal w b ex remaining bs remaining' ds :
  0 <= w <= 128 -> block_wf w b -> Forall (block_wf w) ex -> 0 <= remaining ->
  subtract b ex w [] remaining = Ok (bs, remaining') ->
  Forall (block_wf w) ds ->
  (forall a, (exists d, d ∈ ds /\ mem w a d) <-> (exists c, c ∈ bs /\ mem w a c)) ->
  (length bs <= length ds)%nat.
Proof.
  intros Hw Hb Hex Hr Hs Hds Hcov. pose proof (levels_width w b Hb ltac:(lia)) as Hl.
  destruct (subtract_Ok _ _ _ _ _ _ _ Hw Hb Hex Hr Hs) as (-> & _ & _). cbn [app] in *.
  apply (carve_minimal w Hw ex Hex _ b); [done..|].
  intros a. rewrite Hcov. by apply carve_covers.
Qed.

(** The blocks of a peer and what they cover. *)
Lemma peer_blocks_covers p f bs :
  peer_wf p -> peer_blocks p = Ok (Some (f, bs)) ->
  (length bs <= 256)%nat /\ (exists b, resolve (cidr p) = Some (f, b)) /\
  forall a, 0 <= a < 2 ^ width f ->
    (exists c, c ∈ bs /\ mem (width f) a c) <-> peer_covers f p a.
Proof.
  intros Hp H. destruct (peer_blocks_inv p f bs Hp H) as
    (b & ex & Hr & Wb & Wex & Hs & -> & Hlen & _). split_and!; [done|eauto|]. intros a Ha.
  rewrite (carve_covers _ (width_bounds f) ex Wex _ b a Wb)
    by (apply levels_width; [done|apply width_bounds]).
  rewrite (resolve_covers _ _ _ a (proj1 Hp) Hr Ha), Hs by done. done.
Qed.

Lemma peer_blocks_resolve p f bs b :
  peer_wf p -> peer_blocks p = Ok (Some (f, bs)) -> b ∈ bs ->
  block_wf (width f) b /\ resolve (MkCidr (block_address b f) (prefix b)) = Some (f, b).
Proof.
  intros Hp H Hin. destruct (peer_blocks_inv p f bs Hp H) as
    (b0 & ex & Hr & Wb & Wex & Hs & -> & Hlen & Hmap).
  assert (W : block_wf (width f) b).
  { pose proof (carve_wf _ (width_bounds f) ex Wex (Z.to_nat (width f)) b0 Wb) as F.
    rewrite Forall_forall in F. apply F; [|done]. apply levels_width; [done|apply width_bounds]. }
  split; [done|]. apply resolve_block; [done|by intros ->; auto].
Qed.

Lemma peer_blocks_None p : peer_blocks p = Ok None -> resolve (cidr p) = None.
Proof.
  unfold peer_blocks. intros H. apply bind_Ok in H as (? & _ & H).
  destruct (resolve (cidr p)) as [[f b]|]; [|done].
  apply bind_Ok in H as (? & _ & H). apply bind_Ok in H as ([? ?] & _ & H).
  by apply bind_Ok in H as (? & _ & H).
Qed.

(** The blocks of an accepted peer cover a destination of the family exactly
    when the peer's CIDR names it and none of its exclusions does, and there
    are at most 256 of them. *)
Theorem peer_blocks_exact p f bs :
  peer_wf p -> peer_blocks p = Ok (Some (f, bs)) ->
  (length bs <= 256)%nat /\
  forall a, 0 <= a < 2 ^ width f ->
    (exists c, c ∈ bs /\ mem (width f) a c) <-> peer_covers f p a.
Proof. intros Hp H. by destruct (peer_blocks_covers p f bs Hp H) as (? & _ & ?). Qed.

(** Every block emitted for a peer, written back as a CIDR, is programmed in
    the family it was computed in and covers the same addresses: no piece of an
    IPv6 peer turns into an IPv4 rule. *)
Theorem peer_blocks_reprogram p f bs b :
  peer_wf p -> peer_blocks p = Ok (Some (f, bs)) -> b ∈ bs ->
  resolve (MkCidr (block_address b f) (prefix b)) = Some (f, b).
Proof. intros Hp H Hin. apply (peer_blocks_resolve p f bs b Hp H Hin). Qed.

(** ** Witnesses *)

Ltac concrete_block := unfold block_wf; cbn [base prefix]; split_and!; done.

(** [10.0.0.0/8] without [10.128.0.0/9]. *)
Lemma subtract_correct_witness :
  exists cs, subtract (MkBlock 0x0a000000 8) [MkBlock 0x0a800000 9] 32 [] 256 = Ok (cs, 255) /\
    forall a, (exists c, c ∈ cs /\ mem 32 a c) <->
      mem 32 a (MkBlock 0x0a000000 8) /\ survives 32 [MkBlock 0x0a800000 9] a.
Proof.
  assert (H : subtract (MkBlock 0x0a000000 8) [MkBlock 0x0a800000 9] 32 [] 256
              = Ok ([MkBlock 0x0a000000 9], 255)) by (vm_compute; reflexivity).
  exists [MkBlock 0x0a000000 9]. split; [exact H|].
  pose proof (subtract_correct 32 (MkBlock 0x0a000000 8) [MkBlock 0x0a800000 9] [] 256
    ltac:(lia) ltac:(concrete_block) ltac:(apply Forall_singleton; concrete_block) ltac:(lia)) as C.
  rewrite H in C. destruct C as (cs & Hcs & _ & _ & _ & _ & Hcov).
  cbn [app] in Hcs. subst cs. exact Hcov.
Defined.

Lemma subtract_minimal_witness :
  subtract (MkBlock 0 8) [MkBlock 0 9] 32 [] 256 = Ok ([MkBlock 0x800000 9], 255) /\
  (length [MkBlock 0x800000 9] <= length [MkBlock 0x800000 9])%nat.
Proof.
  assert (H : subtract (MkBlock 0 8) [MkBlock 0 9] 32 [] 256 = Ok ([MkBlock 0x800000 9], 255))
    by (vm_compute; reflexivity).
  split; [exact H|].
  apply (subtract_minimal 32 (MkBlock 0 8) [MkBlock 0 9] 256 _ 255 [MkBlock 0x800000 9]
    ltac:(lia) ltac:(concrete_block) ltac:(apply Forall_singleton; concrete_block) ltac:(lia) H
    ltac:(apply Forall_singleton; concrete_block)).
  intros a. reflexivity.
Defined.

(** [10.0.0.0/8] without [10.0.0.1/32] leaves 24 blocks. *)
Definition example_peer : NetworkPeer :=
  MkPeer (MkCidr (V4 0x0a000000) 8) [MkCidr (V4 0x0a000001) 32].

Definition example_blocks : list AddressBlock :=
  match peer_blocks example_peer with Ok (Some (_, bs)) => bs | _ => [] end.

Lemma example_peer_wf : peer_wf example_peer.
Proof. split; [|apply Forall_singleton]; split; cbn; unfold u8_max; lia. Qed.

Lemma peer_blocks_exact_witness :
  peer_blocks example_peer = Ok (Some (FamilyV4, example_blocks)) /\
  length example_blocks = 24%nat /\
  ((exists c, c ∈ example_blocks /\ mem 32 0x0a000002 c) <-> peer_covers FamilyV4 example_peer 0x0a000002).
Proof.
  assert (H : peer_blocks example_peer = Ok (Some (FamilyV4, example_blocks)))
    by (vm_compute; reflexivity).
  split; [exact H|]. split; [vm_compute; reflexivity|].
  apply (proj2 (peer_blocks_exact example_peer FamilyV4 example_blocks example_peer_wf H)).
  cbn. lia.
Defined.

Lemma peer_blocks_reprogram_witness :
  resolve (MkCidr (V4 0x0a800000) 9) = Some (FamilyV4, MkBlock 0x0a800000 9).
Proof.
  apply (peer_blocks_reprogram example_peer FamilyV4 example_blocks (MkBlock 0x0a800000 9)
    example_peer_wf).
  - vm_compute. reflexivity.
  - apply (list_elem_of_lookup_2 _ 23%nat). vm_compute. reflexivity.
Defined.

End Blocks.
