(* ===== verification/Netfilter.v ===== *)
(** * Packet-filter vocabulary

    What the firewall theorems are stated in: packets, and the reading of the
    [iptables]/[ip6tables] rule language as its manual documents it, for the
    options the backends write.  A rule is the argument vector after the chain
    name; a chain is evaluated in order, the first matching rule deciding. *)

From Stdlib Require Import Ascii.
From S2P Require Import Prelude NetText Models NetworkBlocks.

Module Filter.

Import Blocks (IpFamily, FamilyV4, FamilyV6).

Inductive Protocol : Type := ProtoTcp | ProtoUdp | ProtoIcmp | ProtoOther.
#[global] Instance Protocol_eq_dec : EqDecision Protocol.
Proof. solve_decision. Defined.

(** Connection-tracking state of a packet. *)
Inductive CtState : Type := CtNew | CtEstablished | CtRelated | CtInvalid.
#[global] Instance CtState_eq_dec : EqDecision CtState.
Proof. solve_decision. Defined.

(** [in_interface] and [out_interface] are empty where the hook has none. *)
Record packet : Type := MkPacket {
  family : IpFamily;
  in_interface : string;
  out_interface : string;
  ct_state : CtState;
  destination : Z;
  transport : Protocol;
  destination_port : Z;
  icmp_type : Z;
}.

Definition packet_wf (p : packet) : Prop :=
  0 <= destination p < 2 ^ Blocks.width (family p).

(** ** Reading rules *)

(** [address/length], or an address alone for the single host. *)
Definition read_network (s : string) : option (IpAddr * Z) :=
  match split_once "/" s with
  | Some (a, l) => a ← parse_ip a; l ← parse_digits l; Some (a, l)
  | None => a ← parse_ip s; Some (a, ip_width a)
  end.

(** Whether a destination lies in a network; [None] where the table of the
    packet's family refuses the network. *)
Definition in_network (p : packet) (n : IpAddr * Z) : option bool :=
  match n.1, family p with
  | V4 a, FamilyV4 =>
      if 32 <? n.2 then None else Some (destination p / 2 ^ (32 - n.2) =? a / 2 ^ (32 - n.2))
  | V6 a, FamilyV6 =>
      if 128 <? n.2 then None else Some (destination p / 2 ^ (128 - n.2) =? a / 2 ^ (128 - n.2))
  | _, _ => None
  end.

Definition read_protocol (f : IpFamily) (s : string) : option Protocol :=
  if decide (s = "tcp") then Some ProtoTcp
  else if decide (s = "udp") then Some ProtoUdp
  else match f with
  | FamilyV4 => if decide (s = "icmp") then Some ProtoIcmp else None
  | FamilyV6 => if decide (s = "icmpv6") then Some ProtoIcmp else None
  end.

(** [port] or [first:last], the first not above the last. *)
Definition read_ports (s : string) : option (Z * Z) :=
  '(lo, hi) ← match split_once ":" s with
    | Some (a, b) => lo ← parse_digits a; hi ← parse_digits b; Some (lo, hi)
    | None => p ← parse_digits s; Some (p, p)
    end;
  if hi <? lo then None else Some (lo, hi).

Definition has_ports (p : packet) : bool :=
  bool_decide (transport p = ProtoTcp) || bool_decide (transport p = ProtoUdp).

Definition read_state (s : string) : option CtState :=
  if decide (s = "NEW") then Some CtNew
  else if decide (s = "ESTABLISHED") then Some CtEstablished
  else if decide (s = "RELATED") then Some CtRelated
  else if decide (s = "INVALID") then Some CtInvalid else None.

(** One option and its value. *)
Definition option_matches (key value : string) (p : packet) : option bool :=
  if decide (key = "-o") then Some (bool_decide (out_interface p = value))
  else if decide (key = "-i") then Some (bool_decide (in_interface p = value))
  else if decide (key = "-d") then read_network value ≫= in_network p
  else if decide (key = "-p") then
    proto ← read_protocol (family p) value; Some (bool_decide (transport p = proto))
  else if decide (key = "--dport") then
    '(lo, hi) ← read_ports value;
    Some (has_ports p && (lo <=? destination_port p) && (destination_port p <=? hi))
  else if decide (key = "-m") then
    if decide (value = "conntrack") then Some true else None
  else if decide (key = "--ctstate") then
    states ← mapM read_state (string_split "," value);
    Some (bool_decide (ct_state p ∈ states))
  else if decide (key = "--icmpv6-type") then
    t ← parse_digits value; Some (bool_decide (transport p = ProtoIcmp) && (icmp_type p =? t))
  else None.

(** A rule: options, then [-j target].  [None]: not a rule of the language. *)
Fixpoint rule_matches (args : list string) (p : packet) : option (bool * string) :=
  match args with
  | key :: value :: rest =>
      if decide (key = "-j") then match rest with [] => Some (true, value) | _ => None end
      else
        m ← option_matches key value p;
        '(rest_matches, target) ← rule_matches rest p;
        Some (m && rest_matches, target)
  | _ => None
  end.

Inductive verdict : Type := Accept | Drop | Return.
#[global] Instance verdict_eq_dec : EqDecision verdict.
Proof. solve_decision. Defined.

Definition read_target (target : string) : option verdict :=
  if decide (target = "ACCEPT") then Some Accept
  else if decide (target = "DROP") then Some Drop else None.

(** First match decides; the end of a user chain returns to its caller.  Every
    rule must be one. *)
Fixpoint chain_verdict (rules : list (list string)) (p : packet) : option verdict :=
  match rules with
  | [] => Some Return
  | rule :: rules =>
      '(m, target) ← rule_matches rule p;
      v ← read_target target;
      rest ← chain_verdict rules p;
      Some (if (m : bool) then v else rest)
  end.

(** The rules a sequence of [-A chain ...] argument vectors appends. *)
Definition appended (chain : string) (argv : list string) : option (list string) :=
  match argv with
  | op :: c :: spec => if decide (op = "-A" /\ c = chain) then Some spec else None
  | _ => None
  end.

Definition appended_chain (chain : string) (argvs : list (list string)) : option (list (list string)) :=
  mapM (appended chain) argvs.

(** ** Lemmas *)

Lemma chain_verdict_app r1 r2 p :
  chain_verdict (r1 ++ r2) p =
    (v1 ← chain_verdict r1 p; v2 ← chain_verdict r2 p;
     Some (match v1 with Return => v2 | v => v end)).
Proof.
  induction r1 as [|r r1 IH].
  - cbn. by destruct (chain_verdict r2 p).
  - cbn. rewrite IH. destruct (rule_matches r p) as [[m t]|]; [|done]. cbn.
    unfold read_target. repeat case_decide; cbn; try done;
      destruct (chain_verdict r1 p) as [v1|]; cbn; try done;
      destruct (chain_verdict r2 p) as [v2|]; cbn; try done; by destruct m.
Qed.

Lemma rule_matches_option key value rest p :
  key <> "-j" ->
  rule_matches (key :: value :: rest) p =
    (m ← option_matches key value p; '(r, target) ← rule_matches rest p; Some (m && r, target)).
Proof. intros H. cbn [rule_matches]. by rewrite decide_False. Qed.

Lemma rule_matches_target target p : rule_matches ["-j"; target] p = Some (true, target).
Proof. done. Qed.

(** The fixed options of the base rules. *)
Lemma out_interface_option i p :
  option_matches "-o" i p = Some (bool_decide (out_interface p = i)).
Proof. done. Qed.

Lemma in_interface_option i p :
  option_matches "-i" i p = Some (bool_decide (in_interface p = i)).
Proof. done. Qed.

Lemma conntrack_option p : option_matches "-m" "conntrack" p = Some true.
Proof. done. Qed.

Lemma established_option p :
  option_matches "--ctstate" "ESTABLISHED,RELATED" p =
    Some (bool_decide (ct_state p ∈ [CtEstablished; CtRelated])).
Proof. done. Qed.

Lemma new_option p :
  option_matches "--ctstate" "NEW" p = Some (bool_decide (ct_state p ∈ [CtNew])).
Proof. done. Qed.

Lemma icmpv6_option p :
  family p = FamilyV6 ->
  option_matches "-p" "icmpv6" p = Some (bool_decide (transport p = ProtoIcmp)).
Proof. intros Hf. change (option_matches "-p" "icmpv6" p) with
  (proto ← read_protocol (family p) "icmpv6"; Some (bool_decide (transport p = proto))). by rewrite Hf. Qed.

Lemma icmpv6_type_option t p :
  0 <= t -> option_matches "--icmpv6-type" (dec t) p =
    Some (bool_decide (transport p = ProtoIcmp) && (icmp_type p =? t)).
Proof.
  intros Ht. change (option_matches "--icmpv6-type" (dec t) p) with
    (n ← parse_digits (dec t); Some (bool_decide (transport p = ProtoIcmp) && (icmp_type p =? n))).
  by rewrite parse_digits_dec.
Qed.

(** Address text holds no slash. *)
Lemma ip_text_no_slash a : lacks "/" (ip_text a) = true.
Proof.
  eapply string_all_impl; [|apply ip_text_address].
  intros c. destruct c as [[] [] [] [] [] [] [] []]; vm_compute; congruence.
Qed.

Lemma read_network_text a l :
  ip_wf a -> 0 <= l -> read_network (ip_text a +:+ "/" +:+ dec l) = Some (a, l).
Proof.
  intros Ha Hl. unfold read_network. autorewrite with text.
  rewrite split_once_make by apply ip_text_no_slash. cbn.
  rewrite parse_ip_text by done. cbn. by rewrite parse_digits_dec.
Qed.

Lemma dec_no_colon z : lacks ":" (dec z) = true.
Proof. unfold dec, lacks. induction (N.to_uint (Z.to_N z)); cbn; auto. Qed.

Lemma read_ports_single s : 0 <= s -> read_ports (dec s) = Some (s, s).
Proof.
  intros Hs. unfold read_ports. rewrite split_once_lacks by apply dec_no_colon.
  rewrite parse_digits_dec by done. cbn. by rewrite Z.ltb_irrefl.
Qed.

Lemma read_ports_range s e :
  0 <= s <= e -> read_ports (dec s +:+ ":" +:+ dec e) = Some (s, e).
Proof.
  intros Hs. unfold read_ports. autorewrite with text. rewrite split_once_make by apply dec_no_colon.
  rewrite !parse_digits_dec by lia. cbn. destruct (Z.ltb_spec e s); [lia|done].
Qed.

End Filter.
