(* ===== verification/ProxyEnv.v ===== *)
(** * Proxy environment and credential redaction

    [core/mxc_common/proxy_env.rs]: scrubbing and setting the cooperative proxy
    variables, and finding and hiding the user information of a proxy URL.  The
    theorems show that a caller's own proxy variables never survive, and that
    the guard and the redaction agree on what carries a credential. *)

From Stdlib Require Import Ascii.
From S2P Require Import Prelude NetText Models.

Module Proxy.

(** ** Managed variables *)

Definition PROXY_ENV_KEYS : list string :=
  ["HTTP_PROXY"; "HTTPS_PROXY"; "ALL_PROXY"; "FTP_PROXY";
   "http_proxy"; "https_proxy"; "all_proxy"; "ftp_proxy"; "NO_PROXY"; "no_proxy"].

Definition PROXY_SET_KEYS : list string :=
  ["HTTP_PROXY"; "HTTPS_PROXY"; "ALL_PROXY"; "FTP_PROXY";
   "http_proxy"; "https_proxy"; "all_proxy"; "ftp_proxy"].

Definition PROXY_NEUTRALIZE_KEYS : list string := ["NO_PROXY"; "no_proxy"].

Definition env_key (entry : string) : string :=
  match split_once "=" entry with Some (k, _) => k | None => entry end.

Definition is_managed_proxy_key (key : string) : bool :=
  existsb (fun k => eq_ignore_ascii_case k key) PROXY_ENV_KEYS.

Definition apply_cooperative_proxy_env (caller_env : list string) (proxy_url : string)
  : list string :=
  List.filter (fun entry => negb (is_managed_proxy_key (env_key entry))) caller_env ++
  ((fun key => key +:+ "=" +:+ proxy_url) <$> PROXY_SET_KEYS) ++
  ((fun key => key +:+ "=") <$> PROXY_NEUTRALIZE_KEYS).

Definition apply_proxy_env (env : list string) (proxy : ProxyConfig) : list string :=
  match proxy_config_address proxy with
  | Some address => apply_cooperative_proxy_env env (to_url address)
  | None => env
  end.

(** ** Credentials *)

(** [c <= ' ']. *)
Definition is_trimmed (c : ascii) : bool := byte_of c <=? 32.

Definition is_tab_or_newline (c : ascii) : bool :=
  (byte_of c =? 9) || (byte_of c =? 10) || (byte_of c =? 13).

Definition normalize_as_the_url_parser_does (url : string) : string :=
  if string_any is_tab_or_newline url then
    trim_matches is_trimmed (string_filter (fun c => negb (is_tab_or_newline c)) url)
  else trim_matches is_trimmed url.

Record ProxyAuthority : Type := MkAuthority {
  scheme : string;
  separator : string;
  authority : string;
  tail : string;
}.

Definition is_scheme_char (c : ascii) : bool :=
  is_ascii_alphanumeric c || bool_decide (c = "+"%char) || bool_decide (c = "-"%char) ||
  bool_decide (c = "."%char).

Definition is_uri_scheme (candidate : string) : bool :=
  match candidate with
  | EmptyString => false
  | String first chars => is_ascii_alphabetic first && string_all is_scheme_char chars
  end.

Definition is_colon (c : ascii) : bool := bool_decide (c = ":"%char).

Definition introduces_authority (c : ascii) : bool := (byte_of c =? 47) || (byte_of c =? 92).

Definition ends_authority (c : ascii) : bool :=
  (byte_of c =? 47) || (byte_of c =? 63) || (byte_of c =? 35) || (byte_of c =? 92).

(** The scheme, if the text before the first colon is one. *)
Definition split_scheme (url : string) : string * string :=
  match break_at is_colon url with
  | (prefix, String c rest) =>
      if is_uri_scheme prefix then (prefix, String c rest) else ("", url)
  | (_, EmptyString) => ("", url)
  end.

(** The colon and the run of slashes and backslashes after it. *)
Definition split_separator (after_scheme : string) : string * string :=
  match strip_prefix_char ":" after_scheme with
  | Some rest =>
      let '(slashes, rest) := break_at (fun c => negb (introduces_authority c)) rest in
      (String ":" slashes, rest)
  | None => ("", after_scheme)
  end.

Definition split_proxy_authority (url : string) : ProxyAuthority :=
  let '(scheme, after_scheme) := split_scheme url in
  let '(separator, rest) := split_separator after_scheme in
  let '(authority, tail) := break_at ends_authority rest in
  MkAuthority scheme separator authority tail.

Definition credential_userinfo (authority : string) : option (string * string) :=
  '(userinfo, host) ← rsplit_once "@" authority;
  if bool_decide (userinfo = "") || bool_decide (userinfo = ":") then None
  else Some (userinfo, host).

Definition redact_proxy_url (url : string) : string :=
  let parts := split_proxy_authority (normalize_as_the_url_parser_does url) in
  match credential_userinfo (authority parts) with
  | Some (_, host) => scheme parts +:+ separator parts +:+ "***@" +:+ host +:+ tail parts
  | None => url
  end.

Definition proxy_url_has_credentials (url : string) : bool :=
  bool_decide (is_Some (credential_userinfo
    (authority (split_proxy_authority (normalize_as_the_url_parser_does url))))).

(** ** The environment theorem *)

Lemma env_key_set key value : lacks "=" key = true -> env_key (key +:+ "=" +:+ value) = key.
Proof. intros Hk. unfold env_key. autorewrite with text. by rewrite split_once_make. Qed.

(** The entries the module itself appends. *)
Definition managed_entries (url : string) : list string :=
  ((fun key => key +:+ "=" +:+ url) <$> PROXY_SET_KEYS) ++
  ((fun key => key +:+ "=") <$> PROXY_NEUTRALIZE_KEYS).

Lemma managed_entries_managed url :
  Forall (fun e => is_managed_proxy_key (env_key e) = true) (managed_entries url).
Proof.
  apply Forall_app; split; [|by repeat constructor].
  apply Forall_fmap. repeat constructor; unfold compose; by rewrite env_key_set.
Qed.

Lemma filter_Forall_true {A} (f : A -> bool) l :
  Forall (fun x => f x = true) l -> List.filter f l = l.
Proof. induction 1 as [|x l Hx _ IH]; [done|]. cbn. by rewrite Hx, IH. Qed.

Lemma filter_Forall_false {A} (f : A -> bool) l :
  Forall (fun x => f x = false) l -> List.filter f l = [].
Proof. induction 1 as [|x l Hx _ IH]; [done|]. cbn. by rewrite Hx. Qed.

Lemma filter_filter_neg {A} (f : A -> bool) l :
  List.filter f (List.filter (fun x => negb (f x)) l) = [].
Proof. induction l as [|x l IH]; [done|]. cbn. destruct (f x) eqn:E; cbn; [|rewrite E]; done. Qed.

Lemma filter_idem {A} (f : A -> bool) l : List.filter f (List.filter f l) = List.filter f l.
Proof. induction l as [|x l IH]; [done|]. cbn. destruct (f x) eqn:E; cbn; [rewrite E, IH|]; done. Qed.

(** A caller cannot steer the cooperative proxy: whatever the caller's
    environment, the managed variables of the result (in any letter case) are
    exactly the eight proxy keys set to the configured URL and the two
    exemption keys set to nothing; every other entry is kept in order; and
    applying a second proxy leaves no trace of the first. *)
Theorem apply_cooperative_proxy_env_owned (caller : list string) (url url' : string) :
  let managed e := is_managed_proxy_key (env_key e) in
  List.filter managed (apply_cooperative_proxy_env caller url) = managed_entries url /\
  List.filter (fun e => negb (managed e)) (apply_cooperative_proxy_env caller url) =
    List.filter (fun e => negb (managed e)) caller /\
  apply_cooperative_proxy_env (apply_cooperative_proxy_env caller url) url' =
    apply_cooperative_proxy_env caller url'.
Proof.
  intros managed. pose proof (managed_entries_managed url) as Hm.
  assert (Hk : List.filter (fun e => negb (managed e)) (apply_cooperative_proxy_env caller url) =
    List.filter (fun e => negb (managed e)) caller).
  { unfold apply_cooperative_proxy_env. fold (managed_entries url).
    rewrite List.filter_app, filter_idem, (filter_Forall_false _ (managed_entries url)), app_nil_r;
      [done|]. eapply Forall_impl; [exact Hm|]. intros e He. unfold managed. by rewrite He. }
  split_and!; [|done|].
  - unfold apply_cooperative_proxy_env. fold (managed_entries url).
    by rewrite List.filter_app, filter_filter_neg, filter_Forall_true.
  - change (List.filter (fun e => negb (managed e)) (apply_cooperative_proxy_env caller url) ++
      managed_entries url' = apply_cooperative_proxy_env caller url'). by rewrite Hk.
Qed.

(** ** The redaction theorem *)

(** What the URL parser keeps as it is: no tab or line break anywhere, no
    control character or space at either end. *)
Definition normal (s : string) : Prop :=
  string_any is_tab_or_newline s = false /\ starts_with is_trimmed s = false /\
  trim_end_matches is_trimmed s = s.

Lemma trim_end_starts p s : starts_with p s = false -> starts_with p (trim_end_matches p s) = false.
Proof.
  destruct s as [|c s]; [done|]. cbn. intros Hc. rewrite Hc.
  by destruct (trim_end_matches p s).
Qed.

Lemma trim_end_idem p s : trim_end_matches p (trim_end_matches p s) = trim_end_matches p s.
Proof.
  induction s as [|c s IH]; [done|]. cbn. destruct (trim_end_matches p s) as [|d r] eqn:E.
  - destruct (p c) eqn:Hc; [done|]. cbn. by rewrite Hc.
  - cbn [trim_end_matches] in *. by rewrite IH.
Qed.

Lemma trim_start_starts p s : starts_with p (trim_start_matches p s) = false.
Proof. induction s as [|c s IH]; [done|]. cbn. by destruct (p c) eqn:Hc. Qed.

Lemma trim_start_none p s : starts_with p s = false -> trim_start_matches p s = s.
Proof. destruct s as [|c s]; [done|]. cbn. by intros ->. Qed.

Lemma trim_all p q s : string_all q s = true -> string_all q (trim_matches p s) = true.
Proof.
  intros Hs. assert (Hstart : string_all q (trim_start_matches p s) = true).
  { induction s as [|c s IH]; [done|]. cbn in *. destruct (p c); [|done].
    apply andb_true_iff in Hs as [_ Hs]. auto. }
  unfold trim_matches. revert Hstart. generalize (trim_start_matches p s) as r.
  induction r as [|c r IH]; [done|]. cbn. rewrite andb_true_iff. intros [Hc Hr].
  specialize (IH Hr). destruct (trim_end_matches p r); [destruct (p c)|]; cbn in *; rewrite ?Hc; done.
Qed.

Lemma trim_end_app p a b :
  b <> "" -> trim_end_matches p (a +:+ b) = a +:+ b <-> trim_end_matches p b = b.
Proof.
  intros Hb. assert (Hne : forall x, "" <> x +:+ b).
  { intros [|c x]; autorewrite with text; congruence. }
  induction a as [|c a IH]; autorewrite with text; [done|]. cbn. rewrite <- IH.
  destruct (trim_end_matches p (a +:+ b)) as [|d r] eqn:E; split; intros H.
  - destruct (p c); [done|]. injection H as H. by destruct (Hne a).
  - by destruct (Hne a).
  - by injection H as H.
  - by rewrite H.
Qed.

Lemma string_filter_all p s : string_all p (string_filter p s) = true.
Proof. induction s as [|c s IH]; [done|]. cbn. destruct (p c) eqn:Hc; cbn; rewrite ?Hc; done. Qed.

Lemma normalize_normal url : normal (normalize_as_the_url_parser_does url).
Proof.
  assert (H : forall s, string_any is_tab_or_newline s = false -> normal (trim_matches is_trimmed s)).
  { intros s Hs. split_and!.
    - unfold string_any in *. apply negb_false_iff in Hs. by rewrite trim_all.
    - apply trim_end_starts, trim_start_starts.
    - apply trim_end_idem. }
  unfold normalize_as_the_url_parser_does. destruct (string_any _ url) eqn:E; [|by apply H].
  apply H. unfold string_any. by rewrite string_filter_all.
Qed.

Lemma normalize_id s : normal s -> normalize_as_the_url_parser_does s = s.
Proof.
  intros (Ht & Hs & He). unfold normalize_as_the_url_parser_does, trim_matches.
  by rewrite Ht, trim_start_none.
Qed.

Lemma split_scheme_none c r :
  is_ascii_alphabetic c = false -> split_scheme (String c r) = ("", String c r).
Proof.
  intros Hc. unfold split_scheme. cbn. destruct (is_colon c); [done|].
  destruct (break_at is_colon r) as [a b]. destruct b; [done|]. cbn. by rewrite Hc.
Qed.

(** A mark that neither extends the separator nor reads as a scheme. *)
Definition inert (c : ascii) : bool :=
  negb (is_ascii_alphabetic c) && negb (introduces_authority c) && negb (is_colon c).

Lemma strip_colon s rest : strip_prefix_char ":" s = Some rest -> s = String ":" rest.
Proof. destruct s; [done|]. cbn. by case_decide; intros [= ->]; subst. Qed.

Lemma split_separator_app s sp r : split_separator s = (sp, r) -> s = sp +:+ r.
Proof.
  unfold split_separator. destruct (strip_prefix_char ":" s) as [rest|] eqn:E; [|by intros [= <- <-]].
  apply strip_colon in E as ->. destruct (break_at _ rest) as [slashes r'] eqn:Eb.
  intros [= <- <-]. apply break_at_app in Eb as ->. by autorewrite with text.
Qed.

Lemma split_scheme_app u s r : split_scheme u = (s, r) -> u = s +:+ r.
Proof.
  unfold split_scheme. destruct (break_at is_colon u) as [a [|c b]] eqn:E; [by intros [= <- <-]|].
  apply break_at_app in E. destruct (is_uri_scheme a); by intros [= <- <-].
Qed.

Lemma split_proxy_authority_app u :
  let p := split_proxy_authority u in
  u = scheme p +:+ separator p +:+ authority p +:+ tail p.
Proof.
  unfold split_proxy_authority. destruct (split_scheme u) as [s r] eqn:E1.
  destruct (split_separator r) as [sp q] eqn:E2. destruct (break_at _ q) as [a t] eqn:E3. cbn.
  apply split_scheme_app in E1 as ->. apply split_separator_app in E2 as ->.
  by apply break_at_app in E3 as ->.
Qed.

(** Replacing the authority by text that starts with an inert mark leaves the
    other parts of the split as they were. *)
Lemma split_separator_again s sp q c r :
  split_separator s = (sp, q) -> inert c = true ->
  split_separator (sp +:+ String c r) = (sp, String c r).
Proof.
  unfold inert. rewrite !andb_true_iff, !negb_true_iff. intros Hs [[_ Hc] Hcol].
  unfold split_separator in *. destruct (strip_prefix_char ":" s) as [rest|] eqn:E.
  - destruct (break_at _ rest) as [slashes r'] eqn:Eb. injection Hs as <- <-.
    autorewrite with text. cbn. rewrite decide_True by done.
    rewrite break_at_make; [done|by eapply break_at_spec in Eb as [? _]|].
    right. cbn. by rewrite Hc.
  - injection Hs as <- <-. autorewrite with text. cbn.
    apply bool_decide_eq_false in Hcol. by rewrite decide_False.
Qed.

Lemma split_scheme_again u s r sp q c z :
  split_scheme u = (s, r) -> split_separator r = (sp, q) -> inert c = true ->
  split_scheme (s +:+ sp +:+ String c z) = (s, sp +:+ String c z).
Proof.
  unfold inert. rewrite !andb_true_iff, !negb_true_iff. intros Hu Hr [[Hc _] _].
  unfold split_scheme in Hu. destruct (break_at is_colon u) as [a b] eqn:E.
  assert (Hnone : s = "" -> split_scheme (s +:+ sp +:+ String c z) = (s, sp +:+ String c z)).
  { intros ->. autorewrite with text. unfold split_separator in Hr.
    destruct (strip_prefix_char ":" r) as [rest|];
      [destruct (break_at (fun c => negb (introduces_authority c)) rest)|];
      injection Hr as <- <-; autorewrite with text; by apply split_scheme_none. }
  destruct b as [|d b]; [injection Hu as <- <-; by apply Hnone|].
  destruct (is_uri_scheme a) eqn:Ha; [|injection Hu as <- <-; by apply Hnone].
  injection Hu as <- <-. destruct (break_at_spec _ _ _ _ E) as [Hlacks [?|Hd]]; [done|].
  cbn in Hd. apply bool_decide_eq_true in Hd as ->.
  unfold split_separator in Hr. cbn in Hr.
  rewrite decide_True in Hr by done.
  destruct (break_at (fun c => negb (introduces_authority c)) b) as [sl q'].
  injection Hr as <- <-. autorewrite with text. unfold split_scheme.
  rewrite break_at_make by auto. by rewrite Ha.
Qed.

Lemma split_proxy_authority_again u s sp a0 t c a :
  split_proxy_authority u = MkAuthority s sp a0 t ->
  inert c = true -> string_all (fun c => negb (ends_authority c)) (String c a) = true ->
  split_proxy_authority (s +:+ sp +:+ String c a +:+ t) = MkAuthority s sp (String c a) t.
Proof.
  unfold split_proxy_authority at 1. destruct (split_scheme u) as [s' r] eqn:E1.
  destruct (split_separator r) as [sp' q] eqn:E2. destruct (break_at _ q) as [a' t'] eqn:E3.
  intros [= -> -> -> ->] Hc Ha. unfold split_proxy_authority.
  rewrite (string_app_cons c a t).
  rewrite (split_scheme_again u s r sp q) by done. rewrite (split_separator_again r sp q) by done.
  rewrite <- string_app_cons, break_at_make; [done|done|]. by apply break_at_spec in E3 as [_ ?].
Qed.

Lemma split_proxy_authority_bounded u :
  string_all (fun c => negb (ends_authority c)) (authority (split_proxy_authority u)) = true.
Proof.
  unfold split_proxy_authority. destruct (split_scheme u) as [s r].
  destruct (split_separator r) as [sp q]. destruct (break_at _ q) as [a t] eqn:E.
  by apply break_at_spec in E as [? _].
Qed.

Lemma credential_userinfo_Some a userinfo host :
  credential_userinfo a = Some (userinfo, host) <->
  a = userinfo +:+ String "@" host /\ lacks "@" host = true /\ userinfo <> "" /\ userinfo <> ":".
Proof.
  unfold credential_userinfo. split.
  - destruct (rsplit_once "@" a) as [[x y]|] eqn:E; [|done]. cbn.
    destruct (bool_decide (x = "")) eqn:E1; [done|]. destruct (bool_decide (x = ":")) eqn:E2; [done|].
    apply bool_decide_eq_false in E1, E2. intros [= <- <-].
    by apply rsplit_once_Some in E as [-> ?].
  - intros (-> & Hh & H1 & H2). rewrite (proj2 (rsplit_once_Some "@" _ userinfo host)) by done.
    cbn. by rewrite !bool_decide_eq_false_2.
Qed.

(** Masking the user information of a normal URL leaves it normal. *)
Lemma masked_normal pre userinfo z :
  z <> "" -> normal (pre +:+ userinfo +:+ z) -> normal (pre +:+ "***" +:+ z).
Proof.
  intros Hz (Ht & Hs & He). unfold normal, string_any in *. apply negb_false_iff in Ht.
  rewrite !string_all_app, !andb_true_iff in Ht. destruct Ht as (Hp & _ & Htz).
  assert (Htail : forall x y, trim_end_matches is_trimmed (x +:+ y +:+ z) = x +:+ y +:+ z <->
    trim_end_matches is_trimmed z = z).
  { intros x y. rewrite <- string_app_assoc. by apply trim_end_app. }
  split_and!.
  - by rewrite !string_all_app, Hp, Htz.
  - destruct pre; [done|]. by autorewrite with text in *.
  - apply Htail. by apply Htail in He.
Qed.

(** The masked text splits as the original did, with the mark as its
    credential. *)
Lemma masked_split url s sp a t userinfo host :
  split_proxy_authority (normalize_as_the_url_parser_does url) = MkAuthority s sp a t ->
  credential_userinfo a = Some (userinfo, host) ->
  split_proxy_authority (normalize_as_the_url_parser_does (s +:+ sp +:+ "***@" +:+ host +:+ t)) =
    MkAuthority s sp ("***@" +:+ host) t.
Proof.
  intros Eu Ea. pose proof (normalize_normal url) as Hn.
  pose proof (split_proxy_authority_app (normalize_as_the_url_parser_does url)) as Happ.
  pose proof (split_proxy_authority_bounded (normalize_as_the_url_parser_does url)) as Hb.
  rewrite Eu in Happ, Hb. cbn in Happ, Hb. rewrite Happ in Hn.
  apply credential_userinfo_Some in Ea as (-> & _).
  rewrite string_all_app in Hb. apply andb_true_iff in Hb as [_ Hb].
  rewrite normalize_id.
  - rewrite <- (string_app_assoc "***@" host t).
    change ("***@" +:+ host) with (String "*" ("**@" +:+ host)).
    by eapply split_proxy_authority_again.
  - rewrite string_app_assoc, <- string_app_assoc in Hn.
    rewrite <- string_app_assoc. by apply (masked_normal _ userinfo (String "@" host +:+ t)).
Qed.

Lemma masked_userinfo host :
  lacks "@" host = true -> credential_userinfo ("***@" +:+ host) = Some ("***", host).
Proof. intros Hh. by apply credential_userinfo_Some. Qed.

(** Redaction and the credential guard agree, and redaction is final.  A
    URL the guard does not flag is shown verbatim.  In a URL it flags, the
    normalised text splits around a non-empty credential and its at sign; the
    shown text has the credential replaced by the mark and keeps the rest, the
    host holds no further at sign, and redacting the shown text again, which
    the guard still flags, changes nothing. *)
Theorem redact_proxy_url_hides (url : string) :
  (proxy_url_has_credentials url = false -> redact_proxy_url url = url) /\
  (proxy_url_has_credentials url = true ->
   exists pre userinfo host rest,
     normalize_as_the_url_parser_does url = pre +:+ userinfo +:+ "@" +:+ host +:+ rest /\
     redact_proxy_url url = pre +:+ "***" +:+ "@" +:+ host +:+ rest /\
     userinfo <> "" /\ userinfo <> ":" /\ lacks "@" host = true /\
     proxy_url_has_credentials (redact_proxy_url url) = true /\
     redact_proxy_url (redact_proxy_url url) = redact_proxy_url url).
Proof.
  unfold redact_proxy_url at 1 2, proxy_url_has_credentials at 1 2.
  destruct (split_proxy_authority (normalize_as_the_url_parser_does url)) as [s sp a t] eqn:Eu.
  cbn [authority scheme separator tail].
  destruct (credential_userinfo a) as [[userinfo host]|] eqn:Ea;
    split; intros Hc; [done| |done|by apply bool_decide_eq_true in Hc as [? ?]].
  pose proof (masked_split _ _ _ _ _ _ _ Eu Ea) as Hm.
  pose proof (split_proxy_authority_app (normalize_as_the_url_parser_does url)) as Happ.
  rewrite Eu in Happ. cbn in Happ.
  pose proof (proj1 (credential_userinfo_Some _ _ _) Ea) as (-> & Hh & H1 & H2).
  assert (Hr : redact_proxy_url url = s +:+ sp +:+ "***@" +:+ host +:+ t)
    by (unfold redact_proxy_url; rewrite Eu; cbn [authority scheme separator tail]; by rewrite Ea).
  exists (s +:+ sp), userinfo, host, t. rewrite Hr. split_and!; try done.
  - rewrite Happ, !string_app_assoc. done.
  - by rewrite string_app_assoc.
  - unfold proxy_url_has_credentials. rewrite Hm. cbn [authority]. by rewrite masked_userinfo.
  - unfold redact_proxy_url. rewrite Hm. cbn [authority scheme separator tail].
    by rewrite masked_userinfo.
Qed.

Lemma redact_proxy_url_hides_witness :
  redact_proxy_url "http://user:pw@proxy:3128/p@q" = "http://***@proxy:3128/p@q" /\
  exists pre userinfo host rest,
    "http://user:pw@proxy:3128/p@q" = pre +:+ userinfo +:+ "@" +:+ host +:+ rest.
Proof.
  split; [vm_compute; reflexivity|].
  destruct (proj2 (redact_proxy_url_hides "http://user:pw@proxy:3128/p@q") eq_refl)
    as (pre & userinfo & host & rest & H & _).
  exists pre, userinfo, host, rest. exact H.
Defined.

End Proxy.
