(* ===== verification/Crates.v ===== *)
(** * Third-party crates

    The interface of the [url] crate the network parser uses, and executable
    instances of it and of the [cidr] crate that satisfy the stated laws; the
    witnesses of the theorems that assume those laws run on them. *)

From Stdlib Require Import Ascii.
From S2P Require Import Prelude NetText Models.

(** What the parser calls of [url::Url].  A parse error is its [Display] text. *)
Class UrlCrate : Type := {
  Url : Type;
  Url_parse : string -> result string Url;
  Url_scheme : Url -> string;
  Url_host_str : Url -> option string;
  Url_port : Url -> option Z;
}.

(** The port a special scheme implies. *)
Definition default_port (scheme : string) : option Z :=
  if decide (scheme = "http") then Some 80
  else if decide (scheme = "https") then Some 443 else None.

(** Documented behaviour of [Url::port]: a [u16], and never the default of the
    scheme, which parsing drops. *)
Class UrlCrateLaws (U : UrlCrate) : Prop := {
  url_port_u16 : forall u p, Url_port u = Some p -> 0 <= p <= u16_max;
  url_port_not_default : forall u p, Url_port u = Some p -> default_port (Url_scheme u) <> Some p;
}.

Module Instances.

(** ** CIDR networks *)

Definition ip_in_range (a : IpAddr) : bool := (0 <=? ip_bits a) && (ip_bits a <? 2 ^ ip_width a).

Definition valid_network (c : NetworkCidr) : bool :=
  let w := ip_width (address c) in
  ip_in_range (address c) && (0 <=? prefix_length c) && (prefix_length c <=? w) &&
  (ip_bits (address c) mod 2 ^ (w - prefix_length c) =? 0).

Definition network_type : Type := dsig (fun c => valid_network c = true).

Definition network_new (a : IpAddr) (l : Z) : option network_type :=
  match decide (valid_network (MkCidr a l) = true) with
  | left v => Some (dexist (MkCidr a l) v)
  | right _ => None
  end.

(** [address/length], or a bare address for a single host. *)
Definition network_parse (s : string) : result string network_type :=
  let parts :=
    match split_once "/" s with
    | Some (a, l) => a ← parse_ip a; l ← parse_digits l; Some (a, l)
    | None => a ← parse_ip s; Some (a, ip_width a)
    end in
  match parts with
  | Some (a, l) => ok_or (network_new a l) "host part of address was not zero"
  | None => Err "couldn't parse address in network"
  end.

Definition network_contains (n : network_type) (a : IpAddr) : bool :=
  let w := ip_width (address (`n)) in
  same_family (address (`n)) a &&
  (ip_bits a / 2 ^ (w - prefix_length (`n)) =? ip_bits (address (`n)) / 2 ^ (w - prefix_length (`n))).

#[local] Instance cidr_crate : CidrCrate := {|
  IpCidr := network_type;
  IpCidr_new := network_new;
  IpCidr_parse := network_parse;
  first_address n := address (`n);
  network_length n := prefix_length (`n);
  IpCidr_contains := network_contains;
|}.

Lemma ip_in_range_wf a : ip_in_range a = true -> ip_wf a.
Proof. unfold ip_in_range. destruct a; cbn [ip_bits ip_width ip_wf]; lia. Qed.

#[local] Instance cidr_crate_laws : CidrCrateLaws cidr_crate.
Proof.
  split.
  - intros a l c. cbn. unfold network_new. case_decide; intros [= <-]. done.
  - intros c. cbn. unfold network_new. pose proof (proj2_dsig c) as V. cbn in V.
    case_decide as Hd; [f_equal; apply dsig_eq; cbn|destruct Hd]; by destruct (`c).
  - intros c. cbn. pose proof (proj2_dsig c) as V. cbn in V. unfold valid_network in V.
    rewrite !andb_true_iff, !Z.leb_le, Z.eqb_eq in V. destruct V as [[[V1 ?] ?] ?].
    by apply ip_in_range_wf in V1.
  - intros c a _. cbn. unfold network_contains. by rewrite andb_true_iff, Z.eqb_eq.
Qed.

(** ** URLs of the form [scheme://host:port] *)

Record simple_url : Type := MkUrl {
  url_scheme : string;
  url_host : string;
  url_port : option Z;
}.

Definition simple_url_parse (s : string) : result string simple_url :=
  match split_once ":" s with
  | Some (scheme, String "/" (String "/" rest)) =>
      match rsplit_once ":" rest with
      | Some (host, p) => Ok (MkUrl scheme host (parse_digits p))
      | None => Ok (MkUrl scheme rest None)
      end
  | _ => Err "relative URL without a base"
  end.

#[local] Instance url_crate : UrlCrate := {|
  Url := simple_url;
  Url_parse := simple_url_parse;
  Url_scheme := url_scheme;
  Url_host_str u := Some (url_host u);
  Url_port u := match url_port u with
    | Some p => if bool_decide (default_port (url_scheme u) = Some p) || negb ((0 <=? p) && (p <=? u16_max))
                then None else Some p
    | None => None
    end;
|}.

#[local] Instance url_crate_laws : UrlCrateLaws url_crate.
Proof.
  split; intros u p; cbn; destruct (url_port u) as [q|]; try done;
    case_bool_decide; try done; destruct (Z.leb_spec 0 q), (Z.leb_spec q u16_max); cbn; intros [= <-];
    [lia|done].
Qed.

End Instances.
