(* ===== verification/NetworkParser.v ===== *)
(** * Parsing the network policy

    [core/mxc_common/network_parser.rs]: the wire form of the [network] section
    becomes the policy the backends enforce.  Errors carry the message text of
    the source.  The [url] and [cidr] crates are parameters; the environment of
    the parse is the policy being filled, of which only the accepted result is
    modelled (a caller drops the policy when the parse fails). *)

From Stdlib Require Import Ascii.
From S2P Require Import Prelude NetText Wire Models NetworkBlocks ProxyEnv Crates.

Module Parser.

Record NetworkSections : Type := MkSections {
  network : option Wire.Network;
  runtime : option Wire.RuntimeConfig;
  process_container : option Wire.ProcessContainerNetwork;
}.

Definition has_directional_policy_fields (n : Wire.Network) : bool :=
  bool_decide (is_Some (Wire.egress n)) || bool_decide (is_Some (Wire.ingress n)).

Definition host_is_canonical_loopback (host : string) : bool :=
  if eq_ignore_ascii_case host "localhost" then true
  else match parse_ip (unbracket_host host) with
       | Some (V4 x) => x =? 2130706433
       | Some (V6 x) => x =? 1
       | None => false
       end.

Definition convert_action (a : Wire.NetworkAction) : NetworkAction :=
  match a with Wire.Allow => Allow | Wire.Deny => Deny end.

(** [.map(convert_action).unwrap_or_default()]. *)
Definition action_or_default (a : option Wire.NetworkAction) : NetworkAction :=
  default NetworkAction_default (convert_action <$> a).

Definition convert_ingress (ingress : option Wire.NetworkIngress) : NetworkIngressPolicy :=
  let ingress := default (Wire.Build_NetworkIngress None None) ingress in
  MkIngress (action_or_default (Wire.ingress_default ingress))
    (action_or_default (Wire.host_loopback ingress)).

Definition index (path : string) (i : nat) : string :=
  path +:+ "[" +:+ dec (Z.of_nat i) +:+ "]".

Definition validate_port_range (port : Wire.NetworkPort) (path : string) : result WxcError unit :=
  if bool_decide (Wire.port port = Some 0) then
    Err (ConfigParse (path +:+ ".port must be between 1 and 65535"))
  else if bool_decide (Wire.end_port port = Some 0) then
    Err (ConfigParse (path +:+ ".endPort must be between 1 and 65535"))
  else if bool_decide (is_Some (Wire.end_port port)) && bool_decide (Wire.port port = None) then
    Err (ConfigParse (path +:+ ".endPort requires port"))
  else match Wire.port port, Wire.end_port port with
  | Some start, Some stop =>
      if stop <? start then
        Err (ConfigParse (path +:+ ".endPort must be greater than or equal to port"))
      else Ok tt
  | _, _ => Ok tt
  end.

Definition convert_protocol (p : option Wire.NetworkProtocol) : NetworkProtocol :=
  match default Wire.Any p with
  | Wire.Tcp => Tcp
  | Wire.Udp => Udp
  | Wire.Icmp => Icmp
  | Wire.Any => AnyProtocol
  end.

Definition convert_port (port : Wire.NetworkPort) (rule_path : string) (port_index : nat)
  : result WxcError NetworkPort :=
  let port_path := index (rule_path +:+ ".ports") port_index in
  _ ← validate_port_range port port_path;
  let protocol := convert_protocol (Wire.protocol port) in
  if bool_decide (protocol = Icmp) &&
     (bool_decide (is_Some (Wire.port port)) || bool_decide (is_Some (Wire.end_port port))) then
    Err (ConfigParse (port_path +:+ " cannot specify port or endPort for protocol='icmp'"))
  else Ok (MkPort protocol (Wire.port port) (Wire.end_port port)).

Section Crates.
Context `{CidrCrate} `{UrlCrate}.

Definition parse_cidr (value path : string) : result WxcError NetworkCidr :=
  map_err (fun error => ConfigParse (path +:+ " must be a valid network CIDR: " +:+ error))
    (NetworkCidr_from_str value).

Fixpoint validate_exclusions_from (i : nat) (cidr : NetworkCidr) (exclusions : list NetworkCidr)
    (peer_path : string) : result WxcError unit :=
  match exclusions with
  | [] => Ok tt
  | exclusion :: rest =>
      if negb (contains_cidr cidr exclusion) then
        Err (ConfigParse (index (peer_path +:+ ".except") i +:+ " must be contained within " +:+
          peer_path +:+ ".cidr"))
      else validate_exclusions_from (S i) cidr rest peer_path
  end.

Definition validate_exclusions : NetworkCidr -> list NetworkCidr -> string -> result WxcError unit :=
  validate_exclusions_from 0.

Definition convert_peer (peer : Wire.NetworkPeer) (rule_path : string) (peer_index : nat)
  : result WxcError NetworkPeer :=
  let peer_path := index (rule_path +:+ ".to") peer_index in
  cidr ← parse_cidr (Wire.cidr peer) (peer_path +:+ ".cidr");
  except ← mapM (fun '(i, value) => parse_cidr value (index (peer_path +:+ ".except") i))
             (enumerate (default [] (Wire.except peer)));
  _ ← validate_exclusions cidr except peer_path;
  Ok (MkPeer cidr except).

Definition convert_rule (rule : Wire.NetworkRule) (path : string) (rule_index : nat)
  : result WxcError NetworkRule :=
  let rule_path := index path rule_index in
  if is_some_and is_empty (Wire.to rule) then
    Err (ConfigParse (rule_path +:+ ".to must contain at least one destination when specified"))
  else if is_some_and is_empty (Wire.ports rule) then
    Err (ConfigParse (rule_path +:+ ".ports must contain at least one selector when specified"))
  else
    to ← mapM (fun '(i, peer) => convert_peer peer rule_path i)
           (enumerate (default [] (Wire.to rule)));
    ports ← mapM (fun '(i, port) => convert_port port rule_path i)
              (enumerate (default [] (Wire.ports rule)));
    Ok (MkRule to ports).

Definition convert_rules (rules : list Wire.NetworkRule) (path : string)
  : result WxcError (list NetworkRule) :=
  mapM (fun '(i, rule) => convert_rule rule path i) (enumerate rules).

Definition convert_egress (egress : Wire.NetworkEgress) : result WxcError NetworkEgressPolicy :=
  allow ← convert_rules (default [] (Wire.allow egress)) "network.egress.allow";
  deny ← convert_rules (default [] (Wire.deny egress)) "network.egress.deny";
  Ok (MkEgress (action_or_default (Wire.egress_default egress)) allow deny).

Definition convert_wire_proxy_at (url_str path : string) : result WxcError ProxyConfig :=
  let redacted := Proxy.redact_proxy_url url_str in
  parsed ← map_err (fun e => ConfigParse (path +:+ " is invalid: " +:+ e)) (Url_parse url_str);
  let scheme := Url_scheme parsed in
  if negb (bool_decide (scheme = "http")) && negb (bool_decide (scheme = "https")) then
    Err (ConfigParse (path +:+ " must use the 'http' or 'https' scheme (got '" +:+ scheme +:+
      "'): " +:+ redacted))
  else
    host ← ok_or (Url_host_str parsed)
      (ConfigParse (path +:+ " must include a host (e.g., http://localhost:8080), got: " +:+
        redacted));
    port ← ok_or (Url_port parsed)
      (ConfigParse (path +:+ " must include a port (e.g., http://localhost:8080), got: " +:+
        redacted));
    Ok (MkProxyConfig (Some (ProxyAddress_from_url url_str host port))).

Definition convert_allowed_proxy_peer (n : option Wire.ProcessContainerNetwork)
  : result WxcError (option string) :=
  match n ≫= Wire.allowed_proxy_peer with
  | Some peer =>
      if is_blank peer then
        Err (ConfigParse "processContainer.network.allowedProxyPeer must not be blank")
      else Ok (Some peer)
  | None => Ok None
  end.

Definition validate_directional_proxy_policy (policy : ContainerPolicy) : result WxcError unit :=
  match network_egress policy with
  | None => Ok tt
  | Some egress =>
      if negb (bool_decide (egress_default egress = Deny)) || negb (is_empty (allow egress))
         || negb (is_empty (deny egress)) then
        Err (ConfigParse ("runtimeConfig.networkProxy requires network.egress.default='deny' with no direct " +:+
          "allow or deny rules"))
      else Ok tt
  end.

Definition validate_process_container_proxy_policy (policy : ContainerPolicy) (proxy_enabled : bool)
  : result WxcError unit :=
  if is_some_and (fun peer => eq_ignore_ascii_case peer "MXC-Loopback")
       (allowed_proxy_peer policy) then
    Err (ConfigParse ("processContainer.network.allowedProxyPeer must not use the reserved " +:+
      "'MXC-Loopback' identity"))
  else if bool_decide (is_Some (allowed_proxy_peer policy)) && negb proxy_enabled then
    Err (ConfigParse "processContainer.network.allowedProxyPeer requires runtimeConfig.networkProxy")
  else if negb proxy_enabled then Ok tt
  else match network_ingress policy with
  | None =>
      Err (ConfigParse "ProcessContainer runtimeConfig.networkProxy requires an ingress policy")
  | Some ingress =>
      if negb (bool_decide (ingress_default ingress = Allow)) then
        Err (ConfigParse ("ProcessContainer runtimeConfig.networkProxy requires " +:+
          "network.ingress.default='allow'"))
      else match allowed_proxy_peer policy, host_loopback ingress with
      | Some _, Allow =>
          Err (ConfigParse ("an identity-scoped ProcessContainer proxy requires " +:+
            "network.ingress.hostLoopback='deny'"))
      | None, Deny =>
          Err (ConfigParse ("a ProcessContainer proxy without allowedProxyPeer requires " +:+
            "network.ingress.hostLoopback='allow'"))
      | _, _ => Ok tt
      end
  end.

Definition validate_proxy_policy (policy : ContainerPolicy) (containment : ContainmentBackend)
  : result WxcError unit :=
  match containment with
  | ProcessContainer =>
      validate_process_container_proxy_policy policy (is_enabled (network_proxy policy))
  | _ => Ok tt
  end.

(** The proxy part of [parse_network_policy]: the flag and the proxy after it. *)
Definition parse_runtime_proxy (policy : ContainerPolicy) (runtime : option Wire.RuntimeConfig)
    (containment : ContainmentBackend) : result WxcError (bool * ProxyConfig) :=
  match runtime ≫= Wire.network_proxy with
  | None => Ok (runtime_network_proxy_specified policy, network_proxy policy)
  | Some url =>
      proxy ← convert_wire_proxy_at url "runtimeConfig.networkProxy";
      let host := default "" (proxy_address <$> proxy_config_address proxy) in
      if negb (bool_decide (containment = Wslc)) && negb (host_is_canonical_loopback host) then
        Err (ConfigParse "runtimeConfig.networkProxy must use localhost, 127.0.0.1, or [::1]")
      else Ok (true, proxy)
  end.

Definition parse_network_policy (policy : ContainerPolicy) (sections : NetworkSections)
    (containment : ContainmentBackend) : result WxcError ContainerPolicy :=
  peer ← convert_allowed_proxy_peer (process_container sections);
  '(mode_specified, egress, ingress) ←
    match network sections with
    | Some n =>
        egress ← map_transpose convert_egress (Wire.egress n);
        Ok (has_directional_policy_fields n, egress, convert_ingress (Wire.ingress n))
    | None => Ok (network_mode_specified policy, None, NetworkIngressPolicy_default)
    end;
  '(proxy_specified, proxy) ← parse_runtime_proxy policy (runtime sections) containment;
  let policy := with_network policy egress (Some ingress) peer proxy
    (bool_decide (is_Some (network sections))) mode_specified proxy_specified in
  _ ← (if negb (bool_decide (containment = Wslc)) && network_mode_specified policy &&
          is_enabled (network_proxy policy)
       then validate_directional_proxy_policy policy else Ok tt);
  _ ← validate_proxy_policy policy containment;
  Ok policy.

End Crates.

(** ** What an accepted policy says *)

Definition port_translates (w : Wire.NetworkPort) (p : NetworkPort) : Prop :=
  p = MkPort (convert_protocol (Wire.protocol w)) (Wire.port w) (Wire.end_port w) /\ selector_ok p.

Lemma validate_port_range_spec w path :
  validate_port_range w path = Ok tt <->
  Wire.port w <> Some 0 /\ Wire.end_port w <> Some 0 /\
  (forall e, Wire.end_port w = Some e -> exists s, Wire.port w = Some s /\ s <= e).
Proof.
  unfold validate_port_range. destruct w as [pr [s|] [e|]]; cbn [Wire.port Wire.end_port];
    repeat case_bool_decide; cbn; try destruct (Z.ltb_spec e s);
    split; intros H'; try naive_solver lia.
  by destruct H1.
Qed.

Lemma convert_port_spec w path i p :
  Wire.port_wf w -> convert_port w path i = Ok p <-> port_translates w p.
Proof.
  intros [Hp He]. unfold convert_port, port_translates, selector_ok. rewrite bind_Ok. split.
  - intros ([] & (H1 & H2 & H3)%validate_port_range_spec & H).
    destruct (_ && _) eqn:Hi; [done|]. injection H as <-. cbn [port end_port protocol].
    split_and!; [done| | |].
    + intros s Hs. specialize (Hp _ Hs). assert (s <> 0) by congruence. lia.
    + intros e E. specialize (He _ E). destruct (H3 _ E) as (s & ? & ?). exists s. auto with lia.
    + intros Hicmp. rewrite bool_decide_eq_true_2 in Hi by done. cbn in Hi.
      apply orb_false_iff in Hi as [Hi1 Hi2]. apply bool_decide_eq_false in Hi1, Hi2.
      by rewrite !eq_None_not_Some.
  - intros (-> & H1 & H2 & H3). cbn [port end_port protocol] in *. exists tt. split.
    + apply validate_port_range_spec. split_and!.
      * intros E. specialize (H1 _ E). lia.
      * intros E. destruct (H2 _ E) as (s & E' & ?). specialize (H1 _ E'). lia.
      * intros e E. destruct (H2 _ E) as (s & ? & ?). exists s. auto with lia.
    + case_bool_decide as Hi; [|done]. destruct (H3 Hi) as [-> ->]. done.
Qed.

Section Laws.
Context {C : CidrCrate} {L : CidrCrateLaws C} {U : UrlCrate}.

(** An exclusion inside its peer. *)
Definition within (x c : NetworkCidr) : Prop :=
  prefix_length c <= prefix_length x /\ forall a, ip_wf a -> Blocks.names x a -> Blocks.names c a.

Definition peer_translates (w : Wire.NetworkPeer) (p : NetworkPeer) : Prop :=
  NetworkCidr_from_str (Wire.cidr w) = Ok (cidr p) /\
  Forall2 (fun v c => NetworkCidr_from_str v = Ok c) (default [] (Wire.except w)) (except p) /\
  Forall (fun x => within x (cidr p)) (except p).

(** An omitted list is every destination or every port; a written one is not
    empty. *)
Definition rule_translates (w : Wire.NetworkRule) (r : NetworkRule) : Prop :=
  Wire.to w <> Some [] /\ Wire.ports w <> Some [] /\
  Forall2 peer_translates (default [] (Wire.to w)) (to r) /\
  Forall2 port_translates (default [] (Wire.ports w)) (ports r).

Definition egress_translates (w : Wire.NetworkEgress) (e : NetworkEgressPolicy) : Prop :=
  egress_default e = action_or_default (Wire.egress_default w) /\
  Forall2 rule_translates (default [] (Wire.allow w)) (allow e) /\
  Forall2 rule_translates (default [] (Wire.deny w)) (deny e).

Definition rules_wf (rules : option (list Wire.NetworkRule)) : Prop :=
  Forall (fun r => Forall Wire.port_wf (default [] (Wire.ports r))) (default [] rules).

Definition wire_egress_wf (w : Wire.NetworkEgress) : Prop :=
  rules_wf (Wire.allow w) /\ rules_wf (Wire.deny w).

Lemma from_str_Ok v c :
  NetworkCidr_from_str v = Ok c ->
  exists n : IpCidr, c = MkCidr (first_address n) (network_length n).
Proof. unfold NetworkCidr_from_str. intros H'. inv_ok. eauto. Qed.

Lemma coarser_div a b h k : 0 <= h <= k -> a / 2 ^ h = b / 2 ^ h -> a / 2 ^ k = b / 2 ^ k.
Proof.
  intros Hk E. pose proof (pow2_pos h). pose proof (pow2_pos (k - h)).
  replace (2 ^ k) with (2 ^ h * 2 ^ (k - h)) by (rewrite <- Z.pow_add_r by lia; f_equal; lia).
  rewrite <- !Z.div_div by lia. by rewrite E.
Qed.

(** Membership in a network of the crate is CIDR membership. *)
Lemma names_network (n : IpCidr) a :
  ip_wf a ->
  Blocks.names (MkCidr (first_address n) (network_length n)) a <-> IpCidr_contains n a = true.
Proof.
  intros Ha. rewrite (cidr_contains_spec n a Ha). pose proof (cidr_valid n) as (_ & Hl & _).
  unfold Blocks.names, same_family, ip_bits, ip_width in *. cbn [address prefix_length].
  destruct (first_address n), a; naive_solver lia.
Qed.

Lemma contains_cidr_spec (n m : IpCidr) :
  contains_cidr (MkCidr (first_address n) (network_length n))
    (MkCidr (first_address m) (network_length m)) = true <->
  within (MkCidr (first_address m) (network_length m))
    (MkCidr (first_address n) (network_length n)).
Proof.
  unfold contains_cidr. cbn [address prefix_length]. rewrite !cidr_new_parts.
  pose proof (cidr_valid m) as (Wm & Lm & _). rewrite andb_true_iff, Z.leb_le.
  unfold within. cbn [prefix_length]. split; intros [Hl Hc]; (split; [done|]).
  - intros a Ha Hm. apply names_network in Hm; [|done]. apply names_network; [done|].
    apply cidr_contains_spec in Hm as [Fm Em]; [|done].
    apply cidr_contains_spec in Hc as [Fc Ec]; [|done]. apply cidr_contains_spec; [done|].
    pose proof (cidr_valid n) as (_ & Ln & _).
    destruct (first_address n), (first_address m), a; try done; cbn in *; split; try done;
      rewrite <- Ec; (eapply coarser_div; [|exact Em]); lia.
  - apply names_network; [done|]. apply Hc; [done|]. apply names_network; [done|].
    apply cidr_contains_spec; [done|]. split; [by destruct (first_address m)|done].
Qed.

Lemma validate_exclusions_spec i c ex path :
  validate_exclusions_from i c ex path = Ok tt <-> Forall (fun x => contains_cidr c x = true) ex.
Proof.
  revert i. induction ex as [|x ex IH]; intros i; cbn; [by split|].
  rewrite Forall_cons. destruct (contains_cidr c x); cbn; [rewrite IH|]; naive_solver.
Qed.

Lemma parse_cidr_spec v path c : parse_cidr v path = Ok c <-> NetworkCidr_from_str v = Ok c.
Proof. unfold parse_cidr. destruct (NetworkCidr_from_str v); cbn; naive_solver. Qed.

(** Exclusions read from text are validated by set inclusion. *)
Lemma exclusions_within v c vs ex j path :
  NetworkCidr_from_str v = Ok c -> Forall2 (fun v c => NetworkCidr_from_str v = Ok c) vs ex ->
  validate_exclusions_from j c ex path = Ok tt <-> Forall (fun x => within x c) ex.
Proof.
  intros (n & ->)%from_str_Ok Hex. rewrite validate_exclusions_spec.
  induction Hex as [|v' x vs ex (m & ->)%from_str_Ok _ IH]; [done|].
  by rewrite !Forall_cons, contains_cidr_spec, IH.
Qed.

Lemma convert_peer_spec w path i p : convert_peer w path i = Ok p <-> peer_translates w p.
Proof.
  unfold convert_peer, peer_translates, validate_exclusions.
  assert (Hm : forall k (path : nat -> string),
    mapM (fun '(i, value) => parse_cidr value (path i)) (enumerate (default [] (Wire.except w))) = Ok k <->
    Forall2 (fun v c => NetworkCidr_from_str v = Ok c) (default [] (Wire.except w)) k).
  { intros k q. apply (mapM_enumerate_Ok _ (fun i v => parse_cidr v (q i))).
    intros. apply parse_cidr_spec. }
  split.
  - intros H. inv_ok. subst p. cbn [cidr except].
    apply parse_cidr_spec in H0. apply (Hm _ (fun i => _)) in H1.
    destruct x1. by rewrite <- exclusions_within.
  - intros (Hc & Hx & Hw). apply (parse_cidr_spec _ (index (path +:+ ".to") i +:+ ".cidr")) in Hc.
    rewrite Hc. cbn [mbind result_bind].
    rewrite (proj2 (Hm _ (fun j => index (index (path +:+ ".to") i +:+ ".except") j)) Hx).
    cbn [mbind result_bind]. apply parse_cidr_spec in Hc.
    rewrite (proj2 (exclusions_within _ _ _ _ _ _ Hc Hx) Hw). by destruct p.
Qed.

Lemma is_some_and_empty {A} (o : option (list A)) : is_some_and is_empty o = true <-> o = Some [].
Proof. destruct o as [[]|]; naive_solver. Qed.

Lemma convert_peers_spec l path k :
  mapM (fun '(i, peer) => convert_peer peer path i) (enumerate l) = Ok k <->
  Forall2 peer_translates l k.
Proof.
  apply (mapM_enumerate_Ok _ (fun i peer => convert_peer peer path i)).
  intros. apply convert_peer_spec.
Qed.

Lemma convert_ports_spec l path k :
  Forall Wire.port_wf l ->
  mapM (fun '(i, port) => convert_port port path i) (enumerate l) = Ok k <->
  Forall2 port_translates l k.
Proof.
  rewrite Forall_forall. intros Hl.
  apply (mapM_enumerate_Ok _ (fun i port => convert_port port path i)).
  intros i x y Hx. by apply convert_port_spec, Hl.
Qed.

Lemma convert_rule_spec w path i r :
  Forall Wire.port_wf (default [] (Wire.ports w)) ->
  convert_rule w path i = Ok r <-> rule_translates w r.
Proof.
  intros Hw. unfold convert_rule, rule_translates. rewrite <- !is_some_and_empty.
  destruct (is_some_and is_empty (Wire.to w)); [naive_solver|].
  destruct (is_some_and is_empty (Wire.ports w)); [naive_solver|]. split.
  - intros H. inv_ok. subst r. cbn [to ports].
    apply convert_peers_spec in H0. by apply convert_ports_spec in H1.
  - intros (_ & _ & Hto & Hports). apply (convert_peers_spec _ (index path i)) in Hto.
    apply (convert_ports_spec _ (index path i)) in Hports; [|done].
    rewrite Hto. cbn [mbind result_bind]. rewrite Hports. by destruct r.
Qed.

Lemma convert_rules_spec l path k :
  Forall (fun r => Forall Wire.port_wf (default [] (Wire.ports r))) l ->
  convert_rules l path = Ok k <-> Forall2 rule_translates l k.
Proof.
  rewrite Forall_forall. intros Hl.
  apply (mapM_enumerate_Ok _ (fun i rule => convert_rule rule path i)).
  intros i x y Hx. by apply convert_rule_spec, Hl.
Qed.

Lemma convert_egress_spec w e :
  wire_egress_wf w -> convert_egress w = Ok e <-> egress_translates w e.
Proof.
  intros [Ha Hd]. unfold convert_egress, egress_translates. split.
  - intros H. inv_ok. subst e. apply convert_rules_spec in H0, H1; done.
  - intros (Hdef & Hall & Hden). apply (convert_rules_spec _ "network.egress.allow") in Hall; [|done].
    apply (convert_rules_spec _ "network.egress.deny") in Hden; [|done].
    rewrite Hall. cbn [mbind result_bind]. rewrite Hden. cbn. rewrite <- Hdef. by destruct e.
Qed.

(** The egress section is accepted exactly when it is meaningful, and is then
    translated rule by rule in order: every written CIDR parses, every
    exclusion lies inside its destination as a set of addresses, a written list
    is not empty, every port is in 1..65535 with ranges in order and a start,
    and ICMP selectors carry no port; an omitted default denies. *)
Theorem convert_egress_accepts (w : Wire.NetworkEgress) (e : NetworkEgressPolicy) :
  wire_egress_wf w -> convert_egress w = Ok e <-> egress_translates w e.
Proof. apply convert_egress_spec. Qed.

(** The wire ingress controls, absent sections and fields included. *)
Definition written_default (s : NetworkSections) : option Wire.NetworkAction :=
  n ← network s; i ← Wire.ingress n; Wire.ingress_default i.
Definition written_loopback (s : NetworkSections) : option Wire.NetworkAction :=
  n ← network s; i ← Wire.ingress n; Wire.host_loopback i.

Definition sections_wf (s : NetworkSections) : Prop :=
  forall n w, network s = Some n -> Wire.egress n = Some w -> wire_egress_wf w.

(** The stages of an accepted parse. *)
Lemma parse_network_policy_inv policy s c p' :
  parse_network_policy policy s c = Ok p' ->
  exists peer egress ingress mode flag proxy,
    convert_allowed_proxy_peer (process_container s) = Ok peer /\
    p' = with_network policy egress (Some ingress) peer proxy
           (bool_decide (is_Some (network s))) mode flag /\
    parse_runtime_proxy policy (runtime s) c = Ok (flag, proxy) /\
    (c <> Wslc -> mode = true -> is_enabled proxy = true ->
       validate_directional_proxy_policy p' = Ok tt) /\
    validate_proxy_policy p' c = Ok tt /\
    match network s with
    | Some n => map_transpose convert_egress (Wire.egress n) = Ok egress /\
        ingress = convert_ingress (Wire.ingress n) /\ mode = has_directional_policy_fields n
    | None => egress = None /\ ingress = NetworkIngressPolicy_default /\
        mode = network_mode_specified policy
    end.
Proof.
  unfold parse_network_policy. intros H.
  apply bind_Ok in H as (peer & Hpeer & H).
  apply bind_Ok in H as ([[mode egress] ingress] & Hnet & H).
  apply bind_Ok in H as ([flag proxy] & Hproxy & H).
  apply bind_Ok in H as ([] & Hdir & H). apply bind_Ok in H as ([] & Hval & H).
  injection H as <-. exists peer, egress, ingress, mode, flag, proxy.
  split_and!; [done|done|done| |done|].
  - intros Hc -> Hen. rewrite bool_decide_eq_false_2 in Hdir by done. cbn in Hdir.
    by rewrite Hen in Hdir.
  - destruct (network s) as [n|]; inv_ok; by simplify_eq.
Qed.

(** What a parsed policy lets in and out is what was written: the egress
    section is the translation of the written one and absent when none was
    written; inbound traffic and host loopback are each allowed only when that
    very control says so, host loopback never following the ingress default;
    and nothing outside the network settings changes. *)
Theorem parse_network_policy_directions (policy : ContainerPolicy) (s : NetworkSections)
    (c : ContainmentBackend) (p' : ContainerPolicy) :
  sections_wf s -> parse_network_policy policy s c = Ok p' ->
  option_Forall2 egress_translates (network s ≫= Wire.egress) (network_egress p') /\
  (exists i, network_ingress p' = Some i /\
     (ingress_default i = Allow <-> written_default s = Some Wire.Allow) /\
     (host_loopback i = Allow <-> written_loopback s = Some Wire.Allow)) /\
  p' = with_network policy (network_egress p') (network_ingress p') (allowed_proxy_peer p')
         (network_proxy p') (network_specified p') (network_mode_specified p')
         (runtime_network_proxy_specified p').
Proof.
  intros Hwf (peer & egress & ingress & mode & flag & proxy & _ & -> & _ & _ & _ & Hn)
    %parse_network_policy_inv.
  cbn [network_egress network_ingress with_network]. split_and!; [| |done].
  - destruct (network s) as [n|] eqn:En; cbn; [|destruct Hn as (-> & _); constructor].
    destruct Hn as (He & _). destruct (Wire.egress n) as [w|] eqn:Ew; cbn in He; inv_ok; subst;
      constructor. apply convert_egress_spec; [by eapply Hwf|done].
  - exists ingress. split; [done|]. unfold written_default, written_loopback.
    assert (Ha : forall a, action_or_default a = Allow <-> a = Some Wire.Allow)
      by (intros [[]|]; split; (done || by intros [=])).
    destruct (network s) as [n|]; destruct Hn as (_ & -> & _);
      cbn -[action_or_default]; [|split; by split].
    destruct (Wire.ingress n) as [i|]; cbn -[action_or_default]; by rewrite !Ha.
Qed.

(** What the proxy checks of the process container leave standing. *)
Lemma process_container_proxy_ok p :
  validate_process_container_proxy_policy p (is_enabled (network_proxy p)) = Ok tt ->
  (forall peer, allowed_proxy_peer p = Some peer ->
     eq_ignore_ascii_case peer "MXC-Loopback" = false /\ is_enabled (network_proxy p) = true) /\
  (is_enabled (network_proxy p) = true -> exists i, network_ingress p = Some i /\
     ingress_default i = Allow /\ (host_loopback i = Allow <-> allowed_proxy_peer p = None)).
Proof.
  unfold validate_process_container_proxy_policy. intros H.
  destruct (is_some_and _ _) eqn:Hres; [done|].
  destruct (is_enabled (network_proxy p)); cbn in H.
  - rewrite andb_false_r in H. destruct (network_ingress p) as [i|]; [|done].
    case_bool_decide as Hd; cbn in H; [|done]. split.
    + intros peer E. rewrite E in Hres. done.
    + intros _. exists i. split_and!; [done|done|].
      destruct (allowed_proxy_peer p), (host_loopback i); done.
  - destruct (allowed_proxy_peer p); cbn in H; [done|]. split; done.
Qed.

Lemma parse_runtime_proxy_loopback policy r c flag proxy :
  is_enabled (network_proxy policy) = false -> parse_runtime_proxy policy r c = Ok (flag, proxy) ->
  is_enabled proxy = true ->
  exists url a, r ≫= Wire.network_proxy = Some url /\ proxy_config_address proxy = Some a /\
    to_url a = url /\ (c <> Wslc -> host_is_canonical_loopback (proxy_address a) = true).
Proof.
  unfold parse_runtime_proxy. intros Hoff H Hon.
  destruct (r ≫= Wire.network_proxy) as [url|]; [|by simplify_eq; congruence].
  apply bind_Ok in H as (cfg & Hcfg & H).
  unfold convert_wire_proxy_at in Hcfg. apply bind_Ok in Hcfg as (u & _ & Hcfg).
  destruct (_ && _) in Hcfg; [done|]. inv_ok. subst cfg. cbn in H.
  destruct (negb (bool_decide (c = Wslc)) && _) eqn:E; [done|]. injection H as <- <-.
  eexists url, _. split_and!; [done|done|done|]. intros Hc. cbn.
  rewrite bool_decide_eq_false_2 in E by done. cbn in E. by apply negb_false_iff in E.
Qed.

(** A policy accepted with a runtime proxy is one in which the proxy is the
    only way out, on every backend but WSLc: the proxy is the configured URL on
    a canonical loopback host, and a written network posture has no egress
    section or a deny default without rules.  A process container then also
    allows inbound traffic, and opens host loopback exactly when no proxy peer
    identity is named; a peer identity is never blank, never the reserved
    loopback one, and never present without a proxy. *)
Theorem parse_network_policy_proxy (policy : ContainerPolicy) (s : NetworkSections)
    (c : ContainmentBackend) (p' : ContainerPolicy) :
  is_enabled (network_proxy policy) = false -> parse_network_policy policy s c = Ok p' ->
  (is_enabled (network_proxy p') = true -> c <> Wslc ->
     (exists url a, runtime s ≫= Wire.network_proxy = Some url /\
        proxy_config_address (network_proxy p') = Some a /\ to_url a = url /\
        host_is_canonical_loopback (proxy_address a) = true) /\
     (network_mode_specified p' = true ->
        network_egress p' = None \/ network_egress p' = Some (MkEgress Deny [] []))) /\
  (is_enabled (network_proxy p') = true -> c = ProcessContainer ->
     exists i, network_ingress p' = Some i /\ ingress_default i = Allow /\
       (host_loopback i = Allow <-> allowed_proxy_peer p' = None)) /\
  (forall peer, allowed_proxy_peer p' = Some peer -> is_blank peer = false /\
     (c = ProcessContainer -> eq_ignore_ascii_case peer "MXC-Loopback" = false /\
        is_enabled (network_proxy p') = true)).
Proof.
  intros Hoff (peer & egress & ingress & mode & flag & proxy & Hpeer & Hp' & Hproxy & Hdir & Hval & _)
    %parse_network_policy_inv.
  assert (Hpc : c = ProcessContainer ->
    validate_process_container_proxy_policy p' (is_enabled (network_proxy p')) = Ok tt)
    by (intros ->; done).
  assert (Hpr : network_proxy p' = proxy) by (by subst). split_and!.
  - rewrite Hpr. intros Hon Hc. split.
    + destruct (parse_runtime_proxy_loopback _ _ _ _ _ Hoff Hproxy Hon) as (url & a & ? & ? & ? & ?).
      eauto 10.
    + intros Hm. assert (mode = true) by (by subst). specialize (Hdir Hc ltac:(done) Hon).
      unfold validate_directional_proxy_policy in Hdir. destruct (network_egress p') as [[d a n]|]; [|auto].
      destruct d, a, n; cbn in Hdir; by try (right; done).
  - intros Hon Hc. apply (proj2 (process_container_proxy_ok p' (Hpc Hc)) Hon).
  - intros q Hq. split.
    + assert (peer = Some q) as -> by (by subst). unfold convert_allowed_proxy_peer in Hpeer.
      destruct (_ ≫= _) as [x|]; [|done]. destruct (is_blank x) eqn:Hb; [done|]. by injection Hpeer as <-.
    + intros Hc. by apply (proj1 (process_container_proxy_ok p' (Hpc Hc))).
Qed.

(** A proxy URL that names the default port of its scheme is always refused,
    as if it named no port: the port of an accepted proxy is never the default
    of the URL's scheme, because [Url::port] does not report such a port. *)
Theorem default_port_refused `{!UrlCrateLaws U} (url path : string) (cfg : ProxyConfig)
    (a : ProxyAddress) :
  convert_wire_proxy_at url path = Ok cfg -> proxy_config_address cfg = Some a ->
  exists u, Url_parse url = Ok u /\ default_port (Url_scheme u) <> Some (proxy_port a).
Proof.
  unfold convert_wire_proxy_at. intros Hcfg Ha. apply bind_Ok in Hcfg as (u & Hu & Hcfg).
  exists u. split; [by destruct (Url_parse url); simplify_eq/=|].
  destruct (_ && _) in Hcfg; [done|]. inv_ok. subst cfg. cbn in Ha. injection Ha as <-. cbn.
  apply url_port_not_default. by destruct (Url_port u); simplify_eq/=.
Qed.

End Laws.

(** ** Witnesses *)

#[local] Existing Instance Instances.cidr_crate.
#[local] Existing Instance Instances.cidr_crate_laws.
#[local] Existing Instance Instances.url_crate.

#[local] Existing Instance Instances.url_crate_laws.

Lemma default_port_refused_witness :
  (exists u, Url_parse "http://localhost:8080" = Ok u /\
     default_port (Url_scheme u) <> Some 8080) /\
  convert_wire_proxy_at "http://localhost:80" "p" =
    Err (ConfigParse "p must include a port (e.g., http://localhost:8080), got: http://localhost:80").
Proof.
  split; [|vm_compute; reflexivity].
  apply (default_port_refused "http://localhost:8080" "p"
    (MkProxyConfig (Some (ProxyAddress_from_url "http://localhost:8080" "localhost" 8080)))
    (ProxyAddress_from_url "http://localhost:8080" "localhost" 8080)); vm_compute; reflexivity.
Defined.

(** Deny by default, [10.0.0.0/8] without [10.1.0.0/16] allowed on TCP 80 to 90. *)
Definition example_wire : Wire.NetworkEgress :=
  Wire.Build_NetworkEgress None
    (Some [Wire.Build_NetworkRule
      (Some [Wire.Build_NetworkPeer "10.0.0.0/8" (Some ["10.1.0.0/16"])])
      (Some [Wire.Build_NetworkPort (Some Wire.Tcp) (Some 80) (Some 90)])]) None.

Definition example_egress : NetworkEgressPolicy :=
  MkEgress Deny
    [MkRule [MkPeer (MkCidr (V4 0x0a000000) 8) [MkCidr (V4 0x0a010000) 16]]
       [MkPort Tcp (Some 80) (Some 90)]] [].

Lemma example_wire_wf : wire_egress_wf example_wire.
Proof.
  split; [|apply List.Forall_nil]. apply Forall_singleton, Forall_singleton.
  split; cbn; intros ? [= <-]; unfold u16_max; lia.
Qed.

Lemma convert_egress_accepts_witness :
  convert_egress example_wire = Ok example_egress /\ egress_translates example_wire example_egress.
Proof.
  assert (E : convert_egress example_wire = Ok example_egress) by (vm_compute; reflexivity).
  split; [exact E|]. apply (convert_egress_accepts _ _ example_wire_wf). exact E.
Defined.

Definition example_sections : NetworkSections :=
  MkSections (Some (Wire.Build_Network (Some example_wire)
    (Some (Wire.Build_NetworkIngress (Some Wire.Allow) None)))) None None.

Lemma parse_network_policy_directions_witness :
  exists p', parse_network_policy ContainerPolicy_default example_sections Lxc = Ok p' /\
    exists i, network_ingress p' = Some i /\
      (host_loopback i = Allow <-> written_loopback example_sections = Some Wire.Allow).
Proof.
  eexists. split; [vm_compute; reflexivity|].
  destruct (parse_network_policy_directions ContainerPolicy_default example_sections Lxc
    (with_network ContainerPolicy_default (Some example_egress) (Some (MkIngress Allow Deny)) None
       ProxyConfig_default true true false)) as (_ & (i & Hi & _ & Hl) & _).
  - intros n w [= <-] [= <-]. exact example_wire_wf.
  - vm_compute. reflexivity.
  - exists i. split; [exact Hi|exact Hl].
Defined.

Definition proxy_sections : NetworkSections :=
  MkSections (Some (Wire.Build_Network None
    (Some (Wire.Build_NetworkIngress (Some Wire.Allow) (Some Wire.Allow)))))
    (Some (Wire.Build_RuntimeConfig (Some "http://localhost:8080"))) None.

Lemma parse_network_policy_proxy_witness :
  exists p', parse_network_policy ContainerPolicy_default proxy_sections ProcessContainer = Ok p' /\
    network_egress p' = None /\
    exists i, network_ingress p' = Some i /\ ingress_default i = Allow /\
      (host_loopback i = Allow <-> allowed_proxy_peer p' = None).
Proof.
  eexists. split; [vm_compute; reflexivity|]. split; [reflexivity|].
  apply (parse_network_policy_proxy ContainerPolicy_default proxy_sections ProcessContainer);
    vm_compute; reflexivity.
Defined.

End Parser.
