(* ===== verification/EgressSpec.v ===== *)
(** * What an egress policy means

    The contract the firewall backends implement: which destinations a peer
    selects, which packets a rule selects, and the decision of a policy, a deny
    rule overriding an allow rule and both overriding the default.  It is
    written on the policy alone; [LxcEgress] shows the rules LXC programs decide
    the same way. *)

From S2P Require Import Prelude NetText Models NetworkBlocks Netfilter.

Module Egress.

Import Blocks (IpFamily, FamilyV4, FamilyV6).
Import Filter (packet, MkPacket, packet_wf).

(** The family the packets to a network travel in: the IPv4-mapped networks of
    IPv6 are IPv4. *)
Definition cidr_family (c : NetworkCidr) : IpFamily :=
  match address c with
  | V4 _ => FamilyV4
  | V6 ip =>
      if bool_decide (is_Some (to_ipv4_mapped ip)) && (96 <=? prefix_length c)
      then FamilyV4 else FamilyV6
  end.

Definition peer_selects (p : NetworkPeer) (pkt : packet) : Prop :=
  cidr_family (cidr p) = Filter.family pkt /\
  Blocks.peer_covers (Filter.family pkt) p (Filter.destination pkt).

(** The ports of a selector: none is every port, one is itself, two a range. *)
Definition port_selects (p : NetworkPort) (pkt : packet) : bool :=
  match port p with
  | None => true
  | Some s =>
      (s <=? Filter.destination_port pkt) &&
      (Filter.destination_port pkt <=? default s (end_port p))
  end.

Definition selector_selects (p : NetworkPort) (pkt : packet) : bool :=
  match protocol p with
  | Tcp => bool_decide (Filter.transport pkt = Filter.ProtoTcp) && port_selects p pkt
  | Udp => bool_decide (Filter.transport pkt = Filter.ProtoUdp) && port_selects p pkt
  | Icmp => bool_decide (Filter.transport pkt = Filter.ProtoIcmp)
  | AnyProtocol =>
      match port p with
      | None => true
      | Some _ => Filter.has_ports pkt && port_selects p pkt
      end
  end.

(** An empty list of destinations or ports selects everything. *)
Definition rule_selects (r : NetworkRule) (pkt : packet) : Prop :=
  (to r = [] \/ exists p, p ∈ to r /\ peer_selects p pkt) /\
  (ports r = [] \/ exists p, p ∈ ports r /\ selector_selects p pkt = true).

Definition some_rule_selects (rules : list NetworkRule) (pkt : packet) : Prop :=
  exists r, r ∈ rules /\ rule_selects r pkt.

(** The decision: deny rules, then allow rules, then the default. *)
Definition permits (e : NetworkEgressPolicy) (pkt : packet) : Prop :=
  ~ some_rule_selects (deny e) pkt /\
  (some_rule_selects (allow e) pkt \/ egress_default e = Allow).

(** An absent section denies. *)
Definition policy_permits (p : ContainerPolicy) (pkt : packet) : Prop :=
  match network_egress p with Some e => permits e pkt | None => False end.

(** Policies whose values fit their types and whose selectors make sense, as the
    parser leaves them. *)
Definition rules_ok (rules : list NetworkRule) : Prop :=
  Forall (fun r => rule_wf r /\ Forall selector_ok (ports r)) rules.

Definition egress_ok (e : NetworkEgressPolicy) : Prop := rules_ok (allow e) /\ rules_ok (deny e).

Definition policy_ok (p : ContainerPolicy) : Prop :=
  forall e, network_egress p = Some e -> egress_ok e.

Lemma resolve_family c f b : Blocks.resolve c = Some (f, b) -> cidr_family c = f.
Proof.
  unfold Blocks.resolve, cidr_family. destruct (address c) as [x|x].
  - case_match; by intros [= <- <-].
  - destruct (to_ipv4_mapped x) as [v|]; [destruct (96 <=? prefix_length c)|]; cbn;
      case_match; by intros [= <- <-].
Qed.

(** A CIDR longer than its family names nothing. *)
Lemma resolve_None_covers c a :
  cidr_wf c -> Blocks.resolve c = None -> ~ Blocks.covers (cidr_family c) c a.
Proof.
  intros [Ha Hl]. unfold Blocks.resolve, cidr_family, Blocks.covers, Blocks.names, u8_max in *.
  destruct (address c) as [x|x]; cbn in Ha.
  - cbn [Blocks.width]. destruct (Z.ltb_spec 32 (prefix_length c)); [|done]. intros _. lia.
  - destruct (to_ipv4_mapped x) as [v|]; cbn [is_Some bool_decide];
      [destruct (Z.leb_spec 96 (prefix_length c))|].
    + unfold u8_sub. rewrite wrap_small by lia. cbn [Blocks.width].
      destruct (Z.ltb_spec 32 (prefix_length c - 96)); [|done]. intros _.
      rewrite bool_decide_eq_true_2 by done. cbn. lia.
    + cbn [Blocks.width]. destruct (Z.ltb_spec 128 (prefix_length c)); [lia|done].
    + cbn [Blocks.width]. destruct (Z.ltb_spec 128 (prefix_length c)); [|done]. intros _.
      rewrite bool_decide_eq_false_2 by (by intros [? ?]). cbn. lia.
Qed.

End Egress.
