(* ===== verification/LxcNames.v ===== *)
(** * LXC chain names

    [chain_name_for] and [ingress_chain_name_for] of
    [backends/lxc/common/network_iptables.rs]: a prefix, a readable slug and the
    base32 text of a digest of the container name.  SHA-256 is a parameter. *)

From Stdlib Require Import Ascii.
From S2P Require Import Prelude.

Module Names.

Definition CHAIN_NAME_MAX_LEN : Z := 28.
Definition CHAIN_HASH_BYTES : nat := 10.
Definition CHAIN_SLUG_LEN : nat := 7.
Definition INGRESS_CHAIN_SLUG_LEN : nat := 6.

Definition BASE32_LOWER : list ascii :=
  String.list_ascii_of_string "abcdefghijklmnopqrstuvwxyz234567".

(** Indexing the alphabet; the index is always below 32 here. *)
Definition base32_char (index : Z) : ascii := nth (Z.to_nat index) BASE32_LOWER "?"%char.

(** The accumulator is a [u16]: bits shifted out are lost. *)
Definition push_byte (accumulator byte : Z) : Z := Z.lor (wrap 16 (Z.shiftl accumulator 8)) byte.

(** [while pending_bits >= 5]: at most two turns, as a byte adds eight bits to
    at most four. *)
Fixpoint emit (fuel : nat) (accumulator pending_bits : Z) (out : string) : Z * string :=
  match fuel with
  | O => (pending_bits, out)
  | S fuel =>
      if 5 <=? pending_bits then
        let pending_bits := pending_bits - 5 in
        let index := Z.land (Z.shiftr accumulator pending_bits) 31 in
        emit fuel accumulator pending_bits (out +:+ String (base32_char index) "")
      else (pending_bits, out)
  end.

Definition encode_byte (st : Z * Z * string) (byte : Z) : Z * Z * string :=
  let '(accumulator, pending_bits, out) := st in
  let accumulator := push_byte accumulator byte in
  let '(pending_bits, out) := emit 3 accumulator (pending_bits + 8) out in
  (accumulator, pending_bits, out).

Definition base32_lower (bytes : list Z) : string :=
  let '(accumulator, pending_bits, out) := foldl encode_byte (0, 0, "") bytes in
  if 0 <? pending_bits then
    let index := Z.land (wrap 16 (Z.shiftl accumulator (5 - pending_bits))) 31 in
    out +:+ String (base32_char index) ""
  else out.

Definition slug_char (c : ascii) : bool :=
  is_ascii_alphanumeric c || bool_decide (c = "-"%char) || bool_decide (c = "_"%char).

Section Digest.
Context (sha256 : string -> list Z).

Definition chain_name_with_prefix (prefix : string) (slug_len : nat) (container_name : string)
  : string :=
  let digest := sha256 container_name in
  let hash := base32_lower (take CHAIN_HASH_BYTES digest) in
  let slug := string_take slug_len (string_filter slug_char container_name) in
  if bool_decide (slug = "") then prefix +:+ hash else prefix +:+ slug +:+ "-" +:+ hash.

Definition chain_name_for (container_name : string) : string :=
  chain_name_with_prefix "MXC-" CHAIN_SLUG_LEN container_name.

Definition ingress_chain_name_for (container_name : string) : string :=
  chain_name_with_prefix "MXCI-" INGRESS_CHAIN_SLUG_LEN container_name.

End Digest.

Example base32_example : base32_lower [0x66; 0x6f; 0x6f; 0x62; 0x61] = "mzxw6ytb" /\
  base32_lower [0x66; 0x6f; 0x6f; 0x62] = "mzxw6yq".
Proof. vm_compute. done. Qed.

(** ** Base32 keeps the bits *)

Definition byte_ok (b : Z) : Prop := 0 <= b < 256.

(** The big-endian value of bytes. *)
Definition bytes_value (bs : list Z) : Z := foldl (fun v b => v * 256 + b) 0 bs.

Definition base32_digit (c : ascii) : Z :=
  match list_find (fun x => x = c) BASE32_LOWER with Some (i, _) => Z.of_nat i | None => 0 end.

(** The value of base32 text. *)
Fixpoint base32_value (v : Z) (s : string) : Z :=
  match s with EmptyString => v | String c s => base32_value (v * 32 + base32_digit c) s end.

Lemma base32_digit_char i : 0 <= i < 32 -> base32_digit (base32_char i) = i.
Proof.
  intros Hi. assert (H : forallb (fun n => base32_digit (base32_char (Z.of_nat n)) =? Z.of_nat n) (seq 0 32) = true)
    by (vm_compute; done).
  rewrite forallb_forall in H. specialize (H (Z.to_nat i)).
  rewrite Z2Nat.id in H by lia. apply Z.eqb_eq, H, in_seq. lia.
Qed.

Lemma base32_value_snoc v s c : base32_value v (s +:+ String c "") = base32_value v s * 32 + base32_digit c.
Proof. revert v. induction s as [|d s IH]; intros v; autorewrite with text; cbn; [done|apply IH]. Qed.

(** The text so far and the pending bits of the accumulator hold the value [v]. *)
Definition encodes (acc p : Z) (out : string) (v : Z) : Prop :=
  base32_value 0 out * 2 ^ p + acc mod 2 ^ p = v.

Lemma land_31 x : Z.land x 31 = x mod 32.
Proof. change 31 with (Z.ones 5). by rewrite Z.land_ones. Qed.

Lemma emit_spec fuel acc p out v p' out' :
  0 <= p < 5 * (Z.of_nat fuel + 1) -> encodes acc p out v -> emit fuel acc p out = (p', out') ->
  0 <= p' < 5 /\ encodes acc p' out' v /\
  5 * Z.of_nat (String.length out') + p' = 5 * Z.of_nat (String.length out) + p.
Proof.
  revert p out. induction fuel as [|fuel IH]; intros p out Hp He H; cbn [emit] in H.
  - injection H as <- <-. split_and!; (done || lia).
  - destruct (Z.leb_spec 5 p); [|injection H as <- <-; split_and!; (done || lia)].
    apply IH in H as (? & ? & Hl); [|lia|].
    + split_and!; [lia..|done|]. rewrite Hl, string_length_app. cbn. lia.
    + unfold encodes in *. rewrite base32_value_snoc, land_31, base32_digit_char
        by (apply Z.mod_pos_bound; lia).
      rewrite Z.shiftr_div_pow2 by lia. rewrite <- He.
      replace (2 ^ p) with (2 ^ (p - 5) * 32)
        by (change 32 with (2 ^ 5); rewrite <- Z.pow_add_r by lia; f_equal; lia).
      rewrite (Z.rem_mul_r acc (2 ^ (p - 5)) 32) by (try apply Z.pow_nonzero; lia). lia.
Qed.

Lemma lor_low_byte k b : 0 <= k -> byte_ok b -> Z.lor (k * 256) b = k * 256 + b.
Proof.
  intros Hk Hb. symmetry. apply Z.add_nocarry_lxor || rewrite <- Z.add_nocarry_lor; [done|].
  change 256 with (2 ^ 8). rewrite <- Z.shiftl_mul_pow2 by lia. apply Z.bits_inj'. intros i Hi.
  rewrite Z.land_spec, Z.bits_0. destruct (Z.lt_ge_cases i 8).
  - by rewrite Z.shiftl_spec_low.
  - by rewrite (testbit_high 8 b i), andb_false_r by (unfold byte_ok in Hb; lia).
Qed.

Lemma push_byte_value acc b p :
  byte_ok b -> 0 <= p <= 8 -> push_byte acc b mod 2 ^ (p + 8) = acc mod 2 ^ p * 256 + b.
Proof.
  intros Hb Hp. unfold push_byte, wrap. rewrite Z.shiftl_mul_pow2 by lia.
  change (2 ^ 16) with (2 ^ 8 * 2 ^ 8). rewrite Z.mul_mod_distr_r by lia. change (2 ^ 8) with 256.
  pose proof (Z.mod_pos_bound acc 256 ltac:(lia)). rewrite lor_low_byte by (done || lia).
  pose proof (pow2_pos p ltac:(lia)). rewrite Z.pow_add_r by lia. change (2 ^ 8) with 256.
  assert (E : (acc mod 256) mod 2 ^ p = acc mod 2 ^ p).
  { change 256 with (2 ^ 8). rewrite (pow2_split 8 p) by lia.
    rewrite Z.rem_mul_r by (try apply Z.pow_nonzero; lia).
    rewrite Z.mul_comm, Z.mod_add by lia. by rewrite Z.mod_mod by lia. }
  rewrite <- E. set (k := acc mod 256) in *. unfold byte_ok in Hb.
  pose proof (Z.div_mod k (2 ^ p) ltac:(lia)). pose proof (Z.mod_pos_bound k (2 ^ p) ltac:(lia)).
  symmetry. apply (Z.mod_unique _ _ (k / 2 ^ p)); [|nia]. left. nia.
Qed.

Lemma encode_byte_spec acc p out v b acc' p' out' :
  byte_ok b -> 0 <= p < 5 -> encodes acc p out v -> encode_byte (acc, p, out) b = (acc', p', out') ->
  0 <= p' < 5 /\ encodes acc' p' out' (v * 256 + b) /\
  5 * Z.of_nat (String.length out') + p' = 5 * Z.of_nat (String.length out) + p + 8.
Proof.
  intros Hb Hp He H. unfold encode_byte in H.
  destruct (emit 3 (push_byte acc b) (p + 8) out) as [q o] eqn:E. injection H as <- <- <-.
  apply (emit_spec _ _ _ _ (v * 256 + b)) in E as (? & ? & ?); [split_and!; [lia..|done|lia]|lia|].
  unfold encodes in *. rewrite push_byte_value by (done || lia).
  rewrite Z.pow_add_r by lia. change (2 ^ 8) with 256. lia.
Qed.

Lemma encode_bytes_spec bs acc p out v acc' p' out' :
  Forall byte_ok bs -> 0 <= p < 5 -> encodes acc p out v ->
  foldl encode_byte (acc, p, out) bs = (acc', p', out') ->
  0 <= p' < 5 /\ encodes acc' p' out' (foldl (fun v b => v * 256 + b) v bs) /\
  5 * Z.of_nat (String.length out') + p' =
    5 * Z.of_nat (String.length out) + p + 8 * Z.of_nat (length bs).
Proof.
  intros Hbs. revert acc p out v. induction Hbs as [|b bs Hb _ IH]; intros acc p out v Hp He H; cbn [foldl] in H.
  - injection H as <- <- <-. cbn [foldl length]. split_and!; [lia..|done|lia].
  - destruct (encode_byte (acc, p, out) b) as [[acc1 p1] out1] eqn:E.
    destruct (encode_byte_spec _ _ _ _ _ _ _ _ Hb Hp He E) as (Hp1 & He1 & Hl1).
    destruct (IH _ _ _ _ Hp1 He1 H) as (? & ? & ?). cbn [foldl length]. split_and!; [lia..|done|lia].
Qed.

(** The digest prefix is encoded whole: sixteen characters of its value. *)
Lemma base32_lower_hash bs :
  Forall byte_ok bs -> length bs = CHAIN_HASH_BYTES ->
  String.length (base32_lower bs) = 16%nat /\ base32_value 0 (base32_lower bs) = bytes_value bs.
Proof.
  intros Hbs Hl. unfold base32_lower. destruct (foldl _ _ _) as [[acc p] out] eqn:E.
  destruct (encode_bytes_spec bs 0 0 "" 0 acc p out Hbs) as (Hp & He & Hlen); [lia|done|done|].
  rewrite Hl in Hlen. change (Z.of_nat CHAIN_HASH_BYTES) with 10 in Hlen.
  cbn [String.length] in Hlen. assert (p = 0) as -> by lia.
  destruct (Z.ltb_spec 0 0); [lia|]. split; [lia|].
  unfold encodes in He. cbn in He. rewrite Z.mod_1_r in He. unfold bytes_value. lia.
Qed.

Lemma bytes_value_inj bs cs v w :
  Forall byte_ok bs -> Forall byte_ok cs -> length bs = length cs ->
  foldl (fun v b => v * 256 + b) v bs = foldl (fun v b => v * 256 + b) w cs -> v = w /\ bs = cs.
Proof.
  intros Hbs. revert cs v w. induction Hbs as [|b bs Hb _ IH]; intros cs v w Hcs Hl H.
  - destruct cs; [done|discriminate].
  - destruct cs as [|c cs]; [discriminate|]. inversion Hcs; subst. cbn in Hl, H.
    apply IH in H as [H ->]; [|done|lia]. unfold byte_ok in *. split; [lia|]. f_equal. lia.
Qed.

(** ** Names *)

Lemma string_take_length n s : (String.length (string_take n s) <= n)%nat.
Proof. revert s. induction n as [|n IH]; intros [|c s]; cbn; [lia..|]. specialize (IH s). lia. Qed.

Lemma string_app_inj_tail a b c d :
  String.length b = String.length d -> a +:+ b = c +:+ d -> b = d.
Proof.
  intros Hl E. assert (String.length a = String.length c).
  { apply (f_equal String.length) in E. rewrite !string_length_app in E. lia. }
  revert c H E. induction a as [|x a IH]; intros [|y c] Hc E; autorewrite with text in E;
    try discriminate; [done|]. injection E as _ E. by apply (IH c); [injection Hc|].
Qed.

Section DigestLaws.
(** A digest is thirty-two bytes. *)
Context (sha256 : string -> list Z)
  (Hsha : forall s, length (sha256 s) = 32%nat /\ Forall byte_ok (sha256 s)).

Lemma digest_prefix s :
  Forall byte_ok (take CHAIN_HASH_BYTES (sha256 s)) /\
  length (take CHAIN_HASH_BYTES (sha256 s)) = CHAIN_HASH_BYTES.
Proof.
  destruct (Hsha s) as [Hl Hb]. split; [by apply Forall_take|].
  rewrite length_take, Hl. done.
Qed.

(** A name ends in the sixteen characters of its hash. *)
Lemma chain_name_shape prefix n s :
  exists front, chain_name_with_prefix sha256 prefix n s =
      prefix +:+ front +:+ base32_lower (take CHAIN_HASH_BYTES (sha256 s)) /\
    (String.length front <= n + 1)%nat.
Proof.
  unfold chain_name_with_prefix. pose proof (string_take_length n (string_filter slug_char s)) as Hl.
  case_bool_decide; [exists ""|exists (string_take n (string_filter slug_char s) +:+ "-")].
  - split; [by rewrite string_app_nil_l|cbn; lia].
  - rewrite !string_app_assoc. split; [done|]. rewrite string_length_app. cbn. lia.
Qed.

(** Chain names fit the filter and identify the container: both names of a
    container are at most 28 characters, an outbound chain never shares its
    name with an inbound one, and two containers share a chain name only if
    the first eighty bits of their digests agree. *)
Theorem chain_names_identify (a b : string) :
  Z.of_nat (String.length (chain_name_for sha256 a)) <= CHAIN_NAME_MAX_LEN /\
  Z.of_nat (String.length (ingress_chain_name_for sha256 a)) <= CHAIN_NAME_MAX_LEN /\
  chain_name_for sha256 a <> ingress_chain_name_for sha256 b /\
  (chain_name_for sha256 a = chain_name_for sha256 b \/
   ingress_chain_name_for sha256 a = ingress_chain_name_for sha256 b ->
   take CHAIN_HASH_BYTES (sha256 a) = take CHAIN_HASH_BYTES (sha256 b)).
Proof.
  unfold chain_name_for, ingress_chain_name_for.
  destruct (digest_prefix a) as [Ba La], (digest_prefix b) as [Bb Lb].
  destruct (base32_lower_hash _ Ba La) as [Ha Va], (base32_lower_hash _ Bb Lb) as [Hb Vb].
  destruct (chain_name_shape "MXC-" CHAIN_SLUG_LEN a) as (fa & -> & Hfa).
  destruct (chain_name_shape "MXCI-" INGRESS_CHAIN_SLUG_LEN a) as (ga & -> & Hga).
  destruct (chain_name_shape "MXC-" CHAIN_SLUG_LEN b) as (fb & -> & Hfb).
  destruct (chain_name_shape "MXCI-" INGRESS_CHAIN_SLUG_LEN b) as (gb & -> & Hgb).
  rewrite !string_length_app, Ha. cbn [String.length].
  unfold CHAIN_SLUG_LEN, INGRESS_CHAIN_SLUG_LEN, CHAIN_NAME_MAX_LEN in *.
  assert (Hhash : base32_lower (take CHAIN_HASH_BYTES (sha256 a)) =
    base32_lower (take CHAIN_HASH_BYTES (sha256 b)) ->
    take CHAIN_HASH_BYTES (sha256 a) = take CHAIN_HASH_BYTES (sha256 b)).
  { intros E. eapply bytes_value_inj; [done|done|by rewrite La, Lb|].
    unfold bytes_value in *. rewrite <- Va, <- Vb. by rewrite E. }
  split_and!; [lia..| |].
  - by autorewrite with text.
  - intros [E|E]; apply Hhash; rewrite <- !string_app_assoc in E;
      (eapply string_app_inj_tail; [|exact E]); by rewrite Ha, Hb.
Qed.

End DigestLaws.

(** A digest that satisfies the law, for evaluation. *)
Lemma chain_names_identify_witness :
  let digest (s : string) := replicate 32 (Z.of_nat (String.length s) mod 256) in
  chain_name_for digest "web" <> ingress_chain_name_for digest "web" /\
  chain_name_for digest "web" = "MXC-web-ambqgaydambqgayd".
Proof.
  intros digest. split; [|vm_compute; reflexivity].
  apply (chain_names_identify digest). intros s. unfold digest. split; [apply length_replicate|].
  apply Forall_replicate, Z.mod_pos_bound. lia.
Defined.

End Names.
