(* ===== verification/LxcEgress.v ===== *)
(** * LXC egress rules

    The pure part of [backends/lxc/common/network_iptables.rs]: planning, the
    lowering of an egress policy to firewall entries, the argument vectors
    handed to [iptables] and [ip6tables], and the chain names.  The central
    theorem reads the vectors back and shows that the chain decides every packet
    as the policy does.  Log lines are not modelled. *)

From Stdlib Require Import Ascii.
From S2P Require Import Prelude NetText Models NetworkBlocks Netfilter EgressSpec.

Module Lxc.

Import Blocks (IpFamily, FamilyV4, FamilyV6).

(** ** Planning *)

Inductive NetworkPlan : Type := Isolated | Filtered.
#[global] Instance NetworkPlan_eq_dec : EqDecision NetworkPlan.
Proof. solve_decision. Defined.

Definition omits_interface (p : NetworkPlan) : bool := bool_decide (p = Isolated).
Definition installs_firewall (p : NetworkPlan) : bool := bool_decide (p = Filtered).

Definition plan_network (policy : ContainerPolicy) : NetworkPlan :=
  let egress_permits_nothing :=
    match network_egress policy with
    | Some egress => bool_decide (egress_default egress = Deny) && is_empty (allow egress)
    | None => true
    end in
  let ingress_permits_nothing :=
    match network_ingress policy with
    | Some ingress =>
        bool_decide (ingress_default ingress = Deny) && bool_decide (host_loopback ingress = Deny)
    | None => true
    end in
  if egress_permits_nothing && ingress_permits_nothing then Isolated else Filtered.

Definition needs_network (policy : ContainerPolicy) : bool :=
  negb (omits_interface (plan_network policy)).

(** ** Entries *)

Inductive RuleAction : Type := RuleAllow | RuleDeny.
#[global] Instance RuleAction_eq_dec : EqDecision RuleAction.
Proof. solve_decision. Defined.

Inductive TransportProtocol : Type := TransportTcp | TransportUdp.

Definition as_arg (p : TransportProtocol) : string :=
  match p with TransportTcp => "tcp" | TransportUdp => "udp" end.

Record PortRange : Type := MkRange { start : Z; stop : Z }.

Inductive RuleMatch : Type :=
| AnyTraffic
| MatchIcmp
| Transport (protocol : TransportProtocol) (ports : option PortRange).

Record EgressEntry : Type := MkEntry {
  destination : NetworkCidr;
  action : RuleAction;
  matching : RuleMatch;
}.

Record FirewallRuleArgs : Type := MkArgs {
  ipv4 : list (list string);
  ipv6 : list (list string);
}.

Definition extend (self other : FirewallRuleArgs) : FirewallRuleArgs :=
  MkArgs (ipv4 self ++ ipv4 other) (ipv6 self ++ ipv6 other).

(** The refusals of the lowering. *)
Inductive EgressError : Type :=
| PeerRefused (e : Blocks.BlockError)
| TooManyEntries
| UnresolvedDeny (host : string)
| DenyUnderCatchAll (unresolved_denies catch_all_allows : list string).

(** ** Lowering *)

Definition lower_port_selector (p : NetworkPort) : list RuleMatch :=
  let ports := (fun start => MkRange start (default start (end_port p))) <$> port p in
  match protocol p with
  | Icmp => [MatchIcmp]
  | Tcp => [Transport TransportTcp ports]
  | Udp => [Transport TransportUdp ports]
  | AnyProtocol =>
      match ports with
      | None => [AnyTraffic]
      | Some _ => [Transport TransportTcp ports; Transport TransportUdp ports]
      end
  end.

Definition lower_port_selectors (ports : list NetworkPort) : list RuleMatch :=
  if is_empty ports then [AnyTraffic] else ports ≫= lower_port_selector.

Definition every_destination_peers : list NetworkPeer :=
  [MkPeer (MkCidr (V4 0) 0) []; MkPeer (MkCidr (V6 0) 0) []].

Definition peer_destinations (peer : NetworkPeer) : result EgressError (list NetworkCidr) :=
  match Blocks.peer_blocks peer with
  | Err e => Err (PeerRefused e)
  | Ok None => Ok [cidr peer]
  | Ok (Some (family, blocks)) =>
      Ok ((fun block => MkCidr (Blocks.block_address block family) (Blocks.prefix block)) <$> blocks)
  end.

(** One turn of the innermost loop: an entry is pushed and charged. *)
Definition push_entry (entry : EgressEntry) (st : list EgressEntry * Z)
  : result EgressError (list EgressEntry * Z) :=
  let '(entries, remaining) := st in
  if remaining =? 0 then Err TooManyEntries else Ok (entries ++ [entry], remaining - 1).

Definition lower_rule (rule : NetworkRule) (action : RuleAction) (st : list EgressEntry * Z)
  : result EgressError (list EgressEntry * Z) :=
  let matches := lower_port_selectors (ports rule) in
  let peers := if is_empty (to rule) then every_destination_peers else to rule in
  foldM (fun peer st =>
    destinations ← peer_destinations peer;
    foldM (fun destination st =>
      foldM (fun matching st => push_entry (MkEntry destination action matching) st) matches st)
      destinations st) peers st.

Definition lower_directional_egress (egress : NetworkEgressPolicy)
  : result EgressError (list EgressEntry) :=
  st ← foldM (fun rule st => lower_rule rule RuleDeny st) (deny egress) ([], Blocks.MAX_EGRESS_ENTRIES);
  st ← foldM (fun rule st => lower_rule rule RuleAllow st) (allow egress) st;
  Ok st.1.

Definition lower_egress (policy : ContainerPolicy) : result EgressError (list EgressEntry) :=
  match network_egress policy with
  | Some egress => lower_directional_egress egress
  | None => Ok []
  end.

Definition validate_egress_lowering (policy : ContainerPolicy) : result EgressError unit :=
  (fun _ => tt) <$> lower_egress policy.

Definition effective_default_policy (policy : ContainerPolicy) : NetworkAction :=
  match network_egress policy with Some egress => egress_default egress | None => Deny end.

(** ** Argument vectors *)

Definition rule_action_arg (a : RuleAction) : string :=
  match a with RuleAllow => "ACCEPT" | RuleDeny => "DROP" end.

Definition build_loopback_accept_rule_args (chain_name : string) : list string :=
  ["-A"; chain_name; "-o"; "lo"; "-j"; "ACCEPT"].

Definition build_base_chain_rule_args (chain_name : string) : list (list string) :=
  [build_loopback_accept_rule_args chain_name;
   ["-A"; chain_name; "-m"; "conntrack"; "--ctstate"; "ESTABLISHED,RELATED"; "-j"; "ACCEPT"]].

Definition default_policy_action (a : NetworkAction) : string :=
  match a with Deny => "DROP" | Allow => "ACCEPT" end.

Definition build_default_policy_rule_arg (chain_name : string) (a : NetworkAction) : list string :=
  ["-A"; chain_name; "-j"; default_policy_action a].

Definition port_range_arg (range : PortRange) : string :=
  if start range =? stop range then dec (start range)
  else dec (start range) +:+ ":" +:+ dec (stop range).

Definition build_match_args (matching : RuleMatch) (family : IpFamily) : list string :=
  match matching with
  | AnyTraffic => []
  | MatchIcmp => ["-p"; match family with FamilyV4 => "icmp" | FamilyV6 => "icmpv6" end]
  | Transport protocol ports =>
      ["-p"; as_arg protocol] ++
      match ports with Some range => ["--dport"; port_range_arg range] | None => [] end
  end.

Definition build_single_rule_args (chain_name destination : string) (action : RuleAction)
    (matching : RuleMatch) (family : IpFamily) : list string :=
  ["-A"; chain_name; "-d"; destination] ++ build_match_args matching family ++
  ["-j"; rule_action_arg action].

Definition build_destination_rule_args (chain_name : string) (destination : NetworkCidr)
    (action : RuleAction) (matching : RuleMatch) : FirewallRuleArgs :=
  match Blocks.resolve destination with
  | None => MkArgs [] []
  | Some (family, block) =>
      let destination :=
        ip_text (Blocks.block_address block family) +:+ "/" +:+ dec (Blocks.prefix block) in
      let rule := build_single_rule_args chain_name destination action matching family in
      match family with FamilyV4 => MkArgs [rule] [] | FamilyV6 => MkArgs [] [rule] end
  end.

(** The loop of [build_policy_rules_logged]: the rules so far, the deny
    destinations that resolve to nothing and the allows that accept
    everything. *)
Record build_state : Type := MkBuild {
  args : FirewallRuleArgs;
  unresolved_denies : list string;
  catch_all_allows : list string;
}.

Definition is_any_traffic (m : RuleMatch) : bool :=
  match m with AnyTraffic => true | _ => false end.

Definition build_entry (chain_name : string) (default_permits : bool) (entry : EgressEntry)
    (st : build_state) : result EgressError build_state :=
  let host := Blocks.cidr_text (destination entry) in
  let unresolved := bool_decide (Blocks.resolve (destination entry) = None) in
  let is_deny := bool_decide (action entry = RuleDeny) in
  if unresolved && default_permits && is_deny then Err (UnresolvedDeny host)
  else
    let catch_all := negb unresolved && negb is_deny && is_any_traffic (matching entry) &&
      (prefix_length (destination entry) =? 0) in
    Ok (MkBuild
      (extend (args st)
         (build_destination_rule_args chain_name (destination entry) (action entry) (matching entry)))
      (if unresolved && is_deny then unresolved_denies st ++ [host] else unresolved_denies st)
      (if catch_all then catch_all_allows st ++ [host] else catch_all_allows st)).

Definition build_policy_rules_logged (chain_name : string) (policy : ContainerPolicy)
  : result EgressError FirewallRuleArgs :=
  let default_permits := bool_decide (effective_default_policy policy = Allow) in
  entries ← lower_egress policy;
  st ← foldM (build_entry chain_name default_permits) entries (MkBuild (MkArgs [] []) [] []);
  if negb (is_empty (unresolved_denies st)) && negb (is_empty (catch_all_allows st)) then
    Err (DenyUnderCatchAll (unresolved_denies st) (catch_all_allows st))
  else Ok (args st).

Definition family_args (a : FirewallRuleArgs) (f : IpFamily) : list (list string) :=
  match f with FamilyV4 => ipv4 a | FamilyV6 => ipv6 a end.

Example lowering_example :
  build_policy_rules_logged "C"
    (with_network ContainerPolicy_default
      (Some (MkEgress Allow [] [MkRule [MkPeer (MkCidr (V4 0x0a000000) 8) []] [MkPort AnyProtocol (Some 53) None]]))
      None None ProxyConfig_default true true false) =
  Ok (MkArgs
    [["-A"; "C"; "-d"; "10.0.0.0/8"; "-p"; "tcp"; "--dport"; "53"; "-j"; "DROP"];
     ["-A"; "C"; "-d"; "10.0.0.0/8"; "-p"; "udp"; "--dport"; "53"; "-j"; "DROP"]] []).
Proof. vm_compute. done. Qed.

(** ** The lowering and its budget *)

(** What a rule becomes, without the budget. *)
Definition rule_peers (rule : NetworkRule) : list NetworkPeer :=
  if is_empty (to rule) then every_destination_peers else to rule.

Definition cross (a : RuleAction) (ms : list RuleMatch) (ds : list NetworkCidr) : list EgressEntry :=
  ds ≫= fun d => (fun m => MkEntry d a m) <$> ms.

Definition expand_peer (a : RuleAction) (ms : list RuleMatch) (peer : NetworkPeer)
  : result EgressError (list EgressEntry) :=
  cross a ms <$> peer_destinations peer.

Definition expand_rule (a : RuleAction) (rule : NetworkRule) : result EgressError (list EgressEntry) :=
  mjoin <$> mapM (expand_peer a (lower_port_selectors (ports rule))) (rule_peers rule).

Definition expand_rules (a : RuleAction) (rules : list NetworkRule)
  : result EgressError (list EgressEntry) :=
  mjoin <$> mapM (expand_rule a) rules.

Definition expand_egress (e : NetworkEgressPolicy) : result EgressError (list EgressEntry) :=
  denies ← expand_rules RuleDeny (deny e);
  allows ← expand_rules RuleAllow (allow e);
  Ok (denies ++ allows).

Lemma push_entries l es r st :
  0 <= r -> foldM push_entry l (es, r) = Ok st <->
  st = (es ++ l, r - Z.of_nat (length l)) /\ Z.of_nat (length l) <= r.
Proof.
  revert es r. induction l as [|e l IH]; intros es r Hr; cbn [foldM].
  - rewrite app_nil_r, Z.sub_0_r. cbn. split; [intros [= <-]|intros [-> _]]; auto with lia.
  - cbn [push_entry]. destruct (Z.eqb_spec r 0) as [->|Hne].
    + cbn. split; [done|]. intros [_ ?]. lia.
    + cbn [mbind result_bind]. rewrite IH by lia. cbn [length].
      rewrite <- app_assoc. cbn [app]. rewrite Nat2Z.inj_succ.
      replace (r - 1 - Z.of_nat (length l)) with (r - Z.succ (Z.of_nat (length l))) by lia.
      split; intros [-> ?]; split; (done || lia).
Qed.

(** A loop body that appends what [g] expands its item to, and charges it. *)
Definition charges {A} (body : A -> list EgressEntry * Z -> result EgressError (list EgressEntry * Z))
    (g : A -> result EgressError (list EgressEntry)) : Prop :=
  forall a es r st, 0 <= r -> body a (es, r) = Ok st <->
    exists xs, g a = Ok xs /\ st = (es ++ xs, r - Z.of_nat (length xs)) /\ Z.of_nat (length xs) <= r.

Lemma charges_foldM {A} body (g : A -> result EgressError (list EgressEntry)) :
  charges body g -> charges (foldM body) (fun l => mjoin <$> mapM g l).
Proof.
  intros Hb l. induction l as [|a l IH]; intros es r st Hr.
  - cbn. split.
    + intros [= <-]. exists []. cbn. rewrite app_nil_r, Z.sub_0_r. auto.
    + intros (xs & [= <-] & -> & _). cbn. by rewrite app_nil_r, Z.sub_0_r.
  - cbn [foldM mapM]. rewrite bind_Ok. split.
    + intros ([es1 r1] & (xs & Hx & [= -> ->] & Hl1)%Hb & H); [|done].
      apply IH in H as (ys & (xss & Hm & ->)%fmap_Ok & -> & Hl2); [|lia].
      exists (xs ++ mjoin xss). rewrite Hx. cbn [mbind result_bind]. rewrite Hm.
      cbn [mbind result_bind fmap result_fmap mret result_ret].
      rewrite length_app, Nat2Z.inj_add, app_assoc, Z.sub_add_distr.
      split_and!; [done|done|lia].
    + intros (ys & (xss & Hm & ->)%fmap_Ok & -> & Hl).
      apply bind_Ok in Hm as (xs & Hx & (yss & Hm & [= <-])%bind_Ok).
      change (mjoin (xs :: yss)) with (xs ++ mjoin yss) in *.
      rewrite length_app, Nat2Z.inj_add in *.
      exists (es ++ xs, r - Z.of_nat (length xs)). rewrite (Hb a), (IH _ _ _) by lia. split.
      * exists xs. split_and!; [done|done|lia].
      * exists (mjoin yss). rewrite Hm, app_assoc, Z.sub_add_distr.
        split_and!; [done|done|lia].
Qed.

Lemma charges_push a ms : charges
  (fun ds st => foldM (fun d st => foldM (fun m st => push_entry (MkEntry d a m) st) ms st) ds st)
  (fun ds => Ok (cross a ms ds)).
Proof.
  intros ds es r st Hr.
  assert (E : foldM (fun d st => foldM (fun m st => push_entry (MkEntry d a m) st) ms st) ds (es, r) =
    foldM push_entry (cross a ms ds) (es, r)).
  { unfold cross. rewrite <- foldM_bind. apply foldM_ext. intros d s. by rewrite foldM_fmap. }
  rewrite E, push_entries by done. naive_solver.
Qed.

Lemma charges_rule a : charges (fun rule st => lower_rule rule a st) (expand_rule a).
Proof.
  intros rule. unfold lower_rule, expand_rule, rule_peers.
  apply (charges_foldM (fun peer st => ds ← peer_destinations peer; _)).
  intros peer es r st Hr. unfold expand_peer. destruct (peer_destinations peer) as [ds|e]; cbn.
  - rewrite (charges_push a (lower_port_selectors (ports rule)) ds es r st Hr). naive_solver.
  - naive_solver.
Qed.

Lemma lower_directional_egress_Ok e entries :
  lower_directional_egress e = Ok entries <->
  expand_egress e = Ok entries /\ Z.of_nat (length entries) <= Blocks.MAX_EGRESS_ENTRIES.
Proof.
  unfold lower_directional_egress, expand_egress.
  pose proof (charges_foldM _ _ (charges_rule RuleDeny)) as Hd.
  pose proof (charges_foldM _ _ (charges_rule RuleAllow)) as Ha.
  fold (expand_rules RuleDeny) in Hd. fold (expand_rules RuleAllow) in Ha. split.
  - intros H. apply bind_Ok in H as (st & (ds & Eds & -> & Hl1)%Hd & H); [|done].
    apply bind_Ok in H as (st & (xs & Exs & -> & Hl2)%Ha & [= <-]); [|lia]. cbn [fst app] in *.
    rewrite Eds. cbn [mbind result_bind]. rewrite Exs. cbn [mbind result_bind].
    rewrite length_app. split; [done|lia].
  - intros [H Hl]. apply bind_Ok in H as (ds & Eds & (xs & Exs & [= <-])%bind_Ok).
    rewrite length_app in Hl.
    assert (E1 : foldM (fun rule st => lower_rule rule RuleDeny st) (deny e)
      ([], Blocks.MAX_EGRESS_ENTRIES) = Ok (ds, Blocks.MAX_EGRESS_ENTRIES - Z.of_nat (length ds)))
      by (apply Hd; [done|]; exists ds; auto with lia).
    rewrite E1. cbn [mbind result_bind].
    assert (E2 : foldM (fun rule st => lower_rule rule RuleAllow st) (allow e)
      (ds, Blocks.MAX_EGRESS_ENTRIES - Z.of_nat (length ds)) =
      Ok (ds ++ xs, Blocks.MAX_EGRESS_ENTRIES - Z.of_nat (length ds) - Z.of_nat (length xs)))
      by (apply Ha; [lia|]; exists xs; auto with lia).
    by rewrite E2.
Qed.

(** ** What an entry selects *)

Definition transport_protocol (p : TransportProtocol) : Filter.Protocol :=
  match p with TransportTcp => Filter.ProtoTcp | TransportUdp => Filter.ProtoUdp end.

Definition match_selects (m : RuleMatch) (pkt : Filter.packet) : bool :=
  match m with
  | AnyTraffic => true
  | MatchIcmp => bool_decide (Filter.transport pkt = Filter.ProtoIcmp)
  | Transport p ports =>
      bool_decide (Filter.transport pkt = transport_protocol p) &&
      match ports with
      | None => true
      | Some r => (start r <=? Filter.destination_port pkt) && (Filter.destination_port pkt <=? stop r)
      end
  end.

Definition match_ok (m : RuleMatch) : Prop :=
  match m with Transport _ (Some r) => 0 <= start r <= stop r | _ => True end.

Definition block_selects (f : IpFamily) (b : Blocks.AddressBlock) (pkt : Filter.packet) : bool :=
  let host := Blocks.width f - Blocks.prefix b in
  Filter.destination pkt / 2 ^ host =? Blocks.base b / 2 ^ host.

Definition destination_selects (d : NetworkCidr) (pkt : Filter.packet) : bool :=
  match Blocks.resolve d with
  | Some (f, b) => bool_decide (f = Filter.family pkt) && block_selects f b pkt
  | None => false
  end.

Definition entry_selects (e : EgressEntry) (pkt : Filter.packet) : bool :=
  destination_selects (destination e) pkt && match_selects (matching e) pkt.

Definition entry_ok (e : EgressEntry) : Prop := cidr_wf (destination e) /\ match_ok (matching e).

(** The rule an entry appends in a family, without the chain name. *)
Definition entry_spec (f : IpFamily) (e : EgressEntry) : list (list string) :=
  match Blocks.resolve (destination e) with
  | Some (g, b) =>
      if decide (g = f) then
        [["-d"; ip_text (Blocks.block_address b g) +:+ "/" +:+ dec (Blocks.prefix b)] ++
         build_match_args (matching e) g ++ ["-j"; rule_action_arg (action e)]]
      else []
  | None => []
  end.

Lemma entry_args chain f e :
  family_args (build_destination_rule_args chain (destination e) (action e) (matching e)) f =
  (fun s => "-A" :: chain :: s) <$> entry_spec f e.
Proof.
  unfold build_destination_rule_args, entry_spec, build_single_rule_args.
  destruct (Blocks.resolve (destination e)) as [[[] b]|]; destruct f; try case_decide; done.
Qed.

Lemma port_range_reads r :
  0 <= start r <= stop r -> Filter.read_ports (port_range_arg r) = Some (start r, stop r).
Proof.
  intros Hr. unfold port_range_arg. destruct (Z.eqb_spec (start r) (stop r)) as [E|E].
  - rewrite <- E. apply Filter.read_ports_single. lia.
  - by apply Filter.read_ports_range.
Qed.

Lemma match_args_read m pkt target :
  match_ok m ->
  Filter.rule_matches (build_match_args m (Filter.family pkt) ++ ["-j"; target]) pkt =
    Some (match_selects m pkt, target).
Proof.
  intros Hm. destruct m as [| |p ports]; [done| |].
  - cbn [build_match_args app]. rewrite Filter.rule_matches_option by done.
    assert (Hp : Filter.option_matches "-p"
      match Filter.family pkt with FamilyV4 => "icmp" | FamilyV6 => "icmpv6" end pkt =
      Some (bool_decide (Filter.transport pkt = Filter.ProtoIcmp)))
      by (unfold Filter.option_matches; cbn; by destruct (Filter.family pkt)).
    rewrite Hp. cbn [mbind option_bind]. rewrite Filter.rule_matches_target.
    cbn [mbind option_bind match_selects]. by rewrite andb_true_r.
  - cbn [build_match_args app]. rewrite Filter.rule_matches_option by done.
    assert (Hp : Filter.option_matches "-p" (as_arg p) pkt =
      Some (bool_decide (Filter.transport pkt = transport_protocol p))) by (by destruct p).
    rewrite Hp. destruct ports as [r|]; cbn [app match_selects].
    + rewrite Filter.rule_matches_option, Filter.rule_matches_target by done.
      unfold Filter.option_matches. rewrite !decide_False, decide_True by done.
      rewrite port_range_reads by done. cbn. unfold Filter.has_ports.
      destruct p; cbn; repeat case_bool_decide; cbn; rewrite ?andb_true_r; congruence.
    + rewrite Filter.rule_matches_target. cbn. by rewrite andb_true_r.
Qed.

Lemma resolve_block_ok c f b :
  cidr_wf c -> Blocks.resolve c = Some (f, b) ->
  ip_wf (Blocks.block_address b f) /\ ip_bits (Blocks.block_address b f) = Blocks.base b /\
  0 <= Blocks.prefix b <= Blocks.width f.
Proof.
  intros Hc H. destruct (Blocks.resolve_spec c f b Hc H) as [W _].
  pose proof (Blocks.size_pos _ b W) as Hs. destruct W as (Hp & Hb & _ & Htop).
  destruct f; cbn [ip_wf ip_bits Blocks.block_address Blocks.width] in *; [rewrite wrap_small by lia|];
    split_and!; (done || lia).
Qed.

Lemma entry_spec_reads f e pkt :
  entry_ok e -> Filter.family pkt = f ->
  Filter.chain_verdict (entry_spec f e) pkt =
  Some (if entry_selects e pkt
        then match action e with RuleAllow => Filter.Accept | RuleDeny => Filter.Drop end
        else Filter.Return).
Proof.
  intros [Hc Hm] Hf. unfold entry_spec, entry_selects, destination_selects.
  destruct (Blocks.resolve (destination e)) as [[g b]|] eqn:E; [|done].
  destruct (resolve_block_ok _ _ _ Hc E) as (Hip & Hbits & Hp).
  destruct (decide (g = f)) as [->|Hne].
  2:{ rewrite bool_decide_eq_false_2 by congruence. done. }
  subst f. rewrite bool_decide_eq_true_2 by done. cbn [Filter.chain_verdict app].
  rewrite Filter.rule_matches_option, match_args_read by done.
  unfold Filter.option_matches. rewrite !decide_False, decide_True by done.
  rewrite Filter.read_network_text by (done || lia). cbn [mbind option_bind].
  assert (Hn : Filter.in_network pkt (Blocks.block_address b (Filter.family pkt), Blocks.prefix b) =
    Some (block_selects (Filter.family pkt) b pkt)).
  { unfold Filter.in_network, block_selects. cbn [fst snd].
    destruct (Filter.family pkt) eqn:Ef; cbn [ip_bits Blocks.block_address Blocks.width] in *;
      rewrite ?Hbits; (case_match; [lia|done]). }
  rewrite Hn. cbn. destruct (action e); cbn; by destruct (_ && _).
Qed.

(** ** The programmed rules *)

Lemma family_args_extend a b f :
  family_args (extend a b) f = family_args a f ++ family_args b f.
Proof. by destruct f. Qed.

Lemma build_entries_args chain d entries st st' f :
  foldM (build_entry chain d) entries st = Ok st' ->
  family_args (args st') f =
    family_args (args st) f ++ ((fun s => "-A" :: chain :: s) <$> (entries ≫= entry_spec f)).
Proof.
  revert st. induction entries as [|e entries IH]; intros st H.
  - injection H as <-. cbn. by rewrite app_nil_r.
  - cbn in H. apply bind_Ok in H as (st1 & H1 & H). rewrite (IH _ H). unfold build_entry in H1.
    destruct (_ && _ && _) in H1; [done|]. injection H1 as <-. cbn [args].
    rewrite family_args_extend, entry_args, <- app_assoc. cbn. by rewrite fmap_app.
Qed.

Lemma appended_chain_specs chain specs :
  Filter.appended_chain chain ((fun s => "-A" :: chain :: s) <$> specs) = Some specs.
Proof.
  unfold Filter.appended_chain. apply mapM_Some. induction specs as [|s specs IH]; constructor; [|done].
  cbn. by rewrite decide_True.
Qed.

Definition action_verdict (a : RuleAction) : Filter.verdict :=
  match a with RuleAllow => Filter.Accept | RuleDeny => Filter.Drop end.

(** Entries of one action decide by whether one of them selects the packet. *)
Lemma entries_verdict f entries a pkt :
  Forall entry_ok entries -> Forall (fun e => action e = a) entries -> Filter.family pkt = f ->
  Filter.chain_verdict (entries ≫= entry_spec f) pkt =
  Some (if existsb (fun e => entry_selects e pkt) entries then action_verdict a else Filter.Return).
Proof.
  intros Hok Ha Hf. induction entries as [|e entries IH]; [done|].
  inversion Hok; inversion Ha; subst. cbn [mbind list_bind].
  rewrite Filter.chain_verdict_app, entry_spec_reads, IH by done. cbn.
  destruct (entry_selects e pkt); cbn; [|done]. by destruct (action e).
Qed.

(** ** Entries against the policy *)

Lemma lower_port_selector_selects p pkt :
  existsb (fun m => match_selects m pkt) (lower_port_selector p) = Egress.selector_selects p pkt.
Proof.
  destruct p as [[] [s|] e]; cbn; unfold Egress.port_selects, Filter.has_ports; cbn;
    destruct (Filter.transport pkt); cbn; rewrite ?orb_false_r; done.
Qed.

Lemma lower_port_selectors_spec ps pkt :
  (exists m, m ∈ lower_port_selectors ps /\ match_selects m pkt = true) <->
  ps = [] \/ exists p, p ∈ ps /\ Egress.selector_selects p pkt = true.
Proof.
  unfold lower_port_selectors. destruct ps as [|p0 ps]; cbn [is_empty].
  { split; [by left|]. intros _. exists AnyTraffic. split; [set_solver|done]. }
  setoid_rewrite list_elem_of_bind. setoid_rewrite <- lower_port_selector_selects.
  setoid_rewrite existsb_elem. naive_solver.
Qed.

Lemma lower_port_selectors_ok ps : Forall selector_ok ps -> Forall match_ok (lower_port_selectors ps).
Proof.
  intros Hps. unfold lower_port_selectors. destruct (is_empty ps); [by repeat constructor|].
  apply Forall_forall. intros m (p & Hm & Hp)%list_elem_of_bind.
  rewrite Forall_forall in Hps. destruct (Hps p Hp) as (Hs & He & _).
  assert (Hr : forall s, port p = Some s -> 0 <= s <= default s (end_port p)).
  { intros s E. specialize (Hs s E). destruct (end_port p) as [e|]; cbn; [|lia].
    destruct (He e eq_refl) as (s' & ? & ?). simplify_eq. lia. }
  unfold lower_port_selector in Hm. destruct (port p) as [s|]; cbn in Hm;
    [specialize (Hr s eq_refl)|]; destruct (protocol p); set_solver by done.
Qed.

Lemma peer_destinations_spec peer ds pkt :
  peer_wf peer -> Filter.packet_wf pkt -> peer_destinations peer = Ok ds ->
  Forall cidr_wf ds /\
  ((exists d, d ∈ ds /\ destination_selects d pkt = true) <-> Egress.peer_selects peer pkt).
Proof.
  intros Hp Hpkt H. unfold peer_destinations in H. unfold Egress.peer_selects.
  destruct (Blocks.peer_blocks peer) as [[[f bs]|]|] eqn:E; [| |done]; injection H as <-.
  - destruct (Blocks.peer_blocks_covers _ _ _ Hp E) as (_ & (b0 & Hr) & Hcov).
    rewrite (Egress.resolve_family _ _ _ Hr).
    assert (Hb : forall b, b ∈ bs -> Blocks.block_wf (Blocks.width f) b /\
      Blocks.resolve (MkCidr (Blocks.block_address b f) (Blocks.prefix b)) = Some (f, b))
      by (intros b Hin; by eapply Blocks.peer_blocks_resolve).
    split.
    + apply Forall_fmap, Forall_forall. intros b Hin. destruct (Hb b Hin) as [(Hl & Hb0 & _ & Htop) _].
      assert (0 < Blocks.size (Blocks.width f) b) by (apply pow2_pos; unfold Blocks.host; lia).
      split; cbn; [|unfold u8_max; destruct f; cbn in *; lia].
      destruct f; cbn [ip_wf Blocks.block_address Blocks.width] in *; [rewrite wrap_small by lia|]; lia.
    + setoid_rewrite list_elem_of_fmap. split.
      * intros (d & (b & -> & Hin) & Hs). destruct (Hb b Hin) as [W Hres].
        unfold destination_selects in Hs. rewrite Hres in Hs.
        apply andb_true_iff in Hs as [->%bool_decide_eq_true Hs]. split; [done|].
        apply Hcov; [done|]. exists b. split; [done|].
        apply Blocks.mem_div; [apply Blocks.width_bounds|done|]. by apply Z.eqb_eq in Hs.
      * intros [-> Hc]. apply Hcov in Hc as (b & Hin & Hm); [|done]. destruct (Hb b Hin) as [W Hres].
        eexists. split; [by exists b|]. unfold destination_selects. rewrite Hres.
        rewrite bool_decide_eq_true_2 by done. apply Z.eqb_eq.
        apply Blocks.mem_div in Hm; [done|apply Blocks.width_bounds|done].
  - apply Blocks.peer_blocks_None in E. split; [constructor; [apply Hp|constructor]|].
    setoid_rewrite list_elem_of_singleton. split.
    + intros (d & -> & Hs). unfold destination_selects in Hs. by rewrite E in Hs.
    + intros [<- [Hc _]]. by apply Egress.resolve_None_covers in Hc; [|apply Hp|].
Qed.

Lemma every_destination_selects pkt :
  Filter.packet_wf pkt -> exists p, p ∈ every_destination_peers /\ Egress.peer_selects p pkt.
Proof.
  unfold Filter.packet_wf. intros Hpkt. destruct (Filter.family pkt) eqn:E;
    [exists (MkPeer (MkCidr (V4 0) 0) [])|exists (MkPeer (MkCidr (V6 0) 0) [])];
    (split; [set_solver|]); unfold Egress.peer_selects; rewrite E; (split; [done|]);
    (split; [|set_solver]); cbn [cidr Blocks.covers Blocks.names address prefix_length Blocks.width] in *;
    [left|]; (split; [lia|]); rewrite !Z.div_small by lia; done.
Qed.

Lemma rule_peers_wf rule : rule_wf rule -> Forall peer_wf (rule_peers rule).
Proof.
  intros [Hp _]. unfold rule_peers. destruct (is_empty (to rule)); [|done].
  repeat (constructor; [split; [|constructor]; split; cbn; unfold u8_max; lia|]). constructor.
Qed.

Lemma rule_peers_select rule pkt :
  Filter.packet_wf pkt ->
  (exists p, p ∈ rule_peers rule /\ Egress.peer_selects p pkt) <->
  to rule = [] \/ exists p, p ∈ to rule /\ Egress.peer_selects p pkt.
Proof.
  intros Hpkt. unfold rule_peers. destruct (to rule) as [|p ps] eqn:E; cbn [is_empty].
  - split; [by left|]. intros _. by apply every_destination_selects.
  - naive_solver.
Qed.

Lemma expand_rule_spec a rule es pkt :
  rule_wf rule -> Forall selector_ok (ports rule) -> Filter.packet_wf pkt ->
  expand_rule a rule = Ok es ->
  Forall (fun e => entry_ok e /\ action e = a) es /\
  ((exists e, e ∈ es /\ entry_selects e pkt = true) <-> Egress.rule_selects rule pkt).
Proof.
  intros Hw Hsel Hpkt H. apply mapM_join_elem in H as [Hall Hes].
  pose proof (rule_peers_wf rule Hw) as Hpw. rewrite Forall_forall in Hpw.
  pose proof (lower_port_selectors_ok _ Hsel) as Hm. rewrite Forall_forall in Hm.
  assert (Hex : forall peer bs, expand_peer a (lower_port_selectors (ports rule)) peer = Ok bs ->
    exists ds, peer_destinations peer = Ok ds /\
      forall e, e ∈ bs <-> exists d m, d ∈ ds /\ m ∈ lower_port_selectors (ports rule) /\ e = MkEntry d a m).
  { intros peer bs (ds & Hds & ->)%fmap_Ok. exists ds. split; [done|]. intros e. unfold cross.
    rewrite list_elem_of_bind. setoid_rewrite list_elem_of_fmap. naive_solver. }
  split.
  - apply Forall_forall. intros e (peer & bs & Hpeer & Hbs & He)%Hes.
    apply Hex in Hbs as (ds & Hds & Hbs). apply Hbs in He as (d & m & Hd & Hmm & ->).
    destruct (peer_destinations_spec _ _ pkt (Hpw _ Hpeer) Hpkt Hds) as [Hwf _].
    rewrite Forall_forall in Hwf. split; [split; [by apply Hwf|by apply Hm]|done].
  - unfold Egress.rule_selects.
    rewrite <- rule_peers_select, <- lower_port_selectors_spec by done. split.
    + intros (e & (peer & bs & Hpeer & Hbs & He)%Hes & Hs).
      apply Hex in Hbs as (ds & Hds & Hbs). apply Hbs in He as (d & m & Hd & Hmm & ->).
      destruct (peer_destinations_spec _ _ pkt (Hpw _ Hpeer) Hpkt Hds) as [_ Hsd].
      apply andb_true_iff in Hs as [Hs1 Hs2]. split; [|by exists m].
      exists peer. split; [done|]. apply Hsd. by exists d.
    + intros [(peer & Hpeer & Hps) (m & Hmm & Hms)]. destruct (Hall peer Hpeer) as [bs Hbs].
      destruct (Hex _ _ Hbs) as (ds & Hds & Hin).
      destruct (peer_destinations_spec _ _ pkt (Hpw _ Hpeer) Hpkt Hds) as [_ Hsd].
      apply Hsd in Hps as (d & Hd & Hsel'). exists (MkEntry d a m). split.
      * apply Hes. exists peer, bs. split_and!; [done|done|]. apply Hin. eauto 10.
      * unfold entry_selects. cbn. by rewrite Hsel', Hms.
Qed.

Lemma expand_rules_spec a rules es pkt :
  Egress.rules_ok rules -> Filter.packet_wf pkt -> expand_rules a rules = Ok es ->
  Forall entry_ok es /\ Forall (fun e => action e = a) es /\
  (existsb (fun e => entry_selects e pkt) es = true <-> Egress.some_rule_selects rules pkt).
Proof.
  intros Hok Hpkt H. apply mapM_join_elem in H as [Hall Hes].
  unfold Egress.rules_ok in Hok. rewrite Forall_forall in Hok.
  assert (Hr : forall r xs, r ∈ rules -> expand_rule a r = Ok xs ->
    Forall (fun e => entry_ok e /\ action e = a) xs /\
    ((exists e, e ∈ xs /\ entry_selects e pkt = true) <-> Egress.rule_selects r pkt)).
  { intros r xs Hin Hx. destruct (Hok r Hin). by apply expand_rule_spec. }
  rewrite existsb_elem. unfold Egress.some_rule_selects.
  assert (HF : Forall (fun e => entry_ok e /\ action e = a) es).
  { apply Forall_forall. intros e (r & xs & Hin & Hx & He)%Hes.
    destruct (Hr r xs Hin Hx) as [HF _]. rewrite Forall_forall in HF. by apply HF. }
  apply Forall_and in HF as [HF1 HF2]. split_and!; [done|done|]. split.
  - intros (e & (r & xs & Hin & Hx & He)%Hes & Hs). exists r. split; [done|].
    apply (Hr r xs Hin Hx). eauto.
  - intros (r & Hin & Hs). destruct (Hall r Hin) as [xs Hx].
    destruct (proj2 (proj2 (Hr r xs Hin Hx)) Hs) as (e & He & Hse).
    exists e. split; [|done]. apply Hes. eauto.
Qed.

(** ** The whole chain *)

(** What is appended to the chain of a family, in order. *)
Definition chain_argvs (chain : string) (policy : ContainerPolicy) (rules : FirewallRuleArgs)
    (f : IpFamily) : list (list string) :=
  build_base_chain_rule_args chain ++ family_args rules f ++
  [build_default_policy_rule_arg chain (effective_default_policy policy)].

(** Traffic the chain lets through before the policy is consulted. *)
Definition base_accepts (pkt : Filter.packet) : bool :=
  bool_decide (Filter.out_interface pkt = "lo") ||
  bool_decide (Filter.ct_state pkt = Filter.CtEstablished) ||
  bool_decide (Filter.ct_state pkt = Filter.CtRelated).

Definition base_specs : list (list string) :=
  [["-o"; "lo"; "-j"; "ACCEPT"];
   ["-m"; "conntrack"; "--ctstate"; "ESTABLISHED,RELATED"; "-j"; "ACCEPT"]].

Lemma base_verdict pkt :
  Filter.chain_verdict base_specs pkt =
    Some (if base_accepts pkt then Filter.Accept else Filter.Return).
Proof.
  unfold base_specs, base_accepts. cbn [Filter.chain_verdict].
  rewrite (Filter.rule_matches_option "-o"), (Filter.rule_matches_option "-m"),
    (Filter.rule_matches_option "--ctstate"), !Filter.rule_matches_target by done.
  rewrite Filter.out_interface_option, Filter.conntrack_option, Filter.established_option.
  cbn -[bool_decide]. destruct (bool_decide (Filter.out_interface pkt = "lo")); [done|].
  by destruct (Filter.ct_state pkt).
Qed.

Lemma build_policy_rules_specs chain policy rules f :
  build_policy_rules_logged chain policy = Ok rules ->
  exists entries, lower_egress policy = Ok entries /\
    family_args rules f = (fun s => "-A" :: chain :: s) <$> (entries ≫= entry_spec f).
Proof.
  unfold build_policy_rules_logged. intros H. apply bind_Ok in H as (entries & He & H).
  apply bind_Ok in H as (st & Hst & H). destruct (_ && _) in H; [done|]. injection H as <-.
  exists entries. split; [done|]. rewrite (build_entries_args _ _ _ _ _ f Hst). by destruct f.
Qed.

Lemma lower_egress_verdict policy entries pkt :
  Egress.policy_ok policy -> Filter.packet_wf pkt -> lower_egress policy = Ok entries ->
  exists denied allowed,
    Filter.chain_verdict (entries ≫= entry_spec (Filter.family pkt)) pkt =
      Some (if denied : bool then Filter.Drop else if allowed : bool then Filter.Accept else Filter.Return) /\
    (Egress.policy_permits policy pkt <->
       denied = false /\ (allowed = true \/ effective_default_policy policy = Allow)).
Proof.
  intros Hok Hpkt H. unfold lower_egress, effective_default_policy, Egress.policy_permits in *.
  destruct (network_egress policy) as [e|] eqn:Ee.
  2:{ injection H as <-. exists false, false. split; [done|]. naive_solver. }
  destruct (Hok e Ee) as [Hallow Hdeny].
  apply lower_directional_egress_Ok in H as [H _]. unfold expand_egress in H.
  apply bind_Ok in H as (ds & Hds & (xs & Hxs & [= <-])%bind_Ok).
  destruct (expand_rules_spec _ _ _ pkt Hdeny Hpkt Hds) as (Hd1 & Hd2 & Hd3).
  destruct (expand_rules_spec _ _ _ pkt Hallow Hpkt Hxs) as (Ha1 & Ha2 & Ha3).
  exists (existsb (fun e => entry_selects e pkt) ds), (existsb (fun e => entry_selects e pkt) xs).
  split.
  - rewrite bind_app, Filter.chain_verdict_app.
    rewrite (entries_verdict _ _ _ _ Hd1 Hd2 eq_refl), (entries_verdict _ _ _ _ Ha1 Ha2 eq_refl). cbn.
    by destruct (existsb _ ds), (existsb _ xs).
  - unfold Egress.permits. rewrite <- Hd3, <- Ha3, not_true_iff_false. done.
Qed.

(** The rules of a lowered policy, as they are appended. *)
Definition chain_specs (policy : ContainerPolicy) (entries : list EgressEntry) (f : IpFamily)
  : list (list string) :=
  base_specs ++ (entries ≫= entry_spec f) ++
  [["-j"; default_policy_action (effective_default_policy policy)]].

Lemma chain_specs_decide policy entries pkt :
  Egress.policy_ok policy -> Filter.packet_wf pkt -> lower_egress policy = Ok entries ->
  exists v, Filter.chain_verdict (chain_specs policy entries (Filter.family pkt)) pkt = Some v /\
    (v = Filter.Accept \/ v = Filter.Drop) /\
    (v = Filter.Accept <-> base_accepts pkt = true \/ Egress.policy_permits policy pkt).
Proof.
  intros Hok Hpkt He. destruct (lower_egress_verdict _ _ _ Hok Hpkt He) as (denied & allowed & Hv & Hp).
  exists (if base_accepts pkt then Filter.Accept else if denied then Filter.Drop
          else if allowed then Filter.Accept else
          match effective_default_policy policy with Allow => Filter.Accept | Deny => Filter.Drop end).
  split_and!.
  - unfold chain_specs. rewrite !Filter.chain_verdict_app, base_verdict, Hv.
    destruct (effective_default_policy policy), (base_accepts pkt), denied, allowed; done.
  - destruct (base_accepts pkt), denied, allowed, (effective_default_policy policy); auto.
  - rewrite Hp. destruct (base_accepts pkt), denied, allowed, (effective_default_policy policy);
      naive_solver.
Qed.

Lemma chain_argvs_specs chain policy rules f :
  build_policy_rules_logged chain policy = Ok rules ->
  exists entries, lower_egress policy = Ok entries /\
    Filter.appended_chain chain (chain_argvs chain policy rules f) = Some (chain_specs policy entries f).
Proof.
  intros H. destruct (build_policy_rules_specs _ _ _ f H) as (entries & He & Hargs).
  exists entries. split; [done|]. unfold chain_argvs, chain_specs. rewrite Hargs.
  change (build_base_chain_rule_args chain) with ((fun s => "-A" :: chain :: s) <$> base_specs).
  change [build_default_policy_rule_arg chain (effective_default_policy policy)] with
    ((fun s => "-A" :: chain :: s) <$>
       [["-j"; default_policy_action (effective_default_policy policy)]]).
  rewrite <- !fmap_app. apply appended_chain_specs.
Qed.

(** The chain LXC programs decides every packet as the policy does.  The
    vectors handed to the filter of a family read back as rules, and the chain
    they append accepts a packet exactly when it leaves on loopback, belongs to
    an established or related connection, or the egress policy permits it:
    deny rules override allow rules, both override the default, exclusions
    hold, and port and protocol selectors are honoured.  Every other packet is
    dropped; none falls through. *)
Theorem egress_chain_decides (chain : string) (policy : ContainerPolicy) (rules : FirewallRuleArgs)
    (pkt : Filter.packet) :
  Egress.policy_ok policy -> build_policy_rules_logged chain policy = Ok rules ->
  Filter.packet_wf pkt ->
  exists specs v,
    Filter.appended_chain chain (chain_argvs chain policy rules (Filter.family pkt)) = Some specs /\
    Filter.chain_verdict specs pkt = Some v /\ (v = Filter.Accept \/ v = Filter.Drop) /\
    (v = Filter.Accept <-> base_accepts pkt = true \/ Egress.policy_permits policy pkt).
Proof.
  intros Hok H Hpkt. destruct (chain_argvs_specs _ _ _ (Filter.family pkt) H) as (entries & He & Hs).
  destruct (chain_specs_decide _ _ _ Hok Hpkt He) as (v & ? & ? & ?). eauto 10.
Qed.

(** The lowering is the plain expansion of the rules, denies before allows,
    within its budget: it succeeds exactly when every peer can be lowered and
    the cross product of destination blocks and port matches has at most 65536
    entries, and then yields that product in rule order. *)
Theorem lowering_is_bounded_expansion (e : NetworkEgressPolicy) (entries : list EgressEntry) :
  lower_directional_egress e = Ok entries <->
  expand_egress e = Ok entries /\ Z.of_nat (length entries) <= Blocks.MAX_EGRESS_ENTRIES.
Proof. apply lower_directional_egress_Ok. Qed.

(** A sandbox started without a network interface loses nothing the policy
    grants: if the plan is isolation, the egress policy permits no packet
    whatever, and neither inbound control allows anything. *)
Theorem plan_isolated_sound (policy : ContainerPolicy) :
  plan_network policy = Isolated ->
  (forall pkt, ~ Egress.policy_permits policy pkt) /\
  (forall i, network_ingress policy = Some i -> ingress_default i = Deny /\ host_loopback i = Deny).
Proof.
  unfold plan_network, Egress.policy_permits, Egress.permits. intros H. split.
  - intros pkt Hp. destruct (network_egress policy) as [[d a n]|]; [|done]. cbn in *.
    destruct d; [by case_match|]. destruct a; [|by case_match].
    destruct Hp as [_ [(r & Hr & _)|]]; [set_solver|done].
  - intros i Hi. rewrite Hi in H. destruct i as [[] []]; cbn in H; rewrite ?andb_false_r in H; done.
Qed.

(** ** Witnesses *)

(** Everything to [10.0.0.0/8] but [10.1.0.0/16], on TCP 80 to 90. *)
Definition example_policy : ContainerPolicy :=
  with_network ContainerPolicy_default
    (Some (MkEgress Deny
      [MkRule [MkPeer (MkCidr (V4 0x0a000000) 8) [MkCidr (V4 0x0a010000) 16]]
         [MkPort Tcp (Some 80) (Some 90)]] []))
    None None ProxyConfig_default true true false.

Lemma example_policy_ok : Egress.policy_ok example_policy.
Proof.
  assert (Hc : forall x l, 0 <= x < 2 ^ 32 -> 0 <= l <= 32 -> cidr_wf (MkCidr (V4 x) l))
    by (intros x l ? ?; split; cbn [address ip_wf prefix_length]; unfold u8_max; lia).
  intros e [= <-]. split; [|constructor]. apply Forall_singleton.
  split; [split; apply Forall_singleton|apply Forall_singleton].
  - split; [apply Hc; lia|]. apply Forall_singleton, Hc; lia.
  - split; intros x [= <-]; unfold u16_max; lia.
  - unfold selector_ok, u16_max. split_and!; [intros s [= <-]; lia| |done].
    intros e' [= <-]. exists 80. split; [done|lia].
Qed.

Lemma egress_chain_decides_witness :
  exists rules specs v,
    build_policy_rules_logged "C" example_policy = Ok rules /\
    Filter.appended_chain "C" (chain_argvs "C" example_policy rules FamilyV4) = Some specs /\
    Filter.chain_verdict specs
      (Filter.MkPacket FamilyV4 "" "eth0" Filter.CtNew 0x0a010001 Filter.ProtoTcp 80 0) = Some v.
Proof.
  destruct (build_policy_rules_logged "C" example_policy) as [rules|e] eqn:E;
    [|vm_compute in E; discriminate E].
  destruct (egress_chain_decides "C" example_policy rules
    (Filter.MkPacket FamilyV4 "" "eth0" Filter.CtNew 0x0a010001 Filter.ProtoTcp 80 0))
    as (specs & v & Hs & Hv & _).
  - exact example_policy_ok.
  - exact E.
  - unfold Filter.packet_wf. cbn. lia.
  - exists rules, specs, v. split; [reflexivity|]. split; [exact Hs|exact Hv].
Defined.

Lemma plan_isolated_sound_witness :
  ~ Egress.policy_permits ContainerPolicy_default
      (Filter.MkPacket FamilyV4 "" "eth0" Filter.CtNew 1 Filter.ProtoTcp 80 0).
Proof. apply (plan_isolated_sound ContainerPolicy_default). reflexivity. Defined.

End Lxc.
