(* ===== verification/LxcFirewall.v ===== *)
(** * Installing and removing the LXC egress chain

    The stateful part of [backends/lxc/common/network_iptables.rs] and the
    ownership slot of [signal_cleanup.rs].  The host (process execution, files
    under /proc) is a parameter; what the theorems need of the packet filter is
    the law that a command which succeeds has its documented effect on the
    filter table, and one that fails has it or none.  Log lines are not
    modelled. *)

From Stdlib Require Import Ascii.
From stdpp Require Import gmap.
From S2P Require Import Prelude NetText Models NetworkBlocks Netfilter EgressSpec LxcEgress LxcNames.

Module Firewall.

Import Blocks (IpFamily, FamilyV4, FamilyV6).
Import Lxc.

#[global] Instance IpFamily_eq_dec : EqDecision IpFamily.
Proof. solve_decision. Defined.

(** ** The host *)

Inductive ExecOutcome : Type :=
| Exited (success : bool) (stderr : string)
| SpawnFailed (msg : string).

Definition succeeded (o : ExecOutcome) : bool :=
  match o with Exited b _ => b | SpawnFailed _ => false end.

Inductive IoErrorKind : Type := NotFound | OtherIo.

(** Running a command to completion with the given variables added to its
    environment, reading a file, probing a directory. *)
Class Host : Type := {
  World : Type;
  exec : list (string * string) -> list string -> World -> ExecOutcome * World;
  read_to_string : string -> World -> result IoErrorKind string;
  is_dir : string -> World -> bool;
}.

(** ** Records *)

Record FamilyResources : Type := MkFamily { chain : bool; hook : bool }.
Record CreatedResources : Type := MkCreated { v4 : FamilyResources; v6 : FamilyResources }.

Definition no_resources : FamilyResources := MkFamily false false.
Definition CreatedResources_default : CreatedResources := MkCreated no_resources no_resources.

Definition family_is_empty (r : FamilyResources) : bool := negb (chain r) && negb (hook r).
Definition created_is_empty (c : CreatedResources) : bool :=
  family_is_empty (v4 c) && family_is_empty (v6 c).

Definition family_of (c : CreatedResources) (f : IpFamily) : FamilyResources :=
  match f with FamilyV4 => v4 c | FamilyV6 => v6 c end.

Definition set_family (f : IpFamily) (r : FamilyResources) (c : CreatedResources) : CreatedResources :=
  match f with FamilyV4 => MkCreated r (v6 c) | FamilyV6 => MkCreated (v4 c) r end.

Definition set_chain (f : IpFamily) (b : bool) (c : CreatedResources) : CreatedResources :=
  set_family f (MkFamily b (hook (family_of c f))) c.
Definition set_hook (f : IpFamily) (b : bool) (c : CreatedResources) : CreatedResources :=
  set_family f (MkFamily (chain (family_of c f)) b) c.

Inductive Ip6tablesStatus : Type := Available | KernelIpv6Disabled | UnusableButIpv6Active.
Inductive HostIpv6State : Type := Active | Inactive | Unknown.
#[global] Instance HostIpv6State_eq_dec : EqDecision HostIpv6State.
Proof. solve_decision. Defined.

Inductive EgressHookPoint : Type := ContainerNetns (pid : Z) | Unhooked.
#[global] Instance EgressHookPoint_eq_dec : EqDecision EgressHookPoint.
Proof. solve_decision. Defined.

Record NetworkIptablesManager : Type := MkManager {
  chain_name : string;
  rules_applied : bool;
  preserve_policy : bool;
  hook_point : EgressHookPoint;
  created : CreatedResources;
}.

Definition manager_new (sha256 : string -> list Z) (container_name : string) (hook : EgressHookPoint)
  : NetworkIptablesManager :=
  MkManager (Names.chain_name_for sha256 container_name) false false hook CreatedResources_default.

Definition is_hooked (m : NetworkIptablesManager) : bool :=
  match hook_point m with ContainerNetns _ => true | Unhooked => false end.

Definition set_preserve_policy (preserve : bool) (m : NetworkIptablesManager) : NetworkIptablesManager :=
  MkManager (chain_name m) (rules_applied m) preserve (hook_point m) (created m).

Definition own (c : CreatedResources) (applied : bool) (m : NetworkIptablesManager)
  : NetworkIptablesManager :=
  MkManager (chain_name m) applied (preserve_policy m) (hook_point m) c.

Definition forget (m : NetworkIptablesManager) : NetworkIptablesManager :=
  own CreatedResources_default false m.

(** ** The watchdog slot of [signal_cleanup.rs] *)

Record ActiveSandbox : Type := MkActive {
  active_name : option string;
  active_created : CreatedResources;
  netns_pid : option Z;
}.

(** The errors of the firewall path. *)
Inductive FirewallError : Type :=
| CommandFailed (command : string) (args : list string) (stderr : string)
| CommandNotRun (command : string) (msg : string)
| PolicyRefused (e : EgressError)
| Ipv6Unfilterable
| AlreadyApplied (chain_name : string).

Section WithHost.
Context `{Host}.

Record Sys : Type := MkSys {
  world : World;
  watchdog_installed : bool;
  slot : ActiveSandbox;
}.

Definition set_world (w : World) (s : Sys) : Sys := MkSys w (watchdog_installed s) (slot s).

Definition set_active (name : string) (s : Sys) : Sys :=
  if negb (watchdog_installed s) then s
  else MkSys (world s) true (MkActive (Some name) CreatedResources_default None).

Definition set_active_pid (pid : Z) (s : Sys) : Sys :=
  if negb (watchdog_installed s) then s
  else match active_name (slot s) with
  | Some n => MkSys (world s) true (MkActive (Some n) (active_created (slot s)) (Some pid))
  | None => s
  end.

Definition set_active_created (c : CreatedResources) (s : Sys) : Sys :=
  if negb (watchdog_installed s) then s
  else match active_name (slot s) with
  | Some n => MkSys (world s) true (MkActive (Some n) c (netns_pid (slot s)))
  | None => s
  end.

(** ** Commands *)

Definition command_argv (hook : EgressHookPoint) (binary : string) (args : list string) : list string :=
  match hook with
  | ContainerNetns pid => ["nsenter"; "-t"; dec pid; "-n"; binary]
  | Unhooked => [binary]
  end ++ args.

Definition firewall_binary (f : IpFamily) : string :=
  match f with FamilyV4 => "iptables" | FamilyV6 => "ip6tables" end.

(** Executes in the world; success or the failure as an error. *)
Definition run_firewall_command (m : NetworkIptablesManager) (command : string) (args : list string)
  : stateful Sys FirewallError unit := fun s =>
  let '(outcome, w) := exec [] (command_argv (hook_point m) command args) (world s) in
  let s := set_world w s in
  match outcome with
  | Exited true _ => (Ok tt, s)
  | Exited false stderr => (Err (CommandFailed command args stderr), s)
  | SpawnFailed msg => (Err (CommandNotRun command msg), s)
  end.

(** [run_iptables] and [run_ip6tables]. *)
Definition run_tables (m : NetworkIptablesManager) (f : IpFamily) (args : list string)
  : stateful Sys FirewallError unit :=
  run_firewall_command m (firewall_binary f) args.

(** [run_iptables_rule_args] and [run_ip6tables_rule_args]. *)
Definition run_rule_args (m : NetworkIptablesManager) (f : IpFamily) (rules : list (list string))
  : stateful Sys FirewallError unit :=
  for_each (run_tables m f) rules.

(** ** Whether IPv6 must be filtered *)

Definition classify_ip6tables_status (probe_succeeded host_ipv6_active : bool) : Ip6tablesStatus :=
  match probe_succeeded, host_ipv6_active with
  | true, _ => Available
  | false, true => UnusableButIpv6Active
  | false, false => KernelIpv6Disabled
  end.

(** [split_whitespace] of a line of [/proc] text, which is ASCII. *)
Definition fields (line : string) : list string :=
  List.filter (fun f => negb (bool_decide (f = "")))
    (string_split " " (string_map (fun c => if byte_in 9 13 c then " "%char else c) line)).

Definition line_names_device (line : string) : bool :=
  match last (fields line) with Some device => negb (bool_decide (device = "lo")) | None => false end.

Definition classify_missing (proc_net_present : bool) (e : IoErrorKind) : HostIpv6State :=
  match e with NotFound => if proc_net_present then Inactive else Unknown | OtherIo => Unknown end.

Definition classify_host_ipv6_state (read_result : result IoErrorKind string) (proc_net_present : bool)
  : HostIpv6State :=
  match read_result with
  | Ok contents =>
      if existsb line_names_device (string_split (ascii_of_nat 10) contents) then Active else Inactive
  | Err e => classify_missing proc_net_present e
  end.

Definition classify_container_ipv6_state (read_result : result IoErrorKind string)
    (proc_net_present : bool) : HostIpv6State :=
  match read_result with Ok _ => Active | Err e => classify_missing proc_net_present e end.

Definition namespace_ipv6_state (m : NetworkIptablesManager) (w : World) : HostIpv6State :=
  match hook_point m with
  | ContainerNetns pid =>
      classify_container_ipv6_state (read_to_string ("/proc/" +:+ dec pid +:+ "/net/if_inet6") w)
        (is_dir ("/proc/" +:+ dec pid +:+ "/net") w)
  | Unhooked =>
      classify_host_ipv6_state (read_to_string "/proc/net/if_inet6" w) (is_dir "/proc/net" w)
  end.

Definition ipv6_state_treated_as_active (s : HostIpv6State) : bool :=
  match s with Active | Unknown => true | Inactive => false end.

Definition ip6tables_status (m : NetworkIptablesManager)
  : stateful Sys FirewallError Ip6tablesStatus := fun s =>
  let '(outcome, w) := exec [] (command_argv (hook_point m) "ip6tables" ["-S"]) (world s) in
  let s := set_world w s in
  (Ok (classify_ip6tables_status (succeeded outcome)
         (ipv6_state_treated_as_active (namespace_ipv6_state m w))), s).

(** ** Installing *)

(** A command inside [install_firewall_rules], whose [&mut created] is the
    second half of the state. *)
Definition on_sys {A} (c : stateful Sys FirewallError A)
  : stateful (Sys * CreatedResources) FirewallError A := fun '(s, cr) =>
  let '(r, s) := c s in (r, (s, cr)).

(** Updating the record and publishing it to the watchdog. *)
Definition claim (f : CreatedResources -> CreatedResources)
  : stateful (Sys * CreatedResources) FirewallError unit := fun '(s, cr) =>
  (Ok tt, (set_active_created (f cr) s, f cr)).

Definition hook_args (chain_name : string) : list string := ["-I"; "OUTPUT"; "1"; "-j"; chain_name].
Definition unhook_args (chain_name : string) : list string := ["-D"; "OUTPUT"; "-j"; chain_name].

Definition create_chain (m : NetworkIptablesManager) (f : IpFamily)
  : stateful (Sys * CreatedResources) FirewallError unit :=
  _ ← on_sys (run_tables m f ["-N"; chain_name m]);
  claim (set_chain f true).

(** The hook is claimed first, and released if the command reports a failure,
    after an attempt to remove it. *)
Definition install_hook (m : NetworkIptablesManager) (f : IpFamily)
  : stateful (Sys * CreatedResources) FirewallError unit :=
  _ ← claim (set_hook f true);
  hooked ← attempt (on_sys (run_tables m f (hook_args (chain_name m))));
  match hooked with
  | Ok _ => mret tt
  | Err e =>
      _ ← attempt (on_sys (run_tables m f (unhook_args (chain_name m))));
      _ ← claim (set_hook f false);
      throw e
  end.

Definition on_ipv6 (ipv6_enabled : bool)
    (c : stateful (Sys * CreatedResources) FirewallError unit)
  : stateful (Sys * CreatedResources) FirewallError unit :=
  if ipv6_enabled then c else mret tt.

Definition install_firewall_rules (m : NetworkIptablesManager) (policy : ContainerPolicy)
  : stateful (Sys * CreatedResources) FirewallError unit :=
  status ← on_sys (ip6tables_status m);
  ipv6_enabled ← match status with
    | Available => mret true
    | KernelIpv6Disabled => mret false
    | UnusableButIpv6Active => throw Ipv6Unfilterable
    end;
  _ ← create_chain m FamilyV4;
  _ ← on_ipv6 ipv6_enabled (create_chain m FamilyV6);
  let base_rules := build_base_chain_rule_args (chain_name m) in
  _ ← on_sys (run_rule_args m FamilyV4 base_rules);
  _ ← on_ipv6 ipv6_enabled (on_sys (run_rule_args m FamilyV6 base_rules));
  policy_rules ← match build_policy_rules_logged (chain_name m) policy with
    | Ok rules => mret rules
    | Err e => throw (PolicyRefused e)
    end;
  _ ← on_sys (run_rule_args m FamilyV4 (ipv4 policy_rules));
  _ ← on_ipv6 ipv6_enabled (on_sys (run_rule_args m FamilyV6 (ipv6 policy_rules)));
  let default_rule :=
    build_default_policy_rule_arg (chain_name m) (effective_default_policy policy) in
  _ ← on_sys (run_tables m FamilyV4 default_rule);
  _ ← on_ipv6 ipv6_enabled (on_sys (run_tables m FamilyV6 default_rule));
  if negb (is_hooked m) then mret tt
  else
    _ ← install_hook m FamilyV4;
    on_ipv6 ipv6_enabled (install_hook m FamilyV6).

(** ** Removing *)

Definition run_ok (m : NetworkIptablesManager) (f : IpFamily) (args : list string) (s : Sys)
  : bool * Sys :=
  let '(r, s) := run_tables m f args s in (is_ok r, s).

(** [teardown_chain]: whether the chain is still owned afterwards. *)
Definition teardown_chain (m : NetworkIptablesManager) (f : IpFamily)
    (created_chain hooks_remain : bool) (s : Sys) : bool * Sys :=
  if negb created_chain then (false, s)
  else if hooks_remain then (true, s)
  else
    let '(_, s) := run_ok m f ["-F"; chain_name m] s in
    let '(deleted, s) := run_ok m f ["-X"; chain_name m] s in
    (negb deleted, s).

(** Whether the hook is still owned after the attempt to remove it. *)
Definition teardown_hook (m : NetworkIptablesManager) (f : IpFamily) (hooked : bool) (s : Sys)
  : bool * Sys :=
  if hooked then
    let '(removed, s) := run_ok m f (unhook_args (chain_name m)) s in (negb removed, s)
  else (false, s).

Definition teardown_created (m : NetworkIptablesManager) (c : CreatedResources) (s : Sys)
  : CreatedResources * Sys :=
  let '(hook4, s) := teardown_hook m FamilyV4 (hook (v4 c)) s in
  let '(hook6, s) := teardown_hook m FamilyV6 (hook (v6 c)) s in
  let '(chain4, s) := teardown_chain m FamilyV4 (chain (v4 c)) hook4 s in
  let '(chain6, s) := teardown_chain m FamilyV6 (chain (v6 c)) hook6 s in
  let residual := MkCreated (MkFamily chain4 hook4) (MkFamily chain6 hook6) in
  (residual, set_active_created residual s).

Definition retain_residual_ownership (residual : CreatedResources) (m : NetworkIptablesManager)
  : NetworkIptablesManager :=
  own residual (negb (created_is_empty residual)) m.

Definition apply_firewall_rules_inner (m : NetworkIptablesManager) (policy : ContainerPolicy) (s : Sys)
  : result (FirewallError * CreatedResources) CreatedResources * Sys :=
  match install_firewall_rules m policy (s, CreatedResources_default) with
  | (Ok _, (s, c)) => (Ok c, s)
  | (Err e, (s, c)) => let '(residual, s) := teardown_created m c s in (Err (e, residual), s)
  end.

Definition record_apply_outcome
    (outcome : result (FirewallError * CreatedResources) CreatedResources)
    (m : NetworkIptablesManager) : result FirewallError unit * NetworkIptablesManager :=
  match outcome with
  | Ok c => (Ok tt, own c true m)
  | Err (e, residual) => (Err e, retain_residual_ownership residual m)
  end.

Definition apply_firewall_rules (policy : ContainerPolicy)
  : stateful (NetworkIptablesManager * Sys) FirewallError unit := fun '(m, s) =>
  if negb (installs_firewall (plan_network policy)) then (Ok tt, (m, s))
  else if rules_applied m then (Err (AlreadyApplied (chain_name m)), (m, s))
  else
    let '(outcome, s) := apply_firewall_rules_inner m policy s in
    let '(r, m) := record_apply_outcome outcome m in
    (r, (m, s)).

Definition remove_firewall_rules (m : NetworkIptablesManager) (s : Sys)
  : NetworkIptablesManager * Sys :=
  if negb (rules_applied m) then (m, s)
  else
    let '(residual, s) := teardown_created m (created m) s in
    (retain_residual_ownership residual m, s).

Definition allow_ping_sockets (m : NetworkIptablesManager) : stateful Sys FirewallError unit :=
  run_firewall_command m "sysctl" ["-w"; "net.ipv4.ping_group_range=0 2147483647"].

Definition force_cleanup (sha256 : string -> list Z) (container_name : string)
    (hook_point : EgressHookPoint) (c : CreatedResources) (s : Sys) : Sys :=
  if created_is_empty c then s
  else (remove_firewall_rules (own c true (manager_new sha256 container_name hook_point)) s).2.

(** [Drop]. *)
Definition drop_manager (m : NetworkIptablesManager) (s : Sys) : Sys :=
  if rules_applied m && negb (preserve_policy m) then (remove_firewall_rules m s).2 else s.

End WithHost.

(** ** What a command does to the filter table *)

(** The chains of one filter table, each a list of rules without chain name. *)
Abbreviation ruleset := (gmap string (list (list string))).

Definition referenced (c : string) (rs : ruleset) : bool :=
  existsb (fun kv => existsb (fun rule => bool_decide (last rule = Some c)) kv.2) (map_to_list rs).

(** Deleting the first rule equal to the given one. *)
Fixpoint delete_rule (spec : list string) (rules : list (list string)) : option (list (list string)) :=
  match rules with
  | [] => None
  | r :: rules =>
      if decide (r = spec) then Some rules else rules' ← delete_rule spec rules; Some (r :: rules')
  end.

(** The documented effect of the commands the backend issues; [None] where the
    filter refuses the command. *)
Definition table_effect (args : list string) (rs : ruleset) : option ruleset :=
  match args with
  | [op] => if decide (op = "-S") then Some rs else None
  | op :: c :: spec =>
      if decide (op = "-N") then
        if decide (rs !! c = None) then Some (<[c := []]> rs) else None
      else if decide (op = "-A") then
        rules ← rs !! c; Some (<[c := rules ++ [spec]]> rs)
      else if decide (op = "-I") then
        rules ← rs !! c;
        Some (<[c := match spec with
                     | first :: rest => if decide (first = "1") then rest else spec
                     | [] => spec
                     end :: rules]> rs)
      else if decide (op = "-D") then
        rules ← rs !! c; rules' ← delete_rule spec rules; Some (<[c := rules']> rs)
      else if decide (op = "-F") then
        _ ← rs !! c; Some (<[c := []]> rs)
      else if decide (op = "-X") then
        rules ← rs !! c;
        if is_empty rules && negb (referenced c rs) then Some (delete c rs) else None
      else None
  | [] => None
  end.

Definition hook_point_wf (h : EgressHookPoint) : Prop :=
  match h with ContainerNetns pid => 0 <= pid <= u32_max | Unhooked => True end.

(** The law of the packet filter: a command addressed to the table of a family
    in a namespace leaves the other family's table alone; if it succeeds the
    table has its documented effect, and if it fails it has that effect or
    none. *)
Class NetfilterLaws (H : Host) : Type := {
  filter_table : World -> EgressHookPoint -> IpFamily -> ruleset;
  exec_effect : forall env hook f args w outcome w',
    hook_point_wf hook ->
    exec env (command_argv hook (firewall_binary f) args) w = (outcome, w') ->
    (forall f', f' <> f -> filter_table w' hook f' = filter_table w hook f') /\
    (table_effect args (filter_table w hook f) = Some (filter_table w' hook f) \/
     succeeded outcome = false /\ filter_table w' hook f = filter_table w hook f);
}.

Section Laws.
Context {H : Host} {L : NetfilterLaws H}.
Implicit Types (m : NetworkIptablesManager) (s : Sys) (f g : IpFamily).

(** The table of a family in the manager's namespace. *)
Definition tables m s f : ruleset := filter_table (world s) (hook_point m) f.

(** Running a command of a family: the slot is untouched, so is the other
    family's table. *)
Lemma run_tables_effect m f args s r s' :
  hook_point_wf (hook_point m) -> run_tables m f args s = (r, s') ->
  slot s' = slot s /\ watchdog_installed s' = watchdog_installed s /\
  (forall g, g <> f -> tables m s' g = tables m s g) /\
  (table_effect args (tables m s f) = Some (tables m s' f) \/
   is_ok r = false /\ tables m s' f = tables m s f).
Proof.
  intros Hw Hr. unfold run_tables, run_firewall_command in Hr.
  destruct (exec _ _ (world s)) as [outcome w'] eqn:E.
  destruct (exec_effect _ _ _ _ _ _ _ Hw E) as [Hother Heff].
  assert (s' = set_world w' s /\ is_ok r = succeeded outcome) as [-> Hok]
    by (destruct outcome as [[] ?|?]; by injection Hr as <- <-).
  unfold tables. cbn. split_and!; [done|done| |by rewrite Hok].
  intros g Hg. by apply Hother.
Qed.

Lemma run_tables_Ok m f args s s' :
  hook_point_wf (hook_point m) -> run_tables m f args s = (Ok tt, s') ->
  table_effect args (tables m s f) = Some (tables m s' f) /\
  (forall g, g <> f -> tables m s' g = tables m s g).
Proof.
  intros Hw Hr. destruct (run_tables_effect _ _ _ _ _ _ Hw Hr) as (_ & _ & Ho & [He|[? _]]); done.
Qed.

(** Appending rules one by one. *)
Lemma run_rule_args_Ok m f c specs s s' old :
  hook_point_wf (hook_point m) ->
  run_rule_args m f ((fun spec => "-A" :: c :: spec) <$> specs) s = (Ok tt, s') ->
  tables m s f !! c = Some old ->
  tables m s' f = <[c := old ++ specs]> (tables m s f) /\
  (forall g, g <> f -> tables m s' g = tables m s g).
Proof.
  intros Hw. revert s old. induction specs as [|spec specs IH]; intros s old Hr Hc.
  - injection Hr as <-. rewrite app_nil_r, insert_id by done. done.
  - unfold run_rule_args in Hr. cbn [fmap list_fmap for_each] in Hr.
    apply stateful_bind_Ok in Hr as ([] & s1 & H1 & Hr).
    apply run_tables_Ok in H1 as [He Ho]; [|done]. cbn in He. rewrite Hc in He. injection He as He.
    destruct (IH s1 (old ++ [spec])) as [Ht Ho']; [done|by rewrite <- He, lookup_insert_eq|].
    split.
    + rewrite Ht, <- He, insert_insert_eq. by rewrite <- app_assoc.
    + intros g Hg. by rewrite Ho', Ho.
Qed.

(** [s'] differs from [s] in the table of [f] only, which is now [rs]. *)
Definition changed m s f (rs : ruleset) s' : Prop :=
  tables m s' f = rs /\ forall g, g <> f -> tables m s' g = tables m s g.

Lemma on_sys_Ok {A} (c : stateful Sys FirewallError A) s cr a st :
  on_sys c (s, cr) = (Ok a, st) -> exists s', c s = (Ok a, s') /\ st = (s', cr).
Proof. unfold on_sys. destruct (c s) as [r s'] eqn:E. intros [= -> <-]. eauto. Qed.

Lemma tables_publish m c s f : tables m (set_active_created c s) f = tables m s f.
Proof. unfold tables, set_active_created. by repeat case_match. Qed.

Lemma create_chain_Ok m f s cr st :
  hook_point_wf (hook_point m) -> create_chain m f (s, cr) = (Ok tt, st) ->
  exists s', st = (s', set_chain f true cr) /\ tables m s f !! chain_name m = None /\
    changed m s f (<[chain_name m := []]> (tables m s f)) s'.
Proof.
  intros Hw Hc. apply stateful_bind_Ok in Hc as ([] & st1 & Hc & H1).
  apply on_sys_Ok in Hc as (s1 & Hr & ->). injection H1 as <-.
  apply run_tables_Ok in Hr as [He Ho]; [|done]. cbn in He.
  destruct (decide (tables m s f !! chain_name m = None)) as [Hn|]; [|done]. injection He as He.
  eexists. split_and!; [done|done|]. split; [by rewrite tables_publish|].
  intros g Hg. rewrite tables_publish. auto.
Qed.

Lemma install_hook_Ok m f s cr st :
  hook_point_wf (hook_point m) -> install_hook m f (s, cr) = (Ok tt, st) ->
  exists s' out, st = (s', set_hook f true cr) /\ tables m s f !! "OUTPUT" = Some out /\
    changed m s f (<["OUTPUT" := ["-j"; chain_name m] :: out]> (tables m s f)) s'.
Proof.
  intros Hw Hi. unfold install_hook in Hi.
  apply stateful_bind_Ok in Hi as ([] & st1 & [= <-] & Hi).
  apply stateful_bind_Ok in Hi as (r & st2 & Ha & Hi). unfold attempt, on_sys in Ha.
  destruct (run_tables _ _ _ _) as [r' s2] eqn:Hr. injection Ha as <- <-.
  destruct r' as [[]|e].
  - injection Hi as <-. apply run_tables_Ok in Hr as [He Ho]; [|done].
    rewrite tables_publish in He. unfold hook_args in He. cbn in He.
    destruct (tables m s f !! "OUTPUT") as [out|] eqn:Eout; [|done]. injection He as He.
    exists s2, out. split_and!; [done|done|]. split; [done|].
    intros g Hg. rewrite Ho by done. apply tables_publish.
  - apply stateful_bind_Ok in Hi as (? & [? ?] & _ & Hi).
    by apply stateful_bind_Ok in Hi as (? & [? ?] & _ & Hi).
Qed.

Lemma ip6tables_status_tables m s r s' :
  hook_point_wf (hook_point m) -> ip6tables_status m s = (r, s') ->
  forall g, tables m s' g = tables m s g.
Proof.
  intros Hw Hr g. unfold ip6tables_status in Hr.
  destruct (exec _ _ (world s)) as [outcome w'] eqn:E. injection Hr as <- <-.
  destruct (exec_effect _ _ FamilyV6 ["-S"] _ _ _ Hw E) as [Ho He]. unfold tables. cbn.
  destruct (decide (g = FamilyV6)) as [->|]; [|by apply Ho].
  destruct He as [[= He]|[_ He]]; by rewrite He.
Qed.

(** The family's table after a complete install: a new chain with the rules,
    and a jump to it before everything else on the way out. *)
Definition installed m policy entries f (before after : ruleset) : Prop :=
  exists out, before !! chain_name m = None /\ before !! "OUTPUT" = Some out /\
    after !! chain_name m = Some (chain_specs policy entries f) /\
    after !! "OUTPUT" = Some (["-j"; chain_name m] :: out).

Lemma append_rules m f specs s s' old (t0 : ruleset) :
  hook_point_wf (hook_point m) ->
  run_rule_args m f ((fun spec => "-A" :: chain_name m :: spec) <$> specs) s = (Ok tt, s') ->
  tables m s f = <[chain_name m := old]> t0 ->
  changed m s f (<[chain_name m := old ++ specs]> t0) s'.
Proof.
  intros Hw Hr Ht. apply (run_rule_args_Ok _ _ _ _ _ _ old) in Hr as [Hr Ho]; [|done|].
  - split; [|done]. by rewrite Hr, Ht, insert_insert_eq.
  - by rewrite Ht, lookup_insert_eq.
Qed.

Lemma append_rule m f spec s s' old (t0 : ruleset) :
  hook_point_wf (hook_point m) ->
  run_tables m f ("-A" :: chain_name m :: spec) s = (Ok tt, s') ->
  tables m s f = <[chain_name m := old]> t0 ->
  changed m s f (<[chain_name m := old ++ [spec]]> t0) s'.
Proof.
  intros Hw Hr Ht. apply (append_rules m f [spec]); [done| |done].
  unfold run_rule_args. cbn. unfold mbind, stateful_bind. by rewrite Hr.
Qed.

(** Following one family through a step that concerns it or the other one. *)
Lemma changed_same m s f rs s' : changed m s f rs s' -> tables m s' f = rs.
Proof. by intros [? _]. Qed.
Lemma changed_other m s f rs s' g : changed m s f rs s' -> g <> f -> tables m s' g = tables m s g.
Proof. intros [_ Ho]. apply Ho. Qed.

(** A family whose chain is being filled: [old] appended so far to a table that
    had no such chain. *)
Definition filling m f (t0 : ruleset) (old : list (list string)) s : Prop :=
  t0 !! chain_name m = None /\ tables m s f = <[chain_name m := old]> t0.

(** What holds of the second family throughout: it is being filled, or left
    alone. *)
Definition filling_if (b : bool) m f (t0 : ruleset) (old : list (list string)) s : Prop :=
  if b then filling m f t0 old s else tables m s f = t0.

Lemma fill_step m f c specs t0 old g b t1 old1 st st' :
  hook_point_wf (hook_point m) -> g <> f ->
  filling m f t0 old st.1 -> filling_if b m g t1 old1 st.1 ->
  on_sys c st = (Ok tt, st') ->
  (forall s s', c s = (Ok tt, s') -> tables m s f = <[chain_name m := old]> t0 ->
     changed m s f (<[chain_name m := old ++ specs]> t0) s') ->
  st'.2 = st.2 /\ filling m f t0 (old ++ specs) st'.1 /\ filling_if b m g t1 old1 st'.1.
Proof.
  intros Hw Hg [Hn Ht] Hother Hc Hstep. destruct st as [s cr].
  apply on_sys_Ok in Hc as (s' & Hc & ->). apply Hstep in Hc as [Hs Ho]; [|done]. cbn in *.
  split_and!; [done|done..|]. unfold filling_if, filling in *. rewrite Ho by done. done.
Qed.

Lemma fill_step_if m f c specs t0 old g b t1 old1 st st' :
  hook_point_wf (hook_point m) -> g <> f ->
  filling_if b m f t0 old st.1 -> filling m g t1 old1 st.1 ->
  on_ipv6 b (on_sys c) st = (Ok tt, st') ->
  (forall s s', c s = (Ok tt, s') -> tables m s f = <[chain_name m := old]> t0 ->
     changed m s f (<[chain_name m := old ++ specs]> t0) s') ->
  st'.2 = st.2 /\ filling_if b m f t0 (old ++ specs) st'.1 /\ filling m g t1 old1 st'.1.
Proof.
  intros Hw Hg Hf Ho Hc Hstep. destruct b; [|by injection Hc as <-].
  by apply (fill_step m f c specs t0 old g true t1 old1 st st').
Qed.

(** Both families end with the hook before what was in their output chain. *)
Lemma hook_step m policy entries f t0 st st' g (P : ruleset -> Prop) :
  hook_point_wf (hook_point m) -> chain_name m <> "OUTPUT" -> g <> f ->
  install_hook m f st = (Ok tt, st') ->
  filling m f t0 (chain_specs policy entries f) st.1 -> P (tables m st.1 g) ->
  st'.2 = set_hook f true st.2 /\ installed m policy entries f t0 (tables m st'.1 f) /\
  P (tables m st'.1 g).
Proof.
  intros Hw Hc Hg Hi [Hn Ht] HP. destruct st as [s cr]. cbn in *.
  apply install_hook_Ok in Hi as (s' & out & -> & Hout & Hs & Ho); [|done]. cbn. split; [done|].
  rewrite Ht, lookup_insert_ne in Hout by done. rewrite (Ho g Hg), Hs, Ht. split; [|done].
  exists out. split_and!; [done|done|by rewrite lookup_insert_ne, lookup_insert_eq by done|].
  by rewrite lookup_insert_eq.
Qed.

(** The probe of [ip6tables] failed and the namespace has no IPv6 stack. *)
Definition ipv6_inactive m s : Prop :=
  exists outcome w, exec [] (command_argv (hook_point m) "ip6tables" ["-S"]) (world s) = (outcome, w) /\
    succeeded outcome = false /\ namespace_ipv6_state m w = Inactive.

Lemma status_disabled_inactive m s s' :
  ip6tables_status m s = (Ok KernelIpv6Disabled, s') -> ipv6_inactive m s.
Proof.
  unfold ip6tables_status, ipv6_inactive. destruct (exec _ _ (world s)) as [outcome w].
  intros [= Hs _]. exists outcome, w. split; [done|].
  destruct (succeeded outcome); [done|]. by destruct (namespace_ipv6_state m w).
Qed.

Lemma install_Ok m policy pid s st' :
  hook_point m = ContainerNetns pid -> 0 <= pid <= u32_max -> chain_name m <> "OUTPUT" ->
  install_firewall_rules m policy (s, CreatedResources_default) = (Ok tt, st') ->
  exists entries rules (b : bool),
    lower_egress policy = Ok entries /\ build_policy_rules_logged (chain_name m) policy = Ok rules /\
    installed m policy entries FamilyV4 (tables m s FamilyV4) (tables m st'.1 FamilyV4) /\
    (if b then installed m policy entries FamilyV6 (tables m s FamilyV6) (tables m st'.1 FamilyV6)
     else tables m st'.1 FamilyV6 = tables m s FamilyV6) /\
    st'.2 = MkCreated (MkFamily true true) (MkFamily b b) /\
    (b = false -> ipv6_inactive m s).
Proof.
  intros Hp Hpid Hc H0. assert (Hw : hook_point_wf (hook_point m)) by (by rewrite Hp).
  unfold install_firewall_rules in H0.
  apply stateful_bind_Ok in H0 as (status & st1 & Hst & H0).
  apply on_sys_Ok in Hst as (s1 & Hst & ->).
  pose proof (ip6tables_status_tables _ _ _ _ Hw Hst) as Et.
  apply stateful_bind_Ok in H0 as (b & st2 & Hb & H0).
  assert (st2 = (s1, CreatedResources_default)) as ->
    by (destruct status; unfold mret, stateful_ret, throw in Hb; by simplify_eq).
  assert (Hin : b = false -> ipv6_inactive m s).
  { intros ->. destruct status; [done| |done]. by eapply status_disabled_inactive. }
  apply stateful_bind_Ok in H0 as ([] & st3 & Hcreate & H0).
  apply create_chain_Ok in Hcreate as (s3 & -> & Hn4 & [Hs4 Ho4]); [|done].
  apply stateful_bind_Ok in H0 as ([] & st4 & Hcreate6 & H0).
  assert (F : filling m FamilyV4 (tables m s FamilyV4) [] st4.1 /\
    filling_if b m FamilyV6 (tables m s FamilyV6) [] st4.1 /\
    st4.2 = MkCreated (MkFamily true false) (MkFamily b false)).
  { rewrite Et in Hn4, Hs4. destruct b.
    - apply create_chain_Ok in Hcreate6 as (s4 & -> & Hn6 & [Hs6 Ho6]); [|done].
      rewrite Ho4, Et in Hn6, Hs6 by done. cbn.
      split_and!; [split; [done|by rewrite Ho6]|done|done].
    - injection Hcreate6 as <-. cbn. split_and!; [done| |done]. rewrite Ho4 by done. apply Et. }
  destruct F as (F4 & F6 & Hcr). clear Hcreate6 Hn4 Hs4 Ho4.
  change (build_base_chain_rule_args (chain_name m)) with
    ((fun spec => "-A" :: chain_name m :: spec) <$> base_specs) in H0. cbv zeta in H0.
  apply stateful_bind_Ok in H0 as ([] & st5 & Hbase4 & H0).
  edestruct (fill_step m FamilyV4 _ base_specs _ _ FamilyV6 b _ _ _ _ Hw ltac:(done) F4 F6 Hbase4)
    as (E5 & F4' & F6'); [by intros; apply append_rules|].
  apply stateful_bind_Ok in H0 as ([] & st6 & Hbase6 & H0).
  edestruct (fill_step_if m FamilyV6 _ base_specs _ _ FamilyV4 b _ _ _ _ Hw ltac:(done) F6' F4' Hbase6)
    as (E6 & F6'' & F4''); [by intros; apply append_rules|]. clear F4 F6 F4' F6'.
  apply stateful_bind_Ok in H0 as (rules & st7 & Hrules & H0).
  destruct (build_policy_rules_logged (chain_name m) policy) as [rules'|e] eqn:Ebuild; [|done].
  injection Hrules as <- <-.
  destruct (build_policy_rules_specs _ _ _ FamilyV4 Ebuild) as (entries & He & Ha4).
  destruct (build_policy_rules_specs _ _ _ FamilyV6 Ebuild) as (entries' & He' & Ha6).
  assert (entries' = entries) as -> by congruence. cbn in Ha4, Ha6. rewrite Ha4, Ha6 in H0.
  apply stateful_bind_Ok in H0 as ([] & st8 & Hr4 & H0).
  edestruct (fill_step m FamilyV4 _ (entries ≫= entry_spec FamilyV4) _ _ FamilyV6 b _ _ _ _ Hw ltac:(done) F4'' F6'' Hr4)
    as (E8 & G4 & G6); [by intros; apply append_rules|].
  apply stateful_bind_Ok in H0 as ([] & st9 & Hr6 & H0).
  edestruct (fill_step_if m FamilyV6 _ (entries ≫= entry_spec FamilyV6) _ _ FamilyV4 b _ _ _ _ Hw ltac:(done) G6 G4 Hr6)
    as (E9 & G6' & G4'); [by intros; apply append_rules|].
  clear F6'' F4'' G4 G6. unfold build_default_policy_rule_arg in H0. cbv zeta in H0.
  apply stateful_bind_Ok in H0 as ([] & st10 & Hd4 & H0).
  edestruct (fill_step m FamilyV4 _ [["-j"; default_policy_action (effective_default_policy policy)]] _ _ FamilyV6 b _ _ _ _ Hw ltac:(done) G4' G6' Hd4)
    as (E10 & D4 & D6); [by intros; apply append_rule|].
  apply stateful_bind_Ok in H0 as ([] & st11 & Hd6 & H0).
  edestruct (fill_step_if m FamilyV6 _ [["-j"; default_policy_action (effective_default_policy policy)]] _ _ FamilyV4 b _ _ _ _ Hw ltac:(done) D6 D4 Hd6)
    as (E11 & D6' & D4'); [by intros; apply append_rule|].
  clear G6' G4' D4 D6. rewrite <- app_assoc in D4', D6'. cbn [app] in D4', D6'.
  fold (chain_specs policy entries FamilyV4) in D4'. fold (chain_specs policy entries FamilyV6) in D6'.
  assert (Hh : is_hooked m = true) by (unfold is_hooked; by rewrite Hp). rewrite Hh in H0. cbn [negb] in H0.
  assert (Ecr : st11.2 = MkCreated (MkFamily true false) (MkFamily b false)) by congruence.
  apply stateful_bind_Ok in H0 as ([] & st12 & Hh4 & Hh6).
  destruct (hook_step m policy entries FamilyV4 _ _ _ FamilyV6
    (fun rs => if b then rs = <[chain_name m := chain_specs policy entries FamilyV6]> (tables m s FamilyV6)
               else rs = tables m s FamilyV6) Hw Hc ltac:(done) Hh4 D4') as (E12 & I4 & I6).
  { by destruct b; [apply D6'|]. }
  exists entries, rules', b. rewrite Ecr in E12. destruct b.
  - destruct (hook_step m policy entries FamilyV6 (tables m s FamilyV6) _ _ FamilyV4
      (installed m policy entries FamilyV4 (tables m s FamilyV4)) Hw Hc ltac:(done) Hh6)
      as (E13 & J6 & J4); [by split; [apply D6'|]|done|].
    split_and!; [done..| |done]. by rewrite E13, E12.
  - injection Hh6 as <-. split_and!; [done..| |done]. by rewrite E12.
Qed.

(** A table whose output chain starts with a jump is decided by the chain it
    jumps to, as far as that chain decides. *)
Definition first_jump_verdict (rs : ruleset) (from : string) (pkt : Filter.packet)
  : option Filter.verdict :=
  match rs !! from with
  | Some ([j; c] :: _) =>
      if decide (j = "-j") then
        rules ← rs !! c;
        v ← Filter.chain_verdict rules pkt;
        if decide (v = Filter.Return) then None else Some v
      else None
  | _ => None
  end.

Lemma apply_Ok m policy s m' s' :
  plan_network policy = Filtered -> apply_firewall_rules policy (m, s) = (Ok tt, (m', s')) ->
  exists c, install_firewall_rules m policy (s, CreatedResources_default) = (Ok tt, (s', c)) /\
    m' = own c true m.
Proof.
  intros Hplan Ha. unfold apply_firewall_rules in Ha. rewrite Hplan in Ha. cbn in Ha.
  destruct (rules_applied m); [done|]. unfold apply_firewall_rules_inner in Ha.
  destruct (install_firewall_rules _ _ _) as [[[]|e] [s1 c]] eqn:E.
  - cbn in Ha. injection Ha as <- <-. eauto.
  - destruct (teardown_created m c s1) as [residual s2]. cbn in Ha. done.
Qed.

(** The chain of a policy, reached first on the way out. *)
Definition chain_in_place (c : string) policy entries f (rs : ruleset) : Prop :=
  exists out, rs !! c = Some (chain_specs policy entries f) /\ rs !! "OUTPUT" = Some (["-j"; c] :: out).

Lemma installed_in_place m policy entries f before after :
  installed m policy entries f before after -> chain_in_place (chain_name m) policy entries f after.
Proof. intros (out & _ & _ & ? & ?). by exists out. Qed.

Lemma chain_in_place_decides policy entries c rs pkt :
  Egress.policy_ok policy -> Filter.packet_wf pkt -> lower_egress policy = Ok entries ->
  chain_in_place c policy entries (Filter.family pkt) rs ->
  exists v, first_jump_verdict rs "OUTPUT" pkt = Some v /\
    (v = Filter.Accept <-> base_accepts pkt = true \/ Egress.policy_permits policy pkt).
Proof.
  intros Hok Hpkt He (out & Hchain & Hout).
  destruct (chain_specs_decide _ _ _ Hok Hpkt He) as (v & Hv & Hdec & Hiff).
  exists v. split; [|done]. unfold first_jump_verdict.
  rewrite Hout, decide_True by done. rewrite Hchain. cbn [mbind option_bind]. rewrite Hv.
  cbn [mbind option_bind]. rewrite decide_False; [done|]. by destruct Hdec as [->| ->].
Qed.

(** C1. A successful apply enforces the policy in the container's namespace.
    After it, the output chain starts with a jump to a chain that decides every
    IPv4 packet, and every IPv6 packet if the IPv6 hook is recorded, and accepts
    exactly the packets that leave on loopback, belong to an established or
    related connection or are permitted by the egress policy.  Without the IPv6
    hook the namespace had no IPv6 stack when it was probed.  Everything that
    was installed is recorded as owned. *)
Theorem apply_enforces_policy (m : NetworkIptablesManager) (policy : ContainerPolicy) (pid : Z)
    (s : Sys) (m' : NetworkIptablesManager) (s' : Sys) :
  hook_point m = ContainerNetns pid -> 0 <= pid <= u32_max -> chain_name m <> "OUTPUT" ->
  plan_network policy = Filtered -> Egress.policy_ok policy ->
  apply_firewall_rules policy (m, s) = (Ok tt, (m', s')) ->
  rules_applied m' = true /\ v4 (created m') = MkFamily true true /\
  (v6 (created m') = MkFamily true true \/ v6 (created m') = no_resources /\ ipv6_inactive m s) /\
  forall pkt, Filter.packet_wf pkt -> hook (family_of (created m') (Filter.family pkt)) = true ->
    exists v, first_jump_verdict (tables m' s' (Filter.family pkt)) "OUTPUT" pkt = Some v /\
      (v = Filter.Accept <-> base_accepts pkt = true \/ Egress.policy_permits policy pkt).
Proof.
  intros Hp Hpid Hc Hplan Hok Ha. destruct (apply_Ok _ _ _ _ _ Hplan Ha) as (c & Hi & ->).
  destruct (install_Ok _ _ _ _ _ Hp Hpid Hc Hi) as (entries & rules & b & He & _ & I4 & I6 & Hcr & Hin).
  cbn in I4, I6, Hcr. subst c. split_and!; [done|done|destruct b; auto|].
  intros pkt Hpkt Hhook. apply (chain_in_place_decides policy entries (chain_name m)); [done..|].
  destruct (Filter.family pkt); [by apply installed_in_place in I4|].
  cbn in Hhook. subst b. by apply installed_in_place in I6.
Qed.

(** ** The record of what is installed *)

(** The table of a family is the one found at first plus what is recorded. *)
Definition family_owned m (r : FamilyResources) (t0 rs : ruleset) : Prop :=
  match r with
  | MkFamily false false => rs = t0
  | MkFamily true false => t0 !! chain_name m = None /\ exists rules, rs = <[chain_name m := rules]> t0
  | MkFamily true true =>
      t0 !! chain_name m = None /\ exists rules out, t0 !! "OUTPUT" = Some out /\
        rs = <["OUTPUT" := ["-j"; chain_name m] :: out]> (<[chain_name m := rules]> t0)
  | MkFamily false true => False
  end.

(** The watchdog, if it runs for a container, has the record [cr]. *)
Definition published (cr : CreatedResources) s : Prop :=
  watchdog_installed s = true -> active_name (slot s) <> None -> active_created (slot s) = cr.

(** The record is truthful for both families, and the watchdog has it. *)
Definition owned m (t0 : IpFamily -> ruleset) (cr : CreatedResources) s : Prop :=
  (forall f, family_owned m (family_of cr f) (t0 f) (tables m s f)) /\
  published cr s.

(** ** What a teardown leaves alone *)

Lemma run_ok_other m f args s g c :
  hook_point_wf (hook_point m) -> g <> f \/ args = unhook_args (chain_name m) /\ c <> "OUTPUT" ->
  tables m (run_ok m f args s).2 g !! c = tables m s g !! c.
Proof.
  intros Hw Hcase. unfold run_ok. destruct (run_tables m f args s) as [r s'] eqn:E. cbn.
  destruct (run_tables_effect _ _ _ _ _ _ Hw E) as (_ & _ & Ho & He).
  destruct (decide (g = f)) as [->|Hne]; [|by rewrite Ho].
  destruct Hcase as [?|[-> Hc]]; [done|].
  destruct He as [He|[_ ->]]; [|done]. unfold unhook_args in He. cbn in He.
  destruct (tables m s f !! "OUTPUT") as [out|]; [|done]. cbn in He.
  destruct (delete_rule _ out) as [out'|]; [|done]. injection He as <-.
  by rewrite lookup_insert_ne.
Qed.

Lemma teardown_hook_chain m f h s g c :
  hook_point_wf (hook_point m) -> c <> "OUTPUT" ->
  tables m (teardown_hook m f h s).2 g !! c = tables m s g !! c.
Proof.
  intros Hw Hc. unfold teardown_hook. destruct h; [|done].
  rewrite <- (run_ok_other m f (unhook_args (chain_name m)) s g c Hw) by auto.
  by destruct (run_ok m f _ s).
Qed.

Lemma teardown_chain_other m f ch h s g c :
  hook_point_wf (hook_point m) -> g <> f \/ h = true ->
  tables m (teardown_chain m f ch h s).2 g !! c = tables m s g !! c.
Proof.
  intros Hw Hg. unfold teardown_chain. destruct ch; cbn; [|done]. destruct h; [done|].
  destruct Hg as [Hg|]; [|done].
  rewrite <- (run_ok_other m f ["-F"; chain_name m] s g c Hw (or_introl Hg)).
  destruct (run_ok m f ["-F"; _] s) as [okf s1]. cbn.
  rewrite <- (run_ok_other m f ["-X"; chain_name m] s1 g c Hw (or_introl Hg)).
  by destruct (run_ok m f ["-X"; _] s1).
Qed.

(** Removing the firewall never empties a chain that may still be jumped to:
    in every family whose hook is still recorded after the removal, because the
    command that deletes it failed, the chain has the rules it had. *)
Theorem remove_keeps_hooked_chain (m : NetworkIptablesManager) (s : Sys) (f : IpFamily) :
  hook_point_wf (hook_point m) -> chain_name m <> "OUTPUT" -> rules_applied m = true ->
  hook (family_of (created (remove_firewall_rules m s).1) f) = true ->
  tables m (remove_firewall_rules m s).2 f !! chain_name m = tables m s f !! chain_name m.
Proof.
  intros Hw Hc Ha. unfold remove_firewall_rules, teardown_created. rewrite Ha. cbn [negb].
  pose proof (fun g => teardown_hook_chain m FamilyV4 (hook (v4 (created m))) s g _ Hw Hc) as T1.
  destruct (teardown_hook m FamilyV4 _ s) as [h4 s1].
  pose proof (fun g => teardown_hook_chain m FamilyV6 (hook (v6 (created m))) s1 g _ Hw Hc) as T2.
  destruct (teardown_hook m FamilyV6 _ s1) as [h6 s2].
  pose proof (teardown_chain_other m FamilyV4 (chain (v4 (created m))) h4 s2 f (chain_name m) Hw) as T3.
  destruct (teardown_chain m FamilyV4 _ _ s2) as [c4 s3].
  pose proof (teardown_chain_other m FamilyV6 (chain (v6 (created m))) h6 s3 f (chain_name m) Hw) as T4.
  destruct (teardown_chain m FamilyV6 _ _ s3) as [c6 s4]. cbn [fst snd] in *. intros Hh.
  rewrite tables_publish, T4, T3, T2, T1; [done|..]; destruct f; cbn in Hh; auto.
Qed.

End Laws.

(** Commands that fail leave their table as it was, as the kernel replaces a
    table as a whole or not at all; only the insertion of a hook may be applied
    and reported as failed, which the installer anticipates. *)
Class NetfilterAtomic (H : Host) {L : NetfilterLaws H} : Prop :=
  exec_atomic : forall env hook f args w outcome w',
    hook_point_wf hook -> (forall c, args <> hook_args c) ->
    exec env (command_argv hook (firewall_binary f) args) w = (outcome, w') ->
    succeeded outcome = false -> filter_table w' hook f = filter_table w hook f.

(** What a command that has its effect finds and leaves. *)
Section Effects.
Implicit Types rs : ruleset.

Lemma effect_new c rs rs' :
  table_effect ["-N"; c] rs = Some rs' -> rs !! c = None /\ rs' = <[c := []]> rs.
Proof. cbn. destruct (decide (rs !! c = None)); [|done]. by intros [= <-]. Qed.

Lemma effect_append c spec rs rs' :
  table_effect ("-A" :: c :: spec) rs = Some rs' ->
  exists rules, rs !! c = Some rules /\ rs' = <[c := rules ++ [spec]]> rs.
Proof. cbn. destruct (rs !! c); [|done]. intros [= <-]. eauto. Qed.

Lemma effect_hook c rs rs' :
  table_effect (hook_args c) rs = Some rs' ->
  exists out, rs !! "OUTPUT" = Some out /\ rs' = <["OUTPUT" := ["-j"; c] :: out]> rs.
Proof. unfold hook_args. cbn. destruct (rs !! "OUTPUT"); [|done]. intros [= <-]. eauto. Qed.

Lemma effect_unhook c rs rs' :
  table_effect (unhook_args c) rs = Some rs' ->
  exists out out', rs !! "OUTPUT" = Some out /\ delete_rule ["-j"; c] out = Some out' /\
    rs' = <["OUTPUT" := out']> rs.
Proof.
  unfold unhook_args. cbn. destruct (rs !! "OUTPUT") as [out|]; [|done]. cbn.
  destruct (delete_rule _ out) eqn:E; [|done]. intros [= <-]. eauto.
Qed.

Lemma effect_flush c rs rs' :
  table_effect ["-F"; c] rs = Some rs' -> rs' = <[c := []]> rs.
Proof. cbn. destruct (rs !! c); [|done]. by intros [= <-]. Qed.

Lemma effect_delete c rs rs' :
  table_effect ["-X"; c] rs = Some rs' -> rs' = delete c rs.
Proof. cbn. destruct (rs !! c) as [rules|]; [|done]. cbn.
  destruct (is_empty rules && _); [|done]. by intros [= <-]. Qed.

Lemma delete_rule_None spec rules : spec ∉ rules <-> delete_rule spec rules = None.
Proof.
  induction rules as [|r rules IH]; [by split; [|intros _; apply not_elem_of_nil]|].
  rewrite not_elem_of_cons, IH. cbn. destruct (decide (r = spec)) as [->|Hne]; [naive_solver|].
  destruct (delete_rule spec rules); naive_solver.
Qed.

End Effects.

Section Atomic.
Context {H : Host} {L : NetfilterLaws H} {A : NetfilterAtomic H}.
Implicit Types (m : NetworkIptablesManager) (s : Sys) (f g : IpFamily).

Lemma run_tables_atomic m f args s r s' :
  hook_point_wf (hook_point m) -> run_tables m f args s = (r, s') -> (forall c, args <> hook_args c) ->
  slot s' = slot s /\ watchdog_installed s' = watchdog_installed s /\
  (forall g, g <> f -> tables m s' g = tables m s g) /\
  (if is_ok r then table_effect args (tables m s f) = Some (tables m s' f)
   else tables m s' f = tables m s f).
Proof.
  intros Hw Hr Ha. destruct (run_tables_effect _ _ _ _ _ _ Hw Hr) as (Hs & Hi & Ho & He).
  split_and!; [done..|]. destruct (is_ok r) eqn:Eok; [by destruct He as [?|[? _]]|].
  unfold run_tables, run_firewall_command in Hr. destruct (exec _ _ (world s)) as [outcome w'] eqn:E.
  assert (s' = set_world w' s /\ is_ok r = succeeded outcome) as [-> Hok]
    by (destruct outcome as [[] ?|?]; by injection Hr as <- <-).
  apply (exec_atomic _ _ _ _ _ _ _ Hw Ha E). congruence.
Qed.

(** A command keeps [owned] for a new record that differs in its family only,
    if the table it leaves fits the new record. *)
Lemma owned_run m t0 cr cr' f args s r s' :
  hook_point_wf (hook_point m) -> run_tables m f args s = (r, s') -> (forall c, args <> hook_args c) ->
  owned m t0 cr s -> (forall g, g <> f -> family_of cr' g = family_of cr g) ->
  (is_ok r = true -> table_effect args (tables m s f) = Some (tables m s' f) ->
   family_owned m (family_of cr' f) (t0 f) (tables m s' f)) ->
  (is_ok r = false -> family_of cr' f = family_of cr f) ->
  (forall g, family_owned m (family_of cr' g) (t0 g) (tables m s' g)) /\
  slot s' = slot s /\ watchdog_installed s' = watchdog_installed s.
Proof.
  intros Hw Hr Ha [Hf _] Hg Hok Herr. destruct (run_tables_atomic _ _ _ _ _ _ Hw Hr Ha) as (? & ? & Ho & He).
  split_and!; [|done..]. intros g. destruct (decide (g = f)) as [->|Hne].
  - destruct (is_ok r); [auto|]. rewrite Herr, He by done. apply Hf.
  - rewrite Hg, Ho by done. apply Hf.
Qed.

Lemma publish_published cr s : published cr (set_active_created cr s).
Proof.
  unfold published, set_active_created. destruct (watchdog_installed s) eqn:E; cbn; [|by rewrite E].
  destruct (active_name (slot s)) eqn:E'; cbn; [done|]. by rewrite E'.
Qed.

Lemma owned_publish m t0 cr s :
  (forall f, family_owned m (family_of cr f) (t0 f) (tables m s f)) ->
  owned m t0 cr (set_active_created cr s).
Proof.
  intros Hf. split; [intros f; rewrite tables_publish; apply Hf|apply publish_published].
Qed.

(** The jump stands in the output chain and only the chain is recorded. *)
Definition stranded m (r : FamilyResources) (t0 rs : ruleset) : Prop :=
  r = MkFamily true false /\ t0 !! chain_name m = None /\ exists rules out, t0 !! "OUTPUT" = Some out /\
    rs = <["OUTPUT" := ["-j"; chain_name m] :: out]> (<[chain_name m := rules]> t0).

(** The command that removes the jump of a family can fail where the jump is. *)
Definition removal_refused m f : Prop :=
  exists s e s' out, run_tables m f (unhook_args (chain_name m)) s = (Err e, s') /\
    tables m s f !! "OUTPUT" = Some out /\ ["-j"; chain_name m] ∈ out.

(** What the record of a family is worth. *)
Definition family_held m f (r : FamilyResources) (t0 rs : ruleset) : Prop :=
  family_owned m r t0 rs \/ stranded m r t0 rs /\ removal_refused m f.

Definition held m (t0 : IpFamily -> ruleset) (cr : CreatedResources) s : Prop :=
  (forall f, family_held m f (family_of cr f) (t0 f) (tables m s f)) /\ published cr s.

Lemma owned_held m t0 cr s : owned m t0 cr s -> held m t0 cr s.
Proof. intros [Ho Hp]. split; [|done]. intros f. left. apply Ho. Qed.

(** The record at a point of the install; any truthful one after a failure. *)
Definition recorded m t0 cr : Sys * CreatedResources -> Prop := fun st => st.2 = cr /\ owned m t0 cr st.1.
Definition truthful m t0 : Sys * CreatedResources -> Prop := fun st => held m t0 st.2 st.1.

(** The output chain found at first has no jump to the chain. *)
Definition unhooked m (t0 : IpFamily -> ruleset) : Prop :=
  forall f out, t0 f !! "OUTPUT" = Some out -> ["-j"; chain_name m] ∉ out.

Lemma recorded_truthful m t0 cr st : recorded m t0 cr st -> truthful m t0 st.
Proof. unfold recorded, truthful. intros [-> ?]. by apply owned_held. Qed.

Lemma create_chain_recorded m t0 cr f :
  hook_point_wf (hook_point m) -> family_of cr f = no_resources ->
  triple (recorded m t0 cr) (create_chain m f) (fun _ => recorded m t0 (set_chain f true cr)) (truthful m t0).
Proof.
  intros Hw Hcr [s cr0] r st' [Heq Ho] Hr. cbn in Heq, Ho. subst cr0.
  unfold create_chain, on_sys, claim, mbind, stateful_bind in Hr.
  destruct (run_tables _ _ _ _) as [r1 s1] eqn:E1.
  pose proof (fun c => owned_run m t0 cr c f _ _ _ _ Hw E1 ltac:(done) Ho) as Hrun.
  destruct r1 as [[]|e]; injection Hr as <- <-.
  - split; [done|]. cbn. apply owned_publish. apply Hrun; [by intros g Hg; destruct cr, f, g| |done].
    intros _ [Hn ->]%effect_new. destruct Ho as [Ho _]. specialize (Ho f). rewrite Hcr in Ho.
    assert (family_of (set_chain f true cr) f = MkFamily true false) as ->
      by (destruct cr, f; cbn in *; by rewrite Hcr).
    change (tables m s f = t0 f) in Ho. rewrite Ho in Hn |- *. split; [done|]. by eexists.
  - unfold truthful. cbn. destruct (Hrun cr) as (Hf & Hs & Hi); [done..|].
    apply owned_held. split; [done|]. unfold published. rewrite Hs, Hi. apply Ho.
Qed.

(** Appending to a recorded chain that is not hooked yet. *)
Lemma append_recorded m t0 cr f spec :
  hook_point_wf (hook_point m) -> family_of cr f = MkFamily true false ->
  triple (recorded m t0 cr) (on_sys (run_tables m f ("-A" :: chain_name m :: spec)))
    (fun _ => recorded m t0 cr) (truthful m t0).
Proof.
  intros Hw Hcr [s cr0] r st' [Heq Ho] Hr. cbn in Heq, Ho. subst cr0. unfold on_sys in Hr.
  destruct (run_tables _ _ _ _) as [r1 s1] eqn:E1. injection Hr as <- <-.
  assert (Hown : owned m t0 cr s1).
  { destruct (owned_run m t0 cr cr f _ _ _ _ Hw E1 ltac:(done) Ho) as (Hf & Hs & Hi); [done| |done|].
    - intros _ (rules & Hl & ->)%effect_append. destruct Ho as [Ho _]. specialize (Ho f).
      rewrite Hcr in Ho |- *. destruct Ho as (Hn & rules' & Ht). split; [done|].
      rewrite Ht, insert_insert_eq. eauto.
    - split; [done|]. unfold published. rewrite Hs, Hi. apply Ho. }
  destruct r1; [done|by apply owned_held].
Qed.

Lemma append_rules_recorded m t0 cr f specs :
  hook_point_wf (hook_point m) -> family_of cr f = MkFamily true false ->
  triple (recorded m t0 cr)
    (on_sys (run_rule_args m f ((fun spec => "-A" :: chain_name m :: spec) <$> specs)))
    (fun _ => recorded m t0 cr) (truthful m t0).
Proof.
  intros Hw Hcr. induction specs as [|spec specs IH]; intros st r st' HP Hr.
  - destruct st. injection Hr as <- <-. done.
  - refine (triple_bind _ (on_sys (run_tables m f ("-A" :: chain_name m :: spec)))
      (fun _ => on_sys (run_rule_args m f ((fun spec => "-A" :: chain_name m :: spec) <$> specs)))
      _ _ _ (append_recorded m t0 cr f spec Hw Hcr) (fun _ => IH) st r st' HP _).
    rewrite <- Hr. unfold run_rule_args, on_sys, mbind, stateful_bind. destruct st as [s cr0].
    cbn [fmap list_fmap for_each]. unfold mbind, stateful_bind.
    by destruct (run_tables _ _ _ _) as [[[]|e] s1].
Qed.

(** Removing a jump that is not there changes nothing. *)
Lemma unhook_unhooked m t0 f rules s r s' :
  hook_point_wf (hook_point m) -> chain_name m <> "OUTPUT" -> unhooked m t0 ->
  tables m s f = <[chain_name m := rules]> (t0 f) ->
  run_tables m f (unhook_args (chain_name m)) s = (r, s') ->
  forall g, tables m s' g = tables m s g.
Proof.
  intros Hw Hc Hun Ht Hr g. destruct (run_tables_atomic _ _ _ _ _ _ Hw Hr ltac:(done)) as (_ & _ & Ho & He).
  destruct (decide (g = f)) as [->|]; [|by apply Ho].
  destruct (is_ok r); [|done]. apply effect_unhook in He as (out & out' & Hout & Hd & _).
  rewrite Ht, lookup_insert_ne in Hout by done.
  apply Hun in Hout. apply delete_rule_None in Hout. by rewrite Hout in Hd.
Qed.

(** Taking back an insertion that was applied and reported as failed. *)
Lemma unhook_applied m f c0 rules out t0 s r s' :
  hook_point_wf (hook_point m) -> chain_name m <> "OUTPUT" -> c0 = chain_name m -> t0 !! "OUTPUT" = Some out ->
  tables m s f = <["OUTPUT" := ["-j"; c0] :: out]> (<[c0 := rules]> t0) ->
  run_tables m f (unhook_args c0) s = (r, s') ->
  (forall g, g <> f -> tables m s' g = tables m s g) /\
  tables m s' f = if is_ok r then <[c0 := rules]> t0 else tables m s f.
Proof.
  intros Hw Hc -> Hout Ht Hr. destruct (run_tables_atomic _ _ _ _ _ _ Hw Hr ltac:(done)) as (_ & _ & Ho & He).
  split; [done|]. destruct (is_ok r); [|done]. apply effect_unhook in He as (o1 & o2 & H1 & H2 & ->).
  rewrite Ht, lookup_insert_eq in H1. injection H1 as <-. cbn in H2. rewrite decide_True in H2 by done. injection H2 as <-.
  rewrite Ht, insert_insert_eq. apply insert_id. by rewrite lookup_insert_ne.
Qed.

Lemma install_hook_recorded m t0 cr f :
  hook_point_wf (hook_point m) -> chain_name m <> "OUTPUT" -> unhooked m t0 ->
  family_of cr f = MkFamily true false ->
  triple (recorded m t0 cr) (install_hook m f) (fun _ => recorded m t0 (set_hook f true cr)) (truthful m t0).
Proof.
  intros Hw Hc Hun Hcr [s cr0] r st' [Heq [Ho _]] Hr. cbn in Heq, Ho. subst cr0.
  unfold install_hook, attempt, on_sys, claim, mbind, stateful_bind in Hr.
  destruct (run_tables m f (hook_args _) _) as [r1 s1] eqn:E1.
  destruct (run_tables_effect _ _ _ _ _ _ Hw E1) as (Hs & Hi & Hoth & He).
  pose proof (Ho f) as Hf. rewrite Hcr in Hf. destruct Hf as (Hn & rules & Ht).
  rewrite tables_publish, Ht in He.
  assert (Hrest : forall g, g <> f -> family_owned m (family_of cr g) (t0 g) (tables m s1 g)).
  { intros g Hne. rewrite Hoth, tables_publish by done. apply Ho. }
  destruct r1 as [[]|e]; cbn [is_ok] in He.
  - destruct He as [He|[? _]]; [|done].
    injection Hr as <- <-. split; [done|]. cbn [fst].
    split; [|unfold published; rewrite Hs, Hi; apply publish_published].
    intros g. destruct (decide (g = f)) as [->|Hne].
    + assert (family_of (set_hook f true cr) f = MkFamily true true) as ->
        by (destruct cr, f; cbn in *; by rewrite Hcr).
      apply effect_hook in He as (out & Hout & ->). rewrite lookup_insert_ne in Hout by done.
      split; [done|]. by exists rules, out.
    + assert (family_of (set_hook f true cr) g = family_of cr g) as -> by (by destruct cr, f, g). by apply Hrest.
  - destruct (run_tables m f (unhook_args _) _) as [r2 s2] eqn:E2. injection Hr as <- <-.
    assert (Hcr' : set_hook f false (set_hook f true cr) = cr)
      by (destruct cr as [[] []], f; cbn in *; by simplify_eq).
    unfold truthful. cbn [snd fst]. rewrite Hcr'.
    split; [|apply publish_published]. intros g. rewrite tables_publish. destruct He as [He|[_ He]].
    + apply effect_hook in He as (out & Hout & He). rewrite lookup_insert_ne in Hout by done.
      destruct (unhook_applied m f _ rules out (t0 f) s1 r2 s2 Hw Hc eq_refl Hout He E2) as [Hother Hback].
      destruct (decide (g = f)) as [->|Hne]; [|left; rewrite Hother by done; by apply Hrest].
      rewrite Hcr, Hback. destruct r2 as [[]|e2]; [left; split; [done|by exists rules]|right].
      cbn [is_ok]. split; [split_and!; [done..|]; by exists rules, out|]. exists s1, e2, s2, (["-j"; chain_name m] :: out).
      split; [done|]. rewrite He, lookup_insert_eq. split; [done|left].
    + left. rewrite (unhook_unhooked _ _ _ _ _ _ _ Hw Hc Hun He E2).
      destruct (decide (g = f)) as [->|Hne]; [rewrite He, <- Ht; apply Ho|by apply Hrest].
Qed.

Lemma on_ipv6_recorded m t0 (b : bool) c cr cr' :
  (b = true -> triple (recorded m t0 cr) c (fun _ => recorded m t0 cr') (truthful m t0)) ->
  (b = false -> cr' = cr) ->
  triple (recorded m t0 cr) (on_ipv6 b c) (fun _ => recorded m t0 cr') (truthful m t0).
Proof.
  intros Ht Hf. destruct b; [by apply Ht|]. rewrite Hf by done. exact (triple_ret tt _ _).
Qed.

(** One step of the install, as a bind with the record it leaves. *)
Ltac install_step cr :=
  match goal with |- triple (recorded ?m ?t0 _) _ _ _ =>
    apply (triple_bind _ _ _ (fun _ => recorded m t0 cr)); [|intros []]
  end.

(** Both families have their chain, the second one if it is filtered. *)
Definition chains (b : bool) : CreatedResources := MkCreated (MkFamily true false) (MkFamily b false).

Lemma fill_recorded m t0 b specs4 specs6 :
  hook_point_wf (hook_point m) ->
  triple (recorded m t0 (chains b))
    (_ ← on_sys (run_rule_args m FamilyV4 ((fun spec => "-A" :: chain_name m :: spec) <$> specs4));
     on_ipv6 b (on_sys (run_rule_args m FamilyV6 ((fun spec => "-A" :: chain_name m :: spec) <$> specs6))))
    (fun _ => recorded m t0 (chains b)) (truthful m t0).
Proof.
  intros Hw. install_step (chains b); [by apply append_rules_recorded|].
  apply on_ipv6_recorded; intros ->; [by apply append_rules_recorded|done].
Qed.

(** After a complete install something is recorded. *)
Definition kept m t0 : Sys * CreatedResources -> Prop := fun st =>
  truthful m t0 st /\ chain (v4 st.2) = true.

Lemma hooks_recorded m t0 b :
  hook_point_wf (hook_point m) -> chain_name m <> "OUTPUT" -> unhooked m t0 ->
  triple (recorded m t0 (chains b))
    (if negb (is_hooked m) then mret tt
     else _ ← install_hook m FamilyV4; on_ipv6 b (install_hook m FamilyV6))
    (fun _ => kept m t0) (truthful m t0).
Proof.
  intros Hw Hc Hun. destruct (is_hooked m); cbn [negb].
  - apply (triple_consequence (recorded m t0 (chains b)) _ _
      (fun _ => recorded m t0 (MkCreated (MkFamily true true) (MkFamily b b)))); [done| |].
    { intros _ st Hst. split; [by eapply recorded_truthful|]. by destruct Hst as [-> _]. }
    install_step (MkCreated (MkFamily true true) (MkFamily b false)).
    + by apply (install_hook_recorded m t0 (chains b) FamilyV4).
    + apply on_ipv6_recorded; intros ->; [|done].
      by apply (install_hook_recorded m t0 (MkCreated (MkFamily true true) (MkFamily true false)) FamilyV6).
  - intros st r st' HP [= <- <-]. split; [by eapply recorded_truthful|]. by destruct HP as [-> _].
Qed.

Lemma status_recorded m t0 :
  hook_point_wf (hook_point m) ->
  triple (recorded m t0 CreatedResources_default) (on_sys (ip6tables_status m))
    (fun _ => recorded m t0 CreatedResources_default) (truthful m t0).
Proof.
  intros Hw [s cr] r st' [Heq [Ho Hp]] Hr. cbn in Heq, Ho, Hp. subst cr. unfold on_sys in Hr.
  destruct (ip6tables_status m s) as [r1 s1] eqn:E.
  pose proof (ip6tables_status_tables _ _ _ _ Hw E) as Ht. unfold ip6tables_status in E.
  destruct (exec _ _ _) as [outcome w]. injection E as <- <-. injection Hr as <- <-.
  split; [done|]. split; [|done]. intros g. cbn [fst]. rewrite Ht. apply Ho.
Qed.

Lemma install_recorded m t0 policy :
  hook_point_wf (hook_point m) -> chain_name m <> "OUTPUT" -> unhooked m t0 ->
  triple (recorded m t0 CreatedResources_default) (install_firewall_rules m policy)
    (fun _ => kept m t0) (truthful m t0).
Proof.
  intros Hw Hc Hun. unfold install_firewall_rules.
  apply (triple_bind _ _ _ _ _ _ (status_recorded m t0 Hw)).
  intros status. apply (triple_bind _ _ _ (fun _ => recorded m t0 CreatedResources_default)).
  { destruct status; [exact (triple_ret _ _ _)..|].
    intros st r st' HP [= <- <-]. by eapply recorded_truthful. }
  intros b. install_step (MkCreated (MkFamily true false) no_resources).
  { by apply (create_chain_recorded m t0 CreatedResources_default FamilyV4). }
  install_step (chains b).
  { apply on_ipv6_recorded; intros ->; [|done].
    by apply (create_chain_recorded m t0 (MkCreated (MkFamily true false) no_resources) FamilyV6). }
  cbv zeta. apply triple_bind_assoc.
  install_step (chains b); [by apply (fill_recorded m t0 b base_specs base_specs)|].
  destruct (build_policy_rules_logged (chain_name m) policy) as [rules|e] eqn:Ebuild; cycle 1.
  { intros st r st' HP [= <- <-]. by eapply recorded_truthful. }
  destruct (build_policy_rules_specs _ _ _ FamilyV4 Ebuild) as (entries & _ & Ha4).
  destruct (build_policy_rules_specs _ _ _ FamilyV6 Ebuild) as (entries' & _ & Ha6). cbn in Ha4, Ha6.
  apply (triple_bind _ _ _ (fun rs st => rs = rules /\ recorded m t0 (chains b) st)).
  { by intros st r st' HP [= <- <-]. }
  intros rs st r st' [-> HP]. revert st r st' HP. apply triple_bind_assoc. rewrite Ha4, Ha6.
  install_step (chains b); [by apply fill_recorded|].
  install_step (chains b); [by apply append_recorded|].
  install_step (chains b); [|by apply hooks_recorded].
  apply on_ipv6_recorded; intros ->; [by apply append_recorded|done].
Qed.

(** The families alone, between the commands of a teardown. *)
Definition all_held m t0 cr s : Prop :=
  forall f, family_held m f (family_of cr f) (t0 f) (tables m s f).

Lemma held_publish m t0 cr s : all_held m t0 cr s -> held m t0 cr (set_active_created cr s).
Proof. intros Hf. split; [intros f; rewrite tables_publish; apply Hf|apply publish_published]. Qed.

(** A chain that is jumped to cannot be deleted. *)
Lemma delete_hooked c rules out (t0 : ruleset) :
  c <> "OUTPUT" -> table_effect ["-X"; c] (<["OUTPUT" := ["-j"; c] :: out]> (<[c := rules]> t0)) = None.
Proof.
  intros Hc. cbn. rewrite lookup_insert_ne, lookup_insert_eq by done. cbn.
  assert (referenced c (<["OUTPUT" := ["-j"; c] :: out]> (<[c := rules]> t0)) = true) as ->; [|by rewrite andb_false_r].
  apply existsb_exists. exists ("OUTPUT", ["-j"; c] :: out). split.
  - apply list_elem_of_In, elem_of_map_to_list. apply lookup_insert_eq.
  - cbn. by rewrite bool_decide_eq_true_2.
Qed.

Lemma all_held_run m t0 cr cr' f args s :
  hook_point_wf (hook_point m) -> (forall c, args <> hook_args c) -> all_held m t0 cr s ->
  (forall g, g <> f -> family_of cr' g = family_of cr g) ->
  (forall rs, table_effect args (tables m s f) = Some rs -> family_held m f (family_of cr' f) (t0 f) rs) ->
  all_held m t0 (if (run_ok m f args s).1 then cr' else cr) (run_ok m f args s).2.
Proof.
  intros Hw Ha Ho Hg He g. unfold run_ok. destruct (run_tables m f args s) as [r s'] eqn:E. cbn.
  destruct (run_tables_atomic _ _ _ _ _ _ Hw E Ha) as (_ & _ & Hoth & Heff).
  destruct (decide (g = f)) as [->|Hne].
  - destruct (is_ok r); [by apply He|]. rewrite Heff. apply Ho.
  - rewrite (Hoth g Hne). destruct (is_ok r); [rewrite Hg by done|]; apply Ho.
Qed.

Lemma teardown_hook_owned m t0 cr f s h s' :
  hook_point_wf (hook_point m) -> chain_name m <> "OUTPUT" -> all_held m t0 cr s ->
  teardown_hook m f (hook (family_of cr f)) s = (h, s') -> all_held m t0 (set_hook f h cr) s'.
Proof.
  intros Hw Hc Ho Hd. unfold teardown_hook in Hd. destruct (hook (family_of cr f)) eqn:Eh.
  - pose proof (all_held_run m t0 cr (set_hook f false cr) f (unhook_args (chain_name m)) s Hw ltac:(done) Ho) as Hrun.
    destruct (run_ok _ _ _ _) as [ok s1]. injection Hd as <- <-. cbn in Hrun.
    assert (Hcr : set_hook f true cr = cr) by (destruct cr as [[] []], f; cbn in *; by subst).
    destruct ok; cbn; [|rewrite Hcr]; apply Hrun; try (by intros g Hg; destruct cr, f, g).
    all: intros rs (out & out' & Hout & Hdel & ->)%effect_unhook; specialize (Ho f).
    all: assert (family_of cr f = MkFamily true true) as Er
      by (destruct (family_of cr f) as [[] ?]; cbn in *; subst; [done|by destruct Ho as [[]|[[? _] _]]]); rewrite Er in Ho.
    all: destruct Ho as [(Hn & rules & out0 & Hout0 & Ht)|[[? _] _]]; [|done]; rewrite Ht, lookup_insert_eq in Hout.
    all: injection Hout as <-; cbn in Hdel; rewrite decide_True in Hdel by done; injection Hdel as <-.
    all: assert (family_of (set_hook f false cr) f = MkFamily true false) as ->
      by (destruct cr, f; cbn in *; by rewrite Er).
    all: left; split; [done|]; exists rules; rewrite Ht, insert_insert_eq; apply insert_id.
    all: by rewrite lookup_insert_ne.
  - injection Hd as <- <-. by destruct cr as [[] []], f; cbn in *; subst.
Qed.

Lemma teardown_chain_owned m t0 cr f s c s' :
  hook_point_wf (hook_point m) -> chain_name m <> "OUTPUT" -> all_held m t0 cr s ->
  teardown_chain m f (chain (family_of cr f)) (hook (family_of cr f)) s = (c, s') ->
  all_held m t0 (set_chain f c cr) s'.
Proof.
  intros Hw Hc Ho Hd. unfold teardown_chain in Hd. destruct (family_of cr f) as [ch h] eqn:Er. cbn in Hd.
  destruct ch; cbn in Hd; cycle 1.
  { injection Hd as <- <-. by destruct cr as [[] []], f; cbn in *; simplify_eq. }
  assert (Hcr : set_chain f true cr = cr) by (destruct cr as [[] []], f; cbn in *; by simplify_eq).
  destruct h; [by injection Hd as <- <-; rewrite Hcr|].
  assert (Hff : forall rs, table_effect ["-F"; chain_name m] (tables m s f) = Some rs ->
    family_held m f (family_of cr f) (t0 f) rs).
  { intros rs ->%effect_flush. specialize (Ho f). rewrite Er in Ho |- *.
    destruct Ho as [(Hn & rules & ->)|[(_ & Hn & rules & out & Hout & ->) Href]].
    - left. split; [done|]. rewrite insert_insert_eq. by eexists.
    - right. split; [|done]. split_and!; [done..|]. exists [], out. split; [done|].
      rewrite insert_insert_ne, insert_insert_eq by done. done. }
  pose proof (all_held_run m t0 cr cr f ["-F"; chain_name m] s Hw ltac:(done) Ho (fun _ _ => eq_refl) Hff) as Ho1.
  destruct (run_ok m f ["-F"; _] s) as [okf s1]. cbn in Ho1.
  assert (Ho2 : all_held m t0 cr s1) by (by destruct okf). clear Ho1.
  pose proof (all_held_run m t0 cr (set_chain f false cr) f ["-X"; chain_name m] s1 Hw ltac:(done) Ho2) as Hrun.
  destruct (run_ok m f ["-X"; _] s1) as [okx s2]. injection Hd as <- <-. cbn in Hrun.
  destruct okx; cbn; [|rewrite Hcr]; apply Hrun; try (by intros g Hg; destruct cr, f, g).
  all: intros rs Hx; change (table_effect ["-X"; chain_name m] (tables m s1 f) = Some rs) in Hx.
  all: specialize (Ho2 f); rewrite Er in Ho2.
  all: destruct Ho2 as [(Hn & rules & Ht)|[(_ & Hn & rules & out & Hout & Ht) Href]];
    [|by rewrite Ht, delete_hooked in Hx by done].
  all: apply effect_delete in Hx as ->; rewrite Ht; left.
  all: assert (family_of (set_chain f false cr) f = no_resources) as ->
    by (destruct cr, f; cbn in *; by rewrite Er).
  all: by cbn; rewrite delete_insert_id.
Qed.

Lemma teardown_owned m t0 cr s residual s' :
  hook_point_wf (hook_point m) -> chain_name m <> "OUTPUT" -> all_held m t0 cr s ->
  teardown_created m cr s = (residual, s') -> held m t0 residual s'.
Proof.
  intros Hw Hc Ho Hd. unfold teardown_created in Hd.
  destruct (teardown_hook m FamilyV4 _ s) as [h4 s1] eqn:E1.
  apply (teardown_hook_owned m t0 cr FamilyV4) in E1 as O1; [|done..].
  destruct (teardown_hook m FamilyV6 _ s1) as [h6 s2] eqn:E2.
  apply (teardown_hook_owned m t0 (set_hook FamilyV4 h4 cr) FamilyV6) in E2 as O2; [|done..].
  destruct (teardown_chain m FamilyV4 _ _ s2) as [c4 s3] eqn:E3.
  apply (teardown_chain_owned m t0 (set_hook FamilyV6 h6 (set_hook FamilyV4 h4 cr)) FamilyV4)
    in E3 as O3; [|done..].
  destruct (teardown_chain m FamilyV6 _ _ s3) as [c6 s4] eqn:E4.
  apply (teardown_chain_owned m t0
    (set_chain FamilyV4 c4 (set_hook FamilyV6 h6 (set_hook FamilyV4 h4 cr))) FamilyV6)
    in E4 as O4; [|done..].
  injection Hd as <- <-. by apply held_publish.
Qed.

(** ** Any sequence of operations *)

Inductive operation : Type := Apply (policy : ContainerPolicy) | Remove.

Definition perform (op : operation) (st : NetworkIptablesManager * Sys) : NetworkIptablesManager * Sys :=
  match op with
  | Apply policy => (apply_firewall_rules policy st).2
  | Remove => remove_firewall_rules st.1 st.2
  end.

Definition perform_all (ops : list operation) (st : NetworkIptablesManager * Sys)
  : NetworkIptablesManager * Sys :=
  foldl (fun st op => perform op st) st ops.

(** The manager is the one of the start but for its record, which is truthful;
    rules are applied as long as something is recorded. *)
Definition accounted m0 (t0 : IpFamily -> ruleset) (st : NetworkIptablesManager * Sys) : Prop :=
  chain_name st.1 = chain_name m0 /\ hook_point st.1 = hook_point m0 /\
  rules_applied st.1 = negb (created_is_empty (created st.1)) /\ held m0 t0 (created st.1) st.2.

Lemma held_manager m m' t0 cr s :
  chain_name m' = chain_name m -> hook_point m' = hook_point m ->
  held m' t0 cr s <-> held m t0 cr s.
Proof.
  intros Hn Hh. unfold held, family_held, family_owned, stranded, removal_refused, run_tables, run_firewall_command, tables.
  by rewrite Hn, Hh.
Qed.

Lemma created_is_empty_default c : created_is_empty c = true -> c = CreatedResources_default.
Proof. by destruct c as [[[] []] [[] []]]. Qed.

Lemma perform_accounted m0 t0 op st :
  hook_point_wf (hook_point m0) -> chain_name m0 <> "OUTPUT" -> unhooked m0 t0 ->
  accounted m0 t0 st -> accounted m0 t0 (perform op st).
Proof.
  intros Hw Hc Hun Hacc. destruct st as [m s]. pose proof Hacc as (Hn & Hh & Ha & Ho). cbn [fst snd] in *.
  assert (Hw' : hook_point_wf (hook_point m)) by (by rewrite Hh).
  assert (Hc' : chain_name m <> "OUTPUT") by (by rewrite Hn).
  assert (Hun' : unhooked m t0) by (unfold unhooked in *; by rewrite Hn).
  apply (held_manager m0 m) in Ho; [|done..].
  assert (Hend : forall c s', held m t0 c s' ->
    accounted m0 t0 (own c (negb (created_is_empty c)) m, s')).
  { intros c s' Hs. split; [done|]. split; [done|]. split; [done|]. by apply (held_manager m0 m). }
  destruct op as [policy|]; cbn.
  - destruct (installs_firewall _); cbn; [|done]. destruct (rules_applied m); [done|].
    symmetry in Ha. apply negb_false_iff, created_is_empty_default in Ha. rewrite Ha in Ho.
    assert (Hstrict : owned m t0 CreatedResources_default s).
    { destruct Ho as [Ho Hp]. split; [|done]. intros f. destruct (Ho f) as [?|[[? _] _]]; [done|by destruct f]. }
    unfold apply_firewall_rules_inner.
    destruct (install_firewall_rules m policy _) as [r [s1 c]] eqn:Ei.
    pose proof (install_recorded m t0 policy Hw' Hc' Hun' (s, CreatedResources_default) _ _
      (conj eq_refl Hstrict) Ei) as Ht.
    destruct r as [[]|e].
    + destruct Ht as [Ht Hv]. specialize (Hend c s1 Ht).
      by replace (negb (created_is_empty c)) with true in Hend by (destruct c as [[] []]; cbn in *; by subst).
    + destruct (teardown_created m c s1) as [residual s2] eqn:Ed. cbn. apply Hend.
      by apply (teardown_owned m t0 c s1 residual s2 Hw' Hc' (proj1 Ht)).
  - unfold remove_firewall_rules. destruct (rules_applied m); cbn; [|done].
    destruct (teardown_created m (created m) s) as [residual s2] eqn:Ed. apply Hend.
    by apply (teardown_owned m t0 (created m) s residual s2 Hw' Hc' (proj1 Ho)).
Qed.


(** ** A stranded hook *)

Lemma run_ok_stranded m f g args r t0 s :
  hook_point_wf (hook_point m) -> chain_name m <> "OUTPUT" -> g <> f \/ args = ["-F"; chain_name m] ->
  stranded m r t0 (tables m s f) -> stranded m r t0 (tables m (run_ok m g args s).2 f).
Proof.
  intros Hw Hc Hargs Hs. unfold run_ok. destruct (run_tables m g args s) as [res s'] eqn:E. cbn.
  destruct (run_tables_effect _ _ _ _ _ _ Hw E) as (_ & _ & Ho & He).
  destruct (decide (g = f)) as [->|Hne]; [|by rewrite Ho by congruence].
  destruct Hargs as [?| ->]; [done|]. destruct He as [->%effect_flush|[_ ->]]; [|done].
  destruct Hs as (-> & Hn & rules & out & Hout & ->). split_and!; [done..|]. exists [], out.
  by rewrite insert_insert_ne, insert_insert_eq by done.
Qed.

Lemma teardown_hook_stranded m f g cr t0 s h s' :
  hook_point_wf (hook_point m) -> chain_name m <> "OUTPUT" -> stranded m (family_of cr f) t0 (tables m s f) ->
  teardown_hook m g (hook (family_of cr g)) s = (h, s') ->
  stranded m (family_of (set_hook g h cr) f) t0 (tables m s' f).
Proof.
  intros Hw Hc Hs Hd. unfold teardown_hook in Hd. destruct (decide (g = f)) as [->|Hne].
  - pose proof Hs as [Hr _]. rewrite Hr in Hd. injection Hd as <- <-.
    by replace (set_hook f false cr) with cr by (destruct cr as [[] []], f; cbn in *; by simplify_eq).
  - pose proof (run_ok_stranded m f g (unhook_args (chain_name m)) _ t0 s Hw Hc (or_introl Hne) Hs) as Hrun.
    replace (family_of (set_hook g h cr) f) with (family_of cr f) by (by destruct cr, f, g).
    destruct (hook _); [|by injection Hd as _ <-]. destruct (run_ok _ _ _ _). by injection Hd as _ <-.
Qed.

Lemma teardown_chain_stranded m f g cr t0 s c s' :
  hook_point_wf (hook_point m) -> chain_name m <> "OUTPUT" -> stranded m (family_of cr f) t0 (tables m s f) ->
  teardown_chain m g (chain (family_of cr g)) (hook (family_of cr g)) s = (c, s') ->
  stranded m (family_of (set_chain g c cr) f) t0 (tables m s' f).
Proof.
  intros Hw Hc Hs Hd. unfold teardown_chain in Hd. destruct (decide (g = f)) as [->|Hne].
  - pose proof Hs as [Hr _]. rewrite Hr in Hd. cbn in Hd.
    pose proof (run_ok_stranded m f f ["-F"; chain_name m] _ t0 s Hw Hc (or_intror eq_refl) Hs) as Hf.
    destruct (run_ok m f ["-F"; _] s) as [b s1]. cbn in Hf.
    unfold run_ok in Hd. destruct (run_tables m f _ s1) as [r2 s2] eqn:E2. injection Hd as <- <-.
    destruct (run_tables_atomic _ _ _ _ _ _ Hw E2 ltac:(done)) as (_ & _ & _ & He).
    pose proof Hf as (_ & _ & rules & out & _ & Ht). destruct (is_ok r2).
    { by rewrite Ht, delete_hooked in He. }
    rewrite He. cbn [negb].
    by replace (set_chain f true cr) with cr by (destruct cr as [[] []], f; cbn in *; by simplify_eq).
  - replace (family_of (set_chain g c cr) f) with (family_of cr f) by (by destruct cr, f, g).
    destruct (chain _); [|by injection Hd as _ <-]. destruct (hook _); [by injection Hd as _ <-|]. cbn in Hd.
    pose proof (run_ok_stranded m f g ["-F"; chain_name m] _ t0 s Hw Hc (or_introl Hne) Hs) as H1.
    destruct (run_ok m g ["-F"; _] s) as [b s1]. cbn in H1.
    pose proof (run_ok_stranded m f g ["-X"; chain_name m] _ t0 s1 Hw Hc (or_introl Hne) H1) as H2.
    destruct (run_ok m g ["-X"; _] s1) as [b' s2]. by injection Hd as _ <-.
Qed.

Lemma teardown_stranded m f cr t0 s residual s' :
  hook_point_wf (hook_point m) -> chain_name m <> "OUTPUT" -> stranded m (family_of cr f) t0 (tables m s f) ->
  teardown_created m cr s = (residual, s') -> stranded m (family_of residual f) t0 (tables m s' f).
Proof.
  intros Hw Hc Hs Hd. unfold teardown_created in Hd.
  destruct (teardown_hook m FamilyV4 _ s) as [h4 s1] eqn:E1.
  apply (teardown_hook_stranded m f FamilyV4 cr t0) in E1; [|done..].
  destruct (teardown_hook m FamilyV6 _ s1) as [h6 s2] eqn:E2.
  apply (teardown_hook_stranded m f FamilyV6 (set_hook FamilyV4 h4 cr) t0) in E2; [|done..].
  destruct (teardown_chain m FamilyV4 _ _ s2) as [c4 s3] eqn:E3.
  apply (teardown_chain_stranded m f FamilyV4 (set_hook FamilyV6 h6 (set_hook FamilyV4 h4 cr)) t0) in E3; [|done..].
  destruct (teardown_chain m FamilyV6 _ _ s3) as [c6 s4] eqn:E4.
  apply (teardown_chain_stranded m f FamilyV6
    (set_chain FamilyV4 c4 (set_hook FamilyV6 h6 (set_hook FamilyV4 h4 cr))) t0) in E4; [|done..].
  injection Hd as <- <-. by rewrite tables_publish.
Qed.

(** A manager that has stranded a hook. *)
Definition strands m0 f (t0 : ruleset) (st : NetworkIptablesManager * Sys) : Prop :=
  chain_name st.1 = chain_name m0 /\ hook_point st.1 = hook_point m0 /\ rules_applied st.1 = true /\
  stranded m0 (family_of (created st.1) f) t0 (tables m0 st.2 f).

Lemma retain_strands m0 m f t0 residual s :
  chain_name m = chain_name m0 -> hook_point m = hook_point m0 ->
  stranded m0 (family_of residual f) t0 (tables m0 s f) ->
  strands m0 f t0 (retain_residual_ownership residual m, s).
Proof.
  intros Hn Hh Hs. split_and!; [done..| |done]. cbn. destruct Hs as [Hr _].
  by destruct residual as [[[] []] [[] []]], f; cbn in *.
Qed.

Lemma perform_strands m0 f t0 op st :
  hook_point_wf (hook_point m0) -> chain_name m0 <> "OUTPUT" -> strands m0 f t0 st -> strands m0 f t0 (perform op st).
Proof.
  intros Hw Hc Hst. destruct st as [m s]. pose proof Hst as (Hn & Hh & Ha & Hs). cbn [fst snd] in *.
  destruct op as [policy|]; cbn.
  - rewrite Ha. by destruct (installs_firewall _).
  - unfold remove_firewall_rules. rewrite Ha. cbn. destruct (teardown_created m (created m) s) as [residual s2] eqn:Ed.
    assert (Hs' : stranded m (family_of residual f) t0 (tables m s2 f)).
    { apply (teardown_stranded m f (created m) t0 s); [by rewrite Hh|by rewrite Hn| |done].
      unfold stranded, tables in *. by rewrite Hn, Hh. }
    apply retain_strands; [done..|]. unfold stranded, tables in *. by rewrite <- Hn, <- Hh.
Qed.

(** C34. A hook that was inserted by a command that reported a failure, and that
    the next command could not take out, is lost: the installer fails and
    releases its claim, and from then on, whatever is applied or removed
    afterwards, the output chain jumps to a chain that is never deleted, while
    the record names the chain only, so that no removal of the jump is tried. *)
Theorem failed_hook_is_released (m : NetworkIptablesManager) f t0 rules out s cr e1 s1 e2 s2 (ops : list operation) :
  hook_point_wf (hook_point m) -> chain_name m <> "OUTPUT" -> family_of cr f = MkFamily true false ->
  t0 !! chain_name m = None -> t0 !! "OUTPUT" = Some out -> tables m s f = <[chain_name m := rules]> t0 ->
  run_tables m f (hook_args (chain_name m)) (set_active_created (set_hook f true cr) s) = (Err e1, s1) ->
  tables m s1 f <> tables m s f ->
  run_tables m f (unhook_args (chain_name m)) s1 = (Err e2, s2) ->
  exists s3, install_hook m f (s, cr) = (Err e1, (s3, cr)) /\
    let '(residual, s4) := teardown_created m cr s3 in
    let '(m', s') := perform_all ops (retain_residual_ownership residual m, s4) in
    stranded m (family_of (created m') f) t0 (tables m s' f).
Proof.
  intros Hw Hc Hcr Hn Hout Ht E1 Hne E2.
  destruct (run_tables_effect _ _ _ _ _ _ Hw E1) as (_ & _ & _ & He). rewrite tables_publish in He.
  destruct He as [He|[_ ?]]; [|done]. apply effect_hook in He as (out' & Hout' & He).
  rewrite Ht, lookup_insert_ne, Hout in Hout' by done. injection Hout' as <-. rewrite Ht in He.
  destruct (unhook_applied m f _ rules out t0 s1 (Err e2) s2 Hw Hc eq_refl Hout He E2) as [_ Hback]. cbn in Hback.
  assert (Hcr' : set_hook f false (set_hook f true cr) = cr) by (destruct cr as [[] []], f; cbn in *; by simplify_eq).
  exists (set_active_created cr s2). split.
  { unfold install_hook, attempt, on_sys, claim, mbind, stateful_bind. by rewrite E1, E2, Hcr'. }
  destruct (teardown_created m cr _) as [residual s4] eqn:Ed.
  apply (teardown_stranded m f cr t0) in Ed; [|done..|]; cycle 1.
  { rewrite tables_publish, Hback, Hcr. split_and!; [done..|]. by exists rules, out. }
  assert (Hall : strands m f t0 (perform_all ops (retain_residual_ownership residual m, s4))).
  { apply (foldl_inv (strands m f t0)); [by apply retain_strands|]. intros st op. by apply perform_strands. }
  destruct (perform_all _ _) as [m' s']. by destruct Hall as (_ & _ & _ & ?).
Qed.

End Atomic.
(** ** A host that keeps its filter tables in memory *)
Module Memory.

(** The tables by the words that address them; IPv6 is not classified. *)
Definition tables_of (w : gmap (list string) ruleset) (address : list string) : ruleset :=
  default (<["INPUT" := []]> {["OUTPUT" := []]}) (w !! address).

(** What the commands say when they refuse. *)
Definition diagnostic (args : list string) (rs : ruleset) : string :=
  match args with
  | op :: c :: _ =>
      if decide (op = "-D") then "iptables: Bad rule (does a matching rule exist in that chain?)."
      else match rs !! c with
      | None => "iptables: No chain/target/match by that name."
      | Some _ => if decide (op = "-X") then "iptables: Directory not empty." else "iptables: Chain already exists."
      end
  | _ => "iptables: no command specified"
  end.

Definition address_length (argv : list string) : nat :=
  match argv with w :: _ => if decide (w = "nsenter") then 5 else 1 | [] => 0 end.

Definition run (argv : list string) (w : gmap (list string) ruleset)
  : ExecOutcome * gmap (list string) ruleset :=
  let address := take (address_length argv) argv in
  match table_effect (drop (address_length argv) argv) (tables_of w address) with
  | Some rs => (Exited true "", <[address := rs]> w)
  | None =>
      (Exited false (diagnostic (drop (address_length argv) argv) (tables_of w address)), w)
  end.

#[local] Instance host : Host := {|
  World := gmap (list string) ruleset;
  exec := fun _ => run;
  read_to_string := fun _ _ => Err NotFound;
  is_dir := fun _ _ => true;
|}.

Definition address (hook : EgressHookPoint) (f : IpFamily) : list string :=
  command_argv hook (firewall_binary f) [].

Lemma run_command hook f args w :
  run (command_argv hook (firewall_binary f) args) w =
  match table_effect args (tables_of w (address hook f)) with
  | Some rs => (Exited true "", <[address hook f := rs]> w)
  | None => (Exited false (diagnostic args (tables_of w (address hook f))), w)
  end.
Proof. by destruct hook, f. Qed.

Lemma address_ne hook f g : g <> f -> address hook f <> address hook g.
Proof. by destruct hook, f, g. Qed.

#[local] Instance laws : NetfilterLaws host.
Proof.
  refine {| filter_table := fun w hook f => tables_of w (address hook f) |}.
  intros env hook f args w outcome w' _. cbn [exec host]. rewrite run_command.
  destruct (table_effect args _) as [rs|] eqn:E; intros [= <- <-]; [|auto].
  unfold tables_of. rewrite lookup_insert_eq. split; [|by left].
  intros g Hg. by rewrite lookup_insert_ne by (by apply address_ne).
Defined.

#[local] Instance atomic : NetfilterAtomic host.
Proof.
  intros env hook f args w outcome w' _ _. cbn [exec host]. rewrite run_command.
  by destruct (table_effect args _); intros [= <- <-].
Qed.

Definition manager : NetworkIptablesManager :=
  MkManager "MXC-C" false false (ContainerNetns 42) CreatedResources_default.
Definition start : Sys := MkSys ∅ true (MkActive (Some "c") CreatedResources_default (Some 42)).

Definition final : NetworkIptablesManager * Sys := (apply_firewall_rules example_policy (manager, start)).2.

Lemma apply_enforces_policy_witness :
  v4 (created final.1) = MkFamily true true.
Proof.
  apply (apply_enforces_policy manager example_policy 42 start final.1 final.2).
  - reflexivity.
  - unfold u32_max. lia.
  - discriminate.
  - reflexivity.
  - exact example_policy_ok.
  - apply injective_projections; [vm_compute; reflexivity|]. exact (surjective_pairing final).
Defined.


Definition hooked_manager : NetworkIptablesManager :=
  own (MkCreated (MkFamily true true) no_resources) true manager.
Definition hooked_world : Sys :=
  set_world {[address (ContainerNetns 42) FamilyV4 :=
    <["MXC-C" := [["-j"; "DROP"]]]> {["OUTPUT" := []]}]} start.

Lemma remove_keeps_hooked_chain_witness :
  tables hooked_manager (remove_firewall_rules hooked_manager hooked_world).2 FamilyV4 !! "MXC-C" =
  Some [["-j"; "DROP"]].
Proof.
  transitivity (tables hooked_manager hooked_world FamilyV4 !! "MXC-C"); [|reflexivity].
  apply (remove_keeps_hooked_chain hooked_manager hooked_world FamilyV4).
  - cbn. unfold u32_max. lia.
  - discriminate.
  - reflexivity.
  - vm_compute. reflexivity.
Defined.

(** The same tables behind a command that applies the insertion of a hook and
    reports a failure, and refuses every deletion. *)
Definition run_faulty (argv : list string) (w : gmap (list string) ruleset)
  : ExecOutcome * gmap (list string) ruleset :=
  let args := drop (address_length argv) argv in
  if decide (args = hook_args (default "" (last args))) then (Exited false "", (run argv w).2)
  else if decide (head args = Some "-D") then (Exited false "", w)
  else run argv w.

#[local] Instance faulty_host : Host := {|
  World := gmap (list string) ruleset;
  exec := fun _ => run_faulty;
  read_to_string := fun _ _ => Err NotFound;
  is_dir := fun _ _ => true;
|}.

Lemma run_faulty_cases hook f args w outcome w' :
  run_faulty (command_argv hook (firewall_binary f) args) w = (outcome, w') ->
  run (command_argv hook (firewall_binary f) args) w = (outcome, w') \/
  succeeded outcome = false /\
    (w' = w \/ (exists c, args = hook_args c) /\ w' = (run (command_argv hook (firewall_binary f) args) w).2).
Proof.
  unfold run_faulty. assert (Hd : drop (address_length (command_argv hook (firewall_binary f) args))
    (command_argv hook (firewall_binary f) args) = args) by (by destruct hook, f).
  rewrite Hd. case_decide as Hh; [intros [= <- <-]; right; eauto|].
  case_decide; [intros [= <- <-]; auto|by left].
Qed.

#[local] Instance faulty_laws : NetfilterLaws faulty_host.
Proof.
  refine (@Build_NetfilterLaws faulty_host (fun w hook f => tables_of w (address hook f)) _).
  intros env hook f args w outcome w' Hw [Hr|[Hs [->|[_ Hr]]]]%run_faulty_cases; [|by auto|].
  - exact (exec_effect (H := host) [] hook f args w outcome w' Hw Hr).
  - destruct (run (command_argv hook (firewall_binary f) args) w) as [o w1] eqn:E. cbn in Hr. subst w1.
    destruct (exec_effect (H := host) [] hook f args w o w' Hw E) as [Ho [He|[_ He]]]; auto.
Defined.

#[local] Instance faulty_atomic : NetfilterAtomic faulty_host.
Proof.
  intros env hook f args w outcome w' Hw Ha [Hr|[Hs [->|[[c Hc] _]]]]%run_faulty_cases Hf; [|done|by destruct (Ha c)].
  exact (exec_atomic (H := host) [] hook f args w outcome w' Hw Ha Hr Hf).
Qed.

(** The chain is there, and its hook is inserted by a command that says it failed. *)
Definition chained : @Sys faulty_host :=
  MkSys {[address (ContainerNetns 42) FamilyV4 := <["MXC-C" := [["-j"; "DROP"]]]> {["OUTPUT" := []]}]} true (slot start).

Definition chain_only : CreatedResources := MkCreated (MkFamily true false) no_resources.

Lemma failed_hook_is_released_witness :
  exists s3, fst (install_hook manager FamilyV4 (chained, chain_only)) = Err (fst s3) /\
    let '(residual, s4) := teardown_created manager chain_only (snd s3) in
    let '(m', s') := perform_all [Remove; Apply example_policy] (retain_residual_ownership residual manager, s4) in
    stranded manager (family_of (created m') FamilyV4) {["OUTPUT" := []]} (tables manager s' FamilyV4).
Proof.
  set (inserted := run_tables manager FamilyV4 (hook_args "MXC-C")
    (set_active_created (set_hook FamilyV4 true chain_only) chained)).
  set (removed := run_tables manager FamilyV4 (unhook_args "MXC-C") inserted.2).
  assert (E1 : is_ok inserted.1 = false) by (vm_compute; reflexivity).
  assert (E2 : is_ok removed.1 = false) by (vm_compute; reflexivity).
  destruct inserted.1 as [|e1] eqn:F1; [discriminate E1|]. destruct removed.1 as [|e2] eqn:F2; [discriminate E2|].
  destruct (failed_hook_is_released manager FamilyV4 {["OUTPUT" := []]} [["-j"; "DROP"]] [] chained chain_only
    e1 inserted.2 e2 removed.2 [Remove; Apply example_policy]) as (s3 & Hi & Hrest).
  - cbn. unfold u32_max. lia.
  - discriminate.
  - reflexivity.
  - reflexivity.
  - reflexivity.
  - reflexivity.
  - apply injective_projections; [exact F1|reflexivity].
  - intros Heq. assert (Hl := f_equal (lookup "OUTPUT") Heq). vm_compute in Hl. discriminate Hl.
  - apply injective_projections; [exact F2|reflexivity].
  - exists (e1, s3). split; [rewrite Hi; reflexivity|exact Hrest].
Defined.

End Memory.
End Firewall.
