(* ===== verification/LxcIngress.v ===== *)
(** * The LXC inbound chain

    [backends/lxc/common/network_ingress.rs]: the chain that denies new inbound
    connections in the container's namespace, its installation over whatever an
    earlier run left behind, and its removal.  Commands run on the [Host] of
    LxcFirewall, here with the C locale in their environment; log lines are not
    modelled.  The address families are those of network_blocks.rs. *)

From Stdlib Require Import Ascii.
From stdpp Require Import gmap.
From S2P Require Import Prelude NetText Models NetworkBlocks Netfilter LxcNames LxcEgress LxcFirewall.

Module Ingress.

Import Blocks (IpFamily, FamilyV4, FamilyV6).
Import Lxc (plan_network, installs_firewall).
Import Firewall (Host, World, exec, read_to_string, is_dir, ExecOutcome, Exited, SpawnFailed,
  HostIpv6State, Ip6tablesStatus, Available, KernelIpv6Disabled, UnusableButIpv6Active,
  classify_ip6tables_status, ipv6_state_treated_as_active, classify_container_ipv6_state).

Definition binary (f : IpFamily) : string :=
  match f with FamilyV4 => "iptables" | FamilyV6 => "ip6tables" end.

Definition ICMPV6_ALLOW_TYPES : list string :=
  ["133"; "134"; "135"; "136"; "130"; "131"; "132"; "143"; "1"; "2"; "3"; "4"].

Record IngressManager : Type := MkIngressManager {
  chain_name : string;
  netns_pid : Z;
  v4_chain_created : bool;
  v6_chain_created : bool;
  v4_hooked : bool;
  v6_hooked : bool;
  preserve_policy : bool;
}.

Inductive RunError : Type :=
| Spawn (msg : string)
| Exit (stderr msg : string).

Definition into_message (e : RunError) : string :=
  match e with Spawn msg => msg | Exit _ msg => msg end.

Inductive StepKind : Type := Unhook | Flush | Delete.
#[global] Instance StepKind_eq_dec : EqDecision StepKind.
Proof. solve_decision. Defined.

Record TeardownStep : Type := MkStep {
  family : IpFamily;
  kind : StepKind;
  args : list string;
}.

Definition stderr_means_absent (k : StepKind) (stderr : string) : bool :=
  let s := to_ascii_lowercase stderr in
  let absent_chain := str_contains "does not exist" s || str_contains "couldn't load target" s in
  match k with
  | Unhook =>
      str_contains "no chain/target/match by that name" s ||
      str_contains "does a matching rule exist" s || absent_chain
  | Flush | Delete => str_contains "no chain/target/match by that name" s || absent_chain
  end.

(** The constructors [TeardownStep::unhook], [::flush] and [::delete]. *)
Definition step_unhook (f : IpFamily) (chain : string) : TeardownStep :=
  MkStep f Unhook ["-D"; "INPUT"; "-j"; chain].
Definition step_flush (f : IpFamily) (chain : string) : TeardownStep :=
  MkStep f Flush ["-F"; chain].
Definition step_delete (f : IpFamily) (chain : string) : TeardownStep :=
  MkStep f Delete ["-X"; chain].

Definition MAX_UNHOOK_ATTEMPTS : nat := 128.

(** The variables [nsenter_command] sets. *)
Definition nsenter_env : list (string * string) := [("LC_ALL", "C"); ("LANG", "C")].

Definition build_nsenter_argv (netns_pid : Z) (binary : string) (args : list string) : list string :=
  ["nsenter"; "-t"; dec netns_pid; "-n"; binary] ++ args.

Record IngressRules : Type := MkRules {
  body : list (list string);
  hook : list string;
}.

(** The errors of the public operations. *)
Inductive IngressError : Type :=
| PermissiveInbound (field : string)
| Ipv6Undeniable (chain_name : string)
| CommandError (msg : string)
| TeardownFailed (chain_name : string) (failures : list string).

(** ** The record *)

Definition ingress_new (sha256 : string -> list Z) (container_name : string) (netns_pid : Z)
  : IngressManager :=
  MkIngressManager (Names.ingress_chain_name_for sha256 container_name) netns_pid false false false false false.

Definition set_preserve_policy (preserve : bool) (m : IngressManager) : IngressManager :=
  MkIngressManager (chain_name m) (netns_pid m) (v4_chain_created m) (v6_chain_created m)
    (v4_hooked m) (v6_hooked m) preserve.

Definition with_flags (c4 c6 h4 h6 : bool) (m : IngressManager) : IngressManager :=
  MkIngressManager (chain_name m) (netns_pid m) c4 c6 h4 h6 (preserve_policy m).

Definition forget : IngressManager -> IngressManager := with_flags false false false false.

Definition rules_applied (m : IngressManager) : bool :=
  v4_chain_created m || v6_chain_created m || v4_hooked m || v6_hooked m.

Definition should_cleanup_on_drop (m : IngressManager) : bool :=
  rules_applied m && negb (preserve_policy m).

(** [set_created] and [clear_created], [set_hooked] and [clear_hooked]. *)
Definition write_created (f : IpFamily) (b : bool) (m : IngressManager) : IngressManager :=
  match f with
  | FamilyV4 => with_flags b (v6_chain_created m) (v4_hooked m) (v6_hooked m) m
  | FamilyV6 => with_flags (v4_chain_created m) b (v4_hooked m) (v6_hooked m) m
  end.
Definition write_hooked (f : IpFamily) (b : bool) (m : IngressManager) : IngressManager :=
  match f with
  | FamilyV4 => with_flags (v4_chain_created m) (v6_chain_created m) b (v6_hooked m) m
  | FamilyV6 => with_flags (v4_chain_created m) (v6_chain_created m) (v4_hooked m) b m
  end.

Definition created (m : IngressManager) (f : IpFamily) : bool :=
  match f with FamilyV4 => v4_chain_created m | FamilyV6 => v6_chain_created m end.
Definition hooked (m : IngressManager) (f : IpFamily) : bool :=
  match f with FamilyV4 => v4_hooked m | FamilyV6 => v6_hooked m end.

Definition permissive_inbound_field (policy : ContainerPolicy) : option string :=
  match network_ingress policy with
  | Some ingress =>
      if decide (ingress_default ingress = Allow) then Some "network.ingress.default"
      else if decide (host_loopback ingress = Allow) then Some "network.ingress.hostLoopback"
      else None
  | None => None
  end.

(** ** The chain *)

Definition build_ingress_rules (chain : string) (f : IpFamily) : IngressRules :=
  let accept := "ACCEPT" in
  let drop := "DROP" in
  MkRules
    ([["-A"; chain; "-i"; "lo"; "-j"; accept];
      ["-A"; chain; "-m"; "conntrack"; "--ctstate"; "ESTABLISHED,RELATED"; "-j"; accept]] ++
     match f with
     | FamilyV6 =>
         (fun t => ["-A"; chain; "-p"; "icmpv6"; "--icmpv6-type"; t; "-j"; accept]) <$> ICMPV6_ALLOW_TYPES
     | FamilyV4 => []
     end ++
     [["-A"; chain; "-m"; "conntrack"; "--ctstate"; "NEW"; "-j"; drop];
      ["-A"; chain; "-j"; drop]])
    ["-I"; "INPUT"; "-j"; chain].

Definition reset_steps (f : IpFamily) (chain : string) : list TeardownStep :=
  [step_unhook f chain; step_flush f chain; step_delete f chain].

Definition owned_teardown_steps (m : IngressManager) : list TeardownStep :=
  mjoin ((fun f =>
    (if hooked m f then [step_unhook f (chain_name m)] else []) ++
    (if created m f then [step_flush f (chain_name m); step_delete f (chain_name m)] else []))
    <$> [FamilyV4; FamilyV6]).

Definition clear_step_flag (step : TeardownStep) (m : IngressManager) : IngressManager :=
  match kind step with
  | Unhook => write_hooked (family step) false m
  | Flush => m
  | Delete => write_created (family step) false m
  end.

Section WithHost.
Context `{Host}.

(** ** Commands *)

(** [NsenterRunner::run]. *)
Definition nsenter_run (argv : list string) (w : World) : result RunError unit * World :=
  let '(outcome, w) := exec nsenter_env argv w in
  (match outcome with
   | Exited true _ => Ok tt
   | Exited false stderr => Err (Exit stderr (string_join " " argv +:+ " failed: " +:+ stderr))
   | SpawnFailed e => Err (Spawn ("Failed to spawn '" +:+ string_join " " argv +:+ "': " +:+ e))
   end, w).

(** [IngressManager::run]; [run_logged] only adds log lines. *)
Definition run (m : IngressManager) (binary : string) (args : list string) (w : World)
  : result RunError unit * World :=
  nsenter_run (build_nsenter_argv (netns_pid m) binary args) w.

(** ** Teardown *)

(** The local variables of [execute_teardown]. *)
Record Progress : Type := MkProgress {
  failures : list string;
  blocked : IpFamily -> bool;
  removed : bool;
}.

Definition block (f : IpFamily) (msg : string) (p : Progress) : Progress :=
  MkProgress (failures p ++ [msg])
    (fun g => if decide (g = f) then true else blocked p g) (removed p).
Definition mark_removed (p : Progress) : Progress := MkProgress (failures p) (blocked p) true.

Definition still_removing (chain_name : string) : string :=
  "still removing INPUT references to chain '" +:+ chain_name +:+ "' after " +:+
  dec (Z.of_nat MAX_UNHOOK_ATTEMPTS) +:+ " attempts".

(** How a command of a step ended. *)
Inductive StepOutcome : Type := Done | Absent | Failed (msg : string).

Definition step_outcome (k : StepKind) (r : result RunError unit) : StepOutcome :=
  match r with
  | Ok _ => Done
  | Err (Exit stderr msg) => if stderr_means_absent k stderr then Absent else Failed msg
  | Err e => Failed (into_message e)
  end.

(** The attempts of an unhook step: whether the hooks are cleared. *)
Fixpoint unhook_loop (attempts : nat) (m : IngressManager) (step : TeardownStep) (p : Progress)
    (w : World) : bool * Progress * World :=
  match attempts with
  | O => (false, block (family step) (still_removing (chain_name m)) p, w)
  | S attempts =>
      let '(r, w) := run m (binary (family step)) (args step) w in
      match step_outcome Unhook r with
      | Done => unhook_loop attempts m step (mark_removed p) w
      | Absent => (true, p, w)
      | Failed msg => (false, block (family step) msg p, w)
      end
  end.

Definition teardown_step (step : TeardownStep) (st : IngressManager * Progress * World)
  : IngressManager * Progress * World :=
  let '(m, p, w) := st in
  if blocked p (family step) then st
  else match kind step with
  | Unhook =>
      let '(cleared, p, w) := unhook_loop MAX_UNHOOK_ATTEMPTS m step p w in
      (if (cleared : bool) then write_hooked (family step) false m else m, p, w)
  | Flush | Delete =>
      let '(r, w) := run m (binary (family step)) (args step) w in
      match step_outcome (kind step) r with
      | Done => (clear_step_flag step m, mark_removed p, w)
      | Absent => (clear_step_flag step m, p, w)
      | Failed msg => (m, block (family step) msg p, w)
      end
  end.

Definition execute_teardown (steps : list TeardownStep)
  : stateful (IngressManager * World) IngressError bool := fun '(m, w) =>
  let '(m, p, w) :=
    foldl (fun st step => teardown_step step st) (m, MkProgress [] (fun _ => false) false, w) steps in
  (if is_empty (failures p) then Ok (removed p)
   else Err (TeardownFailed (chain_name m) (failures p)), (m, w)).

Definition remove_firewall_rules : stateful (IngressManager * World) IngressError unit := fun '(m, w) =>
  if negb (rules_applied m) then (Ok tt, (m, w))
  else (_ ← execute_teardown (owned_teardown_steps m); mret tt) (m, w).

Definition for_full_reset (sha256 : string -> list Z) (container_name : string) (netns_pid : Z)
  : IngressManager :=
  with_flags true true true true (ingress_new sha256 container_name netns_pid).

Definition force_cleanup (sha256 : string -> list Z) (container_name : string) (netns_pid : Z) (w : World)
  : World :=
  (remove_firewall_rules (for_full_reset sha256 container_name netns_pid, w)).2.2.

(** [Drop]. *)
Definition drop_ingress (m : IngressManager) (w : World) : World :=
  if should_cleanup_on_drop m then (remove_firewall_rules (m, w)).2.2 else w.

(** ** Installing *)

Definition reset_family (f : IpFamily) : stateful (IngressManager * World) IngressError unit := fun '(m, w) =>
  (_ ← execute_teardown (reset_steps f (chain_name m)); mret tt) (m, w).

(** A command of the install, its failure as the error. *)
Definition run_install (binary : string) (args : list string)
  : stateful (IngressManager * World) IngressError unit := fun '(m, w) =>
  let '(r, w) := run m binary args w in
  (map_err (fun e => CommandError (into_message e)) r, (m, w)).

Definition update (u : IngressManager -> IngressManager)
  : stateful (IngressManager * World) IngressError unit := fun '(m, w) => (Ok tt, (u m, w)).

Definition install_family (f : IpFamily) (rules : IngressRules)
  : stateful (IngressManager * World) IngressError unit :=
  chain ← gets (fun st => chain_name st.1);
  _ ← reset_family f;
  _ ← run_install (binary f) ["-N"; chain];
  _ ← update (write_created f true);
  _ ← for_each (run_install (binary f)) (body rules);
  _ ← run_install (binary f) (hook rules);
  update (write_hooked f true).

Definition container_ipv6_state (m : IngressManager) (w : World) : HostIpv6State :=
  let if_inet6 := "/proc/" +:+ dec (netns_pid m) +:+ "/net/if_inet6" in
  let proc_net := "/proc/" +:+ dec (netns_pid m) +:+ "/net" in
  classify_container_ipv6_state (read_to_string if_inet6 w) (is_dir proc_net w).

Definition container_ip6tables_status
  : stateful (IngressManager * World) IngressError Ip6tablesStatus := fun '(m, w) =>
  let '(r, w) := run m "ip6tables" ["-S"] w in
  (Ok (classify_ip6tables_status (is_ok r)
         (ipv6_state_treated_as_active (container_ipv6_state m w))), (m, w)).

Definition apply_firewall_rules (policy : ContainerPolicy)
  : stateful (IngressManager * World) IngressError unit :=
  if negb (installs_firewall (plan_network policy)) then mret tt
  else match permissive_inbound_field policy with
  | Some field => throw (PermissiveInbound field)
  | None =>
      chain ← gets (fun st => chain_name st.1);
      status ← container_ip6tables_status;
      ipv6_enabled ← match status with
        | Available => mret true
        | KernelIpv6Disabled => mret false
        | UnusableButIpv6Active => throw (Ipv6Undeniable chain)
        end;
      _ ← install_family FamilyV4 (build_ingress_rules chain FamilyV4);
      if (ipv6_enabled : bool) then install_family FamilyV6 (build_ingress_rules chain FamilyV6)
      else mret tt
  end.

End WithHost.

(** ** What the chain decides *)

(** Control messages without which IPv6 does not work. *)
Definition icmpv6_allowed (pkt : Filter.packet) : bool :=
  bool_decide (Filter.family pkt = FamilyV6) && bool_decide (Filter.transport pkt = Filter.ProtoIcmp) &&
  bool_decide (Filter.icmp_type pkt ∈ [133; 134; 135; 136; 130; 131; 132; 143; 1; 2; 3; 4]).

Definition inbound_accepted (pkt : Filter.packet) : bool :=
  bool_decide (Filter.in_interface pkt = "lo") ||
  bool_decide (Filter.ct_state pkt ∈ [Filter.CtEstablished; Filter.CtRelated]) ||
  icmpv6_allowed pkt.

(** The rules of the chain, without its name. *)
Definition ingress_specs (f : IpFamily) : list (list string) :=
  drop 2 <$> body (build_ingress_rules "" f).

Lemma body_specs chain f :
  body (build_ingress_rules chain f) = (fun spec => "-A" :: chain :: spec) <$> ingress_specs f.
Proof. by destruct f. Qed.

Lemma icmp_rules_verdict ts pkt :
  Filter.family pkt = FamilyV6 -> Forall (fun t => 0 <= t) ts ->
  Filter.chain_verdict
    ((fun t => ["-p"; "icmpv6"; "--icmpv6-type"; dec t; "-j"; "ACCEPT"]) <$> ts) pkt =
  Some (if bool_decide (Filter.transport pkt = Filter.ProtoIcmp) && bool_decide (Filter.icmp_type pkt ∈ ts)
        then Filter.Accept else Filter.Return).
Proof.
  intros Hf Hts. induction Hts as [|t ts Ht _ IH].
  - rewrite (bool_decide_eq_false_2 (_ ∈ [])) by apply not_elem_of_nil. by rewrite andb_false_r.
  - cbn [fmap list_fmap]. cbn [Filter.chain_verdict]. rewrite IH.
    rewrite (Filter.rule_matches_option "-p"), (Filter.rule_matches_option "--icmpv6-type") by done.
    rewrite Filter.rule_matches_target, Filter.icmpv6_option, Filter.icmpv6_type_option by done. cbn.
    destruct (bool_decide (Filter.transport pkt = Filter.ProtoIcmp)); cbn; [|done].
    destruct (Z.eqb_spec (Filter.icmp_type pkt) t) as [->|Hne]; cbn.
    + by rewrite bool_decide_eq_true_2 by (by left).
    + assert (bool_decide (Filter.icmp_type pkt ∈ t :: ts) = bool_decide (Filter.icmp_type pkt ∈ ts)) as ->
        by (apply bool_decide_ext; rewrite elem_of_cons; naive_solver). done.
Qed.

Lemma ingress_specs_verdict pkt :
  Filter.chain_verdict (ingress_specs (Filter.family pkt)) pkt =
  Some (if inbound_accepted pkt then Filter.Accept else Filter.Drop).
Proof.
  assert (Hbase : forall tail v, Filter.chain_verdict tail pkt = Some v ->
    Filter.chain_verdict (["-i"; "lo"; "-j"; "ACCEPT"] ::
      ["-m"; "conntrack"; "--ctstate"; "ESTABLISHED,RELATED"; "-j"; "ACCEPT"] :: tail) pkt =
    Some (if bool_decide (Filter.in_interface pkt = "lo") ||
             bool_decide (Filter.ct_state pkt ∈ [Filter.CtEstablished; Filter.CtRelated])
          then Filter.Accept else v)).
  { intros tail v Hv. cbn [Filter.chain_verdict]. rewrite Hv.
    rewrite (Filter.rule_matches_option "-i"), !(Filter.rule_matches_option "-m"),
      !(Filter.rule_matches_option "--ctstate"), !Filter.rule_matches_target by done.
    rewrite Filter.in_interface_option, Filter.conntrack_option, Filter.established_option. cbn.
    by destruct (bool_decide (Filter.in_interface pkt = "lo")), (bool_decide (Filter.ct_state pkt ∈ _)). }
  assert (Htail : Filter.chain_verdict
    [["-m"; "conntrack"; "--ctstate"; "NEW"; "-j"; "DROP"]; ["-j"; "DROP"]] pkt = Some Filter.Drop).
  { cbn [Filter.chain_verdict]. rewrite (Filter.rule_matches_option "-m"),
      (Filter.rule_matches_option "--ctstate"), !Filter.rule_matches_target by done.
    rewrite Filter.conntrack_option, Filter.new_option. cbn.
    destruct (bool_decide (Filter.ct_state pkt ∈ [Filter.CtNew])); reflexivity. }
  unfold inbound_accepted, icmpv6_allowed. destruct (Filter.family pkt) eqn:Ef.
  - etransitivity; [exact (Hbase _ _ Htail)|]. rewrite (bool_decide_eq_false_2 (FamilyV4 = FamilyV6)) by done.
    cbn. by rewrite orb_false_r.
  - pose proof (icmp_rules_verdict [133; 134; 135; 136; 130; 131; 132; 143; 1; 2; 3; 4] pkt Ef) as Hi.
    change (ingress_specs FamilyV6) with (["-i"; "lo"; "-j"; "ACCEPT"] ::
      ["-m"; "conntrack"; "--ctstate"; "ESTABLISHED,RELATED"; "-j"; "ACCEPT"] ::
      ((fun t => ["-p"; "icmpv6"; "--icmpv6-type"; dec t; "-j"; "ACCEPT"]) <$>
        [133; 134; 135; 136; 130; 131; 132; 143; 1; 2; 3; 4]) ++
      [["-m"; "conntrack"; "--ctstate"; "NEW"; "-j"; "DROP"]; ["-j"; "DROP"]]).
    erewrite Hbase; [|rewrite Filter.chain_verdict_app, Hi, Htail by (repeat constructor; lia); reflexivity].
    rewrite (bool_decide_eq_true_2 (FamilyV6 = FamilyV6)) by done. cbn [andb].
    by destruct (_ || _), (_ && _).
Qed.

(** ** What a teardown removes *)

Abbreviation ruleset := (gmap string (list (list string))).

(** Rules other than jumps to the chain. *)
Definition strip (c : string) (rules : list (list string)) : list (list string) :=
  List.filter (fun r => negb (bool_decide (r = ["-j"; c]))) rules.

Lemma strip_id c rules : ["-j"; c] ∉ rules -> strip c rules = rules.
Proof.
  induction rules as [|r rules IH]; [done|]. rewrite not_elem_of_cons. intros [Hne Hn]. cbn.
  rewrite bool_decide_eq_false_2 by done. cbn. by f_equal; apply IH.
Qed.

Lemma strip_not_in c rules : ["-j"; c] ∉ strip c rules.
Proof.
  induction rules as [|r rules IH]; [apply not_elem_of_nil|]. cbn.
  destruct (decide (r = ["-j"; c])) as [->|Hne]; [by rewrite bool_decide_eq_true_2|].
  rewrite bool_decide_eq_false_2 by done. cbn. by apply not_elem_of_cons.
Qed.

Lemma strip_delete c rules rules' :
  Firewall.delete_rule ["-j"; c] rules = Some rules' -> strip c rules' = strip c rules.
Proof.
  revert rules'. induction rules as [|r rules IH]; intros rules'; [done|]. cbn.
  destruct (decide (r = ["-j"; c])) as [->|Hne].
  { intros [= <-]. by rewrite bool_decide_eq_true_2. }
  destruct (Firewall.delete_rule _ rules) as [rest|]; [|done]. intros [= <-].
  unfold strip in *. cbn. by rewrite (IH rest eq_refl).
Qed.

(** Only jumps to the chain have gone from the input chain. *)
Definition unjumped (c : string) (rs rs' : ruleset) : Prop :=
  (forall k, k <> "INPUT" -> rs' !! k = rs !! k) /\
  strip c <$> rs' !! "INPUT" = strip c <$> rs !! "INPUT".

(** The input chain has no jump to the chain. *)
Definition no_jump (c : string) (rs : ruleset) : Prop :=
  forall rules, rs !! "INPUT" = Some rules -> ["-j"; c] ∉ rules.

Lemma unjumped_refl c rs : unjumped c rs rs.
Proof. done. Qed.

Lemma unjumped_trans c rs1 rs2 rs3 : unjumped c rs1 rs2 -> unjumped c rs2 rs3 -> unjumped c rs1 rs3.
Proof.
  intros [H1 E1] [H2 E2]. split; [|congruence]. intros k Hk. by rewrite H2, H1.
Qed.

Lemma effect_unjump c rs rs' :
  Firewall.table_effect ["-D"; "INPUT"; "-j"; c] rs = Some rs' -> ~ no_jump c rs /\ unjumped c rs rs'.
Proof.
  cbn. destruct (rs !! "INPUT") as [rules|] eqn:E; [|done]. cbn.
  destruct (Firewall.delete_rule _ rules) as [rules'|] eqn:Ed; [|done]. intros [= <-]. split.
  - intros Hno. specialize (Hno _ E). apply Firewall.delete_rule_None in Hno. congruence.
  - split; [intros k Hk; by rewrite lookup_insert_ne|].
    rewrite lookup_insert_eq, E. cbn. by rewrite (strip_delete _ _ _ Ed).
Qed.

(** In the C locale a command that reports its object absent has not found it. *)
Class AbsentLaws (H : Host) {L : Firewall.NetfilterLaws H} : Prop := {
  absent_jump : forall pid f c w stderr w', 0 <= pid <= u32_max ->
    exec nsenter_env (build_nsenter_argv pid (binary f) (args (step_unhook f c))) w = (Exited false stderr, w') ->
    stderr_means_absent Unhook stderr = true ->
    no_jump c (Firewall.filter_table w (Firewall.ContainerNetns pid) f);
  absent_chain : forall pid f c w stderr w' step, 0 <= pid <= u32_max ->
    step = step_flush f c \/ step = step_delete f c ->
    exec nsenter_env (build_nsenter_argv pid (binary f) (args step)) w = (Exited false stderr, w') ->
    stderr_means_absent (kind step) stderr = true ->
    Firewall.filter_table w (Firewall.ContainerNetns pid) f !! c = None;
}.

Section Laws.
Context {H : Host} {L : Firewall.NetfilterLaws H} {AL : AbsentLaws H}.
Implicit Types (m : IngressManager) (w : World) (f g : IpFamily) (p : Progress).

Definition table m w f : ruleset := Firewall.filter_table w (Firewall.ContainerNetns (netns_pid m)) f.

Definition pid_ok m : Prop := 0 <= netns_pid m <= u32_max.

Lemma run_effect m f a w r w' :
  pid_ok m -> run m (binary f) a w = (r, w') ->
  (forall g, g <> f -> table m w' g = table m w g) /\
  (Firewall.table_effect a (table m w f) = Some (table m w' f) \/
   is_ok r = false /\ table m w' f = table m w f).
Proof.
  intros Hp Hr. unfold run, nsenter_run in Hr. destruct (exec _ _ w) as [outcome w1] eqn:E.
  change (build_nsenter_argv (netns_pid m) (binary f) a) with
    (Firewall.command_argv (Firewall.ContainerNetns (netns_pid m)) (Firewall.firewall_binary f) a) in E.
  destruct (Firewall.exec_effect _ (Firewall.ContainerNetns (netns_pid m)) _ _ _ _ _ Hp E) as [Ho He].
  assert (w' = w1 /\ is_ok r = Firewall.succeeded outcome) as [-> Hok]
    by (destruct outcome as [[] ?|?]; by injection Hr as <- <-).
  unfold table. by rewrite Hok.
Qed.

(** The three outcomes of a command of a step. *)
Lemma run_outcome_absent m f a w k r w' :
  run m (binary f) a w = (r, w') -> step_outcome k r = Absent ->
  exists stderr, exec nsenter_env (build_nsenter_argv (netns_pid m) (binary f) a) w = (Exited false stderr, w') /\
    stderr_means_absent k stderr = true /\ is_ok r = false.
Proof.
  unfold run, nsenter_run. destruct (exec _ _ w) as [outcome w1].
  intros [= <- <-]. destruct outcome as [[] stderr|e]; cbn; [done| |done].
  destruct (stderr_means_absent k stderr) eqn:E; [|done]. eauto.
Qed.

Lemma step_outcome_Done k r : step_outcome k r = Done -> is_ok r = true.
Proof. destruct r as [|[|stderr msg]]; cbn; [done|done|]. by destruct (stderr_means_absent k stderr). Qed.

(** The unhook loop ends with the hooks gone or with its family blocked; either
    way only jumps have gone. *)
Lemma unhook_loop_spec n m f p w cleared p' w' :
  pid_ok m -> unhook_loop n m (step_unhook f (chain_name m)) p w = (cleared, p', w') ->
  (forall g, g <> f -> table m w' g = table m w g) /\
  unjumped (chain_name m) (table m w f) (table m w' f) /\
  if cleared then no_jump (chain_name m) (table m w' f) /\ failures p' = failures p /\
    forall g, blocked p' g = blocked p g
  else failures p' <> [] /\ blocked p' f = true /\ forall g, g <> f -> blocked p' g = blocked p g.
Proof.
  intros Hp. revert p w. induction n as [|n IH]; intros p w Hl; cbn [unhook_loop] in Hl.
  - injection Hl as <- <- <-. split; [done|]. split; [apply unjumped_refl|]. cbn.
    rewrite decide_True by done. split_and!; [by destruct (failures p)|done|].
    intros g Hg. by rewrite decide_False.
  - destruct (run _ _ _ _) as [r w1] eqn:Er.
    destruct (run_effect m f _ _ _ _ Hp Er) as [Ho He].
    assert (Hu : unjumped (chain_name m) (table m w f) (table m w1 f)).
    { destruct He as [He|[_ ->]]; [by apply effect_unjump in He as [_ He]|apply unjumped_refl]. }
    destruct (step_outcome Unhook r) eqn:Eo.
    + apply IH in Hl as (Ho' & Hu' & Hc). split; [intros g Hg; by rewrite Ho', Ho|].
      split; [by eapply unjumped_trans|]. done.
    + injection Hl as <- <- <-. split; [done|]. split; [done|]. split_and!; [|done|done].
      destruct (run_outcome_absent m f _ _ _ _ _ Er Eo) as (stderr & Ee & Ha & Hok).
      pose proof (absent_jump _ _ _ _ _ _ Hp Ee Ha) as Hno.
      destruct He as [He|[_ He]]; [by apply effect_unjump in He as [? _]|].
      by rewrite He.
    + injection Hl as <- <- <-. split; [done|]. split; [done|]. cbn.
      rewrite decide_True by done. split_and!; [by destruct (failures p)|done|].
      intros g Hg. by rewrite decide_False.
Qed.

(** A step of a family, by its kind. *)
Definition chain_step f (k : StepKind) (c : string) : TeardownStep :=
  match k with Unhook => step_unhook f c | Flush => step_flush f c | Delete => step_delete f c end.

Definition step_table (k : StepKind) (c : string) (rs rs' : ruleset) : Prop :=
  match k with
  | Unhook => unjumped c rs rs' /\ no_jump c rs'
  | Flush => forall x, x <> c -> rs' !! x = rs !! x
  | Delete => rs' = delete c rs
  end.

(** What a failed step has not touched. *)
Definition spared (k : StepKind) (c : string) (rs rs' : ruleset) : Prop :=
  match k with Unhook => unjumped c rs rs' | _ => True end.

Definition step_result f p p' : bool -> Prop := fun ok =>
  if ok then failures p' = failures p /\ (forall g, blocked p' g = blocked p g)
  else failures p' <> [] /\ blocked p' f = true /\ forall g, g <> f -> blocked p' g = blocked p g.

Lemma block_result f msg p : step_result f p (block f msg p) false.
Proof.
  cbn. rewrite decide_True by done. split_and!; [by destruct (failures p)|done|].
  intros g Hg. by rewrite decide_False.
Qed.

Lemma command_step_table m f k w r w' :
  pid_ok m -> k <> Unhook -> run m (binary f) (args (chain_step f k (chain_name m))) w = (r, w') ->
  step_outcome k r = Done \/ step_outcome k r = Absent ->
  step_table k (chain_name m) (table m w f) (table m w' f).
Proof.
  intros Hp Hk Hr Ho. destruct (run_effect m f _ _ _ _ Hp Hr) as [_ He].
  destruct Ho as [Hd|Ha].
  - apply step_outcome_Done in Hd. destruct He as [He|[? _]]; [|congruence]. destruct k; [done| |].
    + apply Firewall.effect_flush in He as ->. intros x Hx. by rewrite lookup_insert_ne.
    + by apply Firewall.effect_delete in He.
  - destruct (run_outcome_absent m f _ _ _ _ _ Hr Ha) as (stderr & Ee & Hab & _).
    assert (Hn : table m w f !! chain_name m = None)
      by (eapply (absent_chain _ _ _ _ _ _ (chain_step f k (chain_name m)) Hp); [|done|by destruct k];
          destruct k; [done|by left|by right]).
    assert (table m w' f = table m w f) as ->.
    { destruct He as [He|[_ ->]]; [|done]. destruct k; cbn in He; [done| |]; by rewrite Hn in He. }
    destruct k; [done|done|]. cbn. by rewrite delete_id.
Qed.

Lemma teardown_step_spec m f k p w m' p' w' :
  pid_ok m -> blocked p f = false ->
  teardown_step (chain_step f k (chain_name m)) (m, p, w) = (m', p', w') ->
  (forall g, g <> f -> table m w' g = table m w g) /\
  exists ok, step_result f p p' ok /\
    m' = (if (ok : bool) then clear_step_flag (chain_step f k (chain_name m)) m else m) /\
    (if ok then step_table k (chain_name m) (table m w f) (table m w' f)
     else spared k (chain_name m) (table m w f) (table m w' f)).
Proof.
  intros Hp Hb Ht. unfold teardown_step in Ht.
  assert (family (chain_step f k (chain_name m)) = f) as Ef by (by destruct k).
  assert (kind (chain_step f k (chain_name m)) = k) as Ek by (by destruct k).
  rewrite Ef, Ek, Hb in Ht. destruct (decide (k = Unhook)) as [->|Hk].
  - destruct (unhook_loop _ _ _ _ _) as [[cleared p1] w1] eqn:El. injection Ht as <- <- <-.
    apply unhook_loop_spec in El as (Ho & Hu & Hc); [|done]. split; [done|]. exists cleared.
    destruct cleared; cbn; [destruct Hc as (? & ? & ?)|]; done.
  - destruct (run _ _ _ _) as [r w1] eqn:Er. destruct (run_effect m f _ _ _ _ Hp Er) as [Ho _].
    pose proof (command_step_table m f k w r w1 Hp Hk Er) as Htab.
    assert (Hs : forall a b, spared k (chain_name m) a b) by (by intros; destruct k).
    assert (Ht' : match step_outcome k r with
      | Done => (clear_step_flag (chain_step f k (chain_name m)) m, mark_removed p, w1)
      | Absent => (clear_step_flag (chain_step f k (chain_name m)) m, p, w1)
      | Failed msg => (m, block f msg p, w1) end = (m', p', w')) by (by destruct k).
    destruct (step_outcome k r) eqn:Eo; injection Ht' as <- <- <-; split; try done.
    + exists true. split; [done|]. split; [done|]. auto.
    + exists true. split; [done|]. split; [done|]. auto.
    + exists false. split; [apply block_result|]. done.
Qed.

(** ** The teardown of a family *)

Definition run_steps (steps : list TeardownStep) (st : IngressManager * Progress * World)
  : IngressManager * Progress * World :=
  foldl (fun st step => teardown_step step st) st steps.

Definition hook_steps f (h : bool) (c : string) : list TeardownStep :=
  if h then [step_unhook f c] else [].
Definition chain_steps f (ch : bool) (c : string) : list TeardownStep :=
  if ch then [step_flush f c; step_delete f c] else [].

Lemma blocked_skip steps m p w f :
  blocked p f = true -> Forall (fun step => family step = f) steps ->
  run_steps steps (m, p, w) = (m, p, w).
Proof.
  intros Hb. induction 1 as [|step steps Hf _ IH]; [done|].
  unfold run_steps in *. cbn. by rewrite Hf, Hb.
Qed.

(** Managers that differ in the flags of one family. *)
Definition same_but f m m' : Prop :=
  chain_name m' = chain_name m /\ netns_pid m' = netns_pid m /\
  forall g, g <> f -> hooked m' g = hooked m g /\ created m' g = created m g.

Lemma same_but_clear f k c m : same_but f m (clear_step_flag (chain_step f k c) m).
Proof. destruct k, f; (split; [done|]; split; [done|]); by intros []. Qed.

Lemma hook_steps_spec f (h : bool) m p w m' p' w' :
  pid_ok m -> blocked p f = false ->
  run_steps (hook_steps f h (chain_name m)) (m, p, w) = (m', p', w') ->
  same_but f m m' /\ (forall g, g <> f -> table m w' g = table m w g) /\ created m' f = created m f /\
  exists ok, step_result f p p' ok /\ hooked m' f = (if ok && h then false else hooked m f) /\
    unjumped (chain_name m) (table m w f) (table m w' f) /\
    (ok = true -> if h then no_jump (chain_name m) (table m w' f) else table m w' f = table m w f) /\
    (h = false -> ok = true).
Proof.
  intros Hp Hb Hr. destruct h.
  - apply (teardown_step_spec m f Unhook p w) in Hr as (Ho & ok & Hs & Hm & Ht); [|done..].
    split; [subst m'; destruct ok; [apply same_but_clear|by repeat split]|].
    split; [done|]. split; [subst m'; by destruct ok, f|]. exists ok.
    split; [done|]. split; [subst m'; by destruct ok, f|]. by destruct ok; [destruct Ht|].
  - injection Hr as <- <- <-. split; [by repeat split|]. split; [done|]. split; [done|].
    exists true. by repeat split.
Qed.

Lemma chain_steps_spec f (ch : bool) m p w m' p' w' :
  pid_ok m -> blocked p f = false ->
  run_steps (chain_steps f ch (chain_name m)) (m, p, w) = (m', p', w') ->
  same_but f m m' /\ (forall g, g <> f -> table m w' g = table m w g) /\ hooked m' f = hooked m f /\
  exists ok, step_result f p p' ok /\ created m' f = (if ok && ch then false else created m f) /\
    (ok = true -> if ch then table m w' f !! chain_name m = None /\
       (forall x, x <> chain_name m -> table m w' f !! x = table m w f !! x)
     else table m w' f = table m w f) /\
    (ch = false -> ok = true).
Proof.
  intros Hp Hb Hr. destruct ch; cycle 1.
  { injection Hr as <- <- <-. split; [by repeat split|]. split; [done|]. split; [done|].
    exists true. by repeat split. }
  unfold run_steps, chain_steps in Hr. cbn [foldl] in Hr.
  destruct (teardown_step (step_flush _ _) _) as [[m1 p1] w1] eqn:E1.
  destruct (teardown_step_spec m f Flush p w m1 p1 w1 Hp Hb E1) as (Ho1 & ok1 & Hs1 & Hm1 & Ht1).
  assert (m1 = m) as -> by (by destruct ok1). clear Hm1. destruct ok1.
  - destruct Hs1 as [Hf1 Hb1]. assert (Hb' : blocked p1 f = false) by (by rewrite Hb1).
    destruct (teardown_step_spec m f Delete p1 w1 m' p' w' Hp Hb' Hr) as (Ho2 & ok2 & Hs2 & Hm2 & Ht2).
    split; [subst m'; destruct ok2; [apply same_but_clear|by repeat split]|].
    split; [intros g Hg; by rewrite Ho2, Ho1|]. split; [subst m'; by destruct ok2, f|]. exists ok2.
    split; [unfold step_result in *; destruct ok2; rewrite <- ?Hf1; naive_solver congruence|].
    split; [subst m'; by destruct ok2, f|]. split; [|done]. intros ->. cbn in Ht2. rewrite Ht2.
    split; [by rewrite lookup_delete_eq|]. intros x Hx. rewrite lookup_delete_ne by done. by apply Ht1.
  - destruct Hs1 as (Hf1 & Hb1 & Hg1). unfold teardown_step in Hr. cbn [family step_delete] in Hr.
    rewrite Hb1 in Hr. injection Hr as <- <- <-.
    split; [by repeat split|]. split; [done|]. split; [done|]. exists false. by repeat split.
Qed.

(** The table without the jumps to the chain, if they were removed, and without
    the chain, if it was. *)
Definition cleaned (h ch : bool) (c : string) (rs rs' : ruleset) : Prop :=
  rs' !! "INPUT" = (if h then strip c <$> rs !! "INPUT" else rs !! "INPUT") /\
  rs' !! c = (if ch then None else rs !! c) /\
  forall x, x <> "INPUT" -> x <> c -> rs' !! x = rs !! x.

Lemma unjumped_input c rs rs' :
  unjumped c rs rs' -> no_jump c rs' -> rs' !! "INPUT" = strip c <$> rs !! "INPUT".
Proof.
  intros [_ E] Hno. rewrite <- E. destruct (rs' !! "INPUT") as [rules|] eqn:E'; [|done]. cbn.
  by rewrite strip_id by (by apply Hno).
Qed.

Lemma table_manager m m' w f : netns_pid m' = netns_pid m -> table m' w f = table m w f.
Proof. unfold table. by intros ->. Qed.

Definition family_steps f (h ch : bool) (c : string) : list TeardownStep :=
  hook_steps f h c ++ chain_steps f ch c.

Lemma family_steps_spec f (h ch : bool) m p w m' p' w' :
  pid_ok m -> chain_name m <> "INPUT" -> blocked p f = false ->
  run_steps (family_steps f h ch (chain_name m)) (m, p, w) = (m', p', w') ->
  same_but f m m' /\ (forall g, g <> f -> table m w' g = table m w g) /\
  exists ok, step_result f p p' ok /\
    (ok = true -> hooked m' f = (if h then false else hooked m f) /\
       created m' f = (if ch then false else created m f) /\
       cleaned h ch (chain_name m) (table m w f) (table m w' f)) /\
    (ok = false -> (h = true -> hooked m f = true) -> (ch = true -> created m f = true) ->
       hooked m' f || created m' f = true) /\
    (hooked m' f = true -> hooked m f = true /\
       (h = true -> table m w' f !! chain_name m = table m w f !! chain_name m)).
Proof.
  intros Hp Hc Hb Hr. unfold run_steps, family_steps in Hr. rewrite foldl_app in Hr.
  change (run_steps (chain_steps f ch (chain_name m))
    (run_steps (hook_steps f h (chain_name m)) (m, p, w)) = (m', p', w')) in Hr.
  destruct (run_steps (hook_steps _ _ _) _) as [[m1 p1] w1] eqn:E1.
  destruct (hook_steps_spec f h m p w m1 p1 w1 Hp Hb E1) as (S1 & O1 & C1 & ok1 & R1 & H1 & U1 & T1 & F1).
  destruct S1 as (N1 & P1 & G1). destruct ok1; cycle 1.
  { destruct R1 as (Rf & Rb & Rg).
    rewrite (blocked_skip _ m1 p1 w1 f) in Hr by (destruct ch; by repeat constructor).
    injection Hr as <- <- <-. split; [done|]. split; [done|]. exists false.
    split; [done|]. split; [done|]. cbn in H1. rewrite H1, C1. split.
    - intros _ Hh _. destruct h; [by rewrite Hh|by specialize (F1 eq_refl)].
    - intros Hh. split; [done|]. intros _. by apply U1. }
  destruct R1 as [Rf Rb]. specialize (T1 eq_refl). cbn [andb] in H1.
  assert (Hp1 : pid_ok m1) by (unfold pid_ok; by rewrite P1).
  assert (Hb1 : blocked p1 f = false) by (by rewrite Rb). rewrite <- N1 in Hr.
  destruct (chain_steps_spec f ch m1 p1 w1 m' p' w' Hp1 Hb1 Hr) as (S2 & O2 & H2 & ok2 & R2 & C2 & T2 & F2).
  destruct S2 as (N2 & P2 & G2).
  assert (HT : forall v g, table m1 v g = table m v g) by (intros; by apply table_manager).
  rewrite N1 in *. rewrite !HT in T2.
  split; [split; [done|]; split; [congruence|]; intros g Hg; destruct (G1 g Hg), (G2 g Hg); split; congruence|].
  split; [intros g Hg; rewrite <- (O1 g Hg), <- (HT w1), <- (HT w'); by apply O2|]. exists ok2.
  split; [unfold step_result in *; destruct ok2; rewrite <- ?Rf; naive_solver congruence|].
  rewrite H2, H1. split_and!.
  - intros ->. split; [done|]. split; [by rewrite C2, C1|]. specialize (T2 eq_refl).
    destruct U1 as [U1 U1'].
    assert (Hin : table m w1 f !! "INPUT" = if h then strip (chain_name m) <$> table m w f !! "INPUT"
      else table m w f !! "INPUT") by (destruct h; [by apply unjumped_input|by rewrite T1]).
    destruct ch; [destruct T2 as [Hn Hx]|rewrite T2].
    + split; [rewrite Hx by done; done|]. split; [done|]. intros x ? ?. by rewrite Hx, U1.
    + split; [done|]. split; [by apply U1|]. intros x ? ?. by apply U1.
  - intros -> _ Hch. rewrite C2, C1. cbn. destruct ch; [|by specialize (F2 eq_refl)].
    rewrite Hch by done. by rewrite orb_true_r.
  - by destruct h.
Qed.

Lemma owned_steps m :
  owned_teardown_steps m =
  family_steps FamilyV4 (hooked m FamilyV4) (created m FamilyV4) (chain_name m) ++
  family_steps FamilyV6 (hooked m FamilyV6) (created m FamilyV6) (chain_name m).
Proof.
  unfold owned_teardown_steps, family_steps, hook_steps, chain_steps. cbn [fmap list_fmap mjoin list_join].
  by rewrite app_nil_r.
Qed.

(** Both families torn down, one after the other. *)
Lemma owned_steps_spec m w m' p' w' :
  pid_ok m -> chain_name m <> "INPUT" ->
  run_steps (owned_teardown_steps m) (m, MkProgress [] (fun _ => false) false, w) = (m', p', w') ->
  (failures p' = [] <-> rules_applied m' = false) /\
  (failures p' = [] -> forall f, cleaned (hooked m f) (created m f) (chain_name m) (table m w f) (table m w' f)) /\
  (forall f, hooked m' f = true -> table m w' f !! chain_name m = table m w f !! chain_name m).
Proof.
  intros Hp Hc Hr. rewrite owned_steps in Hr. unfold run_steps in Hr. rewrite foldl_app in Hr.
  destruct (foldl _ _ (family_steps FamilyV4 _ _ _)) as [[m1 p1] w1] eqn:E1.
  apply family_steps_spec in E1 as ((N1 & P1 & G1) & O1 & ok1 & R1 & A1 & B1 & C1); [|done..].
  assert (Hp1 : pid_ok m1) by (unfold pid_ok; by rewrite P1).
  assert (Hb1 : blocked p1 FamilyV6 = false)
    by (destruct ok1; [destruct R1 as [_ R1]|destruct R1 as (_ & _ & R1)]; by rewrite R1).
  destruct (G1 FamilyV6) as [Gh Gc]; [done|]. rewrite <- Gh, <- Gc, <- N1 in Hr.
  apply family_steps_spec in Hr as ((N2 & P2 & G2) & O2 & ok2 & R2 & A2 & B2 & C2); [|by rewrite ?N1..].
  destruct (G2 FamilyV4) as [Hh Hcr]; [done|].
  assert (HT : forall v g, table m1 v g = table m v g) by (intros; by apply table_manager).
  rewrite N1, !HT in *. rewrite (O1 FamilyV6) in A2, C2 by done.
  pose proof (O2 FamilyV4 ltac:(done)) as T4. rewrite !HT in T4. rewrite <- T4 in A1, C1.
  assert (Hf : failures p' = [] <-> ok1 = true /\ ok2 = true).
  { destruct ok1, ok2; cbn in R1, R2; destruct R1 as [Rf1 _], R2 as [Rf2 _]; rewrite ?Rf2, ?Rf1; naive_solver. }
  assert (Hra : rules_applied m' =
    (hooked m1 FamilyV4 || created m1 FamilyV4) || (hooked m' FamilyV6 || created m' FamilyV6)).
  { rewrite <- Hh, <- Hcr. unfold rules_applied. cbn. by destruct (v4_chain_created m'), (v6_chain_created m'), (v4_hooked m'), (v6_hooked m'). }
  split_and!.
  - rewrite Hf, Hra. split.
    + intros [-> ->]. destruct (A1 eq_refl) as (-> & -> & _), (A2 eq_refl) as (-> & -> & _).
      rewrite Gh, Gc. cbn. by destruct (v4_hooked m), (v4_chain_created m), (v6_hooked m), (v6_chain_created m).
    + intros [H1 H2]%orb_false_iff.
      destruct ok1; [|by rewrite B1 in H1]. destruct ok2; [done|by rewrite B2 in H2].
  - intros [-> ->]%Hf [].
    + by apply A1.
    + destruct A2 as (_ & _ & A2); [done|]. by rewrite Gh, Gc in A2.
  - intros [] Hhk.
    + rewrite Hh in Hhk. destruct (C1 Hhk) as [C1' C1'']. by apply C1''.
    + destruct (C2 Hhk) as [C2' C2'']. by apply C2''.
Qed.

(** Removing the inbound chain accounts for everything.  It succeeds exactly
    if nothing is recorded any more; then every recorded jump, however often it
    was installed, and every recorded chain has gone from the tables and nothing
    else has changed.  Where a hook is still recorded the chain it may lead to
    has kept its rules. *)
Theorem ingress_remove_accounts (m : IngressManager) (w : World) (r : result IngressError unit)
    (m' : IngressManager) (w' : World) :
  pid_ok m -> chain_name m <> "INPUT" -> remove_firewall_rules (m, w) = (r, (m', w')) ->
  is_ok r = negb (rules_applied m') /\
  (is_ok r = true -> forall f,
     cleaned (hooked m f) (created m f) (chain_name m) (table m w f) (table m w' f)) /\
  (forall f, hooked m' f = true -> table m w' f !! chain_name m = table m w f !! chain_name m).
Proof.
  intros Hp Hc Hr. unfold remove_firewall_rules in Hr. destruct (rules_applied m) eqn:Ea; cbn [negb] in Hr.
  - unfold execute_teardown, mbind, stateful_bind in Hr.
    destruct (foldl _ _ (owned_teardown_steps m)) as [[m1 p1] w1] eqn:E.
    destruct (owned_steps_spec m w m1 p1 w1 Hp Hc E) as (Hf & Hclean & Hspare).
    destruct (failures p1) as [|msg msgs] eqn:Ef; cbn in Hr; injection Hr as <- <- <-; cbn.
    + split; [by destruct Hf as [-> _]|]. auto.
    + split; [|done]. destruct (rules_applied m1); [done|]. by destruct Hf as [_ Hf]; specialize (Hf eq_refl).
  - injection Hr as <- <- <-. split; [by rewrite Ea|]. split; [|done]. intros _ f.
    apply orb_false_iff in Ea as [[[E1 E2]%orb_false_iff E3]%orb_false_iff E4].
    assert (hooked m f = false /\ created m f = false) as [-> ->] by (by destruct f). done.
Qed.

(** ** What an install leaves *)

Lemma run_install_Ok f a m w m' w' :
  pid_ok m -> run_install (binary f) a (m, w) = (Ok tt, (m', w')) ->
  m' = m /\ Firewall.table_effect a (table m w f) = Some (table m w' f) /\
  forall g, g <> f -> table m w' g = table m w g.
Proof.
  intros Hp Hr. unfold run_install in Hr. destruct (run m (binary f) a w) as [r w1] eqn:E.
  destruct (run_effect m f _ _ _ _ Hp E) as [Ho He].
  destruct r as [[]|e]; [|done]. injection Hr as <- <-. destruct He as [He|[? _]]; done.
Qed.

Lemma append_body_Ok f c specs m w m' w' old :
  pid_ok m -> table m w f !! c = Some old ->
  for_each (run_install (binary f)) ((fun spec => "-A" :: c :: spec) <$> specs) (m, w) = (Ok tt, (m', w')) ->
  m' = m /\ table m w' f = <[c := old ++ specs]> (table m w f) /\
  forall g, g <> f -> table m w' g = table m w g.
Proof.
  intros Hp. revert w old. induction specs as [|spec specs IH]; intros w old Hc Hr.
  - injection Hr as <- <-. rewrite app_nil_r, insert_id by done. done.
  - cbn [fmap list_fmap for_each] in Hr. apply stateful_bind_Ok in Hr as ([] & [m1 w1] & H1 & Hr).
    apply run_install_Ok in H1 as (-> & He & Ho); [|done].
    apply Firewall.effect_append in He as (rules & Hc' & He). rewrite Hc in Hc'. injection Hc' as <-.
    destruct (IH w1 (old ++ [spec])) as (-> & Ht & Ho'); [by rewrite He, lookup_insert_eq|done|].
    split; [done|]. split; [|intros g Hg; by rewrite Ho', Ho].
    rewrite Ht, He, insert_insert_eq. by rewrite <- app_assoc.
Qed.

Lemma reset_family_Ok f m w m' w' :
  pid_ok m -> chain_name m <> "INPUT" -> reset_family f (m, w) = (Ok tt, (m', w')) ->
  same_but f m m' /\ cleaned true true (chain_name m) (table m w f) (table m w' f) /\
  forall g, g <> f -> table m w' g = table m w g.
Proof.
  intros Hp Hc Hr. unfold reset_family, execute_teardown, mbind, stateful_bind in Hr.
  destruct (foldl _ _ (reset_steps _ _)) as [[m1 p1] w1] eqn:E.
  change (run_steps (family_steps f true true (chain_name m))
    (m, MkProgress [] (fun _ => false) false, w) = (m1, p1, w1)) in E.
  apply family_steps_spec in E as (Hs & Ho & ok & Hr' & Hok & _); [|done..].
  destruct (failures p1) as [|msg msgs] eqn:Ef; cbn in Hr; [|done]. injection Hr as <- <-.
  destruct ok; [|by destruct Hr' as [? _]]. by destruct (Hok eq_refl) as (_ & _ & ?).
Qed.

Lemma effect_insert_input c rs rs' :
  Firewall.table_effect ["-I"; "INPUT"; "-j"; c] rs = Some rs' ->
  exists rules, rs !! "INPUT" = Some rules /\ rs' = <["INPUT" := ["-j"; c] :: rules]> rs.
Proof. cbn. destruct (rs !! "INPUT"); [|done]. intros [= <-]. eauto. Qed.

(** The family's table denies: the jump comes first, other jumps to the chain
    are gone, the chain is the one of this run. *)
Definition denies f (c : string) (rs rs' : ruleset) : Prop :=
  exists old, rs !! "INPUT" = Some old /\ rs' !! "INPUT" = Some (["-j"; c] :: strip c old) /\
    rs' !! c = Some (ingress_specs f) /\ forall x, x <> "INPUT" -> x <> c -> rs' !! x = rs !! x.

Lemma install_family_Ok f m w m' w' :
  pid_ok m -> chain_name m <> "INPUT" ->
  install_family f (build_ingress_rules (chain_name m) f) (m, w) = (Ok tt, (m', w')) ->
  same_but f m m' /\ hooked m' f = true /\ created m' f = true /\
  denies f (chain_name m) (table m w f) (table m w' f) /\
  forall g, g <> f -> table m w' g = table m w g.
Proof.
  intros Hp Hc Hr. unfold install_family in Hr.
  apply stateful_bind_Ok in Hr as (c & st0 & [= <- <-] & Hr). cbn [fst] in Hr.
  apply stateful_bind_Ok in Hr as ([] & [m1 w1] & H1 & Hr).
  apply reset_family_Ok in H1 as ((N1 & P1 & G1) & (Hin & Hn & Hx) & O1); [|done..].
  assert (Hp1 : pid_ok m1) by (unfold pid_ok; by rewrite P1).
  apply stateful_bind_Ok in Hr as ([] & [m2 w2] & H2 & Hr).
  apply run_install_Ok in H2 as (-> & He2 & O2); [|done]. apply Firewall.effect_new in He2 as [_ He2].
  apply stateful_bind_Ok in Hr as ([] & [m3 w3] & [= <- <-] & Hr).
  set (m3 := write_created f true m1) in *.
  assert (Hp3 : pid_ok m3) by (by destruct f).
  assert (HT1 : table m1 = table m) by (unfold table; by rewrite P1).
  assert (HT3 : table m3 = table m) by (rewrite <- HT1; by destruct f).
  apply stateful_bind_Ok in Hr as ([] & [m4 w4] & H4 & Hr). rewrite body_specs in H4.
  apply (append_body_Ok f (chain_name m) _ m3 _ _ _ []) in H4 as (-> & He4 & O4);
    [|done|by rewrite HT3, <- HT1, He2, lookup_insert_eq].
  apply stateful_bind_Ok in Hr as ([] & [m5 w5] & H5 & Hr). cbn [hook build_ingress_rules] in H5.
  apply run_install_Ok in H5 as (-> & He5 & O5); [|done].
  apply effect_insert_input in He5 as (rules & Hrules & He5). injection Hr as <- <-.
  rewrite HT3 in Hrules, He5, He4, O4, O5. rewrite HT1 in He2, O2. rewrite He4, He2, lookup_insert_ne, lookup_insert_ne, Hin in Hrules by done.
  destruct (table m w f !! "INPUT") as [old|] eqn:Eold; [|done]. injection Hrules as <-.
  split; [|split; [by destruct f|split; [by destruct f|split]]].
  - split; [by destruct f|]. split; [by destruct f|]. intros g Hg. destruct (G1 g Hg) as [<- <-].
    by destruct f, g.
  - exists old. rewrite He5, He4, He2. split; [done|]. split; [by rewrite lookup_insert_eq|].
    split; [by rewrite lookup_insert_ne, lookup_insert_eq by done|]. intros x Hx1 Hx2.
    rewrite !lookup_insert_ne by done. by apply Hx.
  - intros g Hg. specialize (O5 g Hg). specialize (O4 g Hg). specialize (O2 g Hg).
    rewrite O5, O4, O2. by apply O1.
Qed.

(** The probe of [ip6tables] failed and the namespace has no IPv6 stack. *)
Definition ipv6_inactive m w : Prop :=
  exists e w1, run m "ip6tables" ["-S"] w = (Err e, w1) /\
    container_ipv6_state m w1 = Firewall.Inactive.

(** The probe changes no table, and the family is skipped only if inactive. *)
Lemma status_Ok m w status m' w' :
  pid_ok m -> container_ip6tables_status (m, w) = (Ok status, (m', w')) ->
  m' = m /\ (forall g, table m w' g = table m w g) /\ (status = KernelIpv6Disabled -> ipv6_inactive m w).
Proof.
  intros Hp Hs. unfold container_ip6tables_status in Hs.
  destruct (run m "ip6tables" ["-S"] w) as [r w1] eqn:E. injection Hs as <- <- <-. split; [done|]. split.
  - destruct (run_effect m FamilyV6 _ _ _ _ Hp E) as [Ho He]. intros g.
    destruct (decide (g = FamilyV6)) as [->|]; [|by apply Ho].
    destruct He as [[= He]|[_ He]]; by rewrite He.
  - destruct r as [[]|e]; [done|]. intros Hd. exists e, w1. split; [done|]. cbn in Hd.
    by destruct (container_ipv6_state m w1).
Qed.

Lemma denies_verdict f c rs rs' pkt :
  denies f c rs rs' -> Filter.family pkt = f ->
  Firewall.first_jump_verdict rs' "INPUT" pkt = Some (if inbound_accepted pkt then Filter.Accept else Filter.Drop).
Proof.
  intros (old & _ & Hi & Hch & _) <-. unfold Firewall.first_jump_verdict.
  rewrite Hi, decide_True, Hch by done. cbn [mbind option_bind]. rewrite ingress_specs_verdict.
  cbn. by destruct (inbound_accepted pkt).
Qed.

(** A successful apply, family by family: a table it did not hook is as before. *)
Lemma apply_denies m policy w m' w' :
  pid_ok m -> chain_name m <> "INPUT" -> rules_applied m = false ->
  plan_network policy = Lxc.Filtered ->
  apply_firewall_rules policy (m, w) = (Ok tt, (m', w')) ->
  permissive_inbound_field policy = None /\ chain_name m' = chain_name m /\ netns_pid m' = netns_pid m /\
  hooked m' FamilyV4 = true /\ (hooked m' FamilyV6 = true \/ ipv6_inactive m w) /\
  forall f, if hooked m' f then denies f (chain_name m) (table m w f) (table m w' f)
            else table m w' f = table m w f.
Proof.
  intros Hp Hc Hra Hplan Ha. unfold apply_firewall_rules in Ha. rewrite Hplan in Ha.
  change (negb (installs_firewall Lxc.Filtered)) with false in Ha. cbv iota in Ha.
  destruct (permissive_inbound_field policy); [done|].
  apply stateful_bind_Ok in Ha as (c & st0 & [= <- <-] & Ha). cbn [fst] in Ha.
  apply stateful_bind_Ok in Ha as (status & [m0 w0] & Hs & Ha).
  apply status_Ok in Hs as (-> & T0 & Hin); [|done].
  apply stateful_bind_Ok in Ha as (b & st1 & Hb & Ha).
  assert (st1 = (m, w0)) as ->
    by (destruct status; unfold mret, stateful_ret, throw in Hb; by simplify_eq).
  assert (Hin' : b = false -> ipv6_inactive m w) by (intros ->; apply Hin; by destruct status).
  apply stateful_bind_Ok in Ha as ([] & [m1 w1] & H4 & Ha).
  apply install_family_Ok in H4 as ((N1 & P1 & G1) & Hh4 & _ & D4 & O4); [|done..]. rewrite T0 in D4.
  assert (Hh6 : hooked m1 FamilyV6 = false).
  { destruct (G1 FamilyV6) as [-> _]; [done|]. by apply orb_false_iff in Hra as [_ Hra]. }
  assert (HT : table m1 = table m) by (unfold table; by rewrite P1).
  split; [done|]. destruct b.
  - rewrite <- N1 in Ha. apply install_family_Ok in Ha as ((N2 & P2 & G2) & Hh6' & _ & D6 & O6);
      [|unfold pid_ok; by rewrite P1|by rewrite N1]. rewrite N1, HT in *.
    rewrite (O4 FamilyV6) in D6 by done. rewrite T0 in D6.
    destruct (G2 FamilyV4) as [Hh _]; [done|]. specialize (O6 FamilyV4 ltac:(done)). rewrite <- O6 in D4.
    split_and!; [by rewrite N2|by rewrite P2|by rewrite Hh|by left|].
    intros []; [by rewrite Hh, Hh4|by rewrite Hh6'].
  - injection Ha as <- <-. split_and!; [done..|by right; apply Hin'|].
    intros []; [by rewrite Hh4|]. rewrite Hh6, O4, T0; done.
Qed.

(** C14. A successful apply denies new inbound traffic in the container's
    namespace.  In each family it installed, which is IPv4 and, unless the
    namespace has no IPv6 stack, IPv6, the input chain starts with a jump to a
    chain that accepts exactly loopback, established and related packets and the
    ICMPv6 types that IPv6 needs, and drops everything else.  Jumps and rules
    that earlier runs left under the same name are gone, and nothing else in the
    table has changed.  A policy that allows inbound traffic is refused. *)
Theorem ingress_apply_denies (m : IngressManager) (policy : ContainerPolicy) (w : World)
    (m' : IngressManager) (w' : World) :
  pid_ok m -> chain_name m <> "INPUT" -> rules_applied m = false ->
  plan_network policy = Lxc.Filtered ->
  apply_firewall_rules policy (m, w) = (Ok tt, (m', w')) ->
  permissive_inbound_field policy = None /\ hooked m' FamilyV4 = true /\
  (hooked m' FamilyV6 = true \/ ipv6_inactive m w) /\
  (forall f, hooked m' f = true -> denies f (chain_name m) (table m w f) (table m w' f)) /\
  forall pkt, hooked m' (Filter.family pkt) = true ->
    Firewall.first_jump_verdict (table m w' (Filter.family pkt)) "INPUT" pkt =
    Some (if inbound_accepted pkt then Filter.Accept else Filter.Drop).
Proof.
  intros Hp Hc Hra Hplan Ha.
  destruct (apply_denies _ _ _ _ _ Hp Hc Hra Hplan Ha) as (? & _ & _ & ? & ? & Hf).
  assert (HD : forall f, hooked m' f = true -> denies f (chain_name m) (table m w f) (table m w' f))
    by (intros f Hh; specialize (Hf f); by rewrite Hh in Hf).
  split_and!; [done..|]. intros pkt Hpk. eapply denies_verdict; [by apply HD|done].
Qed.

End Laws.
(** ** On the host that keeps its tables in memory *)
Module Memory.

#[local] Existing Instance Firewall.Memory.host.
#[local] Existing Instance Firewall.Memory.laws.

#[local] Instance absent_laws : AbsentLaws Firewall.Memory.host.
Proof.
  split.
  - intros pid f c w stderr w' _ He _ rules Hin. cbn [exec Firewall.Memory.host] in He.
    change (build_nsenter_argv pid (binary f) (args (step_unhook f c))) with
      (Firewall.command_argv (Firewall.ContainerNetns pid) (Firewall.firewall_binary f)
        ["-D"; "INPUT"; "-j"; c]) in He. rewrite Firewall.Memory.run_command in He.
    apply Firewall.delete_rule_None. destruct (Firewall.delete_rule _ rules) as [rest|] eqn:Ed; [|done].
    cbn in He, Hin. rewrite Hin in He. cbn in He. by rewrite Ed in He.
  - intros pid f c w stderr w' step _ Hstep He Ha. cbn [exec Firewall.Memory.host] in He.
    change (build_nsenter_argv pid (binary f) (args step)) with
      (Firewall.command_argv (Firewall.ContainerNetns pid) (Firewall.firewall_binary f) (args step)) in He.
    rewrite Firewall.Memory.run_command in He. cbn [Firewall.filter_table Firewall.Memory.laws].
    generalize dependent (Firewall.Memory.tables_of w (Firewall.Memory.address (Firewall.ContainerNetns pid) f)).
    intros rs He. destruct (rs !! c) as [rules|] eqn:E; [|done].
    destruct Hstep as [-> | ->]; cbn in He; rewrite E in He; cbn in He; [done|].
    destruct (is_empty rules && _); [done|]. injection He as <- <-. by vm_compute in Ha.
Qed.

Definition manager : IngressManager := MkIngressManager "MXC-I" 42 false false false false false.

(** Two stale jumps and a stale chain of an earlier run. *)
Definition stale : World :=
  ({[Firewall.Memory.address (Firewall.ContainerNetns 42) FamilyV4 :=
    <["MXC-I" := [["-j"; "ACCEPT"]]]>
      {["INPUT" := [["-j"; "MXC-I"]; ["-j"; "OTHER"]; ["-j"; "MXC-I"]]]}]}
    : gmap (list string) ruleset).

Definition final : IngressManager * World := (apply_firewall_rules Lxc.example_policy (manager, stale)).2.

Lemma ingress_apply_denies_witness :
  exists old, table manager stale FamilyV4 !! "INPUT" = Some old /\
    table manager final.2 FamilyV4 !! "INPUT" = Some (["-j"; "MXC-I"] :: strip "MXC-I" old).
Proof.
  destruct (ingress_apply_denies manager Lxc.example_policy stale final.1 final.2)
    as (_ & Hh & _ & Hd & _).
  - unfold pid_ok, u32_max. cbn. lia.
  - discriminate.
  - reflexivity.
  - reflexivity.
  - apply injective_projections; [vm_compute; reflexivity|]. exact (surjective_pairing final).
  - destruct (Hd FamilyV4 Hh) as (old & Ho & Hi & _). exists old. split; [exact Ho|exact Hi].
Defined.

Definition removed : IngressManager * World := (remove_firewall_rules final).2.

Lemma ingress_remove_accounts_witness :
  table final.1 removed.2 FamilyV4 !! "MXC-I" = None.
Proof.
  destruct (ingress_remove_accounts final.1 final.2 (Ok tt) removed.1 removed.2) as (_ & Hc & _).
  - unfold pid_ok, u32_max. vm_compute. split; discriminate.
  - vm_compute. discriminate.
  - apply injective_projections; [vm_compute; reflexivity|]. exact (surjective_pairing removed).
  - destruct (Hc eq_refl FamilyV4) as (_ & Hn & _). exact Hn.
Defined.

End Memory.
End Ingress.
