(* ===== verification/CmdLine.v ===== *)
(** * Rendering an argument vector as a command line

    [core/mxc_common/cmdline.rs]: the three renderings of an argv, and what the
    parsers they are made for read back from them: the documented rules of
    [CommandLineToArgvW], the word splitting and quote removal of a POSIX shell,
    and the way [cmd.exe] recognises its operators.  Text is bytes; every
    character the code inspects is ASCII. *)

From Stdlib Require Import Ascii.
From S2P Require Import Prelude Models.

Module CmdLine.

Inductive CommandLineContext : Type :=
| WindowsCreateProcess
| WindowsCommandProcessor
| PosixShell.

Definition for_backend (backend : ContainmentBackend) : CommandLineContext :=
  match backend with
  | IsolationSession | WindowsSandbox => WindowsCommandProcessor
  | Wslc | Lxc | Seatbelt | Bubblewrap | MicroVm => PosixShell
  | ProcessContainer | Vm | Hyperlight => WindowsCreateProcess
  end.

Inductive CommandLineError : Type := NullBytes.

Definition quote : ascii := ascii_of_nat 34.
Definition backslash : ascii := "\"%char.
Definition apostrophe : ascii := "'"%char.

Definition char_in (l : list ascii) (c : ascii) : bool := bool_decide (c ∈ l).

(** ** Windows *)

Definition needs_windows_create_process_quotes (arg : string) : bool :=
  bool_decide (arg = "") ||
  string_any (char_in [" "%char; ascii_of_nat 9; ascii_of_nat 10; ascii_of_nat 11; quote]) arg.

Definition needs_windows_cmd_quotes (arg : string) : bool :=
  needs_windows_create_process_quotes arg ||
  string_any (char_in ["&"; "|"; "<"; ">"; "^"; "("; ")"]%char) arg.

(** [for _ in 0..n { out.push('\\') }]. *)
Fixpoint push_backslashes (n : nat) (out : string) : string :=
  match n with O => out | S n => push_backslashes n (out +:+ String backslash "") end.

Definition quote_char (st : string * nat) (c : ascii) : string * nat :=
  let '(out, backslashes) := st in
  if decide (c = backslash) then (out, S backslashes)
  else if decide (c = quote) then (push_backslashes (backslashes * 2 + 1) out +:+ String quote "", O)
  else (push_backslashes backslashes out +:+ String c "", O).

Definition append_quoted_windows_arg (out arg : string) : string :=
  let '(out, backslashes) :=
    foldl quote_char (out +:+ String quote "", O) (String.list_ascii_of_string arg) in
  push_backslashes (backslashes * 2) out +:+ String quote "".

Definition append_windows_quoted (out arg : string) (needs_quoting : string -> bool) : string :=
  if negb (needs_quoting arg) then out +:+ arg else append_quoted_windows_arg out arg.

Definition append_windows_create_process (out arg : string) : string :=
  append_windows_quoted out arg needs_windows_create_process_quotes.
Definition append_windows_cmd (out arg : string) : string :=
  append_windows_quoted out arg needs_windows_cmd_quotes.

(** ** POSIX shell *)

Definition is_posix_shell_safe_unquoted (arg : string) : bool :=
  negb (bool_decide (arg = "")) &&
  string_all (fun b => is_ascii_alphanumeric b ||
    char_in ["_"; "@"; "%"; "+"; "="; ":"; ","; "."; "/"; "-"]%char b) arg.

Definition append_posix_char (out : string) (c : ascii) : string :=
  if decide (c = apostrophe) then out +:+ "'\''" else out +:+ String c "".

Definition append_posix_shell (out arg : string) : string :=
  if is_posix_shell_safe_unquoted arg then out +:+ arg
  else foldl append_posix_char (out +:+ "'") (String.list_ascii_of_string arg) +:+ "'".

(** ** Joining *)

Definition validate_argv (argv : list string) : result CommandLineError unit :=
  fail_if (existsb (string_any (char_in [zero])) argv) NullBytes.

Definition append_arg (context : CommandLineContext) (out arg : string) : string :=
  match context with
  | WindowsCreateProcess => append_windows_create_process out arg
  | WindowsCommandProcessor => append_windows_cmd out arg
  | PosixShell => append_posix_shell out arg
  end.

Definition cmdline_from_argv_for_context (argv : list string) (context : CommandLineContext)
  : result CommandLineError string :=
  _ ← validate_argv argv;
  Ok (foldl (fun out '(i, arg) =>
        append_arg context (if (0 <? i)%nat then out +:+ " " else out) arg) "" (enumerate argv)).

(** ** The parsers *)

Definition is_blank_char (c : ascii) : bool := char_in [" "%char; ascii_of_nat 9] c.

(** Where [CommandLineToArgvW] is after the program name: between arguments, or
    in one, with the quoting state, the backslashes just seen and the text. *)
Inductive argv_state : Type := Between | Within (quoted : bool) (pending : nat) (text : string).

(** The documented rules: blanks outside quotes separate; [2n] backslashes and
    a quote are [n] backslashes and a delimiter, [2n+1] and a quote are [n]
    backslashes and a quote, other backslashes are themselves; a doubled quote
    inside quotes is a quote. *)
Fixpoint read_args (s : string) (st : argv_state) : list string :=
  match s with
  | "" => match st with Between => [] | Within _ n text => [push_backslashes n text] end
  | String c rest =>
      let char quoted n text :=
        if decide (c = backslash) then read_args rest (Within quoted (S n) text)
        else if decide (c = quote) then
          let text := push_backslashes (Nat.div2 n) text in
          if Nat.odd n then read_args rest (Within quoted 0 (text +:+ String quote ""))
          else match rest with
          | String c' rest' =>
              if quoted && bool_decide (c' = quote)
              then read_args rest' (Within true 0 (text +:+ String quote ""))
              else read_args rest (Within (negb quoted) 0 text)
          | "" => read_args rest (Within (negb quoted) 0 text)
          end
        else if negb quoted && is_blank_char c then push_backslashes n text :: read_args rest Between
        else read_args rest (Within quoted 0 (push_backslashes n text +:+ String c "")) in
      match st with
      | Between => if is_blank_char c then read_args rest Between else char false O ""
      | Within quoted n text => char quoted n text
      end
  end.

(** The program name ends at the closing quote, or else at the first blank; no
    character escapes another. *)
Definition command_line_to_argv (s : string) : list string :=
  match s with
  | String c rest =>
      if decide (c = quote) then
        let '(name, after) := break_at (fun c => bool_decide (c = quote)) rest in
        name :: read_args (match after with String _ after => after | "" => "" end) Between
      else let '(name, after) := break_at is_blank_char s in name :: read_args after Between
  | "" => []
  end.

(** ** Renderings as concatenations *)

Definition slashes (n : nat) : string := push_backslashes n "".

Lemma push_backslashes_app n out : push_backslashes n out = out +:+ slashes n.
Proof.
  unfold slashes. revert out. induction n as [|n IH]; intros out; cbn; [by rewrite string_app_nil_r|].
  rewrite (IH (out +:+ _)), (IH ("" +:+ _)), !string_app_assoc. done.
Qed.

Lemma slashes_S n : slashes (S n) = String backslash (slashes n).
Proof. unfold slashes at 1. cbn. by rewrite push_backslashes_app. Qed.

Lemma slashes_snoc n s : slashes n +:+ String backslash s = String backslash (slashes n +:+ s).
Proof. induction n as [|n IH]; [done|]. rewrite slashes_S. autorewrite with text. by rewrite IH. Qed.

(** What quoting emits for the rest of an argument after [n] backslashes, up to
    the closing quote. *)
Fixpoint quote_body (arg : string) (n : nat) : string :=
  match arg with
  | "" => slashes (n * 2)
  | String c arg =>
      if decide (c = backslash) then quote_body arg (S n)
      else if decide (c = quote) then slashes (n * 2 + 1) +:+ String quote (quote_body arg 0)
      else slashes n +:+ String c (quote_body arg 0)
  end.

Lemma quote_chars_body arg out n :
  (let '(out, n) := foldl quote_char (out, n) (String.list_ascii_of_string arg) in
   push_backslashes (n * 2) out) = out +:+ quote_body arg n.
Proof.
  revert out n. induction arg as [|c arg IH]; intros out n; cbn [String.list_ascii_of_string foldl quote_body].
  - apply push_backslashes_app.
  - unfold quote_char at 2. destruct (decide (c = backslash)); [apply IH|].
    destruct (decide (c = quote)); rewrite IH, push_backslashes_app, !string_app_assoc; done.
Qed.

Lemma append_quoted_body out arg :
  append_quoted_windows_arg out arg = out +:+ String quote (quote_body arg 0 +:+ String quote "").
Proof.
  unfold append_quoted_windows_arg. pose proof (quote_chars_body arg (out +:+ String quote "") 0) as Hq.
  destruct (foldl _ _ _) as [out' n]. rewrite Hq, !string_app_assoc. done.
Qed.

Fixpoint escape_posix (arg : string) : string :=
  match arg with
  | "" => ""
  | String c arg =>
      if decide (c = apostrophe) then "'\''" +:+ escape_posix arg else String c (escape_posix arg)
  end.

Lemma append_posix_escape arg out :
  foldl append_posix_char out (String.list_ascii_of_string arg) = out +:+ escape_posix arg.
Proof.
  revert out. induction arg as [|c arg IH]; intros out; cbn [String.list_ascii_of_string foldl escape_posix].
  - by rewrite string_app_nil_r.
  - rewrite IH. unfold append_posix_char. destruct (decide _); by rewrite string_app_assoc.
Qed.

(** The text of one argument. *)
Definition render (context : CommandLineContext) (arg : string) : string := append_arg context "" arg.

Lemma append_arg_render context out arg : append_arg context out arg = out +:+ render context arg.
Proof.
  unfold render. destruct context; cbn;
    unfold append_windows_create_process, append_windows_cmd, append_windows_quoted, append_posix_shell.
  - destruct (negb _); [done|]. by rewrite !append_quoted_body.
  - destruct (negb _); [done|]. by rewrite !append_quoted_body.
  - destruct (is_posix_shell_safe_unquoted arg); [done|].
    by rewrite !append_posix_escape, !string_app_assoc.
Qed.

(** The arguments after the first, each behind a space. *)
Definition render_rest (context : CommandLineContext) (args : list string) : string :=
  foldr (fun arg s => " " +:+ render context arg +:+ s) "" args.

Lemma cmdline_render context arg args s :
  cmdline_from_argv_for_context (arg :: args) context = Ok s ->
  s = render context arg +:+ render_rest context args.
Proof.
  unfold cmdline_from_argv_for_context. destruct (validate_argv _); [|done]. intros [= <-].
  assert (Hrest : forall l k out, (0 < k)%nat ->
    foldl (fun out '(i, arg) => append_arg context (if (0 <? i)%nat then out +:+ " " else out) arg) out
      (imap (fun i a => ((k + i)%nat, a)) l) = out +:+ render_rest context l).
  { induction l as [|x l IH]; intros k out Hk; cbn [imap foldl render_rest foldr]; [by rewrite string_app_nil_r|].
    assert ((0 <? k + 0)%nat = true) as -> by (apply Nat.ltb_lt; lia).
    rewrite (imap_ext _ (fun i a => ((S k + i)%nat, a))) by (intros; cbn; f_equal; lia).
    rewrite IH, append_arg_render, !string_app_assoc by lia. done. }
  unfold enumerate. cbn [imap foldl]. rewrite append_arg_render.
  rewrite (imap_ext _ (fun i a => ((1 + i)%nat, a))) by done. rewrite Hrest by lia. done.
Qed.

(** ** The Windows round trip *)

(** A character that is neither a backslash nor a quote. *)
Lemma read_plain c rest quoted n text :
  c <> backslash -> c <> quote -> negb quoted && is_blank_char c = false ->
  read_args (String c rest) (Within quoted n text) =
  read_args rest (Within quoted 0 (text +:+ slashes n +:+ String c "")).
Proof.
  intros Hb Hq Hbl. cbn [read_args]. rewrite !decide_False by done. rewrite Hbl.
  by rewrite push_backslashes_app, string_app_assoc.
Qed.

Lemma read_slashes k rest quoted n text :
  read_args (slashes k +:+ rest) (Within quoted n text) = read_args rest (Within quoted (k + n) text).
Proof.
  revert n. induction k as [|k IH]; intros n; [done|]. rewrite slashes_S. autorewrite with text.
  cbn [read_args]. rewrite decide_True by done. rewrite IH. do 2 f_equal. lia.
Qed.

Lemma quote_ne_backslash : quote <> backslash.
Proof. done. Qed.

Lemma read_quote_even n rest text :
  starts_with (fun c => bool_decide (c = quote)) rest = false ->
  read_args (String quote rest) (Within true (n * 2) text) =
  read_args rest (Within false 0 (text +:+ slashes n)).
Proof.
  intros Hr. cbn [read_args]. rewrite decide_False, decide_True by done.
  rewrite (Nat.mul_comm n 2), Nat.div2_double, push_backslashes_app.
  assert (Nat.odd (2 * n) = false) as -> by (rewrite Nat.odd_mul; done).
  destruct rest as [|c' rest]; [done|]. cbn in Hr. by rewrite Hr, andb_false_r.
Qed.

Lemma read_quote_odd n rest text quoted :
  read_args (String quote rest) (Within quoted (n * 2 + 1) text) =
  read_args rest (Within quoted 0 (text +:+ slashes n +:+ String quote "")).
Proof.
  cbn [read_args]. rewrite decide_False, decide_True by done.
  assert (Nat.odd (n * 2 + 1) = true) as ->
    by (rewrite Nat.odd_add, Nat.odd_mul; cbn; by rewrite andb_false_r).
  assert (Nat.div2 (n * 2 + 1) = n) as -> by (rewrite Nat.div2_div; symmetry; apply (Nat.div_unique _ 2 n 1); lia).
  by rewrite push_backslashes_app, string_app_assoc.
Qed.

(** Inside quotes the emitted body reads as the argument. *)
Lemma read_quote_body arg n text rest :
  starts_with (fun c => bool_decide (c = quote)) rest = false ->
  read_args (quote_body arg n +:+ String quote rest) (Within true 0 text) =
  read_args rest (Within false 0 (text +:+ slashes n +:+ arg)).
Proof.
  intros Hr. revert n text. induction arg as [|c arg IH]; intros n text; cbn [quote_body].
  - rewrite read_slashes, Nat.add_0_r, read_quote_even by done. by rewrite string_app_nil_r.
  - destruct (decide (c = backslash)) as [->|Hb].
    + rewrite IH, slashes_S. autorewrite with text. by rewrite slashes_snoc.
    + destruct (decide (c = quote)) as [->|Hq]; rewrite string_app_assoc, read_slashes, Nat.add_0_r; autorewrite with text.
      * rewrite read_quote_odd, IH, !string_app_assoc. done.
      * rewrite read_plain, IH, !string_app_assoc by done. done.
Qed.

(** Outside quotes, plain text up to the end or a blank reads as itself. *)
Lemma read_bare arg n text rest :
  string_all (fun c => negb (is_blank_char c) && negb (bool_decide (c = quote))) arg = true ->
  rest = "" \/ starts_with is_blank_char rest = true ->
  read_args (arg +:+ rest) (Within false n text) = (text +:+ slashes n +:+ arg) :: read_args rest Between.
Proof.
  intros Ha Hr. revert n text Ha. induction arg as [|c arg IH]; intros n text Ha.
  - rewrite string_app_nil_l, string_app_nil_r. destruct Hr as [->|Hr].
    + cbn. by rewrite push_backslashes_app.
    + destruct rest as [|b rest]; [done|]. cbn [starts_with] in Hr. cbn [read_args]. rewrite Hr.
      rewrite !decide_False by (intros ->; by vm_compute in Hr). cbn. by rewrite push_backslashes_app.
  - cbn in Ha. apply andb_true_iff in Ha as [[Hbl Hq]%andb_true_iff Ha]. autorewrite with text.
    apply negb_true_iff in Hbl, Hq. apply bool_decide_eq_false in Hq.
    destruct (decide (c = backslash)) as [->|Hb].
    + cbn [read_args]. rewrite decide_True by done. rewrite IH by done.
      rewrite slashes_S. autorewrite with text. by rewrite slashes_snoc.
    + rewrite read_plain by (rewrite ?Hbl; done). rewrite IH by done. by rewrite !string_app_assoc.
Qed.

(** What follows an argument: nothing, or a blank. *)
Definition at_break (rest : string) : Prop := rest = "" \/ starts_with is_blank_char rest = true.

Lemma at_break_no_quote rest :
  at_break rest -> starts_with (fun c => bool_decide (c = quote)) rest = false.
Proof.
  intros [->|Hr]; [done|]. destruct rest as [|c rest]; [done|]. cbn in *.
  apply bool_decide_eq_false. intros ->. by vm_compute in Hr.
Qed.

Lemma render_rest_at_break context args : at_break (render_rest context args).
Proof. destruct args; [by left|by right]. Qed.

(** Windows contexts render an argument as it is, if no character needs quoting,
    or between quotes. *)
Lemma render_windows context arg :
  context <> PosixShell ->
  render context arg = String quote (quote_body arg 0 +:+ String quote "") \/
  render context arg = arg /\ arg <> "" /\
    string_all (fun c => negb (is_blank_char c) && negb (bool_decide (c = quote))) arg = true.
Proof.
  intros Hc. assert (Hneeds : needs_windows_create_process_quotes arg = false -> arg <> "" /\
    string_all (fun c => negb (is_blank_char c) && negb (bool_decide (c = quote))) arg = true).
  { intros [Hne Hany]%orb_false_iff. apply bool_decide_eq_false in Hne. split; [done|].
    apply negb_false_iff in Hany. eapply string_all_impl; [|exact Hany]. intros c.
    unfold is_blank_char, char_in. rewrite !negb_true_iff, andb_true_iff, !negb_true_iff, !bool_decide_eq_false.
    set_solver. }
  destruct context; [| |done]; unfold render, append_arg, append_windows_create_process, append_windows_cmd,
    append_windows_quoted; rewrite append_quoted_body.
  - destruct (needs_windows_create_process_quotes arg); [by left|right]. auto.
  - destruct (needs_windows_cmd_quotes arg) eqn:E; [by left|right].
    apply orb_false_iff in E as [E _]. auto.
Qed.

Lemma read_render context arg rest :
  context <> PosixShell -> at_break rest ->
  read_args (render context arg +:+ rest) Between = arg :: read_args rest Between.
Proof.
  intros Hc Hr. destruct (render_windows context arg Hc) as [->|(-> & Hne & Hall)].
  - autorewrite with text. transitivity (read_args ((quote_body arg 0 +:+ String quote "") +:+ rest) (Within true 0 "")).
    + cbn [read_args]. change (is_blank_char quote) with false. cbv iota.
      rewrite decide_False, decide_True by done. cbn [Nat.odd Nat.div2 push_backslashes negb andb].
      by destruct (_ +:+ rest).
    + rewrite string_app_assoc. autorewrite with text.
      rewrite read_quote_body by (by apply at_break_no_quote).
      change ("" +:+ slashes 0 +:+ arg) with arg.
      etransitivity; [by apply (read_bare "" 0 arg rest)|]. change (slashes 0 +:+ "") with "".
      by rewrite string_app_nil_r.
  - destruct arg as [|c arg]; [done|]. transitivity (read_args (String c arg +:+ rest) (Within false 0 "")).
    + cbn in Hall. apply andb_true_iff in Hall as [[Hbl _]%andb_true_iff _]. apply negb_true_iff in Hbl.
      autorewrite with text. cbn [read_args]. by rewrite Hbl.
    + by apply (read_bare (String c arg) 0 "" rest).
Qed.

Lemma read_render_rest context args :
  context <> PosixShell -> read_args (render_rest context args) Between = args.
Proof.
  intros Hc. induction args as [|arg args IH]; [done|].
  change (read_args (render context arg +:+ render_rest context args) Between = arg :: args).
  rewrite read_render by (done || apply render_rest_at_break). by rewrite IH.
Qed.

(** A name the quoting leaves as it is, but for the quotes. *)
Lemma quote_body_plain name n :
  lacks quote name = true -> strip_suffix_char backslash (slashes n +:+ name) = None ->
  quote_body name n = slashes n +:+ name.
Proof.
  revert n. induction name as [|c name IH]; intros n Hl Hs; cbn [quote_body].
  - destruct n as [|n]; [done|]. rewrite string_app_nil_r in Hs.
    assert (slashes (S n) = slashes n +:+ String backslash "") as E
      by (rewrite slashes_S, slashes_snoc; by rewrite string_app_nil_r).
    by rewrite E, strip_suffix_char_app in Hs.
  - cbn in Hl. apply andb_true_iff in Hl as [Hq Hl].
    destruct (decide (c = backslash)) as [->|Hb].
    + rewrite slashes_snoc in Hs |- *. rewrite IH; [by rewrite slashes_S|done|]. by rewrite slashes_S.
    + rewrite decide_False by (intros ->; by vm_compute in Hq). rewrite IH; [done|done|].
      destruct (strip_suffix_char backslash (slashes 0 +:+ name)) as [t|] eqn:E; [|done].
      apply strip_suffix_char_Some in E. change (slashes 0 +:+ name) with name in E. subst name.
      assert (slashes n +:+ String c (t +:+ String backslash "") =
        (slashes n +:+ String c t) +:+ String backslash "") as E by (by rewrite string_app_assoc).
      by rewrite E, strip_suffix_char_app in Hs.
Qed.

(** C32. Arguments survive a Windows command line.  What [CommandLineToArgvW]
    reads from the rendering for either Windows context is the argument vector,
    for every argument, whatever blanks, quotes and backslashes it holds; the
    program name, which that parser reads without escapes, must hold no quote
    and not end in a backslash. *)
Theorem windows_cmdline_roundtrip (context : CommandLineContext) (program : string) (args : list string)
    (s : string) :
  context <> PosixShell -> lacks quote program = true -> strip_suffix_char backslash program = None ->
  cmdline_from_argv_for_context (program :: args) context = Ok s ->
  command_line_to_argv s = program :: args.
Proof.
  intros Hc Hq Hb Hs. apply cmdline_render in Hs as ->.
  destruct (render_windows context program Hc) as [->|(-> & Hne & Hall)].
  - rewrite quote_body_plain by done. autorewrite with text. cbn [command_line_to_argv].
    rewrite decide_True, string_app_assoc by done. autorewrite with text. rewrite break_at_make.
    + by rewrite read_render_rest.
    + eapply string_all_impl; [|exact Hq]. done.
    + by right.
  - destruct program as [|c program]; [done|]. autorewrite with text. cbn [command_line_to_argv].
    cbn in Hall. apply andb_true_iff in Hall as [[Hbl Hcq]%andb_true_iff Hall].
    apply negb_true_iff, bool_decide_eq_false in Hcq. rewrite decide_False by done.
    rewrite <- string_app_cons, break_at_make; [by rewrite read_render_rest| |apply render_rest_at_break].
    cbn. rewrite Hbl. eapply string_all_impl; [|exact Hall]. by intros x [? _]%andb_true_iff.
Qed.

Lemma windows_cmdline_roundtrip_witness :
  exists s, cmdline_from_argv_for_context ["py"; ""; "a\"; "C:\b c\"] WindowsCreateProcess = Ok s /\
    command_line_to_argv s = ["py"; ""; "a\"; "C:\b c\"].
Proof.
  eexists. split; [vm_compute; reflexivity|].
  apply (windows_cmdline_roundtrip WindowsCreateProcess "py" [""; "a\"; "C:\b c\"]);
    [discriminate|reflexivity|reflexivity|vm_compute; reflexivity].
Defined.

(** ** cmd.exe *)

Definition is_cmd_operator : ascii -> bool := char_in ["&"; "|"; "<"; ">"; "^"; "("; ")"]%char.

(** Whether [cmd.exe] sees an operator: every quote toggles quoting, nothing
    escapes a quote. *)
Fixpoint cmd_sees_operator (s : string) (quoted : bool) : bool :=
  match s with
  | "" => false
  | String c s =>
      if decide (c = quote) then cmd_sees_operator s (negb quoted)
      else negb quoted && is_cmd_operator c || cmd_sees_operator s quoted
  end.

Lemma cmd_skip_quoted a rest :
  lacks quote a = true -> cmd_sees_operator (a +:+ rest) true = cmd_sees_operator rest true.
Proof.
  induction a as [|c a IH]; [done|]. intros [Hc Ha]%andb_true_iff. autorewrite with text. cbn.
  apply negb_true_iff, bool_decide_eq_false in Hc. rewrite decide_False by done. auto.
Qed.

Lemma cmd_skip_plain a rest :
  lacks quote a = true -> string_any is_cmd_operator a = false ->
  cmd_sees_operator (a +:+ rest) false = cmd_sees_operator rest false.
Proof.
  intros Ha Ho. unfold string_any in Ho. apply negb_false_iff in Ho. revert Ha Ho.
  induction a as [|c a IH]; [done|]. intros [Hc Ha]%andb_true_iff [Hp Ho]%andb_true_iff.
  autorewrite with text. cbn. apply negb_true_iff, bool_decide_eq_false in Hc.
  rewrite decide_False by done. apply negb_true_iff in Hp. rewrite Hp. auto.
Qed.

Lemma slashes_lacks_quote n : lacks quote (slashes n) = true.
Proof. induction n as [|n IH]; [done|]. by rewrite slashes_S. Qed.

Lemma quote_body_lacks_quote arg n : lacks quote arg = true -> lacks quote (quote_body arg n) = true.
Proof.
  revert n. induction arg as [|c arg IH]; intros n Hl; cbn [quote_body]; [apply slashes_lacks_quote|].
  cbn in Hl. apply andb_true_iff in Hl as [Hc Hl]. destruct (decide (c = backslash)); [auto|].
  assert (Hne : c <> quote) by (by apply negb_true_iff, bool_decide_eq_false in Hc).
  rewrite decide_False by done. unfold lacks in *. rewrite string_all_app. cbn. rewrite Hc, IH by done.
  rewrite andb_true_r. apply slashes_lacks_quote.
Qed.

Lemma cmd_render arg rest :
  lacks quote arg = true ->
  cmd_sees_operator (render WindowsCommandProcessor arg +:+ rest) false = cmd_sees_operator rest false.
Proof.
  intros Hl. unfold render, append_arg, append_windows_cmd, append_windows_quoted.
  destruct (needs_windows_cmd_quotes arg) eqn:E; cbn [negb].
  - rewrite append_quoted_body. autorewrite with text. cbn [cmd_sees_operator].
    rewrite decide_True, string_app_assoc by done. autorewrite with text. cbn [negb].
    rewrite cmd_skip_quoted by (by apply quote_body_lacks_quote). cbn. by rewrite decide_True.
  - apply orb_false_iff in E as [_ E]. by apply cmd_skip_plain.
Qed.

(** In the rendering for [cmd.exe], arguments without a quote are data: no
    character of theirs is seen as an operator. *)
Theorem cmd_rendering_is_data (argv : list string) (s : string) :
  Forall (fun arg => lacks quote arg = true) argv ->
  cmdline_from_argv_for_context argv WindowsCommandProcessor = Ok s ->
  cmd_sees_operator s false = false.
Proof.
  intros Hall Hs. destruct Hall as [|arg args Ha Hargs].
  { by injection Hs as <-. }
  apply cmdline_render in Hs as ->. rewrite cmd_render by done.
  induction Hargs as [|a args Ha' _ IH]; [done|].
  change (cmd_sees_operator (" " +:+ render WindowsCommandProcessor a +:+
    render_rest WindowsCommandProcessor args) false = false).
  autorewrite with text. cbn [cmd_sees_operator]. rewrite decide_False by done. cbn [andb negb orb].
  by rewrite cmd_render.
Qed.

Lemma cmd_rendering_is_data_witness :
  cmdline_from_argv_for_context ["echo"; "safe&whoami"] WindowsCommandProcessor =
    Ok ("echo " +:+ String quote ("safe&whoami" +:+ String quote "")) /\
  cmd_sees_operator ("echo " +:+ String quote ("safe&whoami" +:+ String quote "")) false = false.
Proof.
  split; [vm_compute; reflexivity|].
  apply (cmd_rendering_is_data ["echo"; "safe&whoami"]).
  - repeat constructor.
  - vm_compute. reflexivity.
Defined.

Lemma cmd_skip_slashes n s quoted : cmd_sees_operator (slashes n +:+ s) quoted = cmd_sees_operator s quoted.
Proof.
  induction n as [|n IH]; [done|]. rewrite slashes_S. autorewrite with text. cbn [cmd_sees_operator].
  rewrite decide_False by done. cbn [is_cmd_operator]. by rewrite IH, andb_false_r.
Qed.

(** Escaping does not hide an operator from [cmd.exe]. *)
Lemma cmd_sees_quote_body arg n rest quoted :
  cmd_sees_operator arg quoted = true -> cmd_sees_operator (quote_body arg n +:+ rest) quoted = true.
Proof.
  revert n quoted. induction arg as [|c arg IH]; intros n quoted Hs; [done|]. cbn [cmd_sees_operator] in Hs. cbn [quote_body].
  destruct (decide (c = backslash)) as [->|Hb].
  { rewrite decide_False in Hs by done. apply IH. by apply orb_true_iff in Hs as [[_ ?]%andb_true_iff|Hs]. }
  destruct (decide (c = quote)) as [->|Hq]; rewrite string_app_assoc, cmd_skip_slashes; autorewrite with text; cbn [cmd_sees_operator].
  - rewrite decide_True by done. by apply IH.
  - rewrite decide_False by done. apply orb_true_iff in Hs as [->|Hs]; [done|]. rewrite IH by done. apply orb_true_r.
Qed.

Lemma cmd_sees_render arg rest :
  cmd_sees_operator arg true = true -> cmd_sees_operator (render WindowsCommandProcessor arg +:+ rest) false = true.
Proof.
  intros Hs. destruct (render_windows WindowsCommandProcessor arg) as [-> | (_ & _ & Hl)]; [done| |].
  - autorewrite with text. cbn [cmd_sees_operator]. rewrite decide_True, string_app_assoc by done.
    cbn [negb]. by apply cmd_sees_quote_body.
  - assert (Hq : lacks quote arg = true) by (eapply string_all_impl; [|exact Hl]; by intros c [_ ?]%andb_true_iff).
    rewrite <- (string_app_nil_r arg), cmd_skip_quoted in Hs by done. done.
Qed.

(** C35. An operator behind a quote reaches [cmd.exe] as syntax.  The quoting
    escapes a quote of an argument with a backslash, which [cmd.exe] does not
    know: whenever an argument has an operator behind an odd number of quotes,
    and no argument before it has a quote, [cmd.exe] sees an operator in the
    rendering. *)
Theorem cmd_quote_exposes_operator (before after : list string) (arg s : string) :
  Forall (fun arg => lacks quote arg = true) before -> cmd_sees_operator arg true = true ->
  cmdline_from_argv_for_context (before ++ arg :: after) WindowsCommandProcessor = Ok s ->
  cmd_sees_operator s false = true.
Proof.
  intros Hbefore Harg Hs. destruct Hbefore as [|program args Hp Hargs].
  { apply cmdline_render in Hs as ->. by apply cmd_sees_render. }
  apply cmdline_render in Hs as ->. rewrite cmd_render by done.
  induction Hargs as [|a args Ha _ IH]; cbn [app render_rest foldr];
    autorewrite with text; cbn [cmd_sees_operator]; rewrite decide_False by done; cbn [andb negb orb].
  - by apply cmd_sees_render.
  - by rewrite cmd_render.
Qed.

Lemma cmd_quote_exposes_operator_witness :
  exists s, cmdline_from_argv_for_context ["echo"; "a" +:+ String quote "b&whoami"] WindowsCommandProcessor = Ok s /\
    cmd_sees_operator s false = true.
Proof.
  eexists. split; [vm_compute; reflexivity|].
  apply (cmd_quote_exposes_operator ["echo"] [] ("a" +:+ String quote "b&whoami")); [repeat constructor|reflexivity|].
  vm_compute. reflexivity.
Defined.

(** ** The POSIX shell *)

(** Characters that stand for themselves outside quotes wherever they occur in
    a word that is not the first one. *)
Definition is_sh_plain (c : ascii) : bool :=
  negb (char_in ["|"; "&"; ";"; "<"; ">"; "("; ")"; "$"; "`"; "\"; "'"; " "; "*"; "?"; "["; "]";
    "#"; "~"; "{"; "}"; "!"; "^"]%char c) &&
  negb (char_in [quote; ascii_of_nat 9; ascii_of_nat 10; zero] c).

(** Between words; in a word, with its raw and its unquoted text; in single
    quotes. *)
Inductive sh_state : Type :=
| ShBetween
| ShWord (raw text : string)
| ShSingle (raw text : string).

(** The words of a simple command, raw and after quote removal; [None] where the
    text is more than blanks, plain characters and quotes. *)
Fixpoint sh_words (s : string) (st : sh_state) : option (list (string * string)) :=
  match s with
  | "" =>
      match st with
      | ShBetween => Some []
      | ShWord raw text => Some [(raw, text)]
      | ShSingle _ _ => None
      end
  | String c rest =>
      let word raw text :=
        if decide (c = apostrophe) then sh_words rest (ShSingle (raw +:+ String c "") text)
        else if decide (c = backslash) then
          match rest with
          | String c' rest' =>
              if decide (c' = ascii_of_nat 10) then None
              else sh_words rest' (ShWord (raw +:+ String c (String c' "")) (text +:+ String c' ""))
          | "" => None
          end
        else if is_sh_plain c then sh_words rest (ShWord (raw +:+ String c "") (text +:+ String c ""))
        else None in
      match st with
      | ShBetween => if is_blank_char c then sh_words rest ShBetween else word "" ""
      | ShWord raw text =>
          if is_blank_char c then words ← sh_words rest ShBetween; Some ((raw, text) :: words)
          else word raw text
      | ShSingle raw text =>
          if decide (c = apostrophe) then sh_words rest (ShWord (raw +:+ String c "") text)
          else sh_words rest (ShSingle (raw +:+ String c "") (text +:+ String c ""))
      end
  end.

(** A word that assigns a variable instead of naming a command. *)
Definition is_assignment (raw : string) : bool :=
  match split_once "=" raw with
  | Some (name, _) =>
      starts_with (fun c => is_ascii_alphabetic c || bool_decide (c = "_"%char)) name &&
      string_all (fun c => is_ascii_alphanumeric c || bool_decide (c = "_"%char)) name
  | None => false
  end.

Definition reserved_words : list string :=
  ["case"; "do"; "done"; "elif"; "else"; "esac"; "fi"; "for"; "if"; "in"; "then"; "until"; "while"].

(** The argument vector a shell runs, if the text is a simple command without
    assignments. *)
Definition sh_argv (s : string) : option (list string) :=
  words ← sh_words s ShBetween;
  match words with
  | [] => None
  | (raw, _) :: _ =>
      if is_assignment raw || bool_decide (raw ∈ reserved_words) then None else Some (words.*2)
  end.

Lemma sh_plain_cases c :
  is_sh_plain c = true -> is_blank_char c = false /\ c <> apostrophe /\ c <> backslash.
Proof.
  intros Hp. split; [|split; intros ->; by vm_compute in Hp].
  unfold is_blank_char, char_in. apply bool_decide_eq_false. intros Hin.
  apply elem_of_cons in Hin as [->|Hin]; [by vm_compute in Hp|].
  apply list_elem_of_singleton in Hin as ->. by vm_compute in Hp.
Qed.

Lemma sh_plain_word a raw text rest :
  string_all is_sh_plain a = true ->
  sh_words (a +:+ rest) (ShWord raw text) = sh_words rest (ShWord (raw +:+ a) (text +:+ a)).
Proof.
  revert raw text. induction a as [|c a IH]; intros raw text Ha.
  - by rewrite !string_app_nil_r.
  - cbn in Ha. apply andb_true_iff in Ha as [Hc Ha]. autorewrite with text. cbn [sh_words].
    destruct (sh_plain_cases c Hc) as (Hb & Hq & Hs). rewrite Hb, !decide_False, Hc by done.
    rewrite IH, !string_app_assoc by done. done.
Qed.

Lemma sh_single_word a raw text rest :
  sh_words (escape_posix a +:+ String apostrophe rest) (ShSingle raw text) =
  sh_words rest (ShWord (raw +:+ escape_posix a +:+ "'") (text +:+ a)).
Proof.
  revert raw text. induction a as [|c a IH]; intros raw text; cbn [escape_posix].
  - autorewrite with text. cbn [sh_words]. rewrite decide_True by done. by rewrite string_app_nil_r.
  - destruct (decide (c = apostrophe)) as [->|Hc].
    + rewrite string_app_assoc.
      change (sh_words ("'\''" +:+ escape_posix a +:+ String apostrophe rest) (ShSingle raw text)) with
        (sh_words (escape_posix a +:+ String apostrophe rest)
          (ShSingle ((((raw +:+ "'") +:+ "\'") +:+ "'")) (text +:+ "'"))).
      rewrite IH, !string_app_assoc. done.
    + autorewrite with text. cbn [sh_words]. rewrite decide_False by done.
      rewrite IH, !string_app_assoc. done.
Qed.

Lemma sh_word_end raw text rest :
  at_break rest ->
  sh_words rest (ShWord raw text) = (words ← sh_words rest ShBetween; Some ((raw, text) :: words)).
Proof.
  intros [->|Hr]; [done|]. destruct rest as [|c rest]; [done|]. cbn in Hr. cbn [sh_words]. by rewrite Hr.
Qed.

Lemma posix_safe_plain arg :
  is_posix_shell_safe_unquoted arg = true -> arg <> "" /\ string_all is_sh_plain arg = true.
Proof.
  intros [Hne Hall]%andb_true_iff. apply negb_true_iff, bool_decide_eq_false in Hne. split; [done|].
  eapply string_all_impl; [|exact Hall]. intros [[] [] [] [] [] [] [] []]; vm_compute; congruence.
Qed.

Lemma render_posix arg :
  render PosixShell arg = if is_posix_shell_safe_unquoted arg then arg else "'" +:+ escape_posix arg +:+ "'".
Proof.
  unfold render, append_arg, append_posix_shell. destruct (is_posix_shell_safe_unquoted arg); [done|].
  by rewrite append_posix_escape, string_app_assoc.
Qed.

Lemma sh_render arg rest :
  at_break rest ->
  sh_words (render PosixShell arg +:+ rest) ShBetween =
  (words ← sh_words rest ShBetween; Some ((render PosixShell arg, arg) :: words)).
Proof.
  intros Hr. rewrite render_posix. destruct (is_posix_shell_safe_unquoted arg) eqn:E.
  - apply posix_safe_plain in E as [Hne Hall]. destruct arg as [|c arg]; [done|].
    rewrite <- (sh_word_end _ _ rest Hr).
    transitivity (sh_words (String c arg +:+ rest) (ShWord "" "")); [|by rewrite sh_plain_word].
    cbn in Hall. apply andb_true_iff in Hall as [Hc _]. destruct (sh_plain_cases c Hc) as (Hb & _ & _).
    autorewrite with text. cbn [sh_words]. by rewrite Hb.
  - rewrite <- (sh_word_end _ _ rest Hr), !string_app_assoc.
    change (sh_words ("'" +:+ escape_posix arg +:+ "'" +:+ rest) ShBetween) with
      (sh_words (escape_posix arg +:+ String apostrophe rest) (ShSingle "'" "")).
    by rewrite sh_single_word.
Qed.

Lemma sh_render_rest args :
  sh_words (render_rest PosixShell args) ShBetween = Some ((fun arg => (render PosixShell arg, arg)) <$> args).
Proof.
  induction args as [|arg args IH]; [done|].
  change (sh_words (render PosixShell arg +:+ render_rest PosixShell args) ShBetween =
    Some ((fun arg => (render PosixShell arg, arg)) <$> arg :: args)).
  rewrite sh_render by apply render_rest_at_break. by rewrite IH.
Qed.

(** A first argument that a shell takes for an assignment or a reserved word. *)
Definition is_shell_syntax (arg : string) : bool :=
  is_posix_shell_safe_unquoted arg && (is_assignment arg || bool_decide (arg ∈ reserved_words)).

(** C31. Arguments survive the POSIX shell.  What [sh -c] runs for the rendering
    is the argument vector, for all arguments, whatever characters they hold;
    only a first argument that reads as a variable assignment or as a reserved
    word is excepted. *)
Theorem posix_cmdline_roundtrip (program : string) (args : list string) (s : string) :
  is_shell_syntax program = false ->
  cmdline_from_argv_for_context (program :: args) PosixShell = Ok s ->
  sh_argv s = Some (program :: args).
Proof.
  intros Hp Hs. apply cmdline_render in Hs as ->. unfold sh_argv.
  rewrite sh_render, sh_render_rest by apply render_rest_at_break. cbn [mbind option_bind].
  assert (is_assignment (render PosixShell program) ||
    bool_decide (render PosixShell program ∈ reserved_words) = false) as ->.
  { rewrite render_posix. unfold is_shell_syntax in Hp. destruct (is_posix_shell_safe_unquoted program); [done|].
    apply orb_false_iff. split.
    - unfold is_assignment. change (split_once "=" ("'" +:+ ?s)) with
        (match split_once "=" s with Some (a, b) => Some (String "'" a, b) | None => None end).
      by destruct (split_once "=" _) as [[a b]|].
    - apply bool_decide_eq_false. unfold reserved_words. intros Hin.
      repeat (apply elem_of_cons in Hin as [Hin|Hin]; [discriminate Hin|]). by apply not_elem_of_nil in Hin. }
  cbn [fmap list_fmap snd]. do 2 f_equal. rewrite <- list_fmap_compose. by rewrite list_fmap_id.
Qed.

Lemma posix_cmdline_roundtrip_witness :
  sh_argv "echo 'can'\''t' '$HOME'" = Some ["echo"; "can't"; "$HOME"].
Proof.
  apply (posix_cmdline_roundtrip "echo" ["can't"; "$HOME"]); vm_compute; reflexivity.
Defined.



End CmdLine.
