(* ===== verification/Seccomp.v ===== *)
(** * The seccomp address-family filter of Bubblewrap

    [backends/bubblewrap/common/seccomp_filter.rs]: the classic-BPF program that
    every Bubblewrap sandbox installs, for both architectures, and its encoding.
    The program is evaluated by a small interpreter of the four BPF instructions
    it uses, on the [seccomp_data] of a system call.  Handing the encoded
    program to Bubblewrap in a temporary file is not modelled. *)

From Stdlib Require Import Ascii.
From S2P Require Import Prelude.

Module Seccomp.

Definition BPF_LD_W_ABS : Z := 0x20.
Definition BPF_ALU_AND_K : Z := 0x54.
Definition BPF_JMP_JEQ_K : Z := 0x15.
Definition BPF_RET_K : Z := 0x06.

Definition SECCOMP_RET_ERRNO : Z := 0x00050000.
Definition SECCOMP_RET_ALLOW : Z := 0x7fff0000.
Definition EPERM : Z := 1.
Definition ENOSYS : Z := 38.

Definition SECCOMP_DATA_NR_OFFSET : Z := 0.
Definition SECCOMP_DATA_ARCH_OFFSET : Z := 4.
Definition SECCOMP_DATA_ARG0_LOW_OFFSET : Z := 16.

Definition AUDIT_ARCH_X86_64 : Z := 0xc000003e.
Definition AUDIT_ARCH_I386 : Z := 0x40000003.
Definition AUDIT_ARCH_AARCH64 : Z := 0xc00000b7.
Definition AUDIT_ARCH_ARM : Z := 0x40000028.
Definition X32_SYSCALL_BIT : Z := 0x40000000.

Definition X86_64_SOCKET : Z := 41.
Definition X86_64_SOCKETPAIR : Z := 53.
Definition I386_SOCKETCALL : Z := 102.
Definition I386_SOCKET : Z := 359.
Definition I386_SOCKETPAIR : Z := 360.
Definition SOCKETCALL_SOCKET : Z := 1.
Definition SOCKETCALL_SOCKETPAIR : Z := 8.
Definition AARCH64_SOCKET : Z := 198.
Definition AARCH64_SOCKETPAIR : Z := 199.
Definition ARM_SOCKET : Z := 281.
Definition ARM_SOCKETPAIR : Z := 288.

Definition IO_URING_SYSCALLS : list Z := [425; 426; 427].
Definition ALLOWED_FAMILIES : list Z := [1; 2; 10; 16].

Record Instruction : Type := MkInstruction {
  code : Z;
  jump_if_true : Z;
  jump_if_false : Z;
  value : Z;
}.

Definition statement (code value : Z) : Instruction := MkInstruction code 0 0 value.
Definition jump (code value : Z) : Instruction := MkInstruction code 0 0 value.

(** [to_ne_bytes] is little-endian on the targets the filter supports. *)
Definition encode (i : Instruction) (output : list Z) : list Z :=
  output ++ le_bytes 2 (code i) ++ [jump_if_true i] ++ [jump_if_false i] ++ le_bytes 4 (value i).

(** The bytes [create_file] writes. *)
Definition encode_program (program : list Instruction) : list Z :=
  foldl (fun bytes i => encode i bytes) [] program.

Inductive NativeArchitecture : Type := X86_64 | Aarch64.

Definition errno (value : Z) : Z := Z.lor SECCOMP_RET_ERRNO value.

(** Building: the program so far as state; the error is a panic (an index out
    of the program, or a jump that does not fit its offset). *)
Definition build : Type -> Type := stateful (list Instruction) unit.

Definition program_len : build Z := gets (fun p => Z.of_nat (length p)).
Definition push (i : Instruction) : build unit := modify (fun p => p ++ [i]).

(** A push whose index the code keeps. *)
Definition push_at (i : Instruction) : build Z := index ← program_len; _ ← push i; mret index.

Definition set_true_target (source target : Z) : build unit := fun p =>
  match p !! Z.to_nat source with
  | Some i =>
      let offset := target - source - 1 in
      if (0 <=? offset) && (offset <=? u8_max)
      then (Ok tt, <[Z.to_nat source := MkInstruction (code i) offset (jump_if_false i) (value i)]> p)
      else (Err tt, p)
  | None => (Err tt, p)
  end.

(** [into_iter().map(..).collect()] over pushes. *)
Fixpoint push_jumps (values : list Z) : build (list Z) :=
  match values with
  | [] => mret []
  | v :: values =>
      index ← push_at (jump BPF_JMP_JEQ_K v);
      rest ← push_jumps values;
      mret (index :: rest)
  end.

Definition push_io_uring_checks : build (list Z) := push_jumps IO_URING_SYSCALLS.

Definition append_io_uring_denial (checks : list Z) : build unit :=
  deny ← program_len;
  _ ← push (statement BPF_RET_K (errno ENOSYS));
  for_each (fun check => set_true_target check deny) checks.

Definition append_family_filter : build Z :=
  family_check ← program_len;
  _ ← push (statement BPF_LD_W_ABS SECCOMP_DATA_ARG0_LOW_OFFSET);
  family_jumps ← push_jumps ALLOWED_FAMILIES;
  _ ← push (statement BPF_RET_K (errno EPERM));
  allow ← program_len;
  _ ← push (statement BPF_RET_K SECCOMP_RET_ALLOW);
  _ ← for_each (fun family_jump => set_true_target family_jump allow) family_jumps;
  mret family_check.

(** [!X32_SYSCALL_BIT]. *)
Definition x32_mask : Z := Z.lxor X32_SYSCALL_BIT u32_max.

Definition build_x86_program : build unit :=
  _ ← push (statement BPF_LD_W_ABS SECCOMP_DATA_ARCH_OFFSET);
  x86_64_arch_check ← push_at (jump BPF_JMP_JEQ_K AUDIT_ARCH_X86_64);
  i386_arch_check ← push_at (jump BPF_JMP_JEQ_K AUDIT_ARCH_I386);
  _ ← push (statement BPF_RET_K (errno ENOSYS));

  x86_64_start ← program_len;
  _ ← set_true_target x86_64_arch_check x86_64_start;
  _ ← push (statement BPF_LD_W_ABS SECCOMP_DATA_NR_OFFSET);
  _ ← push (statement BPF_ALU_AND_K x32_mask);
  x86_64_socket ← push_at (jump BPF_JMP_JEQ_K X86_64_SOCKET);
  x86_64_socketpair ← push_at (jump BPF_JMP_JEQ_K X86_64_SOCKETPAIR);
  io_uring_checks ← push_io_uring_checks;
  _ ← push (statement BPF_RET_K SECCOMP_RET_ALLOW);

  i386_start ← program_len;
  _ ← set_true_target i386_arch_check i386_start;
  _ ← push (statement BPF_LD_W_ABS SECCOMP_DATA_NR_OFFSET);
  i386_socket ← push_at (jump BPF_JMP_JEQ_K I386_SOCKET);
  i386_socketpair ← push_at (jump BPF_JMP_JEQ_K I386_SOCKETPAIR);
  i386_socketcall ← push_at (jump BPF_JMP_JEQ_K I386_SOCKETCALL);
  more_checks ← push_io_uring_checks;
  let io_uring_checks := io_uring_checks ++ more_checks in
  _ ← push (statement BPF_RET_K SECCOMP_RET_ALLOW);

  socketcall_check ← program_len;
  _ ← set_true_target i386_socketcall socketcall_check;
  _ ← push (statement BPF_LD_W_ABS SECCOMP_DATA_ARG0_LOW_OFFSET);
  _ ← push (jump BPF_JMP_JEQ_K SOCKETCALL_SOCKET);
  socketcall_socket ← gets (fun p => Z.of_nat (length p) - 1);
  _ ← push (jump BPF_JMP_JEQ_K SOCKETCALL_SOCKETPAIR);
  socketcall_socketpair ← gets (fun p => Z.of_nat (length p) - 1);
  _ ← push (statement BPF_RET_K SECCOMP_RET_ALLOW);
  deny_socketcall_creation ← program_len;
  _ ← push (statement BPF_RET_K (errno EPERM));
  _ ← set_true_target socketcall_socket deny_socketcall_creation;
  _ ← set_true_target socketcall_socketpair deny_socketcall_creation;

  family_check ← append_family_filter;
  _ ← for_each (fun socket_check => set_true_target socket_check family_check)
        [x86_64_socket; x86_64_socketpair; i386_socket; i386_socketpair];
  append_io_uring_denial io_uring_checks.

Definition build_aarch64_program : build unit :=
  _ ← push (statement BPF_LD_W_ABS SECCOMP_DATA_ARCH_OFFSET);
  aarch64_arch_check ← push_at (jump BPF_JMP_JEQ_K AUDIT_ARCH_AARCH64);
  arm_arch_check ← push_at (jump BPF_JMP_JEQ_K AUDIT_ARCH_ARM);
  _ ← push (statement BPF_RET_K (errno ENOSYS));

  aarch64_start ← program_len;
  _ ← set_true_target aarch64_arch_check aarch64_start;
  _ ← push (statement BPF_LD_W_ABS SECCOMP_DATA_NR_OFFSET);
  aarch64_socket ← push_at (jump BPF_JMP_JEQ_K AARCH64_SOCKET);
  aarch64_socketpair ← push_at (jump BPF_JMP_JEQ_K AARCH64_SOCKETPAIR);
  io_uring_checks ← push_io_uring_checks;
  _ ← push (statement BPF_RET_K SECCOMP_RET_ALLOW);

  arm_start ← program_len;
  _ ← set_true_target arm_arch_check arm_start;
  _ ← push (statement BPF_LD_W_ABS SECCOMP_DATA_NR_OFFSET);
  arm_socket ← push_at (jump BPF_JMP_JEQ_K ARM_SOCKET);
  arm_socketpair ← push_at (jump BPF_JMP_JEQ_K ARM_SOCKETPAIR);
  more_checks ← push_io_uring_checks;
  let io_uring_checks := io_uring_checks ++ more_checks in
  _ ← push (statement BPF_RET_K SECCOMP_RET_ALLOW);

  family_check ← append_family_filter;
  _ ← for_each (fun socket_check => set_true_target socket_check family_check)
        [aarch64_socket; aarch64_socketpair; arm_socket; arm_socketpair];
  append_io_uring_denial io_uring_checks.

(** The finished program; [None] if building it panics. *)
Definition build_program (architecture : NativeArchitecture) : option (list Instruction) :=
  match (match architecture with
         | X86_64 => build_x86_program
         | Aarch64 => build_aarch64_program
         end) [] with
  | (Ok _, program) => Some program
  | (Err _, _) => None
  end.

Definition unsupported_architecture (architecture : string) : option string :=
  if bool_decide (architecture ∈ ["x86_64"; "aarch64"]) then None else Some architecture.

(** [native_program] for the name and the variant of the build target. *)
Definition native_program (arch_name : string) (architecture : NativeArchitecture)
  : result string (option (list Instruction)) :=
  match unsupported_architecture arch_name with
  | Some architecture => Err architecture
  | None => Ok (build_program architecture)
  end.

(** ** Evaluating a program *)

(** What the kernel shows the filter of a system call. *)
Record seccomp_data : Type := MkData {
  nr : Z;
  arch : Z;
  arg0 : Z;
}.

Definition data_wf (d : seccomp_data) : Prop :=
  0 <= nr d <= u32_max /\ 0 <= arch d <= u32_max /\ 0 <= arg0 d <= u64_max.

(** The word at an offset; the low half of an argument comes first. *)
Definition load (d : seccomp_data) (offset : Z) : option Z :=
  if offset =? 0 then Some (nr d)
  else if offset =? 4 then Some (arch d)
  else if offset =? 16 then Some (arg0 d mod 2 ^ 32)
  else if offset =? 20 then Some (arg0 d / 2 ^ 32)
  else None.

(** Classic BPF: an accumulator, forward jumps only, so that a program ends
    within as many steps as it has instructions.  [None]: no valid program. *)
Fixpoint run (fuel : nat) (program : list Instruction) (pc : nat) (acc : Z) (d : seccomp_data)
  : option Z :=
  match fuel with
  | O => None
  | S fuel =>
      i ← program !! pc;
      if code i =? BPF_LD_W_ABS then acc ← load d (value i); run fuel program (S pc) acc d
      else if code i =? BPF_ALU_AND_K then run fuel program (S pc) (Z.land acc (value i)) d
      else if code i =? BPF_JMP_JEQ_K then
        run fuel program
          (S pc + Z.to_nat (if (acc =? value i)%Z then jump_if_true i else jump_if_false i))%nat acc d
      else if code i =? BPF_RET_K then Some (value i)
      else None
  end.

Definition evaluate (program : list Instruction) (d : seccomp_data) : option Z :=
  run (length program) program 0 0 d.

(** ** What the filter decides *)

Definition one_of (x : Z) (l : list Z) : bool := existsb (Z.eqb x) l.

(** The family argument of a call that creates sockets: an [int], of which the
    kernel reads the low word. *)
Definition family (d : seccomp_data) : Z := arg0 d mod 2 ^ 32.

Definition family_verdict (d : seccomp_data) : Z :=
  if one_of (family d) ALLOWED_FAMILIES then SECCOMP_RET_ALLOW else errno EPERM.

(** Native calls, with the x32 numbers that alias them. *)
Definition native_verdict (sockets : list Z) (number : Z) (d : seccomp_data) : Z :=
  if one_of number sockets then family_verdict d
  else if one_of number IO_URING_SYSCALLS then errno ENOSYS
  else SECCOMP_RET_ALLOW.

Definition policy_verdict (architecture : NativeArchitecture) (d : seccomp_data) : Z :=
  match architecture with
  | X86_64 =>
      if arch d =? AUDIT_ARCH_X86_64 then
        native_verdict [X86_64_SOCKET; X86_64_SOCKETPAIR] (Z.land (nr d) x32_mask) d
      else if arch d =? AUDIT_ARCH_I386 then
        if nr d =? I386_SOCKETCALL then
          if one_of (family d) [SOCKETCALL_SOCKET; SOCKETCALL_SOCKETPAIR] then errno EPERM
          else SECCOMP_RET_ALLOW
        else native_verdict [I386_SOCKET; I386_SOCKETPAIR] (nr d) d
      else errno ENOSYS
  | Aarch64 =>
      if arch d =? AUDIT_ARCH_AARCH64 then
        native_verdict [AARCH64_SOCKET; AARCH64_SOCKETPAIR] (nr d) d
      else if arch d =? AUDIT_ARCH_ARM then native_verdict [ARM_SOCKET; ARM_SOCKETPAIR] (nr d) d
      else errno ENOSYS
  end.

(** One instruction at a time. *)
Section Steps.
Context (program : list Instruction) (fuel pc : nat) (acc : Z) (d : seccomp_data).

Lemma run_ld k x :
  program !! pc = Some (MkInstruction BPF_LD_W_ABS 0 0 k) -> load d k = Some x ->
  run (S fuel) program pc acc d = run fuel program (S pc) x d.
Proof. intros Hi Hl. cbn [run]. rewrite Hi. cbn. by rewrite Hl. Qed.

Lemma run_and k :
  program !! pc = Some (MkInstruction BPF_ALU_AND_K 0 0 k) ->
  run (S fuel) program pc acc d = run fuel program (S pc) (Z.land acc k) d.
Proof. intros Hi. cbn [run]. by rewrite Hi. Qed.

Lemma run_ret k :
  program !! pc = Some (MkInstruction BPF_RET_K 0 0 k) -> run (S fuel) program pc acc d = Some k.
Proof. intros Hi. cbn [run]. by rewrite Hi. Qed.

Lemma run_jeq k target pc' :
  program !! pc = Some (MkInstruction BPF_JMP_JEQ_K target 0 k) -> (S pc + Z.to_nat target)%nat = pc' ->
  run (S fuel) program pc acc d =
  if acc =? k then run fuel program pc' acc d else run fuel program (S pc) acc d.
Proof.
  intros Hi <-. cbn [run]. rewrite Hi. cbn [mbind option_bind code value jump_if_true jump_if_false].
  change (BPF_JMP_JEQ_K =? BPF_LD_W_ABS) with false. change (BPF_JMP_JEQ_K =? BPF_ALU_AND_K) with false.
  change (BPF_JMP_JEQ_K =? BPF_JMP_JEQ_K) with true. cbv iota.
  destruct (acc =? k); [done|]. by rewrite Nat.add_0_r.
Qed.

End Steps.

(** Follows a concrete program on symbolic data, one case per comparison. *)
Ltac bpf_run :=
  repeat first
    [ erewrite run_ret by reflexivity
    | erewrite run_ld by reflexivity
    | erewrite run_and by reflexivity
    | erewrite run_jeq by reflexivity;
      match goal with |- (if ?x =? ?y then _ else _) = _ => destruct (x =? y) eqn:? end ].

Ltac bpf_decide :=
  unfold policy_verdict, native_verdict, family_verdict, one_of, family, AUDIT_ARCH_X86_64, AUDIT_ARCH_I386,
    AUDIT_ARCH_AARCH64, AUDIT_ARCH_ARM, X86_64_SOCKET, X86_64_SOCKETPAIR, I386_SOCKETCALL, I386_SOCKET,
    I386_SOCKETPAIR, SOCKETCALL_SOCKET, SOCKETCALL_SOCKETPAIR, AARCH64_SOCKET, AARCH64_SOCKETPAIR,
    ARM_SOCKET, ARM_SOCKETPAIR;
  change x32_mask with 3221225471; cbn [existsb IO_URING_SYSCALLS ALLOWED_FAMILIES];
  repeat match goal with H : (_ =? _) = false |- _ => rewrite ?H; clear H end;
  repeat match goal with H : (_ =? _) = true |- _ => apply Z.eqb_eq in H; rewrite ?H; clear H end;
  reflexivity.

(** C30. The filter program implements the address-family policy.  On both
    architectures building it does not fail, it evaluates every system call to a
    verdict, and the verdict is the policy's: calls of another architecture are
    refused; calls that create sockets, under every number that reaches them,
    pass exactly if their family is local, IPv4, IPv6 or netlink; the i386
    multiplexer may create no socket, and io_uring is refused; everything else
    passes. *)
Theorem filter_implements_policy (architecture : NativeArchitecture) (d : seccomp_data) :
  exists program, build_program architecture = Some program /\
    evaluate program d = Some (policy_verdict architecture d).
Proof.
  destruct architecture; (eexists; split; [vm_compute; reflexivity|]);
    unfold evaluate; cbn [length]; bpf_run; bpf_decide.
Qed.

(** ** The encoding *)

(** Reading the kernel's [struct sock_filter] array. *)
Fixpoint decode_program (bytes : list Z) : option (list Instruction) :=
  match bytes with
  | [] => Some []
  | c0 :: c1 :: jt :: jf :: k0 :: k1 :: k2 :: k3 :: bytes =>
      program ← decode_program bytes;
      Some (MkInstruction (c0 + 256 * c1) jt jf (k0 + 256 * (k1 + 256 * (k2 + 256 * k3))) :: program)
  | _ => None
  end.

Definition instruction_wf (i : Instruction) : Prop :=
  0 <= code i <= u16_max /\ 0 <= jump_if_true i <= u8_max /\ 0 <= jump_if_false i <= u8_max /\
  0 <= value i <= u32_max.

#[global] Instance instruction_wf_dec i : Decision (instruction_wf i).
Proof. unfold instruction_wf. apply _. Defined.

Lemma encode_program_app bytes program :
  foldl (fun bytes i => encode i bytes) bytes program = bytes ++ encode_program program.
Proof.
  unfold encode_program. revert bytes. induction program as [|i program IH]; intros bytes; cbn [foldl].
  - by rewrite app_nil_r.
  - rewrite (IH (encode i bytes)), (IH (encode i [])). unfold encode. by rewrite <- !app_assoc.
Qed.

(** The encoded program is what the kernel reads back: eight bytes per
    instruction, from which the instructions are recovered, for all programs
    whose fields fit their widths. *)
Theorem encode_program_roundtrip (program : list Instruction) :
  Forall instruction_wf program ->
  length (encode_program program) = (8 * length program)%nat /\
  Forall (fun b => 0 <= b <= u8_max) (encode_program program) /\
  decode_program (encode_program program) = Some program.
Proof.
  induction 1 as [|[c jt jf k] program (Hc & Ht & Hf & Hk) _ (IHl & IHb & IHd)]; [done|].
  unfold encode_program. cbn [foldl]. rewrite encode_program_app. cbn in *.
  unfold u8_max, u16_max, u32_max in *. split; [lia|]. split.
  - repeat (constructor; [Z.div_mod_to_equations; lia|]). done.
  - rewrite IHd. cbn. do 3 f_equal; Z.div_mod_to_equations; lia.
Qed.

Lemma encode_program_roundtrip_witness :
  exists program, build_program X86_64 = Some program /\
    decode_program (encode_program program) = Some program.
Proof.
  eexists. split; [vm_compute; reflexivity|]. apply encode_program_roundtrip.
  apply (bool_decide_eq_true_1 _). vm_compute. reflexivity.
Defined.

End Seccomp.
