(* ===== verification/CorrelationVector.v ===== *)
(** * Correlation vectors

    [core/mxc_common/telemetry/correlation_vector.rs]: parsing, and the
    operators that mint and advance a vector.  The base64 crate is a parameter;
    the random generator and the clock are inputs of an operator, the process-wide
    fallback counter is its state. *)

From Stdlib Require Import Ascii.
From S2P Require Import Prelude.

Module CV.

Definition BASE_LEN : nat := 22.
Definition MAX_LEN : nat := 128.
Definition TERMINATOR : ascii := "!"%char.
Definition SPIN_INTERVAL_BITS : Z := 24.
Definition SPIN_ENTROPY_BYTES : nat := 2.
Definition SPIN_COUNTER_PERIODICITY_BITS : Z := 16.

(** [STANDARD_NO_PAD.encode]. *)
Class Base64 : Type := base64_encode : list Z -> string.

(** What a call can draw on: randomness, if the generator works, and the clock. *)
Record Sources : Type := MkSources {
  os_random_bytes : nat -> option (list Z);
  now_ticks_100ns : Z;
}.

(** ** Parsing *)

Definition is_base64_char (b : ascii) : bool :=
  is_ascii_alphanumeric b || bool_decide (b = "+"%char) || bool_decide (b = "/"%char).

(** [b'A' | b'Q' | b'g' | b'w']. *)
Definition is_final_char (c : ascii) : bool := bool_decide (c ∈ ["A"; "Q"; "g"; "w"]%char).

Definition is_valid_base (base : string) : bool :=
  (String.length base =? BASE_LEN)%nat && string_all is_base64_char base &&
  match String.get (BASE_LEN - 1) base with
  | Some c => is_final_char c
  | None => false
  end.

Definition parse_element (element : string) : option Z :=
  if bool_decide (element = "") || negb (string_all is_ascii_digit element) ||
     (1 <? String.length element)%nat && starts_with (fun c => bool_decide (c = "0"%char)) element
  then None
  else v ← parse_digits element; if v <=? u32_max then Some v else None.

Record MutableCv : Type := MkMutable { full : string; prefix : string; last : Z }.

Definition is_immutable (cv : string) : bool :=
  match strip_suffix_char TERMINATOR cv with Some _ => true | None => false end.

(** The base and the elements before the rightmost one. *)
Definition valid_prefix (prefix : string) : bool :=
  let '(base, interior) :=
    match split_once "." prefix with
    | Some (base, interior) => (base, Some interior)
    | None => (prefix, None)
    end in
  is_valid_base base &&
  match interior with
  | Some interior => forallb (fun e => bool_decide (is_Some (parse_element e))) (string_split "." interior)
  | None => true
  end.

Definition parse_mutable (cv : string) : option MutableCv :=
  if bool_decide (cv = "") || (MAX_LEN <? String.length cv)%nat || is_immutable cv then None
  else
    '(prefix, last_str) ← rsplit_once "." cv;
    if negb (valid_prefix prefix) then None
    else last ← parse_element last_str; Some (MkMutable cv prefix last).

Definition is_valid (cv : string) : bool := bool_decide (is_Some (full <$> parse_mutable cv)).

Definition is_valid_frozen (cv : string) : bool :=
  (String.length cv <=? MAX_LEN)%nat &&
  match strip_suffix_char TERMINATOR cv with Some body => is_valid body | None => false end.

Inductive Class_ : Type := Frozen | Mutable (m : MutableCv) | Invalid.

Definition classify (cv : string) : Class_ :=
  if is_immutable cv then if is_valid_frozen cv then Frozen else Invalid
  else match parse_mutable cv with Some m => Mutable m | None => Invalid end.

Definition is_relayable (cv : string) : bool :=
  match classify cv with Frozen | Mutable _ => true | Invalid => false end.

Definition terminate_if_oversized (cv candidate : string) : string :=
  if (String.length candidate <=? MAX_LEN)%nat then candidate
  else
    let keep := Nat.min (MAX_LEN - 1) (String.length cv) in
    let keep :=
      if (keep <? String.length cv)%nat then
        match rsplit_once "." (string_take keep cv) with
        | Some (before, _) => String.length before
        | None => keep
        end
      else keep in
    string_take keep cv +:+ String TERMINATOR "".

(** ** Operators *)

Section Operators.
Context `{Base64}.

Definition seed_from_bytes (bytes : list Z) : string := base64_encode bytes +:+ ".0".

(** [to_be_bytes] of a 64-bit integer. *)
Definition be_bytes (x : Z) : list Z := rev (le_bytes 8 x).

Definition seed_with (random : option (list Z)) (now_ticks fallback_nonce : Z) : string :=
  seed_from_bytes (default (le_bytes 8 now_ticks ++ be_bytes fallback_nonce) random).

(** The counter wraps around at its width. *)
Definition fallback_nonce (counter : Z) : Z * Z := (counter, wrap 64 (counter + 1)).

Definition seed (src : Sources) (counter : Z) : string * Z :=
  let random := os_random_bytes src 16 in
  match random with
  | Some _ => (seed_with random 0 0, counter)
  | None =>
      let '(nonce, counter) := fallback_nonce counter in
      (seed_with random (now_ticks_100ns src) nonce, counter)
  end.

Definition extend (src : Sources) (cv : string) (counter : Z) : string * Z :=
  match classify cv with
  | Frozen => (cv, counter)
  | Invalid => seed src counter
  | Mutable m => (terminate_if_oversized (full m) (full m +:+ ".0"), counter)
  end.

Definition increment (src : Sources) (cv : string) (counter : Z) : string * Z :=
  match classify cv with
  | Frozen => (cv, counter)
  | Invalid => seed src counter
  | Mutable m =>
      if last m =? u32_max
      then (terminate_if_oversized (full m) (full m +:+ String TERMINATOR ""), counter)
      else (terminate_if_oversized (full m) (prefix m +:+ "." +:+ dec (last m + 1)), counter)
  end.

(** [u16::from_be_bytes]. *)
Definition u16_from_be_bytes (bytes : list Z) : Z := foldl (fun v b => v * 256 + b) 0 bytes.

Definition spin_with (cv : string) (now_ticks : Z) (entropy : option (list Z)) (fallback_nonce : Z) : string :=
  let entropy := default (take SPIN_ENTROPY_BYTES (le_bytes 8 fallback_nonce)) entropy in
  let counter_mask := Z.shiftl 1 SPIN_COUNTER_PERIODICITY_BITS - 1 in
  let counter := Z.land (Z.shiftr now_ticks SPIN_INTERVAL_BITS) counter_mask in
  let entropy := u16_from_be_bytes entropy in
  terminate_if_oversized cv (cv +:+ "." +:+ dec counter +:+ "." +:+ dec entropy +:+ ".0").

Definition spin (src : Sources) (cv : string) (counter : Z) : string * Z :=
  match classify cv with
  | Frozen => (cv, counter)
  | Invalid => seed src counter
  | Mutable m =>
      let entropy := os_random_bytes src SPIN_ENTROPY_BYTES in
      let '(nonce, counter) :=
        match entropy with None => fallback_nonce counter | Some _ => (0, counter) end in
      (spin_with (full m) (now_ticks_100ns src) entropy nonce, counter)
  end.

End Operators.

(** ** The grammar *)

(** A base and [n] elements. *)
Inductive stem : string -> nat -> Prop :=
| stem_base base : is_valid_base base = true -> stem base 0
| stem_element s n e v : stem s n -> parse_element e = Some v -> stem (s +:+ "." +:+ e) (S n).

(** A vector that can be advanced: at least one element, within the cap. *)
Definition mutable_vector (cv : string) : Prop :=
  (String.length cv <= MAX_LEN)%nat /\ exists n, stem cv (S n).

Definition frozen_vector (cv : string) : Prop :=
  (String.length cv <= MAX_LEN)%nat /\ exists body, cv = body +:+ "!" /\ mutable_vector body.

(** ** Elements and bases *)

Lemma parse_element_Some e v :
  parse_element e = Some v -> e <> "" /\ string_all is_ascii_digit e = true /\ 0 <= v <= u32_max /\
    (String.length e <= 10)%nat.
Proof.
  unfold parse_element. destruct (_ || _ || _) eqn:E; [done|].
  apply orb_false_iff in E as [[Hne Hd]%orb_false_iff Hz].
  apply bool_decide_eq_false in Hne. apply negb_false_iff in Hd.
  destruct (parse_digits e) as [v'|] eqn:Ep; [|done]. cbn. destruct (Z.leb_spec v' u32_max) as [Hle|]; [|done].
  intros [= ->]. assert (0 <= v).
  { by eapply parse_digits_nonneg. }
  split_and!; [done|done|lia|done|]. destruct e as [|c s]; [done|]. cbn.
  destruct (decide (c = "0"%char)) as [->|Hc].
  - cbn in Hz. rewrite andb_true_r in Hz. destruct (String.length s); [lia|done].
  - apply parse_digits_ge in Ep; [|done]. unfold u32_max in Hle.
    destruct (Nat.le_gt_cases (String.length s) 9) as [|Hgt]; [lia|].
    assert (10 ^ 10 <= 10 ^ Z.of_nat (String.length s)) by (apply Z.pow_le_mono_r; lia). lia.
Qed.

Lemma parse_element_dec v : 0 <= v <= u32_max -> parse_element (dec v) = Some v.
Proof.
  intros Hv. unfold parse_element. rewrite bool_decide_eq_false_2 by apply dec_nonempty.
  rewrite dec_digits. cbn [negb orb].
  assert ((1 <? String.length (dec v))%nat &&
    starts_with (fun c => bool_decide (c = "0"%char)) (dec v) = false) as ->.
  { destruct (dec v) as [|c s] eqn:E; [done|]. cbn. destruct (decide (c = "0"%char)) as [->|Hc].
    - by rewrite (dec_canonical v s E).
    - rewrite bool_decide_eq_false_2 by done. by rewrite andb_false_r. }
  rewrite parse_digits_dec by lia. cbn. by rewrite (proj2 (Z.leb_le v u32_max)) by lia.
Qed.

Lemma digits_lack c e : is_ascii_digit c = false -> string_all is_ascii_digit e = true -> lacks c e = true.
Proof.
  intros Hc. apply string_all_impl. intros x Hx. apply negb_true_iff, bool_decide_eq_false.
  intros ->. congruence.
Qed.

Lemma element_lacks_dot e v : parse_element e = Some v -> lacks "." e = true.
Proof. intros (_ & Hd & _)%parse_element_Some. by eapply digits_lack. Qed.

Lemma base_lacks_dot base : is_valid_base base = true -> lacks "." base = true.
Proof.
  intros [[_ Hb]%andb_true_iff _]%andb_true_iff. eapply string_all_impl; [|exact Hb].
  intros x Hx. apply negb_true_iff, bool_decide_eq_false. by intros ->.
Qed.

Lemma base_length base : is_valid_base base = true -> String.length base = BASE_LEN.
Proof. by intros [[Hl%Nat.eqb_eq _]%andb_true_iff _]%andb_true_iff. Qed.

(** ** The parser recognises the grammar *)

Definition element_ok (e : string) : bool := bool_decide (is_Some (parse_element e)).

Lemma element_ok_spec e : element_ok e = true <-> exists v, parse_element e = Some v.
Proof. unfold element_ok. rewrite bool_decide_eq_true. done. Qed.

Lemma valid_prefix_snoc s e :
  element_ok e = true -> valid_prefix s = true -> valid_prefix (s +:+ String "." e) = true.
Proof.
  intros He. unfold valid_prefix. apply element_ok_spec in He as [v He].
  destruct (split_once "." s) as [[base interior]|] eqn:Es.
  - assert (Hs : s = base +:+ String "." interior /\ lacks "." base = true) by (by apply split_once_Some).
    destruct Hs as [-> Hl]. rewrite string_app_assoc. autorewrite with text.
    rewrite split_once_make by done. rewrite !andb_true_iff. intros [Hb Hi]. split; [done|].
    rewrite string_split_app, forallb_app, Hi, string_split_single by (by eapply element_lacks_dot).
    cbn. rewrite andb_true_r. apply bool_decide_eq_true. eauto.
  - apply split_once_None in Es. rewrite split_once_make by done. rewrite !andb_true_iff. intros [Hb _].
    split; [done|]. rewrite string_split_single by (by eapply element_lacks_dot). cbn. rewrite andb_true_r.
    apply bool_decide_eq_true. eauto.
Qed.

Lemma valid_prefix_stem s : valid_prefix s = true <-> exists n, stem s n.
Proof.
  split.
  - unfold valid_prefix. destruct (split_once "." s) as [[base interior]|] eqn:Es.
    + assert (Hs : s = base +:+ String "." interior /\ lacks "." base = true) by (by apply split_once_Some).
      destruct Hs as [-> _]. intros [Hb Hi]%andb_true_iff. rewrite <- (string_join_split "." interior).
      pose proof (string_split_ne "." interior) as Hne. revert Hi Hne.
      generalize (string_split "." interior). intros l Hl Hne.
      assert (Hgen : forall s n, stem s n -> exists n, stem (s +:+ String "." (string_join "." l)) n).
      { clear Hb. induction l as [|e l IH]; [done|]. intros s n Hs. cbn in Hl.
        apply andb_true_iff in Hl as [[v He]%element_ok_spec Hl]. destruct l as [|e' l].
        - exists (S n). by apply (stem_element s n e v).
        - destruct (IH Hl ltac:(done) (s +:+ "." +:+ e) (S n)) as [n' Hn'];
            [by apply (stem_element s n e v)|]. exists n'.
          rewrite string_app_assoc in Hn'. autorewrite with text in Hn'.
          change (string_join "." (e :: e' :: l)) with (e +:+ "." +:+ string_join "." (e' :: l)).
          by autorewrite with text. }
      apply (Hgen base 0%nat). by constructor.
    + intros [Hb _]%andb_true_iff. exists 0%nat. by constructor.
  - intros [n Hn]. induction Hn as [base Hb|s n e v Hs IH He].
    + unfold valid_prefix. rewrite split_once_lacks by (by apply base_lacks_dot). by rewrite Hb.
    + apply valid_prefix_snoc; [|done]. apply element_ok_spec. eauto.
Qed.

Lemma stem_lacks_terminator s n : stem s n -> lacks TERMINATOR s = true.
Proof.
  induction 1 as [base Hb|s n e v _ IH He].
  - apply andb_true_iff in Hb as [[_ Hb]%andb_true_iff _]. eapply string_all_impl; [|exact Hb].
    intros x Hx. apply negb_true_iff, bool_decide_eq_false. by intros ->.
  - unfold lacks in *. rewrite !string_all_app, IH. cbn.
    apply parse_element_Some in He as (_ & Hd & _). by apply digits_lack.
Qed.

Lemma lacks_terminator_mutable s : lacks TERMINATOR s = true -> is_immutable s = false.
Proof.
  unfold is_immutable. intros Hl. destruct (strip_suffix_char TERMINATOR s) as [b|] eqn:E; [|done].
  apply strip_suffix_char_Some in E as ->. unfold lacks in Hl. rewrite string_all_app in Hl. cbn in Hl.
  by rewrite andb_false_r in Hl.
Qed.

Lemma stem_nonempty s n : stem s n -> s <> "".
Proof.
  destruct 1 as [base Hb|s n e v _ _].
  - apply base_length in Hb. by intros ->.
  - by destruct s.
Qed.

(** What the parser returns: the vector, split before its last element. *)
Lemma parse_mutable_spec cv m :
  parse_mutable cv = Some m <->
  full m = cv /\ (String.length cv <= MAX_LEN)%nat /\
  exists n e, stem (prefix m) n /\ cv = prefix m +:+ "." +:+ e /\ parse_element e = Some (last m).
Proof.
  unfold parse_mutable. split.
  - destruct (_ || _ || _) eqn:E; [done|]. apply orb_false_iff in E as [[_ Hl%Nat.ltb_ge]%orb_false_iff _].
    destruct (rsplit_once "." cv) as [[pre e]|] eqn:Er; [|done]. cbn.
    destruct (valid_prefix pre) eqn:Ep; [|done]. cbn. destruct (parse_element e) as [v|] eqn:Ee; [|done].
    intros [= <-]. cbn. apply rsplit_once_Some in Er as [-> _]. apply valid_prefix_stem in Ep as [n Hn].
    split; [done|]. split; [done|]. by exists n, e.
  - destruct m as [f pre v]. cbn [full prefix last]. intros (-> & Hl & n & e & Hn & -> & He).
    assert (Hs : stem (pre +:+ "." +:+ e) (S n)) by (by apply (stem_element _ _ _ v)).
    rewrite bool_decide_eq_false_2 by (by eapply stem_nonempty).
    rewrite (proj2 (Nat.ltb_ge _ _)) by done.
    rewrite (lacks_terminator_mutable _ (stem_lacks_terminator _ _ Hs)). cbn [orb].
    rewrite (proj2 (rsplit_once_Some "." _ pre e)) by (split; [done|by eapply element_lacks_dot]). cbn.
    rewrite (proj2 (valid_prefix_stem pre)) by eauto. cbn. by rewrite He.
Qed.

Lemma mutable_vector_parses cv : mutable_vector cv <-> exists m, parse_mutable cv = Some m.
Proof.
  split.
  - intros [Hl [n Hn]]. inversion Hn as [|s n' e v Hs He]; subst. exists (MkMutable (s +:+ "." +:+ e) s v).
    apply parse_mutable_spec. split; [done|]. split; [done|]. by exists n, e.
  - intros [m (<- & Hl & n & e & Hn & E & He)%parse_mutable_spec]. split; [done|]. exists n.
    rewrite E. by apply (stem_element _ _ _ (last m)).
Qed.

Lemma is_valid_spec cv : is_valid cv = true <-> mutable_vector cv.
Proof.
  unfold is_valid. rewrite bool_decide_eq_true, mutable_vector_parses.
  destruct (parse_mutable cv) as [m|]; [|by split; intros [? ?]]. split; intros _; eauto.
Qed.

Lemma mutable_not_immutable cv : mutable_vector cv -> is_immutable cv = false.
Proof. intros [_ [n Hn]]. by eapply lacks_terminator_mutable, stem_lacks_terminator. Qed.

Lemma is_immutable_spec cv : is_immutable cv = true <-> exists body, cv = body +:+ "!".
Proof.
  unfold is_immutable. split.
  - destruct (strip_suffix_char TERMINATOR cv) as [b|] eqn:E; [|done].
    apply strip_suffix_char_Some in E as ->. eauto.
  - intros [b ->]. by rewrite (strip_suffix_char_app TERMINATOR).
Qed.

Lemma is_valid_frozen_spec cv : is_valid_frozen cv = true <-> frozen_vector cv.
Proof.
  unfold is_valid_frozen, frozen_vector. rewrite andb_true_iff, Nat.leb_le. split.
  - intros [Hl Hb]. split; [done|]. destruct (strip_suffix_char TERMINATOR cv) as [b|] eqn:E; [|done].
    apply strip_suffix_char_Some in E as ->. exists b. split; [done|]. by apply is_valid_spec.
  - intros [Hl [b [-> Hb]]]. split; [done|]. rewrite (strip_suffix_char_app TERMINATOR).
    by apply is_valid_spec.
Qed.

(** The three classes. *)
Lemma classify_spec cv :
  match classify cv with
  | Frozen => frozen_vector cv
  | Mutable m => mutable_vector cv /\ parse_mutable cv = Some m
  | Invalid => ~ frozen_vector cv /\ ~ mutable_vector cv
  end.
Proof.
  unfold classify. destruct (is_immutable cv) eqn:Ei.
  - assert (Hm : ~ mutable_vector cv) by (intros Hm%mutable_not_immutable; congruence).
    destruct (is_valid_frozen cv) eqn:Ef; [by apply is_valid_frozen_spec|]. split; [|done].
    intros Hf%is_valid_frozen_spec. congruence.
  - assert (Hf : ~ frozen_vector cv).
    { intros [_ [b [-> _]]]. assert (is_immutable (b +:+ "!") = true) by (apply is_immutable_spec; eauto). congruence. }
    destruct (parse_mutable cv) as [m|] eqn:E.
    + split; [|done]. apply mutable_vector_parses. eauto.
    + split; [done|]. intros [m Hm]%mutable_vector_parses. congruence.
Qed.

Lemma is_relayable_spec cv : is_relayable cv = true <-> mutable_vector cv \/ frozen_vector cv.
Proof.
  unfold is_relayable. pose proof (classify_spec cv) as Hc. destruct (classify cv); [by split; auto|..].
  - destruct Hc. by split; auto.
  - destruct Hc. split; [done|]. by intros [|].
Qed.

(** ** Overflow *)

(** Dropping the last element of a vector at the cap leaves a vector. *)
Lemma cut_element pre n e v keep :
  stem pre n -> parse_element e = Some v -> String.length (pre +:+ "." +:+ e) = S keep ->
  exists e', string_take keep (pre +:+ "." +:+ e) = pre +:+ "." +:+ e' /\ lacks "." e' = true.
Proof.
  intros Hs He Hl. pose proof (element_lacks_dot e v He) as Hd.
  apply parse_element_Some in He as (Hne & _). rewrite !string_length_app in Hl. cbn [String.length] in Hl.
  assert (String.length e <> 0)%nat by (by destruct e).
  exists (string_take (keep - String.length pre - 1) e). split.
  - rewrite string_take_app, string_take_all by lia. f_equal.
    destruct (keep - String.length pre)%nat as [|k] eqn:Ek; [lia|].
    autorewrite with text. cbn [string_take]. by rewrite Nat.sub_succ, Nat.sub_0_r.
  - by apply string_take_all_chars.
Qed.

Lemma terminate_spec cv candidate :
  mutable_vector cv -> (MAX_LEN < String.length candidate)%nat ->
  frozen_vector (terminate_if_oversized cv candidate) /\
  exists kept rest, cv = kept +:+ rest /\ terminate_if_oversized cv candidate = kept +:+ "!".
Proof.
  intros Hm Hc. pose proof Hm as [Hl [n Hn]]. unfold terminate_if_oversized.
  rewrite (proj2 (Nat.leb_gt _ _)) by done. destruct (Nat.le_gt_cases (String.length cv) (MAX_LEN - 1)) as [Hle|Hgt].
  - rewrite Nat.min_r by done. rewrite Nat.ltb_irrefl. rewrite string_take_all by done. split.
    + split; [rewrite string_length_app; cbn; unfold MAX_LEN in *; lia|]. by exists cv.
    + exists cv, "". by rewrite string_app_nil_r.
  - rewrite Nat.min_l by lia. rewrite (proj2 (Nat.ltb_lt _ _)) by done.
    inversion Hn as [|pre n' e v Hs He]; subst.
    destruct (cut_element pre n e v (MAX_LEN - 1)) as (e' & -> & He'); [done|done|unfold MAX_LEN in *; lia|].
    rewrite (proj2 (rsplit_once_Some "." _ pre e')) by (split; done). rewrite string_take_prefix. split.
    + assert (Hpl : (String.length pre + 1 <= MAX_LEN)%nat).
      { rewrite !string_length_app in Hl. cbn in Hl. unfold MAX_LEN in *. lia. }
      split; [rewrite string_length_app; cbn; lia|]. exists pre. split; [done|]. split; [lia|].
      destruct n as [|n]; [|by exists n]. exfalso. inversion Hs as [base Hb|]; subst.
      apply base_length in Hb. apply parse_element_Some in He as (_ & _ & _ & He).
      rewrite !string_length_app, Hb in Hgt. cbn in Hgt. unfold MAX_LEN, BASE_LEN in *. lia.
    + by exists pre, ("." +:+ e).
Qed.

(** The result of an operator that extends or freezes. *)
Lemma terminate_relayable cv candidate :
  mutable_vector cv -> (exists n, stem candidate (S n)) \/ candidate = cv +:+ "!" ->
  is_relayable (terminate_if_oversized cv candidate) = true.
Proof.
  intros Hm Hc. apply is_relayable_spec.
  destruct (Nat.le_gt_cases (String.length candidate) MAX_LEN) as [Hle|Hgt].
  - unfold terminate_if_oversized. rewrite (proj2 (Nat.leb_le _ _)) by done.
    destruct Hc as [Hs| ->]; [by left|right]. split; [done|]. by exists cv.
  - right. by apply terminate_spec.
Qed.

(** ** Seeds *)

Definition byte_ok (b : Z) : Prop := 0 <= b <= u8_max.

Definition base64_digits : string := "ABCDEFGHIJKLMNOPQRSTUVWXYZabcdefghijklmnopqrstuvwxyz0123456789+/".

Definition sextet (i : Z) : ascii := default "="%char (String.get (Z.to_nat i) base64_digits).

(** RFC 4648, section 4, without padding. *)
Fixpoint rfc4648 (bytes : list Z) : string :=
  match bytes with
  | a :: b :: c :: rest =>
      String (sextet (a / 4)) (String (sextet (a mod 4 * 16 + b / 16))
        (String (sextet (b mod 16 * 4 + c / 64)) (String (sextet (c mod 64)) (rfc4648 rest))))
  | [a; b] =>
      String (sextet (a / 4)) (String (sextet (a mod 4 * 16 + b / 16)) (String (sextet (b mod 16 * 4)) ""))
  | [a] => String (sextet (a / 4)) (String (sextet (a mod 4 * 16)) "")
  | [] => ""
  end.

(** The crate's engine implements the RFC. *)
Class Base64Laws (B : Base64) : Prop :=
  base64_rfc4648 : forall bytes, Forall byte_ok bytes -> base64_encode bytes = rfc4648 bytes.

Definition sources_wf (src : Sources) : Prop :=
  (forall n bytes, os_random_bytes src n = Some bytes -> length bytes = n /\ Forall byte_ok bytes) /\
  0 <= now_ticks_100ns src <= u64_max.

Lemma sextet_check (P : Z -> ascii -> bool) :
  forallb (fun i => P (Z.of_nat i) (sextet (Z.of_nat i))) (seq 0 64) = true ->
  forall i, 0 <= i < 64 -> P i (sextet i) = true.
Proof.
  intros Hall i Hi. rewrite forallb_forall in Hall. specialize (Hall (Z.to_nat i)).
  rewrite Z2Nat.id in Hall by lia. apply Hall, in_seq. lia.
Qed.

Lemma sextet_base64 i : 0 <= i < 64 -> is_base64_char (sextet i) = true.
Proof. apply (sextet_check (fun _ c => is_base64_char c)). vm_compute. reflexivity. Qed.

Lemma sextet_final i : 0 <= i < 64 -> i mod 16 = 0 -> is_final_char (sextet i) = true.
Proof.
  intros Hi Hm. assert (Hc : negb (i mod 16 =? 0) || is_final_char (sextet i) = true).
  { revert i Hi Hm. intros i Hi _. revert i Hi.
    apply (sextet_check (fun i c => negb (i mod 16 =? 0) || is_final_char c)). vm_compute. reflexivity. }
  by rewrite Hm in Hc.
Qed.

(** Sixteen bytes make a base. *)
Lemma seed_base_valid bytes : length bytes = 16%nat -> Forall byte_ok bytes -> is_valid_base (rfc4648 bytes) = true.
Proof.
  intros Hl Hb. do 16 (destruct bytes as [|? bytes]; [done|]). destruct bytes; [|done].
  repeat match goal with H : Forall _ (_ :: _) |- _ => apply Forall_cons in H as [? H] end.
  unfold byte_ok, u8_max in *. cbn [rfc4648]. unfold is_valid_base. rewrite !andb_true_iff. split_and!.
  - reflexivity.
  - cbn [string_all]. rewrite !andb_true_iff. split_and!; try reflexivity;
      apply sextet_base64; Z.div_mod_to_equations; lia.
  - cbn [BASE_LEN Nat.sub String.get]. apply sextet_final; Z.div_mod_to_equations; lia.
Qed.

Lemma le_bytes_ok n x : length (le_bytes n x) = n /\ Forall byte_ok (le_bytes n x).
Proof.
  revert x. induction n as [|n IH]; intros x; cbn; [done|]. destruct (IH (x / 256)) as [Hl Hb].
  split; [by rewrite Hl|]. constructor; [|done]. unfold byte_ok, u8_max. pose proof (Z.mod_pos_bound x 256). lia.
Qed.

Lemma le_bytes_inj n x y :
  0 <= x < 256 ^ Z.of_nat n -> 0 <= y < 256 ^ Z.of_nat n -> le_bytes n x = le_bytes n y -> x = y.
Proof.
  revert x y. induction n as [|n IH]; intros x y Hx Hy; [cbn in *; lia|].
  rewrite Nat2Z.inj_succ, Z.pow_succ_r in Hx, Hy by lia. cbn. intros [= Hm Hd]. apply IH in Hd.
  - rewrite (Z.div_mod x 256), (Z.div_mod y 256) by lia. congruence.
  - split; [apply Z.div_pos; lia|apply Z.div_lt_upper_bound; lia].
  - split; [apply Z.div_pos; lia|apply Z.div_lt_upper_bound; lia].
Qed.

Definition is_digit (i : Z) (c : ascii) : bool :=
  match String.index 0 (String c "") base64_digits with Some k => Z.of_nat k =? i | None => false end.

Lemma sextet_inj i j : 0 <= i < 64 -> 0 <= j < 64 -> sextet i = sextet j -> i = j.
Proof.
  intros Hi Hj E. assert (Hdec : forall i, 0 <= i < 64 -> is_digit i (sextet i) = true)
    by (apply (sextet_check is_digit); vm_compute; reflexivity).
  pose proof (Hdec i Hi) as H1. pose proof (Hdec j Hj) as H2. rewrite E in H1. unfold is_digit in H1, H2.
  destruct (String.index _ _ _); [|done]. lia.
Qed.

(** Encodings of byte strings of one length are distinct. *)
Lemma rfc4648_inj l1 l2 :
  length l1 = length l2 -> Forall byte_ok l1 -> Forall byte_ok l2 -> rfc4648 l1 = rfc4648 l2 -> l1 = l2.
Proof.
  remember (length l1) as n eqn:Hn. revert l1 l2 Hn. induction n as [n IH] using lt_wf_ind.
  intros l1 l2 H1 H2 F1 F2 E. unfold byte_ok, u8_max in *.
  destruct l1 as [|a [|b [|c l1]]], l2 as [|a' [|b' [|c' l2]]]; cbn in H1, H2; try lia; try done;
    repeat match goal with H : Forall _ (_ :: _) |- _ => apply Forall_cons in H as [? H] end.
  - cbn in E. injection E as E1 E2. apply sextet_inj in E1, E2; [|Z.div_mod_to_equations; lia..].
    f_equal. Z.div_mod_to_equations; lia.
  - cbn in E. injection E as E1 E2 E3. apply sextet_inj in E1, E2, E3; [|Z.div_mod_to_equations; lia..].
    f_equal; [|f_equal]; Z.div_mod_to_equations; lia.
  - cbn [rfc4648] in E. injection E as E1 E2 E3 E4 E5.
    apply sextet_inj in E1, E2, E3, E4; [|Z.div_mod_to_equations; lia..].
    assert (a = a') by (Z.div_mod_to_equations; lia). assert (b = b') by (Z.div_mod_to_equations; lia).
    assert (c = c') by (Z.div_mod_to_equations; lia). subst. do 3 f_equal.
    apply (IH (length l1)); [lia|done|lia|done..].
Qed.

Lemma string_app_inj_r a b t : a +:+ t = b +:+ t -> a = b.
Proof.
  intros E. assert (Hl : String.length a = String.length b).
  { apply (f_equal String.length) in E. rewrite !string_length_app in E. lia. }
  rewrite <- (string_take_prefix a t), <- (string_take_prefix b t). by rewrite E, Hl.
Qed.

Section Laws.
Context {B : Base64} {BL : Base64Laws B}.
Implicit Types (src : Sources) (cv : string) (counter : Z).

(** The sixteen bytes of a seed. *)
Definition seed_bytes (random : option (list Z)) (now_ticks nonce : Z) : list Z :=
  default (le_bytes 8 now_ticks ++ be_bytes nonce) random.

Lemma seed_bytes_ok random now_ticks nonce :
  (forall bytes, random = Some bytes -> length bytes = 16%nat /\ Forall byte_ok bytes) ->
  length (seed_bytes random now_ticks nonce) = 16%nat /\ Forall byte_ok (seed_bytes random now_ticks nonce).
Proof.
  intros Hr. destruct random as [bytes|]; cbn [seed_bytes default]; [by apply Hr|].
  destruct (le_bytes_ok 8 now_ticks) as [Hl Hb], (le_bytes_ok 8 nonce) as [Hl' Hb']. unfold seed_bytes, be_bytes.
  cbn [default]. rewrite length_app, length_rev, Hl, Hl'. split; [done|]. apply Forall_app. split; [done|].
  by apply Forall_rev.
Qed.

Lemma seed_with_vector random now_ticks nonce :
  (forall bytes, random = Some bytes -> length bytes = 16%nat /\ Forall byte_ok bytes) ->
  seed_with random now_ticks nonce = rfc4648 (seed_bytes random now_ticks nonce) +:+ ".0" /\
  mutable_vector (seed_with random now_ticks nonce).
Proof.
  intros Hr. destruct (seed_bytes_ok random now_ticks nonce Hr) as [Hl Hb].
  assert (E : seed_with random now_ticks nonce = rfc4648 (seed_bytes random now_ticks nonce) +:+ "." +:+ "0").
  { unfold seed_with, seed_from_bytes. rewrite (base64_rfc4648 _ Hb). done. }
  split; [done|]. pose proof (seed_base_valid _ Hl Hb) as Hv. rewrite E. split.
  - rewrite !string_length_app, (base_length _ Hv). unfold MAX_LEN, BASE_LEN. cbn. lia.
  - exists 0%nat. by apply (stem_element _ 0 "0" 0); [constructor|].
Qed.

Lemma seed_vector src counter : sources_wf src -> mutable_vector (seed src counter).1.
Proof.
  intros [Hr _]. specialize (Hr 16%nat). unfold seed. destruct (os_random_bytes src 16) as [bytes|].
  - by apply seed_with_vector.
  - by apply seed_with_vector.
Qed.

Lemma seed_relayable src counter : sources_wf src -> is_relayable (seed src counter).1 = true.
Proof. intros Hw. apply is_relayable_spec. left. by apply seed_vector. Qed.

Lemma zero_element s n : stem s n -> stem (s +:+ ".0") (S n).
Proof. intros Hs. by apply (stem_element s n "0" 0). Qed.

Lemma dec_element s n v : stem s n -> 0 <= v <= u32_max -> stem (s +:+ "." +:+ dec v) (S n).
Proof. intros Hs Hv. apply (stem_element s n (dec v) v); [done|]. by apply parse_element_dec. Qed.

Lemma u16_from_be_bytes_range bytes :
  length bytes = 2%nat -> Forall byte_ok bytes -> 0 <= u16_from_be_bytes bytes <= u16_max.
Proof.
  intros Hl Hb. destruct bytes as [|a [|b [|]]]; try done.
  apply Forall_cons in Hb as [Ha [Hb _]%Forall_cons]. unfold byte_ok, u8_max, u16_max in *. cbn. lia.
Qed.

(** The vector a spin aims for. *)
Lemma spin_candidate cv n now_ticks entropy nonce :
  stem cv n -> (forall bytes, entropy = Some bytes -> length bytes = 2%nat /\ Forall byte_ok bytes) ->
  exists candidate, spin_with cv now_ticks entropy nonce = terminate_if_oversized cv candidate /\
    (exists rest, candidate = cv +:+ "." +:+ rest) /\ stem candidate (S (S (S n))).
Proof.
  intros Hs He. unfold spin_with. eexists. split; [done|]. split; [by eexists|].
  set (c := Z.land _ _). set (e := u16_from_be_bytes _).
  assert (Hc : 0 <= c <= u32_max).
  { subst c. change (Z.shiftl 1 SPIN_COUNTER_PERIODICITY_BITS - 1) with (Z.ones 16).
    rewrite Z.land_ones by lia. pose proof (Z.mod_pos_bound (Z.shiftr now_ticks SPIN_INTERVAL_BITS) (2 ^ 16)).
    unfold u32_max. lia. }
  assert (He' : 0 <= e <= u32_max).
  { assert (0 <= e <= u16_max); [|unfold u16_max, u32_max in *; lia].
    apply u16_from_be_bytes_range; destruct entropy as [bytes|]; cbn [default]; try (by apply He); [done|].
    apply Forall_take. by destruct (le_bytes_ok 8 nonce). }
  replace (cv +:+ "." +:+ dec c +:+ "." +:+ dec e +:+ ".0") with
    (((cv +:+ "." +:+ dec c) +:+ "." +:+ dec e) +:+ ".0") by (by rewrite !string_app_assoc).
  by apply zero_element, dec_element; [apply dec_element|].
Qed.

(** A mutable vector is classified as such, with its parts. *)
Lemma classify_mutable cv :
  mutable_vector cv -> exists m n e, classify cv = Mutable m /\ full m = cv /\ stem (prefix m) n /\
    cv = prefix m +:+ "." +:+ e /\ parse_element e = Some (last m) /\ stem cv (S n).
Proof.
  intros Hm. pose proof (classify_spec cv) as Hc. destruct (classify cv) as [|m|].
  - destruct Hc as [_ [b [-> _]]]. apply mutable_not_immutable in Hm.
    assert (is_immutable (b +:+ "!") = true) by (apply is_immutable_spec; eauto). congruence.
  - destruct Hc as [_ (Hf & _ & n & e & Hs & E & He)%parse_mutable_spec]. exists m, n, e.
    split_and!; try done. rewrite E. by apply (stem_element _ _ _ (last m)).
  - by destruct Hc.
Qed.

Lemma increment_candidate m cv n e :
  cv = prefix m +:+ "." +:+ e -> stem (prefix m) n -> parse_element e = Some (last m) -> last m <> u32_max ->
  stem (prefix m +:+ "." +:+ dec (last m + 1)) (S n).
Proof.
  intros -> Hs (_ & _ & Hv & _)%parse_element_Some Hne. apply dec_element; [done|]. lia.
Qed.

Lemma spin_terminates src cv counter :
  sources_wf src -> mutable_vector cv -> exists candidate n,
    (spin src cv counter).1 = terminate_if_oversized cv candidate /\
    (exists rest, candidate = cv +:+ "." +:+ rest) /\ stem candidate (S n).
Proof.
  intros [Hr _] Hm. destruct (classify_mutable cv Hm) as (m & n & e & Hc & Hf & _ & _ & _ & Hs).
  unfold spin. rewrite Hc, Hf. specialize (Hr SPIN_ENTROPY_BYTES).
  assert (Hsp : forall nonce, exists candidate k,
    spin_with cv (now_ticks_100ns src) (os_random_bytes src SPIN_ENTROPY_BYTES) nonce =
      terminate_if_oversized cv candidate /\
    (exists rest, candidate = cv +:+ "." +:+ rest) /\ stem candidate (S k)).
  { intros nonce. edestruct (spin_candidate cv (S n) (now_ticks_100ns src)) as (candidate & E & Hrest & Hst);
      [done|exact Hr|]. eauto. }
  by destruct (os_random_bytes src SPIN_ENTROPY_BYTES); cbn.
Qed.

(** The operators only ever emit valid vectors.  Whatever text they are
    given, however hostile, and whether the random generator works or not,
    extending, incrementing and spinning yield a well-formed vector of at most
    128 characters; text that is no vector is replaced by a fresh seed, and a
    frozen vector passes unchanged. *)
Theorem correlation_operators_closed (src : Sources) (cv : string) (counter : Z) :
  sources_wf src ->
  is_relayable (extend src cv counter).1 = true /\ is_relayable (increment src cv counter).1 = true /\
  is_relayable (spin src cv counter).1 = true /\
  (is_relayable cv = false ->
   extend src cv counter = seed src counter /\ increment src cv counter = seed src counter /\
   spin src cv counter = seed src counter) /\
  (frozen_vector cv ->
   extend src cv counter = (cv, counter) /\ increment src cv counter = (cv, counter) /\
   spin src cv counter = (cv, counter)).
Proof.
  intros Hw. pose proof (classify_spec cv) as Hc. pose proof (seed_relayable src counter Hw) as Hseed.
  pose proof (is_relayable_spec cv) as Hrel. destruct (classify cv) as [|m|] eqn:Ec.
  - assert (is_relayable cv = true) by (apply Hrel; by right).
    unfold extend, increment, spin. rewrite Ec. split_and!; try done. congruence.
  - destruct Hc as [Hm _]. assert (is_relayable cv = true) by (apply Hrel; by left).
    destruct (classify_mutable cv Hm) as (m' & n & e & Hc' & Hf & Hp & Hcv & He & Hs).
    assert (m' = m) as -> by congruence.
    split_and!; [| | |congruence|].
    + unfold extend. rewrite Ec, Hf. apply terminate_relayable; [done|]. left. eexists. by apply zero_element.
    + unfold increment. rewrite Ec, Hf. destruct (Z.eqb_spec (last m) u32_max); cbn.
      * apply terminate_relayable; [done|by right].
      * apply terminate_relayable; [done|]. left. exists n. by eapply increment_candidate.
    + destruct (spin_terminates src cv counter Hw Hm) as (candidate & k & -> & _ & Hst).
      apply terminate_relayable; eauto.
    + intros Hfr. destruct Hfr as [_ [b [-> _]]]. apply mutable_not_immutable in Hm.
      assert (is_immutable (b +:+ "!") = true) by (apply is_immutable_spec; eauto). congruence.
  - unfold extend, increment, spin. rewrite Ec. split_and!; try done. by destruct Hc.
Qed.

(** A vector grown from [cv], or [cv] frozen at an element. *)
Definition grown_or_frozen cv (r : string) : Prop :=
  mutable_vector r /\ (exists rest, r = cv +:+ "." +:+ rest) \/
  frozen_vector r /\ exists kept rest, cv = kept +:+ rest /\ r = kept +:+ "!".

Lemma terminate_grown cv candidate n :
  mutable_vector cv -> stem candidate (S n) -> (exists rest, candidate = cv +:+ "." +:+ rest) ->
  grown_or_frozen cv (terminate_if_oversized cv candidate).
Proof.
  intros Hm Hs Hr. destruct (Nat.le_gt_cases (String.length candidate) MAX_LEN) as [Hle|Hgt].
  - left. unfold terminate_if_oversized. rewrite (proj2 (Nat.leb_le _ _)) by done.
    split; [|done]. split; [done|]. by exists n.
  - right. by apply terminate_spec.
Qed.

(** Advancing a vector moves forward.  Extending and spinning append elements
    to it, and incrementing replaces its last element by the next number; where
    the result would exceed the cap, or the element its width, the vector is
    frozen: cut at an element and terminated. *)
Theorem correlation_operators_advance (src : Sources) (cv : string) (counter : Z) :
  sources_wf src -> mutable_vector cv ->
  grown_or_frozen cv (extend src cv counter).1 /\ grown_or_frozen cv (spin src cv counter).1 /\
  exists pre e v, cv = pre +:+ "." +:+ e /\ parse_element e = Some v /\
    ((increment src cv counter).1 = pre +:+ "." +:+ dec (v + 1) /\ v < u32_max \/
     frozen_vector (increment src cv counter).1 /\
       exists kept rest, cv = kept +:+ rest /\ (increment src cv counter).1 = kept +:+ "!").
Proof.
  intros Hw Hm. destruct (classify_mutable cv Hm) as (m & n & e & Hc & Hf & Hp & Hcv & He & Hs). split_and!.
  - unfold extend. rewrite Hc, Hf. apply (terminate_grown _ _ (S n)); [done|by apply zero_element|]. by exists "0".
  - destruct (spin_terminates src cv counter Hw Hm) as (candidate & k & -> & Hr & Hst).
    by apply (terminate_grown _ _ k).
  - exists (prefix m), e, (last m). split; [done|]. split; [done|]. unfold increment. rewrite Hc, Hf.
    destruct (Z.eqb_spec (last m) u32_max) as [Hmax|Hne]; cbn.
    + right. destruct (Nat.le_gt_cases (String.length (cv +:+ "!")) MAX_LEN) as [Hle|Hgt].
      * unfold terminate_if_oversized. rewrite (proj2 (Nat.leb_le _ _)) by done.
        split; [by split; [|exists cv]|]. exists cv, "". by rewrite string_app_nil_r.
      * by apply terminate_spec.
    + destruct (Nat.le_gt_cases (String.length (prefix m +:+ "." +:+ dec (last m + 1))) MAX_LEN) as [Hle|Hgt].
      * left. unfold terminate_if_oversized. rewrite (proj2 (Nat.leb_le _ _)) by done.
        apply parse_element_Some in He as (_ & _ & Hv & _). split; [done|]. lia.
      * right. by apply terminate_spec.
Qed.

(** Without a random generator seeds still differ: two seeds minted one after
    the other, by whatever the clock says, are distinct. *)
Theorem fallback_seeds_distinct (src1 src2 : Sources) (counter : Z) :
  0 <= counter <= u64_max ->
  os_random_bytes src1 16 = None -> os_random_bytes src2 16 = None ->
  (seed src1 counter).1 <> (seed src2 (seed src1 counter).2).1.
Proof.
  intros Hc H1 H2 E. unfold seed in E. rewrite H1, H2 in E. cbn in E.
  destruct (seed_with_vector None (now_ticks_100ns src1) counter) as [E1 _]; [done|].
  destruct (seed_with_vector None (now_ticks_100ns src2) (wrap 64 (counter + 1))) as [E2 _]; [done|].
  rewrite E1, E2 in E. apply string_app_inj_r in E.
  destruct (seed_bytes_ok None (now_ticks_100ns src1) counter) as [L1 F1]; [done|].
  destruct (seed_bytes_ok None (now_ticks_100ns src2) (wrap 64 (counter + 1))) as [L2 F2]; [done|].
  apply rfc4648_inj in E; [|congruence|done|done]. cbn [seed_bytes default] in E.
  apply app_inj_1 in E as [_ E]; [|by destruct (le_bytes_ok 8 (now_ticks_100ns src1)), (le_bytes_ok 8 (now_ticks_100ns src2)); congruence].
  unfold be_bytes in E. apply (f_equal (@rev Z)) in E. rewrite !rev_involutive in E.
  unfold u64_max in Hc. apply le_bytes_inj in E.
  - unfold wrap in E. Z.div_mod_to_equations; lia.
  - change (256 ^ Z.of_nat 8) with 18446744073709551616. lia.
  - change (256 ^ Z.of_nat 8) with (2 ^ 64). unfold wrap. apply Z.mod_pos_bound. lia.
Qed.

End Laws.

(** ** Witnesses *)
Module Concrete.

#[local] Instance base64 : Base64 := rfc4648.
#[local] Instance base64_laws : Base64Laws base64.
Proof. done. Qed.

Definition sources : Sources := MkSources (fun _ => None) 17000000000000000.
Definition vector : string := "AAAAAAAAAAAAAAAAAAAAAA.0".

Lemma sources_ok : sources_wf sources.
Proof. split; [done|]. unfold u64_max. cbn. lia. Qed.

Lemma vector_mutable : mutable_vector vector.
Proof. by apply is_valid_spec. Qed.

Lemma correlation_operators_closed_witness :
  is_relayable (spin sources "user@contoso.com!" 0).1 = true.
Proof. apply correlation_operators_closed. exact sources_ok. Defined.

Lemma correlation_operators_advance_witness : grown_or_frozen vector (extend sources vector 0).1.
Proof. apply correlation_operators_advance; [exact sources_ok|exact vector_mutable]. Defined.

Lemma fallback_seeds_distinct_witness : (seed sources 7).1 <> (seed sources (seed sources 7).2).1.
Proof. apply fallback_seeds_distinct; [unfold u64_max; lia|reflexivity|reflexivity]. Defined.

End Concrete.
End CV.
