(* ===== verification/BwrapRules.v ===== *)
(** * Bubblewrap network rules

    [backends/bubblewrap/common/network_rules.rs]: the egress and ingress plans
    of the sandbox's private network namespace and the [iptables-restore]
    payloads that install them.  The block arithmetic of that file is, operation
    for operation, the one of [network_blocks.rs], so its [Block] is the
    [AddressBlock] of [NetworkBlocks] with the same [width], [host_mask],
    [last], [contains], [intersects] and [address].

    The theorems show that the installed chains decide every packet as the
    policy does, that [admits] predicts the chain, that splitting a policy over
    several transactions never exposes a half-built chain, and that the payload
    names sort in the order they must be applied. *)

From Stdlib Require Import Ascii.
From stdpp Require Import gmap.
From S2P Require Import Prelude NetText Models Requests NetworkBlocks Netfilter EgressSpec.

Module Bwrap.

Import Blocks (IpFamily, FamilyV4, FamilyV6, AddressBlock, MkBlock).

(** ** Payload names *)

Definition RuleFamily : Type := IpFamily.

Definition payload_prefix (f : RuleFamily) : string :=
  match f with FamilyV4 => "rules.v4." | FamilyV6 => "rules.v6." end.

Definition PAYLOAD_INDEX_MIN_WIDTH : nat := 3.

(** The loop of [decimal_width]; the value loses a digit at each turn, so the
    value itself bounds the turns. *)
Fixpoint decimal_width_go (fuel : nat) (remaining : Z) (width : nat) : nat :=
  match fuel with
  | O => width
  | S fuel => if 10 <=? remaining then decimal_width_go fuel (remaining / 10) (S width) else width
  end.

Definition decimal_width (value : Z) : nat := decimal_width_go (Z.to_nat value) value 1.

(** [{index:0width$}]. *)
Definition zero_padded (width : nat) (index : Z) : string :=
  string_repeat "0"%char (width - String.length (dec index)) +:+ dec index.

Definition payload_file_name (family : RuleFamily) (index total : Z) : string :=
  let width := Nat.max (decimal_width (Z.max 0 (total - 1))) PAYLOAD_INDEX_MIN_WIDTH in
  payload_prefix family +:+ zero_padded width index.

(** ** Rules *)

Inductive RuleVerdict : Type := Accept | Drop.
#[global] Instance RuleVerdict_eq_dec : EqDecision RuleVerdict.
Proof. solve_decision. Defined.

Definition target (v : RuleVerdict) : string := match v with Accept => "ACCEPT" | Drop => "DROP" end.

Record RuleAddress : Type := MkAddress { family : RuleFamily; text : string }.

Definition any (f : RuleFamily) : RuleAddress :=
  MkAddress f (match f with FamilyV4 => "0.0.0.0/0" | FamilyV6 => "::/0" end).

Definition from_block (f : RuleFamily) (address : IpAddr) (prefix : Z) : RuleAddress :=
  MkAddress f (ip_text address +:+ "/" +:+ dec prefix).

(** [str::parse::<u8>]: digits, at least one, after an optional plus sign. *)
Definition parse_u8 (s : string) : option Z :=
  let digits := default s (strip_prefix_char "+" s) in
  v ← if decide (digits = "") then None else parse_digits digits;
  if v <=? u8_max then Some v else None.

Definition contains_v4 (self : RuleAddress) (address : Z) : bool :=
  if negb (bool_decide (family self = FamilyV4)) then false
  else
    let parts :=
      match split_once "/" (text self) with
      | Some (base, prefix) =>
          match parse_u8 prefix with
          | Some prefix => if prefix <=? 32 then Some (base, prefix) else None
          | None => None
          end
      | None => Some (text self, 32)
      end in
    match parts with
    | None => false
    | Some (base, prefix) =>
        match parse_ipv4 base with
        | None => false
        | Some base =>
            let mask := if prefix =? 0 then 0 else wrap 32 (Z.shiftl u32_max (32 - prefix)) in
            Z.land base mask =? Z.land address mask
        end
    end.

Definition mapped_v4_block (ip bits : Z) : option (Z * Z) :=
  v4 ← to_ipv4_mapped ip;
  if 96 <=? bits then Some (v4, bits - 96) else None.

Definition covers_ipv4_mapped_range (ip bits : Z) : bool :=
  if 96 <=? bits then false
  else
    let mask := if bits =? 0 then 0 else u128_shl u128_max (128 - bits) in
    let mapped_base := 0xffff00000000 in
    Z.land ip mask =? Z.land mapped_base mask.

(** Why a plan is refused; each constructor is one message of the source. *)
Inductive PlanError : Type :=
| PrefixTooWide (cidr : NetworkCidr) (source_width : Z)
| StraddlesMappedRange (entry : string)
| TooManyBlocks
| TooManyRules
| PortZero
| InvertedRange (start stop : Z)
| EndWithoutStart (stop : Z)
| IcmpWithPort
| OutOfFuel.

(** ** Blocks *)

Definition MAX_BLOCKS_PER_PEER : Z := 256.
Definition MAX_EGRESS_RULES : Z := 65536.

Definition from_cidr (c : NetworkCidr) : result PlanError (RuleFamily * AddressBlock) :=
  let source_width := match address c with V4 _ => 32 | V6 _ => 128 end in
  if source_width <? prefix_length c then Err (PrefixTooWide c source_width)
  else
    '(family, raw, prefix) ←
      match address c with
      | V4 ip => Ok (FamilyV4, ip, prefix_length c)
      | V6 ip =>
          match mapped_v4_block ip (prefix_length c) with
          | Some (v4, bits) => Ok (FamilyV4, v4, bits)
          | None =>
              if covers_ipv4_mapped_range ip (prefix_length c)
              then Err (StraddlesMappedRange (Blocks.cidr_text c))
              else Ok (FamilyV6, ip, prefix_length c)
          end
      end;
    let width := Blocks.width family in
    let base := Z.land raw (u128_not (Blocks.host_mask (u8_sub width prefix))) in
    Ok (family, MkBlock base prefix).

(** Each call lengthens the prefix by one, so the width of the family bounds the
    depth; [subtract_blocks_carve] shows the bound is never met. *)
Fixpoint subtract_blocks_go (fuel : nat) (block : AddressBlock) (excepts : list AddressBlock)
    (family : RuleFamily) (out : list AddressBlock) (remaining : Z)
  : result PlanError (list AddressBlock * Z) :=
  let width := Blocks.width family in
  if existsb (fun e => Blocks.contains e block width) excepts then Ok (out, remaining)
  else if negb (existsb (fun e => Blocks.intersects e block width) excepts) then
    if remaining =? 0 then Err TooManyBlocks
    else Ok (out ++ [block], remaining - 1)
  else if width <=? Blocks.prefix block then Ok (out, remaining)
  else
    match fuel with
    | O => Err OutOfFuel
    | S fuel =>
        let child_prefix := u8_add (Blocks.prefix block) 1 in
        let step := u128_add (Blocks.host_mask (u8_sub width child_prefix)) 1 in
        '(out, remaining) ←
          subtract_blocks_go fuel (MkBlock (Blocks.base block) child_prefix) excepts family out remaining;
        subtract_blocks_go fuel (MkBlock (u128_add (Blocks.base block) step) child_prefix)
          excepts family out remaining
    end.

Definition subtract_blocks (block : AddressBlock) (excepts : list AddressBlock) (family : RuleFamily)
    (out : list AddressBlock) (remaining : Z) : result PlanError (list AddressBlock * Z) :=
  subtract_blocks_go (Z.to_nat (Blocks.width family)) block excepts family out remaining.

(** ** Lowering *)

Record PortSpec : Type := MkSpec { spec_protocol : option string; range : option (Z * Z) }.

Definition ALL : PortSpec := MkSpec None None.
Definition tcp_port (port : Z) : PortSpec := MkSpec (Some "tcp") (Some (port, port)).

Record EgressRule : Type := MkEgressRule {
  verdict : RuleVerdict;
  rule_address : RuleAddress;
  rule_port : PortSpec;
}.

Definition collect_except (family : RuleFamily) (except : NetworkCidr) (excepts : list AddressBlock)
  : result PlanError (list AddressBlock) :=
  '(except_family, block) ← from_cidr except;
  Ok (if decide (except_family = family) then excepts ++ [block] else excepts).

(** One turn of the loop of [lower_peers]. *)
Definition lower_peer (budget : Z) (peer : NetworkPeer) (addresses : list RuleAddress)
  : result PlanError (list RuleAddress) :=
  '(family, block) ← from_cidr (cidr peer);
  excepts ← foldM (collect_except family) (except peer) [];
  '(blocks, _) ← subtract_blocks block excepts family [] MAX_BLOCKS_PER_PEER;
  let addresses := addresses ++
    ((fun block => from_block family (Blocks.block_address block family) (Blocks.prefix block)) <$> blocks) in
  if budget <? Z.of_nat (length addresses) then Err TooManyRules else Ok addresses.

Definition lower_peers (peers : list NetworkPeer) (budget : Z) : result PlanError (list RuleAddress) :=
  if is_empty peers then Ok [any FamilyV4; any FamilyV6]
  else foldM (lower_peer budget) peers [].

(** One turn of the loop of [lower_ports]. *)
Definition port_specs (p : NetworkPort) : result PlanError (list PortSpec) :=
  if bool_decide (port p = Some 0) || bool_decide (end_port p = Some 0) then Err PortZero
  else
    range ← match port p, end_port p with
      | Some start, Some stop =>
          if stop <? start then Err (InvertedRange start stop) else Ok (Some (start, stop))
      | Some start, None => Ok (Some (start, start))
      | None, Some stop => Err (EndWithoutStart stop)
      | None, None => Ok None
      end;
    match protocol p with
    | Tcp => Ok [MkSpec (Some "tcp") range]
    | Udp => Ok [MkSpec (Some "udp") range]
    | Icmp => if bool_decide (is_Some range) then Err IcmpWithPort else Ok [MkSpec (Some "icmp") None]
    | AnyProtocol =>
        match range with
        | None => Ok [ALL]
        | Some range => Ok [MkSpec (Some "tcp") (Some range); MkSpec (Some "udp") (Some range)]
        end
    end.

Definition lower_ports (ports : list NetworkPort) : result PlanError (list PortSpec) :=
  if is_empty ports then Ok [ALL]
  else foldM (fun port specs => (fun new => specs ++ new) <$> port_specs port) ports [].

Definition lower_rule (v : RuleVerdict) (rule : NetworkRule) (out : list EgressRule)
  : result PlanError (list EgressRule) :=
  let remaining := Z.max 0 (MAX_EGRESS_RULES - Z.of_nat (length out)) in
  addresses ← lower_peers (to rule) remaining;
  ports ← lower_ports (ports rule);
  let emitted := Z.of_nat (length addresses) * Z.of_nat (length ports) in
  if (u64_max <? emitted) || (remaining <? emitted) then Err TooManyRules
  else Ok (out ++ (addresses ≫= fun address => (fun port => MkEgressRule v address port) <$> ports)).

(** ** Rendering and matching one rule *)

Definition render (self : EgressRule) : string :=
  let protocol :=
    match spec_protocol (rule_port self) with
    | Some protocol =>
        if decide (protocol = "icmp" /\ family (rule_address self) = FamilyV6) then "-p icmpv6 "
        else "-p " +:+ protocol +:+ " "
    | None => ""
    end in
  let dport :=
    match range (rule_port self) with
    | Some (start, stop) =>
        if start =? stop then " --dport " +:+ dec start
        else " --dport " +:+ dec start +:+ ":" +:+ dec stop
    | None => ""
    end in
  protocol +:+ "-d " +:+ text (rule_address self) +:+ dport +:+ " -j " +:+ target (verdict self).

(** [matches]. *)
Definition rule_applies (protocol : string) (destination port : Z) (self : EgressRule) : bool :=
  if negb (bool_decide (family (rule_address self) = FamilyV4)) then false
  else if is_some_and (fun named => negb (bool_decide (named = protocol))) (spec_protocol (rule_port self))
  then false
  else if is_some_and (fun '(start, stop) => (port <? start) || (stop <? port)) (range (rule_port self))
  then false
  else contains_v4 (rule_address self) destination.

(** ** The egress plan *)

Record EgressPlan : Type := MkPlan {
  rules : list EgressRule;
  v4_terminal : RuleVerdict;
  v6_terminal : RuleVerdict;
}.

Definition RESTORE_PAYLOAD_BUDGET : Z := 8192.
Definition SLIRP_HOST_GATEWAY_IP : Z := 0x0a000202.

Definition for_proxy (ip port : Z) : EgressPlan :=
  MkPlan [MkEgressRule Accept (MkAddress FamilyV4 (ipv4_text ip)) (tcp_port port)] Drop Drop.

Definition for_directional_policy_with_ingress (egress : NetworkEgressPolicy) (host_loopback : NetworkAction)
  : result PlanError EgressPlan :=
  let terminal := match egress_default egress with Allow => Accept | Deny => Drop end in
  let gateway :=
    if decide (host_loopback = Deny)
    then [MkEgressRule Drop (from_block FamilyV4 (V4 SLIRP_HOST_GATEWAY_IP) 32) ALL]
    else [] in
  rules ← foldM (lower_rule Drop) (deny egress) gateway;
  rules ← foldM (lower_rule Accept) (allow egress) rules;
  Ok (MkPlan rules terminal terminal).

Definition for_request (request : ExecutionRequest) : result PlanError EgressPlan :=
  for_directional_policy_with_ingress
    (default NetworkEgressPolicy_default (network_egress (policy request)))
    (match network_ingress (policy request) with Some ingress => host_loopback ingress | None => Deny end).

Definition egress_chain_lines (self : EgressPlan) (f : RuleFamily) : list string :=
  let terminal := match f with FamilyV4 => v4_terminal self | FamilyV6 => v6_terminal self end in
  ["-o lo -j ACCEPT"] ++
  (render <$> List.filter (fun rule => bool_decide (family (rule_address rule) = f)) (rules self)) ++
  ["-j " +:+ target terminal].

(** The loop of [allowed_v6_targets]: the targets so far and the set of those
    seen. *)
Definition push_v6_target (st : list string * gset string) (rule : EgressRule)
  : list string * gset string :=
  let '(targets, seen) := st in
  let t := text (rule_address rule) in
  if bool_decide (verdict rule = Accept) && bool_decide (family (rule_address rule) = FamilyV6) &&
     bool_decide (t ∉ seen)
  then (targets ++ [t], {[t]} ∪ seen) else (targets, seen).

Definition allowed_v6_targets (self : EgressPlan) : list string :=
  (foldl push_v6_target ([], ∅) (rules self)).1.

Definition admits (self : EgressPlan) (protocol : string) (destination port : Z) : bool :=
  bool_decide
    (match List.find (rule_applies protocol destination port) (rules self) with
     | Some rule => verdict rule
     | None => v4_terminal self
     end = Accept).

(** ** The ingress plan *)

Record IngressPlan : Type := MkIngressPlan { new_inbound : RuleVerdict }.

Definition for_policy (policy : ContainerPolicy) : IngressPlan :=
  let accepts_new_inbound :=
    is_some_and (fun ingress => bool_decide (ingress_default ingress = Allow)) (network_ingress policy) in
  MkIngressPlan (if accepts_new_inbound then Accept else Drop).

Definition ingress_chain_lines (self : IngressPlan) (f : RuleFamily) : list string :=
  ["-i lo -j ACCEPT";
   "-m conntrack --ctstate ESTABLISHED,RELATED -j ACCEPT";
   "-m conntrack --ctstate NEW -j " +:+ target (new_inbound self);
   "-j DROP"].

(** ** Payloads *)

Definition newline : string := String (ascii_of_nat 10) "".
Definition COMMIT : string := "COMMIT" +:+ newline.
Definition FILTER : string := "*filter" +:+ newline.

Record ChainSection : Type := MkSection { section_chain : string; section_hook : string; lines : list string }.

(** The loop over the body: payloads closed, the current one and the lines it
    holds. *)
Record payload_state : Type := MkPayload {
  payloads : list string;
  current : string;
  lines_in_current : nat;
}.

Definition over_budget (st : payload_state) (more : string) : bool :=
  (0 <? lines_in_current st)%nat &&
  (RESTORE_PAYLOAD_BUDGET <? str_len (current st) + str_len more + str_len COMMIT).

Definition close_payload (st : payload_state) : payload_state :=
  MkPayload (payloads st ++ [current st +:+ COMMIT]) FILTER 0.

Definition push_line (st : payload_state) (line : string) : payload_state :=
  let st := if over_budget st line then close_payload st else st in
  MkPayload (payloads st) (current st +:+ line) (S (lines_in_current st)).

Definition render_filter_payloads (egress : EgressPlan) (ingress : IngressPlan) (f : RuleFamily)
    (egress_chain ingress_chain : string) : list string :=
  let sections :=
    [MkSection egress_chain "OUTPUT" (egress_chain_lines egress f);
     MkSection ingress_chain "INPUT" (ingress_chain_lines ingress f)] in
  let declarations :=
    string_concat ((fun s => ":" +:+ section_chain s +:+ " - [0:0]" +:+ newline) <$> sections) in
  let hooks :=
    string_concat
      ((fun s => "-A " +:+ section_hook s +:+ " -j " +:+ section_chain s +:+ newline) <$> sections) in
  let body := sections ≫= fun s =>
    (fun line => "-A " +:+ section_chain s +:+ " " +:+ line +:+ newline) <$> lines s in
  let st := foldl push_line (MkPayload [] (FILTER +:+ declarations) 0) body in
  let st := if over_budget st hooks then close_payload st else st in
  payloads st ++ [current st +:+ hooks +:+ COMMIT].

(** ** Blocks against the shared arithmetic *)

Definition of_block_error (e : Blocks.BlockError) : PlanError :=
  match e with Blocks.TooManyBlocks => TooManyBlocks | _ => OutOfFuel end.

Lemma subtract_blocks_go_shared fuel b ex f out remaining :
  subtract_blocks_go fuel b ex f out remaining =
  map_err of_block_error (Blocks.subtract_go fuel b ex (Blocks.width f) out remaining).
Proof.
  revert b out remaining. induction fuel as [|fuel IH]; intros b out remaining;
    cbn [subtract_blocks_go Blocks.subtract_go]; repeat case_match; try done.
  rewrite IH. destruct (Blocks.subtract_go fuel _ ex _ out remaining) as [[? ?]|]; cbn; [|done].
  apply IH.
Qed.

(** The blocks of a subtraction are those of the reference definition, and the
    depth bound is never the reason of a refusal. *)
Lemma subtract_blocks_carve f b ex out remaining :
  Blocks.block_wf (Blocks.width f) b -> Forall (Blocks.block_wf (Blocks.width f)) ex -> 0 <= remaining ->
  subtract_blocks b ex f out remaining =
  let cs := Blocks.carve (Blocks.width f) (Z.to_nat (Blocks.width f)) b ex in
  if Z.of_nat (length cs) <=? remaining
  then Ok (out ++ cs, remaining - Z.of_nat (length cs)) else Err TooManyBlocks.
Proof.
  intros Hb Hex Hr. unfold subtract_blocks. rewrite subtract_blocks_go_shared.
  fold (Blocks.subtract b ex (Blocks.width f) out remaining).
  rewrite Blocks.subtract_carve by (done || apply Blocks.width_bounds). cbv zeta. by case_match.
Qed.

(** The masks of the source clear the low bits. *)
Lemma mask128 x k :
  0 <= x < 2 ^ 128 -> 0 <= k < 128 -> Z.land x (u128_shl u128_max k) = x - x mod 2 ^ k.
Proof.
  intros Hx Hk. rewrite <- (land_not_ones x k) by lia. f_equal.
  assert (H : forallb (fun n => u128_shl u128_max (Z.of_nat n) =? u128_not (2 ^ Z.of_nat n - 1)) (seq 0 128) = true)
    by (vm_compute; reflexivity).
  rewrite forallb_forall in H. specialize (H (Z.to_nat k)).
  rewrite in_seq, Z.eqb_eq, Z2Nat.id in H by lia. apply H. lia.
Qed.

Lemma sub_mod_div x y k : 0 < k -> x - x mod k = y - y mod k <-> x / k = y / k.
Proof.
  intros Hk. pose proof (Z.div_mod x k). pose proof (Z.div_mod y k). split; intros H1; nia.
Qed.

Lemma covers_mapped_spec ip bits :
  0 <= ip < 2 ^ 128 -> 0 <= bits ->
  covers_ipv4_mapped_range ip bits = true <->
  bits < 96 /\ ip / 2 ^ (128 - bits) = Blocks.mapped 0 / 2 ^ (128 - bits).
Proof.
  intros Hip Hb. unfold covers_ipv4_mapped_range.
  destruct (Z.leb_spec 96 bits); [split; [done|lia]|]. change (0xffff00000000) with (Blocks.mapped 0).
  assert (Hm : 0 <= Blocks.mapped 0 < 2 ^ 128) by done.
  destruct (Z.eqb_spec bits 0) as [->|Hne].
  - rewrite !Z.land_0_r, Z.sub_0_r, !Z.div_small by done. done.
  - rewrite Z.eqb_eq, !mask128, sub_mod_div by (done || lia || (apply pow2_pos; lia)).
    intuition lia.
Qed.

Lemma from_cidr_resolve c f b :
  cidr_wf c -> from_cidr c = Ok (f, b) -> Blocks.resolve c = Some (f, b).
Proof.
  intros [Ha Hp] H. unfold from_cidr, mapped_v4_block, Blocks.resolve, u8_max in *.
  destruct (address c) as [ip|ip].
  - destruct (Z.ltb_spec 32 (prefix_length c)); [done|]. injection H as <- <-. cbn [Blocks.width].
    destruct (Z.ltb_spec 32 (prefix_length c)); [lia|done].
  - destruct (Z.ltb_spec 128 (prefix_length c)); [done|].
    assert (Hs : prefix_length c = u8_sub (prefix_length c) 96 + 96 \/ prefix_length c < 96).
    { unfold u8_sub. destruct (Z.lt_ge_cases (prefix_length c) 96); [by right|left].
      rewrite wrap_small by lia. lia. }
    destruct (to_ipv4_mapped ip) as [v4|]; cbn in H;
      [destruct (Z.leb_spec 96 (prefix_length c)); [|]|].
    + injection H as <- <-. replace (u8_sub (prefix_length c) 96) with (prefix_length c - 96) by lia.
      cbn [Blocks.width]. by destruct (Z.ltb_spec 32 (prefix_length c - 96)); [lia|].
    + destruct (covers_ipv4_mapped_range _ _); [done|]. injection H as <- <-. cbn [Blocks.width].
      by destruct (Z.ltb_spec 128 (prefix_length c)); [lia|].
    + destruct (covers_ipv4_mapped_range _ _); [done|]. injection H as <- <-. cbn [Blocks.width].
      by destruct (Z.ltb_spec 128 (prefix_length c)); [lia|].
Qed.

Lemma mapped_div_96 v : 0 <= v < 2 ^ 32 -> Blocks.mapped v / 2 ^ 32 = 65535.
Proof. intros Hv. unfold Blocks.mapped. rewrite Z.add_comm, Z.div_add, Z.div_small by lia. done. Qed.

(** Equal at a finer cut, equal at a coarser one. *)
Lemma div_coarser x y k n : 0 <= k <= n -> x / 2 ^ k = y / 2 ^ k -> x / 2 ^ n = y / 2 ^ n.
Proof.
  intros Hk E. rewrite (pow2_split n k) by lia.
  assert (0 < 2 ^ k /\ 0 < 2 ^ (n - k)) as [? ?] by (split; apply pow2_pos; lia).
  by rewrite <- !Z.div_div, E by lia.
Qed.

(** A CIDR programmed as IPv6 names no IPv4-mapped address, *)
Lemma from_cidr_v6_native c b v :
  cidr_wf c -> from_cidr c = Ok (FamilyV6, b) -> 0 <= v < 2 ^ 32 ->
  ~ Blocks.names c (V6 (Blocks.mapped v)).
Proof.
  intros [Ha Hp] H Hv Hn. unfold from_cidr, mapped_v4_block, Blocks.names, u8_max in *.
  destruct (address c) as [ip|ip]; [done|]. cbn in Ha. destruct Hn as [Hle Hn].
  destruct (Z.ltb_spec 128 (prefix_length c)); [done|].
  assert (Hbase : Blocks.mapped v / 2 ^ 32 = Blocks.mapped 0 / 2 ^ 32) by (by rewrite !mapped_div_96).
  assert (Hcov : prefix_length c < 96 -> covers_ipv4_mapped_range ip (prefix_length c) = true).
  { intros Hlt. apply covers_mapped_spec; [done|lia|]. split; [done|]. rewrite <- Hn.
    apply (div_coarser _ _ 32); [lia|done]. }
  assert (Hmap : 96 <= prefix_length c -> exists v4, to_ipv4_mapped ip = Some v4).
  { intros Hge. apply (div_coarser _ _ (128 - prefix_length c) 32) in Hn; [|lia].
    rewrite mapped_div_96 in Hn by done. unfold to_ipv4_mapped.
    rewrite Z.shiftr_div_pow2, <- Hn by lia. cbn. eauto. }
  destruct (Z.lt_ge_cases (prefix_length c) 96) as [Hlt|Hge].
  - rewrite (Hcov Hlt) in H. destruct (to_ipv4_mapped ip); cbn in H; [|done].
    by destruct (Z.leb_spec 96 (prefix_length c)); [lia|].
  - destruct (Hmap Hge) as [v4 E]. rewrite E in H. cbn in H.
    by destruct (Z.leb_spec 96 (prefix_length c)); [|lia].
Qed.

(** and one programmed as IPv4 names, as IPv6, only those. *)
Lemma from_cidr_v4_mapped c b a :
  cidr_wf c -> from_cidr c = Ok (FamilyV4, b) -> 0 <= a < 2 ^ 128 -> Blocks.names c (V6 a) ->
  exists v, 0 <= v < 2 ^ 32 /\ a = Blocks.mapped v.
Proof.
  intros [Ha Hp] H Hr Hn. unfold from_cidr, mapped_v4_block, Blocks.names in *.
  destruct (address c) as [ip|ip]; [done|]. destruct Hn as [Hle Hn]. cbn in Ha.
  destruct (Z.ltb_spec 128 (prefix_length c)); [done|].
  destruct (to_ipv4_mapped ip) as [v4|] eqn:E; cbn in H;
    [|by destruct (covers_ipv4_mapped_range _ _)].
  destruct (Z.leb_spec 96 (prefix_length c)); [|by destruct (covers_ipv4_mapped_range _ _)].
  apply to_ipv4_mapped_Some in E as [Hv ->]; [|by destruct Ha]. fold (Blocks.mapped v4) in Hn.
  apply (div_coarser _ _ (128 - prefix_length c) 32) in Hn; [|lia].
  rewrite mapped_div_96 in Hn by done. exists (a mod 2 ^ 32). unfold Blocks.mapped.
  pose proof (Z.div_mod a (2 ^ 32)). pose proof (Z.mod_pos_bound a (2 ^ 32)). lia.
Qed.

(** An exclusion of the other family takes nothing from a peer. *)
Lemma other_family_disjoint p e f g b b' a :
  cidr_wf p -> cidr_wf e -> from_cidr p = Ok (f, b) -> from_cidr e = Ok (g, b') -> f <> g ->
  0 <= a < 2 ^ Blocks.width f -> Blocks.covers f p a -> ~ Blocks.covers f e a.
Proof.
  intros Hp He Hfp Hfe Hne Ha Hc Hx. destruct f, g; try done; cbn [Blocks.covers Blocks.width] in *.
  - destruct Hx as [Hx|Hx]; [|by eapply from_cidr_v6_native in Hx].
    unfold from_cidr, Blocks.names in Hfe, Hx. destruct (address e); [|done]. by destruct (32 <? prefix_length e).
  - destruct (from_cidr_v4_mapped _ _ _ He Hfe Ha Hx) as (v & Hv & ->).
    by eapply from_cidr_v6_native in Hc.
Qed.

(** ** Reading the rendered rules back *)

Definition ip_family (a : IpAddr) : IpFamily := match a with V4 _ => FamilyV4 | V6 _ => FamilyV6 end.

(** The network an address text stands for. *)
Inductive address_form : RuleAddress -> IpAddr -> Z -> Prop :=
| form_net ip p :
    ip_wf ip -> 0 <= p <= Blocks.width (ip_family ip) -> address_form (from_block (ip_family ip) ip p) ip p
| form_host x : 0 <= x < 2 ^ 32 -> address_form (MkAddress FamilyV4 (ipv4_text x)) (V4 x) 32.

Definition spec_ok (s : PortSpec) : Prop :=
  match spec_protocol s, range s with
  | None, r => r = None
  | Some p, None => p ∈ ["tcp"; "udp"; "icmp"]
  | Some p, Some (start, stop) => p ∈ ["tcp"; "udp"] /\ 0 <= start <= stop /\ stop <= u16_max
  end.

Definition rule_ok (r : EgressRule) : Prop :=
  (exists ip p, address_form (rule_address r) ip p) /\ spec_ok (rule_port r).

(** What a rule matches, packets of the other family included. *)
Definition address_selects (a : RuleAddress) (pkt : Filter.packet) : bool :=
  default false (Filter.read_network (text a) ≫= Filter.in_network pkt).

Definition spec_selects (s : PortSpec) (pkt : Filter.packet) : bool :=
  match spec_protocol s with
  | None => true
  | Some p => bool_decide (Filter.read_protocol FamilyV4 p = Some (Filter.transport pkt))
  end &&
  match range s with
  | None => true
  | Some (start, stop) =>
      (start <=? Filter.destination_port pkt) && (Filter.destination_port pkt <=? stop)
  end.

Definition egress_rule_selects (pkt : Filter.packet) (r : EgressRule) : bool :=
  address_selects (rule_address r) pkt && spec_selects (rule_port r) pkt.

Lemma address_form_family a ip p : address_form a ip p -> family a = ip_family ip.
Proof. by intros [? ? _ _|? _]. Qed.

Lemma address_form_bounds a ip p :
  address_form a ip p -> ip_wf ip /\ 0 <= p <= Blocks.width (ip_family ip).
Proof. intros [? ? ? ?|? ?]; [done|]. cbn. lia. Qed.

Lemma address_form_reads a ip p :
  address_form a ip p -> Filter.read_network (text a) = Some (ip, p).
Proof.
  intros [ip' p' Hip Hp|x Hx]; cbn [from_block text]; [apply Filter.read_network_text; [done|lia]|].
  unfold Filter.read_network. change (ipv4_text x) with (ip_text (V4 x)).
  by rewrite split_once_lacks, parse_ip_text by (done || apply Filter.ip_text_no_slash).
Qed.

Lemma in_network_total pkt ip p :
  ip_family ip = Filter.family pkt -> 0 <= p <= Blocks.width (ip_family ip) ->
  Filter.in_network pkt (ip, p) =
  Some (Filter.destination pkt / 2 ^ (Blocks.width (ip_family ip) - p) =?
        ip_bits ip / 2 ^ (Blocks.width (ip_family ip) - p)).
Proof.
  intros Hf Hp. unfold Filter.in_network. cbn [fst snd].
  destruct ip; cbn in *; rewrite <- Hf; (case_match; [lia|done]).
Qed.

Lemma address_selects_form a ip p pkt :
  address_form a ip p ->
  address_selects a pkt =
  bool_decide (ip_family ip = Filter.family pkt) &&
  (Filter.destination pkt / 2 ^ (Blocks.width (ip_family ip) - p) =?
   ip_bits ip / 2 ^ (Blocks.width (ip_family ip) - p)).
Proof.
  intros Ha. unfold address_selects. rewrite (address_form_reads _ _ _ Ha). cbn [mbind option_bind].
  apply address_form_bounds in Ha as [_ Hp]. case_bool_decide as Hf.
  - by rewrite in_network_total.
  - unfold Filter.in_network. cbn [fst snd].
    destruct ip, (Filter.family pkt); cbn in *; done.
Qed.

Lemma address_text_plain c a ip p :
  address_form a ip p -> address_char c = false -> c <> "/"%char -> lacks c (text a) = true.
Proof.
  intros Ha Hc Hs.
  assert (H : forall s, string_all address_char s = true -> lacks c s = true).
  { intros s. apply string_all_impl. intros c' Hc'. apply negb_true_iff, bool_decide_eq_false.
    by intros ->; rewrite Hc in Hc'. }
  destruct Ha as [ip' p' _ _|x _]; cbn [from_block text].
  - unfold lacks. rewrite !string_all_app. cbn [string_all].
    fold (lacks c (ip_text ip')) (lacks c (dec p')).
    rewrite (H (ip_text ip')), (H (dec p')) by (apply ip_text_address || apply dec_address).
    by rewrite bool_decide_eq_false_2.
  - apply H. change (ipv4_text x) with (ip_text (V4 x)). apply ip_text_address.
Qed.

(** The restore program splits a line at its spaces. *)
Definition words (line : string) : list string := string_split " " line.

Definition protocol_words (r : EgressRule) : list string :=
  match spec_protocol (rule_port r) with
  | None => []
  | Some p => ["-p"; if decide (p = "icmp" /\ family (rule_address r) = FamilyV6) then "icmpv6" else p]
  end.

Definition ports_word (start stop : Z) : string :=
  if start =? stop then dec start else dec start +:+ ":" +:+ dec stop.

Definition dport_words (r : EgressRule) : list string :=
  match range (rule_port r) with
  | None => []
  | Some (start, stop) => ["--dport"; ports_word start stop]
  end.

Lemma words_cons w rest : lacks " " w = true -> words (w +:+ String " " rest) = w :: words rest.
Proof. apply string_split_cons. Qed.

Lemma dec_plain c z : address_char c = false -> lacks c (dec z) = true.
Proof.
  intros Hc. eapply string_all_impl; [|apply dec_address]. intros c' Hc'.
  apply negb_true_iff, bool_decide_eq_false. by intros ->; rewrite Hc in Hc'.
Qed.

Lemma ports_word_plain c start stop :
  address_char c = false -> lacks c (ports_word start stop) = true.
Proof.
  intros Hc. unfold ports_word. case_match; [by apply dec_plain|].
  unfold lacks. rewrite !string_all_app. cbn [string_all].
  fold (lacks c (dec start)) (lacks c (dec stop)). rewrite !dec_plain by done.
  rewrite bool_decide_eq_false_2; [done|]. intros <-. by vm_compute in Hc.
Qed.

Lemma render_words r :
  rule_ok r ->
  words (render r) =
  protocol_words r ++ ["-d"; text (rule_address r)] ++ dport_words r ++ ["-j"; target (verdict r)].
Proof.
  intros [(ip & p & Ha) Hs].
  pose proof (address_text_plain " " _ _ _ Ha eq_refl ltac:(done)) as Ht.
  unfold render, protocol_words, dport_words. set (t := text (rule_address r)) in *.
  assert (Hend : words (t +:+ " -j " +:+ target (verdict r)) = [t; "-j"; target (verdict r)]).
  { change (" -j " +:+ target (verdict r)) with (String " " ("-j" +:+ String " " (target (verdict r)))).
    rewrite !words_cons by done. by destruct (verdict r). }
  assert (Hrest : words (t +:+ match range (rule_port r) with
      | Some (start, stop) => if start =? stop then " --dport " +:+ dec start
                              else " --dport " +:+ dec start +:+ ":" +:+ dec stop
      | None => "" end +:+ " -j " +:+ target (verdict r)) =
    t :: dport_words r ++ ["-j"; target (verdict r)]).
  { unfold dport_words. destruct (range (rule_port r)) as [[start stop]|]; [|apply Hend].
    replace (if start =? stop then _ else _) with (" --dport " +:+ ports_word start stop)
      by (unfold ports_word; by case_match).
    rewrite string_app_assoc.
    change (" --dport " +:+ ports_word start stop +:+ " -j " +:+ target (verdict r))
      with (String " " ("--dport" +:+ String " "
              (ports_word start stop +:+ String " " ("-j" +:+ String " " (target (verdict r)))))).
    rewrite !words_cons by (done || by apply ports_word_plain). by destruct (verdict r). }
  fold (dport_words r). destruct (spec_protocol (rule_port r)) as [proto|] eqn:Ep; cbn [app].
  - assert (Hp : lacks " " proto = true).
    { unfold spec_ok in Hs. rewrite Ep in Hs. destruct (range (rule_port r)) as [[? ?]|];
        [destruct Hs as [Hs _]|]; set_unfold in Hs; by destruct_or! Hs; subst. }
    case_decide.
    + change ("-p icmpv6 " +:+ "-d " +:+ ?x) with
        ("-p" +:+ String " " ("icmpv6" +:+ String " " ("-d" +:+ String " " x))).
      by rewrite !words_cons, Hrest by done.
    + rewrite !string_app_assoc.
      change ("-p " +:+ proto +:+ " " +:+ "-d " +:+ ?x) with
        ("-p" +:+ String " " (proto +:+ String " " ("-d" +:+ String " " x))).
      by rewrite !words_cons, Hrest by done.
  - change ("" +:+ "-d " +:+ ?x) with ("-d" +:+ String " " x). by rewrite !words_cons, Hrest by done.
Qed.

(** Matches of a list of options, the head one deciding with the rest. *)
Lemma option_then key value rest pkt m r target :
  key <> "-j" -> Filter.option_matches key value pkt = Some m ->
  Filter.rule_matches rest pkt = Some (r, target) ->
  Filter.rule_matches (key :: value :: rest) pkt = Some (m && r, target).
Proof. intros Hk Hm Hr. by rewrite Filter.rule_matches_option, Hm, Hr. Qed.

Lemma dport_reads r pkt :
  spec_ok (rule_port r) ->
  Filter.rule_matches (dport_words r ++ ["-j"; target (verdict r)]) pkt =
  Some (match range (rule_port r) with
        | None => true
        | Some (start, stop) => Filter.has_ports pkt &&
            (start <=? Filter.destination_port pkt) && (Filter.destination_port pkt <=? stop)
        end, target (verdict r)).
Proof.
  intros Hs. unfold dport_words, spec_ok in *. destruct (range (rule_port r)) as [[start stop]|]; [|done].
  assert (0 <= start <= stop) by (by destruct (spec_protocol (rule_port r)); [apply Hs|]).
  cbn [app]. erewrite option_then; [| | |apply Filter.rule_matches_target]; [|done|].
  2:{ unfold Filter.option_matches. rewrite !decide_False, decide_True by done.
      assert (E : Filter.read_ports (ports_word start stop) = Some (start, stop)).
      { unfold ports_word. destruct (Z.eqb_spec start stop) as [->|];
          [apply Filter.read_ports_single; lia|by apply Filter.read_ports_range]. }
      rewrite E. cbn [mbind option_bind]. reflexivity. }
  by rewrite andb_true_r.
Qed.

Lemma render_reads r pkt :
  rule_ok r -> family (rule_address r) = Filter.family pkt ->
  Filter.rule_matches (words (render r)) pkt = Some (egress_rule_selects pkt r, target (verdict r)).
Proof.
  intros Hok Hf. rewrite render_words by done. destruct Hok as [(ip & p & Ha) Hs].
  assert (Hd : Filter.option_matches "-d" (text (rule_address r)) pkt =
    Some (address_selects (rule_address r) pkt)).
  { change (Filter.option_matches "-d" (text (rule_address r)) pkt) with
      (Filter.read_network (text (rule_address r)) ≫= Filter.in_network pkt).
    unfold address_selects. rewrite (address_form_reads _ _ _ Ha). cbn [mbind option_bind].
    rewrite (address_form_family _ _ _ Ha) in Hf. apply address_form_bounds in Ha as [_ Hp].
    by rewrite in_network_total. }
  pose proof (dport_reads r pkt Hs) as Hr.
  pose proof (option_then "-d" _ _ pkt _ _ _ ltac:(done) Hd Hr) as Hdr.
  unfold protocol_words, egress_rule_selects, spec_selects, spec_ok in *.
  destruct (spec_protocol (rule_port r)) as [proto|]; cbn [app] in *; [|by rewrite Hs in *].
  assert (Hin : proto ∈ ["tcp"; "udp"; "icmp"]).
  { destruct (range (rule_port r)) as [[? ?]|]; [destruct Hs as [Hs _]|]; set_solver. }
  assert (Hp : Filter.option_matches "-p"
      (if decide (proto = "icmp" /\ family (rule_address r) = FamilyV6) then "icmpv6" else proto) pkt =
    Some (bool_decide (Filter.read_protocol FamilyV4 proto = Some (Filter.transport pkt)))).
  { unfold Filter.option_matches. rewrite !decide_False, decide_True by done.
    rewrite Hf. set_unfold in Hin.
    destruct_or! Hin; subst proto; destruct (Filter.family pkt), (Filter.transport pkt); done. }
  rewrite (option_then "-p" _ _ pkt _ _ _ ltac:(done) Hp Hdr). do 2 f_equal.
  destruct (range (rule_port r)) as [[start stop]|]; [|by destruct (address_selects _ _), (bool_decide _)].
  destruct Hs as [Hs _]. unfold Filter.has_ports. set_unfold in Hs.
  destruct_or! Hs; subst proto; destruct (Filter.transport pkt); cbn;
    by destruct (address_selects _ _).
Qed.

(** ** A list of rules as a chain *)

Definition filter_verdict (v : RuleVerdict) : Filter.verdict :=
  match v with Accept => Filter.Accept | Drop => Filter.Drop end.

Definition first_match (pkt : Filter.packet) (rs : list EgressRule) : option RuleVerdict :=
  verdict <$> List.find (egress_rule_selects pkt) rs.

Definition family_lines (f : IpFamily) (rs : list EgressRule) : list string :=
  render <$> List.filter (fun rule => bool_decide (family (rule_address rule) = f)) rs.

(** Rules of the other family match nothing, so leaving them out changes
    nothing: the chain takes the first rule of the plan that matches. *)
Lemma family_lines_verdict pkt rs :
  Forall rule_ok rs ->
  Filter.chain_verdict (words <$> family_lines (Filter.family pkt) rs) pkt =
  Some (match first_match pkt rs with Some v => filter_verdict v | None => Filter.Return end).
Proof.
  unfold first_match, family_lines. induction 1 as [|r rs Hr _ IH]; [done|]. cbn [List.filter List.find].
  case_bool_decide as Hf.
  - cbn [fmap list_fmap Filter.chain_verdict]. rewrite render_reads, IH by done.
    cbn [mbind option_bind]. destruct (verdict r) eqn:Ev; cbn [target mbind option_bind];
      (destruct (egress_rule_selects pkt r); cbn; by rewrite ?Ev).
  - rewrite IH. destruct Hr as [(ip & p & Ha) _]. unfold egress_rule_selects.
    rewrite (address_selects_form _ _ _ pkt Ha), bool_decide_eq_false_2; [done|].
    by rewrite <- (address_form_family _ _ _ Ha).
Qed.

Lemma first_match_app pkt r1 r2 :
  first_match pkt (r1 ++ r2) =
  match first_match pkt r1 with Some v => Some v | None => first_match pkt r2 end.
Proof.
  unfold first_match. induction r1 as [|r r1 IH]; [done|]. cbn [app List.find].
  by destruct (egress_rule_selects pkt r).
Qed.

Lemma first_match_uniform pkt rs v :
  Forall (fun r => verdict r = v) rs ->
  first_match pkt rs = if existsb (egress_rule_selects pkt) rs then Some v else None.
Proof.
  unfold first_match. induction 1 as [|r rs Hv _ IH]; [done|]. cbn [List.find existsb].
  destruct (egress_rule_selects pkt r); cbn; [by rewrite Hv|done].
Qed.

(** ** The lowering against the policy *)

Lemma collect_excepts f es acc ex :
  Forall cidr_wf es -> foldM (collect_except f) es acc = Ok ex ->
  exists new, ex = acc ++ new /\ Forall (Blocks.block_wf (Blocks.width f)) new /\
    (forall e, e ∈ es -> exists g b, from_cidr e = Ok (g, b)) /\
    (forall b, b ∈ new <-> exists e, e ∈ es /\ from_cidr e = Ok (f, b)).
Proof.
  intros Hes. revert acc. induction Hes as [|e es He _ IH]; intros acc H.
  { injection H as <-. exists []. rewrite app_nil_r. split_and!; [done|constructor|set_solver|set_solver]. }
  cbn in H. apply bind_Ok in H as (acc1 & H1 & H). unfold collect_except in H1.
  destruct (from_cidr e) as [[g b]|] eqn:E; [|done]. injection H1 as <-.
  apply IH in H as (new & -> & Hw & Hall & Hnew).
  assert (Hall' : forall x, x ∈ e :: es -> exists g b, from_cidr x = Ok (g, b)).
  { intros x [->|Hx]%elem_of_cons; eauto. }
  destruct (decide (g = f)) as [->|Hne].
  - exists (b :: new). rewrite <- app_assoc. split_and!; [done| |done|].
    + constructor; [|done]. by apply (Blocks.resolve_spec e f b He), from_cidr_resolve.
    + intros b'. rewrite elem_of_cons, Hnew. setoid_rewrite elem_of_cons. split.
      * intros [->|(x & ? & ?)]; eauto.
      * intros (x & [->|Hx] & Hxe); [left; congruence|eauto].
  - exists new. split_and!; [done|done|done|]. intros b'. rewrite Hnew. setoid_rewrite elem_of_cons.
    split; [naive_solver|]. intros (x & [->|Hx] & Hxe); [congruence|eauto].
Qed.

Lemma peer_survives p f b ex a :
  peer_wf p -> from_cidr (cidr p) = Ok (f, b) -> foldM (collect_except f) (except p) [] = Ok ex ->
  0 <= a < 2 ^ Blocks.width f ->
  Blocks.mem (Blocks.width f) a b /\ Blocks.survives (Blocks.width f) ex a <-> Blocks.peer_covers f p a.
Proof.
  intros [Hc He] Hb Hex Ha. apply collect_excepts in Hex as (new & -> & Hw & Hall & Hnew); [|done].
  cbn [app]. unfold Blocks.peer_covers, Blocks.survives.
  rewrite (Blocks.resolve_covers _ _ _ a Hc (from_cidr_resolve _ _ _ Hc Hb) Ha).
  rewrite Forall_forall in He. split; intros [Hcov Hx]; (split; [done|]).
  - intros e Hin Hce. destruct (Hall e Hin) as (g & b' & E). destruct (decide (f = g)) as [<-|Hne].
    + apply (Hx b'); [apply Hnew; eauto|].
      by apply (Blocks.resolve_covers _ _ _ a (He e Hin) (from_cidr_resolve _ _ _ (He e Hin) E) Ha).
    + by eapply (other_family_disjoint (cidr p) e f g) in Hce; [..|exact Hcov]; eauto.
  - intros b' (e & Hin & E)%Hnew Hm. apply (Hx e Hin).
    by apply (Blocks.resolve_covers _ _ _ a (He e Hin) (from_cidr_resolve _ _ _ (He e Hin) E) Ha).
Qed.

Definition block_rule_address (f : RuleFamily) (b : AddressBlock) : RuleAddress :=
  from_block f (Blocks.block_address b f) (Blocks.prefix b).

Lemma block_rule_address_spec f b pkt :
  Blocks.block_wf (Blocks.width f) b ->
  (exists ip p, address_form (block_rule_address f b) ip p) /\
  (address_selects (block_rule_address f b) pkt = true <->
   f = Filter.family pkt /\ Blocks.mem (Blocks.width f) (Filter.destination pkt) b).
Proof.
  intros W. pose proof (Blocks.size_pos _ b W) as Hs. pose proof W as (Hp & Hb & _ & Htop).
  assert (Hf : ip_family (Blocks.block_address b f) = f) by (by destruct f).
  assert (Hip : ip_wf (Blocks.block_address b f) /\ ip_bits (Blocks.block_address b f) = Blocks.base b).
  { destruct f; cbn [ip_wf ip_bits Blocks.block_address Blocks.width] in *; [rewrite wrap_small by lia|];
      split; (done || lia). }
  destruct Hip as [Hip Hbits].
  assert (Ha : address_form (block_rule_address f b) (Blocks.block_address b f) (Blocks.prefix b)).
  { unfold block_rule_address. rewrite <- Hf at 1. constructor; [done|by rewrite Hf]. }
  split; [eauto|].
  rewrite (address_selects_form _ _ _ pkt Ha), Hf, Hbits, andb_true_iff, bool_decide_eq_true, Z.eqb_eq.
  by rewrite Blocks.mem_div by (done || apply Blocks.width_bounds).
Qed.

(** What a list of addresses must satisfy to stand for a set of destinations. *)
Definition addresses_for (sel : Filter.packet -> Prop) (addresses : list RuleAddress) : Prop :=
  Forall (fun a => exists ip p, address_form a ip p) addresses /\
  forall pkt, Filter.packet_wf pkt ->
    (exists a, a ∈ addresses /\ address_selects a pkt = true) <-> sel pkt.

Lemma lower_peer_spec budget p addresses addresses' :
  peer_wf p -> lower_peer budget p addresses = Ok addresses' ->
  exists new, addresses' = addresses ++ new /\ addresses_for (Egress.peer_selects p) new.
Proof.
  intros Hp H. unfold lower_peer in H. pose proof (proj1 Hp) as Hc.
  destruct (from_cidr (cidr p)) as [[f b]|] eqn:Hb; [|done]. cbn [mbind result_bind] in H.
  destruct (foldM (collect_except f) (except p) []) as [ex|] eqn:Hex; [|done]. cbn [mbind result_bind] in H.
  destruct (Blocks.resolve_spec _ _ _ Hc (from_cidr_resolve _ _ _ Hc Hb)) as [W _].
  destruct (collect_excepts _ _ _ _ (proj2 Hp) Hex) as (ex' & -> & Wex & _). cbn [app] in Hex.
  rewrite subtract_blocks_carve in H by (done || lia). cbv zeta in H.
  set (cs := Blocks.carve (Blocks.width f) (Z.to_nat (Blocks.width f)) b ex') in H.
  destruct (_ <=? _) in H; [|done]. cbn [mbind result_bind app] in H. destruct (_ <? _) in H; [done|].
  injection H as <-. exists (block_rule_address f <$> cs). split; [done|].
  assert (Wcs : Forall (Blocks.block_wf (Blocks.width f)) cs).
  { eapply Forall_impl; [apply Blocks.carve_wf|by intros ? [? _]];
      auto using Blocks.width_bounds, Blocks.levels_width. apply Blocks.levels_width; [done|apply Blocks.width_bounds]. }
  rewrite Forall_forall in Wcs. split.
  - apply Forall_fmap, Forall_forall. intros c Hcs.
    by apply (block_rule_address_spec f c (Filter.MkPacket f "" "" Filter.CtNew 0 Filter.ProtoTcp 0 0)), Wcs.
  - intros pkt Hpkt. unfold Egress.peer_selects.
    rewrite (Egress.resolve_family _ _ _ (from_cidr_resolve _ _ _ Hc Hb)).
    setoid_rewrite list_elem_of_fmap. split.
    + intros (a & (c & -> & Hin) & Hs).
      apply (block_rule_address_spec f c pkt (Wcs c Hin)) in Hs as [-> Hm]. split; [done|].
      apply (peer_survives p _ b ex'); [done..|].
      apply (Blocks.carve_covers _ (Blocks.width_bounds _) ex' Wex (Z.to_nat (Blocks.width (Filter.family pkt))));
        [done|apply Blocks.levels_width; [done|apply Blocks.width_bounds]|eauto].
    + intros [-> Hcov]. apply (peer_survives p _ b ex') in Hcov; [|done..].
      apply (Blocks.carve_covers _ (Blocks.width_bounds _) ex' Wex (Z.to_nat (Blocks.width (Filter.family pkt))))
        in Hcov as (c & Hin & Hm); [|done|apply Blocks.levels_width; [done|apply Blocks.width_bounds]].
      eexists. split; [by exists c|]. by apply block_rule_address_spec; [apply Wcs|].
Qed.

Definition some_peer_selects (peers : list NetworkPeer) (pkt : Filter.packet) : Prop :=
  exists p, p ∈ peers /\ Egress.peer_selects p pkt.

Lemma addresses_for_app s1 s2 l1 l2 :
  addresses_for s1 l1 -> addresses_for s2 l2 -> addresses_for (fun pkt => s1 pkt \/ s2 pkt) (l1 ++ l2).
Proof.
  intros [F1 S1] [F2 S2]. split; [by apply Forall_app|]. intros pkt Hpkt.
  rewrite <- S1, <- S2 by done. setoid_rewrite elem_of_app. naive_solver.
Qed.

Lemma addresses_for_iff s1 s2 l :
  (forall pkt, s1 pkt <-> s2 pkt) -> addresses_for s1 l -> addresses_for s2 l.
Proof. intros H [F S]. split; [done|]. intros pkt Hpkt. by rewrite S, H. Qed.

Lemma lower_peer_loop budget peers acc addresses :
  Forall peer_wf peers -> foldM (lower_peer budget) peers acc = Ok addresses ->
  exists new, addresses = acc ++ new /\ addresses_for (some_peer_selects peers) new.
Proof.
  intros Hp. revert acc. induction Hp as [|p peers Hp _ IH]; intros acc H.
  - injection H as <-. exists []. rewrite app_nil_r. split; [done|]. split; [constructor|].
    unfold some_peer_selects. set_solver.
  - cbn in H. apply bind_Ok in H as (acc1 & H1 & H).
    apply lower_peer_spec in H1 as (n1 & -> & A1); [|done]. apply IH in H as (n2 & -> & A2).
    exists (n1 ++ n2). rewrite <- app_assoc. split; [done|].
    eapply addresses_for_iff; [|by apply addresses_for_app].
    intros pkt. unfold some_peer_selects. setoid_rewrite elem_of_cons. naive_solver.
Qed.

Lemma any_address f : exists ip, address_form (any f) ip 0 /\ ip_family ip = f /\ ip_bits ip = 0.
Proof.
  destruct f; [exists (V4 0)|exists (V6 0)]; (split; [|done]).
  - apply (form_net (V4 0) 0); cbn; lia.
  - apply (form_net (V6 0) 0); cbn; lia.
Qed.

Lemma lower_peers_spec budget peers addresses :
  Forall peer_wf peers -> lower_peers peers budget = Ok addresses ->
  addresses_for (fun pkt => peers = [] \/ some_peer_selects peers pkt) addresses.
Proof.
  intros Hp H. unfold lower_peers in H. destruct peers as [|p peers]; cbn [is_empty] in H.
  - injection H as <-. split.
    + repeat constructor; (destruct (any_address FamilyV4) as (? & ? & _) || idtac);
        [destruct (any_address FamilyV4) as (? & ? & _)|destruct (any_address FamilyV6) as (? & ? & _)]; eauto.
    + intros pkt Hpkt. split; [by left|]. intros _. exists (any (Filter.family pkt)).
      split; [destruct (Filter.family pkt); set_solver|].
      destruct (any_address (Filter.family pkt)) as (ip & Ha & Hf & Hb).
      rewrite (address_selects_form _ _ _ _ Ha), Hf, Hb, bool_decide_eq_true_2 by done.
      unfold Filter.packet_wf in Hpkt. rewrite Z.sub_0_r, !Z.div_small by lia. done.
  - apply lower_peer_loop in H as (new & -> & A); [|done]. cbn [app].
    eapply addresses_for_iff; [|exact A]. naive_solver.
Qed.

Lemma port_specs_spec p specs pkt :
  port_wf p -> port_specs p = Ok specs ->
  Forall spec_ok specs /\
  ((exists s, s ∈ specs /\ spec_selects s pkt = true) <-> Egress.selector_selects p pkt = true).
Proof.
  intros [Hw1 Hw2] H. unfold port_specs in H. destruct (_ || _) in H; [done|].
  apply bind_Ok in H as (r & Hr & H).
  assert (Hrange : match r with
    | None => port p = None
    | Some (start, stop) => port p = Some start /\ default start (end_port p) = stop /\
        0 <= start <= stop /\ stop <= u16_max
    end).
  { destruct (port p) as [start|], (end_port p) as [stop|]; [|injection Hr as <-| |].
    - destruct (Z.ltb_spec stop start); [done|]. injection Hr as <-.
      specialize (Hw1 start eq_refl). specialize (Hw2 stop eq_refl). split_and!; (done || lia).
    - specialize (Hw1 start eq_refl). split_and!; (done || cbn; lia).
    - done.
    - by injection Hr as <-. }
  unfold Egress.selector_selects, Egress.port_selects, spec_selects.
  destruct r as [[start stop]|]; [destruct Hrange as (E1 & E2 & Hle)|rename Hrange into E1]; rewrite E1;
    [rewrite E2|]; destruct (protocol p); cbn [bool_decide] in H; try done; injection H as <-;
    (split; [repeat constructor; (done || set_solver)|]);
    unfold Filter.has_ports; destruct (Filter.transport pkt); set_solver.
Qed.

Lemma lower_ports_spec ps specs pkt :
  Forall port_wf ps -> lower_ports ps = Ok specs ->
  Forall spec_ok specs /\
  ((exists s, s ∈ specs /\ spec_selects s pkt = true) <->
   ps = [] \/ exists p, p ∈ ps /\ Egress.selector_selects p pkt = true).
Proof.
  intros Hw H. unfold lower_ports in H. destruct ps as [|p0 ps]; cbn [is_empty] in H.
  { injection H as <-. split; [by repeat constructor|]. split; [by left|].
    intros _. exists ALL. split; [set_solver|done]. }
  rewrite foldM_collect in H. apply fmap_Ok in H as (l & H & ->). cbn [app].
  apply mapM_join_elem in H as [Hall Hl]. rewrite Forall_forall in Hw.
  assert (Hspec : forall p ss, p ∈ p0 :: ps -> port_specs p = Ok ss -> Forall spec_ok ss /\
    ((exists s, s ∈ ss /\ spec_selects s pkt = true) <-> Egress.selector_selects p pkt = true)).
  { intros p ss Hin E. apply port_specs_spec; [by apply Hw|done]. }
  split.
  - apply Forall_forall. intros s (p & ss & Hin & E & Hs)%Hl.
    destruct (Hspec p ss Hin E) as [F _]. rewrite Forall_forall in F. by apply F.
  - split.
    + intros (s & Hs & Hsel). apply Hl in Hs as (p & ss & Hin & E & Hs). right. exists p. split; [done|].
      apply (Hspec p ss Hin E). eauto.
    + intros [?|(p & Hin & Hsel)]; [done|]. destruct (Hall p Hin) as [ss E].
      destruct (proj2 (proj2 (Hspec p ss Hin E)) Hsel) as (s & Hs1 & Hs2). exists s. split; [|done]. apply Hl. eauto.
Qed.

(** Rules that stand for a set of packets with one verdict. *)
Definition rules_for (v : RuleVerdict) (sel : Filter.packet -> Prop) (rs : list EgressRule) : Prop :=
  Forall rule_ok rs /\ Forall (fun r => verdict r = v) rs /\
  forall pkt, Filter.packet_wf pkt -> existsb (egress_rule_selects pkt) rs = true <-> sel pkt.

Lemma lower_rule_spec v rule out out' :
  rule_wf rule -> lower_rule v rule out = Ok out' ->
  exists new, out' = out ++ new /\ rules_for v (Egress.rule_selects rule) new.
Proof.
  intros [Hpw Hw] H. unfold lower_rule in H. apply bind_Ok in H as (addresses & Ha & H).
  apply bind_Ok in H as (specs & Hs & H). destruct (_ || _) in H; [done|]. injection H as <-.
  eexists. split; [done|]. apply lower_peers_spec in Ha as [Fa Sa]; [|done].
  assert (Hin : forall r, r ∈ (addresses ≫= fun a => (fun s => MkEgressRule v a s) <$> specs) <->
    exists a s, a ∈ addresses /\ s ∈ specs /\ r = MkEgressRule v a s).
  { intros r. rewrite list_elem_of_bind. setoid_rewrite list_elem_of_fmap. naive_solver. }
  set (pkt0 := Filter.MkPacket FamilyV4 "" "" Filter.CtNew 0 Filter.ProtoTcp 0 0).
  destruct (lower_ports_spec _ _ pkt0 Hw Hs) as [Fs _]. rewrite Forall_forall in Fa. rewrite Forall_forall in Fs. split_and!.
  - apply Forall_forall. intros r (a & s & Hia & His & ->)%Hin. split; [by apply Fa|by apply Fs].
  - apply Forall_forall. by intros r (a & s & _ & _ & ->)%Hin.
  - intros pkt Hpkt. unfold Egress.rule_selects. fold (some_peer_selects (to rule) pkt).
    rewrite existsb_elem, <- (Sa pkt Hpkt), <- (proj2 (lower_ports_spec _ _ pkt Hw Hs)).
    setoid_rewrite Hin. unfold egress_rule_selects. split.
    + intros (r & (a & s & Hia & His & ->) & [H1 H2]%andb_true_iff). eauto 10.
    + intros [(a & Hia & H1) (s & His & H2)]. exists (MkEgressRule v a s).
      split; [eauto|]. by apply andb_true_iff.
Qed.

Lemma rules_for_app v s1 s2 l1 l2 :
  rules_for v s1 l1 -> rules_for v s2 l2 -> rules_for v (fun pkt => s1 pkt \/ s2 pkt) (l1 ++ l2).
Proof.
  intros (O1 & V1 & S1) (O2 & V2 & S2). split_and!; [by apply Forall_app..|].
  intros pkt Hpkt. by rewrite existsb_app, orb_true_iff, S1, S2.
Qed.

Lemma lower_rules_spec v rs out out' :
  Forall rule_wf rs -> foldM (lower_rule v) rs out = Ok out' ->
  exists new, out' = out ++ new /\ rules_for v (Egress.some_rule_selects rs) new.
Proof.
  intros Hw. revert out. induction Hw as [|rule rs Hr _ IH]; intros out H.
  - injection H as <-. exists []. rewrite app_nil_r. split; [done|]. split_and!; [constructor..|].
    intros pkt _. unfold Egress.some_rule_selects. set_solver.
  - cbn in H. apply bind_Ok in H as (out1 & H1 & H).
    apply lower_rule_spec in H1 as (n1 & -> & R1); [|done]. apply IH in H as (n2 & -> & R2).
    exists (n1 ++ n2). rewrite <- app_assoc. split; [done|].
    destruct (rules_for_app _ _ _ _ _ R1 R2) as (? & ? & S). split_and!; [done..|].
    intros pkt Hpkt. rewrite S by done. unfold Egress.some_rule_selects.
    setoid_rewrite elem_of_cons. naive_solver.
Qed.

(** ** The egress chain *)

(** Traffic to the host's loopback through the gateway, which an ingress section
    without [hostLoopback] closes. *)
Definition host_loopback_action (p : ContainerPolicy) : NetworkAction :=
  match network_ingress p with Some ingress => host_loopback ingress | None => Deny end.

Definition gateway_closed (action : NetworkAction) (pkt : Filter.packet) : bool :=
  bool_decide (action = Deny) && bool_decide (Filter.family pkt = FamilyV4) &&
  (Filter.destination pkt =? SLIRP_HOST_GATEWAY_IP).

Lemma gateway_rule pkt :
  let r := MkEgressRule Drop (from_block FamilyV4 (V4 SLIRP_HOST_GATEWAY_IP) 32) ALL in
  rule_ok r /\ egress_rule_selects pkt r = gateway_closed Deny pkt.
Proof.
  assert (Ha : address_form (from_block FamilyV4 (V4 SLIRP_HOST_GATEWAY_IP) 32) (V4 SLIRP_HOST_GATEWAY_IP) 32)
    by (apply (form_net (V4 _)); cbn; unfold SLIRP_HOST_GATEWAY_IP; lia).
  cbv zeta. split; [by split; [eauto|]|]. unfold egress_rule_selects, gateway_closed. cbn [rule_address rule_port].
  rewrite (address_selects_form _ _ _ _ Ha). cbn [ip_family ip_bits Blocks.width spec_selects].
  change (32 - 32) with 0. rewrite !Z.div_1_r, andb_true_r.
  rewrite (bool_decide_ext (FamilyV4 = Filter.family pkt) (Filter.family pkt = FamilyV4)) by done. done.
Qed.

Lemma egress_chain_lines_verdict plan pkt :
  Forall rule_ok (rules plan) ->
  Filter.chain_verdict (words <$> egress_chain_lines plan (Filter.family pkt)) pkt =
  Some (if bool_decide (Filter.out_interface pkt = "lo") then Filter.Accept
        else filter_verdict (default
          match Filter.family pkt with FamilyV4 => v4_terminal plan | FamilyV6 => v6_terminal plan end
          (first_match pkt (rules plan)))).
Proof.
  intros Hok. unfold egress_chain_lines. fold (family_lines (Filter.family pkt) (rules plan)).
  set (t := match Filter.family pkt with FamilyV4 => _ | FamilyV6 => _ end).
  rewrite !fmap_app, !Filter.chain_verdict_app, family_lines_verdict by done.
  assert (Ht : Filter.chain_verdict (words <$> ["-j " +:+ target t]) pkt = Some (filter_verdict t))
    by (by destruct t). rewrite Ht.
  assert (Hlo : Filter.chain_verdict (words <$> ["-o lo -j ACCEPT"]) pkt =
    Some (if bool_decide (Filter.out_interface pkt = "lo") then Filter.Accept else Filter.Return)).
  { change (words <$> ["-o lo -j ACCEPT"]) with [["-o"; "lo"; "-j"; "ACCEPT"]].
    cbn [Filter.chain_verdict]. rewrite Filter.rule_matches_option, Filter.rule_matches_target,
      Filter.out_interface_option by done. cbn -[bool_decide]. by rewrite andb_true_r. }
  rewrite Hlo. cbn [mbind option_bind]. destruct (bool_decide _); [done|].
  by destruct (first_match pkt (rules plan)) as [[]|], t.
Qed.

(** A directional plan: the gateway rule, the denies, the allows. *)
Lemma directional_rules egress action plan :
  egress_wf egress -> for_directional_policy_with_ingress egress action = Ok plan ->
  let terminal := match egress_default egress with Allow => Accept | Deny => Drop end in
  exists gateway denies allows,
    plan = MkPlan (gateway ++ denies ++ allows) terminal terminal /\
    rules_for Drop (fun pkt => gateway_closed action pkt = true) gateway /\
    rules_for Drop (Egress.some_rule_selects (deny egress)) denies /\
    rules_for Accept (Egress.some_rule_selects (allow egress)) allows.
Proof.
  intros [Ha Hd] H. unfold for_directional_policy_with_ingress in H. cbv zeta in H.
  set (gw := if decide (action = Deny) then _ else _) in H.
  apply bind_Ok in H as (r1 & H1 & H). apply bind_Ok in H as (r2 & H2 & [= <-]).
  apply lower_rules_spec in H1 as (denies & -> & R1); [|done].
  apply lower_rules_spec in H2 as (allows & -> & R2); [|done].
  exists gw, denies, allows. rewrite app_assoc. split_and!; try done.
  unfold gw. case_decide as Hact; subst.
  - split_and!; [repeat constructor; by apply (gateway_rule (Filter.MkPacket FamilyV4 "" "" Filter.CtNew 0 Filter.ProtoTcp 0 0))
      |by repeat constructor|].
    intros pkt _. cbn [existsb]. by rewrite (proj2 (gateway_rule pkt)), orb_false_r.
  - split_and!; [constructor..|]. intros pkt _. unfold gateway_closed.
    by rewrite bool_decide_eq_false_2.
Qed.

Lemma directional_rules_ok egress action plan :
  egress_wf egress -> for_directional_policy_with_ingress egress action = Ok plan ->
  Forall rule_ok (rules plan).
Proof.
  intros Hw H. destruct (directional_rules _ _ _ Hw H) as (g & d & a & -> & (? & _) & (? & _) & (? & _)).
  cbn [rules]. by repeat (apply Forall_app; split).
Qed.

(** The plan's decision, loopback aside. *)
Lemma directional_first_match egress action plan pkt :
  egress_wf egress -> for_directional_policy_with_ingress egress action = Ok plan -> Filter.packet_wf pkt ->
  v4_terminal plan = v6_terminal plan /\
  (default (v4_terminal plan) (first_match pkt (rules plan)) = Accept <->
   gateway_closed action pkt = false /\ Egress.permits egress pkt).
Proof.
  intros Hw H Hpkt.
  destruct (directional_rules _ _ _ Hw H) as (g & d & a & -> & (_ & Vg & Sg) & (_ & Vd & Sd) & (_ & Va & Sa)).
  cbn [v4_terminal v6_terminal rules]. split; [done|].
  rewrite !first_match_app, (first_match_uniform _ _ _ Vg), (first_match_uniform _ _ _ Vd),
    (first_match_uniform _ _ _ Va).
  unfold Egress.permits. rewrite <- (Sd pkt Hpkt), <- (Sa pkt Hpkt).
  specialize (Sg pkt Hpkt). rewrite <- not_true_iff_false, <- Sg.
  destruct (existsb _ g), (existsb _ d), (existsb _ a), (egress_default egress); cbn; naive_solver.
Qed.

Definition request_egress (request : ExecutionRequest) : NetworkEgressPolicy :=
  default NetworkEgressPolicy_default (network_egress (policy request)).

Lemma request_permits request pkt :
  Egress.permits (request_egress request) pkt <-> Egress.policy_permits (policy request) pkt.
Proof.
  unfold request_egress, Egress.policy_permits. destruct (network_egress (policy request)); [done|].
  cbn. unfold Egress.permits, Egress.some_rule_selects. cbn. set_solver.
Qed.

(** C12. The egress chain of a directional plan decides every packet as the policy
    does.  Its lines read back as rules, and the chain accepts a packet exactly
    when it leaves on loopback, or the egress policy permits it and it is not
    addressed to the host's loopback gateway while [hostLoopback] is denied.
    Every other packet is dropped; none falls through.  Ports and prefixes only
    have to fit their types: what the filter cannot express is refused. *)
Theorem bwrap_chain_decides (request : ExecutionRequest) (plan : EgressPlan) (pkt : Filter.packet) :
  egress_wf (request_egress request) -> for_request request = Ok plan -> Filter.packet_wf pkt ->
  exists v,
    Filter.chain_verdict (words <$> egress_chain_lines plan (Filter.family pkt)) pkt = Some v /\
    (v = Filter.Accept \/ v = Filter.Drop) /\
    (v = Filter.Accept <->
       Filter.out_interface pkt = "lo" \/
       gateway_closed (host_loopback_action (policy request)) pkt = false /\
       Egress.policy_permits (policy request) pkt).
Proof.
  intros Hw H Hpkt. unfold for_request in H. fold (request_egress request) in H.
  fold (host_loopback_action (policy request)) in H.
  destruct (directional_first_match _ _ _ pkt Hw H Hpkt) as [Ht Hd].
  rewrite egress_chain_lines_verdict by (by eapply directional_rules_ok).
  replace (match Filter.family pkt with FamilyV4 => _ | FamilyV6 => _ end) with (v4_terminal plan)
    by (rewrite <- Ht; by destruct (Filter.family pkt)).
  eexists. split; [done|]. rewrite <- request_permits, <- Hd.
  case_bool_decide; [naive_solver|]. destruct (default _ _); cbn; naive_solver.
Qed.

(** ** The diagnostic [admits] *)

Lemma mask32 x k :
  0 <= x < 2 ^ 32 -> 0 <= k < 32 -> Z.land x (wrap 32 (Z.shiftl u32_max k)) = x - x mod 2 ^ k.
Proof.
  intros Hx Hk.
  assert (H : forallb (fun n => wrap 32 (Z.shiftl u32_max (Z.of_nat n)) =?
      Z.land u32_max (u128_not (2 ^ Z.of_nat n - 1))) (seq 0 32) = true) by (vm_compute; reflexivity).
  rewrite forallb_forall in H. specialize (H (Z.to_nat k)).
  rewrite in_seq, Z.eqb_eq, Z2Nat.id in H by lia. rewrite H by lia.
  rewrite Z.land_assoc. change u32_max with (Z.ones 32). rewrite Z.land_ones, Z.mod_small by lia.
  apply land_not_ones; lia.
Qed.

Lemma parse_u8_dec p : 0 <= p <= u8_max -> parse_u8 (dec p) = Some p.
Proof.
  intros Hp. unfold parse_u8.
  assert (E : strip_prefix_char "+" (dec p) = None).
  { pose proof (dec_digits p) as Hd. unfold strip_prefix_char. destruct (dec p) as [|c s]; [done|].
    cbn in Hd. case_decide; [by subst|done]. }
  rewrite E. cbn [default]. rewrite decide_False by apply dec_nonempty.
  rewrite parse_digits_dec by lia. cbn. by destruct (Z.leb_spec p u8_max); [|lia].
Qed.

Lemma contains_v4_form a ip p x :
  address_form a ip p -> family a = FamilyV4 -> 0 <= x < 2 ^ 32 ->
  contains_v4 a x = (x / 2 ^ (32 - p) =? ip_bits ip / 2 ^ (32 - p)).
Proof.
  intros Ha Hf Hx. pose proof (address_form_bounds _ _ _ Ha) as [Hip Hp].
  rewrite (address_form_family _ _ _ Ha) in Hf. destruct ip as [ip|]; [|done]. cbn in Hip, Hp.
  unfold contains_v4. rewrite (address_form_family _ _ _ Ha), bool_decide_eq_true_2 by done.
  cbn [negb].
  assert (Hparts : match split_once "/" (text a) with
      | Some (base, prefix) =>
          match parse_u8 prefix with
          | Some prefix => if prefix <=? 32 then Some (base, prefix) else None
          | None => None
          end
      | None => Some (text a, 32)
      end = Some (ipv4_text ip, p)).
  { inversion Ha; subst; cbn [from_block text ip_text].
    - change (ipv4_text ip) with (ip_text (V4 ip)).
      change ("/" +:+ dec p) with (String "/" (dec p)).
      rewrite split_once_make, parse_u8_dec by (apply Filter.ip_text_no_slash || (unfold u8_max; lia)).
      by destruct (Z.leb_spec p 32); [|lia].
    - by rewrite split_once_lacks by apply (Filter.ip_text_no_slash (V4 ip)). }
  rewrite Hparts, parse_ipv4_text by done. cbn [ip_bits].
  destruct (Z.eqb_spec p 0) as [->|Hne].
  - rewrite !Z.land_0_r, Z.sub_0_r, !Z.div_small by done. done.
  - rewrite !mask32 by lia. apply Bool.eq_iff_eq_true. rewrite !Z.eqb_eq.
    pose proof (pow2_pos (32 - p)). rewrite (sub_mod_div ip x) by lia. split; congruence.
Qed.

Lemma rule_applies_selects protocol pkt r :
  rule_ok r -> Filter.family pkt = FamilyV4 -> Filter.packet_wf pkt ->
  Filter.read_protocol FamilyV4 protocol = Some (Filter.transport pkt) ->
  rule_applies protocol (Filter.destination pkt) (Filter.destination_port pkt) r = egress_rule_selects pkt r.
Proof.
  intros [(ip & p & Ha) Hs] Hf Hpkt Hproto. unfold Filter.packet_wf in Hpkt. rewrite Hf in Hpkt.
  unfold rule_applies, egress_rule_selects. rewrite (address_selects_form _ _ _ pkt Ha), Hf.
  case_bool_decide as Hfam; rewrite (address_form_family _ _ _ Ha) in Hfam; cbn [negb].
  2:{ by rewrite bool_decide_eq_false_2. }
  rewrite bool_decide_eq_true_2, (contains_v4_form _ _ _ _ Ha)
    by (done || by rewrite (address_form_family _ _ _ Ha)).
  rewrite Hfam. cbn [Blocks.width]. rewrite andb_true_l.
  set (m := _ =? _). unfold spec_selects, spec_ok in *.
  destruct (spec_protocol (rule_port r)) as [named|]; cbn [is_some_and].
  2:{ rewrite Hs. cbn. by rewrite andb_true_r. }
  assert (Hn : bool_decide (Filter.read_protocol FamilyV4 named = Some (Filter.transport pkt)) =
    bool_decide (named = protocol)).
  { assert (Hin : named ∈ ["tcp"; "udp"; "icmp"])
      by (destruct (range (rule_port r)) as [[? ?]|]; [destruct Hs as [Hs _]|]; set_solver).
    apply bool_decide_ext. split; [|by intros ->]. intros Hnamed. revert Hproto Hnamed.
    unfold Filter.read_protocol. set_unfold in Hin.
    destruct_or! Hin; subst named; repeat case_decide; simplify_eq; cbn; congruence. }
  rewrite Hn. destruct (decide (named = protocol));
    [rewrite !bool_decide_eq_true_2 by done|rewrite !bool_decide_eq_false_2 by done; by destruct m].
  cbn [negb].
  destruct (range (rule_port r)) as [[start stop]|]; cbn [is_some_and]; [|by rewrite andb_true_r].
  rewrite andb_true_l.
  destruct (Z.ltb_spec (Filter.destination_port pkt) start), (Z.ltb_spec stop (Filter.destination_port pkt)),
    (Z.leb_spec start (Filter.destination_port pkt)), (Z.leb_spec (Filter.destination_port pkt) stop);
    try lia; cbn; by rewrite ?andb_true_r, ?andb_false_r.
Qed.

(** The plans the backend builds. *)
Inductive built : EgressPlan -> Prop :=
| built_request request plan :
    egress_wf (request_egress request) -> for_request request = Ok plan -> built plan
| built_proxy ip port :
    0 <= ip < 2 ^ 32 -> 0 <= port <= u16_max -> built (for_proxy ip port).

Lemma built_rules_ok plan : built plan -> Forall rule_ok (rules plan).
Proof.
  intros [request plan' Hw H|ip port Hip Hport].
  - by eapply directional_rules_ok.
  - repeat constructor; cbn; [|set_solver|lia..]. eexists _, _. by constructor.
Qed.

(** The diagnostic [admits] predicts the installed chain: for an IPv4 packet
    that does not leave on loopback, it answers yes exactly when the egress
    chain accepts the packet. *)
Theorem admits_predicts_chain (plan : EgressPlan) (protocol : string) (pkt : Filter.packet) :
  built plan -> Filter.family pkt = FamilyV4 -> Filter.packet_wf pkt ->
  Filter.out_interface pkt <> "lo" ->
  Filter.read_protocol FamilyV4 protocol = Some (Filter.transport pkt) ->
  admits plan protocol (Filter.destination pkt) (Filter.destination_port pkt) = true <->
  Filter.chain_verdict (words <$> egress_chain_lines plan FamilyV4) pkt = Some Filter.Accept.
Proof.
  intros Hb%built_rules_ok Hf Hpkt Hlo Hp. rewrite <- Hf.
  rewrite egress_chain_lines_verdict, bool_decide_eq_false_2, Hf by done.
  assert (Hfind : List.find (rule_applies protocol (Filter.destination pkt) (Filter.destination_port pkt)) (rules plan) =
    List.find (egress_rule_selects pkt) (rules plan)).
  { induction Hb as [|r rs Hr _ IH]; [done|]. cbn [List.find].
    by rewrite rule_applies_selects, IH. }
  unfold admits, first_match. rewrite Hfind, bool_decide_eq_true. clear Hfind.
  destruct (List.find _ _) as [r|]; simpl;
    [destruct (verdict r)|destruct (v4_terminal plan)]; simpl; split; done.
Qed.

(** ** The unreachable-destination warning *)

(** The targets named are the IPv6 destinations of the accept rules, each once. *)
Lemma allowed_v6_targets_spec plan :
  NoDup (allowed_v6_targets plan) /\
  forall t, t ∈ allowed_v6_targets plan <->
    exists r, r ∈ rules plan /\ verdict r = Accept /\ family (rule_address r) = FamilyV6 /\
      text (rule_address r) = t.
Proof.
  unfold allowed_v6_targets.
  assert (H : forall rs ts seen, NoDup ts -> (forall t, t ∈ ts <-> t ∈ seen) ->
    let ts' := (foldl push_v6_target (ts, seen) rs).1 in
    NoDup ts' /\ forall t, t ∈ ts' <-> t ∈ ts \/ exists r, r ∈ rs /\ verdict r = Accept /\
      family (rule_address r) = FamilyV6 /\ text (rule_address r) = t).
  { induction rs as [|r rs IH]; intros ts seen Hnd Hseen; [cbn; set_solver|]. cbv zeta. cbn [foldl].
    unfold push_v6_target at 2 4. set (t0 := text (rule_address r)).
    destruct (_ && _) eqn:E.
    - rewrite !andb_true_iff, !bool_decide_eq_true in E. destruct E as [[Hv Hf] Hn].
      destruct (IH (ts ++ [t0]) ({[t0]} ∪ seen)) as [H1 H2].
      { apply NoDup_app. split_and!; [done|set_solver|apply NoDup_singleton]. }
      { intros t. set_solver. }
      split; [done|]. intros t. rewrite H2. set_solver.
    - destruct (IH ts seen Hnd Hseen) as [H1 H2]. split; [done|]. intros t. rewrite H2.
      split; [set_solver|]. intros [?|(r' & [->|Hr']%elem_of_cons & Hv & Hf & <-)]; [by left| |set_solver].
      left. apply Hseen. destruct (decide (t0 ∈ seen)) as [|Hn]; [done|].
      by rewrite !bool_decide_eq_true_2 in E. }
  destruct (H (rules plan) [] ∅) as [H1 H2]; [constructor|set_solver|]. split; [done|].
  intros t. rewrite H2. set_solver.
Qed.

(** ** Witnesses *)

(** Everything but [10.1.0.0/16], with UDP port 53 closed everywhere. *)
Definition example_egress : NetworkEgressPolicy :=
  MkEgress Deny
    [MkRule [MkPeer (MkCidr (V4 0) 0) [MkCidr (V4 0x0a010000) 16]] []]
    [MkRule [] [MkPort Udp (Some 53) None]].

Definition example_request : ExecutionRequest :=
  with_policy ExecutionRequest_default
    (with_network ContainerPolicy_default (Some example_egress) None None ProxyConfig_default true true false).

Lemma example_egress_wf : egress_wf (request_egress example_request).
Proof.
  change (request_egress example_request) with example_egress.
  repeat first [apply Forall_nil_2 | apply Forall_cons_2 | split];
    unfold u8_max, u16_max; cbn in *; simplify_eq; lia.
Qed.

Definition example_packet : Filter.packet :=
  Filter.MkPacket FamilyV4 "" "tap0" Filter.CtNew 0x0a020304 Filter.ProtoTcp 443 0.

Lemma bwrap_chain_decides_witness :
  exists plan v, for_request example_request = Ok plan /\
    Filter.chain_verdict (words <$> egress_chain_lines plan FamilyV4) example_packet = Some v.
Proof.
  destruct (for_request example_request) as [plan|e] eqn:E; [|vm_compute in E; discriminate E].
  destruct (bwrap_chain_decides example_request plan example_packet) as (v & Hv & _).
  - exact example_egress_wf.
  - exact E.
  - unfold Filter.packet_wf. cbn. lia.
  - exists plan, v. split; [reflexivity|exact Hv].
Defined.

Lemma admits_predicts_chain_witness :
  admits (for_proxy 0x0a020304 443) "tcp" 0x0a020304 443 = true <->
  Filter.chain_verdict (words <$> egress_chain_lines (for_proxy 0x0a020304 443) FamilyV4) example_packet =
    Some Filter.Accept.
Proof.
  apply (admits_predicts_chain (for_proxy 0x0a020304 443) "tcp" example_packet);
    [constructor; unfold u16_max; lia|reflexivity|unfold Filter.packet_wf; cbn; lia|discriminate|reflexivity].
Defined.

End Bwrap.
