(* ===== verification/BwrapPayloads.v ===== *)
(** * Bubblewrap restore payloads

    How [iptables-restore] reads the payloads of
    [backends/bubblewrap/common/network_rules.rs], and what follows: the split
    over several transactions installs the two chains whole, hooks them last,
    stays within the transaction budget, and its files sort in the order they
    are applied. *)

From Stdlib Require Import Ascii.
From stdpp Require Import gmap.
From S2P Require Import Prelude NetText Models Requests NetworkBlocks Netfilter EgressSpec BwrapRules.

Module Payloads.

Import Blocks (IpFamily, FamilyV4, FamilyV6).
Import Bwrap.

(** ** What the restore program does with a payload *)

(** The chains of a filter table. *)
Abbreviation tables := (gmap string (list (list string))).

(** One line of a transaction: [:chain - [0:0]] creates the chain or empties it,
    [-A chain rule] appends to an existing one. *)
Definition restore_line (line : string) (t : tables) : option tables :=
  match words line with
  | [String ":"%char c; dash; counters] =>
      if decide (dash = "-" /\ counters = "[0:0]") then Some (<[c := []]> t) else None
  | op :: c :: spec =>
      if decide (op = "-A") then rs ← t !! c; Some (<[c := rs ++ [spec]]> t) else None
  | _ => None
  end.

Fixpoint restore_lines (ls : list string) (t : tables) : option tables :=
  match ls with
  | [] => Some t
  | l :: ls => t ← restore_line l t; restore_lines ls t
  end.

(** The lines of a transaction that ends in [COMMIT]. *)
Fixpoint transaction (ls : list string) : option (list string) :=
  match ls with
  | [] => None
  | l :: ls' => if decide (ls = ["COMMIT"; ""]) then Some [] else cons l <$> transaction ls'
  end.

(** [iptables-restore -n] on a payload: one transaction on the filter table. *)
Definition restore (payload : string) (t : tables) : option tables :=
  match string_split (ascii_of_nat 10) payload with
  | w :: ls => if decide (w = "*filter") then ls ← transaction ls; restore_lines ls t else None
  | [] => None
  end.

Fixpoint restore_all (ps : list string) (t : tables) : option tables :=
  match ps with
  | [] => Some t
  | p :: ps => t ← restore p t; restore_all ps t
  end.

Lemma restore_lines_app l1 l2 t :
  restore_lines (l1 ++ l2) t = restore_lines l1 t ≫= restore_lines l2.
Proof.
  revert t. induction l1 as [|l l1 IH]; intros t; [done|]. cbn.
  destruct (restore_line l t); cbn; [apply IH|done].
Qed.

Definition text_of (ls : list string) : string := string_concat ((fun l => l +:+ newline) <$> ls).

Definition payload_text (ls : list string) : string := FILTER +:+ text_of ls +:+ COMMIT.

Definition one_line (l : string) : Prop := lacks (ascii_of_nat 10) l = true.

Lemma text_of_app l1 l2 : text_of (l1 ++ l2) = text_of l1 +:+ text_of l2.
Proof. unfold text_of. by rewrite fmap_app, string_concat_app. Qed.

Lemma text_of_split ls rest :
  Forall one_line ls ->
  string_split (ascii_of_nat 10) (text_of ls +:+ rest) = ls ++ string_split (ascii_of_nat 10) rest.
Proof.
  induction 1 as [|l ls Hl _ IH]; [done|].
  change (text_of (l :: ls)) with ((l +:+ String (ascii_of_nat 10) "") +:+ text_of ls).
  rewrite !string_app_assoc.
  change (String (ascii_of_nat 10) "" +:+ ?x) with (String (ascii_of_nat 10) x).
  by rewrite string_split_cons, IH.
Qed.

Lemma transaction_commit ls : transaction (ls ++ ["COMMIT"; ""]) = Some ls.
Proof.
  induction ls as [|l ls IH]; [done|]. cbn [app transaction]. rewrite decide_False, IH; [done|].
  intros [= -> E]. apply (f_equal length) in E. rewrite length_app in E. cbn in E. lia.
Qed.

Lemma restore_payload_text ls t :
  Forall one_line ls -> restore (payload_text ls) t = restore_lines ls t.
Proof.
  intros Hl. unfold restore, payload_text, FILTER, COMMIT, newline. rewrite string_app_assoc.
  change (String (ascii_of_nat 10) "" +:+ ?x) with (String (ascii_of_nat 10) x).
  rewrite string_split_cons, text_of_split by done.
  change (string_split (ascii_of_nat 10) ("COMMIT" +:+ String (ascii_of_nat 10) "")) with ["COMMIT"; ""].
  by rewrite decide_True, transaction_commit.
Qed.

Lemma restore_all_payloads lss t :
  Forall (Forall one_line) lss -> restore_all (payload_text <$> lss) t = restore_lines (mjoin lss) t.
Proof.
  intros H. revert t. induction H as [|ls lss Hl _ IH]; intros t; [done|]. cbn.
  rewrite restore_payload_text, restore_lines_app by done.
  destruct (restore_lines ls t); cbn; [apply IH|done].
Qed.

(** ** The payloads as lists of lines *)

Definition declaration_line (c : string) : string := ":" +:+ c +:+ " - [0:0]".
Definition hook_line (hook c : string) : string := "-A " +:+ hook +:+ " -j " +:+ c.
Definition rule_line (c line : string) : string := "-A " +:+ c +:+ " " +:+ line.

Section Render.
Context (egress : EgressPlan) (ingress : IngressPlan) (f : IpFamily) (eg inn : string).

Definition declaration_lines : list string := [declaration_line eg; declaration_line inn].
Definition hook_lines : list string := [hook_line "OUTPUT" eg; hook_line "INPUT" inn].
Definition body_lines : list string :=
  (rule_line eg <$> egress_chain_lines egress f) ++ (rule_line inn <$> ingress_chain_lines ingress f).

(** The state of the loop after some lines of the body: the closed payloads and
    the current one hold the declarations and those lines, in order. *)
Definition holds (st : payload_state) (ls : list string) : Prop :=
  exists closed cur,
    payloads st = payload_text <$> closed /\ current st = FILTER +:+ text_of cur /\
    mjoin closed ++ cur = declaration_lines ++ ls.

Lemma close_holds st ls : holds st ls -> holds (close_payload st) ls.
Proof.
  intros (closed & cur & Hp & Hc & E). exists (closed ++ [cur]), []. cbn [close_payload payloads current].
  split_and!.
  - rewrite Hp, Hc, fmap_app. unfold payload_text. by rewrite string_app_assoc.
  - done.
  - unfold mjoin in *. by rewrite app_nil_r, <- E, join_app; cbn; rewrite app_nil_r.
Qed.

Lemma push_holds st ls l : holds st ls -> holds (push_line st (l +:+ newline)) (ls ++ [l]).
Proof.
  intros H. unfold push_line. set (st' := if over_budget _ _ then _ else _).
  assert (holds st' ls) as (closed & cur & Hp & Hc & E)
    by (unfold st'; case_match; [by apply close_holds|done]).
  exists closed, (cur ++ [l]). cbn [payloads current]. split_and!; [done| |].
  - rewrite Hc, text_of_app, !string_app_assoc. change (text_of [l]) with ((l +:+ newline) +:+ "").
    by rewrite string_app_nil_r.
  - by rewrite !app_assoc, E.
Qed.

Lemma push_all_holds ls st ls0 :
  holds st ls0 -> holds (foldl push_line st ((fun l => l +:+ newline) <$> ls)) (ls0 ++ ls).
Proof.
  revert st ls0. induction ls as [|l ls IH]; intros st ls0 H; [by rewrite app_nil_r|].
  cbn [fmap list_fmap foldl]. replace (ls0 ++ l :: ls) with ((ls0 ++ [l]) ++ ls) by (by rewrite <- app_assoc).
  by apply IH, push_holds.
Qed.

(** The loop of the source, on the lines. *)
Definition initial_state : payload_state := MkPayload [] (FILTER +:+ text_of declaration_lines) 0.
Definition final_state : payload_state :=
  let st := foldl push_line initial_state ((fun l => l +:+ newline) <$> body_lines) in
  if over_budget st (text_of hook_lines) then close_payload st else st.

Lemma render_final :
  render_filter_payloads egress ingress f eg inn =
  payloads final_state ++ [current final_state +:+ text_of hook_lines +:+ COMMIT].
Proof.
  unfold render_filter_payloads, final_state, initial_state, body_lines, text_of, string_concat,
    declaration_lines, hook_lines, declaration_line, hook_line, rule_line. cbv zeta.
  cbn [mbind list_bind section_chain section_hook lines fmap list_fmap foldr].
  rewrite !fmap_app, <- !list_fmap_compose, app_nil_r.
  assert (E : forall c (ls : list string), (fun line => "-A " +:+ c +:+ " " +:+ line +:+ newline) <$> ls =
    (fun l => l +:+ newline) ∘ (fun line => "-A " +:+ c +:+ " " +:+ line) <$> ls).
  { intros c ls. apply list_fmap_ext. intros _ l _. cbn. by rewrite !string_app_assoc. }
  rewrite !E, !string_app_assoc. done.
Qed.

(** The rendered payloads: declarations first, then the body in order, cut
    anywhere, and the hooks at the end of the last. *)
Lemma render_lines :
  exists closed last,
    render_filter_payloads egress ingress f eg inn = payload_text <$> (closed ++ [last ++ hook_lines]) /\
    mjoin closed ++ last = declaration_lines ++ body_lines.
Proof.
  assert (holds final_state body_lines) as (closed & cur & Hp & Hc & E).
  { assert (H0 : holds initial_state []).
    { exists [], declaration_lines. by rewrite !app_nil_r. }
    apply (push_all_holds body_lines) in H0. unfold final_state. cbv zeta.
    case_match; [by apply close_holds|done]. }
  exists closed, cur. split; [|done].
  rewrite render_final, Hp, Hc, fmap_app. cbn [fmap list_fmap]. unfold payload_text at 3.
  by rewrite text_of_app, !string_app_assoc.
Qed.

End Render.

(** ** Installing the chains *)

Definition plain (c : string) : Prop := lacks " " c = true /\ one_line c.

Lemma restore_rule_line c line t rs :
  plain c -> t !! c = Some rs -> restore_line (rule_line c line) t = Some (<[c := rs ++ [words line]]> t).
Proof.
  intros [Hc _] Ht. unfold restore_line, rule_line.
  change ("-A " +:+ c +:+ " " +:+ line) with ("-A" +:+ String " " (c +:+ String " " line)).
  rewrite !words_cons by done. cbn. by rewrite Ht.
Qed.

Lemma restore_rule_lines c ls t rs :
  plain c -> t !! c = Some rs ->
  restore_lines (rule_line c <$> ls) t = Some (<[c := rs ++ (words <$> ls)]> t).
Proof.
  intros Hc. revert t rs. induction ls as [|l ls IH]; intros t rs Ht.
  - cbn [fmap list_fmap restore_lines]. by rewrite app_nil_r, insert_id.
  - cbn [fmap list_fmap restore_lines]. rewrite (restore_rule_line _ _ _ rs) by done.
    cbn [mbind option_bind]. rewrite (IH _ (rs ++ [words l])) by apply lookup_insert_eq.
    by rewrite insert_insert_eq, <- app_assoc.
Qed.

Lemma restore_declaration c t :
  plain c -> restore_line (declaration_line c) t = Some (<[c := []]> t).
Proof.
  intros [Hc _]. unfold restore_line, declaration_line.
  change (":" +:+ c +:+ " - [0:0]") with (String ":" c +:+ String " " ("-" +:+ String " " "[0:0]")).
  rewrite !words_cons by done. done.
Qed.

Lemma restore_hook hook c t rs :
  plain c -> lacks " " hook = true -> t !! hook = Some rs ->
  restore_line (hook_line hook c) t = Some (<[hook := rs ++ [["-j"; c]]]> t).
Proof.
  intros [Hc _] Hh Ht. unfold restore_line, hook_line.
  change ("-A " +:+ hook +:+ " -j " +:+ c) with
    ("-A" +:+ String " " (hook +:+ String " " ("-j" +:+ String " " c))).
  rewrite !words_cons by done. unfold words. rewrite (string_split_single " " c) by done.
  cbn. by rewrite Ht.
Qed.

(** A line that changes one chain only. *)
Definition leaves (chain l : string) : Prop :=
  forall t t', restore_line l t = Some t' -> t' !! chain = t !! chain.

Lemma leaves_lines chain ls t t' :
  Forall (leaves chain) ls -> restore_lines ls t = Some t' -> t' !! chain = t !! chain.
Proof.
  intros H. revert t. induction H as [|l ls Hl _ IH]; intros t; cbn; [by intros [= <-]|].
  destruct (restore_line l t) as [t1|] eqn:E; [|done]. cbn. intros Ht.
  rewrite (IH _ Ht). by apply Hl.
Qed.

Lemma leaves_rule_line chain c line : plain c -> c <> chain -> leaves chain (rule_line c line).
Proof.
  intros Hc Hne t t' H. destruct (t !! c) as [rs|] eqn:E.
  - rewrite (restore_rule_line _ _ _ rs) in H by done. injection H as <-. by apply lookup_insert_ne.
  - unfold restore_line, rule_line in H.
    change ("-A " +:+ c +:+ " " +:+ line) with ("-A" +:+ String " " (c +:+ String " " line)) in H.
    rewrite !words_cons in H by (done || apply Hc). cbn in H. by rewrite E in H.
Qed.

Lemma leaves_declaration chain c : plain c -> c <> chain -> leaves chain (declaration_line c).
Proof.
  intros Hc Hne t t' H. rewrite restore_declaration in H by done. injection H as <-.
  by apply lookup_insert_ne.
Qed.

(** ** No line breaks inside a line *)

Lemma one_line_app a b : one_line (a +:+ b) <-> one_line a /\ one_line b.
Proof. unfold one_line. by rewrite lacks_app, andb_true_iff. Qed.

Lemma one_line_target v : one_line (target v).
Proof. by destruct v. Qed.

Lemma render_one_line r : rule_ok r -> one_line (render r).
Proof.
  intros [(ip & p & Ha) Hs]. unfold render. rewrite !one_line_app. split_and!; try done.
  - unfold spec_ok in Hs. destruct (spec_protocol (rule_port r)) as [proto|]; [|done].
    case_decide; [done|]. rewrite !one_line_app. split_and!; try done.
    destruct (range (rule_port r)) as [[? ?]|]; [destruct Hs as [Hs _]|]; set_unfold in Hs;
      by destruct_or! Hs; subst.
  - by eapply address_text_plain.
  - destruct (range (rule_port r)) as [[start stop]|]; [|done].
    case_match; rewrite !one_line_app; split_and!; try done; by apply dec_plain.
  - apply one_line_target.
Qed.

Lemma egress_lines_one_line plan f : Forall rule_ok (rules plan) -> Forall one_line (egress_chain_lines plan f).
Proof.
  intros Hok. unfold egress_chain_lines. repeat (apply Forall_app; split).
  - by repeat constructor.
  - apply Forall_fmap, Forall_forall. intros r Hin%list_elem_of_In%filter_In.
    rewrite Forall_forall in Hok. apply render_one_line, Hok, list_elem_of_In, Hin.
  - repeat constructor. apply one_line_app. split; [done|apply one_line_target].
Qed.

Lemma ingress_lines_one_line ingress f : Forall one_line (ingress_chain_lines ingress f).
Proof.
  repeat constructor. apply one_line_app. split; [done|apply one_line_target].
Qed.

Section Install.
Context (plan : EgressPlan) (ingress : IngressPlan) (f : IpFamily) (eg inn : string).
Context (Hok : Forall rule_ok (rules plan)) (Heg : plain eg) (Hinn : plain inn).

Lemma lines_one_line : Forall one_line (declaration_lines eg inn ++ body_lines plan ingress f eg inn ++ hook_lines eg inn).
Proof using Hok Heg Hinn.
  assert (Hrule : forall c ls, plain c -> Forall one_line ls -> Forall one_line (rule_line c <$> ls)).
  { intros c ls [_ Hc] Hls. apply Forall_fmap. eapply Forall_impl; [done|]. intros l Hl. cbn.
    unfold rule_line. rewrite !one_line_app. done. }
  repeat (apply Forall_app; split).
  - unfold declaration_lines, declaration_line. destruct Heg, Hinn.
    repeat constructor; rewrite !one_line_app; done.
  - by apply Hrule, egress_lines_one_line.
  - by apply Hrule, ingress_lines_one_line.
  - unfold hook_lines, hook_line. destruct Heg, Hinn. repeat constructor; rewrite !one_line_app; done.
Qed.

Lemma install_body t :
  eg <> inn ->
  restore_lines (declaration_lines eg inn ++ body_lines plan ingress f eg inn) t =
  Some (<[inn := words <$> ingress_chain_lines ingress f]> (<[eg := words <$> egress_chain_lines plan f]> t)).
Proof using Heg Hinn.
  intros Hne. unfold declaration_lines, body_lines. cbn [app restore_lines].
  rewrite !restore_declaration by done. cbn [mbind option_bind]. rewrite restore_declaration by done.
  cbn [mbind option_bind]. rewrite restore_lines_app, (restore_rule_lines eg _ _ []);
    [|done|by rewrite lookup_insert_ne, lookup_insert_eq].
  cbn [mbind option_bind]. rewrite (restore_rule_lines inn _ _ []);
    [|done|by rewrite lookup_insert_ne, lookup_insert_eq].
  cbn [app]. f_equal. by rewrite (insert_insert_ne _ eg inn), !insert_insert_eq by done.
Qed.

Lemma body_leaves chain :
  eg <> chain -> inn <> chain ->
  Forall (leaves chain) (declaration_lines eg inn ++ body_lines plan ingress f eg inn).
Proof using Heg Hinn.
  intros H1 H2. repeat (apply Forall_app; split); [|apply Forall_fmap, Forall_true; intros l..].
  - repeat constructor; by apply leaves_declaration.
  - by apply leaves_rule_line.
  - by apply leaves_rule_line.
Qed.

End Install.

Lemma mjoin_snoc {A} (lss : list (list A)) ls : mjoin (lss ++ [ls]) = mjoin lss ++ ls.
Proof. rewrite join_app. cbn. by rewrite app_nil_r. Qed.

Lemma Forall_mjoin {A} (P : A -> Prop) lss : Forall P (mjoin lss) -> Forall (Forall P) lss.
Proof.
  induction lss as [|ls lss IH]; [constructor|]. change (mjoin (ls :: lss)) with (ls ++ mjoin lss).
  rewrite Forall_app. intros [? ?]. constructor; auto.
Qed.

(** C15. However the rules are split over transactions, applying the payloads in
    order installs both chains exactly as planned and hooks them into [OUTPUT]
    and [INPUT]; and after any proper prefix of the payloads neither hook is
    live, so a half-built chain is never consulted. *)
Theorem payloads_install_whole (plan : EgressPlan) (ingress : IngressPlan) (f : IpFamily)
    (eg inn : string) (t : tables) (o i : list (list string)) :
  built plan -> plain eg -> plain inn -> eg <> inn ->
  eg ∉ ["OUTPUT"; "INPUT"] -> inn ∉ ["OUTPUT"; "INPUT"] ->
  t !! "OUTPUT" = Some o -> t !! "INPUT" = Some i ->
  let ps := render_filter_payloads plan ingress f eg inn in
  restore_all ps t =
    Some (<["INPUT" := i ++ [["-j"; inn]]]> (<["OUTPUT" := o ++ [["-j"; eg]]]>
         (<[inn := words <$> ingress_chain_lines ingress f]>
         (<[eg := words <$> egress_chain_lines plan f]> t)))) /\
  forall k, (k < length ps)%nat -> exists t',
    restore_all (take k ps) t = Some t' /\ t' !! "OUTPUT" = Some o /\ t' !! "INPUT" = Some i.
Proof.
  intros Hb%built_rules_ok Heg Hinn Hne He Hi Ho Hin. cbv zeta.
  assert (eg <> "OUTPUT" /\ eg <> "INPUT" /\ inn <> "OUTPUT" /\ inn <> "INPUT") as (? & ? & ? & ?) by set_solver.
  destruct (render_lines plan ingress f eg inn) as (closed & last & -> & E).
  pose proof (lines_one_line plan ingress f eg inn Hb Heg Hinn) as Hl.
  pose proof (install_body plan ingress f eg inn Heg Hinn t Hne) as Hbody.
  rewrite app_assoc, <- E in Hl. rewrite <- E in Hbody. split.
  - rewrite restore_all_payloads by (apply Forall_mjoin; by rewrite mjoin_snoc, app_assoc).
    rewrite mjoin_snoc, app_assoc, restore_lines_app, Hbody. cbn [mbind option_bind hook_lines restore_lines].
    rewrite (restore_hook _ _ _ o) by (done || by rewrite !lookup_insert_ne).
    cbn [mbind option_bind].
    by rewrite (restore_hook _ _ _ i) by (done || by rewrite !lookup_insert_ne).
  - intros k Hk. rewrite length_fmap, length_app in Hk. cbn in Hk.
    rewrite <- fmap_take, take_app_le by lia.
    assert (Hcut : closed = take k closed ++ drop k closed) by (by rewrite take_drop).
    rewrite Hcut in E, Hl, Hbody. rewrite join_app, <- app_assoc in E, Hl, Hbody.
    rewrite restore_all_payloads.
    2:{ apply Forall_mjoin. rewrite <- !app_assoc in Hl. by apply Forall_app in Hl as [? _]. }
    rewrite restore_lines_app in Hbody.
    destruct (restore_lines (mjoin (take k closed)) t) as [t'|] eqn:Et; [|done].
    exists t'. split; [done|].
    assert (Hleaves : forall chain, eg <> chain -> inn <> chain -> t' !! chain = t !! chain).
    { intros chain Hc1 Hc2. eapply leaves_lines; [|exact Et].
      pose proof (body_leaves plan ingress f eg inn Heg Hinn chain Hc1 Hc2) as Hlv.
      rewrite <- E in Hlv. by apply Forall_app in Hlv as [? _]. }
    by rewrite !Hleaves.
Qed.

(** ** The transaction budget *)

Definition short (l : string) : Prop := str_len l <= 200.

Lemma render_short r : rule_ok r -> str_len (render r) <= 150.
Proof.
  intros [(ip & p & Ha) Hs].
  assert (Ht : str_len (text (rule_address r)) <= 86).
  { pose proof (address_form_bounds _ _ _ Ha) as [Hip Hp]. destruct Ha as [ip p _ _|x Hx]; cbn [from_block text].
    - rewrite !str_len_app. pose proof (ip_text_length ip Hip).
      assert (String.length (dec p) <= 3)%nat by (apply dec_length; [lia|destruct ip; cbn in *; lia]).
      unfold str_len. cbn [String.length]. lia.
    - pose proof (ipv4_text_length x Hx). unfold str_len. lia. }
  assert (Hd : forall z, 0 <= z <= u16_max -> str_len (dec z) <= 5).
  { intros z Hz. assert (String.length (dec z) <= 5)%nat by (apply dec_length; [lia|cbn; unfold u16_max in *; lia]).
    unfold str_len. lia. }
  unfold render, spec_ok in *. rewrite !str_len_app.
  assert (str_len match spec_protocol (rule_port r) with
      | Some protocol => if decide (protocol = "icmp" /\ family (rule_address r) = FamilyV6) then "-p icmpv6 "
                         else "-p " +:+ protocol +:+ " "
      | None => "" end <= 10).
  { destruct (spec_protocol (rule_port r)) as [proto|]; [|done]. case_decide; [done|].
    destruct (range (rule_port r)) as [[? ?]|]; [destruct Hs as [Hs _]|]; set_unfold in Hs;
      by destruct_or! Hs; subst. }
  assert (str_len match range (rule_port r) with
      | Some (start, stop) => if start =? stop then " --dport " +:+ dec start
                              else " --dport " +:+ dec start +:+ ":" +:+ dec stop
      | None => "" end <= 20).
  { destruct (range (rule_port r)) as [[start stop]|]; [|done].
    destruct (spec_protocol (rule_port r)); [destruct Hs as (_ & Hle & Hmax)|done].
    pose proof (Hd start ltac:(lia)). pose proof (Hd stop ltac:(lia)).
    destruct (start =? stop); rewrite !str_len_app; unfold str_len in *; cbn [String.length]; lia. }
  assert (str_len (target (verdict r)) <= 6) by (by destruct (verdict r)).
  unfold str_len in *. cbn [String.length] in *. lia.
Qed.

Section Budget.
Context (plan : EgressPlan) (ingress : IngressPlan) (f : IpFamily) (eg inn : string).
Context (Hok : Forall rule_ok (rules plan)) (Heg : str_len eg <= 28) (Hinn : str_len inn <= 28).

Lemma body_short : Forall short ((fun l => l +:+ newline) <$> body_lines plan ingress f eg inn).
Proof using Hok Heg Hinn.
  assert (Hrule : forall c ls, str_len c <= 28 -> Forall (fun l => str_len l <= 150) ls ->
    Forall (fun l => short (l +:+ newline)) (rule_line c <$> ls)).
  { intros c ls Hc Hls. apply Forall_fmap. eapply Forall_impl; [exact Hls|]. intros l Hl. cbn in *.
    unfold short, rule_line. rewrite !str_len_app. unfold str_len in *. cbn [String.length newline]. lia. }
  apply Forall_fmap, Forall_app. split; apply Hrule; try done.
  - unfold egress_chain_lines. repeat (apply Forall_app; split).
    + by repeat constructor.
    + apply Forall_fmap, Forall_forall. intros r Hin%list_elem_of_In%filter_In.
      rewrite Forall_forall in Hok. apply render_short, Hok, list_elem_of_In, Hin.
    + repeat constructor. by destruct (match f with FamilyV4 => _ | FamilyV6 => _ end).
  - repeat constructor; try done. by destruct (new_inbound ingress).
Qed.

Definition fits (st : payload_state) : Prop :=
  str_len (current st) + str_len COMMIT <= RESTORE_PAYLOAD_BUDGET /\
  (lines_in_current st = 0%nat -> str_len (current st) <= 200) /\
  Forall (fun p => str_len p <= RESTORE_PAYLOAD_BUDGET) (payloads st).

Lemma close_fits st : fits st -> fits (close_payload st).
Proof using.
  intros (Hc & _ & Hp). split_and!; [done|done|]. apply Forall_app. split; [done|].
  repeat constructor. by rewrite str_len_app.
Qed.

(** What is appended after a possible cut fits. *)
Lemma cut_fits st more :
  fits st -> short more ->
  let st' := if over_budget st more then close_payload st else st in
  fits st' /\ str_len (current st') + str_len more + str_len COMMIT <= RESTORE_PAYLOAD_BUDGET.
Proof using.
  intros Hst Hm. cbv zeta. unfold short in Hm. destruct (over_budget st more) eqn:E.
  - split; [by apply close_fits|]. cbn [close_payload current].
    change (str_len FILTER) with 8. change (str_len COMMIT) with 7. unfold RESTORE_PAYLOAD_BUDGET. lia.
  - split; [done|]. destruct Hst as (_ & H0 & _). unfold over_budget in E.
    destruct (Nat.ltb_spec 0 (lines_in_current st)) as [Hlt|Hge].
    + apply Z.ltb_ge in E. lia.
    + specialize (H0 ltac:(lia)). change (str_len COMMIT) with 7. unfold RESTORE_PAYLOAD_BUDGET. lia.
Qed.

Lemma push_fits st l : fits st -> short l -> fits (push_line st l).
Proof using.
  intros Hst Hl. unfold push_line. destruct (cut_fits st l Hst Hl) as [(_ & _ & Hp) Hlen].
  split_and!; cbn [current lines_in_current payloads]; [rewrite str_len_app; lia|done|done].
Qed.

Lemma push_all_fits ls st : fits st -> Forall short ls -> fits (foldl push_line st ls).
Proof using.
  intros Hst Hls. revert st Hst. induction Hls; intros st Hst; [done|]. cbn. auto using push_fits.
Qed.

Lemma declarations_len : str_len (FILTER +:+ text_of (declaration_lines eg inn)) <= 200.
Proof using Heg Hinn.
  unfold text_of, declaration_lines, declaration_line, string_concat. cbn [fmap list_fmap foldr].
  rewrite !str_len_app. change (str_len FILTER) with 8. unfold str_len in *. cbn [String.length newline]. lia.
Qed.

Lemma hooks_short : short (text_of (hook_lines eg inn)).
Proof using Heg Hinn.
  unfold short, text_of, hook_lines, hook_line, string_concat. cbn [fmap list_fmap foldr].
  rewrite !str_len_app. unfold str_len in *. cbn [String.length newline]. lia.
Qed.

End Budget.

(** C37. Every payload fits the transaction budget of 8192 bytes, for chain names
    of at most the 28 bytes the packet filter allows, however many rules the
    policy has. *)
Theorem payloads_within_budget (plan : EgressPlan) (ingress : IngressPlan) (f : IpFamily) (eg inn : string) :
  built plan -> str_len eg <= 28 -> str_len inn <= 28 ->
  Forall (fun p => str_len p <= RESTORE_PAYLOAD_BUDGET) (render_filter_payloads plan ingress f eg inn).
Proof.
  intros Hb%built_rules_ok Heg Hinn. rewrite render_final. unfold final_state. cbv zeta.
  assert (H0 : fits (initial_state eg inn)).
  { pose proof (declarations_len eg inn Heg Hinn) as Hd. split_and!; cbn [initial_state current payloads]; [|done|constructor].
    change (str_len COMMIT) with 7. unfold RESTORE_PAYLOAD_BUDGET. lia. }
  pose proof (push_all_fits _ _ H0 (body_short plan ingress f eg inn Hb Heg Hinn)) as Hst.
  destruct (cut_fits _ _ Hst (hooks_short eg inn Heg Hinn)) as [(_ & _ & Hp) Hlen].
  apply Forall_app. split; [done|]. repeat constructor. rewrite !str_len_app. lia.
Qed.

(** ** Names in the order they are applied *)

(** Digit strings of one length compare as their values. *)
Lemma digits_compare a b :
  String.length a = String.length b ->
  string_all is_ascii_digit a = true -> string_all is_ascii_digit b = true ->
  digits_value a < digits_value b -> String.compare a b = Lt.
Proof.
  revert b. induction a as [|c a IH]; intros [|d b] Hl Ha Hb Hv; try discriminate.
  cbn [string_all digits_value String.length String.compare] in *.
  apply andb_true_iff in Ha as [Hc Ha]. apply andb_true_iff in Hb as [Hd Hb]. injection Hl as Hl.
  pose proof (digits_value_bounds a Ha). pose proof (digits_value_bounds b Hb). rewrite Hl in *.
  unfold Ascii.compare, byte_of in *.
  destruct (N.compare_spec (N_of_ascii c) (N_of_ascii d)) as [E|E|E]; [|done|nia].
  apply IH; try done. rewrite E in Hv. lia.
Qed.

Lemma compare_prefix p a b : String.compare (p +:+ a) (p +:+ b) = String.compare a b.
Proof.
  induction p as [|c p IH]; [done|]. autorewrite with text. cbn [String.compare].
  unfold Ascii.compare. by rewrite N.compare_refl.
Qed.

(** The loop divides until one digit is left: it ends, and counts the digits. *)
Lemma decimal_width_go_bound fuel r w v :
  (0 < w)%nat -> 0 <= r <= Z.of_nat fuel -> v < (r + 1) * 10 ^ (Z.of_nat w - 1) ->
  (0 < decimal_width_go fuel r w)%nat /\ v < 10 ^ Z.of_nat (decimal_width_go fuel r w).
Proof.
  revert r w. induction fuel as [|fuel IH]; intros r w Hw Hr Hv; cbn [decimal_width_go].
  - split; [done|]. replace r with 0 in Hv by lia.
    assert (10 ^ (Z.of_nat w - 1) <= 10 ^ Z.of_nat w) by (apply Z.pow_le_mono_r; lia). lia.
  - assert (E : 10 ^ Z.of_nat w = 10 * 10 ^ (Z.of_nat w - 1)).
    { rewrite <- Z.pow_succ_r by lia. f_equal. lia. }
    assert (0 < 10 ^ (Z.of_nat w - 1)) by (apply Z.pow_pos_nonneg; lia).
    destruct (Z.leb_spec 10 r) as [Hge|Hlt]; [|split; [done|rewrite E; nia]].
    pose proof (Z.div_mod r 10 ltac:(lia)). pose proof (Z.mod_pos_bound r 10 ltac:(lia)).
    apply IH; [lia|lia|]. replace (Z.of_nat (S w) - 1) with (Z.of_nat w) by lia. rewrite E. nia.
Qed.

Lemma decimal_width_bound v : 0 <= v -> v < 10 ^ Z.of_nat (decimal_width v).
Proof.
  intros Hv. apply decimal_width_go_bound; [lia|lia|]. change (10 ^ (Z.of_nat 1 - 1)) with 1. lia.
Qed.

Lemma zeros_digits n : string_all is_ascii_digit (string_repeat "0" n) = true.
Proof. induction n; [done|]. by cbn. Qed.

Lemma string_repeat_length c n : String.length (string_repeat c n) = n.
Proof. induction n; [done|]. cbn. by f_equal. Qed.

Lemma zeros_value n s : digits_value (string_repeat "0" n +:+ s) = digits_value s.
Proof.
  induction n as [|n IH]; [done|]. cbn [string_repeat]. autorewrite with text. cbn [digits_value].
  rewrite IH. eval_bytes. lia.
Qed.

Lemma zero_padded_spec w i :
  (0 < w)%nat -> 0 <= i < 10 ^ Z.of_nat w ->
  String.length (zero_padded w i) = w /\ string_all is_ascii_digit (zero_padded w i) = true /\
  digits_value (zero_padded w i) = i.
Proof.
  intros Hw Hi. pose proof (dec_length i w Hw Hi). unfold zero_padded. split_and!.
  - rewrite string_length_app, string_repeat_length. lia.
  - by rewrite string_all_app, zeros_digits, dec_digits.
  - rewrite zeros_value. symmetry. apply parse_digits_value, parse_digits_dec. lia.
Qed.

(** The payload files sort, byte by byte, in the order they must be applied,
    whatever their number. *)
Theorem payload_names_sort (family : RuleFamily) (i j total : Z) :
  0 <= i < j -> j < total ->
  String.compare (payload_file_name family i total) (payload_file_name family j total) = Lt.
Proof.
  intros Hij Hj. unfold payload_file_name. rewrite compare_prefix.
  replace (Z.max 0 (total - 1)) with (total - 1) by lia.
  set (w := Nat.max (decimal_width (total - 1)) PAYLOAD_INDEX_MIN_WIDTH).
  assert (Hw : total - 1 < 10 ^ Z.of_nat w).
  { pose proof (decimal_width_bound (total - 1) ltac:(lia)).
    assert (10 ^ Z.of_nat (decimal_width (total - 1)) <= 10 ^ Z.of_nat w)
      by (apply Z.pow_le_mono_r; unfold w; lia). lia. }
  assert (0 < w)%nat by (unfold w, PAYLOAD_INDEX_MIN_WIDTH; lia).
  destruct (zero_padded_spec w i) as (Hl1 & Hd1 & Hv1); [done|lia|].
  destruct (zero_padded_spec w j) as (Hl2 & Hd2 & Hv2); [done|lia|].
  apply digits_compare; [congruence|done|done|lia].
Qed.

(** ** Witnesses *)

Definition example_plan : EgressPlan := for_proxy 0x0a020304 443.

Lemma example_built : built example_plan.
Proof. constructor; unfold u16_max; lia. Qed.

Definition example_tables : tables := <["OUTPUT" := []]> (<["INPUT" := []]> ∅).

Lemma payloads_install_whole_witness :
  exists t', restore_all (render_filter_payloads example_plan (MkIngressPlan Drop) FamilyV4
      "MXC_EGRESS" "MXC_INGRESS") example_tables = Some t'.
Proof.
  destruct (payloads_install_whole example_plan (MkIngressPlan Drop) FamilyV4 "MXC_EGRESS" "MXC_INGRESS"
    example_tables [] []) as [H _];
    [exact example_built|split; reflexivity|split; reflexivity|discriminate|set_solver|set_solver
    |reflexivity|reflexivity|].
  eexists. exact H.
Defined.

Lemma payloads_within_budget_witness :
  Forall (fun p => str_len p <= RESTORE_PAYLOAD_BUDGET)
    (render_filter_payloads example_plan (MkIngressPlan Drop) FamilyV4 "MXC_EGRESS" "MXC_INGRESS").
Proof.
  apply (payloads_within_budget example_plan (MkIngressPlan Drop) FamilyV4 "MXC_EGRESS" "MXC_INGRESS");
    [exact example_built|unfold str_len; cbn; lia|unfold str_len; cbn; lia].
Defined.

Lemma payload_names_sort_witness :
  String.compare (payload_file_name FamilyV4 101 1001) (payload_file_name FamilyV4 1000 1001) = Lt.
Proof. apply (payload_names_sort FamilyV4 101 1000 1001); lia. Defined.

End Payloads.
