(* ===== verification/WslcSlots.v ===== *)
(** * The pool of reusable image stores of the WSLC daemon

    [backends/wslc/common/store_slots.rs]: a slot is a directory whose VHDX one
    live session may hold; slots are leased lowest first and come back when
    their lease is dropped, while a forgotten lease keeps its slot for good.
    The mutex around the set of leased indices is the state component the lens
    of [Section Lease] reads and writes, one locked access per access here;
    creating the directory and opening the store are calls the client brings,
    during which other threads may use the pool. *)

From S2P Require Import Prelude.
From Stdlib Require Import Ascii.
From stdpp Require Import gmap fin_sets.

Module StoreSlots.

Definition POOL_LEAF : string := "wslc-store-slots".

(** [Path::join] of a relative component on the Windows hosts the daemon runs
    on: the separator is added unless the path already ends in one or is
    empty. *)
Definition path_join (dir leaf : string) : string :=
  match last (String.list_ascii_of_string dir) with
  | None => leaf
  | Some c => if bool_decide (c = "\"%char \/ c = "/"%char) then dir +:+ leaf else dir +:+ "\" +:+ leaf
  end.

Definition pool_root_in (local_app_data : option string) (temp : string) : string :=
  match local_app_data with
  | Some dir => if bool_decide (dir = "") then path_join (path_join temp "mxc") POOL_LEAF
                else path_join (path_join dir "mxc") POOL_LEAF
  | None => path_join (path_join temp "mxc") POOL_LEAF
  end.

Definition slot_path_in (root : string) (index : nat) : string :=
  path_join root ("slot-" +:+ dec (Z.of_nat index)).

Inductive StoreSlotError (E : Type) : Type :=
| Unavailable
| Io (path : string) (source : string)
| Refused (index : nat) (path : string) (source : E).
Arguments Unavailable {E}.
Arguments Io {E}.
Arguments Refused {E}.

Definition StoreSlotError_display {E} (e : StoreSlotError E) : string :=
  match e with
  | Unavailable => "the WSLc store slot pool is no longer usable"
  | Io path source => "could not create the WSLc store slot at " +:+ path +:+ ": " +:+ source
  | Refused index path _ =>
      "the WSLc store slot " +:+ dec (Z.of_nat index) +:+ " at " +:+ path +:+ " could not be opened"
  end.

(** [poisoned]: a thread panicked while it held the lock. *)
Record StoreSlotPool : Type := MkPool {
  root : string;
  leased : gset nat;
  poisoned : bool;
}.

Definition with_root (root : string) : StoreSlotPool := MkPool root ∅ false.

Definition slot_path (pool : StoreSlotPool) (index : nat) : string := slot_path_in (root pool) index.

(** A slot held for the lifetime of one session.  The pool it returns to is
    the shared one. *)
Record StoreSlotLease : Type := MkLease { index : nat; path : string }.

(** [(0..).find(|index| !leased.contains(index))], the range cut after [fuel]
    indices. *)
Fixpoint find_free (fuel index : nat) (leased : gset nat) : option nat :=
  match fuel with
  | O => None
  | S fuel => if bool_decide (index ∈ leased) then find_free fuel (S index) leased else Some index
  end.

Definition take_lowest_free (pool : StoreSlotPool) : option nat * StoreSlotPool :=
  if poisoned pool then (None, pool)
  else match find_free (S (size (leased pool))) 0 (leased pool) with
       | Some free => (Some free, MkPool (root pool) ({[free]} ∪ leased pool) false)
       | None => (None, pool)
       end.

(** [Drop for StoreSlotLease]. *)
Definition drop_lease (lease : StoreSlotLease) (pool : StoreSlotPool) : StoreSlotPool :=
  if poisoned pool then pool
  else MkPool (root pool) (leased pool ∖ {[index lease]}) (poisoned pool).

Section Lease.
Context {S P : Type} (get_pool : S -> StoreSlotPool) (set_pool : StoreSlotPool -> S -> S).
Context (create_dir_all : string -> stateful S P (result string unit)).

(** [lease_with]: the lease is built before anything can fail, so each error
    return drops it. *)
Definition lease_with {T E} (open : string -> stateful S P (result E T))
    : stateful S P (result (StoreSlotError E) (StoreSlotLease * T)) :=
  taken ← (fun st => let '(i, pool) := take_lowest_free (get_pool st) in (Ok i, set_pool pool st));
  match taken with
  | None => mret (Err Unavailable)
  | Some i =>
      path ← gets (fun st => slot_path (get_pool st) i);
      let lease := MkLease i path in
      let drop_it := modify (fun st => set_pool (drop_lease lease (get_pool st)) st) in
      created ← create_dir_all path;
      match created with
      | Err source => _ ← drop_it; mret (Err (Io path source))
      | Ok _ =>
          opened ← open path;
          match opened with
          | Ok opened => mret (Ok (lease, opened))
          | Err source => _ ← drop_it; mret (Err (Refused i path source))
          end
      end
  end.
End Lease.

(** ** What a lease promises *)

(** The search never runs past the indices it can find taken: among the first
    [size leased + 1] one is free. *)
Lemma find_free_spec fuel i (s : gset nat) :
  match find_free fuel i s with
  | Some n => (i <= n)%nat /\ (n ∉ s) /\ (forall j, (i <= j < n)%nat -> j ∈ s)
  | None => forall j, (i <= j < i + fuel)%nat -> j ∈ s
  end.
Proof.
  revert i. induction fuel as [|fuel IH]; intros i; cbn; [lia|].
  case_bool_decide as Hi; [|split; [lia|split; [done|lia]]].
  specialize (IH (S i)). destruct (find_free fuel (S i) s) as [n|].
  - destruct IH as (Hn & Hfree & Hall). split; [lia|split; [done|]]. intros j Hj.
    destruct (decide (j = i)) as [->|]; [done|apply Hall; lia].
  - intros j Hj. destruct (decide (j = i)) as [->|]; [done|apply IH; lia].
Qed.

Lemma find_free_total (s : gset nat) : is_Some (find_free (S (size s)) 0 s).
Proof.
  pose proof (find_free_spec (S (size s)) 0 s) as H.
  destruct (find_free (S (size s)) 0 s) as [n|]; [by exists n|exfalso].
  assert (Hsub : list_to_set (C := gset nat) (seq 0 (S (size s))) ⊆ s).
  { intros j Hj%elem_of_list_to_set. apply elem_of_seq in Hj. apply H. lia. }
  apply subseteq_size in Hsub. rewrite size_list_to_set in Hsub by apply NoDup_seq.
  rewrite length_seq in Hsub. lia.
Qed.

(** A healthy pool always hands out the lowest slot nobody holds. *)
Lemma take_lowest_free_spec pool :
  poisoned pool = false ->
  exists i, take_lowest_free pool = (Some i, MkPool (root pool) ({[i]} ∪ leased pool) false) /\
    (i ∉ leased pool) /\ forall j, (j < i)%nat -> j ∈ leased pool.
Proof.
  intros Hp. unfold take_lowest_free. rewrite Hp.
  destruct (find_free_total (leased pool)) as [i Hi]. rewrite Hi. exists i.
  pose proof (find_free_spec (S (size (leased pool))) 0 (leased pool)) as H. rewrite Hi in H.
  split; [done|]. split; [apply H|]. intros j Hj. apply H. lia.
Qed.

Lemma take_lowest_free_Some pool i pool' :
  take_lowest_free pool = (Some i, pool') ->
  (i ∉ leased pool) /\ leased pool' = {[i]} ∪ leased pool /\ poisoned pool' = poisoned pool.
Proof.
  unfold take_lowest_free. destruct (poisoned pool) eqn:Hp; [done|].
  pose proof (find_free_spec (S (size (leased pool))) 0 (leased pool)) as H.
  destruct (find_free _ _ _) as [n|]; [|done]. intros [= <- <-]. cbn. naive_solver.
Qed.

Lemma take_lowest_free_None pool pool' : take_lowest_free pool = (None, pool') -> pool' = pool.
Proof. unfold take_lowest_free. repeat case_match; congruence. Qed.

Lemma elem_of_drop_lease lease pool i :
  i ∈ leased (drop_lease lease pool) <-> i ∈ leased pool /\ (poisoned pool = true \/ i <> index lease).
Proof. unfold drop_lease. destruct (poisoned pool); cbn; set_solver. Qed.

Lemma drop_taken pool i path :
  poisoned pool = false -> i ∉ leased pool ->
  drop_lease (MkLease i path) (MkPool (root pool) ({[i]} ∪ leased pool) false) = pool.
Proof.
  intros Hp Hi. unfold drop_lease. cbn. destruct pool as [root leased poisoned]. cbn in *. subst poisoned.
  f_equal. apply set_eq. set_solver.
Qed.

(** All indices below a free one are taken, so it is at most their number. *)
Lemma lowest_le (s : gset nat) i : (forall j, (j < i)%nat -> j ∈ s) -> (i <= size s)%nat.
Proof.
  intros Hall. assert (Hsub : list_to_set (C := gset nat) (seq 0 i) ⊆ s).
  { intros j Hj%elem_of_list_to_set. apply elem_of_seq in Hj. apply Hall. lia. }
  apply subseteq_size in Hsub. rewrite size_list_to_set, length_seq in Hsub by apply NoDup_seq. done.
Qed.

(** Leasing from a healthy pool always gets a slot, the lowest nobody holds,
    so [n] leases never need more than [n + 1] stores; when its directory cannot
    be created or its store cannot be opened the slot is back in the pool, and
    dropping a lease undoes it. *)
Theorem lease_with_outcome {T E} (mk : string -> result string unit) (opn : string -> result E T) pool :
  poisoned pool = false ->
  exists i, (i ∉ leased pool) /\ (forall j, (j < i)%nat -> j ∈ leased pool) /\ (i <= size (leased pool))%nat /\
    match lease_with (P := Empty_set) id (fun p _ => p) (fun path st => (Ok (mk path), st))
            (fun path st => (Ok (opn path), st)) pool with
    | (Ok (Ok (lease, opened)), pool') =>
        lease = MkLease i (slot_path pool i) /\ opn (path lease) = Ok opened /\
        leased pool' = {[i]} ∪ leased pool /\ drop_lease lease pool' = pool
    | (Ok (Err Unavailable), _) => False
    | (Ok (Err (Io path _)), pool') => path = slot_path pool i /\ pool' = pool
    | (Ok (Err (Refused index path source)), pool') => index = i /\ opn path = Err source /\ pool' = pool
    | (Err _, _) => False
    end.
Proof.
  intros Hp. destruct (take_lowest_free_spec pool Hp) as (i & Ht & Hfree & Hlow). exists i.
  split_and!; [done..|by apply lowest_le|]. unfold lease_with, mbind, stateful_bind, id. rewrite Ht. cbn.
  pose proof (drop_taken pool i (slot_path pool i) Hp Hfree) as Hd. unfold drop_lease in *. cbn in Hd |- *.
  change (slot_path (MkPool _ _ _) i) with (slot_path pool i).
  destruct (mk (slot_path pool i)) as [[]|source]; cbn; [|done].
  destruct (opn (slot_path pool i)) as [opened|source] eqn:Ho; by cbn.
Qed.

Lemma lease_with_outcome_witness :
  let pool := MkPool "C:\pool" {[0%nat; 2%nat]} false in
  poisoned pool = false /\ exists i, (i ∉ leased pool) /\ (forall j, (j < i)%nat -> j ∈ leased pool) /\
    (i <= size (leased pool))%nat.
Proof.
  split; [done|]. destruct (lease_with_outcome (T := unit) (E := string) (fun _ => Ok tt) (fun _ => Ok tt)
    (MkPool "C:\pool" {[0%nat; 2%nat]} false) eq_refl) as (i & H1 & H2 & H3 & _). by exists i.
Defined.

End StoreSlots.
