(* ===== verification/WslcTypes.v ===== *)
(** * The WSLC daemon: data

    The commands, requests, errors and bookkeeping records of
    [bin/wslc_daemon/session_manager.rs], with the request types of
    [backends/wslc/common/daemon_protocol.rs] and the error rendering of
    [backends/wslc/common/error.rs] they carry.  Handles of the SDK are opaque
    numbers, a reply channel ([oneshot::Sender]) is the identity of the request
    it answers, and loggers and output sinks are left out. *)

From Stdlib Require Import Ascii.
From stdpp Require Import gmap.
From S2P Require Import Prelude Requests WslcSlots.

#[local] Open Scope Z_scope.

Module WslcTypes.

(** ** Time *)

(** Instants and durations in nanoseconds. *)
Definition from_secs (s : Z) : Z := s * 1000000000.
Definition as_secs (d : Z) : Z := d / 1000000000.
Definition saturating_duration_since (later earlier : Z) : Z := Z.max 0 (later - earlier).

Definition MAX_CONCURRENT_RELEASES : nat := 4.
Definition RELEASE_WAIT : Z := from_secs 60.

(** ** Failures *)

Inductive WslcError : Type :=
| WslcSdkError (context : string) (hr : Z) (sdk_msg : string)
| WslcUnavailable (m : string)
| WslcRejected (m : string)
| WslcHost (m : string)
| WslcRuntime (m : string).

Definition WslcError_failure_phase (e : WslcError) : FailurePhase :=
  match e with
  | WslcUnavailable _ => PhaseBackendUnavailable
  | WslcRejected _ => Requests.Rejected
  | WslcSdkError _ _ _ | WslcHost _ => LaunchFailed
  | WslcRuntime _ => PostLaunchFailed
  end.

(** [{:08X}] of a 32-bit value. *)
Definition upper_hex_digit (d : Z) : ascii :=
  ascii_of_N (Z.to_N (if d <? 10 then d + 48 else d + 55)).

Definition hex08 (x : Z) : string :=
  String.string_of_list_ascii
    ((fun k => upper_hex_digit (Z.land (Z.shiftr (wrap 32 x) k) 15)) <$> [28; 24; 20; 16; 12; 8; 4; 0]).

Definition WslcError_display (e : WslcError) : string :=
  match e with
  | WslcSdkError context hr "" => context +:+ ": HRESULT 0x" +:+ hex08 hr
  | WslcSdkError context hr sdk_msg => context +:+ ": " +:+ sdk_msg +:+ " (HRESULT 0x" +:+ hex08 hr +:+ ")"
  | WslcUnavailable m | WslcRejected m | WslcHost m | WslcRuntime m => m
  end.

Definition into_response (e : WslcError) : ScriptResponse :=
  failed (WslcError_failure_phase e) (WslcError_display e).

(** [ErrKind], the wire classification of a failure. *)
Inductive ErrKind : Type :=
| KindNotProvisioned | KindNotStarted | KindBusy | KindNotReady | KindProtocol
| KindUnavailable | KindRejected | KindBackend | KindUnknown.

(** An [anyhow::Error] is the message it renders to. *)
Inductive WorkerError : Type :=
| NotProvisioned (id : string)
| UnknownSession (id : string)
| NotStarted (id : string)
| Busy (id : string)
| Unavailable (e : string)
| Rejected (e : string)
| Backend (e : string).

Definition WorkerError_kind (e : WorkerError) : ErrKind :=
  match e with
  | NotProvisioned _ => KindNotProvisioned
  | UnknownSession _ => KindNotProvisioned
  | NotStarted _ => KindNotStarted
  | Busy _ => KindBusy
  | Unavailable _ => KindUnavailable
  | Rejected _ => KindRejected
  | Backend _ => KindBackend
  end.

Definition WorkerError_display (e : WorkerError) : string :=
  match e with
  | NotProvisioned id => "unknown sandbox " +:+ id
  | UnknownSession id => "unknown session " +:+ id
  | NotStarted id => "sandbox " +:+ id +:+ " is not started"
  | Busy id => "sandbox " +:+ id +:+ " already has an exec in flight"
  | Unavailable e | Rejected e | Backend e => e
  end.

Definition sr_err (resp : ScriptResponse) : WorkerError :=
  match failure_phase resp with
  | PhaseBackendUnavailable => Unavailable (error_message resp)
  | Requests.Rejected => Rejected (error_message resp)
  | _ => Backend (error_message resp)
  end.

(** ** Requests *)

(** Raw SDK handles. *)
Abbreviation WslcSession := Z.
Abbreviation WslcContainer := Z.

(** A reply channel, by the identity of the request that waits on it. *)
Abbreviation ReplyId := Z.

Record SessionSizing : Type := MkSizing {
  cpu_count : option Z;
  memory_mb : option Z;
  gpu : bool;
}.

Definition SessionSizing_default : SessionSizing := MkSizing None None false.

Inductive NetworkMode : Type := NetworkNone | NetworkBridged.

Record VolumeMount : Type := MkVolume {
  volume_host : string;
  volume_container : string;
  volume_read_only : bool;
}.

(** [daemon_protocol::PortMapping]. *)
Record DaemonPortMapping : Type := MkDaemonPort {
  daemon_windows_port : Z;
  daemon_container_port : Z;
}.

Record ProvisionConfig : Type := MkProvision {
  provision_image : string;
  provision_image_tar_path : option string;
  provision_volumes : list VolumeMount;
  provision_network : NetworkMode;
  provision_port_mappings : list DaemonPortMapping;
  provision_session_ref : option string;
}.

Inductive EnvScope : Type := EnvMerge | EnvReplace.

Record ExecConfig : Type := MkExecConfig {
  exec_id : string;
  run_token : string;
  exec_sandbox_id : string;
  script_code : string;
  working_directory : string;
  exec_env : list (string * string);
  env_scope : EnvScope;
  timeout_ms : Z;
  exec_stdin : bool;
}.

Inductive ExecTerminal : Type :=
| Exited (code : Z)
| TimedOut
| Cancelled.

(** A capacity permit, or a permit kept together with the stdin of a process
    that may still be running. *)
Inductive ExecSlotGuard : Type :=
| Permit (id : Z)
| WithStdin (slot : option ExecSlotGuard) (held : Z).

(** The cancellation flag is the address of the shared [AtomicBool]. *)
Record ExecRequest : Type := MkExecRequest {
  request_config : ExecConfig;
  request_cancellation : Z;
  request_admit : ReplyId;
  request_done : ReplyId;
  request_slot : option ExecSlotGuard;
}.

Inductive ContainerWork : Type :=
| WorkExec (request : ExecRequest)
| WorkStart (sandbox_id : string) (reply : ReplyId)
| WorkStop (sandbox_id : string) (reply : ReplyId)
| WorkDeprovision (sandbox_id : string) (reply : ReplyId).

Definition work_sandbox_id (w : ContainerWork) : string :=
  match w with
  | WorkExec request => exec_sandbox_id (request_config request)
  | WorkStart id _ | WorkStop id _ | WorkDeprovision id _ => id
  end.

(** [StdinHold] is the identity of the stdin kept open. *)
Inductive ExecReport : Type :=
| Finished (outcome : result WorkerError ExecTerminal)
| Unconfirmed (detail : string) (held_stdin : option Z).

Record BootFailure : Type := MkBootFailure {
  boot_error : WorkerError;
  store_may_be_held : bool;
}.

Definition BootFailure_from (e : WorkerError) : BootFailure := MkBootFailure e false.

Inductive WorkerCommand : Type :=
| ProvisionSession (config : SessionSizing) (reply : ReplyId)
| DeprovisionSession (session_ref : string) (reply : ReplyId)
| Provision (config : ProvisionConfig) (reply : ReplyId)
| Container (work : ContainerWork)
| SessionBooted (session_ref : string) (outcome : result BootFailure WslcSession)
| SessionReleased (session_ref : string) (slot_returned : bool)
| PullFinished (token : Z) (outcome : result ScriptResponse unit)
| ExecFinished (sandbox_id : string) (report : ExecReport)
| Retire (sandbox_id : string) (reply : ReplyId)
| ContainerCount (reply : ReplyId)
| Shutdown (reply : ReplyId).

(** What a reply channel carries. *)
Inductive Answer : Type :=
| ReplyId_ (r : result WorkerError string)
| ReplyUnit (r : result WorkerError unit)
| ReplyTerminal (r : result WorkerError ExecTerminal)
| ReplyDone
| ReplyCount (n : nat).

(** ** Bookkeeping *)

Record ContainerEntry : Type := MkContainer {
  started : bool;
  quarantined : bool;
  retired : bool;
  container : WslcContainer;
  container_session : string;
  exec_slot : option ExecSlotGuard;
}.

Record PendingProvision : Type := MkPendingProvision {
  pending_config : ProvisionConfig;
  pending_reply : ReplyId;
  pending_session : string;
}.

Record InFlightExec : Type := MkInFlight {
  run_container : WslcContainer;
  run_done : ReplyId;
  run_session : string;
  run_slot : option ExecSlotGuard;
  run_parked : list ContainerWork;
}.

Record PendingSession : Type := MkPendingSession {
  booting_store : option StoreSlots.StoreSlotLease;
  booting_name : string;
  booting_sizing : SessionSizing;
  booting_reply : option ReplyId;
  booting_parked : list (ProvisionConfig * ReplyId);
  requested : Z;
  abandoned : bool;
}.

Record SessionEntry : Type := MkSession {
  session : WslcSession;
  store : StoreSlots.StoreSlotLease;
  name : string;
  sizing : SessionSizing;
  empty_since : option Z;
}.

Record Worker : Type := MkWorker {
  pending : gmap Z PendingProvision;
  exec_in_flight : gmap string InFlightExec;
  release_began : gmap string Z;
  returned_slots_unleased : nat;
  next_pull_token : Z;
  pending_sessions : gmap string PendingSession;
  default_session : option string;
  containers : gmap string ContainerEntry;
  sessions : gmap string SessionEntry;
  sdk : bool;
}.

Definition Worker_new : Worker := MkWorker ∅ ∅ ∅ 0 0 ∅ None ∅ ∅ false.

Inductive SessionLookup : Type :=
| Ready (session_ref : string)
| Booting (session_ref : string).

(** [SessionRelease]: both parts are present until the thread takes them. *)
Record SessionRelease : Type := MkRelease {
  release_session : option WslcSession;
  release_store : option StoreSlots.StoreSlotLease;
  release_name : string;
}.

Record SessionJob : Type := MkJob {
  job_name : string;
  job_store : string;
  job_sizing : SessionSizing;
}.

Definition SESSION_NAME_PREFIX : string := "mxc-wslc-daemon".

Definition session_name (session_ref : string) : string :=
  let suffix := match rsplit_once ":" session_ref with
                | Some (_, suffix) => suffix
                | None => session_ref
                end in
  SESSION_NAME_PREFIX +:+ "-" +:+ suffix.

Inductive RegistryAccess : Type := AccessAllowed | AccessDenied.
Inductive ImageStep : Type := ImageReady | ImagePull.

(** [policy_mapping::VolumeMount]. *)
Record MountedVolume : Type := MkMount {
  windows_path : string;
  container_path : string;
  mount_read_only : bool;
}.

Definition to_model_port_mappings (mappings : list DaemonPortMapping) : list PortMapping :=
  (fun mapping => MkPortMapping (daemon_windows_port mapping) (daemon_container_port mapping) "tcp")
    <$> mappings.

End WslcTypes.
