(* ===== verification/WslcWorld.v ===== *)
(** * The WSLC daemon: threads, channels and the outside world

    The worker of [bin/wslc_daemon/session_manager.rs] owns every SDK handle
    and shares three things with the threads it starts: the command queue, the
    in-flight counters, and the pool of store slots.  A [World] is the worker
    together with that shared part and with the threads themselves; calls out
    of the program (clock, identifiers, threads, SDK) are the questions [Call]
    of an environment.  Every call is also a point where the other threads may
    run ([sched]).

    An in-flight counter counts the guards ([ExecCount], [SessionCount],
    [PullCount]) that are alive, one per thread, from the spawn until the
    thread ends, so its value is read off the list of threads.

    The ghost part of a [World] plays the role of a sanitizer: [vms] records
    which utility VM may have which store mounted, and [violations] each use of
    a handle or a slot that the SDK forbids. *)

From stdpp Require Import gmap.
From S2P Require Import Prelude Requests WslcSlots WslcTypes.

#[local] Open Scope Z_scope.

Module WslcWorld.
Export WslcTypes.

(** ** Calls out of the program *)

Inductive Call : Type -> Type :=
| Now : Call Z
| NewV4 : Call string
| Spawn (thread_name : string) : Call (result string unit)
| CreateDirAll (path : string) : Call (result string unit)
| SessionGrace : Call Z
| SessionBootDeadline : Call Z
| DaemonPullBudget : Call Z
| ReceiverGone (reply : ReplyId) : Call bool
| CancellationLoad (flag : Z) : Call bool
| LoadSdkChecked : Call (result ScriptResponse unit)
| BeginResolve (session : WslcSession) (image : string) (image_tar_path : option string)
    (slot : nat) (registry : RegistryAccess) : Call (result ScriptResponse ImageStep)
| ReportPulledDigest (session : WslcSession) (image : string) : Call (result ScriptResponse unit)
| BuildKeepalive : Call (result ScriptResponse unit)
| CreateDaemonContainer (session : WslcSession) (image : string) (mounts : list MountedVolume)
    (ports : list PortMapping) (net_mode : NetworkMode) (gpu : bool)
    : Call (result ScriptResponse WslcContainer)
| StartDaemonContainer (c : WslcContainer) : Call (result ScriptResponse unit)
| StopDaemonContainer (c : WslcContainer) : Call (result ScriptResponse unit)
| DeleteDaemonContainer (c : WslcContainer) : Call (result ScriptResponse unit).

(** The environment answers calls and keeps the identifiers it has drawn:
    version-4 UUIDs are never drawn twice.  [iter] is the unspecified order in
    which a [HashMap] yields its entries. *)
Class Env (E : Type) := {
  ask : forall A, Call A -> E -> A * E;
  drawn : E -> gset string;
  ask_drawn : forall A (c : Call A) e, drawn (ask A c e).2 =
    match c in Call A return A -> gset string with
    | NewV4 => fun u => {[u]} ∪ drawn e
    | _ => fun _ => drawn e
    end (ask A c e).1;
  new_v4_fresh : forall e, (ask _ NewV4 e).1 ∉ drawn e;
  iter : forall K `{Countable K} A, gmap K A -> list (K * A);
  iter_permutation : forall K `{Countable K} A (m : gmap K A), iter K A m ≡ₚ map_to_list m;
}.

Arguments ask {E _ A} c e.
Arguments iter {E _ K _ _ A} m.

(** ** Threads *)

(** A thread reports to the queue first and releases its count when it ends. *)
Inductive Phase : Type := Running | Reported.

Record BootThread : Type := MkBoot {
  boot_ref : string;
  boot_job : SessionJob;
  boot_phase : Phase;
}.

Record PullThread : Type := MkPull {
  pull_token : Z;
  pull_session : string;
  pull_phase : Phase;
}.

Record DeadlineThread : Type := MkDeadline {
  deadline_token : Z;
  deadline_image : string;
  deadline_budget : Z;
}.

Record RunThread : Type := MkRun {
  thread_sandbox : string;
  thread_container : WslcContainer;
  thread_session : string;
  thread_phase : Phase;
}.

(** [releasing_notify]: whether the worker asked to be told. *)
Record ReleaseThread : Type := MkReleasing {
  releasing_ref : string;
  releasing_job : SessionRelease;
  releasing_reply : option ReplyId;
  releasing_notify : bool;
  releasing_phase : Phase;
}.

(** Forbidden uses of what the SDK or the pool handed out. *)
Inductive Violation : Type :=
| ContainerInUse (sandbox_id : string)
| SessionInUse (session_ref : string)
| SlotMounted (slot : nat)
| SdkInUse
| SdkGone.

(** Why a reply channel was dropped without an answer. *)
Inductive DropReason : Type :=
| NotAdmitted
| ClientGone
| NoReleaseThread
| WorkerGone
| UnansweredBoot.

(** [queue] is the worker's channel, [sent] the answers given so far.
    Ghost: [dropped] the reply channels dropped unanswered, [issued] all that
    clients sent, [vms] the store slot each utility VM may hold open,
    [forgotten] the store leases leaked by [mem::forget], [leaked] the sessions
    leaked while they may be in use, [lost_boots] and [lost_runs] the reports
    nobody waits for any more. *)
Record World {E : Type} : Type := MkWorld {
  wk : Worker;
  ext : E;
  pool : StoreSlots.StoreSlotPool;
  queue : list WorkerCommand;
  boots : list BootThread;
  pulls : list PullThread;
  deadlines : list DeadlineThread;
  runs : list RunThread;
  releases : list ReleaseThread;
  sent : list (ReplyId * Answer);
  dropped : list (ReplyId * DropReason);
  issued : list ReplyId;
  vms : gmap string nat;
  forgotten : list (string * nat);
  leaked : list string;
  lost_boots : list string;
  lost_runs : list string;
  sdk_unloaded : bool;
  violations : list Violation;
}.
Arguments World : clear implicits.

Section Threads.
Context {E : Type} `{Env E}.
Implicit Types w : World E.

Definition set_wk (x : Worker) w : World E :=
  MkWorld _ x (ext w) (pool w) (queue w) (boots w) (pulls w) (deadlines w) (runs w) (releases w) (sent w)
    (dropped w) (issued w) (vms w) (forgotten w) (leaked w) (lost_boots w) (lost_runs w)
    (sdk_unloaded w) (violations w).
Definition set_ext (x : E) w : World E :=
  MkWorld _ (wk w) x (pool w) (queue w) (boots w) (pulls w) (deadlines w) (runs w) (releases w) (sent w)
    (dropped w) (issued w) (vms w) (forgotten w) (leaked w) (lost_boots w) (lost_runs w)
    (sdk_unloaded w) (violations w).
Definition set_pool (x : StoreSlots.StoreSlotPool) w : World E :=
  MkWorld _ (wk w) (ext w) x (queue w) (boots w) (pulls w) (deadlines w) (runs w) (releases w) (sent w)
    (dropped w) (issued w) (vms w) (forgotten w) (leaked w) (lost_boots w) (lost_runs w)
    (sdk_unloaded w) (violations w).
Definition set_queue (x : list WorkerCommand) w : World E :=
  MkWorld _ (wk w) (ext w) (pool w) x (boots w) (pulls w) (deadlines w) (runs w) (releases w) (sent w)
    (dropped w) (issued w) (vms w) (forgotten w) (leaked w) (lost_boots w) (lost_runs w)
    (sdk_unloaded w) (violations w).
Definition set_boots (x : list BootThread) w : World E :=
  MkWorld _ (wk w) (ext w) (pool w) (queue w) x (pulls w) (deadlines w) (runs w) (releases w) (sent w)
    (dropped w) (issued w) (vms w) (forgotten w) (leaked w) (lost_boots w) (lost_runs w)
    (sdk_unloaded w) (violations w).
Definition set_pulls (x : list PullThread) w : World E :=
  MkWorld _ (wk w) (ext w) (pool w) (queue w) (boots w) x (deadlines w) (runs w) (releases w) (sent w)
    (dropped w) (issued w) (vms w) (forgotten w) (leaked w) (lost_boots w) (lost_runs w)
    (sdk_unloaded w) (violations w).
Definition set_deadlines (x : list DeadlineThread) w : World E :=
  MkWorld _ (wk w) (ext w) (pool w) (queue w) (boots w) (pulls w) x (runs w) (releases w) (sent w)
    (dropped w) (issued w) (vms w) (forgotten w) (leaked w) (lost_boots w) (lost_runs w)
    (sdk_unloaded w) (violations w).
Definition set_runs (x : list RunThread) w : World E :=
  MkWorld _ (wk w) (ext w) (pool w) (queue w) (boots w) (pulls w) (deadlines w) x (releases w) (sent w)
    (dropped w) (issued w) (vms w) (forgotten w) (leaked w) (lost_boots w) (lost_runs w)
    (sdk_unloaded w) (violations w).
Definition set_releases (x : list ReleaseThread) w : World E :=
  MkWorld _ (wk w) (ext w) (pool w) (queue w) (boots w) (pulls w) (deadlines w) (runs w) x (sent w)
    (dropped w) (issued w) (vms w) (forgotten w) (leaked w) (lost_boots w) (lost_runs w)
    (sdk_unloaded w) (violations w).
Definition set_vms (x : gmap string nat) w : World E :=
  MkWorld _ (wk w) (ext w) (pool w) (queue w) (boots w) (pulls w) (deadlines w) (runs w) (releases w) (sent w)
    (dropped w) (issued w) x (forgotten w) (leaked w) (lost_boots w) (lost_runs w)
    (sdk_unloaded w) (violations w).

(** Ghost updates of the ledgers. *)
Definition log_sent (reply : ReplyId) (a : Answer) w : World E :=
  MkWorld _ (wk w) (ext w) (pool w) (queue w) (boots w) (pulls w) (deadlines w) (runs w) (releases w)
    (sent w ++ [(reply, a)])
    (dropped w) (issued w) (vms w) (forgotten w) (leaked w) (lost_boots w) (lost_runs w)
    (sdk_unloaded w) (violations w).
Definition log_dropped (reply : ReplyId) (why : DropReason) w : World E :=
  MkWorld _ (wk w) (ext w) (pool w) (queue w) (boots w) (pulls w) (deadlines w) (runs w) (releases w)
    (sent w) (dropped w ++ [(reply, why)])
    (issued w) (vms w) (forgotten w) (leaked w) (lost_boots w) (lost_runs w)
    (sdk_unloaded w) (violations w).
Definition log_issued (replies : list ReplyId) w : World E :=
  MkWorld _ (wk w) (ext w) (pool w) (queue w) (boots w) (pulls w) (deadlines w) (runs w) (releases w)
    (sent w) (dropped w) (replies ++ issued w)
    (vms w) (forgotten w) (leaked w) (lost_boots w) (lost_runs w)
    (sdk_unloaded w) (violations w).
Definition log_forgotten (leases : list (string * nat)) w : World E :=
  MkWorld _ (wk w) (ext w) (pool w) (queue w) (boots w) (pulls w) (deadlines w) (runs w) (releases w)
    (sent w) (dropped w) (issued w) (vms w) (leases ++ forgotten w)
    (leaked w) (lost_boots w) (lost_runs w)
    (sdk_unloaded w) (violations w).
Definition log_leaked (session_refs : list string) w : World E :=
  MkWorld _ (wk w) (ext w) (pool w) (queue w) (boots w) (pulls w) (deadlines w) (runs w) (releases w)
    (sent w) (dropped w) (issued w) (vms w) (forgotten w) (session_refs ++ leaked w)
    (lost_boots w) (lost_runs w)
    (sdk_unloaded w) (violations w).
Definition log_lost_boots (session_refs : list string) w : World E :=
  MkWorld _ (wk w) (ext w) (pool w) (queue w) (boots w) (pulls w) (deadlines w) (runs w) (releases w)
    (sent w) (dropped w) (issued w) (vms w) (forgotten w) (leaked w)
    (session_refs ++ lost_boots w) (lost_runs w)
    (sdk_unloaded w) (violations w).
Definition log_lost_runs (sandbox_ids : list string) w : World E :=
  MkWorld _ (wk w) (ext w) (pool w) (queue w) (boots w) (pulls w) (deadlines w) (runs w) (releases w)
    (sent w) (dropped w) (issued w) (vms w) (forgotten w) (leaked w)
    (lost_boots w) (sandbox_ids ++ lost_runs w)
    (sdk_unloaded w) (violations w).
Definition log_violation (v : Violation) w : World E :=
  MkWorld _ (wk w) (ext w) (pool w) (queue w) (boots w) (pulls w) (deadlines w) (runs w) (releases w)
    (sent w) (dropped w) (issued w) (vms w) (forgotten w) (leaked w)
    (lost_boots w) (lost_runs w)
    (sdk_unloaded w) (v :: violations w).
Definition unload_sdk w : World E :=
  MkWorld _ (wk w) (ext w) (pool w) (queue w) (boots w) (pulls w) (deadlines w) (runs w) (releases w)
    (sent w) (dropped w) (issued w) (vms w) (forgotten w) (leaked w)
    (lost_boots w) (lost_runs w) true (violations w).

(** The sanitizer: [v] is recorded unless [ok]. *)
Definition expect_that (ok : bool) (v : Violation) w : World E :=
  if ok then w else log_violation v w.

Definition push (cmd : WorkerCommand) w : World E := set_queue (queue w ++ [cmd]) w.

Definition is_running (p : Phase) : bool := match p with Running => true | Reported => false end.

(** The counters. *)
Definition execs_in_flight w : nat := length (runs w).
Definition sessions_in_flight w : nat := length (boots w).
Definition releases_in_flight w : nat := length (releases w).
Definition pulls_in_flight (session_ref : string) w : nat :=
  length (filter (fun t => pull_session t = session_ref) (pulls w)).

(** No run uses the container of [sandbox_id]. *)
Definition container_free (sandbox_id : string) w : bool :=
  forallb (fun t => negb (is_running (thread_phase t) && bool_decide (thread_sandbox t = sandbox_id))) (runs w).

(** Nothing uses session [session_ref]: no pull, no run, no container handle of
    the worker. *)
Definition session_free (session_ref : string) w : bool :=
  forallb (fun t => negb (is_running (pull_phase t) && bool_decide (pull_session t = session_ref))) (pulls w) &&
  forallb (fun t => negb (is_running (thread_phase t) && bool_decide (thread_session t = session_ref))) (runs w) &&
  forallb (fun c => negb (bool_decide (container_session c.2 = session_ref))) (map_to_list (containers (wk w))).

(** No VM has the slot mounted. *)
Definition slot_free (slot : nat) w : bool :=
  forallb (fun vm => negb (bool_decide (vm.2 = slot))) (map_to_list (vms w)).

(** Nothing needs the SDK any more: no thread runs, no handle is left. *)
Definition sdk_idle w : bool :=
  forallb (fun t => negb (is_running (boot_phase t))) (boots w) &&
  forallb (fun t => negb (is_running (pull_phase t))) (pulls w) &&
  forallb (fun t => negb (is_running (thread_phase t))) (runs w) &&
  forallb (fun t => negb (is_running (releasing_phase t))) (releases w) &&
  forallb (fun c => match c with SessionBooted _ (Ok _) => false | _ => true end) (queue w) &&
  bool_decide (containers (wk w) = ∅) && bool_decide (sessions (wk w) = ∅).

(** [drop(lease)]: the slot goes back to the pool. *)
Definition return_slot (lease : StoreSlots.StoreSlotLease) w : World E :=
  let w := expect_that (slot_free (StoreSlots.index lease) w) (SlotMounted (StoreSlots.index lease)) w in
  set_pool (StoreSlots.drop_lease lease (pool w)) w.

(** [mem::forget(lease)]. *)
Definition forget_lease (session_ref : string) (lease : StoreSlots.StoreSlotLease) w : World E :=
  log_forgotten [(session_ref, StoreSlots.index lease)] w.

(** *** The boot thread, [start_session_boot] *)

(** It reports what [create_daemon_session] returned; a failure that does not
    say the store may be held left no VM behind. *)
Definition boot_reports (outcome : result BootFailure WslcSession) (l1 l2 : list BootThread) (t : BootThread) w
    : World E :=
  let w := expect_that (negb (sdk_unloaded w)) SdkGone w in
  let w := set_boots (l1 ++ MkBoot (boot_ref t) (boot_job t) Reported :: l2) w in
  let gone := match outcome with Err failure => negb (store_may_be_held failure) | Ok _ => false end in
  let w := set_vms (if (gone : bool) then delete (boot_ref t) (vms w) else vms w) w in
  push (SessionBooted (boot_ref t) outcome) w.

(** *** The pull thread, [image::start_pull_counted] *)

Definition pull_reports (outcome : result ScriptResponse unit) (l1 l2 : list PullThread) (t : PullThread) w
    : World E :=
  let w := expect_that (negb (sdk_unloaded w)) SdkGone w in
  let w := set_pulls (l1 ++ MkPull (pull_token t) (pull_session t) Reported :: l2) w in
  push (PullFinished (pull_token t) outcome) w.

Definition PULL_TIMEOUT_ENV : string := "MXC_WSLC_PULL_TIMEOUT_SECS".
Definition CALL_TIMEOUT_ENV : string := "MXC_WSLC_DAEMON_CALL_TIMEOUT_SECS".

Definition pull_deadline_expired (image : string) (budget : Z) : ScriptResponse :=
  into_response (WslcHost ("WSLC image '" +:+ image +:+ "' did not finish pulling within " +:+
    dec (as_secs budget) +:+ "s. The transfer was abandoned and this sandbox was not created. Retry, raise " +:+
    PULL_TIMEOUT_ENV +:+ " (a state-aware run needs " +:+ CALL_TIMEOUT_ENV +:+
    " raised past it as well), or warm the cache from a machine that can reach the registry.")).

(** *** The exec thread, [start_exec] *)

Definition run_reports (report : ExecReport) (l1 l2 : list RunThread) (t : RunThread) w : World E :=
  let w := expect_that (negb (sdk_unloaded w)) SdkGone w in
  let w := set_runs (l1 ++ MkRun (thread_sandbox t) (thread_container t) (thread_session t) Reported :: l2) w in
  push (ExecFinished (thread_sandbox t) report) w.

(** *** The release thread, [start_session_release] *)

(** What the thread found: no COM apartment, or what
    [release_daemon_session] returned. *)
Inductive ReleaseOutcome : Type :=
| NoApartment (e : string)
| Stopped
| StillRunning (e : ScriptResponse).

(** [Drop for SessionRelease]: a release that never ran leaks both parts. *)
Definition drop_release (session_ref : string) (job : SessionRelease) w : World E :=
  match release_store job with
  | Some lease => forget_lease session_ref lease w
  | None => w
  end.

Definition send_opt (reply : option ReplyId) (a : Answer) w : World E :=
  match reply with Some reply => log_sent reply a w | None => w end.

(** The body of the thread: the outcome for the client and whether the slot
    came back. *)
Definition terminate (session_ref : string) (job : SessionRelease) (outcome : ReleaseOutcome) w
    : World E * result WorkerError unit * bool :=
  match outcome with
  | NoApartment e => (drop_release session_ref job w, Err (Backend e), false)
  | Stopped =>
      let w := expect_that (session_free session_ref w) (SessionInUse session_ref) w in
      let w := set_vms (delete session_ref (vms w)) w in
      match release_store job with
      | Some lease => (return_slot lease w, Ok tt, true)
      | None => (w, Ok tt, false)
      end
  | StillRunning e =>
      let w := expect_that (session_free session_ref w) (SessionInUse session_ref) w in
      (drop_release session_ref job w, Err (sr_err e), false)
  end.

Definition release_reports (outcome : ReleaseOutcome) (l1 l2 : list ReleaseThread) (t : ReleaseThread) w
    : World E :=
  let w := expect_that (negb (sdk_unloaded w)) SdkGone w in
  let '(w, answer, slot_returned) := terminate (releasing_ref t) (releasing_job t) outcome w in
  let w := set_releases (l1 ++ MkReleasing (releasing_ref t) (releasing_job t) None false Reported :: l2) w in
  let w := send_opt (releasing_reply t) (ReplyUnit answer) w in
  if releasing_notify t then push (SessionReleased (releasing_ref t) slot_returned) w else w.

(** One step of one thread, at any time: it reports, or it ends and releases
    its count.  A deadline thread only lives while its provision is parked. *)
Inductive thread_step : World E -> World E -> Prop :=
| step_boot_reports w l1 t l2 outcome :
    boots w = l1 ++ t :: l2 -> boot_phase t = Running -> thread_step w (boot_reports outcome l1 l2 t w)
| step_boot_ends w l1 t l2 :
    boots w = l1 ++ t :: l2 -> boot_phase t = Reported -> thread_step w (set_boots (l1 ++ l2) w)
| step_pull_reports w l1 t l2 outcome :
    pulls w = l1 ++ t :: l2 -> pull_phase t = Running -> thread_step w (pull_reports outcome l1 l2 t w)
| step_pull_ends w l1 t l2 :
    pulls w = l1 ++ t :: l2 -> pull_phase t = Reported -> thread_step w (set_pulls (l1 ++ l2) w)
| step_deadline_fires w l1 t l2 :
    deadlines w = l1 ++ t :: l2 -> is_Some (pending (wk w) !! deadline_token t) ->
    thread_step w (push (PullFinished (deadline_token t)
                           (Err (pull_deadline_expired (deadline_image t) (deadline_budget t))))
                     (set_deadlines (l1 ++ l2) w))
| step_deadline_retires w l1 t l2 :
    deadlines w = l1 ++ t :: l2 -> pending (wk w) !! deadline_token t = None ->
    thread_step w (set_deadlines (l1 ++ l2) w)
| step_run_reports w l1 t l2 report :
    runs w = l1 ++ t :: l2 -> thread_phase t = Running -> thread_step w (run_reports report l1 l2 t w)
| step_run_ends w l1 t l2 :
    runs w = l1 ++ t :: l2 -> thread_phase t = Reported -> thread_step w (set_runs (l1 ++ l2) w)
| step_release_reports w l1 t l2 outcome :
    releases w = l1 ++ t :: l2 -> releasing_phase t = Running ->
    thread_step w (release_reports outcome l1 l2 t w)
| step_release_ends w l1 t l2 :
    releases w = l1 ++ t :: l2 -> releasing_phase t = Reported -> thread_step w (set_releases (l1 ++ l2) w).

End Threads.
End WslcWorld.
