(* ===== verification/WslcWorker.v ===== *)
(** * The WSLC daemon: the worker

    [impl Worker] of [bin/wslc_daemon/session_manager.rs], one definition per
    method, and the command loop of [spawn].  A method runs in the monad
    [stateful (World E) Panic]: the error of the monad is a Rust panic (a
    failed [expect], an index into a map that has no such key), while failures
    the code handles are values of [result WorkerError].  Replies are logged in
    the order they are sent.  The ghost calls ([expect_that], [log_dropped],
    [log_forgotten], ...) record what the drops and [mem::forget]s of the source
    do to handles, slots and reply channels. *)

From stdpp Require Import gmap.
From S2P Require Import Prelude Requests WslcSlots WslcTypes WslcWorld.

#[local] Open Scope Z_scope.

Module WslcWorker.
Export WslcWorld.

Inductive Panic : Type :=
| Panicked (message : string)
| OutOfFuel.

(** [slice::sort_by_key], stable. *)
Fixpoint insert_by_key {A} (key : A -> Z) (x : A) (l : list A) : list A :=
  match l with
  | [] => [x]
  | y :: l' => if key x <=? key y then x :: l else y :: insert_by_key key x l'
  end.
Definition sort_by_key {A} (key : A -> Z) (l : list A) : list A := foldr (insert_by_key key) [] l.

Section Worker.
Context {E : Type} `{!Env E}.

(** What the other threads do while the worker is in a call. *)
Context (sched : World E -> World E).

Abbreviation M := (stateful (World E) Panic).

Definition call {A} (c : Call A) : M A := fun w =>
  let w := sched w in
  let '(a, e) := ask c (ext w) in (Ok a, set_ext e w).

Definition self {A} (f : Worker -> A) : M A := gets (fun w => f (wk w)).
Definition update (f : Worker -> Worker) : M unit := modify (fun w => set_wk (f (wk w)) w).

Definition expect {A} (o : option A) (message : string) : M A :=
  match o with Some a => mret a | None => throw (Panicked message) end.

Definition send (reply : ReplyId) (a : Answer) : M unit := modify (log_sent reply a).
Definition drop_reply (reply : ReplyId) (why : DropReason) : M unit := modify (log_dropped reply why).

(** *** Field updates *)

Definition set_pending x (s : Worker) := MkWorker x (exec_in_flight s) (release_began s)
  (returned_slots_unleased s) (next_pull_token s) (pending_sessions s) (default_session s)
  (containers s) (sessions s) (sdk s).
Definition set_exec_in_flight x (s : Worker) := MkWorker (pending s) x (release_began s)
  (returned_slots_unleased s) (next_pull_token s) (pending_sessions s) (default_session s)
  (containers s) (sessions s) (sdk s).
Definition set_release_began x (s : Worker) := MkWorker (pending s) (exec_in_flight s) x
  (returned_slots_unleased s) (next_pull_token s) (pending_sessions s) (default_session s)
  (containers s) (sessions s) (sdk s).
Definition set_returned_slots x (s : Worker) := MkWorker (pending s) (exec_in_flight s) (release_began s)
  x (next_pull_token s) (pending_sessions s) (default_session s)
  (containers s) (sessions s) (sdk s).
Definition set_next_pull_token x (s : Worker) := MkWorker (pending s) (exec_in_flight s) (release_began s)
  (returned_slots_unleased s) x (pending_sessions s) (default_session s)
  (containers s) (sessions s) (sdk s).
Definition set_pending_sessions x (s : Worker) := MkWorker (pending s) (exec_in_flight s) (release_began s)
  (returned_slots_unleased s) (next_pull_token s) x (default_session s)
  (containers s) (sessions s) (sdk s).
Definition set_default_session x (s : Worker) := MkWorker (pending s) (exec_in_flight s) (release_began s)
  (returned_slots_unleased s) (next_pull_token s) (pending_sessions s) x
  (containers s) (sessions s) (sdk s).
Definition set_containers x (s : Worker) := MkWorker (pending s) (exec_in_flight s) (release_began s)
  (returned_slots_unleased s) (next_pull_token s) (pending_sessions s) (default_session s)
  x (sessions s) (sdk s).
Definition set_sessions x (s : Worker) := MkWorker (pending s) (exec_in_flight s) (release_began s)
  (returned_slots_unleased s) (next_pull_token s) (pending_sessions s) (default_session s)
  (containers s) x (sdk s).
Definition set_sdk x (s : Worker) := MkWorker (pending s) (exec_in_flight s) (release_began s)
  (returned_slots_unleased s) (next_pull_token s) (pending_sessions s) (default_session s)
  (containers s) (sessions s) x.

(** ** What a session holds *)

Definition session_hold (w : World E) (session_ref : string) : nat :=
  let s := wk w in
  (length (filter (fun e => container_session e.2 = session_ref) (map_to_list (containers s)))
   + length (filter (fun p => pending_session p.2 = session_ref) (map_to_list (pending s)))
   + length (filter (fun x => run_session x.2 = session_ref) (map_to_list (exec_in_flight s)))
   + match sessions s !! session_ref with Some _ => pulls_in_flight session_ref w | None => 0 end)%nat.

Definition bump (holds : gmap string nat) (session_ref : string) : gmap string nat :=
  match holds !! session_ref with
  | Some hold => <[session_ref := S hold]> holds
  | None => holds
  end.

Definition session_holds (w : World E) : gmap string nat :=
  let s := wk w in
  let holds := fmap (fun _ => 0%nat) (sessions s) in
  let holds := foldl bump holds ((fun e => container_session e.2) <$> iter (containers s)) in
  let holds := foldl bump holds ((fun p => pending_session p.2) <$> iter (pending s)) in
  let holds := foldl bump holds ((fun x => run_session x.2) <$> iter (exec_in_flight s)) in
  foldl (fun holds e => match holds !! e.1 with
                        | Some hold => <[e.1 := (hold + pulls_in_flight e.1 w)%nat]> holds
                        | None => holds
                        end) holds (iter (sessions s)).

(** ** Booting sessions *)

Definition ensure_sdk : M (result WorkerError unit) :=
  loaded ← self sdk;
  if (loaded : bool) then mret (Ok tt)
  else
    r ← call LoadSdkChecked;
    match r with
    | Err e => mret (Err (sr_err e))
    | Ok _ => _ ← update (set_sdk true); mret (Ok tt)
    end.

(** The VM of [session_ref] may open its store from here on. *)
Definition start_session_boot (job : SessionJob) (session_ref : string) (slot : nat)
    : M (result string unit) :=
  spawned ← call (Spawn "wslc-session-boot");
  match spawned with
  | Err e => mret (Err e)
  | Ok _ =>
      _ ← modify (fun w => expect_that (slot_free slot w) (SlotMounted slot) w);
      _ ← modify (fun w => set_vms (<[session_ref := slot]> (vms w))
                             (set_boots (boots w ++ [MkBoot session_ref job Running]) w));
      mret (Ok tt)
  end.

Definition lease_and_boot (session_ref name : string) (sizing : SessionSizing)
    : M (result WorkerError StoreSlots.StoreSlotLease) :=
  loaded ← ensure_sdk;
  match loaded with
  | Err e => mret (Err e)
  | Ok _ =>
      leased ← StoreSlots.lease_with pool set_pool (fun path => call (CreateDirAll path))
                 (fun _ => mret (Ok tt : result Empty_set unit));
      match leased with
      | Err e => mret (Err (Backend (StoreSlots.StoreSlotError_display e)))
      | Ok (store, _) =>
          have_sdk ← self sdk;
          _ ← expect (if (have_sdk : bool) then Some tt else None) "sdk loaded above";
          let job := MkJob name (StoreSlots.path store) sizing in
          booted ← start_session_boot job session_ref (StoreSlots.index store);
          match booted with
          | Err e =>
              _ ← modify (return_slot store);
              mret (Err (Backend ("could not start a thread to boot session " +:+ session_ref +:+ ": " +:+ e)))
          | Ok _ =>
              _ ← update (fun s => set_returned_slots (pred (returned_slots_unleased s)) s);
              mret (Ok store)
          end
      end
  end.

Definition should_wait_for_a_release (s : Worker) (now : Z) : bool :=
  bool_decide (returned_slots_unleased s = 0%nat) &&
  existsb (fun began => saturating_duration_since now began.2 <? RELEASE_WAIT)
    (map_to_list (release_began s)).

Definition begin_session (sizing : SessionSizing) : M (result WorkerError string) :=
  uuid ← call NewV4;
  let session_ref := "wslcsess:" +:+ uuid in
  let name := session_name session_ref in
  now ← call Now;
  waits ← self (fun s => should_wait_for_a_release s now);
  if (waits : bool) then
    requested ← call Now;
    _ ← update (fun s => set_pending_sessions
          (<[session_ref := MkPendingSession None name sizing None [] requested false]> (pending_sessions s)) s);
    mret (Ok session_ref)
  else
    booted ← lease_and_boot session_ref name sizing;
    match booted with
    | Err e => mret (Err e)
    | Ok store =>
        requested ← call Now;
        _ ← update (fun s => set_pending_sessions
              (<[session_ref := MkPendingSession (Some store) name sizing None [] requested false]>
                 (pending_sessions s)) s);
        mret (Ok session_ref)
    end.

(** A reply that would be overwritten is dropped. *)
Definition attach_session_reply (session_ref : string) (reply : ReplyId) : M unit :=
  found ← self (fun s => pending_sessions s !! session_ref);
  match found with
  | Some p =>
      update (fun s => set_pending_sessions
        (<[session_ref := MkPendingSession (booting_store p) (booting_name p) (booting_sizing p) (Some reply)
             (booting_parked p) (requested p) (abandoned p)]> (pending_sessions s)) s)
  | None => send reply (ReplyId_ (Ok session_ref))
  end.

Definition touched (session_ref : string) (s : Worker) : Worker :=
  match sessions s !! session_ref with
  | Some e => set_sessions (<[session_ref := MkSession (session e) (store e) (name e) (sizing e) None]>
                              (sessions s)) s
  | None => s
  end.

Definition touch_session (session_ref : string) : M unit := update (touched session_ref).

Definition is_booting (s : Worker) (session_ref : string) : bool :=
  is_some_and (fun p => negb (abandoned p)) (pending_sessions s !! session_ref).

Definition has_session (s : Worker) (session_ref : string) : bool :=
  bool_decide (is_Some (sessions s !! session_ref)).

Definition ensure_session (requested : option string) : M (result WorkerError SessionLookup) :=
  match requested with
  | Some session_ref =>
      s ← self id;
      mret (if has_session s session_ref then Ok (Ready session_ref)
            else if is_booting s session_ref then Ok (Booting session_ref)
            else Err (UnknownSession session_ref))
  | None =>
      s ← self id;
      let existing := match default_session s with
                      | Some existing =>
                          if has_session s existing then Some (Ready existing)
                          else if is_booting s existing then Some (Booting existing) else None
                      | None => None
                      end in
      match existing with
      | Some found => mret (Ok found)
      | None =>
          begun ← begin_session SessionSizing_default;
          match begun with
          | Err e => mret (Err e)
          | Ok session_ref =>
              _ ← update (set_default_session (Some session_ref));
              mret (Ok (Booting session_ref))
          end
      end
  end.

(** ** Provisioning containers *)

Definition create_provisioned_container (config : ProvisionConfig) (session_ref : string)
    : M (result WorkerError string) :=
  have_sdk ← self sdk;
  _ ← expect (if (have_sdk : bool) then Some tt else None) "session ensured";
  found ← self (fun s => sessions s !! session_ref);
  entry ← expect found session_ref;
  let mounts := (fun v => MkMount (volume_host v) (volume_container v) (volume_read_only v))
                  <$> provision_volumes config in
  let port_mappings := to_model_port_mappings (provision_port_mappings config) in
  keepalive ← call BuildKeepalive;
  match keepalive with
  | Err e => mret (Err (sr_err e))
  | Ok _ =>
      created ← call (CreateDaemonContainer (session entry) (provision_image config) mounts port_mappings
                        (provision_network config) (gpu (sizing entry)));
      match created with
      | Err e => mret (Err (sr_err e))
      | Ok handle =>
          uuid ← call NewV4;
          let sandbox_id := "wslc:" +:+ uuid in
          _ ← touch_session session_ref;
          _ ← update (fun s => set_containers
                (<[sandbox_id := MkContainer false false false handle session_ref None]> (containers s)) s);
          mret (Ok sandbox_id)
      end
  end.

(** [image::start_pull_counted]. *)
Definition start_pull_counted (session_ref image : string) (token : Z) : M (result ScriptResponse unit) :=
  spawned ← call (Spawn "wslc-pull");
  match spawned with
  | Err e => mret (Err (into_response (WslcHost
      ("could not start a thread to pull WSLC image '" +:+ image +:+ "': " +:+ e))))
  | Ok _ =>
      _ ← modify (fun w => set_pulls (pulls w ++ [MkPull token session_ref Running]) w);
      mret (Ok tt)
  end.

(** The rest of [begin_provision] for an image that has to be pulled. *)
Definition park_pull (config : ProvisionConfig) (reply : ReplyId) (session_ref : string) : M unit :=
  token ← self next_pull_token;
  _ ← update (fun s => set_next_pull_token (next_pull_token s + 1) s);
  have_session ← self (fun s => sessions s !! session_ref);
  _ ← expect have_session session_ref;
  started ← start_pull_counted session_ref (provision_image config) token;
  match started with
  | Err e => send reply (ReplyId_ (Err (sr_err e)))
  | Ok _ =>
      budget ← call DaemonPullBudget;
      armed ← call (Spawn "wslc-pull-deadline");
      match armed with
      | Err _ => send reply (ReplyId_ (Err (Backend
          ("could not arm the pull deadline for image '" +:+ provision_image config +:+ "'"))))
      | Ok _ =>
          _ ← modify (fun w => set_deadlines (deadlines w ++ [MkDeadline token (provision_image config) budget]) w);
          _ ← touch_session session_ref;
          update (fun s => set_pending (<[token := MkPendingProvision config reply session_ref]> (pending s)) s)
      end
  end.

Definition registry_access (network : NetworkMode) : RegistryAccess :=
  match network with NetworkNone => AccessDenied | NetworkBridged => AccessAllowed end.

Definition begin_provision (config : ProvisionConfig) (reply : ReplyId) : M unit :=
  found ← ensure_session (provision_session_ref config);
  match found with
  | Err e => send reply (ReplyId_ (Err e))
  | Ok (Booting session_ref) =>
      found ← self (fun s => pending_sessions s !! session_ref);
      p ← expect found "ensure_session reported it booting";
      update (fun s => set_pending_sessions
        (<[session_ref := MkPendingSession (booting_store p) (booting_name p) (booting_sizing p)
             (booting_reply p) (booting_parked p ++ [(config, reply)]) (requested p) (abandoned p)]>
           (pending_sessions s)) s)
  | Ok (Ready session_ref) =>
      have_sdk ← self sdk;
      _ ← expect (if (have_sdk : bool) then Some tt else None) "session ensured";
      found ← self (fun s => sessions s !! session_ref);
      entry ← expect found session_ref;
      step ← call (BeginResolve (session entry) (provision_image config) (provision_image_tar_path config)
                     (StoreSlots.index (store entry)) (registry_access (provision_network config)));
      match step with
      | Err e => send reply (ReplyId_ (Err (sr_err e)))
      | Ok ImageReady =>
          created ← create_provisioned_container config session_ref;
          send reply (ReplyId_ created)
      | Ok ImagePull => park_pull config reply session_ref
      end
  end.

Definition finish_provision (token : Z) (outcome : result ScriptResponse unit) : M unit :=
  found ← self (fun s => pending s !! token);
  match found with
  | None => mret tt
  | Some p =>
      _ ← update (fun s => set_pending (delete token (pending s)) s);
      match outcome with
      | Err e => send (pending_reply p) (ReplyId_ (Err (sr_err e)))
      | Ok _ =>
          have_sdk ← self sdk;
          _ ← expect (if (have_sdk : bool) then Some tt else None) "session ensured";
          found ← self (fun s => sessions s !! pending_session p);
          entry ← expect found (pending_session p);
          digest ← call (ReportPulledDigest (session entry) (provision_image (pending_config p)));
          match digest with
          | Err e => send (pending_reply p) (ReplyId_ (Err (sr_err e)))
          | Ok _ =>
              created ← create_provisioned_container (pending_config p) (pending_session p);
              send (pending_reply p) (ReplyId_ created)
          end
      end
  end.

(** ** Releasing sessions *)

(** [start_session_release]: the job comes back when no thread could be
    started, and the reply the closure captured goes with the closure. *)
Definition start_session_release (job : SessionRelease) (session_ref : string) (reply : option ReplyId)
    (notify : bool) : M (result SessionRelease unit) :=
  spawned ← call (Spawn "wslc-session-release");
  match spawned with
  | Ok _ =>
      _ ← modify (fun w => set_releases (releases w ++ [MkReleasing session_ref job reply notify Running]) w);
      mret (Ok tt)
  | Err _ =>
      _ ← match reply with Some reply => drop_reply reply NoReleaseThread | None => mret tt end;
      mret (Err job)
  end.

(** A release whose job, if handed back, is dropped. *)
Definition release_or_leak (job : SessionRelease) (session_ref : string) (notify : bool) : M bool :=
  started ← start_session_release job session_ref None notify;
  match started with
  | Ok _ => mret false
  | Err job => _ ← modify (drop_release session_ref job); mret true
  end.

Definition clear_default (session_ref : string) : M unit :=
  update (fun s => if bool_decide (default_session s = Some session_ref) then set_default_session None s else s).

Definition send_all (replies : list ReplyId) (a : Answer) : M unit :=
  for_each (fun reply => send reply a) replies.

Definition finish_session (session_ref : string) (outcome : result BootFailure WslcSession) : M unit :=
  found ← self (fun s => pending_sessions s !! session_ref);
  match found with
  | None => mret tt
  | Some p =>
      _ ← update (fun s => set_pending_sessions (delete session_ref (pending_sessions s)) s);
      match outcome with
      | Err failure =>
          _ ← clear_default session_ref;
          _ ← match booting_store p with
              | Some store => modify (if store_may_be_held failure then forget_lease session_ref store
                                      else return_slot store)
              | None => mret tt
              end;
          let e := boot_error failure in
          _ ← match booting_reply p with
              | Some reply => send reply (ReplyId_ (Err e))
              | None => mret tt
              end;
          send_all (snd <$> booting_parked p)
            (ReplyId_ (Err (Backend ("the WSLc session this provision was waiting for could not be created: "
                                     +:+ WorkerError_display e))))
      | Ok booted =>
          let unanswered := option_list (booting_reply p) ++ (snd <$> booting_parked p) in
          if abandoned p then
            _ ← release_or_leak (MkRelease (Some booted) (booting_store p) (booting_name p)) session_ref true;
            for_each (fun reply => drop_reply reply UnansweredBoot) unanswered
          else
            match booting_store p with
            | None =>
                _ ← release_or_leak (MkRelease (Some booted) None (booting_name p)) session_ref false;
                for_each (fun reply => drop_reply reply UnansweredBoot) unanswered
            | Some store =>
                _ ← update (fun s => set_sessions
                      (<[session_ref := MkSession booted store (booting_name p) (booting_sizing p) None]>
                         (sessions s)) s);
                _ ← match booting_reply p with
                    | Some reply => send reply (ReplyId_ (Ok session_ref))
                    | None => mret tt
                    end;
                for_each (fun parked => begin_provision parked.1 parked.2) (booting_parked p)
            end
      end
  end.

(** The loop over the boots that wait for a slot, oldest first. *)
Fixpoint start_waiting (now : Z) (waiting : list (string * PendingSession)) : M unit :=
  match waiting with
  | [] => mret tt
  | (session_ref, p) :: waiting =>
      waits ← self (fun s => should_wait_for_a_release s now);
      if (waits : bool) then mret tt
      else
        booted ← lease_and_boot session_ref (booting_name p) (booting_sizing p);
        _ ← match booted with
            | Ok store =>
                update (fun s => match pending_sessions s !! session_ref with
                                 | Some p => set_pending_sessions (<[session_ref :=
                                     MkPendingSession (Some store) (booting_name p) (booting_sizing p)
                                       (booting_reply p) (booting_parked p) (requested p) (abandoned p)]>
                                       (pending_sessions s)) s
                                 | None => s
                                 end)
            | Err e => finish_session session_ref (Err (BootFailure_from e))
            end;
        start_waiting now waiting
  end.

Definition awaits_slot (p : PendingSession) : bool :=
  match booting_store p with None => negb (abandoned p) | Some _ => false end.

Definition start_deferred_boots_at (now : Z) : M unit :=
  all ← self (fun s => iter (pending_sessions s));
  start_waiting now
    (sort_by_key (fun e => requested e.2) (List.filter (fun e => awaits_slot e.2) all)).

Definition start_deferred_boots : M unit := now ← call Now; start_deferred_boots_at now.

Definition finish_release (session_ref : string) (slot_returned : bool) : M unit :=
  _ ← update (fun s => set_release_began (delete session_ref (release_began s)) s);
  _ ← (if slot_returned then update (fun s => set_returned_slots (S (returned_slots_unleased s)) s) else mret tt);
  start_deferred_boots.

Definition release_session_entry (session_ref : string) (reply : option ReplyId) : M unit :=
  found ← self (fun s => sessions s !! session_ref);
  match found with
  | None => match reply with Some reply => send reply (ReplyUnit (Ok tt)) | None => mret tt end
  | Some entry =>
      _ ← update (fun s => set_sessions (delete session_ref (sessions s)) s);
      _ ← clear_default session_ref;
      started ← start_session_release (MkRelease (Some (session entry)) (Some (store entry)) (name entry))
                  session_ref reply true;
      match started with
      | Ok _ =>
          now ← call Now;
          update (fun s => set_release_began (<[session_ref := now]> (release_began s)) s)
      | Err job =>
          match release_session job, release_store job with
          | Some session, Some store =>
              update (fun s => set_sessions
                (<[session_ref := MkSession session store (release_name job) (sizing entry) (empty_since entry)]>
                   (sessions s)) s)
          | _, _ => mret tt
          end
      end
  end.

Definition release_session_op (session_ref : string) (reply : ReplyId) : M unit :=
  known ← self (fun s => has_session s session_ref);
  if negb known then send reply (ReplyUnit (Err (UnknownSession session_ref)))
  else
    implicit ← self (fun s => bool_decide (default_session s = Some session_ref));
    if (implicit : bool) then
      send reply (ReplyUnit (Err (Rejected ("session " +:+ session_ref +:+
        " is the daemon's implicit session and is released only once nothing is using it"))))
    else
      hold ← gets (fun w => session_hold w session_ref);
      if (0 <? hold)%nat then
        send reply (ReplyUnit (Err (Rejected ("session " +:+ session_ref +:+ " still has " +:+
          dec (Z.of_nat hold) +:+ " sandbox(es) or operation(s) in it; deprovision them first"))))
      else release_session_entry session_ref (Some reply).

(** ** The periodic reapers *)

(** One entry of the loop of [reap_stuck_boots_at]: whether it gave up. *)
Definition give_up_if_stuck (now deadline : Z) (session_ref : string) : M bool :=
  found ← self (fun s => pending_sessions s !! session_ref);
  match found with
  | None => mret false
  | Some p =>
      if abandoned p || (saturating_duration_since now (requested p) <? deadline) then mret false
      else
        _ ← update (fun s => set_pending_sessions
              (<[session_ref := MkPendingSession (booting_store p) (booting_name p) (booting_sizing p) None []
                   (requested p) true]> (pending_sessions s)) s);
        _ ← match booting_reply p with
            | Some reply => send reply (ReplyId_ (Err (Backend
                ("the WSLc session did not finish booting within " +:+ dec (as_secs deadline) +:+ "s"))))
            | None => mret tt
            end;
        _ ← send_all (snd <$> booting_parked p) (ReplyId_ (Err (Backend
              ("the WSLc session this provision was waiting for did not finish booting within "
               +:+ dec (as_secs deadline) +:+ "s"))));
        mret true
  end.

Fixpoint give_up_stuck (now deadline : Z) (refs : list string) : M (list string) :=
  match refs with
  | [] => mret []
  | session_ref :: refs =>
      gave_up ← give_up_if_stuck now deadline session_ref;
      rest ← give_up_stuck now deadline refs;
      mret (if (gave_up : bool) then session_ref :: rest else rest)
  end.

Definition retire_stuck (session_ref : string) : M unit :=
  _ ← update (fun s => match pending_sessions s !! session_ref with
                       | Some p => if bool_decide (booting_store p = None)
                                   then set_pending_sessions (delete session_ref (pending_sessions s)) s else s
                       | None => s
                       end);
  clear_default session_ref.

Definition reap_stuck_boots_at (now : Z) : M unit :=
  deadline ← call SessionBootDeadline;
  refs ← self (fun s => fst <$> iter (pending_sessions s));
  gave_up ← give_up_stuck now deadline refs;
  for_each retire_stuck gave_up.

Definition reap_stuck_boots : M unit := now ← call Now; reap_stuck_boots_at now.

(** One entry of the first loop of [reap_idle_sessions_at]: whether the
    session has held nothing for the grace. *)
Definition note_idle (now grace : Z) (session_ref : string) (hold : nat) : M bool :=
  found ← self (fun s => sessions s !! session_ref);
  match found with
  | None => mret false
  | Some e =>
      let set_empty since := update (fun s => set_sessions
        (<[session_ref := MkSession (session e) (store e) (name e) (sizing e) since]> (sessions s)) s) in
      if (0 <? hold)%nat then _ ← set_empty None; mret false
      else
        let since := default now (empty_since e) in
        _ ← set_empty (Some since);
        mret (grace <=? saturating_duration_since now since)
  end.

Fixpoint idle_sessions (now grace : Z) (holds : list (string * nat)) : M (list string) :=
  match holds with
  | [] => mret []
  | (session_ref, hold) :: holds =>
      expired ← note_idle now grace session_ref hold;
      rest ← idle_sessions now grace holds;
      mret (if (expired : bool) then session_ref :: rest else rest)
  end.

Fixpoint release_expired (expired : list string) : M unit :=
  match expired with
  | [] => mret tt
  | session_ref :: expired =>
      busy ← gets releases_in_flight;
      if (MAX_CONCURRENT_RELEASES <=? busy)%nat then mret tt
      else _ ← release_session_entry session_ref None; release_expired expired
  end.

Definition reap_idle_sessions_at (now : Z) : M unit :=
  grace ← call SessionGrace;
  holds ← gets session_holds;
  expired ← idle_sessions now grace (iter holds);
  release_expired expired.

Definition reap_idle_sessions : M unit := now ← call Now; reap_idle_sessions_at now.

(** ** Containers *)

Definition has_container (s : Worker) (sandbox_id : string) : bool :=
  bool_decide (is_Some (containers s !! sandbox_id)).

(** An SDK call on the container of [sandbox_id]. *)
Definition on_container {A} (sandbox_id : string) (c : Call A) : M A :=
  a ← call c;
  _ ← modify (fun w => expect_that (container_free sandbox_id w) (ContainerInUse sandbox_id) w);
  mret a.

(** [containers.remove]: the guard releases the handle. *)
Definition remove_container (sandbox_id : string) : M unit :=
  _ ← modify (fun w => expect_that (container_free sandbox_id w) (ContainerInUse sandbox_id) w);
  update (fun s => set_containers (delete sandbox_id (containers s)) s).

Definition set_started (b : bool) (e : ContainerEntry) : ContainerEntry :=
  MkContainer b (quarantined e) (retired e) (container e) (container_session e) (exec_slot e).

Definition quarantine_message (sandbox_id : string) : string :=
  "sandbox " +:+ sandbox_id +:+ " is quarantined after an exec whose termination could not be confirmed; " +:+
  "deprovision it before reuse".

Definition start (sandbox_id : string) : M (result WorkerError unit) :=
  known ← self (fun s => has_container s sandbox_id);
  if negb known then mret (Err (NotProvisioned sandbox_id))
  else
    have_sdk ← self sdk;
    if negb have_sdk then mret (Err (Backend "no active WSLc session"))
    else
      found ← self (fun s => containers s !! sandbox_id);
      entry ← expect found "checked above";
      if quarantined entry then mret (Err (Backend (quarantine_message sandbox_id)))
      else
        r ← on_container sandbox_id (StartDaemonContainer (container entry));
        match r with
        | Err e => mret (Err (sr_err e))
        | Ok _ =>
            _ ← update (fun s => set_containers (<[sandbox_id := set_started true entry]> (containers s)) s);
            mret (Ok tt)
        end.

Definition stop (sandbox_id : string) : M (result WorkerError unit) :=
  known ← self (fun s => has_container s sandbox_id);
  if negb known then mret (Err (NotProvisioned sandbox_id))
  else
    have_sdk ← self sdk;
    if negb have_sdk then mret (Err (Backend "no active WSLc session"))
    else
      found ← self (fun s => containers s !! sandbox_id);
      entry ← expect found "checked above";
      r ← on_container sandbox_id (StopDaemonContainer (container entry));
      match r with
      | Err e => mret (Err (sr_err e))
      | Ok _ =>
          _ ← update (fun s => set_containers (<[sandbox_id := set_started false entry]> (containers s)) s);
          mret (Ok tt)
      end.

Definition retire (sandbox_id : string) : M unit :=
  update (fun s => match containers s !! sandbox_id with
                   | Some e => set_containers (<[sandbox_id :=
                       MkContainer (started e) (quarantined e) true (container e) (container_session e)
                         (exec_slot e)]> (containers s)) s
                   | None => s
                   end).

Definition live_container_count (s : Worker) : nat :=
  (length (List.filter (fun e => negb (retired e.2)) (map_to_list (containers s))) + size (pending s))%nat.

Definition deprovision (sandbox_id : string) : M (result WorkerError unit) :=
  found ← self (fun s => containers s !! sandbox_id);
  match found with
  | None => mret (Err (NotProvisioned sandbox_id))
  | Some e =>
      have_sdk ← self sdk;
      r ← (if (have_sdk : bool) then on_container sandbox_id (DeleteDaemonContainer (container e)) else mret (Ok tt));
      match r with
      | Err e => mret (Err (sr_err e))
      | Ok _ => _ ← remove_container sandbox_id; mret (Ok tt)
      end
  end.

Definition validate_exec (s : Worker) (sandbox_id : string) : result WorkerError WslcContainer :=
  match containers s !! sandbox_id with
  | None => Err (NotProvisioned sandbox_id)
  | Some entry =>
      if quarantined entry then Err (Backend (quarantine_message sandbox_id))
      else if negb (started entry) then Err (NotStarted sandbox_id)
      else Ok (container entry)
  end.

(** [start_run_on_sdk] and the spawn of [start_exec]. *)
Definition start_run (config : ExecConfig) (handle : WslcContainer) (session_ref : string)
    : M (result WorkerError unit) :=
  have_sdk ← self sdk;
  if negb have_sdk then mret (Err (Backend "no active WSLc session"))
  else
    spawned ← call (Spawn "wslc-exec");
    match spawned with
    | Err e => mret (Err (Backend ("could not start a thread to run exec on sandbox " +:+
                                     exec_sandbox_id config +:+ ": " +:+ e)))
    | Ok _ =>
        _ ← modify (fun w => set_runs (runs w ++ [MkRun (exec_sandbox_id config) handle session_ref Running]) w);
        mret (Ok tt)
    end.

Definition begin_exec (request : ExecRequest) : M unit :=
  let config := request_config request in
  let sandbox_id := exec_sandbox_id config in
  validated ← self (fun s => validate_exec s sandbox_id);
  match validated with
  | Err e =>
      _ ← send (request_admit request) (ReplyUnit (Err e));
      drop_reply (request_done request) NotAdmitted
  | Ok handle =>
      found ← self (fun s => containers s !! sandbox_id);
      entry ← expect found sandbox_id;
      let session_ref := container_session entry in
      cancelled ← call (CancellationLoad (request_cancellation request));
      gone ← call (ReceiverGone (request_admit request));
      _ ← send (request_admit request) (ReplyUnit (Ok tt));
      if (gone : bool) then drop_reply (request_done request) ClientGone
      else if (cancelled : bool) then send (request_done request) (ReplyTerminal (Ok Cancelled))
      else
        begun ← start_run config handle session_ref;
        match begun with
        | Err e => send (request_done request) (ReplyTerminal (Err e))
        | Ok _ =>
            _ ← touch_session session_ref;
            update (fun s => set_exec_in_flight
              (<[sandbox_id := MkInFlight handle (request_done request) session_ref (request_slot request) []]>
                 (exec_in_flight s)) s)
        end
  end.

Definition dispatch (work : ContainerWork) : M unit :=
  busy ← self (fun s => exec_in_flight s !! work_sandbox_id work);
  match busy with
  | Some x =>
      match work with
      | WorkExec request =>
          _ ← send (request_admit request) (ReplyUnit (Err (Busy (exec_sandbox_id (request_config request)))));
          drop_reply (request_done request) NotAdmitted
      | lifecycle =>
          update (fun s => set_exec_in_flight (<[work_sandbox_id work :=
            MkInFlight (run_container x) (run_done x) (run_session x) (run_slot x) (run_parked x ++ [lifecycle])]>
            (exec_in_flight s)) s)
      end
  | None =>
      match work with
      | WorkExec request => begin_exec request
      | WorkStart id reply => r ← start id; send reply (ReplyUnit r)
      | WorkStop id reply => r ← stop id; send reply (ReplyUnit r)
      | WorkDeprovision id reply => r ← deprovision id; send reply (ReplyUnit r)
      end
  end.

Definition keep_quarantined (sandbox_id : string) (slot : option ExecSlotGuard) : M unit :=
  update (fun s => match containers s !! sandbox_id with
                   | Some e => set_containers (<[sandbox_id :=
                       MkContainer (started e) true (retired e) (container e) (container_session e) slot]>
                       (containers s)) s
                   | None => s
                   end).

Definition quarantine (sandbox_id : string) (handle : WslcContainer) (detail : string)
    (slot : option ExecSlotGuard) (held_stdin : option Z) : M WorkerError :=
  have_sdk ← self sdk;
  delete_result ← (if (have_sdk : bool) then
                     r ← on_container sandbox_id (DeleteDaemonContainer handle); mret (Some r)
                   else mret None);
  let slot := match held_stdin with None => slot | Some held => Some (WithStdin slot held) end in
  let unconfirmed := "exec on sandbox " +:+ sandbox_id +:+ " could not be confirmed terminated (" +:+
                     detail +:+ "); " in
  match delete_result with
  | Some (Ok _) =>
      _ ← remove_container sandbox_id;
      mret (Backend (unconfirmed +:+ "the container was quarantined and deleted"))
  | Some (Err delete_error) =>
      _ ← keep_quarantined sandbox_id slot;
      mret (Backend (unconfirmed +:+ "quarantine deletion failed and the sandbox remains blocked until " +:+
                     "deprovision succeeds: " +:+ error_message delete_error))
  | None =>
      _ ← keep_quarantined sandbox_id slot;
      mret (Backend (unconfirmed +:+ "the sandbox remains quarantined because no active WSLc SDK is available"))
  end.

Definition retire_exec (sandbox_id : string) (report : ExecReport) : M (list ContainerWork) :=
  found ← self (fun s => exec_in_flight s !! sandbox_id);
  match found with
  | None => mret []
  | Some x =>
      _ ← update (fun s => set_exec_in_flight (delete sandbox_id (exec_in_flight s)) s);
      outcome ← match report with
                | Finished outcome => mret outcome
                | Unconfirmed detail held_stdin =>
                    e ← quarantine sandbox_id (run_container x) detail (run_slot x) held_stdin;
                    mret (Err e)
                end;
      _ ← send (run_done x) (ReplyTerminal outcome);
      mret (run_parked x)
  end.

Definition finish_exec (sandbox_id : string) (report : ExecReport) : M unit :=
  parked ← retire_exec sandbox_id report;
  for_each dispatch parked.

(** ** Teardown *)

Definition refuse (message : string) (work : ContainerWork) : M unit :=
  match work with
  | WorkExec request =>
      _ ← send (request_admit request) (ReplyUnit (Err (Backend message)));
      drop_reply (request_done request) NotAdmitted
  | WorkStart _ reply | WorkStop _ reply | WorkDeprovision _ reply =>
      send reply (ReplyUnit (Err (Backend message)))
  end.

Definition SHUTTING_DOWN : string := "the WSLc daemon is shutting down".

Definition refuse_while_shutting_down (cmd : WorkerCommand) : M unit :=
  match cmd with
  | ProvisionSession _ reply => send reply (ReplyId_ (Err (Backend SHUTTING_DOWN)))
  | DeprovisionSession _ reply => send reply (ReplyUnit (Err (Backend SHUTTING_DOWN)))
  | SessionBooted _ _ => mret tt
  | SessionReleased _ _ => mret tt
  | Provision _ reply => send reply (ReplyId_ (Err (Backend SHUTTING_DOWN)))
  | Container work => refuse SHUTTING_DOWN work
  | Retire _ reply => send reply ReplyDone
  | ContainerCount reply => n ← self live_container_count; send reply (ReplyCount n)
  | Shutdown reply => send reply ReplyDone
  | PullFinished _ _ => mret tt
  | ExecFinished _ _ => mret tt
  end.

(** [wait_for_in_flight]: the threads run for as long as the deadline leaves,
    and the answer is whether the counter read zero. *)
Definition wait_for_in_flight (in_flight : World E -> nat) : M bool :=
  _ ← modify sched;
  n ← gets in_flight;
  mret (n =? 0)%nat.

Definition try_recv : M (option WorkerCommand) := fun w =>
  match queue w with
  | [] => (Ok None, w)
  | cmd :: rest => (Ok (Some cmd), set_queue rest w)
  end.

Definition release_during_shutdown (session_ref : string) (session : WslcSession)
    (store : option StoreSlots.StoreSlotLease) (name : string) : M bool :=
  release_or_leak (MkRelease (Some session) store name) session_ref false.

Definition release_booted_during_shutdown (session_ref : string) (outcome : result BootFailure WslcSession)
    : M bool :=
  found ← self (fun s => pending_sessions s !! session_ref);
  match found with
  | None => mret false
  | Some p =>
      _ ← update (fun s => set_pending_sessions (delete session_ref (pending_sessions s)) s);
      match outcome with
      | Ok session => release_during_shutdown session_ref session (booting_store p) (booting_name p)
      | Err failure =>
          _ ← match booting_store p with
              | Some store => modify (if store_may_be_held failure then forget_lease session_ref store
                                      else return_slot store)
              | None => mret tt
              end;
          mret false
      end
  end.

(** How many messages can still reach the queue: the fuel of the drains. *)
Definition messages (w : World E) : nat :=
  (length (queue w) + length (List.filter (fun t => is_running (boot_phase t)) (boots w))
   + length (List.filter (fun t => is_running (pull_phase t)) (pulls w)) + length (deadlines w)
   + length (List.filter (fun t => is_running (thread_phase t)) (runs w))
   + length (List.filter (fun t => is_running (releasing_phase t) && releasing_notify t) (releases w)))%nat.

Definition refused_parked (sandbox_id : string) : string :=
  "the WSLc daemon shut down before sandbox " +:+ sandbox_id +:+ " was free".

(** The loop that collects the reports of drained runs: whether a VM was left
    running. *)
Fixpoint drain_execs (fuel : nat) (left_running : bool) : M bool :=
  empty ← self (fun s => bool_decide (exec_in_flight s = ∅));
  if (empty : bool) then mret left_running
  else
    received ← try_recv;
    match received with
    | None => mret left_running
    | Some cmd =>
        match fuel with
        | O => throw OutOfFuel
        | S fuel =>
            left_running ←
              match cmd with
              | ExecFinished sandbox_id report =>
                  parked ← retire_exec sandbox_id report;
                  _ ← for_each (refuse (refused_parked sandbox_id)) parked;
                  mret left_running
              | SessionBooted session_ref outcome =>
                  left ← release_booted_during_shutdown session_ref outcome;
                  mret (left_running || left)
              | other => _ ← refuse_while_shutting_down other; mret left_running
              end;
            drain_execs fuel left_running
        end
    end.

(** The loop that collects the reports of drained boots. *)
Fixpoint drain_boots (fuel : nat) (abandoned : bool) : M bool :=
  empty ← self (fun s => bool_decide (pending_sessions s = ∅));
  if (empty : bool) then mret abandoned
  else
    received ← try_recv;
    match received with
    | None => mret abandoned
    | Some cmd =>
        match fuel with
        | O => throw OutOfFuel
        | S fuel =>
            abandoned ←
              match cmd with
              | SessionBooted session_ref outcome =>
                  left ← release_booted_during_shutdown session_ref outcome;
                  mret (abandoned || left)
              | other => _ ← refuse_while_shutting_down other; mret abandoned
              end;
            drain_boots fuel abandoned
        end
    end.

(** [mem::forget(mem::take(&mut self.pending_sessions))]: the leases are
    leaked, and nobody waits for the boots any more. *)
Definition stored_leases (all : list (string * PendingSession)) : list (string * nat) :=
  all ≫= fun e => match booting_store e.2 with
                  | Some store => [(e.1, StoreSlots.index store)]
                  | None => []
                  end.

Definition forget_pending_sessions : M unit :=
  leases ← self (fun s => stored_leases (iter (pending_sessions s)));
  _ ← modify (fun w => log_lost_boots (fst <$> leases) (log_forgotten leases w));
  update (set_pending_sessions ∅).

(** [self.pending_sessions.clear()]. *)
Definition clear_pending_sessions : M unit :=
  all ← self (fun s => iter (pending_sessions s));
  _ ← update (set_pending_sessions ∅);
  for_each (fun e => match booting_store e.2 with
                     | Some store => modify (return_slot store)
                     | None => mret tt
                     end) all.

(** [mem::forget(mem::take(&mut self.sessions))], and of one entry. *)
Definition forget_session (session_ref : string) (entry : SessionEntry) : M unit :=
  modify (fun w => log_leaked [session_ref] (forget_lease session_ref (store entry) w)).

Definition forget_sessions : M unit :=
  all ← self (fun s => iter (sessions s));
  _ ← modify (fun w => log_leaked (fst <$> all)
                         (log_forgotten ((fun e => (e.1, StoreSlots.index (store e.2))) <$> all) w));
  update (set_sessions ∅).

(** The sessions whose pulls have ended, and whether any other was leaked. *)
Fixpoint drain_pulls (all : list (string * SessionEntry)) (abandoned : bool)
    : M (list (string * SessionEntry) * bool) :=
  match all with
  | [] => mret ([], abandoned)
  | (session_ref, entry) :: all =>
      _ ← update (fun s => set_sessions (delete session_ref (sessions s)) s);
      drained ← wait_for_in_flight (pulls_in_flight session_ref);
      if (drained : bool) then
        '(rest, abandoned) ← drain_pulls all abandoned;
        mret ((session_ref, entry) :: rest, abandoned)
      else
        _ ← forget_session session_ref entry;
        drain_pulls all true
  end.

Fixpoint release_drained (drained : list (string * SessionEntry)) (abandoned : bool) : M bool :=
  match drained with
  | [] => mret abandoned
  | (session_ref, entry) :: drained =>
      left ← release_during_shutdown session_ref (session entry) (Some (store entry)) (name entry);
      release_drained drained (abandoned || left)
  end.

Definition release_sessions_for_shutdown (left_running : bool) : M unit :=
  booted ← wait_for_in_flight sessions_in_flight;
  abandoned ←
    (if (booted : bool) then
       fuel ← gets messages;
       abandoned ← drain_boots fuel left_running;
       _ ← clear_pending_sessions;
       mret abandoned
     else _ ← forget_pending_sessions; mret true);
  all ← self (fun s => iter (sessions s));
  '(drained, abandoned) ← drain_pulls all abandoned;
  _ ← call Now;
  abandoned ← release_drained drained abandoned;
  released ← wait_for_in_flight releases_in_flight;
  let abandoned := abandoned || negb released in
  _ ← update (set_sdk false);
  if (abandoned : bool) then mret tt
  else modify (fun w => unload_sdk (expect_that (sdk_idle w) SdkInUse w)).

Definition shut_down_parked (session_ref : string) : string :=
  "the WSLc daemon shut down while session " +:+ session_ref +:+ " was booting".

(** The first two loops of [shutdown]: nobody waits on a pull or a boot any
    more. *)
Definition answer_waiting : M unit :=
  pendings ← self (fun s => iter (pending s));
  _ ← update (set_pending ∅);
  _ ← for_each (fun e => send (pending_reply e.2) (ReplyId_ (Err (Backend
        ("the WSLc daemon shut down while pulling image '" +:+ provision_image (pending_config e.2) +:+ "'")))))
        pendings;
  boots ← self (fun s => iter (pending_sessions s));
  for_each (fun e =>
    _ ← update (fun s => set_pending_sessions
          (<[e.1 := MkPendingSession (booting_store e.2) (booting_name e.2) (booting_sizing e.2) None []
               (requested e.2) (abandoned e.2)]> (pending_sessions s)) s);
    _ ← match booting_reply e.2 with
        | Some reply => send reply (ReplyId_ (Err (Backend (shut_down_parked e.1))))
        | None => mret tt
        end;
    send_all (snd <$> booting_parked e.2) (ReplyId_ (Err (Backend (shut_down_parked e.1))))) boots.

(** The runs that never reported. *)
Definition answer_unreported : M unit :=
  running ← self (fun s => iter (exec_in_flight s));
  _ ← modify (log_lost_runs (fst <$> running));
  _ ← update (set_exec_in_flight ∅);
  for_each (fun e =>
    _ ← send (run_done e.2) (ReplyTerminal (Err (Backend
          ("the WSLc daemon shut down while running an exec on sandbox " +:+ e.1))));
    for_each (refuse (refused_parked e.1)) (run_parked e.2)) running.

(** Stop and delete every container. *)
Definition release_containers : M unit :=
  have_sdk ← self sdk;
  all ← self (fun s => iter (containers s));
  for_each (fun e =>
    _ ← (if (have_sdk : bool) then
           _ ← (if started e.2 then _ ← on_container e.1 (StopDaemonContainer (container e.2)); mret tt else mret tt);
           _ ← on_container e.1 (DeleteDaemonContainer (container e.2)); mret tt
         else mret tt);
    remove_container e.1) all.

Definition shutdown : M unit :=
  _ ← call Now;
  _ ← answer_waiting;
  execs_drained ← wait_for_in_flight execs_in_flight;
  left_running ← (if (execs_drained : bool) then fuel ← gets messages; drain_execs fuel false else mret false);
  _ ← answer_unreported;
  if negb execs_drained then
    _ ← update (set_containers ∅);
    _ ← forget_sessions;
    _ ← forget_pending_sessions;
    update (set_sdk false)
  else
    _ ← release_containers;
    release_sessions_for_shutdown left_running.

(** ** The command loop *)

(** One command; [false] ends the loop. *)
Definition serve (cmd : WorkerCommand) : M bool :=
  match cmd with
  | ProvisionSession config reply =>
      begun ← begin_session config;
      _ ← match begun with
          | Ok session_ref => attach_session_reply session_ref reply
          | Err e => send reply (ReplyId_ (Err e))
          end;
      mret true
  | SessionBooted session_ref outcome => _ ← finish_session session_ref outcome; mret true
  | SessionReleased session_ref slot_returned => _ ← finish_release session_ref slot_returned; mret true
  | DeprovisionSession session_ref reply => _ ← release_session_op session_ref reply; mret true
  | Provision config reply => _ ← begin_provision config reply; mret true
  | PullFinished token outcome => _ ← finish_provision token outcome; mret true
  | Container work => _ ← dispatch work; mret true
  | ExecFinished sandbox_id report => _ ← finish_exec sandbox_id report; mret true
  | Retire sandbox_id reply => _ ← retire sandbox_id; _ ← send reply ReplyDone; mret true
  | ContainerCount reply =>
      _ ← reap_stuck_boots;
      _ ← reap_idle_sessions;
      _ ← start_deferred_boots;
      n ← self live_container_count;
      _ ← send reply (ReplyCount n);
      mret true
  | Shutdown reply => _ ← shutdown; _ ← send reply ReplyDone; mret false
  end.

(** The next command of the queue. *)
Definition serve_next : M bool :=
  received ← try_recv;
  match received with
  | None => mret true
  | Some cmd => serve cmd
  end.

End Worker.
End WslcWorker.
