(* ===== verification/WslcInv.v ===== *)
(** * The WSLC daemon: the invariant

    What holds between the worker, the queue and the threads at every call of
    the worker.  Reply channels, store leases, session handles and the reports
    of threads are linear resources: the invariant counts where each of them
    is.  A [Hand] lists those that are in local variables of the method that
    runs, so that the invariant also holds in the middle of a method. *)

From stdpp Require Import gmap.
From S2P Require Import Prelude Requests WslcSlots WslcTypes WslcWorld WslcWorker.

#[local] Open Scope nat_scope.

Module WslcInv.
Export WslcWorker.

#[global] Arguments Nat.b2n !b : simpl nomatch.
#[global] Arguments bool_decide : simpl never.

(** ** Sums over the entries of a map *)

Definition msum {K} `{Countable K} {A} (f : K -> A -> nat) (m : gmap K A) : nat :=
  sum_list_with (fun e => f e.1 e.2) (map_to_list m).

Lemma sum_list_with_perm {A} (f : A -> nat) l k : l ≡ₚ k -> sum_list_with f l = sum_list_with f k.
Proof. induction 1; cbn; lia. Qed.

Lemma sum_list_with_ext {A} (f g : A -> nat) l :
  (forall a, a ∈ l -> f a = g a) -> sum_list_with f l = sum_list_with g l.
Proof.
  induction l as [|a l IH]; intros Hfg; [done|]. cbn. rewrite Hfg by set_solver.
  f_equal. apply IH. set_solver.
Qed.

Lemma sum_list_with_pos {A} (f : A -> nat) l : 0 < sum_list_with f l <-> exists a, a ∈ l /\ 0 < f a.
Proof.
  induction l as [|a l IH]; cbn.
  - split; [lia|]. intros (a & Ha & _). by apply elem_of_nil in Ha.
  - split.
    + intros Hs. destruct (decide (0 < f a)) as [Hf|Hf]; [exists a; set_solver|].
      destruct IH as [IH _]. destruct IH as (b & ? & ?); [lia|]. exists b. set_solver.
    + intros (b & Hb & Hf). apply elem_of_cons in Hb as [->|Hb]; [lia|].
      assert (0 < sum_list_with f l) by (apply IH; eauto). lia.
Qed.

Lemma sum_list_with_elem {A} (f : A -> nat) l a : a ∈ l -> f a <= sum_list_with f l.
Proof. induction 1; cbn; lia. Qed.

Lemma sum_list_with_split {A} (f g k : A -> nat) l :
  (forall a, f a + g a <= k a) -> sum_list_with f l + sum_list_with g l <= sum_list_with k l.
Proof. intros Hle. induction l as [|a l IH]; cbn; [lia|]. specialize (Hle a). lia. Qed.

Section Msum.
Context {K} `{Countable K} {A : Type}.
Implicit Types (f : K -> A -> nat) (m : gmap K A).

Lemma msum_empty f : msum f ∅ = 0.
Proof. unfold msum. by rewrite map_to_list_empty. Qed.

Lemma msum_insert f m k x : m !! k = None -> msum f (<[k := x]> m) = f k x + msum f m.
Proof. intros Hk. unfold msum. by rewrite (sum_list_with_perm _ _ _ (map_to_list_insert m k x Hk)). Qed.

Lemma msum_delete f m k x : m !! k = Some x -> msum f m = f k x + msum f (delete k m).
Proof. intros Hk. rewrite <- (insert_delete_id _ _ _ Hk) at 1. apply msum_insert, lookup_delete_eq. Qed.

Lemma msum_update f m k x y : m !! k = Some x -> msum f (<[k := y]> m) + f k x = msum f m + f k y.
Proof.
  intros Hk. rewrite (msum_delete f m k x Hk), <- insert_delete_eq, msum_insert by apply lookup_delete_eq. lia.
Qed.

Lemma msum_lookup f m k x : m !! k = Some x -> f k x <= msum f m.
Proof. intros Hk. rewrite (msum_delete f m k x Hk). lia. Qed.

Lemma msum_pos f m : 0 < msum f m <-> exists k x, m !! k = Some x /\ 0 < f k x.
Proof.
  unfold msum. rewrite sum_list_with_pos. split.
  - intros ([k x] & Hkx%elem_of_map_to_list & Hf). eauto.
  - intros (k & x & Hk%elem_of_map_to_list & Hf). by exists (k, x).
Qed.

Lemma msum_split f g k m :
  (forall i x, f i x + g i x <= k i x) -> msum f m + msum g m <= msum k m.
Proof. intros Hle. apply sum_list_with_split. intros [i x]. apply Hle. Qed.

Lemma msum_iter {E} `{!Env E} f m : sum_list_with (fun e => f e.1 e.2) (iter m) = msum f m.
Proof. apply sum_list_with_perm, iter_permutation. Qed.
End Msum.

(** Occurrences. *)
Definition occ {A} `{EqDecision A} (x : A) (l : list A) : nat :=
  sum_list_with (fun y => Nat.b2n (bool_decide (x = y))) l.

Lemma occ_elem {A} `{EqDecision A} (x : A) l : 0 < occ x l <-> x ∈ l.
Proof.
  unfold occ. rewrite sum_list_with_pos. split.
  - intros (y & Hy & Hxy). destruct (decide (x = y)) as [->|Hne]; [done|].
    rewrite bool_decide_false in Hxy by done. cbn in Hxy. lia.
  - intros Hx. exists x. rewrite bool_decide_true by done. cbn. split; [done|lia].
Qed.

(** ** Where the linear resources are *)

Definition work_replies (work : ContainerWork) : list ReplyId :=
  match work with
  | WorkExec request => [request_admit request; request_done request]
  | WorkStart _ reply | WorkStop _ reply | WorkDeprovision _ reply => [reply]
  end.

Definition cmd_replies (cmd : WorkerCommand) : list ReplyId :=
  match cmd with
  | ProvisionSession _ reply | DeprovisionSession _ reply | Provision _ reply
  | Retire _ reply | ContainerCount reply | Shutdown reply => [reply]
  | Container work => work_replies work
  | SessionBooted _ _ | SessionReleased _ _ | PullFinished _ _ | ExecFinished _ _ => []
  end.

Definition booting_replies (p : PendingSession) : list ReplyId :=
  option_list (booting_reply p) ++ (snd <$> booting_parked p).

Definition exec_replies (x : InFlightExec) : list ReplyId :=
  run_done x :: (run_parked x ≫= work_replies).

Definition boot_report (r : string) (cmd : WorkerCommand) : nat :=
  match cmd with SessionBooted r' _ => Nat.b2n (bool_decide (r = r')) | _ => 0 end.

Definition exec_report (s : string) (cmd : WorkerCommand) : nat :=
  match cmd with ExecFinished s' _ => Nat.b2n (bool_decide (s = s')) | _ => 0 end.

Definition has_store (p : PendingSession) : bool :=
  match booting_store p with Some _ => true | None => false end.

(** The resources in the hands of the running method: replies to answer,
    reports taken off the queue, boots started but not yet recorded, store
    leases, session identifiers, and sessions that may still be in use. *)
Record Hand : Type := MkHand {
  h_replies : list ReplyId;
  h_boots : list string;
  h_runs : list string;
  h_pend : list string;
  h_leases : list (string * nat);
  h_refs : list string;
  h_sess : list string;
}.

Definition no_hand : Hand := MkHand [] [] [] [] [] [] [].
Definition and_replies (l : list ReplyId) (h : Hand) : Hand :=
  MkHand (l ++ h_replies h) (h_boots h) (h_runs h) (h_pend h) (h_leases h) (h_refs h) (h_sess h).
Definition and_boot (r : string) (h : Hand) : Hand :=
  MkHand (h_replies h) (r :: h_boots h) (h_runs h) (h_pend h) (h_leases h) (h_refs h) (h_sess h).
Definition and_run (s : string) (h : Hand) : Hand :=
  MkHand (h_replies h) (h_boots h) (s :: h_runs h) (h_pend h) (h_leases h) (h_refs h) (h_sess h).
Definition and_pend (r : string) (h : Hand) : Hand :=
  MkHand (h_replies h) (h_boots h) (h_runs h) (r :: h_pend h) (h_leases h) (h_refs h) (h_sess h).
Definition and_lease (r : string) (i : nat) (h : Hand) : Hand :=
  MkHand (h_replies h) (h_boots h) (h_runs h) (h_pend h) ((r, i) :: h_leases h) (h_refs h) (h_sess h).
Definition and_ref (r : string) (h : Hand) : Hand :=
  MkHand (h_replies h) (h_boots h) (h_runs h) (h_pend h) (h_leases h) (r :: h_refs h) (h_sess h).
Definition and_sess (r : string) (h : Hand) : Hand :=
  MkHand (h_replies h) (h_boots h) (h_runs h) (h_pend h) (h_leases h) (h_refs h) (r :: h_sess h).

Definition lease_of (r : string) (o : option StoreSlots.StoreSlotLease) : list (string * nat) :=
  match o with Some lease => [(r, StoreSlots.index lease)] | None => [] end.

Definition and_lease_of (r : string) (o : option StoreSlots.StoreSlotLease) (h : Hand) : Hand :=
  MkHand (h_replies h) (h_boots h) (h_runs h) (h_pend h) (lease_of r o ++ h_leases h) (h_refs h) (h_sess h).

(** The weight of one entry, by what is counted. *)
Definition cmd_w (p : ReplyId -> nat) (c : WorkerCommand) : nat := sum_list_with p (cmd_replies c).
Definition pending_w (p : ReplyId -> nat) (_ : Z) (x : PendingProvision) : nat := p (pending_reply x).
Definition booting_w (p : ReplyId -> nat) (_ : string) (x : PendingSession) : nat :=
  sum_list_with p (booting_replies x).
Definition exec_w (p : ReplyId -> nat) (_ : string) (x : InFlightExec) : nat := sum_list_with p (exec_replies x).
Definition releasing_w (p : ReplyId -> nat) (t : ReleaseThread) : nat :=
  if is_running (releasing_phase t) then sum_list_with p (option_list (releasing_reply t)) else 0.
Definition fst_w {A} (p : ReplyId -> nat) (a : ReplyId * A) : nat := p a.1.

Definition booting_lease (p : string * nat -> nat) (r : string) (x : PendingSession) : nat :=
  sum_list_with p (lease_of r (booting_store x)).
Definition session_lease (p : string * nat -> nat) (r : string) (x : SessionEntry) : nat :=
  p (r, StoreSlots.index (store x)).
Definition releasing_lease (p : string * nat -> nat) (t : ReleaseThread) : nat :=
  if is_running (releasing_phase t)
  then sum_list_with p (lease_of (releasing_ref t) (release_store (releasing_job t))) else 0.
Definition releasing_is (r : string) (t : ReleaseThread) : nat :=
  Nat.b2n (is_running (releasing_phase t) && bool_decide (r = releasing_ref t)).
Definition run_is (s : string) (t : RunThread) : nat :=
  Nat.b2n (is_running (thread_phase t) && bool_decide (s = thread_sandbox t)).
Definition boot_is (r : string) (t : BootThread) : nat :=
  Nat.b2n (is_running (boot_phase t) && bool_decide (r = boot_ref t)).
Definition present {A} (m : gmap string A) (k : string) : nat := Nat.b2n (bool_decide (is_Some (m !! k))).
Definition with_store (m : gmap string PendingSession) (r : string) : nat :=
  Nat.b2n (is_some_and has_store (m !! r)).

#[global] Arguments occ : simpl never.
#[global] Arguments exec_replies : simpl never.
#[global] Arguments booting_replies : simpl never.
#[global] Arguments cmd_w : simpl never.
#[global] Arguments pending_w : simpl never.
#[global] Arguments booting_w : simpl never.
#[global] Arguments exec_w : simpl never.
#[global] Arguments releasing_w : simpl never.
#[global] Arguments fst_w : simpl never.
#[global] Arguments booting_lease : simpl never.
#[global] Arguments session_lease : simpl never.
#[global] Arguments releasing_lease : simpl never.
#[global] Arguments releasing_is : simpl never.
#[global] Arguments run_is : simpl never.
#[global] Arguments boot_is : simpl never.
#[global] Arguments present : simpl never.
#[global] Arguments with_store : simpl never.
#[global] Arguments boot_report : simpl never.
#[global] Arguments exec_report : simpl never.

Section Invariant.
Context {E : Type} `{!Env E}.
Implicit Types w : World E.

(** The reply channels somebody will answer. *)
Definition held (p : ReplyId -> nat) w : nat :=
  sum_list_with (cmd_w p) (queue w) + msum (pending_w p) (pending (wk w))
  + msum (booting_w p) (pending_sessions (wk w)) + msum (exec_w p) (exec_in_flight (wk w))
  + sum_list_with (releasing_w p) (releases w).

(** The store leases that are held, a forgotten one for good. *)
Definition leases (p : string * nat -> nat) w : nat :=
  msum (booting_lease p) (pending_sessions (wk w)) + msum (session_lease p) (sessions (wk w))
  + sum_list_with (releasing_lease p) (releases w) + sum_list_with p (forgotten w).

(** The places that know session [r]. *)
Definition refs (r : string) w : nat :=
  present (sessions (wk w)) r + present (pending_sessions (wk w)) r
  + sum_list_with (releasing_is r) (releases w) + occ r (forgotten w).*1.

Definition slot_is (i : nat) (l : string * nat) : nat := Nat.b2n (bool_decide (i = l.2)).
Definition lease_is (r : string) (i : nat) (l : string * nat) : nat := Nat.b2n (bool_decide ((r, i) = l)).

Definition known_ref (e : E) (r : string) : Prop := exists u, u ∈ drawn e /\ r = "wslcsess:" +:+ u.
Definition known_sandbox (e : E) (s : string) : Prop := exists u, u ∈ drawn e /\ s = "wslc:" +:+ u.

(** Nothing was leaked: the daemon is serving. *)
Record calm w : Prop := MkCalm {
  calm_boots : lost_boots w = [];
  calm_runs : lost_runs w = [];
  calm_leaked : leaked w = [];
  calm_loaded : sdk_unloaded w = false;
}.

Record inv (h : Hand) w : Prop := MkInv {
  inv_replies p : held p w + sum_list_with p (h_replies h) + sum_list_with (fst_w p) (sent w)
                  + sum_list_with (fst_w p) (dropped w) = sum_list_with p (issued w);
  inv_runs s : sum_list_with (run_is s) (runs w) + sum_list_with (exec_report s) (queue w) + occ s (h_runs h)
               = present (exec_in_flight (wk w)) s + occ s (lost_runs w);
  inv_boots r : sum_list_with (boot_is r) (boots w) + sum_list_with (boot_report r) (queue w) + occ r (h_boots h)
                = with_store (pending_sessions (wk w)) r + occ r (lost_boots w) + occ r (h_pend h);
  inv_slots i : leases (slot_is i) w + sum_list_with (slot_is i) (h_leases h)
                <= Nat.b2n (bool_decide (i ∈ StoreSlots.leased (pool w)));
  inv_vms r i : vms w !! r = Some i -> 1 <= leases (lease_is r i) w + sum_list_with (lease_is r i) (h_leases h);
  inv_refs r : refs r w + occ r (h_refs h) + occ r (h_sess h) <= 1;
  inv_known r : 0 < refs r w + occ r (h_refs h) + occ r (h_sess h) -> known_ref (ext w) r;
  inv_run_use t : t ∈ runs w -> thread_phase t = Running ->
    (exists x, exec_in_flight (wk w) !! thread_sandbox t = Some x /\
      run_container x = thread_container t /\ run_session x = thread_session t) \/
    thread_sandbox t ∈ lost_runs w;
  inv_run_session t : t ∈ runs w -> thread_phase t = Running ->
    is_Some (sessions (wk w) !! thread_session t) \/ thread_session t ∈ leaked w;
  inv_pull_use t : t ∈ pulls w ->
    is_Some (sessions (wk w) !! pull_session t) \/ pull_session t ∈ leaked w \/ pull_session t ∈ h_sess h;
  inv_leaked r : r ∈ leaked w -> r ∈ (forgotten w).*1;
  inv_execs s x : exec_in_flight (wk w) !! s = Some x ->
    exists e, containers (wk w) !! s = Some e /\ container e = run_container x /\ container_session e = run_session x;
  inv_containers s e : containers (wk w) !! s = Some e ->
    is_Some (sessions (wk w) !! container_session e) /\ known_sandbox (ext w) s;
  inv_pendings t p : pending (wk w) !! t = Some p ->
    is_Some (sessions (wk w) !! pending_session p) /\ (t < next_pull_token (wk w))%Z;
  inv_abandoned r p : pending_sessions (wk w) !! r = Some p -> abandoned p = true -> booting_replies p = [];
  inv_sdk_sessions r : is_Some (sessions (wk w) !! r) -> sdk (wk w) = true;
  inv_sdk_boots r p : pending_sessions (wk w) !! r = Some p -> has_store p = true -> sdk (wk w) = true;
  inv_unloaded : sdk_unloaded w = true ->
    Forall (fun t => boot_phase t = Reported) (boots w) /\ Forall (fun t => pull_phase t = Reported) (pulls w) /\
    Forall (fun t => thread_phase t = Reported) (runs w) /\
    Forall (fun t => releasing_phase t = Reported) (releases w);
  inv_gone r f : SessionBooted r (Err f) ∈ queue w -> store_may_be_held f = false -> vms w !! r = None;
  inv_clean : violations w = [];
  inv_dropped x : (x, UnansweredBoot) ∉ dropped w;
}.


(** ** The threads keep the invariant *)

Lemma sum_with_mid {A} (f : A -> nat) l1 x l2 :
  sum_list_with f (l1 ++ x :: l2) = sum_list_with f l1 + f x + sum_list_with f l2.
Proof. rewrite sum_list_with_app. cbn. lia. Qed.

Lemma sum_with_snoc {A} (f : A -> nat) l x : sum_list_with f (l ++ [x]) = sum_list_with f l + f x.
Proof. rewrite sum_list_with_app. cbn. lia. Qed.

Lemma loaded_while_running h w :
  inv h w ->
  (exists t, t ∈ boots w /\ boot_phase t = Running) \/ (exists t, t ∈ pulls w /\ pull_phase t = Running) \/
  (exists t, t ∈ runs w /\ thread_phase t = Running) \/ (exists t, t ∈ releases w /\ releasing_phase t = Running) ->
  sdk_unloaded w = false.
Proof.
  intros Hi Ht. destruct (sdk_unloaded w) eqn:Hu; [|done]. exfalso.
  destruct (inv_unloaded _ _ Hi Hu) as (H1 & H2 & H3 & H4). rewrite !Forall_forall in *.
  destruct Ht as [(t&Hin&Ht)|[(t&Hin&Ht)|[(t&Hin&Ht)|(t&Hin&Ht)]]].
  - specialize (H1 _ Hin). congruence.
  - specialize (H2 _ Hin). congruence.
  - specialize (H3 _ Hin). congruence.
  - specialize (H4 _ Hin). congruence.
Qed.

Lemma boot_reports_inv h w l1 t l2 outcome :
  inv h w -> boots w = l1 ++ t :: l2 -> boot_phase t = Running -> inv h (boot_reports outcome l1 l2 t w).
Proof.
  intros Hi Hb Ht. unfold boot_reports.
  rewrite (loaded_while_running _ _ Hi) by (left; exists t; rewrite Hb; set_solver). cbn [negb expect_that].
  constructor; cbn; try apply Hi.
  - intros p. pose proof (inv_replies _ _ Hi p). unfold held in *; cbn. rewrite sum_with_snoc.
    unfold cmd_w at 2; cbn. lia.
  - intros s. pose proof (inv_runs _ _ Hi s). rewrite sum_with_snoc. unfold exec_report at 2. lia.
  - intros r. pose proof (inv_boots _ _ Hi r) as Hr. rewrite Hb, sum_with_snoc, !sum_with_mid in *.
    unfold boot_is at 2 in Hr. unfold boot_is at 2, boot_report at 2. rewrite Ht in Hr. cbn in *. lia.
  - intros r i Hv. apply (inv_vms _ _ Hi). revert Hv. case_match; [|done]. rewrite lookup_delete_Some. naive_solver.
  - intros Hu. destruct (inv_unloaded _ _ Hi Hu) as (H1 & H2 & H3 & H4). rewrite Hb in H1.
    split_and!; [|done..]. rewrite !Forall_app, Forall_cons in *. naive_solver.
  - intros r f Hin Hf. apply elem_of_app in Hin as [Hin|Hin%list_elem_of_singleton].
    + pose proof (inv_gone _ _ Hi r f Hin Hf). case_match; [rewrite lookup_delete_None; auto|done].
    + injection Hin as <- <-. rewrite Hf. cbn. apply lookup_delete_eq.
Qed.

Lemma boot_ends_inv h w l1 t l2 :
  inv h w -> boots w = l1 ++ t :: l2 -> boot_phase t = Reported -> inv h (set_boots (l1 ++ l2) w).
Proof.
  intros Hi Hb Ht. constructor; cbn; try apply Hi.
  - intros r. pose proof (inv_boots _ _ Hi r) as Hr. rewrite Hb, sum_with_mid in Hr.
    unfold boot_is at 2 in Hr. rewrite Ht in Hr. cbn in Hr. rewrite sum_list_with_app. lia.
  - intros Hu. destruct (inv_unloaded _ _ Hi Hu) as (H1 & H2 & H3 & H4). rewrite Hb in H1.
    split_and!; [|done..]. rewrite !Forall_app, Forall_cons in *. naive_solver.
Qed.

Lemma pull_reports_inv h w l1 t l2 outcome :
  inv h w -> pulls w = l1 ++ t :: l2 -> pull_phase t = Running -> inv h (pull_reports outcome l1 l2 t w).
Proof.
  intros Hi Hb Ht. unfold pull_reports.
  rewrite (loaded_while_running _ _ Hi) by (right; left; exists t; rewrite Hb; set_solver).
  cbn [negb expect_that]. constructor; cbn; try apply Hi.
  - intros p. pose proof (inv_replies _ _ Hi p). unfold held in *; cbn. rewrite sum_with_snoc.
    unfold cmd_w at 2; cbn. lia.
  - intros s. pose proof (inv_runs _ _ Hi s). rewrite sum_with_snoc. unfold exec_report at 2. lia.
  - intros r. pose proof (inv_boots _ _ Hi r). rewrite sum_with_snoc. unfold boot_report at 2. lia.
  - intros t' Ht'. assert (Hin : exists t0, t0 ∈ pulls w /\ pull_session t0 = pull_session t').
    { rewrite Hb. apply elem_of_app in Ht' as [Ht'|Ht']; [exists t'; set_solver|].
      apply elem_of_cons in Ht' as [->|Ht']; [exists t|exists t']; set_solver. }
    destruct Hin as (t0 & Hin & <-). by apply (inv_pull_use _ _ Hi).
  - intros Hu. destruct (inv_unloaded _ _ Hi Hu) as (H1 & H2 & H3 & H4). rewrite Hb in H2.
    split_and!; [done| |done..]. rewrite !Forall_app, Forall_cons in *. naive_solver.
  - intros r f Hin. apply (inv_gone _ _ Hi). apply elem_of_app in Hin as [Hin|Hin%list_elem_of_singleton]; [done|].
    discriminate.
Qed.

Lemma pull_ends_inv h w l1 t l2 :
  inv h w -> pulls w = l1 ++ t :: l2 -> inv h (set_pulls (l1 ++ l2) w).
Proof.
  intros Hi Hb. constructor; cbn; try apply Hi.
  - intros t' Ht'. apply (inv_pull_use _ _ Hi). rewrite Hb. set_solver.
  - intros Hu. destruct (inv_unloaded _ _ Hi Hu) as (H1 & H2 & H3 & H4). rewrite Hb in H2.
    split_and!; [done| |done..]. rewrite !Forall_app, Forall_cons in *. naive_solver.
Qed.

Lemma deadline_fires_inv h w l token outcome :
  inv h w -> inv h (push (PullFinished token outcome) (set_deadlines l w)).
Proof.
  intros Hi. constructor; cbn; try apply Hi.
  - intros p. pose proof (inv_replies _ _ Hi p). unfold held in *; cbn. rewrite sum_with_snoc.
    unfold cmd_w at 2; cbn. lia.
  - intros s. pose proof (inv_runs _ _ Hi s). rewrite sum_with_snoc. unfold exec_report at 2. lia.
  - intros r. pose proof (inv_boots _ _ Hi r). rewrite sum_with_snoc. unfold boot_report at 2. lia.
  - intros r f Hin. apply (inv_gone _ _ Hi). apply elem_of_app in Hin as [Hin|Hin%list_elem_of_singleton]; [done|].
    discriminate.
Qed.

Lemma deadline_retires_inv h w l : inv h w -> inv h (set_deadlines l w).
Proof. intros Hi. constructor; cbn; apply Hi. Qed.

Lemma run_reports_inv h w l1 t l2 report :
  inv h w -> runs w = l1 ++ t :: l2 -> thread_phase t = Running -> inv h (run_reports report l1 l2 t w).
Proof.
  intros Hi Hb Ht. unfold run_reports.
  rewrite (loaded_while_running _ _ Hi) by (right; right; left; exists t; rewrite Hb; set_solver).
  cbn [negb expect_that]. constructor; cbn; try apply Hi.
  - intros p. pose proof (inv_replies _ _ Hi p). unfold held in *; cbn. rewrite sum_with_snoc.
    unfold cmd_w at 2; cbn. lia.
  - intros s. pose proof (inv_runs _ _ Hi s) as Hr. rewrite Hb, sum_with_snoc, !sum_with_mid in *.
    unfold run_is at 2 in Hr. unfold run_is at 2, exec_report at 2. rewrite Ht in Hr. cbn in *. lia.
  - intros r. pose proof (inv_boots _ _ Hi r). rewrite sum_with_snoc. unfold boot_report at 2. lia.
  - intros t' Ht' Hrun. apply (inv_run_use _ _ Hi); [|done]. rewrite Hb.
    apply elem_of_app in Ht' as [Ht'|Ht']; [set_solver|]. apply elem_of_cons in Ht' as [->|Ht']; [done|set_solver].
  - intros t' Ht' Hrun. apply (inv_run_session _ _ Hi); [|done]. rewrite Hb.
    apply elem_of_app in Ht' as [Ht'|Ht']; [set_solver|]. apply elem_of_cons in Ht' as [->|Ht']; [done|set_solver].
  - intros Hu. destruct (inv_unloaded _ _ Hi Hu) as (H1 & H2 & H3 & H4). rewrite Hb in H3.
    split_and!; [done..| |done]. rewrite !Forall_app, Forall_cons in *. naive_solver.
  - intros r f Hin. apply (inv_gone _ _ Hi). apply elem_of_app in Hin as [Hin|Hin%list_elem_of_singleton]; [done|].
    discriminate.
Qed.

Lemma run_ends_inv h w l1 t l2 :
  inv h w -> runs w = l1 ++ t :: l2 -> thread_phase t = Reported -> inv h (set_runs (l1 ++ l2) w).
Proof.
  intros Hi Hb Ht. constructor; cbn; try apply Hi.
  - intros s. pose proof (inv_runs _ _ Hi s) as Hr. rewrite Hb, sum_with_mid in Hr.
    unfold run_is at 2 in Hr. rewrite Ht in Hr. cbn in Hr. rewrite sum_list_with_app. lia.
  - intros t' Ht'. apply (inv_run_use _ _ Hi). rewrite Hb. set_solver.
  - intros t' Ht'. apply (inv_run_session _ _ Hi). rewrite Hb. set_solver.
  - intros Hu. destruct (inv_unloaded _ _ Hi Hu) as (H1 & H2 & H3 & H4). rewrite Hb in H3.
    split_and!; [done..| |done]. rewrite !Forall_app, Forall_cons in *. naive_solver.
Qed.

(** *** Releases *)

Lemma leases_split p q k w :
  (forall l, p l + q l <= k l) -> leases p w + leases q w <= leases k w.
Proof.
  intros Hle. assert (Hl : forall l, sum_list_with p l + sum_list_with q l <= sum_list_with k l)
    by (intros; by apply sum_list_with_split).
  unfold leases.
  assert (msum (booting_lease p) (pending_sessions (wk w)) + msum (booting_lease q) (pending_sessions (wk w))
          <= msum (booting_lease k) (pending_sessions (wk w))) by (apply msum_split; intros; apply Hl).
  assert (msum (session_lease p) (sessions (wk w)) + msum (session_lease q) (sessions (wk w))
          <= msum (session_lease k) (sessions (wk w))) by (apply msum_split; intros; apply Hle).
  assert (sum_list_with (releasing_lease p) (releases w) + sum_list_with (releasing_lease q) (releases w)
          <= sum_list_with (releasing_lease k) (releases w)).
  { apply sum_list_with_split. intros t. unfold releasing_lease. case_match; [apply Hl|lia]. }
  specialize (Hl (forgotten w)). lia.
Qed.

Lemma lease_is_self r i : lease_is r i (r, i) = 1.
Proof. unfold lease_is. by rewrite bool_decide_true. Qed.

Lemma slot_is_self r i : slot_is i (r, i) = 1.
Proof. unfold slot_is. by rewrite bool_decide_true. Qed.

(** Two sessions never hold the same slot. *)
Lemma slot_owner h w r r' i :
  inv h w -> 1 <= leases (lease_is r i) w + sum_list_with (lease_is r i) (h_leases h) ->
  1 <= leases (lease_is r' i) w + sum_list_with (lease_is r' i) (h_leases h) -> r = r'.
Proof.
  intros Hi H1 H2. destruct (decide (r = r')) as [|Hne]; [done|exfalso].
  assert (Hle : forall l, lease_is r i l + lease_is r' i l <= slot_is i l).
  { intros [r0 j]. unfold lease_is, slot_is. cbn. repeat case_bool_decide; cbn; naive_solver lia. }
  pose proof (leases_split _ _ _ w Hle). pose proof (sum_list_with_split _ _ _ (h_leases h) Hle).
  pose proof (inv_slots _ _ Hi i) as Hs. case_bool_decide; cbn in Hs; lia.
Qed.

Lemma slot_leased h w r i :
  inv h w -> 1 <= leases (lease_is r i) w + sum_list_with (lease_is r i) (h_leases h) ->
  i ∈ StoreSlots.leased (pool w).
Proof.
  intros Hi H1. assert (Hle : forall l, lease_is r i l + 0 <= slot_is i l).
  { intros [r0 j]. unfold lease_is, slot_is. cbn. repeat case_bool_decide; cbn; naive_solver lia. }
  pose proof (leases_split _ _ _ w Hle). pose proof (sum_list_with_split _ _ _ (h_leases h) Hle).
  pose proof (inv_slots _ _ Hi i) as Hs. case_bool_decide; [done|]. cbn in Hs. lia.
Qed.

(** A session that left the maps is in use by nobody. *)
Lemma session_unused h w r :
  inv h w -> sessions (wk w) !! r = None -> r ∉ leaked w -> r ∉ h_sess h -> session_free r w = true.
Proof.
  intros Hi Hs Hl Hh. unfold session_free. rewrite !andb_true_iff, !forallb_forall. split_and!.
  - intros t Ht%list_elem_of_In. apply negb_true_iff, andb_false_iff. right. apply bool_decide_false. intros <-.
    destruct (inv_pull_use _ _ Hi t Ht) as [[? ?]|[?|?]]; [congruence|done..].
  - intros t Ht%list_elem_of_In. apply negb_true_iff, andb_false_iff.
    destruct (thread_phase t) eqn:Hp; [right|by left]. apply bool_decide_false. intros <-.
    destruct (inv_run_session _ _ Hi t Ht Hp) as [[? ?]|?]; [congruence|done].
  - intros [s e] He%list_elem_of_In%elem_of_map_to_list. cbn. apply negb_true_iff, bool_decide_false. intros <-.
    destruct (inv_containers _ _ Hi _ _ He) as [[? ?] _]. congruence.
Qed.

(** A slot whose owner's VM is gone is mounted by nobody. *)
Lemma slot_unmounted h w r i :
  inv h w -> 1 <= leases (lease_is r i) w + sum_list_with (lease_is r i) (h_leases h) ->
  vms w !! r = None -> slot_free i w = true.
Proof.
  intros Hi Hown Hr. unfold slot_free. apply forallb_forall. intros [r' j] Hin%list_elem_of_In%elem_of_map_to_list.
  cbn. apply negb_true_iff, bool_decide_false. intros ->.
  assert (r = r') as <-; [|congruence]. apply (slot_owner h w _ _ i Hi Hown), (inv_vms _ _ Hi), Hin.
Qed.

Lemma push_inv h w cmd :
  (forall p, cmd_w p cmd = 0) -> (forall s, exec_report s cmd = 0) -> (forall r, boot_report r cmd = 0) ->
  inv h w -> inv h (push cmd w).
Proof.
  intros H1 H2 H3 Hi. constructor; cbn; try apply Hi.
  - intros p. pose proof (inv_replies _ _ Hi p). unfold held in *; cbn. rewrite sum_with_snoc, H1. lia.
  - intros s. pose proof (inv_runs _ _ Hi s). rewrite sum_with_snoc, H2. lia.
  - intros r. pose proof (inv_boots _ _ Hi r). rewrite sum_with_snoc, H3. lia.
  - intros r f Hin. apply (inv_gone _ _ Hi). apply elem_of_app in Hin as [Hin|Hin%list_elem_of_singleton]; [done|].
    subst cmd. specialize (H3 r). unfold boot_report in H3. by rewrite bool_decide_true in H3.
Qed.

(** The release thread [t] owns its session and its slot. *)
Lemma releasing_owner h w l1 t l2 :
  inv h w -> releases w = l1 ++ t :: l2 -> releasing_phase t = Running ->
  sessions (wk w) !! releasing_ref t = None /\ pending_sessions (wk w) !! releasing_ref t = None /\
  (releasing_ref t ∉ leaked w) /\ (releasing_ref t ∉ h_sess h) /\
  forall lease, release_store (releasing_job t) = Some lease ->
    1 <= leases (lease_is (releasing_ref t) (StoreSlots.index lease)) w.
Proof.
  intros Hi Hb Ht. pose proof (inv_refs _ _ Hi (releasing_ref t)) as Hr. unfold refs in Hr.
  rewrite Hb, sum_with_mid in Hr. unfold releasing_is at 2 in Hr. rewrite Ht, bool_decide_true in Hr by done.
  unfold present in Hr. cbn in Hr. split_and!.
  - apply eq_None_not_Some. intros Hs. rewrite bool_decide_true in Hr by done. cbn in Hr. lia.
  - apply eq_None_not_Some. intros Hs. rewrite (bool_decide_true (is_Some (pending_sessions _ !! _))) in Hr by done.
    cbn in Hr. lia.
  - intros Hl%(inv_leaked _ _ Hi)%occ_elem. lia.
  - intros Hl%occ_elem. lia.
  - intros lease Hlease. unfold leases. rewrite Hb, sum_with_mid. unfold releasing_lease at 2.
    rewrite Ht, Hlease. cbn. rewrite lease_is_self. lia.
Qed.

(** *** Moving resources out of the hand *)

Lemma occ_cons {A} `{EqDecision A} (x y : A) l : occ x (y :: l) = Nat.b2n (bool_decide (x = y)) + occ x l.
Proof. done. Qed.

Lemma log_sent_inv h w reply a : inv (and_replies [reply] h) w -> inv h (log_sent reply a w).
Proof.
  intros Hi. constructor; cbn; try apply Hi.
  intros p. pose proof (inv_replies _ _ Hi p) as Hp. unfold held in *; cbn in *. rewrite sum_with_snoc.
  unfold fst_w at 2. cbn. lia.
Qed.

Lemma log_dropped_inv h w reply why :
  why <> UnansweredBoot -> inv (and_replies [reply] h) w -> inv h (log_dropped reply why w).
Proof.
  intros Hw Hi. constructor; cbn; try apply Hi.
  - intros p. pose proof (inv_replies _ _ Hi p) as Hp. unfold held in *; cbn in *. rewrite sum_with_snoc.
    unfold fst_w at 3. cbn. lia.
  - intros x [Hx|Hx%list_elem_of_singleton]%elem_of_app; [by apply (inv_dropped _ _ Hi) in Hx|congruence].
Qed.

Lemma send_opt_inv h w reply a : inv (and_replies (option_list reply) h) w -> inv h (send_opt reply a w).
Proof. destruct reply as [reply|]; [apply log_sent_inv|by destruct h]. Qed.

Lemma forget_inv h w r i : inv (and_lease r i (and_ref r h)) w -> inv h (log_forgotten [(r, i)] w).
Proof.
  intros Hi. constructor; cbn; try apply Hi.
  - intros j. pose proof (inv_slots _ _ Hi j) as Hs. unfold leases in *; cbn in *. lia.
  - intros r' j Hv. pose proof (inv_vms _ _ Hi r' j Hv) as Hs. unfold leases in *; cbn in *. lia.
  - intros r'. pose proof (inv_refs _ _ Hi r') as Hr. unfold refs in *; cbn in *. rewrite occ_cons in *. lia.
  - intros r' Hr'. apply (inv_known _ _ Hi). unfold refs in *; cbn in *. rewrite occ_cons in *. lia.
  - intros r' Hr'%(inv_leaked _ _ Hi). set_solver.
Qed.

Lemma drop_ref_inv h w r : inv (and_ref r h) w -> inv h w.
Proof.
  intros Hi. constructor; cbn; try apply Hi.
  - intros r'. pose proof (inv_refs _ _ Hi r') as Hr. cbn in *. rewrite occ_cons in *. lia.
  - intros r' Hr'. apply (inv_known _ _ Hi). cbn. rewrite occ_cons. lia.
Qed.

Lemma delete_vm_inv h w r : inv h w -> inv h (set_vms (delete r (vms w)) w).
Proof.
  intros Hi. constructor; cbn; try apply Hi.
  - intros r' i [_ Hv]%lookup_delete_Some. by apply (inv_vms _ _ Hi).
  - intros r' f Hin Hf. rewrite lookup_delete_None. right. by apply (inv_gone _ _ Hi r' f).
Qed.

Lemma return_slot_inv h w r lease :
  inv (and_lease r (StoreSlots.index lease) h) w -> vms w !! r = None -> inv h (return_slot lease w).
Proof.
  intros Hi Hv. unfold return_slot. rewrite (slot_unmounted _ _ r _ Hi); [|cbn; rewrite lease_is_self; lia|done].
  cbn [expect_that]. constructor; cbn; try apply Hi.
  - intros j. pose proof (inv_slots _ _ Hi j) as Hs. unfold leases in *; cbn in *.
    unfold slot_is at 5 in Hs. cbn in Hs. destruct (decide (j = StoreSlots.index lease)) as [->|Hne].
    + rewrite bool_decide_true in Hs by done. pose proof (Nat.b2n_le_1 (bool_decide (StoreSlots.index lease ∈ StoreSlots.leased (pool w)))). cbn in Hs. lia.
    + rewrite (bool_decide_ext _ (j ∈ StoreSlots.leased (pool w))); [lia|].
      rewrite StoreSlots.elem_of_drop_lease. naive_solver.
  - intros r' j Hv'. pose proof (inv_vms _ _ Hi r' j Hv') as Hs. unfold leases in *; cbn in *.
    unfold lease_is at 5 in Hs. rewrite bool_decide_false in Hs; [cbn in Hs; lia|]. naive_solver.
Qed.

(** A release thread lets go of its session, its slot and its client. *)
Lemma take_release_inv h w l1 t l2 :
  inv h w -> releases w = l1 ++ t :: l2 -> releasing_phase t = Running ->
  inv (and_replies (option_list (releasing_reply t))
        (and_lease_of (releasing_ref t) (release_store (releasing_job t)) (and_ref (releasing_ref t) h)))
      (set_releases (l1 ++ MkReleasing (releasing_ref t) (releasing_job t) None false Reported :: l2) w).
Proof.
  intros Hi Hb Ht. constructor; cbn; try apply Hi.
  - intros p. pose proof (inv_replies _ _ Hi p) as Hp. unfold held in *; cbn in *.
    rewrite Hb, !sum_with_mid in *. rewrite sum_list_with_app. unfold releasing_w at 2 in Hp.
    unfold releasing_w at 2. rewrite Ht in Hp. cbn in *. lia.
  - intros i. pose proof (inv_slots _ _ Hi i) as Hs. unfold leases in *; cbn in *.
    rewrite Hb, !sum_with_mid in *. rewrite sum_list_with_app. unfold releasing_lease at 2 in Hs.
    unfold releasing_lease at 2. rewrite Ht in Hs. cbn in *. lia.
  - intros r i Hv. pose proof (inv_vms _ _ Hi r i Hv) as Hs. unfold leases in *; cbn in *.
    rewrite Hb, !sum_with_mid in *. rewrite sum_list_with_app. unfold releasing_lease at 2 in Hs.
    unfold releasing_lease at 2. rewrite Ht in Hs. cbn in *. lia.
  - intros r. pose proof (inv_refs _ _ Hi r) as Hr. unfold refs in *; cbn in *.
    rewrite Hb, !sum_with_mid in *. rewrite occ_cons. unfold releasing_is at 2 in Hr.
    unfold releasing_is at 2. rewrite Ht in Hr. cbn in *. lia.
  - intros r Hr. apply (inv_known _ _ Hi). unfold refs in *; cbn in *.
    rewrite Hb, !sum_with_mid in *. rewrite occ_cons in *. unfold releasing_is at 2 in Hr.
    unfold releasing_is at 2. rewrite Ht. cbn in *. lia.
  - intros Hu. destruct (inv_unloaded _ _ Hi Hu) as (H1 & H2 & H3 & H4). rewrite Hb in H4.
    split_and!; [done..|]. rewrite !Forall_app, Forall_cons in *. naive_solver.
Qed.

Lemma drop_release_inv h w r job :
  inv (and_lease_of r (release_store job) (and_ref r h)) w -> inv h (drop_release r job w).
Proof.
  unfold drop_release. destruct (release_store job) as [lease|]; [apply forget_inv|].
  intros Hi. apply (drop_ref_inv _ _ r). by destruct h.
Qed.

Lemma release_reports_inv h w l1 t l2 outcome :
  inv h w -> releases w = l1 ++ t :: l2 -> releasing_phase t = Running ->
  inv h (release_reports outcome l1 l2 t w).
Proof.
  intros Hi Hb Ht. unfold release_reports.
  rewrite (loaded_while_running _ _ Hi) by (right; right; right; exists t; rewrite Hb; set_solver).
  destruct (releasing_owner _ _ _ _ _ Hi Hb Ht) as (Hs & _ & Hl & Hh & _).
  assert (Hfree : session_free (releasing_ref t) w = true) by eauto using session_unused.
  cbn [negb expect_that].
  pose proof (take_release_inv _ _ _ _ _ Hi Hb Ht) as Htake.
  set (r := releasing_ref t) in *. set (job := releasing_job t) in *.
  set (w1 := set_releases _ w) in Htake.
  assert (Hdone : let '(w2, answer, _) := terminate r job outcome w in
    inv h (send_opt (releasing_reply t) (ReplyUnit answer)
      (set_releases (l1 ++ MkReleasing r job None false Reported :: l2) w2))).
  { assert (Hforget : forall a, inv h (send_opt (releasing_reply t) a
                        (set_releases (releases w1) (drop_release r job w)))).
    { intros a. replace (set_releases (releases w1) (drop_release r job w)) with (drop_release r job w1)
        by (unfold drop_release; by destruct (release_store job)).
      apply send_opt_inv, drop_release_inv. exact Htake. }
    destruct outcome as [e| |e]; cbn; rewrite ?Hfree; cbn; [apply Hforget| |apply Hforget].
    apply (delete_vm_inv _ _ r) in Htake. destruct (release_store job) as [lease|]; cbn.
    - unfold return_slot. change (slot_free ?i (set_vms ?m w)) with (slot_free i (set_vms m w1)).
      apply send_opt_inv. pose proof (return_slot_inv (and_replies (option_list (releasing_reply t)) (and_ref r h))
        _ r lease Htake (lookup_delete_eq _ _)) as Hret. apply drop_ref_inv with (r := r).
      unfold return_slot in Hret. by destruct (slot_free _ _).
    - apply send_opt_inv. apply (drop_ref_inv _ _ r). exact Htake. }
  destruct (terminate r job outcome w) as [[w2 answer] back].
  destruct (releasing_notify t); [by apply push_inv|done].
Qed.

Lemma release_ends_inv h w l1 t l2 :
  inv h w -> releases w = l1 ++ t :: l2 -> releasing_phase t = Reported -> inv h (set_releases (l1 ++ l2) w).
Proof.
  intros Hi Hb Ht. constructor; cbn; try apply Hi.
  - intros p. pose proof (inv_replies _ _ Hi p) as Hp. unfold held in *; cbn in *.
    rewrite Hb, sum_with_mid in Hp. unfold releasing_w at 2 in Hp. rewrite Ht in Hp. cbn in Hp.
    rewrite sum_list_with_app. lia.
  - intros i. pose proof (inv_slots _ _ Hi i) as Hs. unfold leases in *; cbn in *.
    rewrite Hb, sum_with_mid in Hs. rewrite sum_list_with_app. lia.
  - intros r i Hv. pose proof (inv_vms _ _ Hi r i Hv) as Hs. unfold leases in *; cbn in *.
    rewrite Hb, sum_with_mid in Hs. unfold releasing_lease at 2 in Hs. rewrite Ht in Hs. cbn in Hs.
    rewrite sum_list_with_app. lia.
  - intros r. pose proof (inv_refs _ _ Hi r) as Hr. unfold refs in *; cbn in *.
    rewrite Hb, sum_with_mid in Hr. rewrite sum_list_with_app. lia.
  - intros r Hr. apply (inv_known _ _ Hi). unfold refs in *; cbn in *.
    rewrite Hb, sum_with_mid. rewrite sum_list_with_app in Hr. lia.
  - intros Hu. destruct (inv_unloaded _ _ Hi Hu) as (H1 & H2 & H3 & H4). rewrite Hb in H4.
    split_and!; [done..|]. rewrite !Forall_app, Forall_cons in *. naive_solver.
Qed.

(** *** Any number of thread steps *)

(** What the threads leave alone, and what they can only lower. *)
Record steady w w' : Prop := MkSteady {
  steady_wk : wk w' = wk w;
  steady_drawn : drawn (ext w) ⊆ drawn (ext w');
  steady_lost_boots : lost_boots w' = lost_boots w;
  steady_lost_runs : lost_runs w' = lost_runs w;
  steady_leaked : leaked w' = leaked w;
  steady_unloaded : sdk_unloaded w' = sdk_unloaded w;
  steady_boots : length (boots w') <= length (boots w);
  steady_pulls r : pulls_in_flight r w' <= pulls_in_flight r w;
  steady_runs : length (runs w') <= length (runs w);
  steady_releases : length (releases w') <= length (releases w);
  steady_messages : messages w' <= messages w;
  steady_vms r : vms w !! r = None -> vms w' !! r = None;
}.

#[export] Instance steady_preorder : PreOrder steady.
Proof.
  split; [intros w; by constructor|]. intros w1 w2 w3 H1 H2. destruct H1, H2.
  constructor; try congruence; try lia; eauto; [set_solver|].
  intros r. specialize (steady_pulls0 r). specialize (steady_pulls1 r). lia.
Qed.

Lemma expect_that_cases ok v w : expect_that ok v w = w \/ expect_that ok v w = log_violation v w.
Proof. destruct ok; auto. Qed.

Ltac shorter := unfold pulls_in_flight, messages, push in *; cbn in *;
  repeat match goal with H : _ = ?l1 ++ _ :: _ |- _ => rewrite H; clear H end;
  rewrite ?filter_app, ?List.filter_app, ?length_app, ?length_cons, ?length_app; cbn;
  repeat match goal with H : _ = Running |- _ => rewrite H | H : _ = Reported |- _ => rewrite H end; cbn;
  repeat case_match; cbn in *; try lia.

Lemma boot_reports_steady w l1 t l2 outcome :
  boots w = l1 ++ t :: l2 -> boot_phase t = Running -> steady w (boot_reports outcome l1 l2 t w).
Proof.
  intros Hb Ht. unfold boot_reports.
  destruct (expect_that_cases (negb (sdk_unloaded w)) SdkGone w) as [-> | ->]; constructor; cbn; try done.
  all: try by shorter.
  all: intros r Hr; case_match; [|done]; rewrite lookup_delete_None; auto.
Qed.

Lemma pull_reports_steady w l1 t l2 outcome :
  pulls w = l1 ++ t :: l2 -> pull_phase t = Running -> steady w (pull_reports outcome l1 l2 t w).
Proof.
  intros Hb Ht. unfold pull_reports.
  destruct (expect_that_cases (negb (sdk_unloaded w)) SdkGone w) as [-> | ->]; constructor; cbn; try done.
  all: try by shorter.
  all: intros r; unfold pulls_in_flight; cbn; rewrite Hb, !filter_app, !length_app, !filter_cons; cbn;
    repeat case_match; cbn; lia.
Qed.

Lemma run_reports_steady w l1 t l2 report :
  runs w = l1 ++ t :: l2 -> thread_phase t = Running -> steady w (run_reports report l1 l2 t w).
Proof.
  intros Hb Ht. unfold run_reports.
  destruct (expect_that_cases (negb (sdk_unloaded w)) SdkGone w) as [-> | ->]; constructor; cbn; try done.
  all: by shorter.
Qed.

Lemma return_slot_steady w lease : steady w (return_slot lease w).
Proof.
  unfold return_slot. destruct (expect_that_cases (slot_free (StoreSlots.index lease) w)
    (SlotMounted (StoreSlots.index lease)) w) as [-> | ->]; by constructor.
Qed.

Lemma drop_release_steady w r job : steady w (drop_release r job w).
Proof. unfold drop_release. by destruct (release_store job); constructor. Qed.

Lemma expect_that_steady w ok v : steady w (expect_that ok v w).
Proof. destruct ok; by constructor. Qed.

Lemma delete_vm_steady w r : steady w (set_vms (delete r (vms w)) w).
Proof. constructor; try done. intros r' Hr. cbn. rewrite lookup_delete_None. auto. Qed.

Lemma terminate_steady w r job outcome :
  let '(w', _, _) := terminate r job outcome w in
  steady w w' /\ releases w' = releases w /\ queue w' = queue w /\ deadlines w' = deadlines w.
Proof.
  assert (Hx : forall ok v w0, releases (expect_that ok v w0) = releases w0 /\ queue (expect_that ok v w0) = queue w0
    /\ deadlines (expect_that ok v w0) = deadlines w0) by (intros [] ? ?; done).
  destruct outcome as [e| |e]; cbn.
  - split; [apply drop_release_steady|]. unfold drop_release. by destruct (release_store job).
  - destruct (release_store job) as [lease|]; cbn;
      (split; [|destruct (session_free r w); cbn; unfold return_slot; try done; by destruct (slot_free _ _)]).
    + etrans; [apply expect_that_steady|]. etrans; [apply delete_vm_steady|]. apply return_slot_steady.
    + etrans; [apply expect_that_steady|]. apply delete_vm_steady.
  - split; [etrans; [apply expect_that_steady|apply drop_release_steady]|].
    unfold drop_release. destruct (release_store job); cbn; apply Hx.
Qed.

Lemma release_reports_steady w l1 t l2 outcome :
  releases w = l1 ++ t :: l2 -> releasing_phase t = Running -> steady w (release_reports outcome l1 l2 t w).
Proof.
  intros Hb Ht. unfold release_reports.
  set (w0 := expect_that _ _ w). assert (Hst : steady w w0) by apply expect_that_steady.
  assert (Hb0 : releases w0 = l1 ++ t :: l2) by (by unfold w0; destruct (negb _)).
  clearbody w0. etrans; [exact Hst|]. clear Hst Hb w. rename w0 into w.
  pose proof (terminate_steady w (releasing_ref t) (releasing_job t) outcome) as Htm.
  destruct (terminate _ _ _ w) as [[w1 answer] back]. destruct Htm as (Hst & Hrel & Hq & Hd).
  etrans; [exact Hst|]. rewrite <- Hrel in Hb0. clear Hst Hrel Hq Hd w. rename w1 into w.
  destruct (releasing_reply t); destruct (releasing_notify t) eqn:Hn; constructor; cbn; try done.
  all: shorter; rewrite ?Hn; cbn; lia.
Qed.

Lemma thread_step_steady w w' : thread_step w w' -> steady w w'.
Proof.
  destruct 1; eauto using boot_reports_steady, pull_reports_steady, run_reports_steady, release_reports_steady.
  all: constructor; cbn; try done; try by shorter.
  all: intros r; unfold pulls_in_flight; cbn; rewrite H, !filter_app, !length_app, !filter_cons;
    repeat case_match; cbn; lia.
Qed.

Lemma thread_step_inv h w w' : inv h w -> thread_step w w' -> inv h w'.
Proof.
  intros Hi Hs. destruct Hs; eauto using boot_reports_inv, boot_ends_inv, pull_reports_inv, pull_ends_inv,
    deadline_fires_inv, deadline_retires_inv, run_reports_inv, run_ends_inv, release_reports_inv, release_ends_inv.
Qed.

Lemma thread_steps w w' : rtc thread_step w w' -> steady w w' /\ forall h, inv h w -> inv h w'.
Proof.
  induction 1 as [w|w1 w2 w3 Hs _ [IHst IHi]]; [split; [done|auto]|]. split.
  - etrans; [by apply thread_step_steady|done].
  - intros h Hi. eapply IHi, thread_step_inv; eauto.
Qed.

End Invariant.
End WslcInv.
