(* ===== verification/WslcOps.v ===== *)
(** * The WSLC daemon: the operations keep the invariant

    A weakest-precondition lemma per method of the worker: started in a state
    where the invariant holds with the method's arguments in hand, it returns
    (no panic) in a state where the invariant holds again, whatever the
    environment answers and whatever the other threads do meanwhile. *)

From stdpp Require Import gmap.
From S2P Require Import Prelude Requests WslcSlots WslcTypes WslcWorld WslcWorker WslcInv.

#[local] Open Scope nat_scope.

Module WslcOps.
Export WslcInv.

Section Ops.
Context {E : Type} `{!Env E} (sched : World E -> World E).
Context (sched_ok : forall w, rtc thread_step w (sched w)).
Implicit Types (w : World E) (h : Hand).

(** The invariant of a daemon that serves. *)
Definition good h w : Prop := inv h w /\ calm w.

(** Only replies in hand. *)
Definition replies (l : list ReplyId) : Hand := MkHand l [] [] [] [] [] [].

Lemma calm_steady w w' : calm w -> steady w w' -> calm w'.
Proof. intros [] []. constructor; congruence. Qed.

Lemma known_ref_mono (e e' : E) r : drawn e ⊆ drawn e' -> known_ref e r -> known_ref e' r.
Proof. clear sched_ok sched. intros Hsub (u & Hu & ->). exists u. split; [set_solver|done]. Qed.

Lemma known_sandbox_mono (e e' : E) s : drawn e ⊆ drawn e' -> known_sandbox e s -> known_sandbox e' s.
Proof. clear sched_ok sched. intros Hsub (u & Hu & ->). exists u. split; [set_solver|done]. Qed.

Lemma set_ext_inv h w e : drawn (ext w) ⊆ drawn e -> inv h w -> inv h (set_ext e w).
Proof. clear sched_ok sched.
  intros Hsub Hi. constructor; cbn; try apply Hi.
  - intros r Hr. eapply known_ref_mono; [exact Hsub|]. by apply (inv_known _ _ Hi).
  - intros s x Hx. destruct (inv_containers _ _ Hi s x Hx) as [? Hk]. split; [done|].
    by eapply known_sandbox_mono.
Qed.

Lemma ask_drawn_mono {A} (c : Call A) (e : E) : drawn e ⊆ drawn (ask c e).2.
Proof. clear sched_ok sched. rewrite (ask_drawn A c e). destruct c; set_solver. Qed.

Lemma set_ext_steady w e : drawn (ext w) ⊆ drawn e -> steady w (set_ext e w).
Proof. intros Hsub. by constructor. Qed.

(** A call: other threads run, then the environment answers. *)
Lemma wp_call_raw {A} (c : Call A) h w (Q : A -> World E -> Prop) :
  inv h w ->
  (forall w1, inv h w1 -> steady w w1 -> Q (ask c (ext w1)).1 (set_ext (ask c (ext w1)).2 w1)) ->
  wp (call sched c) Q w.
Proof.
  intros Hi HQ. unfold wp, call. destruct (thread_steps w (sched w) (sched_ok w)) as [Hst Hinv].
  specialize (HQ _ (Hinv _ Hi) Hst). by destruct (ask c (ext (sched w))).
Qed.

Lemma wp_call {A} (c : Call A) h w (Q : A -> World E -> Prop) :
  good h w -> (forall a w', good h w' -> steady w w' -> Q a w') -> wp (call sched c) Q w.
Proof.
  intros [Hi Hc] HQ. eapply wp_call_raw; [exact Hi|]. intros w1 Hi1 Hst.
  assert (Hst1 : steady w1 (set_ext (ask c (ext w1)).2 w1)) by apply set_ext_steady, ask_drawn_mono.
  apply HQ; [|by etrans]. split; [apply set_ext_inv; [apply ask_drawn_mono|done]|].
  eapply calm_steady; [|exact Hst1]. by eapply calm_steady.
Qed.

(** A fresh identifier names no session and no sandbox. *)
Lemma wp_new_v4 h w (Q : string -> World E -> Prop) :
  good h w ->
  (forall u w', good (and_ref ("wslcsess:" +:+ u) h) w' -> good h w' -> known_sandbox (ext w') ("wslc:" +:+ u) ->
     containers (wk w') !! ("wslc:" +:+ u) = None -> steady w w' -> Q u w') ->
  wp (call sched NewV4) Q w.
Proof.
  intros [Hi Hc] HQ. eapply wp_call_raw; [exact Hi|]. intros w1 Hi1 Hst.
  set (u := (ask NewV4 (ext w1)).1). set (e := (ask NewV4 (ext w1)).2).
  assert (Hd : drawn e = {[u]} ∪ drawn (ext w1)) by apply (ask_drawn _ NewV4).
  assert (Hf : u ∉ drawn (ext w1)) by apply new_v4_fresh.
  assert (Hi2 : inv h (set_ext e w1)) by (apply set_ext_inv; [set_solver|done]).
  assert (Hst1 : steady w1 (set_ext e w1)) by (apply set_ext_steady; set_solver).
  assert (Hc2 : calm (set_ext e w1)) by (eapply calm_steady; [|exact Hst1]; by eapply calm_steady).
  assert (Hnew : forall a b v, a +:+ u = a +:+ v -> v ∈ drawn (ext w1) -> b = false).
  { intros a b v Heq Hv. by apply (inj (String.append a)) in Heq as ->. }
  apply HQ; [|done| | |by etrans].
  - split; [|done]. constructor; cbn; try apply Hi2.
    + intros r. pose proof (inv_refs _ _ Hi2 r) as Hr. cbn in *. rewrite occ_cons.
      case_bool_decide as Hru; [|cbn; lia]. cbn.
      destruct (decide (0 < refs r (set_ext e w1) + occ r (h_refs h) + occ r (h_sess h))) as [Hp|]; [|lia].
      destruct (inv_known _ _ Hi1 r Hp) as (v & Hv & Hrv). exfalso. subst r.
      by specialize (Hnew _ true v Hrv Hv).
    + intros r Hr. rewrite occ_cons in Hr. case_bool_decide as Hru.
      * exists u. split; [set_solver|done].
      * apply (inv_known _ _ Hi2). cbn in *. lia.
  - exists u. split; [cbn; set_solver|done].
  - cbn. apply eq_None_not_Some. intros [x Hx]. destruct (inv_containers _ _ Hi1 _ _ Hx) as [_ (v & Hv & Hsv)].
    by specialize (Hnew _ true v Hsv Hv).
Qed.

(** ** Fields the invariant does not look at *)

Record same_maps (s s' : Worker) : Prop := MkSame {
  same_pending : pending s' = pending s;
  same_exec : exec_in_flight s' = exec_in_flight s;
  same_booting : pending_sessions s' = pending_sessions s;
  same_containers : containers s' = containers s;
  same_sessions : sessions s' = sessions s;
  same_token : (next_pull_token s <= next_pull_token s')%Z;
  same_sdk : sdk s = true -> sdk s' = true;
}.

#[export] Instance same_maps_preorder : PreOrder same_maps.
Proof. split; [intros s; by constructor|]. intros s1 s2 s3 [] []. constructor; try congruence; auto; lia. Qed.

Lemma set_wk_calm s w : calm w -> calm (set_wk s w).
Proof. intros []. by constructor. Qed.

Lemma same_maps_good h w s : same_maps (wk w) s -> good h w -> good h (set_wk s w).
Proof.
  intros [Hp Hx Hb Hc Hs Ht Hk] [Hi Hcalm]. split; [|by apply set_wk_calm].
  constructor; cbn; try apply Hi; unfold held, leases, refs; cbn; rewrite ?Hp, ?Hx, ?Hb, ?Hc, ?Hs; try apply Hi.
  - intros t p Hl. destruct (inv_pendings _ _ Hi t p Hl). split; [done|lia].
  - intros r Hr. apply Hk, (inv_sdk_sessions _ _ Hi r Hr).
  - intros r p Hr Hst. apply Hk, (inv_sdk_boots _ _ Hi r p Hr Hst).
Qed.

Lemma wp_update f w (Q : unit -> World E -> Prop) :
  Q tt (set_wk (f (wk w)) w) -> wp (update f) Q w.
Proof. done. Qed.

Lemma wp_self {A} (f : Worker -> A) w (Q : A -> World E -> Prop) : Q (f (wk w)) w -> wp (self f) Q w.
Proof. done. Qed.

(** ** Booting *)

Lemma ensure_sdk_good h w :
  good h w ->
  wp (ensure_sdk sched) (fun r w' => good h w' /\ same_maps (wk w) (wk w') /\
    (forall r', vms w !! r' = None -> vms w' !! r' = None) /\
    (is_ok r = true -> sdk (wk w') = true)) w.
Proof.
  intros Hg. unfold ensure_sdk. apply wp_bind, wp_self. destruct (sdk (wk w)) eqn:Hk; [by apply wp_ret|].
  apply wp_bind. eapply wp_call; [exact Hg|]. intros [[]|e] w' Hg' Hst.
  - apply wp_bind, wp_update, wp_ret. assert (Hsame : same_maps (wk w') (set_sdk true (wk w'))) by by constructor.
    split_and!; [by apply same_maps_good|by rewrite <- (steady_wk _ _ Hst)|apply (steady_vms _ _ Hst)|done].
  - apply wp_ret. split_and!; [done|by rewrite (steady_wk _ _ Hst)|apply (steady_vms _ _ Hst)|done].
Qed.

Lemma take_slot_good h w r i pool' :
  good h w -> StoreSlots.take_lowest_free (pool w) = (Some i, pool') -> good (and_lease r i h) (set_pool pool' w).
Proof. clear sched_ok sched.
  intros [Hi Hc] (Hfree & Hl & _)%StoreSlots.take_lowest_free_Some. split; [|by destruct Hc].
  constructor; cbn; try apply Hi.
  - intros j. pose proof (inv_slots _ _ Hi j) as Hs. unfold leases in *; cbn in *. unfold slot_is at 5; cbn.
    destruct (decide (j = i)) as [->|Hne].
    + rewrite (bool_decide_false (i ∈ _)) in Hs by done. rewrite !bool_decide_true by (done || rewrite Hl; set_solver).
      cbn in *. lia.
    + rewrite (bool_decide_false (j = i)) by done. rewrite (bool_decide_ext _ (j ∈ StoreSlots.leased (pool w)))
        by (rewrite Hl; set_solver). cbn. lia.
  - intros r' j Hv. pose proof (inv_vms _ _ Hi r' j Hv) as Hs. unfold leases in *; cbn in *. lia.
Qed.

Lemma drop_slot_good h w r lease :
  good (and_lease r (StoreSlots.index lease) h) w -> vms w !! r = None ->
  good h (set_pool (StoreSlots.drop_lease lease (pool w)) w).
Proof.
  intros [Hi Hc] Hv. split; [|by destruct Hc]. pose proof (return_slot_inv _ _ _ _ Hi Hv) as Hr.
  unfold return_slot in Hr. rewrite (slot_unmounted _ _ r _ Hi) in Hr; [done|cbn; rewrite lease_is_self; lia|done].
Qed.

Lemma lease_with_good h w r :
  good h w -> vms w !! r = None ->
  wp (StoreSlots.lease_with pool set_pool (fun path => call sched (CreateDirAll path))
        (fun _ => mret (Ok tt : result Empty_set unit)))
     (fun res w' => wk w' = wk w /\ vms w' !! r = None /\
        match res with
        | Ok (lease, _) => good (and_lease r (StoreSlots.index lease) h) w'
        | Err _ => good h w'
        end) w.
Proof.
  intros Hg Hv. unfold StoreSlots.lease_with. apply wp_bind. unfold wp at 1.
  destruct (StoreSlots.take_lowest_free (pool w)) as [[i|] pool'] eqn:Htake.
  - pose proof (take_slot_good h w r i pool' Hg Htake) as Hg1.
    apply wp_bind, wp_gets, wp_bind. eapply wp_call; [exact Hg1|]. intros [[]|e] w' Hg' Hst.
    + apply wp_bind, wp_ret, wp_ret. split_and!; [apply (steady_wk _ _ Hst)|by apply (steady_vms _ _ Hst)|done].
    + apply wp_bind, wp_modify, wp_ret. assert (vms w' !! r = None) by by apply (steady_vms _ _ Hst).
      split_and!; [apply (steady_wk _ _ Hst)|done|]. by eapply drop_slot_good.
  - apply StoreSlots.take_lowest_free_None in Htake as ->. apply wp_ret. by destruct w.
Qed.

Lemma boot_report_elem r outcome (q : list WorkerCommand) :
  SessionBooted r outcome ∈ q -> 0 < sum_list_with (boot_report r) q.
Proof.
  intros Hin. apply sum_list_with_pos. exists (SessionBooted r outcome). split; [done|].
  unfold boot_report. rewrite bool_decide_true by done. cbn. lia.
Qed.

(** No report of a session that has not started to boot. *)
Lemma no_boot_report h w r :
  good h w -> with_store (pending_sessions (wk w)) r = 0 -> h_pend h = [] ->
  sum_list_with (boot_is r) (boots w) + sum_list_with (boot_report r) (queue w) = 0.
Proof.
  intros [Hi Hc] Hw Hp. pose proof (inv_boots _ _ Hi r) as Hb. rewrite Hw, Hp, (calm_boots _ Hc) in Hb.
  unfold occ in Hb. cbn in Hb. lia.
Qed.

Lemma start_boot_thread_good h w r i job :
  good (and_lease r i h) w -> vms w !! r = None -> with_store (pending_sessions (wk w)) r = 0 -> h_pend h = [] ->
  good (and_lease r i (and_pend r h))
    (set_vms (<[r := i]> (vms w)) (set_boots (boots w ++ [MkBoot r job Running]) w)).
Proof.
  intros Hg Hv Hw Hp. pose proof (no_boot_report _ _ _ Hg Hw Hp) as Hno. destruct Hg as [Hi Hc].
  split; [|by destruct Hc]. constructor; cbn; try apply Hi.
  - intros r'. pose proof (inv_boots _ _ Hi r') as Hb. cbn in Hb. rewrite sum_with_snoc, occ_cons.
    unfold boot_is at 2. cbn. lia.
  - intros r' j [[<- <-]|[Hne Hj]]%lookup_insert_Some.
    + rewrite lease_is_self. lia.
    + pose proof (inv_vms _ _ Hi r' j Hj) as Hs. cbn in Hs. unfold leases in *; cbn in *. lia.
  - intros Hu. by rewrite (calm_loaded _ Hc) in Hu.
  - intros r' f Hin Hf. destruct (decide (r' = r)) as [->|Hne].
    + apply boot_report_elem in Hin. lia.
    + rewrite lookup_insert_ne by done. by apply (inv_gone _ _ Hi r' f).
Qed.

Lemma start_session_boot_good h w r i job :
  good (and_lease r i h) w -> vms w !! r = None -> with_store (pending_sessions (wk w)) r = 0 -> h_pend h = [] ->
  wp (start_session_boot sched job r i) (fun res w' => wk w' = wk w /\
    match res with
    | Ok _ => good (and_lease r i (and_pend r h)) w'
    | Err _ => good (and_lease r i h) w' /\ vms w' !! r = None
    end) w.
Proof.
  intros Hg Hv Hw Hp. unfold start_session_boot. apply wp_bind. eapply wp_call; [exact Hg|].
  intros [[]|e] w' Hg' Hst; pose proof (steady_wk _ _ Hst) as Hwk; pose proof (steady_vms _ _ Hst r Hv) as Hv'.
  - apply wp_bind, wp_modify.
    rewrite (slot_unmounted _ _ r _ (proj1 Hg')) by (done || cbn; rewrite lease_is_self; lia). cbn [expect_that].
    apply wp_bind, wp_modify, wp_ret. split; [done|]. apply start_boot_thread_good; [done..| |done]. by rewrite Hwk.
  - by apply wp_ret.
Qed.

Lemma return_slot_good h w r lease :
  good (and_lease r (StoreSlots.index lease) h) w -> vms w !! r = None -> good h (return_slot lease w).
Proof.
  intros [Hi Hc] Hv. split; [by eapply return_slot_inv|]. by eapply calm_steady, return_slot_steady.
Qed.

Lemma lease_and_boot_good h w r name sizing :
  good h w -> vms w !! r = None -> with_store (pending_sessions (wk w)) r = 0 -> h_pend h = [] ->
  wp (lease_and_boot sched r name sizing) (fun res w' => same_maps (wk w) (wk w') /\
    match res with
    | Ok store => good (and_lease r (StoreSlots.index store) (and_pend r h)) w' /\ sdk (wk w') = true
    | Err _ => good h w'
    end) w.
Proof.
  intros Hg Hv Hw Hp. unfold lease_and_boot.
  apply wp_bind. eapply wp_mono; [by apply ensure_sdk_good|]. intros [[]|e] w1 (Hg1 & Hs1 & Hv1 & Hk1); [|by apply wp_ret].
  apply wp_bind. eapply wp_mono; [by apply (lease_with_good h w1 r); auto|].
  intros [[store []]|e] w2 (Hwk2 & Hv2 & Hg2); [|apply wp_ret; by rewrite Hwk2].
  apply wp_bind, wp_self. rewrite Hwk2, (Hk1 eq_refl). apply wp_bind, wp_ret, wp_bind.
  eapply wp_mono; [apply (start_session_boot_good h); [done..| |done]|].
  { by rewrite Hwk2, (same_booting _ _ Hs1). }
  intros [[]|e] w3 (Hwk3 & Hg3).
  - apply wp_bind, wp_update, wp_ret. assert (Hsame : same_maps (wk w3)
      (set_returned_slots (pred (returned_slots_unleased (wk w3))) (wk w3))) by by constructor.
    split; [etrans; [exact Hs1|]; by rewrite <- Hwk2, <- Hwk3|]. split; [by apply same_maps_good|].
    cbn. rewrite Hwk3, Hwk2. by apply Hk1.
  - destruct Hg3 as [Hg3 Hv3]. apply wp_bind, wp_modify, wp_ret.
    split; [|by eapply return_slot_good]. rewrite (steady_wk _ _ (return_slot_steady w3 store)), Hwk3, Hwk2. done.
Qed.

(** *** The maps, by key *)

Lemma present_insert {A} (m : gmap string A) k x k' :
  present (<[k := x]> m) k' = if decide (k' = k) then 1 else present m k'.
Proof.
  unfold present. destruct (decide (k' = k)) as [->|].
  - by rewrite lookup_insert_eq, bool_decide_true.
  - by rewrite lookup_insert_ne.
Qed.

Lemma present_delete {A} (m : gmap string A) k k' :
  present (delete k m) k' = if decide (k' = k) then 0 else present m k'.
Proof.
  unfold present. destruct (decide (k' = k)) as [->|].
  - by rewrite lookup_delete_eq, bool_decide_false by (intros [? [=]]).
  - by rewrite lookup_delete_ne.
Qed.

Lemma present_Some {A} (m : gmap string A) k x : m !! k = Some x -> present m k = 1.
Proof. intros Hk. unfold present. by rewrite Hk, bool_decide_true. Qed.

Lemma present_None {A} (m : gmap string A) k : present m k = 0 <-> m !! k = None.
Proof.
  unfold present. rewrite eq_None_not_Some. case_bool_decide; cbn; split; (done || lia).
Qed.

Lemma with_store_insert m k p k' :
  with_store (<[k := p]> m) k' = if decide (k' = k) then Nat.b2n (has_store p) else with_store m k'.
Proof.
  unfold with_store. destruct (decide (k' = k)) as [->|].
  - by rewrite lookup_insert_eq.
  - by rewrite lookup_insert_ne.
Qed.

Lemma with_store_delete m k k' :
  with_store (delete k m) k' = if decide (k' = k) then 0 else with_store m k'.
Proof.
  unfold with_store. destruct (decide (k' = k)) as [->|].
  - by rewrite lookup_delete_eq.
  - by rewrite lookup_delete_ne.
Qed.

Lemma with_store_None m k : m !! k = None -> with_store m k = 0.
Proof. intros Hk. unfold with_store. by rewrite Hk. Qed.

(** A reference in hand is in no map. *)
Lemma ref_in_hand h w r :
  inv (and_ref r h) w -> sessions (wk w) !! r = None /\ pending_sessions (wk w) !! r = None /\
    refs r w = 0 /\ (r ∉ h_sess h) /\ r ∉ leaked w.
Proof.
  intros Hi. pose proof (inv_refs _ _ Hi r) as Hr. cbn in Hr. rewrite occ_cons, bool_decide_true in Hr by done.
  cbn in Hr. unfold refs in *. rewrite <- !present_None. split_and!; [lia..| |].
  - intros Hin%occ_elem. lia.
  - intros Hin%(inv_leaked _ _ Hi)%occ_elem. lia.
Qed.

(** Only a session somebody knows holds a lease. *)
Lemma no_lease w r j : refs r w = 0 -> leases (lease_is r j) w = 0.
Proof.
  unfold refs, leases. intros Hr.
  assert (Hne : forall r' i, r' <> r -> lease_is r j (r', i) = 0).
  { intros r' i Hne. unfold lease_is. rewrite bool_decide_false by congruence. done. }
  assert (Hlo : forall r' o, r' <> r -> sum_list_with (lease_is r j) (lease_of r' o) = 0).
  { intros r' [lease|] Hn; [|done]. cbn. by rewrite Hne. }
  assert (msum (booting_lease (lease_is r j)) (pending_sessions (wk w)) = 0).
  { apply Nat.le_0_r, Nat.nlt_ge. intros (r' & p & Hp & Hpos)%msum_pos. unfold booting_lease in Hpos.
    destruct (decide (r' = r)) as [->|]; [|rewrite Hlo in Hpos by done; lia].
    rewrite (present_Some _ _ _ Hp) in Hr. lia. }
  assert (msum (session_lease (lease_is r j)) (sessions (wk w)) = 0).
  { apply Nat.le_0_r, Nat.nlt_ge. intros (r' & p & Hp & Hpos)%msum_pos.
    unfold session_lease in Hpos. destruct (decide (r' = r)) as [->|]; [|rewrite Hne in Hpos by done; lia].
    rewrite (present_Some _ _ _ Hp) in Hr. lia. }
  assert (sum_list_with (releasing_lease (lease_is r j)) (releases w) = 0).
  { apply Nat.le_0_r, Nat.nlt_ge. intros (t & Ht & Hpos)%sum_list_with_pos.
    pose proof (sum_list_with_elem (releasing_is r) _ _ Ht) as Hle. unfold releasing_lease in Hpos.
    unfold releasing_is at 1 in Hle. destruct (releasing_phase t); cbn in *; [|lia].
    case_bool_decide; cbn in Hle; [lia|]. rewrite Hlo in Hpos by done. lia. }
  assert (sum_list_with (lease_is r j) (forgotten w) = 0).
  { apply Nat.le_0_r, Nat.nlt_ge. intros ([r' i] & Ht & Hpos)%sum_list_with_pos.
    destruct (decide (r' = r)) as [->|]; [|rewrite Hne in Hpos by done; lia].
    assert (0 < occ r (forgotten w).*1); [|lia]. apply occ_elem, list_elem_of_fmap. by exists (r, i). }
  lia.
Qed.

Lemma no_vm h w r : inv (and_ref r h) w -> (forall j, sum_list_with (lease_is r j) (h_leases h) = 0) -> vms w !! r = None.
Proof.
  intros Hi Hh. destruct (vms w !! r) as [j|] eqn:Hv; [exfalso|done].
  pose proof (inv_vms _ _ Hi r j Hv) as Hl. cbn in Hl. rewrite Hh, no_lease in Hl by apply (ref_in_hand _ _ _ Hi). lia.
Qed.

(** ** Sessions that boot *)

(** What the entry [p] of a booting session stands for. *)
Definition and_entry (r : string) (p : PendingSession) h : Hand :=
  MkHand (booting_replies p ++ h_replies h) (h_boots h) (h_runs h)
    ((if has_store p then [r] else []) ++ h_pend h)
    (lease_of r (booting_store p) ++ h_leases h) (r :: h_refs h) (h_sess h).

Lemma good_wk h h' w s : (inv h w -> inv h' (set_wk s w)) -> good h w -> good h' (set_wk s w).
Proof. intros Hi [? ?]. split; [auto|by apply set_wk_calm]. Qed.

Lemma take_pending_inv h w r p :
  pending_sessions (wk w) !! r = Some p -> inv h w ->
  inv (and_entry r p h) (set_wk (set_pending_sessions (delete r (pending_sessions (wk w))) (wk w)) w).
Proof.
  intros Hl Hi. constructor; cbn; try apply Hi.
  - intros q. pose proof (inv_replies _ _ Hi q) as Hq. unfold held in *; cbn.
    rewrite (msum_delete _ _ _ _ Hl) in Hq. rewrite sum_list_with_app. unfold booting_w at 1 in Hq. lia.
  - intros r'. pose proof (inv_boots _ _ Hi r') as Hb. rewrite with_store_delete. unfold occ in *.
    rewrite sum_list_with_app. destruct (decide (r' = r)) as [->|Hne].
    + unfold with_store in Hb. rewrite Hl in Hb. cbn in Hb.
      destruct (has_store p); cbn in *; rewrite ?bool_decide_true by done; cbn; lia.
    + destruct (has_store p); cbn; rewrite ?bool_decide_false by done; cbn; lia.
  - intros i. pose proof (inv_slots _ _ Hi i) as Hs. unfold leases in *; cbn.
    rewrite (msum_delete _ _ _ _ Hl) in Hs. rewrite sum_list_with_app. unfold booting_lease at 1 in Hs. lia.
  - intros r' i Hv. pose proof (inv_vms _ _ Hi r' i Hv) as Hs. unfold leases in *; cbn.
    rewrite (msum_delete _ _ _ _ Hl) in Hs. rewrite sum_list_with_app. unfold booting_lease at 1 in Hs. lia.
  - intros r'. pose proof (inv_refs _ _ Hi r') as Hr. unfold refs in *; cbn. rewrite present_delete, occ_cons.
    destruct (decide (r' = r)) as [->|Hne].
    + rewrite (present_Some _ _ _ Hl) in Hr. rewrite bool_decide_true by done. cbn. lia.
    + rewrite bool_decide_false by done. cbn. lia.
  - intros r' Hr'. apply (inv_known _ _ Hi). unfold refs in *; cbn in *. rewrite present_delete, occ_cons in Hr'.
    destruct (decide (r' = r)) as [->|Hne]; [rewrite (present_Some _ _ _ Hl); lia|].
    rewrite bool_decide_false in Hr' by done. cbn in Hr'. lia.
  - intros r' p' Hp'%lookup_delete_Some. naive_solver eauto using inv_abandoned.
  - intros r' p' Hp'%lookup_delete_Some. naive_solver eauto using inv_sdk_boots.
Qed.

Lemma put_pending_inv h w r p :
  (abandoned p = true -> booting_replies p = []) -> (has_store p = true -> sdk (wk w) = true) ->
  inv (and_entry r p h) w ->
  inv h (set_wk (set_pending_sessions (<[r := p]> (pending_sessions (wk w))) (wk w)) w).
Proof.
  intros Hab Hsdk Hi.
  assert (Hl : pending_sessions (wk w) !! r = None).
  { pose proof (inv_refs _ _ Hi r) as Hr. cbn in Hr. rewrite occ_cons, bool_decide_true in Hr by done.
    cbn in Hr. unfold refs in Hr. rewrite <- present_None. lia. }
  constructor; cbn; try apply Hi.
  - intros q. pose proof (inv_replies _ _ Hi q) as Hq. unfold held in *; cbn in *.
    rewrite (msum_insert _ _ _ _ Hl). rewrite sum_list_with_app in Hq. unfold booting_w at 1. lia.
  - intros r'. pose proof (inv_boots _ _ Hi r') as Hb. cbn in Hb. rewrite with_store_insert. unfold occ in *.
    rewrite sum_list_with_app in Hb. destruct (decide (r' = r)) as [->|Hne].
    + rewrite (with_store_None _ _ Hl) in Hb.
      destruct (has_store p); cbn in *; rewrite ?bool_decide_true in Hb by done; cbn in *; lia.
    + destruct (has_store p); cbn in *; rewrite ?bool_decide_false in Hb by done; cbn in *; lia.
  - intros i. pose proof (inv_slots _ _ Hi i) as Hs. unfold leases in *; cbn in *.
    rewrite (msum_insert _ _ _ _ Hl). rewrite sum_list_with_app in Hs. unfold booting_lease at 1. lia.
  - intros r' i Hv. pose proof (inv_vms _ _ Hi r' i Hv) as Hs. unfold leases in *; cbn in *.
    rewrite (msum_insert _ _ _ _ Hl). rewrite sum_list_with_app in Hs. unfold booting_lease at 1. lia.
  - intros r'. pose proof (inv_refs _ _ Hi r') as Hr. unfold refs in *; cbn in *. rewrite present_insert.
    rewrite occ_cons in Hr. destruct (decide (r' = r)) as [->|Hne]; [|cbn in *; lia].
    rewrite bool_decide_true in Hr by done. cbn in Hr. lia.
  - intros r' Hr'. apply (inv_known _ _ Hi). unfold refs in *; cbn in *. rewrite present_insert in Hr'.
    rewrite occ_cons. destruct (decide (r' = r)) as [->|Hne]; [rewrite bool_decide_true by done; cbn; lia|].
    cbn; lia.
  - intros r' p' [[<- <-]|[_ Hp']]%lookup_insert_Some; [done|]. by eapply inv_abandoned.
  - intros r' p' [[<- <-]|[_ Hp']]%lookup_insert_Some; [done|]. by eapply inv_sdk_boots.
Qed.

(** Only the number of times a resource is in hand matters. *)
Lemma good_replies_perm l l' h w : l ≡ₚ l' -> good (and_replies l h) w -> good (and_replies l' h) w.
Proof.
  intros Hl [Hi Hc]. split; [|done]. constructor; cbn; try apply Hi.
  intros p. pose proof (inv_replies _ _ Hi p) as Hp. cbn in Hp. rewrite sum_list_with_app in *.
  rewrite <- (sum_list_with_perm _ _ _ Hl). done.
Qed.

Lemma good_drop_ref h w r : good (and_ref r h) w -> good h w.
Proof. intros [Hi Hc]. split; [by eapply drop_ref_inv|done]. Qed.

Lemma begin_session_good l w sizing :
  good (replies l) w ->
  wp (begin_session sched sizing) (fun res w' => good (replies l) w' /\
    match res with
    | Ok r => exists p, pending_sessions (wk w') !! r = Some p /\ abandoned p = false /\ booting_reply p = None
    | Err _ => True
    end) w.
Proof.
  intros Hg. unfold begin_session. apply wp_bind. eapply wp_new_v4; [exact Hg|].
  intros u w1 Hg1 _ _ _ _. set (r := "wslcsess:" +:+ u) in *.
  apply wp_bind. eapply wp_call; [exact Hg1|]. intros now w2 Hg2 _.
  assert (Hput : forall w0 store name requested,
    good (and_entry r (MkPendingSession store name sizing None [] requested false) (replies l)) w0 ->
    (store <> None -> sdk (wk w0) = true) ->
    let p := MkPendingSession store name sizing None [] requested false in
    let w' := set_wk (set_pending_sessions (<[r := p]> (pending_sessions (wk w0))) (wk w0)) w0 in
    good (replies l) w' /\ exists p, pending_sessions (wk w') !! r = Some p /\ abandoned p = false /\ booting_reply p = None).
  { intros w0 store name requested Hg0 Hsdk p w'. split.
    - unfold w'. eapply good_wk; [|exact Hg0]. apply put_pending_inv; [done|]. by destruct store; [intros _; apply Hsdk|].
    - exists p. split_and!; [|done..]. cbn. apply lookup_insert_eq. }
  apply wp_bind, wp_self. destruct (should_wait_for_a_release (wk w2) now).
  - apply wp_bind. eapply wp_call; [exact Hg2|]. intros req w3 Hg3 _.
    apply wp_bind, wp_update, wp_ret. by apply Hput.
  - destruct (ref_in_hand _ _ _ (proj1 Hg2)) as (_ & Hnone & _).
    apply wp_bind. eapply wp_mono; [apply (lease_and_boot_good (and_ref r (replies l))); [done| | |done]|].
    + by apply (no_vm (replies l)); [apply Hg2|].
    + by apply with_store_None.
    + intros [store|e] w3 [Hs3 Hg3]; [|apply wp_ret; split; [by eapply good_drop_ref|done]].
      destruct Hg3 as [Hg3 Hk3]. apply wp_bind. eapply wp_call; [exact Hg3|]. intros req w4 Hg4 Hst4.
      apply wp_bind, wp_update, wp_ret. apply Hput; [exact Hg4|]. intros _. by rewrite (steady_wk _ _ Hst4).
Qed.

(** Changing the waiting clients of a booting session. *)
Lemma update_pending_good l l' w r p p' :
  pending_sessions (wk w) !! r = Some p -> booting_store p' = booting_store p ->
  (abandoned p' = true -> booting_replies p' = []) ->
  booting_replies p ++ l ≡ₚ booting_replies p' ++ l' ->
  good (replies l) w ->
  good (replies l') (set_wk (set_pending_sessions (<[r := p']> (pending_sessions (wk w))) (wk w)) w).
Proof.
  intros Hl Hst Hab Hperm Hg.
  set (w1 := set_wk (set_pending_sessions (delete r (pending_sessions (wk w))) (wk w)) w).
  assert (Hg1 : good (and_entry r p (replies l)) w1) by (eapply good_wk; [|exact Hg]; by apply take_pending_inv).
  assert (Hg2 : good (and_entry r p' (replies l')) w1).
  { assert (Hh : forall q k, and_entry r q (replies k) =
      and_replies (booting_replies q ++ k) (MkHand [] [] [] (if has_store q then [r] else [])
        (lease_of r (booting_store q)) [r] [])).
    { intros q k. unfold and_entry, and_replies. cbn. by rewrite !app_nil_r. }
    rewrite Hh in *. replace (has_store p') with (has_store p) by (unfold has_store; by rewrite Hst).
    rewrite Hst. by eapply good_replies_perm. }
  assert (Heq : set_wk (set_pending_sessions (<[r := p']> (pending_sessions (wk w))) (wk w)) w =
    set_wk (set_pending_sessions (<[r := p']> (pending_sessions (wk w1))) (wk w1)) w1).
  { unfold w1, set_wk, set_pending_sessions. cbn. by rewrite insert_delete_eq. }
  rewrite Heq. eapply good_wk; [|exact Hg2]. apply put_pending_inv; [done|].
  intros Hs. apply (inv_sdk_boots _ _ (proj1 Hg) r p Hl). unfold has_store in *. by rewrite <- Hst.
Qed.

Lemma log_sent_calm reply a w : calm w -> calm (log_sent reply a w).
Proof. intros []. by constructor. Qed.

Lemma log_dropped_calm reply why w : calm w -> calm (log_dropped reply why w).
Proof. intros []. by constructor. Qed.

Lemma send_good x l a w : good (replies (x :: l)) w -> wp (send x a) (fun _ => good (replies l)) w.
Proof. intros [Hi Hc]. apply wp_modify. split; [by apply log_sent_inv|by apply log_sent_calm]. Qed.

Lemma drop_reply_good x l why w :
  why <> UnansweredBoot -> good (replies (x :: l)) w -> wp (drop_reply x why) (fun _ => good (replies l)) w.
Proof. intros Hw [Hi Hc]. apply wp_modify. split; [by apply log_dropped_inv|by apply log_dropped_calm]. Qed.

Lemma send_all_good k l a w : good (replies (k ++ l)) w -> wp (send_all k a) (fun _ => good (replies l)) w.
Proof.
  intros Hg. apply (wp_for_each (fun k w => good (replies (k ++ l)) w)); [done|].
  intros x k' w' Hg'. by apply send_good.
Qed.

Lemma send_option_good o l a w :
  good (replies (option_list o ++ l)) w ->
  wp (match o with Some reply => send reply a | None => mret tt end) (fun _ => good (replies l)) w.
Proof. destruct o as [x|]; cbn; [apply send_good|intros Hg; exact Hg]. Qed.

Lemma replies_perm l l' w : l ≡ₚ l' -> good (replies l) w -> good (replies l') w.
Proof.
  intros Hl. replace (replies l) with (and_replies l no_hand) by (unfold and_replies; cbn; by rewrite app_nil_r).
  replace (replies l') with (and_replies l' no_hand) by (unfold and_replies; cbn; by rewrite app_nil_r).
  by apply good_replies_perm.
Qed.

Lemma attach_session_reply_good l w r p reply :
  good (replies (reply :: l)) w -> pending_sessions (wk w) !! r = Some p -> abandoned p = false ->
  booting_reply p = None -> wp (attach_session_reply r reply) (fun _ => good (replies l)) w.
Proof.
  intros Hg Hl Hab Hn. unfold attach_session_reply. apply wp_bind, wp_self. rewrite Hl. apply wp_update.
  eapply update_pending_good; [exact Hl|done| | |exact Hg]; cbn; [by rewrite Hab|].
  unfold booting_replies. rewrite Hn. cbn. by rewrite Permutation_middle.
Qed.

Lemma ensure_session_good l w requested :
  good (replies l) w ->
  wp (ensure_session sched requested) (fun res w' => good (replies l) w' /\
    match res with
    | Ok (Ready r) => is_Some (sessions (wk w') !! r)
    | Ok (Booting r) => exists p, pending_sessions (wk w') !! r = Some p /\ abandoned p = false
    | Err _ => True
    end) w.
Proof.
  intros Hg.
  assert (Hb : forall r, is_booting (wk w) r = true ->
    exists p, pending_sessions (wk w) !! r = Some p /\ abandoned p = false).
  { intros r. unfold is_booting. destruct (pending_sessions (wk w) !! r) as [p|]; [|done]. cbn.
    intros Hn%negb_true_iff. eauto. }
  unfold ensure_session. destruct requested as [r|]; apply wp_bind, wp_self; cbn [id].
  - apply wp_ret. split; [done|]. unfold has_session. case_bool_decide; [done|].
    destruct (is_booting (wk w) r) eqn:Hbr; auto.
  - lazymatch goal with |- wp (match ?x with Some _ => _ | None => _ end) _ _ => set (existing := x) end.
    assert (Hex : match existing with
      | Some (Ready r) => is_Some (sessions (wk w) !! r)
      | Some (Booting r) => exists p, pending_sessions (wk w) !! r = Some p /\ abandoned p = false
      | None => True end).
    { unfold existing, has_session. destruct (default_session (wk w)) as [r|]; [|done].
      case_bool_decide; [done|]. destruct (is_booting (wk w) r) eqn:Hbr; auto. }
    clearbody existing. destruct existing as [found|]; [by apply wp_ret|].
    apply wp_bind. eapply wp_mono; [by apply begin_session_good|]. intros [r|e] w1 [Hg1 Hp1]; [|by apply wp_ret].
    apply wp_bind, wp_update, wp_ret. split; [by apply same_maps_good|]. naive_solver.
Qed.

(** ** Sessions that run *)

Lemma update_session_inv h w r e e' :
  sessions (wk w) !! r = Some e -> store e' = store e -> inv h w ->
  inv h (set_wk (set_sessions (<[r := e']> (sessions (wk w))) (wk w)) w).
Proof.
  intros Hl Hst Hi.
  assert (Hin : forall r', is_Some (<[r := e']> (sessions (wk w)) !! r') <-> is_Some (sessions (wk w) !! r')).
  { intros r'. destruct (decide (r' = r)) as [->|]; [rewrite lookup_insert_eq, Hl; naive_solver|].
    by rewrite lookup_insert_ne. }
  assert (Hpres : forall r', present (<[r := e']> (sessions (wk w))) r' = present (sessions (wk w)) r').
  { intros r'. unfold present. by rewrite (bool_decide_ext _ _ (Hin r')). }
  assert (Hsum : forall p, msum (session_lease p) (<[r := e']> (sessions (wk w))) = msum (session_lease p) (sessions (wk w))).
  { intros p. pose proof (msum_update (session_lease p) _ _ _ e' Hl) as Hm. unfold session_lease at 2 4 in Hm.
    rewrite Hst in Hm. lia. }
  constructor; cbn; try apply Hi; unfold leases, refs; cbn.
  - intros i. rewrite Hsum. apply (inv_slots _ _ Hi).
  - intros r' i. rewrite Hsum. apply (inv_vms _ _ Hi).
  - intros r'. rewrite Hpres. apply (inv_refs _ _ Hi).
  - intros r'. rewrite Hpres. apply (inv_known _ _ Hi).
  - intros t Ht Hp. rewrite Hin. by apply (inv_run_session _ _ Hi).
  - intros t Ht. rewrite Hin. by apply (inv_pull_use _ _ Hi).
  - intros s x Hx. rewrite Hin. by apply (inv_containers _ _ Hi).
  - intros t p Hp. rewrite Hin. by apply (inv_pendings _ _ Hi).
  - intros r'. rewrite Hin. apply (inv_sdk_sessions _ _ Hi).
Qed.

Lemma touch_session_good h w r :
  good h w -> wp (touch_session r) (fun _ w' => good h w' /\
    (forall r', is_Some (sessions (wk w) !! r') -> is_Some (sessions (wk w') !! r')) /\
    exec_in_flight (wk w') = exec_in_flight (wk w) /\ containers (wk w') = containers (wk w) /\
    pending (wk w') = pending (wk w) /\ next_pull_token (wk w') = next_pull_token (wk w) /\
    runs w' = runs w /\ ext w' = ext w /\ queue w' = queue w) w.
Proof.
  intros Hg. unfold touch_session. apply wp_update. unfold touched.
  destruct (sessions (wk w) !! r) as [e|] eqn:Hl; [|by destruct w].
  split; [eapply good_wk; [|exact Hg]; by eapply update_session_inv|]. split_and!; [|done..].
  cbn. intros r' Hr'. destruct (decide (r' = r)) as [->|]; [by rewrite lookup_insert_eq|by rewrite lookup_insert_ne].
Qed.

(** ** Provisioning *)

Lemma put_container_inv h w s e :
  containers (wk w) !! s = None -> is_Some (sessions (wk w) !! container_session e) -> known_sandbox (ext w) s ->
  inv h w -> inv h (set_wk (set_containers (<[s := e]> (containers (wk w))) (wk w)) w).
Proof.
  intros Hl Hs Hk Hi. constructor; cbn; try apply Hi.
  - intros s' x Hx. destruct (inv_execs _ _ Hi _ _ Hx) as (e' & He' & Hrest). exists e'. split; [|done].
    rewrite lookup_insert_ne; [done|congruence].
  - intros s' e' [[<- <-]|[_ He']]%lookup_insert_Some; [done|]. by apply (inv_containers _ _ Hi).
Qed.

Lemma create_provisioned_container_good l w config r :
  good (replies l) w -> is_Some (sessions (wk w) !! r) ->
  wp (create_provisioned_container sched config r) (fun _ => good (replies l)) w.
Proof.
  intros Hg Hr. unfold create_provisioned_container.
  apply wp_bind, wp_self. rewrite (inv_sdk_sessions _ _ (proj1 Hg) r Hr). apply wp_bind, wp_ret.
  apply wp_bind, wp_self. destruct Hr as [e He]. rewrite He. apply wp_bind, wp_ret, wp_bind.
  eapply wp_call; [exact Hg|]. intros [[]|er] w1 Hg1 Hst1; [|by apply wp_ret].
  apply wp_bind. eapply wp_call; [exact Hg1|]. intros [handle|er] w2 Hg2 Hst2; [|by apply wp_ret].
  apply wp_bind. eapply wp_new_v4; [exact Hg2|]. intros u w3 _ Hg3 Hk3 Hc3 Hst3.
  apply wp_bind. eapply wp_mono; [by apply touch_session_good|].
  intros [] w4 (Hg4 & Hs4 & _ & Hc4 & _ & _ & _ & He4 & _). apply wp_bind, wp_update, wp_ret.
  eapply good_wk; [|exact Hg4]. apply put_container_inv; [by rewrite Hc4| |by rewrite He4].
  apply Hs4. rewrite (steady_wk _ _ Hst3), (steady_wk _ _ Hst2), (steady_wk _ _ Hst1). by exists e.
Qed.

Lemma start_pull_inv h w r token :
  is_Some (sessions (wk w) !! r) -> sdk_unloaded w = false -> inv h w ->
  inv h (set_pulls (pulls w ++ [MkPull token r Running]) w).
Proof.
  intros Hr Hu Hi. constructor; cbn; try apply Hi.
  - intros t [Ht|Ht%list_elem_of_singleton]%elem_of_app; [by apply (inv_pull_use _ _ Hi)|]. left. by subst t.
  - congruence.
Qed.

Lemma park_pull_inv l w token config reply r :
  pending (wk w) !! token = None -> is_Some (sessions (wk w) !! r) -> (token < next_pull_token (wk w))%Z ->
  inv (replies (reply :: l)) w ->
  inv (replies l) (set_wk (set_pending (<[token := MkPendingProvision config reply r]> (pending (wk w))) (wk w)) w).
Proof.
  intros Hl Hr Ht Hi. constructor; cbn; try apply Hi.
  - intros p. pose proof (inv_replies _ _ Hi p) as Hp. unfold held in *; cbn in *. rewrite (msum_insert _ _ _ _ Hl).
    unfold pending_w at 1. cbn. lia.
  - intros t p [[<- <-]|[_ Hp]]%lookup_insert_Some; [done|]. by apply (inv_pendings _ _ Hi).
Qed.

Lemma park_pull_good l w config reply r :
  good (replies (reply :: l)) w -> is_Some (sessions (wk w) !! r) ->
  wp (park_pull sched config reply r) (fun _ => good (replies l)) w.
Proof.
  intros Hg Hr. unfold park_pull. apply wp_bind, wp_self. set (token := next_pull_token (wk w)).
  apply wp_bind, wp_update. set (s1 := set_next_pull_token _ _). set (w1 := set_wk s1 w).
  assert (Hg1 : good (replies (reply :: l)) w1) by (apply same_maps_good; [constructor; cbn; auto; lia|done]).
  apply wp_bind, wp_self. destruct Hr as [e He]. cbn [sessions wk w1 s1 set_wk set_next_pull_token]. rewrite He.
  apply wp_bind, wp_ret, wp_bind. unfold start_pull_counted.
  apply wp_bind. eapply wp_call; [exact Hg1|]. intros [[]|er] w2 Hg2 Hst2; [|apply wp_ret; by apply send_good].
  pose proof (steady_wk _ _ Hst2) as Hwk2.
  assert (Hr2 : is_Some (sessions (wk w2) !! r)) by (rewrite Hwk2; by exists e).
  apply wp_bind, wp_modify, wp_ret, wp_bind. set (w3 := set_pulls _ w2).
  assert (Hg3 : good (replies (reply :: l)) w3).
  { destruct Hg2 as [Hi2 Hc2]. split; [apply start_pull_inv; [done|apply Hc2|done]|by destruct Hc2]. }
  eapply wp_call; [exact Hg3|]. intros budget w4 Hg4 Hst4. apply wp_bind.
  eapply wp_call; [exact Hg4|]. intros [[]|er] w5 Hg5 Hst5; [|by apply send_good].
  apply wp_bind, wp_modify. set (w6 := set_deadlines _ w5).
  assert (Hg6 : good (replies (reply :: l)) w6).
  { destruct Hg5 as [Hi5 Hc5]. split; [by apply deadline_retires_inv|by destruct Hc5]. }
  apply wp_bind. eapply wp_mono; [by apply touch_session_good|].
  intros [] w7 (Hg7 & Hs7 & _ & _ & Hp7 & Ht7 & _ & _). apply wp_update.
  assert (Hwk6 : wk w6 = s1).
  { change (wk w6) with (wk w5). rewrite (steady_wk _ _ Hst5), (steady_wk _ _ Hst4). exact Hwk2. }
  eapply good_wk; [|exact Hg7]. apply park_pull_inv.
  - rewrite Hp7, Hwk6. cbn. destruct (pending (wk w) !! token) as [p|] eqn:Hl; [|done].
    destruct (inv_pendings _ _ (proj1 Hg) _ _ Hl). unfold token in *. lia.
  - apply Hs7. rewrite Hwk6. by exists e.
  - rewrite Ht7, Hwk6. cbn. unfold token. lia.
Qed.

Lemma begin_provision_good l w config reply :
  good (replies (reply :: l)) w -> wp (begin_provision sched config reply) (fun _ => good (replies l)) w.
Proof.
  intros Hg. unfold begin_provision. apply wp_bind. eapply wp_mono; [by apply ensure_session_good|].
  intros [[r|r]|e] w1 [Hg1 Hf]; [| |by apply send_good].
  - apply wp_bind, wp_self. rewrite (inv_sdk_sessions _ _ (proj1 Hg1) r Hf). apply wp_bind, wp_ret.
    apply wp_bind, wp_self. destruct Hf as [e He]. rewrite He. apply wp_bind, wp_ret, wp_bind.
    eapply wp_call; [exact Hg1|]. intros [[|]|er] w2 Hg2 Hst2; [| |by apply send_good].
    + apply wp_bind. eapply wp_mono; [apply create_provisioned_container_good; [exact Hg2|]|].
      { rewrite (steady_wk _ _ Hst2). by exists e. }
      intros res w3 Hg3. by apply send_good.
    + apply park_pull_good; [done|]. rewrite (steady_wk _ _ Hst2). by exists e.
  - destruct Hf as (p & Hp & Hab). apply wp_bind, wp_self. rewrite Hp. apply wp_bind, wp_ret, wp_update.
    eapply update_pending_good; [exact Hp|done|by cbn; rewrite Hab| |exact Hg1].
    unfold booting_replies. cbn. rewrite fmap_app. cbn. rewrite <- !app_assoc. cbn. done.
Qed.

Lemma take_provision_inv l w token p :
  pending (wk w) !! token = Some p -> inv (replies l) w ->
  inv (replies (pending_reply p :: l)) (set_wk (set_pending (delete token (pending (wk w))) (wk w)) w).
Proof.
  intros Hl Hi. constructor; cbn; try apply Hi.
  - intros q. pose proof (inv_replies _ _ Hi q) as Hq. unfold held in *; cbn in *.
    rewrite (msum_delete _ _ _ _ Hl) in Hq. unfold pending_w at 1 in Hq. lia.
  - intros t p' [_ Hp']%lookup_delete_Some. by apply (inv_pendings _ _ Hi).
Qed.

Lemma finish_provision_good l w token outcome :
  good (replies l) w -> wp (finish_provision sched token outcome) (fun _ => good (replies l)) w.
Proof.
  intros Hg. unfold finish_provision. apply wp_bind, wp_self.
  destruct (pending (wk w) !! token) as [p|] eqn:Hl; [|by apply wp_ret].
  apply wp_bind, wp_update. set (w1 := set_wk _ w).
  assert (Hg1 : good (replies (pending_reply p :: l)) w1) by (eapply good_wk; [|exact Hg]; by apply take_provision_inv).
  destruct outcome as [[]|e]; [|by apply send_good].
  destruct (inv_pendings _ _ (proj1 Hg) _ _ Hl) as [Hs _].
  apply wp_bind, wp_self. change (sdk (wk w1)) with (sdk (wk w)). rewrite (inv_sdk_sessions _ _ (proj1 Hg) _ Hs).
  apply wp_bind, wp_ret, wp_bind, wp_self. change (sessions (wk w1)) with (sessions (wk w)).
  destruct Hs as [e He]. rewrite He. apply wp_bind, wp_ret, wp_bind. eapply wp_call; [exact Hg1|].
  intros [[]|er] w2 Hg2 Hst2; [|by apply send_good].
  apply wp_bind. eapply wp_mono; [apply create_provisioned_container_good; [exact Hg2|]|].
  { rewrite (steady_wk _ _ Hst2). by exists e. }
  intros res w3 Hg3. by apply send_good.
Qed.

(** ** Releasing sessions *)

Lemma start_release_inv h w job r reply notify :
  inv (and_replies (option_list reply) (and_lease_of r (release_store job) (and_ref r h))) w ->
  sdk_unloaded w = false ->
  inv h (set_releases (releases w ++ [MkReleasing r job reply notify Running]) w).
Proof.
  intros Hi Hu. constructor; cbn; try apply Hi.
  - intros p. pose proof (inv_replies _ _ Hi p) as Hp. unfold held in *; cbn in *. rewrite sum_with_snoc.
    rewrite sum_list_with_app in Hp. unfold releasing_w at 2. cbn. lia.
  - intros i. pose proof (inv_slots _ _ Hi i) as Hs. unfold leases in *; cbn in *. rewrite sum_with_snoc.
    rewrite sum_list_with_app in Hs. unfold releasing_lease at 2. cbn. lia.
  - intros r' i Hv. pose proof (inv_vms _ _ Hi r' i Hv) as Hs. unfold leases in *; cbn in *. rewrite sum_with_snoc.
    rewrite sum_list_with_app in Hs. unfold releasing_lease at 2. cbn. lia.
  - intros r'. pose proof (inv_refs _ _ Hi r') as Hr. unfold refs in *; cbn in *. rewrite sum_with_snoc.
    rewrite occ_cons in Hr. unfold releasing_is at 2. cbn. lia.
  - intros r' Hr. apply (inv_known _ _ Hi). unfold refs in *; cbn in *. rewrite sum_with_snoc in Hr.
    rewrite occ_cons. unfold releasing_is at 2 in Hr. cbn in Hr. lia.
  - congruence.
Qed.

Lemma start_session_release_good l w job r reply notify :
  good (and_lease_of r (release_store job) (and_ref r (replies (option_list reply ++ l)))) w ->
  wp (start_session_release sched job r reply notify) (fun res w' => wk w' = wk w /\ pulls_in_flight r w' <= pulls_in_flight r w /\
    (forall r', pulls_in_flight r' w' <= pulls_in_flight r' w) /\
    match res with
    | Ok _ => good (replies l) w'
    | Err job' => job' = job /\ good (and_lease_of r (release_store job) (and_ref r (replies l))) w'
    end) w.
Proof.
  intros Hg. unfold start_session_release. apply wp_bind. eapply wp_call; [exact Hg|].
  intros [[]|e] w1 [Hi1 Hc1] Hst1; pose proof (steady_wk _ _ Hst1) as Hwk1; pose proof (steady_pulls _ _ Hst1) as Hp1.
  - apply wp_bind, wp_modify, wp_ret. split_and!; [done|apply Hp1|done|].
    split; [|by destruct Hc1]. apply start_release_inv; [|apply Hc1].
    destruct reply; exact Hi1.
  - apply wp_bind. destruct reply as [x|].
    + apply wp_modify, wp_ret. split_and!; [done|apply Hp1|done|done|].
      split; [|by apply log_dropped_calm]. apply log_dropped_inv; [done|]. exact Hi1.
    + apply wp_ret, wp_ret. by split_and!; [done|apply Hp1|done|done|].
Qed.

Lemma drop_release_good h w r job :
  good (and_lease_of r (release_store job) (and_ref r h)) w -> good h (drop_release r job w).
Proof.
  intros [Hi Hc]. split; [by apply drop_release_inv|]. by eapply calm_steady, drop_release_steady.
Qed.

Lemma release_or_leak_good l w job r notify :
  good (and_lease_of r (release_store job) (and_ref r (replies l))) w ->
  wp (release_or_leak sched job r notify) (fun _ w' => wk w' = wk w /\ good (replies l) w' /\
    forall r', pulls_in_flight r' w' <= pulls_in_flight r' w) w.
Proof.
  intros Hg. unfold release_or_leak. apply wp_bind. eapply wp_mono; [apply (start_session_release_good l); exact Hg|].
  intros [[]|job'] w1 (Hwk & _ & Hp & Hres).
  - by apply wp_ret.
  - destruct Hres as [-> Hg1]. apply wp_bind, wp_modify, wp_ret.
    pose proof (drop_release_steady w1 r job) as Hst. split_and!.
    + by rewrite (steady_wk _ _ Hst).
    + by apply drop_release_good.
    + intros r'. pose proof (steady_pulls _ _ Hst r'). specialize (Hp r'). lia.
Qed.

(** Nothing of the worker or its pulls uses session [r]. *)
Record unheld (r : string) w : Prop := MkUnheld {
  unheld_containers s e : containers (wk w) !! s = Some e -> container_session e <> r;
  unheld_pending t p : pending (wk w) !! t = Some p -> pending_session p <> r;
  unheld_execs s x : exec_in_flight (wk w) !! s = Some x -> run_session x <> r;
  unheld_pulls : pulls_in_flight r w = 0;
}.

Lemma filter_length_0 {A} (P : A -> Prop) `{forall x, Decision (P x)} l :
  length (filter P l) = 0 -> forall x, x ∈ l -> ~ P x.
Proof.
  intros Hl x Hx Hp. apply nil_length_inv in Hl. assert (Hin : x ∈ filter P l) by (apply list_elem_of_filter; split; done).
  rewrite Hl in Hin. by apply elem_of_nil in Hin.
Qed.

Lemma session_hold_0 w r : is_Some (sessions (wk w) !! r) -> session_hold w r = 0 -> unheld r w.
Proof.
  unfold session_hold. intros [e He]. rewrite He. intros Hz.
  constructor; [intros s c Hc%elem_of_map_to_list|intros t p Hp%elem_of_map_to_list|intros s x Hx%elem_of_map_to_list|lia].
  - refine (filter_length_0 (fun e => container_session e.2 = r) _ _ _ Hc). lia.
  - refine (filter_length_0 (fun p => pending_session p.2 = r) _ _ _ Hp). lia.
  - refine (filter_length_0 (fun x => run_session x.2 = r) _ _ _ Hx). lia.
Qed.

Lemma take_session_inv h w r e :
  sessions (wk w) !! r = Some e -> unheld r w -> lost_runs w = [] -> inv h w ->
  inv (and_lease r (StoreSlots.index (store e)) (and_ref r h))
    (set_wk (set_sessions (delete r (sessions (wk w))) (wk w)) w).
Proof.
  intros Hl Hu Hlost Hi.
  assert (Hin : forall r', r' <> r -> is_Some (sessions (wk w) !! r') -> is_Some (delete r (sessions (wk w)) !! r')).
  { intros r' Hne. by rewrite lookup_delete_ne. }
  constructor; cbn; try apply Hi; unfold leases, refs; cbn.
  - intros i. pose proof (inv_slots _ _ Hi i) as Hs. unfold leases in Hs.
    rewrite (msum_delete _ _ _ _ Hl) in Hs. unfold session_lease at 1 in Hs. lia.
  - intros r' i Hv. pose proof (inv_vms _ _ Hi r' i Hv) as Hs. unfold leases in Hs.
    rewrite (msum_delete _ _ _ _ Hl) in Hs. unfold session_lease at 1 in Hs. lia.
  - intros r'. pose proof (inv_refs _ _ Hi r') as Hr. unfold refs in Hr. rewrite present_delete, occ_cons.
    destruct (decide (r' = r)) as [->|Hne].
    + rewrite (present_Some _ _ _ Hl) in Hr. rewrite bool_decide_true by done. cbn. lia.
    + rewrite bool_decide_false by done. cbn. lia.
  - intros r' Hr'. apply (inv_known _ _ Hi). unfold refs. rewrite present_delete, occ_cons in Hr'.
    destruct (decide (r' = r)) as [->|Hne]; [rewrite (present_Some _ _ _ Hl); lia|].
    rewrite bool_decide_false in Hr' by done. cbn in Hr'. lia.
  - intros t Ht Hp. destruct (inv_run_session _ _ Hi t Ht Hp) as [Hs|Hs]; [|by right]. left. apply Hin; [|done].
    destruct (inv_run_use _ _ Hi t Ht Hp) as [(x & Hx & _ & <-)|Hx]; [by apply (unheld_execs _ _ Hu _ _ Hx)|].
    rewrite Hlost in Hx. by apply elem_of_nil in Hx.
  - intros t Ht. destruct (inv_pull_use _ _ Hi t Ht) as [Hs|Hs]; [|by right]. left. apply Hin; [|done].
    refine (filter_length_0 (fun t => pull_session t = r) _ (unheld_pulls _ _ Hu) _ Ht).
  - intros s x Hx. destruct (inv_containers _ _ Hi s x Hx) as [Hs Hk]. split; [|done]. apply Hin; [|done].
    by apply (unheld_containers _ _ Hu s).
  - intros t p Hp. destruct (inv_pendings _ _ Hi t p Hp) as [Hs Hk]. split; [|done]. apply Hin; [|done].
    by apply (unheld_pending _ _ Hu t).
  - intros r' [x [_ Hx]%lookup_delete_Some]. by apply (inv_sdk_sessions _ _ Hi r').
Qed.

Lemma put_session_inv h w r e :
  sdk (wk w) = true -> inv (and_lease r (StoreSlots.index (store e)) (and_ref r h)) w ->
  inv h (set_wk (set_sessions (<[r := e]> (sessions (wk w))) (wk w)) w).
Proof.
  intros Hsdk Hi. destruct (ref_in_hand (and_lease r (StoreSlots.index (store e)) h) _ _ Hi) as (Hl & _).
  assert (Hin : forall r', is_Some (sessions (wk w) !! r') -> is_Some (<[r := e]> (sessions (wk w)) !! r')).
  { intros r' Hr'. destruct (decide (r' = r)) as [->|]; [by rewrite lookup_insert_eq|by rewrite lookup_insert_ne]. }
  constructor; cbn; try apply Hi; unfold leases, refs; cbn.
  - intros i. pose proof (inv_slots _ _ Hi i) as Hs. unfold leases in Hs. cbn in Hs.
    rewrite (msum_insert _ _ _ _ Hl). unfold session_lease at 1. lia.
  - intros r' i Hv. pose proof (inv_vms _ _ Hi r' i Hv) as Hs. unfold leases in Hs. cbn in Hs.
    rewrite (msum_insert _ _ _ _ Hl). unfold session_lease at 1. lia.
  - intros r'. pose proof (inv_refs _ _ Hi r') as Hr. unfold refs in Hr. cbn in Hr. rewrite present_insert.
    rewrite occ_cons in Hr. destruct (decide (r' = r)) as [->|Hne]; [|cbn in *; lia].
    rewrite bool_decide_true in Hr by done. cbn in Hr. lia.
  - intros r' Hr'. apply (inv_known _ _ Hi). unfold refs. cbn. rewrite present_insert in Hr'.
    rewrite occ_cons. destruct (decide (r' = r)) as [->|Hne]; [rewrite bool_decide_true by done; cbn; lia|].
    cbn; lia.
  - intros t Ht Hp. destruct (inv_run_session _ _ Hi t Ht Hp) as [Hs|Hs]; [left; by apply Hin|by right].
  - intros t Ht. destruct (inv_pull_use _ _ Hi t Ht) as [Hs|Hs]; [left; by apply Hin|by right].
  - intros s x Hx. destruct (inv_containers _ _ Hi s x Hx). auto.
  - intros t p Hp. destruct (inv_pendings _ _ Hi t p Hp). auto.
  - done.
Qed.

(** ** The end of a boot *)

Lemma settle_boot h w r : inv (and_boot r (and_pend r h)) w -> inv h w.
Proof.
  intros Hi. constructor; try apply Hi. intros r'. pose proof (inv_boots _ _ Hi r') as Hb. cbn in Hb.
  rewrite !occ_cons in Hb. lia.
Qed.

Lemma clear_default_good h w r :
  good h w -> wp (clear_default r) (fun _ w' => good h w' /\ same_maps (wk w) (wk w') /\ vms w' = vms w /\
    pulls w' = pulls w) w.
Proof.
  intros Hg. unfold clear_default. apply wp_update. case_bool_decide; [|by destruct w].
  assert (Hs : same_maps (wk w) (set_default_session None (wk w))) by by constructor.
  split; [by apply same_maps_good|done].
Qed.

(** Its store goes back to the pool, or stays held for good. *)
Lemma settle_store_good l w r (o : option StoreSlots.StoreSlotLease) (held : bool) :
  good (and_lease_of r o (and_ref r (replies l))) w -> (held = false -> vms w !! r = None) ->
  wp (match o with
      | Some store => modify (if held then forget_lease r store else return_slot store)
      | None => mret tt
      end : stateful (World E) Panic unit) (fun _ w' => good (replies l) w' /\ wk w' = wk w) w.
Proof.
  intros Hg Hv. destruct o as [lease|]; cbn.
  - destruct held.
    + destruct Hg as [Hi Hc]. split; [|done]. split; [|by destruct Hc]. by apply forget_inv.
    + split; [|by rewrite (steady_wk _ _ (return_slot_steady w lease))].
      apply (good_drop_ref _ _ r). eapply return_slot_good; [exact Hg|auto].
  - split; [|done]. by apply (good_drop_ref _ _ r).
Qed.

Lemma fail_boot_good l w r p failure :
  good (and_lease_of r (booting_store p) (and_ref r (replies (booting_replies p ++ l)))) w ->
  (store_may_be_held failure = false -> vms w !! r = None) ->
  wp (_ ← clear_default r;
      _ ← match booting_store p with
          | Some store => modify (if store_may_be_held failure then forget_lease r store else return_slot store)
          | None => mret tt
          end;
      _ ← match booting_reply p with
          | Some reply => send reply (ReplyId_ (Err (boot_error failure)))
          | None => mret tt
          end;
      send_all (snd <$> booting_parked p)
        (ReplyId_ (Err (Backend ("the WSLc session this provision was waiting for could not be created: "
                                 +:+ WorkerError_display (boot_error failure))))))
     (fun _ => good (replies l)) w.
Proof.
  intros Hg Hv. apply wp_bind. eapply wp_mono; [by apply clear_default_good|]. intros [] w1 (Hg1 & _ & Hv1 & _).
  apply wp_bind. eapply wp_mono; [apply (settle_store_good (booting_replies p ++ l) _ r); [exact Hg1|by rewrite Hv1]|].
  intros [] w2 [Hg2 _]. unfold booting_replies in Hg2. rewrite <- app_assoc in Hg2.
  apply wp_bind. eapply wp_mono; [by apply send_option_good|]. intros [] w3 Hg3. by apply send_all_good.
Qed.

Lemma send_all_frame k a w0 w : wk w = wk w0 -> wp (send_all k a) (fun _ w' => wk w' = wk w0) w.
Proof. intros Hw. by apply (wp_for_each (fun _ w => wk w = wk w0)). Qed.

Lemma fail_boot_frame (w : World E) r p failure a :
  wp (_ ← clear_default r;
      _ ← match booting_store p with
          | Some store => modify (if store_may_be_held failure then forget_lease r store else return_slot store)
          | None => mret tt
          end;
      _ ← match booting_reply p with
          | Some reply => send reply (ReplyId_ (Err (boot_error failure)))
          | None => mret tt
          end;
      send_all (snd <$> booting_parked p) a)
     (fun _ w' => pending_sessions (wk w') = pending_sessions (wk w)) w.
Proof.
  apply wp_bind. apply (wp_mono _ (fun _ w' => pending_sessions (wk w') = pending_sessions (wk w))).
  { apply wp_update. by case_bool_decide. }
  intros [] w1 <-. apply wp_bind. apply (wp_mono _ (fun _ w' => wk w' = wk w1)).
  { destruct (booting_store p) as [lease|]; [|done]. apply wp_modify.
    destruct (store_may_be_held failure); [done|]. apply (steady_wk _ _ (return_slot_steady w1 lease)). }
  intros [] w2 <-. apply wp_bind. apply (wp_mono _ (fun _ w' => wk w' = wk w2)); [by destruct (booting_reply p)|].
  intros [] w3 <-. eapply wp_mono; [by apply send_all_frame|]. by intros [] w4 ->.
Qed.

(** The entry of a boot that reported. *)
Lemma reported_entry l w r :
  good (and_boot r (replies l)) w -> exists p, pending_sessions (wk w) !! r = Some p /\ has_store p = true /\
    good (and_lease_of r (booting_store p) (and_ref r (replies (booting_replies p ++ l))))
      (set_wk (set_pending_sessions (delete r (pending_sessions (wk w))) (wk w)) w).
Proof.
  intros [Hi Hc]. pose proof (inv_boots _ _ Hi r) as Hb. cbn in Hb.
  rewrite occ_cons, bool_decide_true, (calm_boots _ Hc) in Hb by done. unfold with_store, occ in Hb.
  destruct (pending_sessions (wk w) !! r) as [p|] eqn:Hl; [|cbn in Hb; lia].
  cbn in Hb. destruct (has_store p) eqn:Hs; [|cbn in Hb; lia]. exists p. split_and!; [done..|].
  split; [|by apply set_wk_calm]. pose proof (take_pending_inv _ _ _ _ Hl Hi) as Ht.
  unfold and_entry in Ht. rewrite Hs in Ht. apply (settle_boot _ _ r). exact Ht.
Qed.

Lemma finish_session_good l w r outcome :
  good (and_boot r (replies l)) w ->
  (forall f, outcome = Err f -> store_may_be_held f = false -> vms w !! r = None) ->
  wp (finish_session sched r outcome) (fun _ => good (replies l)) w.
Proof.
  intros Hg Hv. destruct (reported_entry _ _ _ Hg) as (p & Hl & Hs & Hg1).
  unfold finish_session. apply wp_bind, wp_self. rewrite Hl. apply wp_bind, wp_update.
  set (w1 := set_wk _ w) in *. destruct outcome as [booted|failure]; [|apply fail_boot_good; eauto].
  destruct (abandoned p) eqn:Hab.
  - pose proof (inv_abandoned _ _ (proj1 Hg) _ _ Hl Hab) as Hnil. rewrite Hnil in Hg1.
    apply wp_bind. eapply wp_mono; [apply (release_or_leak_good l); exact Hg1|].
    intros _ w2 (_ & Hg2 & _). unfold booting_replies in Hnil. rewrite Hnil. by apply wp_ret.
  - unfold has_store in Hs. destruct (booting_store p) as [lease|] eqn:Hst; [|done].
    apply wp_bind, wp_update. set (w2 := set_wk _ w1).
    assert (Hg2 : good (replies (booting_replies p ++ l)) w2).
    { eapply good_wk; [|exact Hg1]. intros Hi1. eapply (put_session_inv _ _ r (MkSession booted lease _ _ _));
        [|exact Hi1]. apply (inv_sdk_boots _ _ (proj1 Hg) _ _ Hl). unfold has_store. by rewrite Hst. }
    unfold booting_replies in Hg2. rewrite <- app_assoc in Hg2.
    apply wp_bind. eapply wp_mono; [by apply send_option_good|]. intros [] w3 Hg3.
    eapply (wp_mono _ (fun _ w => good (replies ((snd <$> []) ++ l)) w)); [|by intros []].
    apply (wp_for_each (fun (k : list (ProvisionConfig * ReplyId)) w => good (replies ((snd <$> k) ++ l)) w)); [done|].
    intros [config reply] k w4 Hg4. by apply begin_provision_good.
Qed.

(** ** Boots that wait for a slot *)

Lemma take_waiting_good h w r p :
  pending_sessions (wk w) !! r = Some p -> booting_store p = None -> good h w ->
  good (and_replies (booting_replies p) (and_ref r h))
    (set_wk (set_pending_sessions (delete r (pending_sessions (wk w))) (wk w)) w).
Proof.
  intros Hl Hs Hg. eapply good_wk; [|exact Hg]. intros Hi. pose proof (take_pending_inv _ _ _ _ Hl Hi) as Ht.
  unfold and_entry, has_store in Ht. by rewrite Hs in Ht.
Qed.

Lemma no_vm_waiting l w r p :
  good (replies l) w -> pending_sessions (wk w) !! r = Some p -> booting_store p = None -> vms w !! r = None.
Proof.
  intros Hg Hl Hs. pose proof (take_waiting_good _ _ _ _ Hl Hs Hg) as [Hi _].
  by apply (no_vm (replies (booting_replies p ++ l))) in Hi.
Qed.

Lemma start_waiting_good l now waiting w :
  good (replies l) w -> NoDup waiting.*1 ->
  (forall r p, (r, p) ∈ waiting -> pending_sessions (wk w) !! r = Some p /\ booting_store p = None) ->
  wp (start_waiting sched now waiting) (fun _ => good (replies l)) w.
Proof.
  revert w. induction waiting as [|[r p] waiting IH]; intros w Hg Hnd Hall; [by apply wp_ret|].
  cbn in Hnd. apply NoDup_cons in Hnd as [Hr Hnd].
  assert (Hrest : forall r' p', (r', p') ∈ waiting -> r' <> r).
  { intros r' p' Hin ->. apply Hr, list_elem_of_fmap. by exists (r, p'). }
  destruct (Hall r p) as [Hl Hs]; [left|]. cbn [start_waiting].
  apply wp_bind, wp_self. destruct (should_wait_for_a_release (wk w) now); [by apply wp_ret|].
  apply wp_bind. eapply wp_mono; [apply (lease_and_boot_good (replies l)); [done| | |done]|].
  { by eapply no_vm_waiting. }
  { unfold with_store, has_store. rewrite Hl. cbn. by rewrite Hs. }
  intros [store|e] w1 [Hsame Hg1]; apply wp_bind.
  - destruct Hg1 as [Hg1 Hk]. apply wp_update. rewrite (same_booting _ _ Hsame), Hl. cbn.
    set (p' := MkPendingSession (Some store) _ _ _ _ _ _).
    set (w2 := set_wk (set_pending_sessions (delete r (pending_sessions (wk w1))) (wk w1)) w1).
    assert (Hg2 : good (and_entry r p' (replies l)) w2).
    { eapply (take_waiting_good _ _ _ p) in Hg1; [exact Hg1| |done]. by rewrite (same_booting _ _ Hsame). }
    apply IH.
    + replace (set_wk (set_pending_sessions (<[r := p']> (pending_sessions (wk w))) (wk w1)) w1) with
        (set_wk (set_pending_sessions (<[r := p']> (pending_sessions (wk w2))) (wk w2)) w2).
      * eapply good_wk; [|exact Hg2]. apply put_pending_inv; [|done]. intros Hab. cbn in Hab.
        exact (inv_abandoned _ _ (proj1 Hg) _ _ Hl Hab).
      * unfold w2, set_wk, set_pending_sessions. cbn. by rewrite insert_delete_eq, (same_booting _ _ Hsame).
    + done.
    + intros r' p'' Hin. destruct (Hall r' p'') as [Hl' Hs']; [by right|]. split; [|done]. cbn.
      rewrite lookup_insert_ne; [done|]. intros ->. by apply (Hrest _ _ Hin).
  - assert (Hl1 : pending_sessions (wk w1) !! r = Some p) by (by rewrite (same_booting _ _ Hsame)).
    unfold finish_session. apply wp_bind, wp_self. rewrite Hl1. apply wp_bind, wp_update.
    eapply wp_mono; [apply wp_and; [apply (fail_boot_good l)|apply fail_boot_frame]|].
    + rewrite Hs. exact (take_waiting_good (replies l) _ _ _ Hl1 Hs Hg1).
    + intros _. by eapply (no_vm_waiting l w1).
    + intros [] w2 [Hg2 Hb2]. apply IH; [done..|]. intros r' p' Hin.
      destruct (Hall r' p') as [Hl' Hs']; [by right|]. split; [|done]. rewrite Hb2. cbn.
      rewrite lookup_delete_ne by (intros ->; by apply (Hrest _ _ Hin)). by rewrite (same_booting _ _ Hsame).
Qed.

Lemma sort_by_key_perm {A} (key : A -> Z) l : sort_by_key key l ≡ₚ l.
Proof.
  assert (Hins : forall x l, insert_by_key key x l ≡ₚ x :: l).
  { intros x k. induction k as [|y k IH]; [done|]. cbn. case_match; [done|]. rewrite IH. constructor. }
  induction l as [|x l IH]; [done|]. cbn. by rewrite Hins, IH.
Qed.

Lemma list_filter_NoDup_fst {A} (f : string * A -> bool) l : NoDup l.*1 -> NoDup (List.filter f l).*1.
Proof.
  induction l as [|[k x] l IH]; [done|]. cbn. intros [Hk Hnd]%NoDup_cons. case_match; [|auto]. cbn.
  apply NoDup_cons. split; [|auto]. contradict Hk. apply list_elem_of_fmap in Hk as (y & -> & Hy).
  apply list_elem_of_In, filter_In, proj1, list_elem_of_In in Hy. apply list_elem_of_fmap. by exists y.
Qed.

Lemma iter_NoDup {K} `{Countable K} {A} (m : gmap K A) : NoDup (iter m).*1.
Proof. rewrite (iter_permutation K A m). apply NoDup_fst_map_to_list. Qed.

Lemma elem_of_iter {K} `{Countable K} {A} (m : gmap K A) k x : (k, x) ∈ iter m <-> m !! k = Some x.
Proof. by rewrite (iter_permutation K A m), elem_of_map_to_list. Qed.

Lemma start_deferred_boots_at_good l now w :
  good (replies l) w -> wp (start_deferred_boots_at sched now) (fun _ => good (replies l)) w.
Proof.
  intros Hg. unfold start_deferred_boots_at. apply wp_bind, wp_self. apply start_waiting_good; [done| |].
  - rewrite (sort_by_key_perm (fun e => requested e.2)). apply list_filter_NoDup_fst, iter_NoDup.
  - intros r p Hin. rewrite (sort_by_key_perm (fun e => requested e.2)) in Hin.
    apply list_elem_of_In, filter_In in Hin as [Hin Hw]. apply list_elem_of_In, elem_of_iter in Hin.
    split; [done|]. unfold awaits_slot in Hw. cbn in Hw. by destruct (booting_store p).
Qed.

Lemma start_deferred_boots_good l w :
  good (replies l) w -> wp (start_deferred_boots sched) (fun _ => good (replies l)) w.
Proof.
  intros Hg. apply wp_bind. eapply wp_call; [exact Hg|]. intros now w1 Hg1 _. by apply start_deferred_boots_at_good.
Qed.

Lemma finish_release_good l w r slot_returned :
  good (replies l) w -> wp (finish_release sched r slot_returned) (fun _ => good (replies l)) w.
Proof.
  intros Hg. unfold finish_release. apply wp_bind, wp_update. set (w1 := set_wk _ w).
  assert (Hg1 : good (replies l) w1) by (by apply same_maps_good).
  apply wp_bind. destruct slot_returned; [apply wp_update|apply wp_ret]; apply start_deferred_boots_good; [|done].
  by apply same_maps_good.
Qed.

(** ** Releasing a session *)

(** What happens to the rest of the worker: only [r] may leave. *)
Definition releases_only (r : string) (w w' : World E) : Prop :=
  containers (wk w') = containers (wk w) /\ pending (wk w') = pending (wk w) /\
  exec_in_flight (wk w') = exec_in_flight (wk w) /\
  (forall r', r' <> r -> sessions (wk w') !! r' = sessions (wk w) !! r') /\
  forall r', pulls_in_flight r' w' <= pulls_in_flight r' w.

Lemma release_session_entry_good l w r reply :
  good (replies (option_list reply ++ l)) w -> unheld r w ->
  wp (release_session_entry sched r reply) (fun _ w' => good (replies l) w' /\ releases_only r w w') w.
Proof.
  intros Hg Hu. unfold release_session_entry. apply wp_bind, wp_self.
  destruct (sessions (wk w) !! r) as [e|] eqn:Hl.
  2: { eapply wp_mono; [apply (wp_and _ (fun _ => good (replies l)) (fun _ w' => wk w' = wk w /\ pulls w' = pulls w));
         [by apply send_option_good|by destruct reply]|].
       intros [] w' [Hg' [Hw' Hp']]. split; [done|]. unfold releases_only, pulls_in_flight. by rewrite Hw', Hp'. }
  assert (Hsdk : sdk (wk w) = true) by (apply (inv_sdk_sessions _ _ (proj1 Hg) r); by exists e).
  apply wp_bind, wp_update. set (w1 := set_wk _ w).
  assert (Hg1 : good (and_lease r (StoreSlots.index (store e)) (and_ref r (replies (option_list reply ++ l)))) w1).
  { eapply good_wk; [|exact Hg]. apply take_session_inv; [done..|apply Hg]. }
  apply wp_bind. eapply wp_mono; [by apply clear_default_good|]. intros [] w2 (Hg2 & Hs2 & _ & Hp2).
  assert (Hdel : forall r', r' <> r -> sessions (wk w2) !! r' = sessions (wk w) !! r').
  { intros r' Hne. rewrite (same_sessions _ _ Hs2). cbn. by rewrite lookup_delete_ne. }
  assert (Hfr2 : releases_only r w w2).
  { unfold releases_only, pulls_in_flight. rewrite Hp2. by destruct Hs2. }
  assert (Hk2 : sdk (wk w2) = true) by by apply (same_sdk _ _ Hs2).
  clear Hs2 Hp2 Hg1. clearbody w1.
  apply wp_bind. eapply wp_mono; [apply (start_session_release_good l); exact Hg2|].
  intros [[]|job] w3 (Hwk3 & _ & Hp3 & Hres).
  - apply wp_bind. eapply wp_call; [exact Hres|]. intros now w4 Hg4 Hst4. apply wp_update.
    split; [by apply same_maps_good|]. destruct Hfr2 as (F1 & F2 & F3 & F4 & F5).
    unfold releases_only. cbn. rewrite (steady_wk _ _ Hst4), Hwk3. split_and!; [done..|].
    intros r'. pose proof (steady_pulls _ _ Hst4 r') as Hp4. specialize (Hp3 r'). specialize (F5 r').
    unfold pulls_in_flight in *. cbn in *. lia.
  - destruct Hres as [-> Hg3]. cbn [release_session release_store release_name]. apply wp_update.
    destruct Hfr2 as (F1 & F2 & F3 & F4 & F5). split.
    + eapply good_wk; [|exact Hg3]. intros Hi3.
      eapply (put_session_inv _ _ r (MkSession (session e) (store e) (name e) _ _)); [|exact Hi3]. by rewrite Hwk3.
    + unfold releases_only. cbn. rewrite Hwk3. split_and!; [done..| |].
      * intros r' Hne. rewrite lookup_insert_ne by done. by apply F4.
      * intros r'. specialize (Hp3 r'). specialize (F5 r'). unfold pulls_in_flight in *. cbn in *. lia.
Qed.

Lemma release_session_op_good l w r reply :
  good (replies (reply :: l)) w -> wp (release_session_op sched r reply) (fun _ => good (replies l)) w.
Proof.
  intros Hg. unfold release_session_op, has_session. apply wp_bind, wp_self. case_bool_decide as Hs; cbn [negb]; [|by apply send_good].
  apply wp_bind, wp_self. case_bool_decide; [by apply send_good|].
  apply wp_bind, wp_gets. destruct (0 <? session_hold w r) eqn:Hh; [by apply send_good|].
  apply Nat.ltb_ge in Hh. eapply wp_mono; [apply (release_session_entry_good l); [exact Hg|]|by intros [] ? []].
  apply session_hold_0; [done|lia].
Qed.

(** ** The reapers *)

Definition given_up (r : string) w : Prop :=
  forall p, pending_sessions (wk w) !! r = Some p -> abandoned p = true.

Lemma give_up_if_stuck_good l w now deadline r r' :
  good (replies l) w ->
  wp (give_up_if_stuck now deadline r) (fun b w' => good (replies l) w' /\
    (b = true -> given_up r w') /\ (given_up r' w -> given_up r' w')) w.
Proof.
  intros Hg. unfold give_up_if_stuck. apply wp_bind, wp_self.
  destruct (pending_sessions (wk w) !! r) as [p|] eqn:Hl; [|by apply wp_ret].
  destruct (abandoned p || _); [by apply wp_ret|].
  apply wp_bind, wp_update. set (p' := MkPendingSession _ _ _ None [] _ true). set (w1 := set_wk _ w).
  assert (Hg1 : good (replies (booting_replies p ++ l)) w1) by (eapply (update_pending_good l); eauto).
  assert (Hup : forall w', wk w' = wk w1 -> given_up r w' /\ (given_up r' w -> given_up r' w')).
  { intros w' Hw'. unfold given_up. rewrite Hw'. cbn. split; [by intros q; rewrite lookup_insert_eq; intros [= <-]|].
    intros Hr' q. destruct (decide (r' = r)) as [->|].
    - rewrite lookup_insert_eq. by intros [= <-].
    - rewrite lookup_insert_ne by done. apply Hr'. }
  unfold booting_replies in Hg1. rewrite <- app_assoc in Hg1.
  apply wp_bind. eapply wp_mono; [apply (wp_and _ (fun _ => good (replies ((snd <$> booting_parked p) ++ l)))
    (fun _ w' => wk w' = wk w1)); [by apply send_option_good|by destruct (booting_reply p)]|].
  intros [] w2 [Hg2 Hw2]. apply wp_bind. eapply wp_mono; [apply (wp_and _ (fun _ => good (replies l))
    (fun _ w' => wk w' = wk w2)); [by apply send_all_good|by apply send_all_frame]|].
  intros [] w3 [Hg3 Hw3]. apply wp_ret. rewrite Hw2 in Hw3. destruct (Hup _ Hw3). auto.
Qed.

Lemma give_up_stuck_good l now deadline rs w :
  good (replies l) w ->
  wp (give_up_stuck now deadline rs) (fun gave_up w' => good (replies l) w' /\
    (forall r, r ∈ gave_up -> given_up r w') /\ (forall r, given_up r w -> given_up r w')) w.
Proof.
  revert w. induction rs as [|r rs IH]; intros w Hg; cbn [give_up_stuck].
  - apply wp_ret. split_and!; [done| |done]. by intros r Hr%elem_of_nil.
  - apply wp_bind. unfold wp at 1.
    pose proof (fun r' => give_up_if_stuck_good l w now deadline r r' Hg) as Hone. unfold wp in Hone.
    destruct (give_up_if_stuck now deadline r w) as [[b|e] w1]; [|by apply (Hone r)].
    destruct (Hone r) as (Hg1 & Hb & _). apply wp_bind. eapply wp_mono; [by apply IH|].
    intros rest w2 (Hg2 & Hr2 & Hk2). apply wp_ret. split_and!; [done| |].
    + intros r' Hr'. destruct b; [|by apply Hr2]. apply elem_of_cons in Hr' as [->|Hr']; [|by apply Hr2]. auto.
    + intros r' Hr'. apply Hk2. by apply (Hone r').
Qed.

Lemma retire_stuck_good l w r :
  good (replies l) w -> given_up r w ->
  wp (retire_stuck r) (fun _ w' => good (replies l) w' /\ forall r', given_up r' w -> given_up r' w') w.
Proof.
  intros Hg Hr. unfold retire_stuck. apply wp_bind, wp_update.
  assert (Hkeep : forall w1, good (replies l) w1 -> (forall r', given_up r' w -> given_up r' w1) ->
    wp (clear_default r) (fun _ w' => good (replies l) w' /\ forall r', given_up r' w -> given_up r' w') w1).
  { intros w1 Hg1 Hk1. eapply wp_mono; [by apply clear_default_good|]. intros [] w2 (Hg2 & Hs2 & _).
    split; [done|]. intros r' Hr'. unfold given_up. rewrite (same_booting _ _ Hs2). by apply Hk1. }
  destruct (pending_sessions (wk w) !! r) as [p|] eqn:Hl; [|by apply Hkeep; destruct w].
  case_bool_decide as Hs; [|by apply Hkeep; destruct w]. apply Hkeep.
  - pose proof (take_waiting_good _ _ _ _ Hl Hs Hg) as Ht.
    rewrite (inv_abandoned _ _ (proj1 Hg) _ _ Hl (Hr _ Hl)) in Ht. by apply (good_drop_ref _ _ r).
  - intros r' Hr' q Hq. cbn in Hq. apply lookup_delete_Some in Hq as [_ Hq]. by apply Hr'.
Qed.

Lemma reap_stuck_boots_good l w :
  good (replies l) w -> wp (reap_stuck_boots sched) (fun _ => good (replies l)) w.
Proof.
  intros Hg. unfold reap_stuck_boots, reap_stuck_boots_at. apply wp_bind. eapply wp_call; [exact Hg|].
  intros now w1 Hg1 _. apply wp_bind. eapply wp_call; [exact Hg1|]. intros deadline w2 Hg2 _.
  apply wp_bind, wp_self, wp_bind. eapply wp_mono; [by apply give_up_stuck_good|].
  intros gave_up w3 (Hg3 & Hr3 & _).
  eapply wp_mono; [apply (wp_for_each (fun k w => good (replies l) w /\ forall r, r ∈ k -> given_up r w))|by intros [] ? []].
  - done.
  - intros r k w4 [Hg4 Hk4]. eapply wp_mono; [apply (retire_stuck_good l); [done|apply Hk4; left]|].
    intros [] w5 [Hg5 Hk5]. split; [done|]. intros r' Hr'. apply Hk5, Hk4. by right.
Qed.

(** *** [session_holds] computes [session_hold] for every session *)

Lemma bump_lookup holds k r : bump holds k !! r = (fun n => Nat.b2n (bool_decide (k = r)) + n) <$> holds !! r.
Proof.
  unfold bump. destruct (holds !! k) as [n|] eqn:Hk.
  - destruct (decide (k = r)) as [->|].
    + by rewrite lookup_insert_eq, Hk, bool_decide_true.
    + rewrite lookup_insert_ne, bool_decide_false by done. by destruct (holds !! r).
  - destruct (decide (k = r)) as [->|]; [by rewrite Hk|]. rewrite bool_decide_false by done. by destruct (holds !! r).
Qed.

Lemma bump_all_lookup l holds r :
  foldl bump holds l !! r = (fun n => n + length (filter (fun k => k = r) l)) <$> holds !! r.
Proof.
  revert holds. induction l as [|k l IH]; intros holds; cbn [foldl].
  - destruct (holds !! r); cbn; [|done]. by rewrite Nat.add_0_r.
  - rewrite IH, bump_lookup, filter_cons. destruct (holds !! r) as [n|]; cbn [fmap option_fmap option_map]; [|done]. f_equal.
    destruct (decide (k = r)); [rewrite bool_decide_true by done|rewrite bool_decide_false by done]; cbn; lia.
Qed.

Lemma filter_fmap_length {A B} (f : A -> B) (P : B -> Prop) `{forall b, Decision (P b)} l :
  length (filter P (f <$> l)) = length (filter (fun a => P (f a)) l).
Proof.
  induction l as [|a l IH]; [done|]. rewrite fmap_cons, !filter_cons. by repeat case_decide; cbn; rewrite ?IH.
Qed.

Lemma filter_perm_length {A} (P : A -> Prop) `{forall a, Decision (P a)} l k :
  l ≡ₚ k -> length (filter P l) = length (filter P k).
Proof. intros Hl. by rewrite Hl. Qed.

Lemma add_pulls_lookup w l holds r :
  NoDup l.*1 ->
  foldl (fun (holds : gmap string nat) (e : string * SessionEntry) => match holds !! e.1 with
                      | Some hold => <[e.1 := (hold + pulls_in_flight e.1 w)%nat]> holds
                      | None => holds
                      end) holds l !! r =
  if decide (r ∈ l.*1) then (fun n => n + pulls_in_flight r w) <$> holds !! r else holds !! r.
Proof. clear sched_ok sched.
  revert holds. induction l as [|[k e] l IH]; intros holds Hnd; cbn.
  - rewrite decide_False by apply not_elem_of_nil. done.
  - apply NoDup_cons in Hnd as [Hk Hnd]. rewrite IH by done. destruct (decide (r = k)) as [->|Hne].
    + rewrite decide_False by done. rewrite decide_True by left.
      destruct (holds !! k) eqn:Hl; [by rewrite lookup_insert_eq|by rewrite Hl].
    + rewrite (decide_ext (r ∈ k :: l.*1) (r ∈ l.*1)) by set_solver.
      destruct (holds !! k); [|done]. by rewrite lookup_insert_ne.
Qed.

Lemma session_holds_lookup w r :
  session_holds w !! r = (fun _ => session_hold w r) <$> sessions (wk w) !! r.
Proof. clear sched_ok sched.
  unfold session_holds, session_hold. rewrite add_pulls_lookup by apply iter_NoDup.
  rewrite !bump_all_lookup, lookup_fmap. destruct (sessions (wk w) !! r) as [e|] eqn:Hl; cbn.
  - rewrite decide_True by (apply list_elem_of_fmap; exists (r, e); split; [done|by apply elem_of_iter]).
    cbn. f_equal. rewrite !filter_fmap_length. by rewrite !(filter_perm_length _ _ _ (iter_permutation _ _ _)).
  - rewrite decide_False; [done|]. intros ([r' e] & -> & Hin%elem_of_iter)%list_elem_of_fmap. cbn in Hl. congruence.
Qed.

Definition same_users w w' : Prop :=
  containers (wk w') = containers (wk w) /\ pending (wk w') = pending (wk w) /\
  exec_in_flight (wk w') = exec_in_flight (wk w) /\ pulls w' = pulls w.

Lemma unheld_same r w w' : same_users w w' -> unheld r w -> unheld r w'.
Proof.
  intros (H1 & H2 & H3 & H4) []. constructor; rewrite ?H1, ?H2, ?H3; try done.
  unfold pulls_in_flight in *. by rewrite H4.
Qed.

Lemma unheld_release r r' w w' : releases_only r' w w' -> unheld r w -> unheld r w'.
Proof.
  intros (H1 & H2 & H3 & _ & H4) []. constructor; rewrite ?H1, ?H2, ?H3; try done. specialize (H4 r). lia.
Qed.

Lemma note_idle_good h w now grace r hold :
  good h w -> wp (note_idle now grace r hold) (fun b w' => good h w' /\ same_users w w' /\ (b = true -> hold = 0)) w.
Proof.
  intros Hg. unfold note_idle. apply wp_bind, wp_self.
  destruct (sessions (wk w) !! r) as [e|] eqn:Hl; [|by apply wp_ret].
  assert (Hup : forall since, good h (set_wk (set_sessions
    (<[r := MkSession (session e) (store e) (name e) (sizing e) since]> (sessions (wk w))) (wk w)) w)).
  { intros since. eapply good_wk; [|exact Hg]. by eapply update_session_inv. }
  destruct (0 <? hold) eqn:Hh; apply wp_bind, wp_update, wp_ret.
  - done.
  - split_and!; [done..|]. apply Nat.ltb_ge in Hh. lia.
Qed.

Lemma idle_sessions_good h now grace holds w :
  good h w ->
  wp (idle_sessions now grace holds) (fun expired w' => good h w' /\ same_users w w' /\
    forall r, r ∈ expired -> (r, 0) ∈ holds) w.
Proof.
  revert w. induction holds as [|[r hold] holds IH]; intros w Hg; cbn [idle_sessions].
  - apply wp_ret. split_and!; [done..|]. by intros r Hr%elem_of_nil.
  - apply wp_bind. eapply wp_mono; [by apply note_idle_good|]. intros b w1 (Hg1 & Hu1 & Hb).
    apply wp_bind. eapply wp_mono; [by apply IH|]. intros rest w2 (Hg2 & Hu2 & Hr2). apply wp_ret.
    split_and!; [done| |].
    + unfold same_users in *. naive_solver congruence.
    + intros r' Hr'. destruct b; [apply elem_of_cons in Hr' as [->|Hr']|].
      * rewrite Hb by done. left.
      * right. by apply Hr2.
      * right. by apply Hr2.
Qed.

Lemma release_expired_good l expired w :
  good (replies l) w -> (forall r, r ∈ expired -> unheld r w) ->
  wp (release_expired sched expired) (fun _ => good (replies l)) w.
Proof.
  revert w. induction expired as [|r expired IH]; intros w Hg Hall; cbn [release_expired]; [by apply wp_ret|].
  apply wp_bind, wp_gets. destruct (_ <=? _); [by apply wp_ret|].
  apply wp_bind. eapply wp_mono; [apply (release_session_entry_good l); [done|apply Hall; left]|].
  intros [] w1 [Hg1 Hr1]. apply IH; [done|]. intros r' Hr'. eapply unheld_release; [done|]. apply Hall. by right.
Qed.

Lemma reap_idle_sessions_good l w :
  good (replies l) w -> wp (reap_idle_sessions sched) (fun _ => good (replies l)) w.
Proof.
  intros Hg. unfold reap_idle_sessions, reap_idle_sessions_at. apply wp_bind. eapply wp_call; [exact Hg|].
  intros now w1 Hg1 _. apply wp_bind. eapply wp_call; [exact Hg1|]. intros grace w2 Hg2 _.
  apply wp_bind, wp_gets, wp_bind. eapply wp_mono; [by apply idle_sessions_good|].
  intros expired w3 (Hg3 & Hu3 & He3). apply release_expired_good; [done|]. intros r Hr.
  apply (unheld_same _ _ _ Hu3). apply He3, elem_of_iter in Hr. rewrite session_holds_lookup in Hr.
  destruct (sessions (wk w2) !! r) as [e|] eqn:Hl; [|done]. injection Hr as Hr.
  apply session_hold_0; [by rewrite Hl|done].
Qed.

(** ** Containers *)

(** No run is in flight on a container whose entry is missing. *)
Lemma container_unused h w s :
  good h w -> exec_in_flight (wk w) !! s = None -> container_free s w = true.
Proof.
  intros [Hi Hc] Hx. unfold container_free. apply forallb_forall. intros t Ht%list_elem_of_In.
  apply negb_true_iff, andb_false_iff. destruct (thread_phase t) eqn:Hp; [right|by left].
  apply bool_decide_false. intros <-. destruct (inv_run_use _ _ Hi t Ht Hp) as [(x & Hx' & _)|Hl]; [congruence|].
  rewrite (calm_runs _ Hc) in Hl. by apply elem_of_nil in Hl.
Qed.

Lemma on_container_good {A} h w s (c : Call A) :
  good h w -> exec_in_flight (wk w) !! s = None ->
  wp (on_container sched s c) (fun _ w' => good h w' /\ wk w' = wk w) w.
Proof.
  intros Hg Hx. unfold on_container. apply wp_bind. eapply wp_call; [exact Hg|]. intros a w1 Hg1 Hst1.
  pose proof (steady_wk _ _ Hst1) as Hwk. apply wp_bind, wp_modify. rewrite (container_unused h) by (done || by rewrite Hwk).
  by apply wp_ret.
Qed.

Lemma remove_container_good h w s :
  good h w -> exec_in_flight (wk w) !! s = None ->
  wp (remove_container s) (fun _ w' => good h w' /\ exec_in_flight (wk w') = exec_in_flight (wk w) /\
    containers (wk w') = delete s (containers (wk w))) w.
Proof.
  intros Hg Hx. unfold remove_container. apply wp_bind, wp_modify.
  rewrite (container_unused h) by done. cbn [expect_that]. apply wp_update. split; [|done].
  eapply good_wk; [|exact Hg]. intros Hi. constructor; cbn; try apply Hi.
  - intros s' x Hx'. destruct (inv_execs _ _ Hi _ _ Hx') as (e & He & Hrest). exists e. split; [|done].
    rewrite lookup_delete_ne; [done|congruence].
  - intros s' e [_ He]%lookup_delete_Some. by apply (inv_containers _ _ Hi).
Qed.

Lemma update_container_good h w s e e' :
  containers (wk w) !! s = Some e -> container e' = container e -> container_session e' = container_session e ->
  good h w -> good h (set_wk (set_containers (<[s := e']> (containers (wk w))) (wk w)) w).
Proof.
  intros Hl Hc Hs Hg. eapply good_wk; [|exact Hg]. intros Hi. constructor; cbn; try apply Hi.
  - intros s' x Hx. destruct (inv_execs _ _ Hi _ _ Hx) as (e0 & He0 & Hrest).
    destruct (decide (s' = s)) as [->|]; [|exists e0; by rewrite lookup_insert_ne].
    exists e'. rewrite lookup_insert_eq. simplify_eq. by rewrite Hc, Hs.
  - intros s' e0 [[<- <-]|[_ He0]]%lookup_insert_Some; [|by apply (inv_containers _ _ Hi)].
    rewrite Hs. by apply (inv_containers _ _ Hi).
Qed.

Lemma start_good h w s :
  good h w -> exec_in_flight (wk w) !! s = None -> wp (start sched s) (fun _ => good h) w.
Proof.
  intros Hg Hx. unfold start, has_container. apply wp_bind, wp_self. case_bool_decide as Hc; cbn [negb]; [|by apply wp_ret].
  apply wp_bind, wp_self. destruct (sdk (wk w)); cbn [negb]; [|by apply wp_ret].
  apply wp_bind, wp_self. destruct Hc as [e He]. rewrite He. apply wp_bind, wp_ret.
  destruct (quarantined e); [by apply wp_ret|].
  apply wp_bind. eapply wp_mono; [by apply on_container_good|]. intros [[]|er] w1 [Hg1 Hwk1]; [|by apply wp_ret].
  apply wp_bind, wp_update, wp_ret. eapply update_container_good; [by rewrite Hwk1|done..].
Qed.

Lemma stop_good h w s :
  good h w -> exec_in_flight (wk w) !! s = None -> wp (stop sched s) (fun _ => good h) w.
Proof.
  intros Hg Hx. unfold stop, has_container. apply wp_bind, wp_self. case_bool_decide as Hc; cbn [negb]; [|by apply wp_ret].
  apply wp_bind, wp_self. destruct (sdk (wk w)); cbn [negb]; [|by apply wp_ret].
  apply wp_bind, wp_self. destruct Hc as [e He]. rewrite He. apply wp_bind, wp_ret.
  apply wp_bind. eapply wp_mono; [by apply on_container_good|]. intros [[]|er] w1 [Hg1 Hwk1]; [|by apply wp_ret].
  apply wp_bind, wp_update, wp_ret. eapply update_container_good; [by rewrite Hwk1|done..].
Qed.

Lemma retire_good h w s : good h w -> wp (retire s) (fun _ => good h) w.
Proof.
  intros Hg. unfold retire. apply wp_update. destruct (containers (wk w) !! s) as [e|] eqn:He; [|by destruct w].
  by eapply update_container_good.
Qed.

Lemma deprovision_good h w s :
  good h w -> exec_in_flight (wk w) !! s = None -> wp (deprovision sched s) (fun _ => good h) w.
Proof.
  intros Hg Hx. unfold deprovision. apply wp_bind, wp_self.
  destruct (containers (wk w) !! s) as [e|] eqn:He; [|by apply wp_ret]. apply wp_bind, wp_self, wp_bind.
  apply (wp_mono _ (fun _ w' => good h w' /\ wk w' = wk w)).
  - destruct (sdk (wk w)); [by apply on_container_good|by apply wp_ret].
  - intros [[]|er] w1 [Hg1 Hwk1]; [|by apply wp_ret]. apply wp_bind.
    eapply wp_mono; [apply (remove_container_good h); [done|by rewrite Hwk1]|]. by intros [] w2 [Hg2 _].
Qed.

(** ** Runs *)

Lemma start_exec_inv l w s e reply slot :
  containers (wk w) !! s = Some e -> exec_in_flight (wk w) !! s = None -> sdk_unloaded w = false ->
  inv (replies (reply :: l)) w ->
  inv (replies l) (set_wk (set_exec_in_flight
      (<[s := MkInFlight (container e) reply (container_session e) slot []]> (exec_in_flight (wk w))) (wk w))
    (set_runs (runs w ++ [MkRun s (container e) (container_session e) Running]) w)).
Proof.
  intros He Hx Hu Hi. constructor; cbn; try apply Hi.
  - intros p. pose proof (inv_replies _ _ Hi p) as Hp. unfold held in *; cbn in *. rewrite (msum_insert _ _ _ _ Hx).
    unfold exec_w at 1, exec_replies. cbn. lia.
  - intros s'. pose proof (inv_runs _ _ Hi s') as Hr. cbn in Hr. rewrite sum_with_snoc, present_insert.
    unfold run_is at 2. cbn. destruct (decide (s' = s)) as [->|].
    + rewrite bool_decide_true by done. apply present_None in Hx. rewrite Hx in Hr. cbn. lia.
    + rewrite bool_decide_false by done. cbn. lia.
  - intros t [Ht|Ht%list_elem_of_singleton]%elem_of_app Hp.
    + destruct (inv_run_use _ _ Hi t Ht Hp) as [(x & Hx' & Hrest)|?]; [|by right]. left. exists x. split; [|done].
      rewrite lookup_insert_ne; [done|congruence].
    + left. subst t. eexists. split; [apply lookup_insert_eq|done].
  - intros t [Ht|Ht%list_elem_of_singleton]%elem_of_app Hp; [by apply (inv_run_session _ _ Hi)|].
    left. subst t. by apply (inv_containers _ _ Hi _ _ He).
  - intros s' x [[<- <-]|[_ Hx']]%lookup_insert_Some; [by exists e|]. by apply (inv_execs _ _ Hi).
  - congruence.
Qed.

Lemma start_run_good h w config handle r :
  good h w ->
  wp (start_run sched config handle r) (fun res w' =>
    match res with
    | Ok _ => exists w1, good h w1 /\ wk w1 = wk w /\
        w' = set_runs (runs w1 ++ [MkRun (exec_sandbox_id config) handle r Running]) w1
    | Err _ => good h w'
    end) w.
Proof.
  intros Hg. unfold start_run. apply wp_bind, wp_self. destruct (sdk (wk w)); cbn [negb]; [|by apply wp_ret].
  apply wp_bind. eapply wp_call; [exact Hg|]. intros [[]|e] w1 Hg1 Hst1; [|by apply wp_ret].
  apply wp_bind, wp_modify, wp_ret. exists w1. split_and!; [done|apply (steady_wk _ _ Hst1)|done].
Qed.

Lemma begin_exec_good l w request :
  good (replies (request_admit request :: request_done request :: l)) w ->
  exec_in_flight (wk w) !! exec_sandbox_id (request_config request) = None ->
  wp (begin_exec sched request) (fun _ => good (replies l)) w.
Proof.
  intros Hg Hx. unfold begin_exec. set (s := exec_sandbox_id _) in *. apply wp_bind, wp_self.
  unfold validate_exec. destruct (containers (wk w) !! s) as [e|] eqn:He.
  2: { apply wp_bind. eapply wp_mono; [by apply send_good|]. intros [] w1 Hg1. by apply drop_reply_good. }
  assert (Hrefuse : forall er, wp (_ ← send (request_admit request) (ReplyUnit (Err er));
    drop_reply (request_done request) NotAdmitted) (fun _ => good (replies l)) w).
  { intros er. apply wp_bind. eapply wp_mono; [by apply send_good|]. intros [] w1 Hg1. by apply drop_reply_good. }
  destruct (quarantined e); [apply Hrefuse|]. destruct (negb (started e)); [apply Hrefuse|].
  apply wp_bind, wp_self. rewrite He. apply wp_bind, wp_ret, wp_bind.
  eapply wp_call; [exact Hg|]. intros cancelled w1 Hg1 Hst1. apply wp_bind.
  eapply wp_call; [exact Hg1|]. intros gone w2 Hg2 Hst2. apply wp_bind.
  apply (wp_mono _ (fun _ w' => good (replies (request_done request :: l)) w' /\ wk w' = wk w)).
  { eapply wp_mono; [apply (wp_and _ (fun _ => good (replies (request_done request :: l))) (fun _ w' => wk w' = wk w2));
      [by apply send_good|done]|].
    intros [] w3 [Hg3 ->]. by rewrite (steady_wk _ _ Hst2), (steady_wk _ _ Hst1). }
  intros [] w3 [Hg3 Hwk3]. destruct gone; [by apply drop_reply_good|]. destruct cancelled; [by apply send_good|].
  apply wp_bind. eapply wp_mono; [by apply start_run_good|]. fold s.
  intros [[]|er] w4 Hres; [|by apply send_good]. destruct Hres as (w5 & Hg5 & Hwk5 & ->).
  pose proof (touch_session_good _ _ (container_session e) Hg5) as Ht. unfold touch_session in *.
  set (w6 := set_wk (touched (container_session e) (wk w5)) w5).
  change (wp (update (touched (container_session e))) ?Q w5) with (Q tt w6) in Ht.
  destruct Ht as (Hg6 & _ & Hx6 & Hc6 & _).
  apply wp_bind, wp_update, wp_update. destruct Hg6 as [Hi6 Hcalm6]. split; [|by destruct Hcalm6].
  apply (start_exec_inv l w6 s e (request_done request) (request_slot request)) in Hi6; [exact Hi6| | |by apply Hcalm6].
  - by rewrite Hc6, Hwk5, Hwk3.
  - by rewrite Hx6, Hwk5, Hwk3.
Qed.

Lemma update_exec_inv l l' w s x x' :
  exec_in_flight (wk w) !! s = Some x -> run_container x' = run_container x -> run_session x' = run_session x ->
  exec_replies x ++ l ≡ₚ exec_replies x' ++ l' -> inv (replies l) w ->
  inv (replies l') (set_wk (set_exec_in_flight (<[s := x']> (exec_in_flight (wk w))) (wk w)) w).
Proof.
  intros Hx Hc Hs Hperm Hi. constructor; cbn; try apply Hi.
  - intros p. pose proof (inv_replies _ _ Hi p) as Hp. unfold held in *; cbn in Hp |- *.
    pose proof (msum_update (exec_w p) _ _ _ x' Hx) as Hm. unfold exec_w at 2 4 in Hm.
    pose proof (sum_list_with_perm p _ _ Hperm) as Hsum. rewrite !sum_list_with_app in Hsum. lia.
  - intros s'. pose proof (inv_runs _ _ Hi s') as Hr. cbn in Hr. rewrite present_insert.
    destruct (decide (s' = s)) as [->|]; [|done]. by rewrite (present_Some _ _ _ Hx) in Hr.
  - intros t Ht Hp. destruct (inv_run_use _ _ Hi t Ht Hp) as [(y & Hy & Hyc & Hys)|?]; [|by right]. left.
    destruct (decide (thread_sandbox t = s)) as [Heq|Hne].
    + exists x'. rewrite Heq in *. rewrite lookup_insert_eq. simplify_eq. split_and!; [done|congruence..].
    + exists y. by rewrite lookup_insert_ne.
  - intros s' y [[<- <-]|[_ Hy]]%lookup_insert_Some; [|by apply (inv_execs _ _ Hi)].
    rewrite Hc, Hs. by apply (inv_execs _ _ Hi).
Qed.

Lemma dispatch_good l w work :
  good (replies (work_replies work ++ l)) w -> wp (dispatch sched work) (fun _ => good (replies l)) w.
Proof.
  intros Hg. unfold dispatch. apply wp_bind, wp_self.
  destruct (exec_in_flight (wk w) !! work_sandbox_id work) as [x|] eqn:Hx.
  - assert (Hpark : forall reply, work_replies work = [reply] ->
      wp (update (fun s => set_exec_in_flight (<[work_sandbox_id work :=
            MkInFlight (run_container x) (run_done x) (run_session x) (run_slot x) (run_parked x ++ [work])]>
            (exec_in_flight s)) s)) (fun _ => good (replies l)) w).
    { intros reply Hr. apply wp_update. eapply good_wk; [|exact Hg]. eapply update_exec_inv; [exact Hx|done..|].
      unfold exec_replies. cbn. rewrite bind_app. cbn. rewrite app_nil_r, Hr. cbn. by rewrite <- app_assoc. }
    destruct work as [request|s reply|s reply|s reply]; [|by eapply Hpark..].
    cbn in Hg. apply wp_bind. eapply wp_mono; [by apply send_good|]. intros [] w1 Hg1. by apply drop_reply_good.
  - destruct work as [request|s reply|s reply|s reply]; cbn in Hg, Hx.
    + by apply begin_exec_good.
    + apply wp_bind. eapply wp_mono; [by apply start_good|]. intros res w1 Hg1. by apply send_good.
    + apply wp_bind. eapply wp_mono; [by apply stop_good|]. intros res w1 Hg1. by apply send_good.
    + apply wp_bind. eapply wp_mono; [by apply deprovision_good|]. intros res w1 Hg1. by apply send_good.
Qed.

Lemma keep_quarantined_good h w s slot : good h w -> wp (keep_quarantined s slot) (fun _ => good h) w.
Proof.
  intros Hg. unfold keep_quarantined. apply wp_update. destruct (containers (wk w) !! s) as [e|] eqn:He; [|by destruct w].
  by eapply update_container_good.
Qed.

Lemma quarantine_good h w s handle detail slot held :
  good h w -> exec_in_flight (wk w) !! s = None ->
  wp (quarantine sched s handle detail slot held) (fun _ => good h) w.
Proof.
  intros Hg Hx. unfold quarantine. apply wp_bind, wp_self, wp_bind.
  apply (wp_mono _ (fun _ w' => good h w' /\ wk w' = wk w)).
  - destruct (sdk (wk w)); [|by apply wp_ret]. apply wp_bind.
    eapply wp_mono; [by apply on_container_good|]. intros r w1 Hg1. by apply wp_ret.
  - intros [[[]|er]|] w1 [Hg1 Hwk1]; apply wp_bind.
    + eapply wp_mono; [apply (remove_container_good h); [done|by rewrite Hwk1]|]. by intros [] w2 [Hg2 _].
    + eapply wp_mono; [by apply keep_quarantined_good|]. by intros [] w2 Hg2.
    + eapply wp_mono; [by apply keep_quarantined_good|]. by intros [] w2 Hg2.
Qed.

Lemma take_exec_inv l w s x :
  exec_in_flight (wk w) !! s = Some x -> lost_runs w = [] -> inv (and_run s (replies l)) w ->
  inv (replies (exec_replies x ++ l)) (set_wk (set_exec_in_flight (delete s (exec_in_flight (wk w))) (wk w)) w).
Proof.
  intros Hx Hlost Hi. constructor; cbn; try apply Hi.
  - intros p. pose proof (inv_replies _ _ Hi p) as Hp. unfold held in *; cbn in Hp |- *.
    rewrite (msum_delete _ _ _ _ Hx) in Hp. rewrite sum_list_with_app. unfold exec_w at 1 in Hp. lia.
  - intros s'. pose proof (inv_runs _ _ Hi s') as Hr. cbn in Hr. rewrite present_delete.
    rewrite occ_cons in Hr. destruct (decide (s' = s)) as [->|].
    + rewrite (present_Some _ _ _ Hx), bool_decide_true in Hr by done. cbn in Hr. lia.
    + rewrite bool_decide_false in Hr by done. cbn in Hr. lia.
  - intros t Ht Hp. destruct (inv_run_use _ _ Hi t Ht Hp) as [(y & Hy & Hrest)|?]; [|by right]. left. exists y.
    split; [|done]. rewrite lookup_delete_ne; [done|]. intros Heq.
    pose proof (inv_runs _ _ Hi s) as Hr. cbn in Hr. rewrite occ_cons, bool_decide_true in Hr by done.
    rewrite (present_Some _ _ _ Hx), Hlost in Hr. unfold occ in Hr. cbn in Hr.
    pose proof (sum_list_with_elem (run_is s) _ _ Ht) as Hle. unfold run_is at 1 in Hle.
    rewrite Hp, (bool_decide_true (s = thread_sandbox t)) in Hle by done. cbn in Hle. lia.
  - intros s' y [_ Hy]%lookup_delete_Some. by apply (inv_execs _ _ Hi).
Qed.

(** A report finds the run it reports. *)
Lemma reported_run l w s :
  good (and_run s (replies l)) w -> exists x, exec_in_flight (wk w) !! s = Some x.
Proof.
  intros [Hi Hc]. pose proof (inv_runs _ _ Hi s) as Hr. cbn in Hr.
  rewrite occ_cons, bool_decide_true, (calm_runs _ Hc) in Hr by done. unfold present, occ in Hr. cbn in Hr.
  case_bool_decide as Hx; [|cbn in Hr; lia]. exact Hx.
Qed.

Lemma retire_exec_good l w s report :
  good (and_run s (replies l)) w ->
  wp (retire_exec sched s report) (fun parked w' => good (replies ((parked ≫= work_replies) ++ l)) w') w.
Proof.
  intros Hg. destruct (reported_run _ _ _ Hg) as [x Hx]. unfold retire_exec. apply wp_bind, wp_self. rewrite Hx.
  apply wp_bind, wp_update. set (w1 := set_wk _ w).
  assert (Hg1 : good (replies (exec_replies x ++ l)) w1).
  { eapply good_wk; [|exact Hg]. apply take_exec_inv; [done|apply Hg]. }
  apply wp_bind. apply (wp_mono _ (fun _ => good (replies (exec_replies x ++ l)))).
  - destruct report as [outcome|detail held]; [by apply wp_ret|]. apply wp_bind.
    eapply wp_mono; [eapply quarantine_good; [exact Hg1|apply lookup_delete_eq]|].
    intros e w2 Hg2. by apply wp_ret.
  - intros outcome w2 Hg2. change (exec_replies x ++ l) with (run_done x :: (run_parked x ≫= work_replies) ++ l) in Hg2.
    apply wp_bind. eapply wp_mono; [by apply send_good|]. intros [] w3 Hg3. by apply wp_ret.
Qed.

Lemma finish_exec_good l w s report :
  good (and_run s (replies l)) w -> wp (finish_exec sched s report) (fun _ => good (replies l)) w.
Proof.
  intros Hg. unfold finish_exec. apply wp_bind. eapply wp_mono; [by apply retire_exec_good|].
  intros parked w1 Hg1. eapply (wp_mono _ (fun _ w => good (replies (([] ≫= work_replies) ++ l)) w)); [|by intros []].
  apply (wp_for_each (fun k w => good (replies ((k ≫= work_replies) ++ l)) w)); [done|].
  intros work k w2 Hg2. apply dispatch_good. cbn in Hg2. by rewrite <- app_assoc in Hg2.
Qed.

End Ops.
End WslcOps.
