(* ===== verification/WslcTeardown.v ===== *)
(** * The WSLC daemon: teardown

    [Worker::shutdown] keeps the invariant whether its drains succeed or time
    out, its loops end within the messages the threads can still send, and it
    unloads the SDK only when no thread and no handle is left. *)

From stdpp Require Import gmap.
From S2P Require Import Prelude Requests WslcSlots WslcTypes WslcWorld WslcWorker WslcInv WslcOps.

#[local] Open Scope nat_scope.

Module WslcTeardown.
Export WslcOps.

Section Teardown.
Context {E : Type} `{!Env E} (sched : World E -> World E).
Context (sched_ok : forall w, rtc thread_step w (sched w)).
Implicit Types (w : World E) (h : Hand).

(** ** What a drain can only lower *)

Record quiet w w' : Prop := MkQuiet {
  quiet_messages : messages w' <= messages w;
  quiet_boots : length (boots w') <= length (boots w);
  quiet_runs : length (runs w') <= length (runs w);
  quiet_pending : pending (wk w') = pending (wk w);
  quiet_booting : pending_sessions (wk w') ⊆ pending_sessions (wk w);
  quiet_execs : exec_in_flight (wk w') ⊆ exec_in_flight (wk w);
  quiet_containers s : containers (wk w) !! s = None -> containers (wk w') !! s = None;
}.

#[export] Instance quiet_preorder : PreOrder quiet.
Proof. split; [intros w; by constructor|]. intros w1 w2 w3 [] []. constructor; try lia; try congruence; eauto; by etrans. Qed.

Lemma steady_quiet w w' : steady w w' -> quiet w w'.
Proof. intros Hst. constructor; rewrite ?(steady_wk _ _ Hst); try apply Hst; done. Qed.

Lemma call_quiet {A} (c : Call A) w : wp (call sched c) (fun _ w' => quiet w w' /\ wk w' = wk w) w.
Proof.
  unfold wp, call. destruct (thread_steps w (sched w) (sched_ok w)) as [Hst _].
  pose proof (ask_drawn_mono c (ext (sched w))) as Hd. destruct (ask c (ext (sched w))) as [a e]. cbn in Hd.
  assert (Hst' : steady w (set_ext e (sched w))) by (etrans; [exact Hst|by apply set_ext_steady]).
  split; [by apply steady_quiet|apply (steady_wk _ _ Hst')].
Qed.

(** A step that never lowers nor raises anything: it only answers. *)
Definition answers (m : stateful (World E) Panic unit) : Prop :=
  forall w, wp m (fun _ w' => quiet w w' /\ wk w' = wk w /\ queue w' = queue w /\ runs w' = runs w /\
    boots w' = boots w /\ pulls w' = pulls w /\ leaked w' = leaked w /\ vms w' = vms w) w.

Lemma answers_bind (m : stateful (World E) Panic unit) k : answers m -> answers k -> answers (_ ← m; k).
Proof.
  intros Hm Hk w. apply wp_bind. eapply wp_mono; [apply Hm|]. intros [] w1 H1. eapply wp_mono; [apply Hk|].
  intros [] w2 H2. destruct H1 as (? & ? & ? & ? & ? & ? & ? & ?). destruct H2 as (? & ? & ? & ? & ? & ? & ? & ?).
  split_and!; [by etrans|congruence..].
Qed.

Lemma answers_for_each {A} (f : A -> stateful (World E) Panic unit) l :
  (forall a, answers (f a)) -> answers (for_each f l).
Proof. intros Hf. induction l as [|a l IH]; [by intros w; apply wp_ret|]. by apply answers_bind. Qed.

Lemma answers_send reply a : answers (send reply a).
Proof. intros w. apply wp_modify. split_and!; [by constructor|done..]. Qed.

Lemma answers_drop reply why : answers (drop_reply reply why).
Proof. intros w. apply wp_modify. split_and!; [by constructor|done..]. Qed.

Lemma answers_ret : answers (mret tt).
Proof. intros w. by apply wp_ret. Qed.

Lemma answers_send_all k a : answers (send_all k a).
Proof. apply answers_for_each. intros reply. apply answers_send. Qed.

Lemma answers_refuse message work : answers (refuse message work).
Proof. destruct work; [apply answers_bind; [apply answers_send|apply answers_drop]|apply answers_send..]. Qed.

Lemma answers_refuse_cmd cmd : answers (refuse_while_shutting_down cmd).
Proof.
  destruct cmd as [| | |work| | | | | | |]; try apply answers_send; try apply answers_ret; [apply answers_refuse|].
  intros w. apply wp_bind, wp_self. apply answers_send.
Qed.

Lemma refuse_good l w message work :
  good (replies (work_replies work ++ l)) w -> wp (refuse message work) (fun _ => good (replies l)) w.
Proof.
  destruct work; cbn; intros Hg; [|by apply send_good..].
  apply wp_bind. eapply wp_mono; [by apply send_good|]. intros [] w1 Hg1. by apply drop_reply_good.
Qed.

Lemma refuse_all_good l w message parked :
  good (replies ((parked ≫= work_replies) ++ l)) w ->
  wp (for_each (refuse message) parked) (fun _ => good (replies l)) w.
Proof.
  intros Hg. eapply (wp_mono _ (fun _ w => good (replies (([] ≫= work_replies) ++ l)) w)); [|by intros []].
  apply (wp_for_each (fun k w => good (replies ((k ≫= work_replies) ++ l)) w)); [done|].
  intros work k w2 Hg2. apply refuse_good. cbn in Hg2. by rewrite <- app_assoc in Hg2.
Qed.

Lemma refuse_cmd_good l w cmd :
  good (replies (cmd_replies cmd ++ l)) w -> wp (refuse_while_shutting_down cmd) (fun _ => good (replies l)) w.
Proof.
  intros Hg. destruct cmd as [| | |work| | | | | |reply|]; try (by apply send_good); try (by apply wp_ret).
  by apply refuse_good.
Qed.

(** ** Taking a command off the queue *)

Definition and_cmd (c : WorkerCommand) h : Hand :=
  MkHand (cmd_replies c ++ h_replies h)
    (match c with SessionBooted r _ => [r] | _ => [] end ++ h_boots h)
    (match c with ExecFinished s _ => [s] | _ => [] end ++ h_runs h)
    (h_pend h) (h_leases h) (h_refs h) (h_sess h).

Lemma pop_inv h w c q : queue w = c :: q -> inv h w -> inv (and_cmd c h) (set_queue q w).
Proof.
  intros Hq Hi. constructor; cbn; try apply Hi.
  - intros p. pose proof (inv_replies _ _ Hi p) as Hp. unfold held in *; cbn in *. rewrite Hq in Hp. cbn in Hp.
    rewrite sum_list_with_app. unfold cmd_w at 1 in Hp. lia.
  - intros s. pose proof (inv_runs _ _ Hi s) as Hr. rewrite Hq in Hr. cbn in Hr. unfold occ in *.
    rewrite sum_list_with_app. unfold exec_report at 1 in Hr. destruct c; cbn; lia.
  - intros r. pose proof (inv_boots _ _ Hi r) as Hr. rewrite Hq in Hr. cbn in Hr. unfold occ in *.
    rewrite sum_list_with_app. unfold boot_report at 1 in Hr. destruct c; cbn; lia.
  - intros r f Hin. apply (inv_gone _ _ Hi). rewrite Hq. by right.
Qed.

Lemma pop_good h w c q : queue w = c :: q -> good h w -> good (and_cmd c h) (set_queue q w).
Proof. intros Hq [Hi Hc]. split; [by apply pop_inv|by destruct Hc]. Qed.

Lemma pop_messages w c q : queue w = c :: q -> S (messages (set_queue q w)) = messages w.
Proof. intros Hq. unfold messages. cbn. rewrite Hq. cbn. lia. Qed.

(** ** The operations of the drains *)

Lemma on_container_quiet {A} s (c : Call A) w :
  wp (on_container sched s c) (fun _ w' => quiet w w' /\ wk w' = wk w) w.
Proof.
  unfold on_container. apply wp_bind. eapply wp_mono; [apply call_quiet|]. intros a w1 [Hq Hwk].
  apply wp_bind, wp_modify, wp_ret. destruct (container_free s w1); [done|].
  split; [|done]. etrans; [exact Hq|by constructor].
Qed.

Lemma update_quiet f w :
  pending (f (wk w)) = pending (wk w) -> pending_sessions (f (wk w)) ⊆ pending_sessions (wk w) ->
  exec_in_flight (f (wk w)) ⊆ exec_in_flight (wk w) ->
  (forall s, containers (wk w) !! s = None -> containers (f (wk w)) !! s = None) ->
  wp (update f) (fun _ w' => quiet w w') w.
Proof. intros H1 H2 H3 H4. apply wp_update. by constructor. Qed.

Lemma remove_container_quiet s w : wp (remove_container s) (fun _ w' => quiet w w') w.
Proof.
  unfold remove_container. apply wp_bind, wp_modify.
  eapply wp_mono; [apply update_quiet; [done..|]; intros s' Hs'; cbn; rewrite lookup_delete_None; auto|].
  intros [] w' Hq. destruct (container_free s w); [done|]. etrans; [|exact Hq]. by constructor.
Qed.

Lemma keep_quarantined_quiet s slot w : wp (keep_quarantined s slot) (fun _ w' => quiet w w') w.
Proof.
  apply update_quiet; [by case_match..|]. intros s' Hs'. destruct (containers (wk w) !! s) as [e|] eqn:He; [|done].
  cbn. rewrite lookup_insert_ne; congruence.
Qed.

Lemma quarantine_quiet s handle detail slot held w :
  wp (quarantine sched s handle detail slot held) (fun _ w' => quiet w w') w.
Proof.
  unfold quarantine. apply wp_bind, wp_self, wp_bind. apply (wp_mono _ (fun _ w' => quiet w w')).
  - destruct (sdk (wk w)); [|by apply wp_ret]. apply wp_bind. eapply wp_mono; [apply on_container_quiet|].
    intros r w1 [Hq _]. by apply wp_ret.
  - intros [[[]|er]|] w1 Hq; apply wp_bind.
    + eapply wp_mono; [apply remove_container_quiet|]. intros [] w2 Hq2. apply wp_ret. by etrans.
    + eapply wp_mono; [apply keep_quarantined_quiet|]. intros [] w2 Hq2. apply wp_ret. by etrans.
    + eapply wp_mono; [apply keep_quarantined_quiet|]. intros [] w2 Hq2. apply wp_ret. by etrans.
Qed.

Lemma retire_exec_quiet s report w : wp (retire_exec sched s report) (fun _ w' => quiet w w') w.
Proof.
  unfold retire_exec. apply wp_bind, wp_self. destruct (exec_in_flight (wk w) !! s) as [x|]; [|by apply wp_ret].
  apply wp_bind. eapply wp_mono; [apply update_quiet; [done..| |done]; cbn; apply delete_subseteq|]. intros [] w1 Hq1.
  apply wp_bind. apply (wp_mono _ (fun _ w' => quiet w1 w')).
  - destruct report; [by apply wp_ret|]. apply wp_bind. eapply wp_mono; [apply quarantine_quiet|].
    intros e w2 Hq2. by apply wp_ret.
  - intros outcome w2 Hq2. apply wp_bind, wp_modify, wp_ret. etrans; [exact Hq1|]. etrans; [exact Hq2|by constructor].
Qed.

Lemma release_or_leak_quiet job r w :
  wp (release_or_leak sched job r false) (fun _ w' => quiet w w' /\ wk w' = wk w) w.
Proof.
  unfold release_or_leak, start_session_release. apply wp_bind, wp_bind. eapply wp_mono; [apply call_quiet|].
  intros [[]|e] w1 [Hq1 Hwk1].
  - apply wp_bind, wp_modify, wp_ret, wp_ret. split; [|done]. etrans; [exact Hq1|]. constructor; cbn; try done.
    unfold messages. cbn. rewrite List.filter_app. cbn. rewrite app_nil_r. lia.
  - apply wp_bind, wp_ret, wp_ret, wp_bind, wp_modify, wp_ret. pose proof (drop_release_steady w1 r job) as Hst.
    split; [etrans; [exact Hq1|by apply steady_quiet]|by rewrite (steady_wk _ _ Hst)].
Qed.

(** Nobody waits on a boot any more. *)
Definition silent w : Prop := forall r p, pending_sessions (wk w) !! r = Some p -> booting_replies p = [].

Lemma silent_quiet w w' : silent w -> quiet w w' -> silent w'.
Proof. intros Hs Hq r p Hp. apply (Hs r). eapply lookup_weaken; [exact Hp|apply Hq]. Qed.

Lemma release_booted_quiet r outcome w :
  wp (release_booted_during_shutdown sched r outcome) (fun _ w' => quiet w w') w.
Proof.
  unfold release_booted_during_shutdown. apply wp_bind, wp_self.
  destruct (pending_sessions (wk w) !! r) as [p|]; [|by apply wp_ret].
  apply wp_bind. eapply wp_mono; [apply update_quiet; [done| |done..]; cbn; apply delete_subseteq|]. intros [] w1 Hq1.
  destruct outcome as [session|failure].
  - eapply wp_mono; [apply release_or_leak_quiet|]. intros b w2 [Hq2 _]. by etrans.
  - apply wp_bind. apply (wp_mono _ (fun _ w' => quiet w1 w')).
    + destruct (booting_store p) as [lease|]; [|by apply wp_ret]. apply wp_modify.
      destruct (store_may_be_held failure); [by constructor|]. apply steady_quiet, return_slot_steady.
    + intros [] w2 Hq2. apply wp_ret. by etrans.
Qed.

Lemma release_booted_good l w r outcome :
  good (and_boot r (replies l)) w -> silent w ->
  (forall f, outcome = Err f -> store_may_be_held f = false -> vms w !! r = None) ->
  wp (release_booted_during_shutdown sched r outcome) (fun _ => good (replies l)) w.
Proof.
  intros Hg Hsil Hv. destruct (reported_entry _ _ _ Hg) as (p & Hl & Hs & Hg1). rewrite (Hsil _ _ Hl) in Hg1.
  unfold release_booted_during_shutdown. apply wp_bind, wp_self. rewrite Hl. apply wp_bind, wp_update.
  set (w1 := set_wk _ w) in *. destruct outcome as [session|failure].
  - eapply wp_mono; [apply (release_or_leak_good sched sched_ok l); exact Hg1|]. by intros b w2 (_ & Hg2 & _).
  - apply wp_bind. eapply wp_mono; [apply (settle_store_good l w1 r); [exact Hg1|by apply (Hv failure)]|].
    intros [] w2 [Hg2 _]. by apply wp_ret.
Qed.

Lemma wp_try_recv w (Q : option WorkerCommand -> World E -> Prop) :
  (queue w = [] -> Q None w) -> (forall c q, queue w = c :: q -> Q (Some c) (set_queue q w)) -> wp try_recv Q w.
Proof. intros H1 H2. unfold wp, try_recv. destruct (queue w) as [|c q]; auto. Qed.

(** With no run left, an empty queue means no run is waited for. *)
Lemma no_runs_left l w : good (replies l) w -> runs w = [] -> queue w = [] -> exec_in_flight (wk w) = ∅.
Proof.
  intros [Hi Hc] Hr Hq. apply map_empty. intros s. apply present_None. pose proof (inv_runs _ _ Hi s) as Hs.
  rewrite Hr, Hq, (calm_runs _ Hc) in Hs. cbn in Hs. unfold occ in Hs. cbn in Hs. lia.
Qed.

Lemma no_boots_left l w r : good (replies l) w -> boots w = [] -> queue w = [] -> with_store (pending_sessions (wk w)) r = 0.
Proof.
  intros [Hi Hc] Hr Hq. pose proof (inv_boots _ _ Hi r) as Hs.
  rewrite Hr, Hq, (calm_boots _ Hc) in Hs. cbn in Hs. unfold occ in Hs. cbn in Hs. lia.
Qed.

Lemma set_queue_quiet w c q : queue w = c :: q -> quiet w (set_queue q w) /\ messages (set_queue q w) < messages w.
Proof. intros Hq. pose proof (pop_messages w c q Hq). split; [constructor; [lia|done..]|lia]. Qed.

Lemma quiet_length_nil w w' : quiet w w' -> runs w = [] -> runs w' = [].
Proof. intros Hq Hr. apply nil_length_inv. pose proof (quiet_runs _ _ Hq). rewrite Hr in *. cbn in *. lia. Qed.

Lemma quiet_boots_nil w w' : quiet w w' -> boots w = [] -> boots w' = [].
Proof. intros Hq Hr. apply nil_length_inv. pose proof (quiet_boots _ _ Hq). rewrite Hr in *. cbn in *. lia. Qed.

Lemma quiet_no_execs w w' : quiet w w' -> exec_in_flight (wk w) = ∅ -> exec_in_flight (wk w') = ∅.
Proof.
  intros Hq He. apply map_empty. intros s. destruct (exec_in_flight (wk w') !! s) as [x|] eqn:Hx; [|done].
  eapply lookup_weaken in Hx; [|apply Hq]. by rewrite He, lookup_empty in Hx.
Qed.

Lemma drain_execs_good l fuel left_running w :
  good (replies l) w -> silent w -> runs w = [] -> messages w <= fuel ->
  wp (drain_execs sched fuel left_running) (fun _ w' => good (replies l) w' /\ quiet w w' /\
    exec_in_flight (wk w') = ∅) w.
Proof.
  revert left_running w. induction fuel as [|fuel IH]; intros left_running w Hg Hsil Hruns Hfuel; cbn [drain_execs];
    apply wp_bind, wp_self; (case_bool_decide as He; [by apply wp_ret|]); apply wp_bind, wp_try_recv.
  1,3: intros Hq; apply wp_ret; split_and!; [done..|by eapply no_runs_left].
  - intros c q Hq. unfold messages in Hfuel. rewrite Hq in Hfuel. cbn in Hfuel. lia.
  - intros c q Hq. destruct (set_queue_quiet _ _ _ Hq) as [Hq1 Hlt].
    pose proof (pop_good _ _ _ _ Hq Hg) as Hg1. set (w1 := set_queue q w) in *.
    assert (Hnext : forall (b : bool) w2, good (replies l) w2 /\ quiet w1 w2 ->
      wp (drain_execs sched fuel b) (fun _ w' => good (replies l) w' /\ quiet w w' /\ exec_in_flight (wk w') = ∅) w2).
    { intros b w2 [Hg2 Hq2]. assert (Hq12 : quiet w w2) by by etrans.
      eapply wp_mono; [apply IH; [done|by eapply silent_quiet|by eapply quiet_length_nil|]|].
      - pose proof (quiet_messages _ _ Hq2). lia.
      - intros b' w3 (Hg3 & Hq3 & He3). split_and!; [done|by etrans|done]. }
    apply wp_bind.
    destruct c as [ | | | |r outcome| | |s report| | | ];
      try (apply wp_bind; eapply wp_mono; [apply (wp_and _ (fun _ => good (replies l)) (fun _ w' => quiet w1 w'));
             [by apply refuse_cmd_good|eapply wp_mono; [apply answers_refuse_cmd|by intros [] ? (? & _)]]|];
           intros [] w2 Hw2; by apply wp_ret, Hnext).
    + apply wp_bind. eapply wp_mono; [apply (wp_and _ (fun _ => good (replies l)) (fun _ w' => quiet w1 w'));
        [apply release_booted_good; [exact Hg1|by eapply silent_quiet|]|apply release_booted_quiet]|].
      * intros f -> Hf. apply (inv_gone _ _ (proj1 Hg) r f); [rewrite Hq; left|done].
      * intros b w2 Hw2. by apply wp_ret, Hnext.
    + apply wp_bind. eapply wp_mono; [apply (wp_and _ (fun parked w' => good (replies ((parked ≫= work_replies) ++ l)) w')
        (fun _ w' => quiet w1 w')); [apply retire_exec_good; [exact sched_ok|exact Hg1]|apply retire_exec_quiet]|].
      intros parked w2 [Hg2 Hq2]. apply wp_bind.
      eapply wp_mono; [apply (wp_and _ (fun _ => good (replies l)) (fun _ w' => quiet w2 w'));
        [by apply refuse_all_good|]|].
      * eapply wp_mono; [apply answers_for_each; intros work; apply answers_refuse|by intros [] ? (? & _)].
      * intros [] w3 [Hg3 Hq3]. apply wp_ret, Hnext. split; [done|by etrans].
Qed.

Lemma drain_boots_good l fuel abandoned w :
  good (replies l) w -> silent w -> boots w = [] -> messages w <= fuel -> exec_in_flight (wk w) = ∅ ->
  wp (drain_boots sched fuel abandoned) (fun _ w' => good (replies l) w' /\ quiet w w' /\
    (forall r, with_store (pending_sessions (wk w')) r = 0)) w.
Proof.
  revert abandoned w. induction fuel as [|fuel IH]; intros abandoned w Hg Hsil Hboots Hfuel Hexec; cbn [drain_boots];
    apply wp_bind, wp_self; (case_bool_decide as He;
      [apply wp_ret; split_and!; [done..|]; intros r; apply with_store_None; rewrite He; apply lookup_empty|]);
    apply wp_bind, wp_try_recv.
  1,3: intros Hq; apply wp_ret; split_and!; [done..|]; intros r; by eapply no_boots_left.
  - intros c q Hq. unfold messages in Hfuel. rewrite Hq in Hfuel. cbn in Hfuel. lia.
  - intros c q Hq. destruct (set_queue_quiet _ _ _ Hq) as [Hq1 Hlt].
    pose proof (pop_good _ _ _ _ Hq Hg) as Hg1. set (w1 := set_queue q w) in *.
    assert (Hnext : forall (b : bool) w2, good (replies l) w2 /\ quiet w1 w2 ->
      wp (drain_boots sched fuel b) (fun _ w' => good (replies l) w' /\ quiet w w' /\
        (forall r, with_store (pending_sessions (wk w')) r = 0)) w2).
    { intros b w2 [Hg2 Hq2]. assert (Hq12 : quiet w w2) by by etrans.
      eapply wp_mono; [apply IH; [done|by eapply silent_quiet|by eapply quiet_boots_nil| |]|].
      - pose proof (quiet_messages _ _ Hq2). lia.
      - by eapply quiet_no_execs.
      - intros b' w3 (Hg3 & Hq3 & He3). split_and!; [done|by etrans|done]. }
    apply wp_bind.
    destruct c as [ | | | |r outcome| | |s report| | | ];
      try (apply wp_bind; eapply wp_mono; [apply (wp_and _ (fun _ => good (replies l)) (fun _ w' => quiet w1 w'));
             [by apply refuse_cmd_good|eapply wp_mono; [apply answers_refuse_cmd|by intros [] ? (? & _)]]|];
           intros [] w2 Hw2; by apply wp_ret, Hnext).
    + apply wp_bind. eapply wp_mono; [apply (wp_and _ (fun _ => good (replies l)) (fun _ w' => quiet w1 w'));
        [apply release_booted_good; [exact Hg1|by eapply silent_quiet|]|apply release_booted_quiet]|].
      * intros f -> Hf. apply (inv_gone _ _ (proj1 Hg) r f); [rewrite Hq; left|done].
      * intros b w2 Hw2. by apply wp_ret, Hnext.
    + exfalso. destruct (reported_run _ _ _ Hg1) as [x Hx]. cbn in Hx. by rewrite Hexec, lookup_empty in Hx.
Qed.

(** ** Letting the waiting clients go *)

Lemma sum_list_with_fmap {A B} (p : B -> nat) (f : A -> B) l :
  sum_list_with p (f <$> l) = sum_list_with (fun a => p (f a)) l.
Proof. induction l as [|a l IH]; cbn; [done|]. by rewrite IH. Qed.

Lemma sum_list_with_bind {A B} (p : B -> nat) (f : A -> list B) l :
  sum_list_with p (l ≫= f) = sum_list_with (fun a => sum_list_with p (f a)) l.
Proof. induction l as [|a l IH]; cbn; [done|]. by rewrite sum_list_with_app, IH. Qed.

Lemma drain_pending_inv l w :
  inv (replies l) w ->
  inv (replies (((fun e => pending_reply e.2) <$> iter (pending (wk w))) ++ l)) (set_wk (set_pending ∅ (wk w)) w).
Proof.
  intros Hi. constructor; cbn; try apply Hi.
  - intros p. pose proof (inv_replies _ _ Hi p) as Hp. unfold held in *; cbn in *.
    rewrite msum_empty, sum_list_with_app, sum_list_with_fmap.
    change (fun a : Z * PendingProvision => p (pending_reply a.2)) with (fun a : Z * PendingProvision => pending_w p a.1 a.2).
    rewrite msum_iter. lia.
  - intros t p Hp. by rewrite lookup_empty in Hp.
Qed.

Lemma answer_waiting_good l w :
  good (replies l) w -> wp answer_waiting (fun _ w' => good (replies l) w' /\ pending (wk w') = ∅ /\ silent w') w.
Proof.
  intros Hg. unfold answer_waiting. apply wp_bind, wp_self. set (pendings := iter (pending (wk w))).
  apply wp_bind, wp_update. set (w1 := set_wk _ w).
  assert (Hg1 : good (replies (((fun e => pending_reply e.2) <$> pendings) ++ l)) w1).
  { eapply good_wk; [|exact Hg]. apply drain_pending_inv. }
  apply wp_bind. eapply wp_mono; [apply (wp_and _ (fun _ => good (replies l)) (fun _ w' => wk w' = wk w1))|].
  { eapply (wp_mono _ (fun _ w => good (replies (((fun e : Z * PendingProvision => pending_reply e.2) <$> []) ++ l)) w));
      [|by intros []].
    apply (wp_for_each (fun (k : list (Z * PendingProvision)) w =>
      good (replies (((fun e => pending_reply e.2) <$> k) ++ l)) w)); [exact Hg1|].
    intros e k w' Hg'. by apply send_good. }
  { eapply wp_mono; [apply answers_for_each; intros e; apply answers_send|]. by intros [] w' (_ & ? & _). }
  intros [] w2 [Hg2 Hwk2]. apply wp_bind, wp_self.
  set (I := fun (k : list (string * PendingSession)) w => good (replies l) w /\ pending (wk w) = ∅ /\ NoDup k.*1 /\
    (forall r p, (r, p) ∈ k -> pending_sessions (wk w) !! r = Some p) /\
    (forall r p, pending_sessions (wk w) !! r = Some p -> r ∈ k.*1 \/ booting_replies p = [])).
  eapply (wp_mono _ (fun _ => I [])).
  - apply (wp_for_each I).
    + split_and!; [done|by rewrite Hwk2|apply iter_NoDup|by intros r p Hin%elem_of_iter|].
      intros r p Hp. left. apply list_elem_of_fmap. exists (r, p). split; [done|by apply elem_of_iter].
    + intros [r p] k w3 (Hg3 & Hpd3 & Hnd & Hin & Hout). cbn in Hnd. apply NoDup_cons in Hnd as [Hr Hnd].
      assert (Hl : pending_sessions (wk w3) !! r = Some p) by (apply Hin; left).
      apply wp_bind, wp_update. cbn [fst snd]. set (p' := MkPendingSession _ _ _ None [] _ _). set (w4 := set_wk _ w3).
      assert (Hg4 : good (replies (booting_replies p ++ l)) w4) by (eapply (update_pending_good l); eauto).
      unfold booting_replies in Hg4. rewrite <- app_assoc in Hg4.
      apply wp_bind. eapply wp_mono; [apply (wp_and _ (fun _ => good (replies ((snd <$> booting_parked p) ++ l)))
        (fun _ w' => wk w' = wk w4)); [by apply send_option_good|by destruct (booting_reply p)]|].
      intros [] w5 [Hg5 Hw5]. eapply wp_mono; [apply (wp_and _ (fun _ => good (replies l))
        (fun _ w' => wk w' = wk w5)); [by apply send_all_good|by apply send_all_frame]|].
      intros [] w6 [Hg6 Hw6]. rewrite Hw5 in Hw6. unfold I. rewrite Hw6. cbn. split_and!; [done..| |].
      * intros r' q Hq. rewrite lookup_insert_ne; [apply Hin; by right|]. intros ->. apply Hr, list_elem_of_fmap.
        by exists (r', q).
      * intros r' q [[<- <-]|[Hne Hq]]%lookup_insert_Some; [by right|].
        destruct (Hout _ _ Hq) as [Hk|]; [|by right]. left. cbn in Hk. apply elem_of_cons in Hk as [->|]; [done|done].
  - intros [] w3 (Hg3 & Hpd3 & _ & _ & Hout). split_and!; [done..|]. intros r p Hp.
    destruct (Hout r p Hp) as [Hk|]; [|done]. by apply elem_of_nil in Hk.
Qed.

Lemma occ_app {A} `{EqDecision A} (x : A) l k : occ x (l ++ k) = occ x l + occ x k.
Proof. apply sum_list_with_app. Qed.

(** Each key of a map is yielded once. *)
Lemma occ_keys {A} (m : gmap string A) s : occ s (iter m).*1 = present m s.
Proof.
  unfold occ. rewrite sum_list_with_fmap.
  change (fun a : string * A => Nat.b2n (bool_decide (s = a.1)))
    with (fun a : string * A => (fun k (_ : A) => Nat.b2n (bool_decide (s = k))) a.1 a.2).
  rewrite msum_iter. destruct (m !! s) as [x|] eqn:Hx.
  - rewrite (msum_delete _ _ _ _ Hx), (present_Some _ _ _ Hx), bool_decide_true by done. cbn.
    enough (~ 0 < msum (fun k (_ : A) => Nat.b2n (bool_decide (s = k))) (delete s m)) by lia.
    intros (k & y & Hk & Hpos)%msum_pos. case_bool_decide; [subst k; by rewrite lookup_delete_eq in Hk|cbn in Hpos; lia].
  - rewrite (proj2 (present_None _ _) Hx). apply Nat.le_0_r, Nat.nlt_ge. intros (k & y & Hk & Hpos)%msum_pos.
    case_bool_decide; [congruence|cbn in Hpos; lia].
Qed.

Lemma answer_unreported_inv l w :
  inv (replies l) w ->
  inv (replies ((iter (exec_in_flight (wk w)) ≫= fun e => exec_replies e.2) ++ l))
    (set_wk (set_exec_in_flight ∅ (wk w)) (log_lost_runs (iter (exec_in_flight (wk w))).*1 w)).
Proof.
  intros Hi. constructor; cbn; try apply Hi.
  - intros p. pose proof (inv_replies _ _ Hi p) as Hp. unfold held in *; cbn in *.
    rewrite msum_empty, sum_list_with_app, sum_list_with_bind.
    change (fun a : string * InFlightExec => sum_list_with p (exec_replies a.2))
      with (fun a : string * InFlightExec => exec_w p a.1 a.2).
    rewrite msum_iter. lia.
  - intros s. pose proof (inv_runs _ _ Hi s) as Hr. cbn in Hr. rewrite occ_app, occ_keys.
    rewrite (proj2 (present_None ∅ s)) by apply lookup_empty. lia.
  - intros t Ht Hp. right. apply elem_of_app. destruct (inv_run_use _ _ Hi t Ht Hp) as [(x & Hx & _)|]; [left|by right].
    apply list_elem_of_fmap. exists (thread_sandbox t, x). split; [done|by apply elem_of_iter].
  - intros s x Hx. by rewrite lookup_empty in Hx.
Qed.

(** *** Answering when the invariant is all that is known *)

Lemma send_inv x l a w : inv (replies (x :: l)) w -> wp (send x a) (fun _ => inv (replies l)) w.
Proof. intros Hi. apply wp_modify. by apply log_sent_inv. Qed.

Lemma refuse_inv l w message work :
  inv (replies (work_replies work ++ l)) w -> wp (refuse message work) (fun _ => inv (replies l)) w.
Proof.
  destruct work; cbn; intros Hg; [|by apply send_inv..].
  apply wp_bind. eapply wp_mono; [by apply send_inv|]. intros [] w1 Hg1. apply wp_modify. by apply log_dropped_inv.
Qed.

Lemma refuse_all_inv l w message parked :
  inv (replies ((parked ≫= work_replies) ++ l)) w ->
  wp (for_each (refuse message) parked) (fun _ => inv (replies l)) w.
Proof.
  intros Hg. eapply (wp_mono _ (fun _ w => inv (replies (([] ≫= work_replies) ++ l)) w)); [|by intros []].
  apply (wp_for_each (fun k w => inv (replies ((k ≫= work_replies) ++ l)) w)); [done|].
  intros work k w2 Hg2. apply refuse_inv. cbn in Hg2. by rewrite <- app_assoc in Hg2.
Qed.

Lemma answer_unreported_spec l w :
  inv (replies l) w ->
  wp answer_unreported (fun _ w' => inv (replies l) w' /\
    exists w1, w1 = set_wk (set_exec_in_flight ∅ (wk w)) (log_lost_runs (iter (exec_in_flight (wk w))).*1 w) /\
      quiet w1 w' /\ wk w' = wk w1 /\ runs w' = runs w1 /\ boots w' = boots w1 /\ leaked w' = leaked w1 /\
      lost_boots w' = lost_boots w1 /\ lost_runs w' = lost_runs w1 /\ sdk_unloaded w' = sdk_unloaded w1) w.
Proof.
  intros Hi. unfold answer_unreported. apply wp_bind, wp_self, wp_bind, wp_modify, wp_bind, wp_update.
  pose proof (answer_unreported_inv _ _ Hi) as Hi1. cbn [wk log_lost_runs]. set (w1 := set_wk _ _) in *.
  set (F := fun w' : World E => quiet w1 w' /\ wk w' = wk w1 /\ runs w' = runs w1 /\ boots w' = boots w1 /\ leaked w' = leaked w1 /\
      lost_boots w' = lost_boots w1 /\ lost_runs w' = lost_runs w1 /\ sdk_unloaded w' = sdk_unloaded w1).
  eapply wp_mono; [apply (wp_and _ (fun _ => inv (replies l)) (fun _ => F))|].
  - eapply (wp_mono _ (fun _ w => inv (replies (([] ≫= fun e : string * InFlightExec => exec_replies e.2) ++ l)) w)); [|by intros []].
    apply (wp_for_each (fun k w => inv (replies ((k ≫= fun e => exec_replies e.2) ++ l)) w)); [done|].
    intros [s x] k w2 Hi2. cbn in Hi2 |- *.
    change ((exec_replies x ++ (k ≫= fun e => exec_replies e.2)) ++ l) with
      (run_done x :: (((run_parked x ≫= work_replies) ++ (k ≫= fun e => exec_replies e.2)) ++ l)) in Hi2.
    apply wp_bind. eapply wp_mono; [by apply send_inv|]. intros [] w3 Hi3. apply refuse_all_inv.
    by rewrite <- app_assoc in Hi3.
  - assert (Hans : forall w2, F w2 -> forall reply a, F (log_sent reply a w2)).
    { intros w2 (Hq & Hrest) reply a. split; [etrans; [exact Hq|by constructor]|done]. }
    assert (Hdrop : forall w2, F w2 -> forall reply a, F (log_dropped reply a w2)).
    { intros w2 (Hq & Hrest) reply a. split; [etrans; [exact Hq|by constructor]|done]. }
    apply (wp_for_each (fun _ => F)); [by split; [done|]|]. intros [s x] k w2 HF. apply wp_bind, wp_modify.
    apply (wp_for_each (fun _ => F)); [by apply Hans|]. intros work k' w3 HF3. destruct work; cbn [refuse].
    + apply wp_bind, wp_modify, wp_modify. by apply Hdrop, Hans.
    + apply wp_modify. by apply Hans.
    + apply wp_modify. by apply Hans.
    + apply wp_modify. by apply Hans.
  - intros [] w2 [Hi2 HF]. split; [done|]. by exists w1.
Qed.

(** ** Containers *)

Lemma release_containers_good l w :
  good (replies l) w -> exec_in_flight (wk w) = ∅ ->
  wp (release_containers sched) (fun _ w' => good (replies l) w' /\ quiet w w' /\ containers (wk w') = ∅) w.
Proof.
  intros Hg Hx. unfold release_containers. apply wp_bind, wp_self, wp_bind, wp_self.
  set (I := fun (k : list (string * ContainerEntry)) w' => good (replies l) w' /\ quiet w w' /\
    forall s, is_Some (containers (wk w') !! s) -> s ∈ k.*1).
  eapply (wp_mono _ (fun _ => I [])).
  - apply (wp_for_each I).
    + split_and!; [done..|]. intros s [e He]. apply list_elem_of_fmap. exists (s, e). split; [done|by apply elem_of_iter].
    + intros [s e] k w1 (Hg1 & Hq1 & Hk1). cbn [fst snd].
      assert (Hx1 : forall w2, quiet w w2 -> exec_in_flight (wk w2) !! s = None).
      { intros w2 Hq2. by rewrite (quiet_no_execs _ _ Hq2 Hx), lookup_empty. }
      assert (Hon : forall A (c : Call A) w2, good (replies l) w2 /\ quiet w w2 /\ wk w2 = wk w1 ->
        wp (on_container sched s c) (fun _ w' => good (replies l) w' /\ quiet w w' /\ wk w' = wk w1) w2).
      { intros A c w2 (Hg2 & Hq2 & Hwk2). eapply wp_mono; [apply wp_and; [apply on_container_good; [exact sched_ok|exact Hg2|]|apply on_container_quiet]|].
        - by apply Hx1.
        - intros a w3 [[Hg3 _] [Hq3 Hwk3]]. split_and!; [done|by etrans|congruence]. }
      apply wp_bind. apply (wp_mono _ (fun _ w' => good (replies l) w' /\ quiet w w' /\ wk w' = wk w1)).
      * destruct (sdk (wk w)); [|by apply wp_ret]. apply wp_bind.
        apply (wp_mono _ (fun _ w' => good (replies l) w' /\ quiet w w' /\ wk w' = wk w1)).
        -- destruct (started e); [|by apply wp_ret]. apply wp_bind. eapply wp_mono; [by apply Hon|].
           intros a w2 Hw2. by apply wp_ret.
        -- intros [] w2 Hw2. apply wp_bind. eapply wp_mono; [by apply Hon|]. intros a w3 Hw3. by apply wp_ret.
      * intros [] w2 (Hg2 & Hq2 & Hwk2). eapply wp_mono; [apply wp_and; [apply (remove_container_good (replies l)); [done|by apply Hx1]|apply remove_container_quiet]|].
        intros [] w3 [(Hg3 & _ & Hc3) Hq3]. split_and!; [done|by etrans|]. intros s'. rewrite Hc3, Hwk2.
        intros [e' [Hne He']%lookup_delete_Some]. assert (Hin : s' ∈ ((s, e) :: k).*1) by (apply Hk1; by exists e').
        cbn in Hin. apply elem_of_cons in Hin as [->|]; done.
  - intros [] w1 (Hg1 & Hq1 & Hk1). split_and!; [done..|]. apply map_empty. intros s.
    destruct (containers (wk w1) !! s) as [e|] eqn:He; [|done].
    assert (Hin : s ∈ ([] : list (string * ContainerEntry)).*1) by (apply Hk1; by rewrite He). by apply elem_of_nil in Hin.
Qed.

(** ** Boots nobody waits for *)

Lemma booting_leases_sum p (m : gmap string PendingSession) :
  sum_list_with p (stored_leases (iter m)) = msum (booting_lease p) m.
Proof.
  unfold stored_leases. rewrite sum_list_with_bind. rewrite <- msum_iter. apply sum_list_with_ext.
  intros [r q] _. unfold booting_lease. cbn. by destruct (booting_store q).
Qed.

Lemma occ_stored (m : gmap string PendingSession) r : occ r (stored_leases (iter m)).*1 = with_store m r.
Proof.
  unfold occ. rewrite sum_list_with_fmap, booting_leases_sum.
  assert (Hz : forall m', m' !! r = None ->
    msum (booting_lease (fun l => Nat.b2n (bool_decide (r = l.1)))) m' = 0).
  { intros m' Hm. apply Nat.le_0_r, Nat.nlt_ge. intros (k & y & Hk & Hpos)%msum_pos. unfold booting_lease in Hpos.
    destruct (booting_store y); cbn in Hpos; [|lia]. case_bool_decide; [congruence|cbn in Hpos; lia]. }
  unfold with_store. destruct (m !! r) as [p|] eqn:Hp.
  - rewrite (msum_delete _ _ _ _ Hp), Hz by apply lookup_delete_eq. unfold booting_lease, has_store. cbn.
    destruct (booting_store p); cbn; [by rewrite bool_decide_true|done].
  - by apply Hz.
Qed.

Lemma silent_sum p w : silent w -> msum (booting_w p) (pending_sessions (wk w)) = 0.
Proof.
  intros Hs. apply Nat.le_0_r, Nat.nlt_ge. intros (k & y & Hk & Hpos)%msum_pos. unfold booting_w in Hpos.
  rewrite (Hs _ _ Hk) in Hpos. cbn in Hpos. lia.
Qed.

Lemma with_store_le (m : gmap string PendingSession) r : with_store m r <= present m r.
Proof.
  unfold with_store, present. destruct (m !! r) as [p|].
  - rewrite bool_decide_true by done. cbn. destruct (has_store p); cbn; lia.
  - cbn. lia.
Qed.

Lemma forget_pending_inv l w :
  silent w -> inv (replies l) w ->
  let leases := stored_leases (iter (pending_sessions (wk w))) in
  inv (replies l) (set_wk (set_pending_sessions ∅ (wk w)) (log_lost_boots leases.*1 (log_forgotten leases w))).
Proof.
  cbv zeta. intros Hsil Hi. assert (Hnone : forall r, present (∅ : gmap string PendingSession) r = 0)
    by (intros r; apply present_None, lookup_empty).
  constructor; cbn; try apply Hi.
  - intros p. pose proof (inv_replies _ _ Hi p) as Hp. unfold held in *; cbn in *.
    rewrite (silent_sum p w Hsil) in Hp. rewrite msum_empty. lia.
  - intros r. pose proof (inv_boots _ _ Hi r) as Hr. cbn in Hr. rewrite occ_app, occ_stored.
    rewrite (with_store_None ∅) by apply lookup_empty. lia.
  - intros i. pose proof (inv_slots _ _ Hi i) as Hs. unfold leases in *; cbn in *.
    rewrite sum_list_with_app, booting_leases_sum, msum_empty. lia.
  - intros r i Hv. pose proof (inv_vms _ _ Hi r i Hv) as Hs. unfold leases in *; cbn in *.
    rewrite sum_list_with_app, booting_leases_sum, msum_empty. lia.
  - intros r. pose proof (inv_refs _ _ Hi r) as Hr. unfold refs in *; cbn in *.
    rewrite fmap_app, occ_app, occ_stored, Hnone. pose proof (with_store_le (pending_sessions (wk w)) r). lia.
  - intros r Hr. apply (inv_known _ _ Hi). unfold refs in *; cbn in *.
    rewrite fmap_app, occ_app, occ_stored, Hnone in Hr. pose proof (with_store_le (pending_sessions (wk w)) r). lia.
  - intros r Hr%(inv_leaked _ _ Hi). rewrite fmap_app. apply elem_of_app. by right.
  - intros r p Hp. by rewrite lookup_empty in Hp.
  - intros r p Hp. by rewrite lookup_empty in Hp.
Qed.

Lemma clear_pending_inv l w :
  silent w -> (forall r, with_store (pending_sessions (wk w)) r = 0) -> inv (replies l) w ->
  inv (replies l) (set_wk (set_pending_sessions ∅ (wk w)) w).
Proof.
  intros Hsil Hst Hi.
  assert (Hnil : stored_leases (iter (pending_sessions (wk w))) = []).
  { destruct (stored_leases _) as [|[r i] k] eqn:Hk; [done|exfalso]. pose proof (occ_stored (pending_sessions (wk w)) r) as Ho.
    rewrite Hk, Hst in Ho. cbn in Ho. rewrite occ_cons, bool_decide_true in Ho by done. cbn in Ho. lia. }
  pose proof (forget_pending_inv _ _ Hsil Hi) as Hf. cbn in Hf. rewrite Hnil in Hf. exact Hf.
Qed.

(** ** Sessions *)

(** The containers, the pulls' clients, the runs and the boots are settled;
    unless something was abandoned, nothing was leaked either. *)
Record tidy h (abandoned : bool) w : Prop := MkTidy {
  tidy_inv : inv h w;
  tidy_loaded : sdk_unloaded w = false;
  tidy_containers : containers (wk w) = ∅;
  tidy_pending : pending (wk w) = ∅;
  tidy_execs : exec_in_flight (wk w) = ∅;
  tidy_booting : pending_sessions (wk w) = ∅;
  tidy_runs : runs w = [];
  tidy_kept : abandoned = false -> boots w = [] /\ lost_boots w = [] /\ leaked w = [];
}.

Lemma steady_runs_nil w w' : steady w w' -> runs w = [] -> runs w' = [].
Proof. intros Hst. by apply quiet_length_nil, steady_quiet. Qed.

Lemma steady_boots_nil w w' : steady w w' -> boots w = [] -> boots w' = [].
Proof. intros Hst. by apply quiet_boots_nil, steady_quiet. Qed.

Lemma tidy_steady h abandoned w w' : tidy h abandoned w -> steady w w' -> inv h w' -> tidy h abandoned w'.
Proof.
  intros Ht Hst Hi. pose proof (steady_wk _ _ Hst) as Hwk. destruct Ht.
  constructor; rewrite ?Hwk; try done.
  - by rewrite (steady_unloaded _ _ Hst).
  - by eapply steady_runs_nil.
  - intros Ha. rewrite (steady_lost_boots _ _ Hst), (steady_leaked _ _ Hst). destruct (tidy_kept0 Ha) as (? & ? & ?).
    split_and!; [by eapply steady_boots_nil|done..].
Qed.

Lemma tidy_weaken h (a b : bool) w : tidy h a w -> (b = false -> a = false) -> tidy h b w.
Proof. intros [] Hab. constructor; auto. Qed.

Lemma tidy_call {A} (c : Call A) h abandoned w :
  tidy h abandoned w -> wp (call sched c) (fun _ w' => tidy h abandoned w' /\ steady w w') w.
Proof.
  intros Ht. eapply (wp_call_raw sched sched_ok); [apply Ht|]. intros w1 Hi1 Hst.
  assert (Hst1 : steady w1 (set_ext (ask c (ext w1)).2 w1)) by apply set_ext_steady, ask_drawn_mono.
  assert (Hst2 : steady w (set_ext (ask c (ext w1)).2 w1)) by by etrans. split; [|done].
  eapply tidy_steady; [exact Ht|done|]. apply set_ext_inv; [apply ask_drawn_mono|done].
Qed.

(** A wait lets the threads run; it answers whether the counter is zero. *)
Lemma wp_wait h w in_flight (Q : bool -> World E -> Prop) :
  inv h w -> (forall w', inv h w' -> steady w w' -> Q (in_flight w' =? 0) w') ->
  wp (wait_for_in_flight sched in_flight) Q w.
Proof.
  intros Hi HQ. destruct (thread_steps w (sched w) (sched_ok w)) as [Hst Hinv].
  unfold wait_for_in_flight. apply wp_bind, wp_modify, wp_bind, wp_gets, wp_ret. by apply HQ; [apply Hinv|].
Qed.

(** A session is taken out while its pulls may still run. *)
Lemma take_busy_inv h w r e :
  sessions (wk w) !! r = Some e -> containers (wk w) = ∅ -> pending (wk w) = ∅ -> runs w = [] -> inv h w ->
  inv (and_lease r (StoreSlots.index (store e)) (and_sess r h))
    (set_wk (set_sessions (delete r (sessions (wk w))) (wk w)) w).
Proof.
  intros Hl Hc Hp Hr Hi. constructor; cbn; try apply Hi; unfold leases, refs; cbn.
  - intros i. pose proof (inv_slots _ _ Hi i) as Hs. unfold leases in Hs.
    rewrite (msum_delete _ _ _ _ Hl) in Hs. unfold session_lease at 1 in Hs. lia.
  - intros r' i Hv. pose proof (inv_vms _ _ Hi r' i Hv) as Hs. unfold leases in Hs.
    rewrite (msum_delete _ _ _ _ Hl) in Hs. unfold session_lease at 1 in Hs. lia.
  - intros r'. pose proof (inv_refs _ _ Hi r') as Hr'. unfold refs in Hr'. rewrite present_delete, occ_cons.
    destruct (decide (r' = r)) as [->|Hne].
    + rewrite (present_Some _ _ _ Hl) in Hr'. rewrite bool_decide_true by done. cbn. lia.
    + rewrite bool_decide_false by done. cbn. lia.
  - intros r' Hr'. apply (inv_known _ _ Hi). unfold refs. rewrite present_delete, occ_cons in Hr'.
    destruct (decide (r' = r)) as [->|Hne]; [rewrite (present_Some _ _ _ Hl); lia|].
    rewrite bool_decide_false in Hr' by done. cbn in Hr'. lia.
  - intros t Ht. rewrite Hr in Ht. by apply elem_of_nil in Ht.
  - intros t Ht. destruct (decide (pull_session t = r)) as [->|Hne]; [do 2 right; left|].
    rewrite lookup_delete_ne by done. destruct (inv_pull_use _ _ Hi t Ht) as [?|[?|?]]; auto. do 2 right. by right.
  - intros s x Hx. by rewrite Hc, lookup_empty in Hx.
  - intros t p Ht. by rewrite Hp, lookup_empty in Ht.
  - intros r' [e' He']. apply lookup_delete_Some in He' as [_ He']. apply (inv_sdk_sessions _ _ Hi r'). by exists e'.
Qed.

(** Its pulls have ended. *)
Lemma drained_inv h w r i :
  inv (and_lease r i (and_sess r h)) w -> pulls_in_flight r w = 0 -> inv (and_lease r i (and_ref r h)) w.
Proof.
  intros Hi Hp. constructor; cbn; try apply Hi.
  - intros r'. pose proof (inv_refs _ _ Hi r') as Hr. cbn in *. rewrite occ_cons in *. lia.
  - intros r' Hr. apply (inv_known _ _ Hi). cbn in *. rewrite occ_cons in *. lia.
  - intros t Ht. destruct (inv_pull_use _ _ Hi t Ht) as [?|[?|Hin]]; auto. apply elem_of_cons in Hin as [Heq|]; [|by auto].
    destruct (filter_length_0 (fun t => pull_session t = r) _ Hp _ Ht). done.
Qed.

(** They have not: the session is leaked. *)
Lemma leak_inv h w r i :
  inv (and_lease r i (and_sess r h)) w -> inv h (log_leaked [r] (log_forgotten [(r, i)] w)).
Proof.
  intros Hi. constructor; cbn; try apply Hi.
  - intros j. pose proof (inv_slots _ _ Hi j) as Hs. unfold leases in *; cbn in *. lia.
  - intros r' j Hv. pose proof (inv_vms _ _ Hi r' j Hv) as Hs. unfold leases in *; cbn in *. lia.
  - intros r'. pose proof (inv_refs _ _ Hi r') as Hr. unfold refs in *; cbn in *. rewrite occ_cons in *. lia.
  - intros r' Hr'. apply (inv_known _ _ Hi). unfold refs in *; cbn in *. rewrite occ_cons in *. lia.
  - intros t Ht Hp. destruct (inv_run_session _ _ Hi t Ht Hp); [by left|right; by right].
  - intros t Ht. destruct (inv_pull_use _ _ Hi t Ht) as [?|[?|Hin]]; [by left|right; left; by right|].
    apply elem_of_cons in Hin as [->|]; [right; left; left|by auto].
  - intros r' [->|Hr']%elem_of_cons; [left|]. apply (inv_leaked _ _ Hi) in Hr'. by right.
Qed.

(** The hand that holds the drained sessions. *)
Fixpoint and_drained (l : list (string * SessionEntry)) h : Hand :=
  match l with
  | [] => h
  | (r, e) :: l => and_lease r (StoreSlots.index (store e)) (and_ref r (and_drained l h))
  end.

Lemma and_drained_swap r i l h w :
  inv (and_drained l (and_lease r i (and_ref r h))) w -> inv (and_lease r i (and_ref r (and_drained l h))) w.
Proof.
  set (h1 := and_drained l _). set (h2 := and_lease r i _).
  assert (Heq : h_replies h2 = h_replies h1 /\ h_boots h2 = h_boots h1 /\ h_runs h2 = h_runs h1 /\
    h_pend h2 = h_pend h1 /\ h_leases h2 ≡ₚ h_leases h1 /\ h_refs h2 ≡ₚ h_refs h1 /\ h_sess h2 = h_sess h1).
  { unfold h1, h2. clear. induction l as [|[r' e] l IH]; cbn in *; [done|].
    destruct IH as (? & ? & ? & ? & IHl & IHr & ?). split_and!; try done; etrans; [apply Permutation_swap|by f_equiv|
      apply Permutation_swap|by f_equiv]. }
  destruct Heq as (H1 & H2 & H3 & H4 & H5 & H6 & H7). intros Hi.
  assert (Hocc : forall r', occ r' (h_refs h2) = occ r' (h_refs h1)) by (intros r'; unfold occ; by rewrite H6).
  constructor; try apply Hi; rewrite ?H1, ?H2, ?H3, ?H4, ?H7; try apply Hi.
  - intros j. rewrite H5. apply Hi.
  - intros r' j. rewrite H5. apply Hi.
  - intros r'. rewrite Hocc. apply Hi.
  - intros r'. rewrite Hocc. apply Hi.
Qed.

Lemma drain_pulls_good h all abandoned w :
  tidy h abandoned w -> NoDup all.*1 -> (forall r e, (r, e) ∈ all <-> sessions (wk w) !! r = Some e) ->
  wp (drain_pulls sched all abandoned) (fun res w' => tidy (and_drained res.1 h) res.2 w' /\ sessions (wk w') = ∅) w.
Proof.
  revert h abandoned w. induction all as [|[r e] all IH]; intros h abandoned w Ht Hnd Hall; cbn [drain_pulls].
  { apply wp_ret. split; [done|]. apply map_empty. intros r. destruct (sessions (wk w) !! r) as [e|] eqn:He; [|done].
    apply Hall in He. by apply elem_of_nil in He. }
  apply wp_bind, wp_update. inversion Hnd as [|? ? Hfresh Hnd' Heq]; subst. clear Hnd.
  assert (Hl : sessions (wk w) !! r = Some e) by (apply Hall; left).
  pose proof (take_busy_inv _ _ _ _ Hl (tidy_containers _ _ _ Ht) (tidy_pending _ _ _ Ht) (tidy_runs _ _ _ Ht)
    (tidy_inv _ _ _ Ht)) as Hi1.
  set (w1 := set_wk _ w) in *. apply wp_bind, (wp_wait _ _ _ _ Hi1). intros w2 Hi2 Hst.
  assert (Hall2 : forall r' e', (r', e') ∈ all <-> sessions (wk w2) !! r' = Some e').
  { intros r' e'. rewrite (steady_wk _ _ Hst). cbn. rewrite lookup_delete_Some, <- Hall, elem_of_cons. split.
    - intros Hin. split; [|by right]. intros ->. apply Hfresh, list_elem_of_fmap. by exists (r', e').
    - intros [Hne [Heq|]]; [congruence|done]. }
  assert (Ht2 : forall h', inv h' w2 -> tidy h' abandoned w2).
  { intros h' Hi. destruct Ht. constructor; rewrite ?(steady_wk _ _ Hst); try done.
    - by rewrite (steady_unloaded _ _ Hst).
    - by eapply (steady_runs_nil w1).
    - intros Ha. destruct (tidy_kept0 Ha) as (? & ? & ?). rewrite (steady_lost_boots _ _ Hst), (steady_leaked _ _ Hst).
      split_and!; [by eapply (steady_boots_nil w1)|done..]. }
  destruct (pulls_in_flight r w2 =? 0) eqn:Hz.
  - apply Nat.eqb_eq in Hz. apply wp_bind. eapply wp_mono; [eapply IH; [apply Ht2, drained_inv; [exact Hi2|done]|done..]|].
    intros [rest ab] w3 [Ht3 Hs3]. cbn [fst snd] in *. apply wp_ret. split; [|done]. cbn [fst snd and_drained].
    destruct Ht3. constructor; try done. by apply and_drained_swap.
  - apply wp_bind, wp_modify. eapply wp_mono; [eapply (IH h true); [|done|exact Hall2]|done].
    pose proof (Ht2 _ Hi2) as Ht3. destruct Ht3. constructor; try done. by apply leak_inv.
Qed.

Lemma release_during_shutdown_tidy h abandoned w r s store name :
  tidy (and_lease r (StoreSlots.index store) (and_ref r h)) abandoned w ->
  wp (release_during_shutdown sched r s (Some store) name) (fun left w' =>
    tidy h (abandoned || left) w' /\ wk w' = wk w) w.
Proof.
  intros Ht. unfold release_during_shutdown, release_or_leak, start_session_release.
  apply wp_bind, wp_bind. eapply wp_mono; [by apply tidy_call|]. intros [[]|er] w1 [Ht1 Hst1].
  - apply wp_bind, wp_modify, wp_ret, wp_ret. rewrite orb_false_r. split; [|by rewrite <- (steady_wk _ _ Hst1)].
    destruct Ht1. constructor; try done. apply start_release_inv; [|done]. exact tidy_inv0.
  - apply wp_bind, wp_ret, wp_ret, wp_bind, wp_modify, wp_ret. split; [|by rewrite <- (steady_wk _ _ Hst1)].
    rewrite orb_true_r. destruct Ht1. constructor; try done. by apply forget_inv.
Qed.

Lemma release_drained_good h l abandoned w :
  tidy (and_drained l h) abandoned w ->
  wp (release_drained sched l abandoned) (fun left w' => tidy h left w' /\ wk w' = wk w) w.
Proof.
  revert abandoned w. induction l as [|[r e] l IH]; intros abandoned w Ht; cbn [release_drained]; [by apply wp_ret|].
  apply wp_bind. eapply wp_mono; [by apply release_during_shutdown_tidy|]. intros left w1 [Ht1 Hwk1].
  eapply wp_mono; [by apply IH|]. intros left' w2 [Ht2 Hwk2]. split; [done|congruence].
Qed.

(** ** The end *)

(** What a shutdown leaves: the worker owns nothing. *)
Record over l w : Prop := MkOver {
  over_inv : inv (replies l) w;
  over_containers : containers (wk w) = ∅;
  over_pending : pending (wk w) = ∅;
  over_execs : exec_in_flight (wk w) = ∅;
  over_booting : pending_sessions (wk w) = ∅;
  over_sessions : sessions (wk w) = ∅;
  over_sdk : sdk (wk w) = false;
  over_reports r s : sdk_unloaded w = true -> SessionBooted r (Ok s) ∉ queue w;
}.

Lemma drop_sdk_inv h w :
  sessions (wk w) = ∅ -> pending_sessions (wk w) = ∅ -> inv h w -> inv h (set_wk (set_sdk false (wk w)) w).
Proof.
  intros Hs Hp Hi. constructor; cbn; try apply Hi.
  - intros r [e He]. by rewrite Hs, lookup_empty in He.
  - intros r p He. by rewrite Hp, lookup_empty in He.
Qed.

Lemma forallb_nil {A} (f : A -> bool) l : l = [] -> forallb f l = true.
Proof. by intros ->. Qed.

(** Nothing can use the SDK any more. *)
Lemma tidy_idle l w :
  tidy (replies l) false w -> sessions (wk w) = ∅ -> releases w = [] -> pulls w = [] /\ sdk_idle w = true.
Proof.
  intros Ht Hs Hr. destruct (tidy_kept _ _ _ Ht eq_refl) as (Hb & Hlb & Hlk). pose proof (tidy_inv _ _ _ Ht) as Hi.
  assert (Hp : pulls w = []).
  { destruct (pulls w) as [|t ts] eqn:Hp; [done|exfalso]. destruct (inv_pull_use _ _ Hi t) as [[e He]|[Hin|Hin]].
    - rewrite Hp. left.
    - by rewrite Hs, lookup_empty in He.
    - rewrite Hlk in Hin. by apply elem_of_nil in Hin.
    - by apply elem_of_nil in Hin. }
  split; [done|]. unfold sdk_idle. rewrite Hb, Hp, Hr, (tidy_runs _ _ _ Ht), (tidy_containers _ _ _ Ht), Hs.
  rewrite !bool_decide_true by done. rewrite !andb_true_r. cbn. apply forallb_forall. intros c Hc.
  apply list_elem_of_In in Hc. destruct c as [ | | | |r [s|f]| | | | | | ]; try done. exfalso.
  pose proof (inv_boots _ _ Hi r) as Hr'. rewrite Hb, Hlb, (tidy_booting _ _ _ Ht) in Hr'.
  rewrite with_store_None in Hr' by apply lookup_empty. cbn in Hr'. unfold occ in Hr'. cbn in Hr'.
  apply list_elem_of_split in Hc as (q1 & q2 & Hq). rewrite Hq, sum_with_mid in Hr'. unfold boot_report at 2 in Hr'.
  rewrite bool_decide_true in Hr' by done. cbn in Hr'. lia.
Qed.

Lemma unload_inv h w :
  inv h w -> boots w = [] -> pulls w = [] -> runs w = [] -> releases w = [] -> inv h (unload_sdk w).
Proof. intros Hi Hb Hp Hr Hl. constructor; cbn; try apply Hi. intros _. rewrite Hb, Hp, Hr, Hl. split_and!; constructor. Qed.

Lemma unload_over l w :
  tidy (replies l) false w -> sessions (wk w) = ∅ -> releases w = [] ->
  over l (let w := set_wk (set_sdk false (wk w)) w in unload_sdk (expect_that (sdk_idle w) SdkInUse w)).
Proof.
  intros Ht Hs Hr. destruct (tidy_idle _ _ Ht Hs Hr) as [Hp Hidle]. cbv zeta.
  change (sdk_idle (set_wk (set_sdk false (wk w)) w)) with (sdk_idle w). rewrite Hidle. cbn [expect_that].
  destruct (tidy_kept _ _ _ Ht eq_refl) as (Hb & _ & _). destruct Ht.
  constructor; cbn; try done; [apply unload_inv; try done; by apply drop_sdk_inv|].
  intros r s _ Hin. unfold sdk_idle in Hidle. rewrite !andb_true_iff in Hidle.
  destruct Hidle as [[[_ Hq] _] _]. rewrite forallb_forall in Hq. by apply list_elem_of_In, Hq in Hin.
Qed.

Lemma abandon_over l abandoned w :
  tidy (replies l) abandoned w -> sessions (wk w) = ∅ -> over l (set_wk (set_sdk false (wk w)) w).
Proof. intros [] Hs. constructor; cbn; try done; [by apply drop_sdk_inv|]. intros r s Hu. congruence. Qed.

Lemma good_steady h w w' : good h w -> steady w w' -> inv h w' -> good h w'.
Proof. intros [_ Hc] Hst Hi. split; [done|by eapply calm_steady]. Qed.

Lemma quiet_no_containers w w' : quiet w w' -> containers (wk w) = ∅ -> containers (wk w') = ∅.
Proof. intros Hq Hc. apply map_empty. intros s. apply (quiet_containers _ _ Hq). by rewrite Hc, lookup_empty. Qed.

Lemma clear_nothing l w : (forall r, with_store (pending_sessions (wk w)) r = 0) ->
  silent w -> good (replies l) w ->
  wp clear_pending_sessions (fun _ w' => w' = set_wk (set_pending_sessions ∅ (wk w)) w /\ good (replies l) w') w.
Proof.
  intros Hst Hsil [Hi Hc]. unfold clear_pending_sessions. apply wp_bind, wp_self, wp_bind, wp_update.
  set (w1 := set_wk _ w).
  assert (Hnone : Forall (fun e => booting_store e.2 = None) (iter (pending_sessions (wk w)))).
  { apply Forall_forall. intros [r p] Hin. apply elem_of_iter in Hin. specialize (Hst r). unfold with_store in Hst.
    rewrite Hin in Hst. unfold has_store in Hst. cbn in *. by destruct (booting_store p). }
  assert (Hg1 : good (replies l) w1) by (split; [by apply clear_pending_inv|by destruct Hc]).
  clearbody w1. induction Hnone as [|e k He _ IH]; cbn [for_each]; [by apply wp_ret|].
  apply wp_bind. rewrite He. by apply wp_ret.
Qed.

(** The boots are settled: their reports are collected, or they are leaked. *)
Lemma settle_boots_good l left_running w :
  good (replies l) w -> silent w -> containers (wk w) = ∅ -> pending (wk w) = ∅ ->
  exec_in_flight (wk w) = ∅ -> runs w = [] ->
  wp (booted ← wait_for_in_flight sched sessions_in_flight;
      if (booted : bool) then
        fuel ← gets messages;
        abandoned ← drain_boots sched fuel left_running;
        _ ← clear_pending_sessions;
        mret abandoned
      else _ ← forget_pending_sessions; mret true) (fun abandoned => tidy (replies l) abandoned) w.
Proof.
  intros Hg Hsil Hct Hp Hx Hr. apply wp_bind, (wp_wait _ _ _ _ (proj1 Hg)). intros w1 Hi1 Hst.
  pose proof (steady_quiet _ _ Hst) as Hq1. pose proof (good_steady _ _ _ Hg Hst Hi1) as Hg1.
  pose proof (silent_quiet _ _ Hsil Hq1) as Hsil1. rewrite <- (steady_wk _ _ Hst) in Hct, Hp, Hx.
  apply (steady_runs_nil _ _ Hst) in Hr. clear w Hg Hsil Hst Hq1.
  destruct (sessions_in_flight w1 =? 0) eqn:Hz.
  - apply Nat.eqb_eq, nil_length_inv in Hz. apply wp_bind, wp_gets, wp_bind.
    eapply wp_mono; [by apply (drain_boots_good l)|]. intros abandoned w2 (Hg2 & Hq2 & Hs2). apply wp_bind.
    eapply wp_mono; [apply clear_nothing; [done|by eapply silent_quiet|done]|]. intros [] w3 [-> Hg3]. apply wp_ret.
    destruct Hg3 as [Hi3 Hc3]. constructor; cbn; try done; try apply Hc3.
    + by eapply quiet_no_containers.
    + by rewrite (quiet_pending _ _ Hq2).
    + by eapply quiet_no_execs.
    + by eapply quiet_length_nil.
    + intros _. split_and!; [by eapply quiet_boots_nil|apply Hc3..].
  - apply wp_bind. unfold forget_pending_sessions. apply wp_bind, wp_self, wp_bind, wp_modify, wp_update, wp_ret.
    constructor; cbn; try done; [|apply (proj2 Hg1)]. by apply (forget_pending_inv l w1).
Qed.

Lemma wp_bind_inv {A B} (m : stateful (World E) Panic A) (k : A -> stateful (World E) Panic B) Q w :
  wp (a ← m; k a) Q w -> wp m (fun a => wp (k a) Q) w.
Proof. unfold wp, mbind, stateful_bind. by destruct (m w) as [[a|p] w']. Qed.

Lemma release_sessions_good l left_running w :
  good (replies l) w -> silent w -> containers (wk w) = ∅ -> pending (wk w) = ∅ ->
  exec_in_flight (wk w) = ∅ -> runs w = [] ->
  wp (release_sessions_for_shutdown sched left_running) (fun _ => over l) w.
Proof.
  intros Hg Hsil Hct Hp Hx Hr.
  pose proof (settle_boots_good l left_running w Hg Hsil Hct Hp Hx Hr) as Hboots. unfold release_sessions_for_shutdown.
  apply wp_bind. apply wp_bind_inv in Hboots. eapply wp_mono; [exact Hboots|]. clear Hboots. intros booted w1 Hboots.
  apply wp_bind. eapply wp_mono; [exact Hboots|]. clear - sched_ok. intros abandoned w Ht. apply wp_bind, wp_self, wp_bind.
  eapply wp_mono; [apply (drain_pulls_good (replies l)); [exact Ht|apply iter_NoDup|intros r e; apply elem_of_iter]|].
  intros [drained ab1] w1 [Ht1 Hs1]. cbn [fst snd] in *. apply wp_bind. eapply wp_mono; [by apply tidy_call|].
  intros now w2 [Ht2 Hst2]. rewrite <- (steady_wk _ _ Hst2) in Hs1. apply wp_bind.
  eapply wp_mono; [by apply (release_drained_good (replies l))|]. intros ab2 w3 [Ht3 Hwk3]. rewrite <- Hwk3 in Hs1.
  apply wp_bind, (wp_wait _ _ _ _ (tidy_inv _ _ _ Ht3)). intros w4 Hi4 Hst4.
  pose proof (tidy_steady _ _ _ _ Ht3 Hst4 Hi4) as Ht4. rewrite <- (steady_wk _ _ Hst4) in Hs1.
  apply wp_bind, wp_update. destruct (ab2 || _) eqn:Hab.
  - apply wp_ret. by eapply abandon_over.
  - apply orb_false_iff in Hab as [-> Hz]. apply negb_false_iff, Nat.eqb_eq, nil_length_inv in Hz.
    apply wp_modify. by apply (unload_over l w4).
Qed.

Lemma forget_sessions_inv l w :
  containers (wk w) = ∅ -> pending (wk w) = ∅ -> inv (replies l) w ->
  let all := iter (sessions (wk w)) in
  inv (replies l) (set_wk (set_sessions ∅ (wk w)) (log_leaked all.*1
    (log_forgotten ((fun e => (e.1, StoreSlots.index (store e.2))) <$> all) w))).
Proof.
  cbv zeta. intros Hc Hp Hi.
  assert (Hsum : forall p, sum_list_with p ((fun e => (e.1, StoreSlots.index (store e.2))) <$> iter (sessions (wk w)))
                           = msum (session_lease p) (sessions (wk w))).
  { intros p. rewrite sum_list_with_fmap, <- msum_iter. by apply sum_list_with_ext. }
  assert (Hkeys : ((fun e : string * SessionEntry => (e.1, StoreSlots.index (store e.2))) <$> iter (sessions (wk w))).*1
                  = (iter (sessions (wk w))).*1).
  { rewrite <- list_fmap_compose. by apply list_fmap_ext. }
  assert (Hin : forall r, is_Some (sessions (wk w) !! r) -> r ∈ (iter (sessions (wk w))).*1).
  { intros r [e He]. apply list_elem_of_fmap. exists (r, e). split; [done|by apply elem_of_iter]. }
  assert (Hnone : forall r, present (∅ : gmap string SessionEntry) r = 0)
    by (intros r; apply present_None, lookup_empty).
  constructor; cbn; try apply Hi.
  - intros i. pose proof (inv_slots _ _ Hi i) as Hs. unfold leases in *; cbn in *.
    rewrite sum_list_with_app, Hsum, msum_empty. lia.
  - intros r i Hv. pose proof (inv_vms _ _ Hi r i Hv) as Hs. unfold leases in *; cbn in *.
    rewrite sum_list_with_app, Hsum, msum_empty. lia.
  - intros r. pose proof (inv_refs _ _ Hi r) as Hr. unfold refs in *; cbn in *.
    rewrite fmap_app, occ_app, Hkeys, occ_keys, Hnone. lia.
  - intros r Hr. apply (inv_known _ _ Hi). unfold refs in *; cbn in *.
    rewrite fmap_app, occ_app, Hkeys, occ_keys, Hnone in Hr. lia.
  - intros t Ht Hrun. right. apply elem_of_app. destruct (inv_run_session _ _ Hi t Ht Hrun) as [?|?]; auto.
  - intros t Ht. right; left. apply elem_of_app. destruct (inv_pull_use _ _ Hi t Ht) as [?|[?|H]]; auto.
    by apply elem_of_nil in H.
  - intros r. rewrite fmap_app, Hkeys, !elem_of_app. intros [?|?%(inv_leaked _ _ Hi)]; auto.
  - intros s e He. by rewrite Hc, lookup_empty in He.
  - intros t p Ht. by rewrite Hp, lookup_empty in Ht.
  - intros r [e He]. by rewrite lookup_empty in He.
Qed.

Lemma forget_containers_inv h w :
  exec_in_flight (wk w) = ∅ -> inv h w -> inv h (set_wk (set_containers ∅ (wk w)) w).
Proof.
  intros Hx Hi. constructor; cbn; try apply Hi.
  - intros s x He. by rewrite Hx, lookup_empty in He.
  - intros s e He. by rewrite lookup_empty in He.
Qed.

Lemma forget_all_over l w :
  inv (replies l) w -> sdk_unloaded w = false -> silent w -> pending (wk w) = ∅ -> exec_in_flight (wk w) = ∅ ->
  wp (_ ← update (set_containers ∅); _ ← forget_sessions; _ ← forget_pending_sessions; update (set_sdk false))
    (fun _ => over l) w.
Proof.
  intros Hi Hu Hsil Hp Hx. apply (forget_containers_inv _ _ Hx) in Hi. apply wp_bind, wp_update.
  apply wp_bind. unfold forget_sessions at 1. apply wp_bind, wp_self, wp_bind, wp_modify, wp_update.
  apply forget_sessions_inv in Hi; [|done..]. cbv zeta in Hi.
  apply wp_bind. unfold forget_pending_sessions at 1. apply wp_bind, wp_self, wp_bind, wp_modify, wp_update.
  apply forget_pending_inv in Hi; [|done]. cbv zeta in Hi. apply drop_sdk_inv in Hi; [|done..].
  apply wp_update. constructor; try done. cbn. congruence.
Qed.

Lemma no_more_unreported l w :
  good (replies l) w -> exec_in_flight (wk w) = ∅ ->
  wp answer_unreported (fun _ w' => good (replies l) w' /\ quiet w w' /\ runs w' = runs w) w.
Proof.
  intros [Hi Hc] Hx. eapply wp_mono; [by apply answer_unreported_spec|].
  intros [] w1 (Hi1 & w2 & -> & Hq & Hwk & Hr & Hb & Hl & Hlb & Hlr & Hu).
  assert (Hnil : iter (exec_in_flight (wk w)) = []).
  { apply Permutation_nil_r. rewrite (iter_permutation _ _ _), Hx. by rewrite map_to_list_empty. }
  split_and!.
  - split; [done|]. destruct Hc. constructor; [by rewrite Hlb|rewrite Hlr; cbn; by rewrite Hnil|by rewrite Hl|by rewrite Hu].
  - etrans; [|exact Hq]. constructor; cbn; try done. apply map_empty_subseteq.
  - done.
Qed.

Lemma shutdown_over l w : good (replies l) w -> wp (shutdown sched) (fun _ => over l) w.
Proof.
  intros Hg. unfold shutdown. apply wp_bind. eapply (wp_call sched sched_ok); [exact Hg|]. intros now w0 Hg0 _.
  apply wp_bind. eapply wp_mono; [by apply answer_waiting_good|]. clear w Hg w0 Hg0. intros [] w (Hg & Hp & Hsil).
  apply wp_bind, (wp_wait _ _ _ _ (proj1 Hg)). intros w1 Hi1 Hst. pose proof (steady_quiet _ _ Hst) as Hq1.
  pose proof (good_steady _ _ _ Hg Hst Hi1) as Hg1. pose proof (silent_quiet _ _ Hsil Hq1) as Hsil1.
  rewrite <- (quiet_pending _ _ Hq1) in Hp. clear w Hg Hsil Hst Hq1. destruct (execs_in_flight w1 =? 0) eqn:Hz.
  - apply Nat.eqb_eq, nil_length_inv in Hz. apply wp_bind, wp_bind, wp_gets.
    eapply wp_mono; [by apply (drain_execs_good l)|]. intros left_running w2 (Hg2 & Hq2 & Hx2).
    apply wp_bind. eapply wp_mono; [by apply no_more_unreported|]. intros [] w3 (Hg3 & Hq3 & Hr3). cbn [negb].
    apply wp_bind. pose proof (quiet_no_execs _ _ Hq3 Hx2) as Hx3.
    eapply wp_mono; [by apply release_containers_good|]. intros [] w4 (Hg4 & Hq4 & Hc4).
    assert (Hq14 : quiet w1 w4) by (etrans; [exact Hq2|]; by etrans).
    apply release_sessions_good; [done|by eapply silent_quiet|done| | |by eapply quiet_length_nil].
    + by rewrite (quiet_pending _ _ Hq14).
    + exact (quiet_no_execs _ _ Hq4 Hx3).
  - apply wp_bind, wp_ret, wp_bind. eapply wp_mono; [by apply answer_unreported_spec|].
    intros [] w2 (Hi2 & w3 & -> & Hq & Hwk & _ & _ & _ & _ & _ & Hu). cbn [negb].
    apply forget_all_over; [done|rewrite Hu; apply (calm_loaded _ (proj2 Hg1))| |by rewrite Hwk..]. intros r p. rewrite Hwk. apply Hsil1.
Qed.

(** ** One command *)

Lemma send_over x l a w : over (x :: l) w -> over l (log_sent x a w).
Proof. intros []. constructor; cbn; try done. by apply (log_sent_inv (replies l)). Qed.

Lemma serve_good l w cmd :
  good (and_cmd cmd (replies l)) w ->
  (forall r f, cmd = SessionBooted r (Err f) -> store_may_be_held f = false -> vms w !! r = None) ->
  wp (serve sched cmd) (fun go_on w' => if (go_on : bool) then good (replies l) w' else over l w') w.
Proof.
  intros Hg Hgone. destruct cmd as [config reply|r reply|config reply|work|r outcome|r back|token outcome|s report|s reply|reply|reply]; cbn [serve].
  - apply wp_bind. eapply wp_mono; [apply (begin_session_good sched sched_ok (reply :: l)); exact Hg|].
    intros [r|e] w1 [Hg1 Hr]; apply wp_bind.
    + destruct Hr as (p & Hl & Hab & Hn). eapply wp_mono; [by eapply attach_session_reply_good|]. intros [] w2 Hg2. by apply wp_ret.
    + eapply wp_mono; [by apply send_good|]. intros [] w2 Hg2. by apply wp_ret.
  - apply wp_bind. eapply wp_mono; [apply (release_session_op_good sched sched_ok l); exact Hg|]. intros [] w1 Hg1. by apply wp_ret.
  - apply wp_bind. eapply wp_mono; [apply (begin_provision_good sched sched_ok l); exact Hg|]. intros [] w1 Hg1. by apply wp_ret.
  - apply wp_bind. eapply wp_mono; [apply (dispatch_good sched sched_ok l); exact Hg|]. intros [] w1 Hg1. by apply wp_ret.
  - apply wp_bind. eapply wp_mono; [apply (finish_session_good sched sched_ok l); [exact Hg|]|].
    + intros f ->. by apply Hgone.
    + intros [] w1 Hg1. by apply wp_ret.
  - apply wp_bind. eapply wp_mono; [apply (finish_release_good sched sched_ok l); exact Hg|]. intros [] w1 Hg1. by apply wp_ret.
  - apply wp_bind. eapply wp_mono; [apply (finish_provision_good sched sched_ok l); exact Hg|]. intros [] w1 Hg1. by apply wp_ret.
  - apply wp_bind. eapply wp_mono; [apply (finish_exec_good sched sched_ok l); exact Hg|]. intros [] w1 Hg1. by apply wp_ret.
  - apply wp_bind. eapply wp_mono; [by apply retire_good|]. intros [] w1 Hg1.
    apply wp_bind. eapply wp_mono; [by apply (send_good reply l)|]. intros [] w2 Hg2. by apply wp_ret.
  - apply wp_bind. eapply wp_mono; [apply (reap_stuck_boots_good sched sched_ok (reply :: l)); exact Hg|]. intros [] w1 Hg1.
    apply wp_bind. eapply wp_mono; [by apply (reap_idle_sessions_good sched sched_ok (reply :: l))|]. intros [] w2 Hg2.
    apply wp_bind. eapply wp_mono; [by apply (start_deferred_boots_good sched sched_ok (reply :: l))|]. intros [] w3 Hg3.
    apply wp_bind, wp_self, wp_bind. eapply wp_mono; [by apply (send_good reply l)|]. intros [] w4 Hg4. by apply wp_ret.
  - apply wp_bind. eapply wp_mono; [apply (shutdown_over (reply :: l)); exact Hg|]. intros [] w1 Ho1.
    apply wp_bind, wp_modify, wp_ret. by apply send_over.
Qed.

Lemma serve_next_good w :
  good (replies []) w ->
  wp (serve_next sched) (fun go_on w' => if (go_on : bool) then good (replies []) w' else over [] w') w.
Proof.
  intros Hg. unfold serve_next. apply wp_bind, wp_try_recv; [by intros _; apply wp_ret|]. intros c q Hq.
  apply serve_good; [by apply pop_good|]. intros r f -> Hf. apply (inv_gone _ _ (proj1 Hg) r f); [rewrite Hq; left|done].
Qed.

End Teardown.
End WslcTeardown.
