(* ===== verification/WslcDaemon.v ===== *)
(** * The WSLC daemon: its runs

    The worker thread of [bin/wslc_daemon/session_manager.rs::spawn] serves its
    queue until [Shutdown] while clients send commands and the threads it
    started run.  [step] is one event of that system; the theorems hold in
    every state it can reach: the worker never panics nor misuses a handle, no
    two utility VMs share a store, every reply channel is accounted for, and a
    shutdown that was asked for is reached and leaves the worker with nothing. *)

From stdpp Require Import gmap.
From S2P Require Import Prelude Requests WslcSlots WslcTypes WslcWorld WslcWorker WslcInv WslcOps WslcTeardown.

#[local] Open Scope nat_scope.

Module WslcDaemon.
Export WslcTeardown.

(** The worker thread: in its loop, past it, or unwinding. *)
Inductive Status : Type :=
| Serving
| Ended
| Crashed (p : Panic).

(** What a client may send; the other commands are the threads' reports. *)
Definition from_client (cmd : WorkerCommand) : bool :=
  match cmd with
  | ProvisionSession _ _ | DeprovisionSession _ _ | Provision _ _ | Container _
  | Retire _ _ | ContainerCount _ | Shutdown _ => true
  | SessionBooted _ _ | SessionReleased _ _ | PullFinished _ _ | ExecFinished _ _ => false
  end.

Section Daemon.
Context {E : Type} `{!Env E}.
Implicit Types w : World E.

Definition fair (sched : World E -> World E) : Prop := forall w, rtc thread_step w (sched w).

Definition new_world (e : E) (root : string) : World E :=
  MkWorld _ Worker_new e (StoreSlots.with_root root) [] [] [] [] [] [] [] [] [] ∅ [] [] [] [] false [].

Definition status_after (r : result Panic bool) : Status :=
  match r with
  | Ok true => Serving
  | Ok false => Ended
  | Err p => Crashed p
  end.

(** A command that nobody will take: its reply channels go with it, and so does
    the handle of a session that was booted, whose release calls the SDK. *)
Definition discard (cmd : WorkerCommand) w : World E :=
  foldl (fun w reply => log_dropped reply WorkerGone w)
    (expect_that (negb (sdk_unloaded w && match cmd with SessionBooted _ (Ok _) => true | _ => false end)) SdkGone w)
    (cmd_replies cmd).

(** The receiver is dropped, and the commands in the channel with it. *)
Fixpoint drop_receiver (pending : list WorkerCommand) w : World E :=
  match pending with
  | [] => w
  | cmd :: pending => drop_receiver pending (discard cmd (set_queue pending w))
  end.

Definition hang_up w : World E := drop_receiver (queue w) w.

(** What is left when a command was served; a panic does not drop the channel
    before its handles are abandoned. *)
Definition left_behind (r : result Panic bool) w : World E :=
  match r with Ok false => hang_up w | _ => w end.

(** A client's reply channels are new; each command is served under some
    interleaving of the threads.  A client that sends while a command is served
    sends before or after it.  When the loop has ended its receiver is gone:
    what is in the channel then, or is sent later, is dropped. *)
Inductive step : Status * World E -> Status * World E -> Prop :=
| step_thread w w' : thread_step w w' -> step (Serving, w) (Serving, w')
| step_client w cmd :
    from_client cmd = true -> NoDup (cmd_replies cmd) -> (forall x, x ∈ cmd_replies cmd -> x ∉ issued w) ->
    step (Serving, w) (Serving, push cmd (log_issued (cmd_replies cmd) w))
| step_serve sched w r w' :
    fair sched -> serve_next sched w = (r, w') ->
    step (Serving, w) (status_after r, left_behind r w')
| step_late_thread w w' : thread_step w w' -> step (Ended, w) (Ended, hang_up w')
| step_late_client w cmd :
    from_client cmd = true -> NoDup (cmd_replies cmd) -> (forall x, x ∈ cmd_replies cmd -> x ∉ issued w) ->
    step (Ended, w) (Ended, hang_up (push cmd (log_issued (cmd_replies cmd) w))).

Definition reachable (e : E) (root : string) : Status * World E -> Prop := rtc step (Serving, new_world e root).

(** The reply channels in the worker's and the threads' hands. *)
Definition held_replies w : list ReplyId :=
  (queue w ≫= cmd_replies) ++ ((fun e => pending_reply e.2) <$> map_to_list (pending (wk w)))
  ++ (map_to_list (pending_sessions (wk w)) ≫= fun e => booting_replies e.2)
  ++ (map_to_list (exec_in_flight (wk w)) ≫= fun e => exec_replies e.2)
  ++ (releases w ≫= fun t => if is_running (releasing_phase t) then option_list (releasing_reply t) else []).

(** ** Every reachable state is well formed *)

(** The reports that were dropped unread. *)
Definition unread (boots runs : list string) : Hand := MkHand [] boots runs [] [] [] [].

Record closed w : Prop := MkClosed {
  closed_inv : exists boots runs, inv (unread boots runs) w;
  closed_queue : queue w = [];
  closed_containers : containers (wk w) = ∅;
  closed_pending : pending (wk w) = ∅;
  closed_execs : exec_in_flight (wk w) = ∅;
  closed_booting : pending_sessions (wk w) = ∅;
  closed_sessions : sessions (wk w) = ∅;
  closed_sdk : sdk (wk w) = false;
}.

Definition sound (st : Status * World E) : Prop :=
  match st.1 with
  | Serving => good (replies []) st.2
  | Ended => closed st.2
  | Crashed _ => False
  end /\ NoDup (issued st.2).

Lemma new_world_good e root : good (replies []) (new_world e root).
Proof.
  assert (Hz : forall A r, present (∅ : gmap string A) r = 0) by (intros A r; apply present_None, lookup_empty).
  split; [|by constructor]. constructor; cbn; try done; try (intros; by rewrite lookup_empty in *).
  - intros r. unfold refs; cbn. rewrite !Hz. unfold occ. cbn. lia.
  - intros r. unfold refs; cbn. rewrite !Hz. unfold occ. cbn. lia.
  - intros t Ht. by apply elem_of_nil in Ht.
  - intros t Ht. by apply elem_of_nil in Ht.
  - intros t Ht. by apply elem_of_nil in Ht.
  - intros x Hx. by apply elem_of_nil in Hx.
Qed.

Lemma client_inv h w cmd :
  from_client cmd = true -> inv h w -> inv h (push cmd (log_issued (cmd_replies cmd) w)).
Proof.
  intros Hc Hi. constructor; cbn; try apply Hi.
  - intros p. pose proof (inv_replies _ _ Hi p) as Hp. unfold held in *; cbn in *. rewrite sum_with_snoc.
    rewrite sum_list_with_app. unfold cmd_w at 2. lia.
  - intros s. pose proof (inv_runs _ _ Hi s) as Hs. rewrite sum_with_snoc. unfold exec_report at 2.
    destruct cmd; cbn in *; try done; lia.
  - intros r. pose proof (inv_boots _ _ Hi r) as Hs. rewrite sum_with_snoc. unfold boot_report at 2.
    destruct cmd; cbn in *; try done; lia.
  - intros r f Hin. apply (inv_gone _ _ Hi). apply elem_of_app in Hin as [?|Hin%list_elem_of_singleton]; [done|].
    by subst cmd.
Qed.

(** *** The receiver goes *)

Lemma drop_replies_inv h l w :
  inv (and_replies l h) w -> inv h (foldl (fun w reply => log_dropped reply WorkerGone w) w l).
Proof.
  revert w. induction l as [|x l IH]; intros w Hi; cbn; [by destruct h|]. by apply IH, log_dropped_inv.
Qed.

Lemma drop_replies_frame l w :
  let w' := foldl (fun w reply => log_dropped reply WorkerGone w) w l in
  wk w' = wk w /\ queue w' = queue w /\ issued w' = issued w /\ sdk_unloaded w' = sdk_unloaded w.
Proof. revert w. induction l as [|x l IH]; intros w; [done|]. cbn. by destruct (IH (log_dropped x WorkerGone w)) as (-> & -> & -> & ->). Qed.

Lemma discard_frame cmd w :
  wk (discard cmd w) = wk w /\ queue (discard cmd w) = queue w /\ issued (discard cmd w) = issued w /\
  sdk_unloaded (discard cmd w) = sdk_unloaded w.
Proof.
  unfold discard. destruct (drop_replies_frame (cmd_replies cmd) (expect_that (negb (sdk_unloaded w &&
    match cmd with SessionBooted _ (Ok _) => true | _ => false end)) SdkGone w)) as (-> & -> & -> & ->).
  by destruct (negb _).
Qed.

Lemma discard_inv boots runs cmd w :
  inv (and_cmd cmd (unread boots runs)) w -> (forall r s, sdk_unloaded w = true -> cmd <> SessionBooted r (Ok s)) ->
  exists boots' runs', inv (unread boots' runs') (discard cmd w).
Proof.
  intros Hi Hb. unfold discard.
  assert (sdk_unloaded w && match cmd with SessionBooted _ (Ok _) => true | _ => false end = false) as ->.
  { destruct (sdk_unloaded w); [|done]. destruct cmd as [ | | | |r [s|]| | | | | | ]; try done. by destruct (Hb r s). }
  cbn [negb expect_that].
  exists (h_boots (and_cmd cmd (unread boots runs))), (h_runs (and_cmd cmd (unread boots runs))).
  apply drop_replies_inv. exact Hi.
Qed.

Lemma drop_receiver_inv q boots runs w :
  queue w = q -> inv (unread boots runs) w -> (forall r s, sdk_unloaded w = true -> SessionBooted r (Ok s) ∉ q) ->
  wk (drop_receiver q w) = wk w /\ queue (drop_receiver q w) = [] /\ issued (drop_receiver q w) = issued w /\
  exists boots' runs', inv (unread boots' runs') (drop_receiver q w).
Proof.
  revert boots runs w. induction q as [|cmd q IH]; intros boots runs w Hq Hi Hb; cbn; [split_and!; eauto|].
  apply (pop_inv _ _ _ _ Hq) in Hi. destruct (discard_frame cmd (set_queue q w)) as (Hwk & Hq' & Hiss & Hu).
  apply discard_inv in Hi as (boots' & runs' & Hi); [|intros r s Hun ->; by destruct (Hb r s Hun); left].
  destruct (IH boots' runs' _ Hq' Hi) as (-> & -> & -> & Hex).
  - intros r s Hun Hin. rewrite Hu in Hun. apply (Hb r s Hun). by right.
  - by rewrite Hwk, Hiss.
Qed.


(** ** What serving a command never does *)

(** The queue only grows at its end, reply channels only come from clients, and
    none is dropped for want of a worker. *)
Record frame w w' : Prop := MkFrame {
  frame_queue : queue w `prefix_of` queue w';
  frame_issued : issued w' = issued w;
  frame_gone x : (x, WorkerGone) ∈ dropped w' -> (x, WorkerGone) ∈ dropped w;
}.

#[global] Instance frame_preorder : PreOrder frame.
Proof. split; [intros w; by constructor|]. intros w1 w2 w3 [] []. constructor; [by etrans|congruence|auto]. Qed.

Lemma same_frame w w' : queue w' = queue w -> issued w' = issued w -> dropped w' = dropped w -> frame w w'.
Proof. intros Hq Hi Hd. constructor; [by rewrite Hq|done|by rewrite Hd]. Qed.

Lemma push_frame w cmd : frame w (push cmd w).
Proof. by constructor; [apply prefix_app_r|..]. Qed.

Lemma return_slot_frame w lease : frame w (return_slot lease w).
Proof. unfold return_slot. destruct (slot_free _ _); by apply same_frame. Qed.

Lemma drop_release_frame w r job : frame w (drop_release r job w).
Proof. unfold drop_release. destruct (release_store job); by apply same_frame. Qed.

Lemma expect_frame w ok v : frame w (expect_that ok v w).
Proof. destruct ok; by apply same_frame. Qed.

Lemma terminate_frame w r job outcome : frame w (terminate r job outcome w).1.1.
Proof.
  destruct outcome as [e| |e]; cbn.
  - apply drop_release_frame.
  - set (w1 := expect_that _ _ w). assert (Hf : frame w w1) by apply expect_frame. clearbody w1.
    etrans; [exact Hf|]. destruct (release_store job); [|by apply same_frame].
    etrans; [|apply return_slot_frame]. by apply same_frame.
  - etrans; [apply expect_frame|apply drop_release_frame].
Qed.

Lemma thread_step_frame w w' : thread_step w w' -> frame w w'.
Proof.
  destruct 1; try by apply same_frame.
  1,2,4: unfold boot_reports, pull_reports, run_reports; cbn zeta; etrans; [apply (expect_frame w)|];
    etrans; [|apply push_frame]; by apply same_frame.
  - etrans; [|apply push_frame]. by apply same_frame.
  - unfold release_reports. cbn zeta. set (w1 := expect_that _ _ w). assert (Hf1 : frame w w1) by apply expect_frame.
    pose proof (terminate_frame w1 (releasing_ref t) (releasing_job t) outcome) as Hf2.
    destruct (terminate _ _ _ w1) as [[w2 answer] back]. cbn in Hf2. etrans; [exact Hf1|]. etrans; [exact Hf2|].
    assert (Hf3 : forall l a, frame w2 (send_opt (releasing_reply t) a (set_releases l w2)))
      by (intros l a; destruct (releasing_reply t); by apply same_frame).
    destruct (releasing_notify t); [|done]. etrans; [apply Hf3|apply push_frame].
Qed.

Lemma thread_steps_frame w w' : rtc thread_step w w' -> frame w w'.
Proof. induction 1; [done|]. etrans; [by apply thread_step_frame|done]. Qed.

Section Framed.
Context (R : relation (World E)) `{!PreOrder R}.

Definition framed {A} (m : stateful (World E) Panic A) : Prop := forall w, R w (m w).2.

Lemma framed_ret {A} (a : A) : framed (mret a).
Proof. by intros w. Qed.
Lemma framed_throw {A} p : framed (throw p : stateful (World E) Panic A).
Proof. by intros w. Qed.
Lemma framed_gets {A} (f : World E -> A) : framed (gets f).
Proof. by intros w. Qed.
Lemma framed_self {A} (f : Worker -> A) : framed (self f).
Proof. by intros w. Qed.
Lemma framed_expect {A} (o : option A) message : framed (expect o message).
Proof. destruct o; [apply framed_ret|apply framed_throw]. Qed.
Lemma framed_modify f : (forall w, R w (f w)) -> framed (modify f).
Proof. intros Hf w. apply Hf. Qed.

Lemma framed_bind {A B} (m : stateful (World E) Panic A) (k : A -> stateful (World E) Panic B) :
  framed m -> (forall a, framed (k a)) -> framed (a ← m; k a).
Proof.
  intros Hm Hk w. specialize (Hm w). unfold mbind, stateful_bind. destruct (m w) as [[a|p] w1]; [|done].
  etrans; [exact Hm|apply Hk].
Qed.

Lemma framed_for_each {A} (f : A -> stateful (World E) Panic unit) l :
  (forall a, framed (f a)) -> framed (for_each f l).
Proof. intros Hf. induction l as [|a l IH]; [apply framed_ret|]. by apply framed_bind. Qed.
End Framed.

Lemma framed_update f : framed frame (update f).
Proof. intros w. by apply same_frame. Qed.
Lemma framed_send reply a : framed frame (send reply a).
Proof. intros w. by apply same_frame. Qed.
Lemma framed_drop reply why : why <> WorkerGone -> framed frame (drop_reply reply why).
Proof.
  intros Hw w. constructor; [done..|]. cbn. intros x [?|Hx%list_elem_of_singleton]%elem_of_app; [done|]. by injection Hx as _ <-.
Qed.
Lemma framed_return_slot lease : framed frame (modify (return_slot lease)).
Proof. intros w. apply return_slot_frame. Qed.
Lemma framed_settle (b : bool) r lease : framed frame (modify (if b then forget_lease r lease else return_slot lease)).
Proof. destruct b; [intros w; by apply same_frame|apply framed_return_slot]. Qed.
Lemma framed_drop_release r job : framed frame (modify (drop_release r job)).
Proof. intros w. apply drop_release_frame. Qed.
Lemma framed_expect_that ok v : framed frame (modify (fun w => expect_that (ok w) v w)).
Proof. intros w. apply expect_frame. Qed.
End Daemon.

Create HintDb framed.
#[export] Hint Resolve framed_ret framed_throw framed_gets framed_self framed_expect framed_update framed_send
  framed_return_slot framed_settle framed_drop_release framed_expect_that : framed.

Ltac head_of t := lazymatch t with ?f _ => head_of f | ?f => f end.
Ltac framed_step :=
  match goal with
  | |- framed _ (mbind _ _) => apply framed_bind; [typeclasses eauto| |intros ?]
  | |- framed _ (for_each _ _) => apply framed_for_each; [typeclasses eauto|intros ?]
  | |- framed _ (match ?x with _ => _ end) => destruct x
  | |- framed _ (modify _) => intros ?; by apply same_frame
  | |- framed _ (drop_reply _ _) => by apply framed_drop
  | |- forall _, _ => intros ?
  | |- framed _ ?m => let f := head_of m in unfold f
  end.
Ltac framed := repeat first [by eauto with framed nocore typeclass_instances | framed_step].

Section Operations.
Context {E : Type} `{!Env E} (sched : World E -> World E) (sched_ok : fair sched).
Implicit Types w : World E.

Lemma framed_call {A} (c : Call A) : framed frame (call sched c).
Proof.
  intros w. unfold call. destruct (ask c (ext (sched w))) as [a e]. cbn.
  etrans; [apply thread_steps_frame, sched_ok|]. by apply same_frame.
Qed.
#[local] Hint Resolve framed_call : framed.

Lemma framed_lease_with {T X} (open : string -> stateful (World E) Panic (result X T)) :
  (forall path, framed frame (open path)) ->
  framed frame (StoreSlots.lease_with pool set_pool (fun path => call sched (CreateDirAll path)) open).
Proof.
  intros Ho. unfold StoreSlots.lease_with. apply framed_bind; [typeclasses eauto| |framed].
  intros w. destruct (StoreSlots.take_lowest_free _). by apply same_frame.
Qed.

Lemma framed_lease_and_boot r name sizing : framed frame (lease_and_boot sched r name sizing).
Proof.
  unfold lease_and_boot. apply framed_bind; [typeclasses eauto|framed|]. intros [[]|e]; [|framed].
  apply framed_bind; [typeclasses eauto| |framed]. apply framed_lease_with. framed.
Qed.
#[local] Hint Resolve framed_lease_and_boot : framed.

Lemma framed_release_or_leak job r notify : framed frame (release_or_leak sched job r notify).
Proof. framed. Qed.
#[local] Hint Resolve framed_release_or_leak : framed.

Lemma framed_start_waiting now waiting : framed frame (start_waiting sched now waiting).
Proof. induction waiting as [|[r p] waiting IH]; cbn [start_waiting]; framed. Qed.
#[local] Hint Resolve framed_start_waiting : framed.

Lemma framed_release_session_entry r reply : framed frame (release_session_entry sched r reply).
Proof. framed. Qed.
#[local] Hint Resolve framed_release_session_entry : framed.

Lemma framed_give_up_stuck now deadline refs : framed (E := E) frame (give_up_stuck now deadline refs).
Proof. induction refs as [|r refs IH]; cbn [give_up_stuck]; framed. Qed.
#[local] Hint Resolve framed_give_up_stuck : framed.

Lemma framed_idle_sessions now grace holds : framed (E := E) frame (idle_sessions now grace holds).
Proof. induction holds as [|[r n] holds IH]; cbn [idle_sessions]; framed. Qed.
#[local] Hint Resolve framed_idle_sessions : framed.

Lemma framed_release_expired expired : framed frame (release_expired sched expired).
Proof. induction expired as [|r expired IH]; cbn [release_expired]; framed. Qed.
#[local] Hint Resolve framed_release_expired : framed.

Lemma framed_dispatch work : framed frame (dispatch sched work).
Proof. framed. Qed.
#[local] Hint Resolve framed_dispatch : framed.

Lemma framed_begin_provision config reply : framed frame (begin_provision sched config reply).
Proof. framed. Qed.
#[local] Hint Resolve framed_begin_provision : framed.

(** Serving anything but a shutdown leaves the rest of the queue in order. *)
Lemma framed_serve cmd :
  (forall reply, cmd <> Shutdown reply) -> framed frame (serve sched cmd).
Proof. intros Hs. destruct cmd; try by destruct (Hs reply). all: framed. Qed.


(** A shutdown takes commands off the queue, but issues no reply channel. *)
Definition kept w w' : Prop :=
  issued w' = issued w /\ forall x, (x, WorkerGone) ∈ dropped w' -> (x, WorkerGone) ∈ dropped w.

#[local] Instance kept_preorder : PreOrder kept.
Proof. split; [by intros w|]. intros w1 w2 w3 [] []. split; [congruence|auto]. Qed.

Lemma framed_kept {A} (m : stateful (World E) Panic A) : framed frame m -> framed kept m.
Proof. intros Hm w. split; apply Hm. Qed.
#[local] Hint Resolve framed_kept : framed.

Lemma kept_modify f :
  (forall w, issued (f w) = issued w /\ dropped (f w) = dropped w) -> framed kept (modify f).
Proof. intros Hf w. destruct (Hf w) as [Hi Hd]. split; cbn; [done|by rewrite Hd]. Qed.

Lemma kept_try_recv : framed kept (@try_recv E).
Proof. intros w. unfold try_recv. by destruct (queue w). Qed.
#[local] Hint Resolve kept_try_recv : framed.

Lemma framed_wait in_flight : framed frame (wait_for_in_flight sched in_flight).
Proof.
  unfold wait_for_in_flight. apply framed_bind; [typeclasses eauto| |framed].
  intros w. apply thread_steps_frame, sched_ok.
Qed.
#[local] Hint Resolve framed_wait : framed.

Ltac kept := repeat first
  [ by eauto with framed nocore typeclass_instances
  | match goal with |- framed kept (modify _) => apply kept_modify; intros ?; unfold expect_that; by repeat case_match end
  | match goal with |- framed kept (drop_reply _ _) => by apply framed_kept, framed_drop end
  | match goal with |- framed kept (mret _) => apply framed_ret; typeclasses eauto end
  | match goal with |- framed kept (self _) => apply framed_self; typeclasses eauto end
  | match goal with |- framed kept (gets _) => apply framed_gets; typeclasses eauto end
  | framed_step ].

Lemma kept_drain_execs fuel left : framed kept (drain_execs sched fuel left).
Proof. revert left. induction fuel as [|fuel IH]; intros left; cbn [drain_execs]; kept. Qed.
#[local] Hint Resolve kept_drain_execs : framed.

Lemma kept_drain_boots fuel left : framed kept (drain_boots sched fuel left).
Proof. revert left. induction fuel as [|fuel IH]; intros left; cbn [drain_boots]; kept. Qed.
#[local] Hint Resolve kept_drain_boots : framed.

Lemma kept_drain_pulls all left : framed kept (drain_pulls sched all left).
Proof. revert left. induction all as [|[r e] all IH]; intros left; cbn [drain_pulls]; kept. Qed.
#[local] Hint Resolve kept_drain_pulls : framed.

Lemma kept_release_drained all left : framed kept (release_drained sched all left).
Proof. revert left. induction all as [|[r e] all IH]; intros left; cbn [release_drained]; kept. Qed.
#[local] Hint Resolve kept_release_drained : framed.

Lemma kept_shutdown : framed kept (shutdown sched).
Proof. kept. Qed.

Lemma kept_serve_next : framed kept (serve_next sched).
Proof.
  unfold serve_next. apply framed_bind; [typeclasses eauto|kept|]. intros [cmd|]; [|kept].
  destruct cmd as [| | | | | | | | | |reply]; try by apply framed_kept, framed_serve.
  cbn [serve]. apply framed_bind; [typeclasses eauto|apply kept_shutdown|kept].
Qed.

End Operations.

Section Theorems.
Context {E : Type} `{!Env E}.
Implicit Types (w : World E) (st : Status * World E).

(** The loop's end, and what is sent after it. *)
Lemma over_closed w : over [] w -> closed (hang_up w) /\ issued (hang_up w) = issued w.
Proof.
  intros [Hi ? ? ? ? ? ? Hb]. destruct (drop_receiver_inv (queue w) [] [] w eq_refl Hi) as (Hwk & Hq & Hiss & Hex).
  { intros r s. apply Hb. }
  split; [|done]. unfold hang_up. by constructor; rewrite ?Hwk.
Qed.

Lemma closed_hang_up w w' boots runs :
  closed w -> wk w' = wk w -> inv (unread boots runs) w' ->
  (forall r s, sdk_unloaded w' = true -> SessionBooted r (Ok s) ∉ queue w') ->
  closed (hang_up w') /\ issued (hang_up w') = issued w'.
Proof.
  intros [] Hw Hi Hb. destruct (drop_receiver_inv (queue w') boots runs w' eq_refl Hi Hb) as (Hwk & Hq & Hiss & Hex).
  split; [|done]. unfold hang_up. by constructor; rewrite ?Hwk, ?Hw.
Qed.

(** A thread sends at most one report; that of a boot comes from a boot. *)
Lemma thread_step_new w w' :
  thread_step w w' -> queue w' = queue w \/ exists cmd, queue w' = queue w ++ [cmd] /\
    forall r o, cmd = SessionBooted r o -> exists l1 t l2, boots w = l1 ++ t :: l2 /\ boot_phase t = Running.
Proof.
  assert (Hx : forall ok v, queue (expect_that ok v w) = queue w) by (by intros []).
  destruct 1 as [w l1 t l2 outcome Hb Ht| |w l1 t l2 outcome Hb Ht| | | |w l1 t l2 report Hb Ht| |w l1 t l2 outcome Hb Ht|];
    try (by left).
  - right. eexists. split; [unfold boot_reports; cbn; by rewrite Hx|]. intros r o _. by exists l1, t, l2.
  - right. eexists. split; [unfold pull_reports; cbn; by rewrite Hx|]. done.
  - right. eexists. split; [done|done].
  - right. eexists. split; [unfold run_reports; cbn; by rewrite Hx|]. done.
  - unfold release_reports. cbn zeta.
    pose proof (terminate_steady (expect_that (negb (sdk_unloaded w)) SdkGone w) (releasing_ref t) (releasing_job t) outcome) as Htm.
    destruct (terminate _ _ _ _) as [[w2 answer] back]. destruct Htm as (_ & _ & Hq & _). rewrite Hx in Hq.
    destruct (releasing_notify t), (releasing_reply t); cbn; rewrite Hq; [right; by eexists..|by left|by left].
Qed.

(** With the SDK unloaded no boot is left to report. *)
Lemma thread_step_reports h w w' r s :
  inv h w -> queue w = [] -> thread_step w w' -> sdk_unloaded w' = true -> SessionBooted r (Ok s) ∉ queue w'.
Proof.
  intros Hi Hq Hs Hu Hin. rewrite (steady_unloaded _ _ (thread_step_steady _ _ Hs)) in Hu.
  assert (Hboots : forall l1 t l2, boots w = l1 ++ t :: l2 -> boot_phase t = Running -> False).
  { intros l1 t l2 Hb Ht. assert (sdk_unloaded w = false); [|congruence].
    apply (loaded_while_running _ _ Hi). left. exists t. rewrite Hb. set_solver. }
  pose proof (thread_step_new _ _ Hs) as [Hsame|(cmd & Hnew & Hkind)]; [by rewrite Hsame, Hq in Hin; apply elem_of_nil in Hin|].
  rewrite Hnew, Hq in Hin. apply list_elem_of_singleton in Hin.
  destruct (Hkind r (Ok s) (eq_sym Hin)) as (l1 & t & l2 & Hb & Ht). by eapply Hboots.
Qed.

Lemma closed_thread w w' : closed w -> thread_step w w' -> closed (hang_up w') /\ issued (hang_up w') = issued w.
Proof.
  intros Hc Hs. pose proof (steady_wk _ _ (thread_step_steady _ _ Hs)) as Hwk. destruct (closed_inv _ Hc) as (bs & rs & Hi).
  rewrite <- (frame_issued _ _ (thread_step_frame _ _ Hs)).
  eapply (closed_hang_up w w' bs rs); [done..|by eapply thread_step_inv|].
  intros r s. eapply thread_step_reports; [exact Hi|apply Hc|done].
Qed.

Lemma closed_client w cmd :
  closed w -> from_client cmd = true ->
  let w' := push cmd (log_issued (cmd_replies cmd) w) in closed (hang_up w') /\ issued (hang_up w') = issued w'.
Proof.
  intros Hc Hf. destruct (closed_inv _ Hc) as (bs & rs & Hi).
  eapply (closed_hang_up w _ bs rs); [done..|by apply client_inv|].
  intros r s _. cbn. rewrite (closed_queue _ Hc). intros Hin%list_elem_of_singleton. by subst cmd.
Qed.

Lemma good_thread w w' : good (replies []) w -> thread_step w w' -> good (replies []) w'.
Proof.
  intros Hg Hs. eapply good_steady; [exact Hg|by apply thread_step_steady|]. eapply thread_step_inv; [apply Hg|done].
Qed.

Lemma served_cases w sched r w' :
  fair sched -> good (replies []) w -> serve_next sched w = (r, w') ->
  (r = Ok true /\ good (replies []) w') \/ (r = Ok false /\ over [] w').
Proof.
  intros Hf Hg Hs. pose proof (serve_next_good sched Hf w Hg) as Hw. unfold wp in Hw. rewrite Hs in Hw.
  destruct r as [[]|p]; [by left|by right|done].
Qed.

Lemma step_sound st st' : sound st -> step st st' -> sound st'.
Proof.
  intros [Hs Hn] Hst.
  destruct Hst as [w w' Ht|w cmd Hc Hnd Hfr|sched w r w' Hf Hr|w w' Ht|w cmd Hc Hnd Hfr]; cbn in *.
  - split; cbn; [by eapply good_thread|by rewrite (frame_issued _ _ (thread_step_frame _ _ Ht))].
  - destruct Hs as [Hi Hcalm]. split; cbn.
    + split; [by apply client_inv|by destruct Hcalm].
    + apply NoDup_app. split_and!; [done| |done]. intros x. apply Hfr.
  - pose proof (kept_serve_next sched Hf w) as Hk. rewrite Hr in Hk. destruct Hk as [Hk _]. cbn in Hk.
    destruct (served_cases _ _ _ _ Hf Hs Hr) as [[-> Hg]|[-> Ho]]; [split; cbn; by rewrite ?Hk|].
    destruct (over_closed _ Ho) as [Hcl Hiss]. split; cbn; [done|by rewrite Hiss, Hk].
  - destruct (closed_thread _ _ Hs Ht) as [Hcl Hiss]. split; cbn; [done|by rewrite Hiss].
  - destruct (closed_client _ _ Hs Hc) as [Hcl Hiss]. split; cbn; [done|]. cbn in Hiss. rewrite Hiss.
    apply NoDup_app. split_and!; [done| |done]. intros x. apply Hfr.
Qed.

Lemma reachable_sound e root st : reachable e root st -> sound st.
Proof.
  intros Hr. unfold reachable in Hr. apply (rtc_ind_r sound) in Hr; [done| |].
  - split; [apply new_world_good|constructor].
  - intros y z _ Hyz Hy. by eapply step_sound.
Qed.

Lemma reachable_inv e root status w :
  reachable e root (status, w) -> exists boots runs, inv (unread boots runs) w.
Proof.
  intros [Hs _]%reachable_sound. destruct status; cbn in Hs; [|apply Hs|done]. exists [], []. apply Hs.
Qed.

(** C3. In every state the daemon can reach, whatever clients send and however
    its threads interleave, the worker has not panicked and nothing was
    misused: no container was stopped or deleted under a run, no session
    terminated while a pull, a run or a container handle used it, no store slot
    returned while a VM may have it mounted, and the SDK was neither unloaded
    while in use nor called afterwards. *)
Theorem daemon_never_faults e root status w :
  reachable e root (status, w) -> (forall p, status <> Crashed p) /\ violations w = [].
Proof.
  intros Hr. destruct (reachable_inv _ _ _ _ Hr) as (bs & rs & Hi). split; [|exact (inv_clean _ _ Hi)].
  intros p ->. by apply reachable_sound in Hr as [[] _].
Qed.

(** C13. Two utility VMs never have the same image store, and the store of a VM
    that may be running is leased, so it is not handed out again. *)
Theorem stores_exclusive e root status w r i :
  reachable e root (status, w) -> vms w !! r = Some i ->
  i ∈ StoreSlots.leased (pool w) /\ forall r', vms w !! r' = Some i -> r' = r.
Proof.
  intros Hr Hv. destruct (reachable_inv _ _ _ _ Hr) as (bs & rs & Hi).
  split; [exact (slot_leased _ _ _ _ Hi (inv_vms _ _ Hi r i Hv))|].
  intros r' Hv'. exact (slot_owner _ _ _ _ _ Hi (inv_vms _ _ Hi r' i Hv') (inv_vms _ _ Hi r i Hv)).
Qed.

Lemma held_replies_sum p w : sum_list_with p (held_replies w) = held p w.
Proof.
  unfold held_replies, held. rewrite !sum_list_with_app, !sum_list_with_bind, sum_list_with_fmap.
  assert (Hr : sum_list_with (fun t => sum_list_with p (if is_running (releasing_phase t)
    then option_list (releasing_reply t) else [])) (releases w) = sum_list_with (releasing_w p) (releases w)).
  { apply sum_list_with_ext. intros t _. unfold releasing_w. by destruct (is_running _). }
  rewrite Hr. unfold msum, cmd_w, pending_w, booting_w, exec_w. lia.
Qed.

Lemma sum_list_with_Permutation {A} `{EqDecision A} (l k : list A) :
  (forall p, sum_list_with p l = sum_list_with p k) -> l ≡ₚ k.
Proof.
  revert k. induction l as [|x l IH]; intros k Hp.
  - destruct k as [|y k]; [done|]. specialize (Hp (fun _ => 1)). cbn in Hp. lia.
  - assert (Hx : x ∈ k).
    { apply occ_elem. pose proof (Hp (fun y => Nat.b2n (bool_decide (x = y)))) as Ho. fold (occ x k) in Ho.
      rewrite <- Ho. cbn. rewrite bool_decide_true by done. cbn. lia. }
    apply list_elem_of_split in Hx as (k1 & k2 & ->). rewrite <- Permutation_middle. f_equiv. apply IH. intros p.
    specialize (Hp p). rewrite sum_with_mid in Hp. cbn in Hp. rewrite sum_list_with_app. lia.
Qed.

Lemma replies_ledger w boots runs :
  inv (unread boots runs) w -> held_replies w ++ (sent w).*1 ++ (dropped w).*1 ≡ₚ issued w.
Proof.
  intros Hi. apply sum_list_with_Permutation. intros p. pose proof (inv_replies _ _ Hi p) as Hp.
  rewrite !sum_list_with_app, held_replies_sum, !sum_list_with_fmap. unfold fst_w in Hp. cbn in Hp. lia.
Qed.

Definition spared st : Prop := st.1 = Serving -> forall x, (x, WorkerGone) ∉ dropped st.2.

(** While the worker serves, no channel is dropped for want of it. *)
Lemma serving_keeps_receiver e root w :
  reachable e root (Serving, w) -> forall x, (x, WorkerGone) ∉ dropped w.
Proof.
  intros Hr. unfold reachable in Hr. apply (rtc_ind_r spared) in Hr; [by apply Hr|by intros _ x Hx%elem_of_nil|].
  intros y z _ Hyz Hy Hz x. destruct Hyz as [w1 w2 Ht|w1 cmd Hc _ _|sched w1 r w2 Hf Hs|w1 w2 Ht|w1 cmd Hc _ _]; cbn in *; try done.
  - intros Hx%(frame_gone _ _ (thread_step_frame _ _ Ht)). by apply (Hy eq_refl) in Hx.
  - by apply Hy.
  - destruct r as [[]|]; [|done..]. cbn [left_behind].
    destruct (kept_serve_next sched Hf w1) as [_ Hk]. rewrite Hs in Hk. intros Hx%Hk. by apply (Hy eq_refl) in Hx.
Qed.

Lemma closed_holds w x :
  closed w -> x ∈ held_replies w -> exists t, t ∈ releases w /\ releasing_phase t = Running /\ releasing_reply t = Some x.
Proof.
  intros [_ Hq _ Hp Hx Hb _ _] Hin. unfold held_replies in Hin.
  rewrite Hq, Hp, Hx, Hb, !map_to_list_empty in Hin. cbn in Hin.
  apply list_elem_of_bind in Hin as (t & Hin & Ht). exists t. split; [done|].
  destruct (releasing_phase t); cbn in Hin; [|by apply elem_of_nil in Hin]. split; [done|].
  destruct (releasing_reply t); cbn in Hin; [|by apply elem_of_nil in Hin]. by apply list_elem_of_singleton in Hin as ->.
Qed.

(** C11. Every reply channel a client handed over is in exactly one place: still
    held by a queued command, by the worker or by a release thread, answered
    once, or dropped.  A channel is only dropped for a refused or departed exec
    client, for want of a release thread, or because the worker has ended, never
    by a boot report; and once the worker has ended, only release threads that
    are still running hold any. *)
Theorem replies_conserved e root status w :
  reachable e root (status, w) ->
  held_replies w ++ (sent w).*1 ++ (dropped w).*1 ≡ₚ issued w /\
  NoDup (held_replies w ++ (sent w).*1 ++ (dropped w).*1) /\
  (forall x why, (x, why) ∈ dropped w ->
     why = NotAdmitted \/ why = ClientGone \/ why = NoReleaseThread \/ why = WorkerGone) /\
  (status = Serving -> forall x, (x, WorkerGone) ∉ dropped w) /\
  (status = Ended -> forall x, x ∈ held_replies w ->
     exists t, t ∈ releases w /\ releasing_phase t = Running /\ releasing_reply t = Some x).
Proof.
  intros Hr. destruct (reachable_inv _ _ _ _ Hr) as (bs & rs & Hi). pose proof (replies_ledger w _ _ Hi) as Hp.
  split_and!; [done| | | |].
  - rewrite Hp. by apply reachable_sound in Hr as [_ Hn].
  - intros x why Hx. destruct why; auto. by apply (inv_dropped _ _ Hi) in Hx.
  - intros ->. by apply (serving_keeps_receiver _ _ _ Hr).
  - intros ->. apply reachable_sound in Hr as [Hc _]. intros x. by apply closed_holds.
Qed.

(** After [Shutdown] the worker owns nothing: no container, session, boot,
    pull or run is recorded and its SDK is released; if the SDK was unloaded, no
    thread is left that could call it. *)
Theorem shutdown_leaves_nothing e root w :
  reachable e root (Ended, w) ->
  containers (wk w) = ∅ /\ sessions (wk w) = ∅ /\ pending (wk w) = ∅ /\ pending_sessions (wk w) = ∅ /\
  exec_in_flight (wk w) = ∅ /\ sdk (wk w) = false /\
  (sdk_unloaded w = true ->
     Forall (fun t => boot_phase t = Reported) (boots w) /\ Forall (fun t => pull_phase t = Reported) (pulls w) /\
     Forall (fun t => thread_phase t = Reported) (runs w) /\
     Forall (fun t => releasing_phase t = Reported) (releases w)).
Proof.
  intros [Ho _]%reachable_sound. cbn in Ho. destruct (closed_inv _ Ho) as (bs & rs & Hi).
  pose proof (inv_unloaded _ _ Hi). by destruct Ho.
Qed.

(** The tally of what every session holds, made in one pass over the
    containers, pulls and runs, agrees with counting for each session alone. *)
Theorem session_holds_agree w r :
  session_holds w !! r = (fun _ => session_hold w r) <$> sessions (wk w) !! r.
Proof. apply session_holds_lookup. Qed.


(** ** Reaching a shutdown *)

(** What happens between two commands. *)
Inductive idle_step : World E -> World E -> Prop :=
| idle_thread w w' : thread_step w w' -> idle_step w w'
| idle_client w cmd :
    from_client cmd = true -> NoDup (cmd_replies cmd) -> (forall x, x ∈ cmd_replies cmd -> x ∉ issued w) ->
    idle_step w (push cmd (log_issued (cmd_replies cmd) w)).

(** A turn of the loop: what happens before the command is taken, and how the
    threads interleave with it. *)
Definition turn : Type := (World E -> World E) * (World E -> World E).
Definition fair_turn (t : turn) : Prop := (forall w, rtc idle_step w (t.1 w)) /\ fair t.2.

(** At most one command per turn. *)
Fixpoint serve_turns (turns : list turn) w : result Panic bool * World E :=
  match turns with
  | [] => (Ok true, w)
  | t :: turns =>
      match serve_next t.2 (t.1 w) with
      | (Ok true, w') => serve_turns turns w'
      | stopped => stopped
      end
  end.

Lemma idle_steps w w' :
  rtc idle_step w w' -> good (replies []) w -> good (replies []) w' /\ queue w `prefix_of` queue w'.
Proof.
  induction 1 as [w|w1 w2 w3 Hs _ IH]; intros Hg; [done|].
  assert (H2 : good (replies []) w2 /\ queue w1 `prefix_of` queue w2).
  { destruct Hs as [w w' Ht|w cmd Hc _ _].
    - split; [by eapply good_thread|apply (thread_step_frame _ _ Ht)].
    - destruct Hg as [Hi Hcalm]. split; [split; [by apply client_inv|by destruct Hcalm]|by apply prefix_app_r]. }
  destruct H2 as [Hg2 Hq2]. destruct (IH Hg2) as [Hg3 Hq3]. split; [done|by etrans].
Qed.

(** The loop goes on after anything but a shutdown. *)
Definition goes_on (m : stateful (World E) Panic bool) : Prop := forall w b w', m w = (Ok b, w') -> b = true.

Lemma goes_on_bind {A} (m : stateful (World E) Panic A) k : (forall a, goes_on (k a)) -> goes_on (a ← m; k a).
Proof.
  intros Hk w b w'. unfold mbind, stateful_bind. destruct (m w) as [[a|p] w1]; [apply Hk|done].
Qed.

Lemma serve_goes_on sched cmd : (forall reply, cmd <> Shutdown reply) -> goes_on (serve sched cmd).
Proof.
  intros Hs. assert (Hr : goes_on (mret true)) by by intros w b w' [= <- <-].
  destruct cmd; try by destruct (Hs reply). all: repeat (apply goes_on_bind; intros ?); exact Hr.
Qed.

Lemma serve_first w sched cmd q :
  fair sched -> good (replies []) w -> queue w = cmd :: q -> (forall reply, cmd <> Shutdown reply) ->
  exists w', serve_next sched w = (Ok true, w') /\ good (replies []) w' /\ q `prefix_of` queue w'.
Proof.
  intros Hf Hg Hq Hs. destruct (serve_next sched w) as [r w'] eqn:Hr. exists w'.
  assert (Heq : serve sched cmd (set_queue q w) = (r, w')).
  { rewrite <- Hr. unfold serve_next, mbind, stateful_bind, try_recv. by rewrite Hq. }
  pose proof (framed_serve sched Hf cmd Hs (set_queue q w)) as Hfr. rewrite Heq in Hfr. cbn in Hfr.
  destruct (served_cases _ _ _ _ Hf Hg Hr) as [[-> Hg']|[-> _]].
  - split_and!; [done..|]. apply (frame_queue _ _ Hfr).
  - by apply (serve_goes_on sched cmd Hs) in Heq.
Qed.

Lemma serve_shutdown w sched reply q :
  fair sched -> good (replies []) w -> queue w = Shutdown reply :: q ->
  exists w', serve_next sched w = (Ok false, w') /\ last (sent w') = Some (reply, ReplyDone).
Proof.
  intros Hf Hg Hq. pose proof (serve_next_good sched Hf w Hg) as Hw. unfold serve_next, wp, mbind, stateful_bind in *.
  unfold try_recv in *. rewrite Hq in *. cbn [serve] in *. unfold mbind, stateful_bind in *.
  destruct (shutdown sched (set_queue q w)) as [[[]|p] w1]; [|done]. eexists. split; [done|]. cbn. apply last_snoc.
Qed.

Lemma serve_turns_shutdown q1 reply q2 turns w :
  good (replies []) w -> queue w = q1 ++ Shutdown reply :: q2 -> (forall x, Shutdown x ∉ q1) ->
  Forall fair_turn turns -> length q1 < length turns ->
  exists w', serve_turns turns w = (Ok false, w') /\ last (sent w') = Some (reply, ReplyDone).
Proof.
  revert q1 q2 w. induction turns as [|[between sched] turns IH]; intros q1 q2 w Hg Hq Hn Ht Hl; [cbn in Hl; lia|].
  inversion Ht as [|? ? [Hb Hf] Ht']; subst. cbn [serve_turns fst snd] in *.
  destruct (idle_steps _ _ (Hb w) Hg) as [Hg1 [q3 Hq1]]. rewrite Hq in Hq1.
  set (w1 := between w) in *. clearbody w1. destruct q1 as [|cmd q1].
  - destruct (serve_shutdown w1 sched reply (q2 ++ q3) Hf Hg1) as (w' & -> & Hlast); [done|]. by exists w'.
  - cbn in Hq1. destruct (serve_first w1 sched cmd ((q1 ++ Shutdown reply :: q2) ++ q3) Hf Hg1) as (w2 & -> & Hg2 & [q4 Hq2]).
    + exact Hq1.
    + intros x ->. apply (Hn x). left.
    + apply (IH q1 (q2 ++ q3 ++ q4)); [done| | |done|cbn in Hl; lia].
      * rewrite Hq2, <- !app_assoc. done.
      * intros x Hx. apply (Hn x). by right.
Qed.

(** C16. A shutdown that was asked for is reached: once it is queued behind
    [q1], one turn per command of [q1] and one more end the loop, whatever
    clients and threads do meanwhile, and the last answer sent is its own. *)
Theorem shutdown_reached e root w q1 reply q2 turns :
  reachable e root (Serving, w) -> queue w = q1 ++ Shutdown reply :: q2 -> (forall x, Shutdown x ∉ q1) ->
  Forall fair_turn turns -> length q1 < length turns ->
  exists w', serve_turns turns w = (Ok false, w') /\ last (sent w') = Some (reply, ReplyDone).
Proof. intros [Hg _]%reachable_sound. by apply serve_turns_shutdown. Qed.


Lemma expect_ext ok v w : ext (expect_that ok v w) = ext w.
Proof. by destruct ok. Qed.

Lemma terminate_ext w r job outcome : ext (terminate r job outcome w).1.1 = ext w.
Proof.
  destruct outcome; cbn; unfold drop_release, return_slot; destruct (release_store job); cbn; rewrite ?expect_ext; cbn; by rewrite ?expect_ext.
Qed.

(** Threads ask the host nothing the worker would notice. *)
Lemma thread_steps_ext w w' : rtc thread_step w w' -> ext w' = ext w.
Proof.
  induction 1 as [w|w1 w2 w3 Hs _ IH]; [done|]. rewrite IH. destruct Hs; try done.
  all: unfold boot_reports, pull_reports, run_reports, release_reports; cbn zeta; try by (cbn; rewrite expect_ext).
  pose proof (terminate_ext (expect_that (negb (sdk_unloaded w)) SdkGone w) (releasing_ref t) (releasing_job t) outcome) as Ht.
  destruct (terminate _ _ _ _) as [[w4 answer] back]. cbn in Ht. rewrite expect_ext in Ht.
  by destruct (releasing_notify t), (releasing_reply t).
Qed.

(** When no release thread can be started, releasing a session leaves it as it
    was, its VM untouched and its slot held; but it is no longer the daemon's
    implicit session, and a client that asked for the release gets no answer: its
    reply channel is dropped. *)
Theorem release_without_a_thread sched w r entry reply :
  fair sched -> sessions (wk w) !! r = Some entry ->
  is_ok (ask (Spawn "wslc-session-release") (ext w)).1 = false ->
  exists w', release_session_entry sched r reply w = (Ok tt, w') /\
    sessions (wk w') = sessions (wk w) /\ default_session (wk w') <> Some r /\
    (forall x, reply = Some x -> (x, NoReleaseThread) ∈ dropped w').
Proof.
  intros Hf Hl Hno. cut (wp (release_session_entry sched r reply) (fun _ w' =>
    sessions (wk w') = sessions (wk w) /\ default_session (wk w') <> Some r /\
    (forall x, reply = Some x -> (x, NoReleaseThread) ∈ dropped w')) w).
  { unfold wp. destruct (release_session_entry _ _ _ w) as [[[]|p] w']; [by eauto|done]. }
  unfold release_session_entry, start_session_release. apply wp_bind, wp_self. rewrite Hl. cbn zeta.
  apply wp_bind, wp_update. apply wp_bind, wp_update. apply wp_bind, wp_bind. unfold wp at 1, call.
  set (w1 := set_wk _ _). destruct (thread_steps w1 (sched w1) (Hf w1)) as [Hst _].
  change (ext w) with (ext w1) in Hno. rewrite <- (thread_steps_ext w1 (sched w1) (Hf w1)) in Hno. destruct (ask _ (ext (sched w1))) as [[[]|er] e']; [done|].
  apply wp_bind. destruct reply as [x|]; [apply wp_modify|apply wp_ret]; apply wp_ret;
    cbn [release_session release_store]; apply wp_update; cbn; rewrite (steady_wk _ _ Hst); unfold w1; cbn.
  all: assert (Hback : <[r := MkSession (session entry) (store entry) (name entry) (sizing entry) (empty_since entry)]>
    (delete r (sessions (wk w))) = sessions (wk w)) by (rewrite insert_delete_id; [done|]; rewrite Hl; by destruct entry).
  all: split_and!; [by case_bool_decide..|].
  - intros x' [= <-]. apply elem_of_app. right. left.
  - done.
Qed.
End Theorems.

(** ** A host *)

(** A host that grants everything, except that it may be out of threads for
    releases; identifiers are drawn in order. *)
Record Host : Type := MkHost { next : nat; release_threads : bool }.

Fixpoint uuid (n : nat) : string := match n with O => ""%string | S n => "u" +:+ uuid n end.

Definition host_ask {A} (c : Call A) (h : Host) : A * Host :=
  match c in Call A return A * Host with
  | Now => (0%Z, h)
  | NewV4 => (uuid (next h), MkHost (S (next h)) (release_threads h))
  | Spawn name =>
      (if bool_decide (name = "wslc-session-release"%string) && negb (release_threads h)
       then Err "no thread"%string else Ok tt, h)
  | CreateDirAll _ => (Ok tt, h)
  | SessionGrace | SessionBootDeadline | DaemonPullBudget => (60000%Z, h)
  | ReceiverGone _ | CancellationLoad _ => (false, h)
  | LoadSdkChecked | ReportPulledDigest _ _ | BuildKeepalive => (Ok tt, h)
  | BeginResolve _ _ _ _ _ => (Ok ImageReady, h)
  | CreateDaemonContainer _ _ _ _ _ _ => (Ok 0%Z, h)
  | StartDaemonContainer _ | StopDaemonContainer _ | DeleteDaemonContainer _ => (Ok tt, h)
  end.

Definition host_drawn (h : Host) : gset string := list_to_set (uuid <$> seq 0 (next h)).

#[local] Instance uuid_inj : Inj (=) (=) uuid.
Proof. intros n. induction n as [|n IH]; intros [|m] Heq; try done. cbn in Heq. injection Heq as Heq. by f_equal; apply IH. Qed.

#[local] Program Instance host_env : Env Host := {|
  ask := @host_ask; drawn := host_drawn; iter := fun K _ _ A m => map_to_list m |}.
Next Obligation.
  intros A c h. destruct c; try done. cbn [host_ask fst snd]. unfold host_drawn. cbn [next].
  rewrite seq_S, fmap_app, list_to_set_app_L. cbn [fmap list_fmap list_to_set]. set_solver.
Qed.
Next Obligation.
  intros h. unfold host_drawn. rewrite elem_of_list_to_set, list_elem_of_fmap. intros (m & Heq & Hm).
  apply (inj uuid) in Heq. subst m. apply elem_of_seq in Hm. lia.
Qed.
Next Obligation. done. Qed.

(** *** A session comes and goes *)

Lemma fair_id : fair (E := Host) id.
Proof. intros w. apply rtc_refl. Qed.

Definition arrive (cmd : WorkerCommand) (w : World Host) : World Host := push cmd (log_issued (cmd_replies cmd) w).
Definition served (w : World Host) : World Host := (serve_next id w).2.

Definition cold (threads : bool) : World Host := new_world (MkHost 0 threads) "C:\pool".
Definition asked (threads : bool) : World Host := arrive (ProvisionSession SessionSizing_default 1) (cold threads).
Definition booting (threads : bool) : World Host := served (asked threads).

(** The boot thread reports the handle [7] and ends. *)
Definition reported (threads : bool) : World Host :=
  match boots (booting threads) with
  | t :: _ => set_boots [] (boot_reports (Ok 7%Z) [] [] t (booting threads))
  | [] => booting threads
  end.
Definition running (threads : bool) : World Host := served (reported threads).
Lemma reach_served e root (w : World Host) :
  reachable e root (Serving, w) -> (serve_next id w).1 = Ok true -> reachable e root (Serving, served w).
Proof.
  intros Hr Ho. eapply rtc_r; [exact Hr|]. unfold served. destruct (serve_next id w) as [r w'] eqn:E. cbn in Ho. subst r.
  exact (step_serve id w (Ok true) w' fair_id E).
Qed.

Lemma reach_arrive e root (w : World Host) cmd :
  reachable e root (Serving, w) -> from_client cmd = true -> NoDup (cmd_replies cmd) ->
  Forall (fun x => x ∉ issued w) (cmd_replies cmd) -> reachable e root (Serving, arrive cmd w).
Proof.
  intros Hr Hc Hn Hf. eapply rtc_r; [exact Hr|]. apply step_client; [done..|]. by rewrite Forall_forall in Hf.
Qed.

Lemma reach_boot e root (w : World Host) t outcome :
  reachable e root (Serving, w) -> boots w = [t] -> boot_phase t = Running ->
  reachable e root (Serving, set_boots [] (boot_reports outcome [] [] t w)).
Proof.
  intros Hr Hb Ht. eapply rtc_r; [eapply rtc_r; [exact Hr|]|].
  - apply step_thread, (step_boot_reports w [] t []); done.
  - apply step_thread. apply (step_boot_ends _ [] (MkBoot (boot_ref t) (boot_job t) Reported) []); [|done].
    unfold boot_reports. by destruct (negb _).
Qed.

Lemma running_reachable threads :
  reachable (MkHost 0 threads) "C:\pool" (Serving, running threads).
Proof.
  apply reach_served; [|by destruct threads; vm_compute].
  assert (Hb : reachable (MkHost 0 threads) "C:\pool" (Serving, booting threads)).
  { apply reach_served; [|by destruct threads; vm_compute]. apply reach_arrive; [apply rtc_refl|done| |].
    - apply NoDup_singleton.
    - constructor; [apply not_elem_of_nil|constructor]. }
  unfold reported. destruct (boots (booting threads)) as [|t ts] eqn:Ht; [done|].
  assert (Hts : ts = [] /\ boot_phase t = Running) by (by destruct threads; vm_compute in Ht; injection Ht as <- <-).
  destruct Hts as [-> Hrun]. by apply reach_boot.
Qed.

(** *** Witnesses *)

Lemma daemon_never_faults_witness :
  is_Some (sessions (wk (running true)) !! "wslcsess:") /\
  (forall p, Serving <> Crashed p) /\ violations (running true) = [].
Proof.
  split; [by vm_compute; eexists|]. exact (daemon_never_faults _ _ _ _ (running_reachable true)).
Defined.

Lemma stores_exclusive_witness :
  vms (running true) !! "wslcsess:" = Some 0 /\
  0 ∈ StoreSlots.leased (pool (running true)) /\ forall r', vms (running true) !! r' = Some 0 -> r' = "wslcsess:".
Proof.
  split; [by vm_compute|]. apply (stores_exclusive _ _ _ _ _ _ (running_reachable true)). by vm_compute.
Defined.

Definition stopping : World Host := arrive (Shutdown 4) (arrive (ContainerCount 3) (running true)).

Lemma stopping_reachable : reachable (MkHost 0 true) "C:\pool" (Serving, stopping).
Proof.
  apply reach_arrive; [apply reach_arrive; [apply running_reachable| | |]| | |]; try done; try apply NoDup_singleton.
  all: apply (bool_decide_unpack _); by vm_compute.
Qed.

Lemma shutdown_reached_witness :
  exists w', serve_turns [(id, id); (id, id)] stopping = (Ok false, w') /\ last (sent w') = Some (4%Z, ReplyDone).
Proof.
  apply (shutdown_reached _ _ stopping [ContainerCount 3] 4 [] _ stopping_reachable).
  - by vm_compute.
  - intros x. rewrite list_elem_of_singleton. discriminate.
  - repeat constructor; intros w; apply rtc_refl.
  - cbn. lia.
Defined.

(** A client asks for the count while the daemon is told to stop. *)
Definition late : World Host := arrive (ContainerCount 5) stopping.
Definition stopped : World Host := hang_up (served (served late)).

Lemma ended_reachable : reachable (MkHost 0 true) "C:\pool" (Ended, stopped).
Proof.
  eapply rtc_r.
  { apply reach_served; [apply (reach_arrive _ _ stopping (ContainerCount 5)); [apply stopping_reachable|done|..]|by vm_compute].
    - apply NoDup_singleton.
    - apply (bool_decide_unpack _). by vm_compute. }
  assert (Ho : (serve_next id (served late)).1 = Ok false) by by vm_compute.
  unfold stopped, served at 2. destruct (serve_next id (served late)) as [r w'] eqn:E. cbn in Ho. subst r.
  exact (step_serve id (served late) (Ok false) w' fair_id E).
Qed.

Lemma replies_conserved_witness :
  issued stopped = [5; 4; 3; 1]%Z /\ dropped stopped = [(5%Z, WorkerGone)] /\
  held_replies stopped ++ (sent stopped).*1 ++ (dropped stopped).*1 ≡ₚ issued stopped.
Proof.
  split; [by vm_compute|split; [by vm_compute|]]. apply (replies_conserved _ _ _ _ ended_reachable).
Defined.

Lemma shutdown_leaves_nothing_witness : sessions (wk stopped) = ∅.
Proof. destruct (shutdown_leaves_nothing _ _ _ ended_reachable) as (_ & Hs & _). exact Hs. Defined.

Lemma release_without_a_thread_witness :
  exists w', release_session_entry id "wslcsess:" (Some 2%Z) (running false) = (Ok tt, w') /\
    sessions (wk w') = sessions (wk (running false)) /\ default_session (wk w') <> Some "wslcsess:" /\
    (forall x, Some 2%Z = Some x -> (x, NoReleaseThread) ∈ dropped w').
Proof.
  apply (release_without_a_thread id (running false) "wslcsess:"
    (MkSession 7 (StoreSlots.MkLease 0 "C:\pool\slot-0") "mxc-wslc-daemon-" SessionSizing_default None)).
  - apply fair_id.
  - by vm_compute.
  - by vm_compute.
Defined.
End WslcDaemon.
