(* ===== verification/WslcStreams.v ===== *)
(** * Byte streams of the WSLC backend

    [backends/wslc/common/stream_buffer.rs]: the queue between the SDK's output
    callbacks and a caller that reads them live, with its condition variable;
    [enqueue_output] of [bin/wslc_daemon/session_manager.rs]: the bounded,
    never-blocking queue of the daemon; and the length-prefixed frames of
    [backends/wslc/common/daemon_protocol.rs].  Each operation under a lock is
    one step; the theorems hold for every interleaving of the steps. *)

From stdpp Require Import relations.
From S2P Require Import Prelude.

#[local] Open Scope nat_scope.

(** ** [stream_buffer.rs] *)

Module StreamBuffer.

Record State : Type := MkState {
  buffer : list Z;
  max_buffered_bytes : option nat;
  overflowed : bool;
  closed : bool;
  cancelled : bool;
}.

Definition stream_pair_with_limit (max_buffered_bytes : option nat) : State :=
  MkState [] max_buffered_bytes false false false.

Definition stream_pair : State := stream_pair_with_limit None.
Definition bounded_stream_pair (max_buffered_bytes : nat) : State := stream_pair_with_limit (Some max_buffered_bytes).

(** [StreamWriter::write]: the state, and whether a parked reader is woken. *)
Definition write (bytes : list Z) (s : State) : State * bool :=
  if closed s || cancelled s || overflowed s || (length bytes =? 0) then (s, false)
  else
    let append := (MkState (buffer s ++ bytes) (max_buffered_bytes s) (overflowed s) (closed s) (cancelled s), true) in
    match max_buffered_bytes s with
    | Some m =>
        let available := m - length (buffer s) in
        if available <? length bytes
        then (MkState (buffer s ++ take available bytes) (max_buffered_bytes s) true (closed s) (cancelled s), true)
        else append
    | None => append
    end.

(** [StreamWriter::close], also what dropping the writer does. *)
Definition close (s : State) : State :=
  MkState (buffer s) (max_buffered_bytes s) (overflowed s) true (cancelled s).

(** [abandon], what a canceller and dropping the reader do. *)
Definition abandon (s : State) : State :=
  MkState [] (max_buffered_bytes s) (overflowed s) (closed s) true.

(** The condition [StreamReader::read] parks on. *)
Definition must_wait (s : State) : bool := (length (buffer s) =? 0) && negb (closed s) && negb (cancelled s).

(** What a read of up to [n] bytes returns once it need not wait. *)
Definition take_bytes (n : nat) (s : State) : list Z * State :=
  if cancelled s then ([], s)
  else (take n (buffer s),
        MkState (drop n (buffer s)) (max_buffered_bytes s) (overflowed s) (closed s) (cancelled s)).

Definition has_overflowed (s : State) : bool := overflowed s.

(** *** The writer's callbacks and the reader, interleaved *)

(** The reader: outside a read, or parked in one of [n] bytes, and whether it
    has been notified since. *)
Inductive Reader : Type :=
| Away
| Parked (n : nat) (notified : bool).

Definition notify (r : Reader) : Reader :=
  match r with Away => Away | Parked n _ => Parked n true end.

(** [offered]: the bytes written before the writer closed the stream; [got]: the
    bytes reads returned; [eof]: a read of a nonempty buffer returned none. *)
Record Stream : Type := MkStream {
  state : State;
  reader : Reader;
  offered : list Z;
  got : list Z;
  eof : bool;
}.

(** A read of [n > 0] bytes holds the lock: it parks or returns. *)
Definition read (n : nat) (x : Stream) : Stream :=
  if n =? 0 then MkStream (state x) Away (offered x) (got x) (eof x)
  else if must_wait (state x) then MkStream (state x) (Parked n false) (offered x) (got x) (eof x)
  else let '(bytes, s) := take_bytes n (state x) in
       MkStream s Away (offered x) (got x ++ bytes) (eof x || (length bytes =? 0)).

Inductive step : Stream -> Stream -> Prop :=
| step_write x bytes :
    step x (let '(s, woken) := write bytes (state x) in
            MkStream s (if woken then notify (reader x) else reader x)
              (if closed (state x) then offered x else offered x ++ bytes) (got x) (eof x))
| step_close x :
    step x (MkStream (close (state x)) (notify (reader x)) (offered x) (got x) (eof x))
| step_abandon x :
    step x (MkStream (abandon (state x)) (notify (reader x)) (offered x) (got x) (eof x))
| step_read x n : reader x = Away -> step x (read n x)
(** A wake-up, notified or spurious, looks at the condition again. *)
| step_wake x n notified : reader x = Parked n notified -> step x (read n x).

Definition opened (max : option nat) : Stream := MkStream (stream_pair_with_limit max) Away [] [] false.

(** *** What every interleaving keeps *)

Record sound (max : option nat) (x : Stream) : Prop := MkSound {
  sound_limit : max_buffered_bytes (state x) = max;
  (** Nothing is reordered, duplicated or dropped inside. *)
  sound_prefix : cancelled (state x) = false -> exists lost, offered x = got x ++ buffer (state x) ++ lost /\
    (overflowed (state x) = false -> lost = []);
  sound_got : got x `prefix_of` offered x;
  sound_bound m : max = Some m -> length (buffer (state x)) <= m;
  sound_full : overflowed (state x) = true -> is_Some max;
  sound_parked n : reader x = Parked n false -> must_wait (state x) = true;
  sound_abandoned : cancelled (state x) = true -> buffer (state x) = [];
  sound_eof : eof x = true -> cancelled (state x) = true \/ closed (state x) = true /\ buffer (state x) = [];
}.

Lemma opened_sound max : sound max (opened max).
Proof. constructor; cbn; try done. by exists []. intros m _. lia. Qed.


Lemma write_spec bytes s :
  write bytes s = (s, false) /\ (closed s = true \/ cancelled s = true \/ overflowed s = true \/ bytes = []) \/
  exists kept dropped, bytes = kept ++ dropped /\ closed s = false /\ cancelled s = false /\ overflowed s = false /\
    write bytes s = (MkState (buffer s ++ kept) (max_buffered_bytes s) (negb (length dropped =? 0)) false false, true) /\
    (dropped <> [] -> is_Some (max_buffered_bytes s)) /\
    (forall m, max_buffered_bytes s = Some m -> length (buffer s) <= m -> length (buffer s ++ kept) <= m).
Proof.
  unfold write. destruct (closed s) eqn:Hc; [by left; auto|]. destruct (cancelled s) eqn:Hx; [by left; auto|].
  destruct (overflowed s) eqn:Ho; [by left; auto|]. cbn [orb]. destruct (Nat.eqb_spec (length bytes) 0) as [Hz|Hz].
  { left. apply nil_length_inv in Hz. auto. }
  right. destruct (max_buffered_bytes s) as [m|] eqn:Hm.
  - destruct (Nat.ltb_spec (m - length (buffer s)) (length bytes)) as [Hlt|Hge].
    + exists (take (m - length (buffer s)) bytes), (drop (m - length (buffer s)) bytes).
      rewrite take_drop. split_and!; try done.
      * repeat f_equal. rewrite length_drop. symmetry. apply negb_true_iff, Nat.eqb_neq. lia.
      * intros m' [= ->] Hle. rewrite length_app, length_take. lia.
    + exists bytes, []. rewrite app_nil_r. split_and!; try done. intros m' [= ->] Hle. rewrite length_app. lia.
  - exists bytes, []. rewrite app_nil_r. split_and!; done.
Qed.

Lemma must_wait_spec s : must_wait s = true <-> buffer s = [] /\ closed s = false /\ cancelled s = false.
Proof.
  unfold must_wait. rewrite !andb_true_iff, !negb_true_iff, Nat.eqb_eq. split.
  - intros [[H1%nil_length_inv H2] H3]. done.
  - by intros (-> & -> & ->).
Qed.

Lemma write_sound max x bytes :
  sound max x ->
  sound max (let '(s, woken) := write bytes (state x) in
             MkStream s (if woken then notify (reader x) else reader x)
               (if closed (state x) then offered x else offered x ++ bytes) (got x) (eof x)).
Proof.
  intros Hs. destruct (write_spec bytes (state x)) as [[-> Hwhy]|(kept & dropped & Hb & Hc & Hx & Ho & -> & Hfull & Hbound)].
  - constructor; cbn; try apply Hs.
    + intros Hx. destruct (sound_prefix _ _ Hs Hx) as (lost & Heq & Hl). destruct (closed (state x)) eqn:Hc; [by exists lost|].
      exists (lost ++ bytes). rewrite Heq, <- !app_assoc. split; [done|]. intros Ho. rewrite (Hl Ho).
      destruct Hwhy as [?|[?|[?| ->]]]; [congruence..|done].
    + destruct (closed (state x)); [apply Hs|]. apply prefix_app_r, Hs.
  - rewrite Hc. destruct (sound_prefix _ _ Hs Hx) as (lost & Heq & Hl). rewrite (Hl Ho), app_nil_r in Heq.
    constructor; cbn; try apply Hs.
    + intros _. exists dropped. rewrite Heq, Hb, <- !app_assoc. split; [done|].
      intros Hd%negb_false_iff%Nat.eqb_eq. by apply nil_length_inv.
    + apply prefix_app_r, Hs.
    + intros m Hm. apply Hbound; [by rewrite (sound_limit _ _ Hs)|]. by apply (sound_bound _ _ Hs).
    + intros Hd%negb_true_iff%Nat.eqb_neq. rewrite <- (sound_limit _ _ Hs). apply Hfull. by intros ->.
    + intros n. unfold notify. by destruct (reader x).
    + done.
    + intros He. destruct (sound_eof _ _ Hs He) as [?|[? _]]; congruence.
Qed.

Lemma read_sound max x n : sound max x -> sound max (read n x).
Proof.
  intros Hs. unfold read. destruct (Nat.eqb_spec n 0) as [|Hn]; [constructor; cbn; try apply Hs; done|].
  destruct (must_wait (state x)) eqn:Hw; [constructor; cbn; try apply Hs; by intros|].
  unfold take_bytes. destruct (cancelled (state x)) eqn:Hx.
  { constructor; cbn; rewrite ?app_nil_r; try apply Hs; [done|]. by left. }
  destruct (sound_prefix _ _ Hs Hx) as (lost & Heq & Hl).
  assert (Hsplit : offered x = (got x ++ take n (buffer (state x))) ++ drop n (buffer (state x)) ++ lost).
  { rewrite <- app_assoc, (app_assoc (take _ _)), take_drop. done. }
  constructor; cbn; try apply Hs; try done.
  - intros _. by exists lost.
  - by eexists.
  - intros m Hm. rewrite length_drop. pose proof (sound_bound _ _ Hs m Hm). lia.
  - intros He. right. destruct (eof x) eqn:Hex; cbn in He.
    + destruct (sound_eof _ _ Hs Hex) as [?|[? Hb]]; [congruence|]. by rewrite Hb, drop_nil.
    + apply Nat.eqb_eq in He. rewrite length_take in He.
      assert (Hb : buffer (state x) = []) by (apply nil_length_inv; lia).
      rewrite Hb, drop_nil. split; [|done]. destruct (closed (state x)) eqn:Hc; [done|].
      assert (must_wait (state x) = true) by (by apply must_wait_spec). congruence.
Qed.

Lemma stream_step_sound max x y : sound max x -> step x y -> sound max y.
Proof.
  intros Hs Hxy. destruct Hxy; [by apply write_sound| | |by apply read_sound|by apply read_sound].
  - constructor; cbn; try apply Hs.
    + intros n. by destruct (reader x).
    + intros He. destruct (sound_eof _ _ Hs He) as [?|[? ?]]; auto.
  - constructor; cbn; try apply Hs; try done.
    + intros m _. lia.
    + intros n. by destruct (reader x).
    + by left.
Qed.

Lemma stream_reachable_sound max x : rtc step (opened max) x -> sound max x.
Proof.
  intros Hr. apply (rtc_ind_r (sound max)) in Hr; [done|apply opened_sound|]. intros y z _ Hyz Hy. by eapply stream_step_sound.
Qed.

(** However writes, reads, closing and cancelling interleave, what has been
    read is a prefix of what was written; short of cancellation and overflow
    nothing is missing between what was read and what is buffered; a bounded
    stream never holds more than its limit, and an unbounded one never
    overflows. *)
Theorem stream_delivers_prefix max x :
  rtc step (opened max) x ->
  got x `prefix_of` offered x /\
  (cancelled (state x) = false -> has_overflowed (state x) = false -> offered x = got x ++ buffer (state x)) /\
  (forall m, max = Some m -> length (buffer (state x)) <= m) /\ (max = None -> has_overflowed (state x) = false).
Proof.
  intros Hr%stream_reachable_sound. split_and!.
  - apply Hr.
  - intros Hx Ho. destruct (sound_prefix _ _ Hr Hx) as (lost & -> & Hl). by rewrite (Hl Ho), app_nil_r.
  - apply Hr.
  - intros ->. destruct (has_overflowed (state x)) eqn:Ho; [|done]. by destruct (sound_full _ _ Hr Ho).
Qed.

(** No wake-up is lost and no end of stream is reported early: a reader that
    is parked without a pending notification has nothing to return, and a read
    reports the end only of a cancelled stream, or of a closed one of which,
    overflow apart, every byte was read. *)
Theorem stream_reader_never_stuck max x :
  rtc step (opened max) x ->
  (forall n, reader x = Parked n false -> must_wait (state x) = true) /\
  (eof x = true -> cancelled (state x) = false -> closed (state x) = true /\
     (has_overflowed (state x) = false -> got x = offered x)).
Proof.
  intros Hr%stream_reachable_sound. split; [apply Hr|]. intros He Hx.
  destruct (sound_eof _ _ Hr He) as [?|[Hc Hb]]; [congruence|]. split; [done|]. intros Ho.
  destruct (sound_prefix _ _ Hr Hx) as (lost & -> & Hl). by rewrite (Hl Ho), Hb, !app_nil_r.
Qed.

(** A bounded stream that overflows, and is read to its end. *)
Definition short_read : Stream :=
  read 4 (MkStream (close (fst (write [1; 2; 3]%Z (stream_pair_with_limit (Some 2))))) Away [1; 2; 3]%Z [] false).

Lemma short_read_reachable : rtc step (opened (Some 2)) short_read.
Proof.
  eapply rtc_l; [apply (step_write _ [1; 2; 3]%Z)|]. eapply rtc_l; [apply step_close|]. cbn.
  eapply rtc_l; [by apply (step_read _ 4)|]. apply rtc_refl.
Qed.

Lemma stream_delivers_prefix_witness : got short_read = [1; 2]%Z /\ got short_read `prefix_of` offered short_read.
Proof. split; [done|]. apply (stream_delivers_prefix _ _ short_read_reachable). Defined.

Definition whole_read : Stream :=
  read 4 (read 4 (MkStream (close (fst (write [1; 2; 3]%Z (stream_pair_with_limit None)))) Away [1; 2; 3]%Z [] false)).

Lemma whole_read_reachable : rtc step (opened None) whole_read.
Proof.
  eapply rtc_l; [apply (step_write _ [1; 2; 3]%Z)|]. eapply rtc_l; [apply step_close|]. cbn.
  eapply rtc_l; [by apply (step_read _ 4)|]. eapply rtc_l; [by apply (step_read _ 4)|]. apply rtc_refl.
Qed.

Lemma stream_reader_never_stuck_witness : eof whole_read = true /\ got whole_read = offered whole_read.
Proof.
  split; [done|]. destruct (stream_reader_never_stuck _ _ whole_read_reachable) as [_ He].
  destruct He as [_ Hg]; [done|done|]. by apply Hg.
Defined.

End StreamBuffer.

(** ** The live output of an exec, [session_manager.rs::enqueue_output] *)

Module LiveOutput.

Inductive OutStream : Type := Stdout | Stderr.
#[global] Instance OutStream_eq_dec : EqDecision OutStream.
Proof. solve_decision. Defined.

Definition LIVE_OUTPUT_CHANNEL_CAPACITY : nat := 256.
Definition LIVE_OUTPUT_MAX_CHUNK_BYTES : nat := 64 * 1024.
#[global] Arguments LIVE_OUTPUT_CHANNEL_CAPACITY : simpl never.
#[global] Arguments LIVE_OUTPUT_MAX_CHUNK_BYTES : simpl never.

(** [slice::chunks]; the fuel is the length. *)
Fixpoint chunks_go (fuel n : nat) (l : list Z) : list (list Z) :=
  match fuel, l with
  | S fuel, _ :: _ => take n l :: chunks_go fuel n (drop n l)
  | _, _ => []
  end.
Definition chunks (n : nat) (l : list Z) : list (list Z) := chunks_go (length l) n l.

(** The bounded channel and the latch. *)
Record Sink : Type := MkSink {
  queue : list (OutStream * list Z);
  receiver_closed : bool;
  overflowed : bool;
}.

Inductive TrySendError : Type := Full | Closed.

Definition try_send (x : OutStream * list Z) (s : Sink) : result TrySendError Sink :=
  if receiver_closed s then Err Closed
  else if LIVE_OUTPUT_CHANNEL_CAPACITY <=? length (queue s) then Err Full
  else Ok (MkSink (queue s ++ [x]) (receiver_closed s) (overflowed s)).

Definition latch (s : Sink) : Sink := MkSink (queue s) (receiver_closed s) true.

(** The loop of [enqueue_output]. *)
Fixpoint enqueue_chunks (kind : OutStream) (l : list (list Z)) (s : Sink) : Sink :=
  match l with
  | [] => s
  | chunk :: l =>
      match try_send (kind, chunk) s with
      | Ok s => enqueue_chunks kind l s
      | Err Full => latch s
      | Err Closed => s
      end
  end.

Definition enqueue_output (kind : OutStream) (bytes : list Z) (s : Sink) : Sink :=
  if overflowed s then s else enqueue_chunks kind (chunks LIVE_OUTPUT_MAX_CHUNK_BYTES bytes) s.

(** *** The callback threads and the pipe handler, interleaved *)

(** The SDK delivers the output of a stream from one thread, the two streams
    from two: [busy] is what is left of the callback in progress.  The latch is
    read and written as one cell: a callback of the other stream that still reads
    it unset is one that began earlier.  [received] is
    what the pipe handler took, [produced] the bytes of each stream. *)
Record Live : Type := MkLive {
  sink : Sink;
  busy : OutStream -> option (list (list Z));
  received : list (OutStream * list Z);
  produced : OutStream -> list Z;
}.

Definition upd {A} (f : OutStream -> A) (k : OutStream) (a : A) : OutStream -> A :=
  fun k' => if decide (k' = k) then a else f k'.

Inductive callback : Live -> Live -> Prop :=
(** A callback starts: the latch is read once. *)
| step_begin x k bytes :
    busy x k = None ->
    callback x (MkLive (sink x)
              (if overflowed (sink x) then busy x
               else upd (busy x) k (Some (chunks LIVE_OUTPUT_MAX_CHUNK_BYTES bytes)))
              (received x) (upd (produced x) k (produced x k ++ bytes)))
| step_sent x k chunk l s :
    busy x k = Some (chunk :: l) -> try_send (k, chunk) (sink x) = Ok s ->
    callback x (MkLive s (upd (busy x) k (Some l)) (received x) (produced x))
| step_full x k chunk l :
    busy x k = Some (chunk :: l) -> try_send (k, chunk) (sink x) = Err Full ->
    callback x (MkLive (latch (sink x)) (upd (busy x) k None) (received x) (produced x))
| step_closed x k chunk l :
    busy x k = Some (chunk :: l) -> try_send (k, chunk) (sink x) = Err Closed ->
    callback x (MkLive (sink x) (upd (busy x) k None) (received x) (produced x))
| step_end x k :
    busy x k = Some [] -> callback x (MkLive (sink x) (upd (busy x) k None) (received x) (produced x)).

(** The handler takes a chunk, or closes the channel. *)
Definition take_chunk (c : OutStream * list Z) (q : list (OutStream * list Z)) (x : Live) : Live :=
  MkLive (MkSink q (receiver_closed (sink x)) (overflowed (sink x))) (busy x) (received x ++ [c]) (produced x).
Definition close_channel (x : Live) : Live :=
  MkLive (MkSink (queue (sink x)) true (overflowed (sink x))) (busy x) (received x) (produced x).

Inductive step : Live -> Live -> Prop :=
| step_callback x y : callback x y -> step x y
| step_recv x c q : queue (sink x) = c :: q -> step x (take_chunk c q x)
| step_close x : step x (close_channel x).

Definition started : Live := MkLive (MkSink [] false false) (fun _ => None) [] (fun _ => []).

(** The bytes of one stream among chunks. *)
Definition of_stream (k : OutStream) (l : list (OutStream * list Z)) : list Z :=
  concat (snd <$> filter (fun c => c.1 = k) l).

#[global] Arguments of_stream : simpl never.

Definition delivered (k : OutStream) (x : Live) : list Z := of_stream k (received x ++ queue (sink x)).

(** *** Chunking *)

Lemma chunks_go_spec fuel n l :
  length l <= fuel -> 0 < n ->
  concat (chunks_go fuel n l) = l /\ Forall (fun c => 0 < length c <= n) (chunks_go fuel n l).
Proof.
  revert l. induction fuel as [|fuel IH]; intros l Hl Hn; [apply Nat.le_0_r, nil_length_inv in Hl as ->; done|].
  destruct l as [|b l]; [done|]. cbn [chunks_go].
  destruct (IH (drop n (b :: l))) as [Hc Hf]; [rewrite length_drop; cbn in *; lia|done|]. split.
  - cbn [concat]. by rewrite Hc, take_drop.
  - constructor; [|done]. rewrite length_take. cbn. lia.
Qed.

Lemma chunks_spec n l :
  0 < n -> concat (chunks n l) = l /\ Forall (fun c => 0 < length c <= n) (chunks n l).
Proof. intros Hn. by apply chunks_go_spec. Qed.

Lemma of_stream_app k l1 l2 : of_stream k (l1 ++ l2) = of_stream k l1 ++ of_stream k l2.
Proof. unfold of_stream. by rewrite filter_app, fmap_app, concat_app. Qed.

Lemma of_stream_one k k' c : of_stream k [(k', c)] = if decide (k = k') then c else [].
Proof.
  unfold of_stream. rewrite filter_cons, filter_nil. cbn. destruct (decide (k = k')), (decide (k' = k)); try congruence.
  - cbn. by rewrite app_nil_r.
  - done.
Qed.

Lemma try_send_Ok x s s' :
  try_send x s = Ok s' -> s' = MkSink (queue s ++ [x]) (receiver_closed s) (overflowed s) /\
    receiver_closed s = false /\ length (queue s) < LIVE_OUTPUT_CHANNEL_CAPACITY.
Proof.
  unfold try_send. destruct (receiver_closed s); [done|]. destruct (Nat.leb_spec LIVE_OUTPUT_CHANNEL_CAPACITY (length (queue s))); [done|].
  by intros [= <-].
Qed.

Lemma try_send_Closed x s : try_send x s = Err Closed -> receiver_closed s = true.
Proof. unfold try_send. destruct (receiver_closed s); [done|]. by case_match. Qed.

(** *** What every interleaving keeps *)

Definition remaining (k : OutStream) (x : Live) : list Z := concat (default [] (busy x k)).

Record sound (x : Live) : Prop := MkSound {
  sound_stream k :
    produced x k = delivered k x ++ remaining k x \/
    exists lost, produced x k = delivered k x ++ lost /\
      (busy x k = None /\ overflowed (sink x) = true \/ receiver_closed (sink x) = true);
  sound_chunks : Forall (fun c => 0 < length c.2 <= LIVE_OUTPUT_MAX_CHUNK_BYTES) (received x ++ queue (sink x));
  sound_busy k l : busy x k = Some l -> Forall (fun c => 0 < length c <= LIVE_OUTPUT_MAX_CHUNK_BYTES) l;
  sound_capacity : length (queue (sink x)) <= LIVE_OUTPUT_CHANNEL_CAPACITY;
}.


Lemma upd_eq {A} (f : OutStream -> A) k a : upd f k a k = a.
Proof. unfold upd. by rewrite decide_True. Qed.
Lemma upd_ne {A} (f : OutStream -> A) k k' a : k' <> k -> upd f k a k' = f k'.
Proof. intros Hne. unfold upd. by rewrite decide_False. Qed.

Lemma live_begin_sound x k bytes :
  sound x -> busy x k = None ->
  sound (MkLive (sink x)
           (if overflowed (sink x) then busy x else upd (busy x) k (Some (chunks LIVE_OUTPUT_MAX_CHUNK_BYTES bytes)))
           (received x) (upd (produced x) k (produced x k ++ bytes))).
Proof.
  intros Hs Hb. assert (Hn : 0 < LIVE_OUTPUT_MAX_CHUNK_BYTES) by (unfold LIVE_OUTPUT_MAX_CHUNK_BYTES; lia).
  destruct (chunks_spec _ bytes Hn) as [Hcat Hlen]. constructor; cbn; try apply Hs.
  - intros k'. pose proof (sound_stream _ Hs k') as Hk. unfold delivered, remaining in *. cbn.
    destruct (decide (k' = k)) as [->|Hne].
    + rewrite upd_eq. destruct (overflowed (sink x)) eqn:Ho.
      * right. destruct Hk as [Hk|(lost & Hk & _)].
        -- exists (remaining k x ++ bytes). rewrite Hk, <- app_assoc. split; [done|]. by left.
        -- exists (lost ++ bytes). rewrite Hk, <- app_assoc. split; [done|]. by left.
      * rewrite upd_eq. cbn. rewrite Hcat. destruct Hk as [Hk|(lost & Hk & [[_ ?]|Hc])]; [|done|].
        -- left. rewrite Hk, Hb. cbn. by rewrite app_nil_r.
        -- right. exists (lost ++ bytes). rewrite Hk, <- app_assoc. auto.
    + rewrite upd_ne by done. destruct (overflowed (sink x)); [done|]. by rewrite upd_ne.
  - intros k' l. destruct (overflowed (sink x)); [apply Hs|]. unfold upd. case_decide; [|apply Hs]. by intros [= <-].
Qed.

Lemma sent_sound x k chunk l s :
  sound x -> busy x k = Some (chunk :: l) -> try_send (k, chunk) (sink x) = Ok s ->
  sound (MkLive s (upd (busy x) k (Some l)) (received x) (produced x)).
Proof.
  intros Hs Hb (-> & Hc & Hlt)%try_send_Ok. pose proof (sound_busy _ Hs k _ Hb) as Hf.
  apply Forall_cons in Hf as [Hf1 Hf2]. constructor; cbn.
  - intros k'. pose proof (sound_stream _ Hs k') as Hk. unfold delivered, remaining in *. cbn.
    rewrite app_assoc, of_stream_app, of_stream_one. destruct (decide (k' = k)) as [->|Hne].
    + rewrite upd_eq. left. destruct Hk as [Hk|(lost & _ & [[? _]|?])]; [|congruence..]. rewrite Hk, Hb. cbn.
      by rewrite <- app_assoc.
    + rewrite upd_ne, app_nil_r by done. exact Hk.
  - rewrite app_assoc. apply Forall_app. split; [apply Hs|by constructor].
  - intros k' l'. unfold upd. case_decide; [|apply Hs]. by intros [= <-].
  - rewrite length_app. cbn. lia.
Qed.

(** A callback gives up: the latch was set, or nobody reads any more. *)
Lemma give_up_sound x k l s :
  sound x -> busy x k = Some l -> queue s = queue (sink x) ->
  (overflowed (sink x) = true -> overflowed s = true) -> (receiver_closed (sink x) = true -> receiver_closed s = true) ->
  (l = [] \/ overflowed s = true \/ receiver_closed s = true) ->
  sound (MkLive s (upd (busy x) k None) (received x) (produced x)).
Proof.
  intros Hs Hb Hq Ho Hc Hl. constructor; cbn; rewrite ?Hq; try apply Hs.
  - intros k'. pose proof (sound_stream _ Hs k') as Hk. unfold delivered, remaining in *. cbn. rewrite Hq.
    destruct (decide (k' = k)) as [->|Hne].
    + rewrite upd_eq. cbn. destruct Hk as [Hk|(lost & Hk & [[? _]|Hr])]; [|congruence|].
      * rewrite Hb in Hk. cbn in Hk. destruct Hl as [->|[?|?]]; [by left| |]; right; exists (concat l); auto.
      * right. exists lost. auto.
    + rewrite upd_ne by done. destruct Hk as [?|(lost & ? & [[? ?]|?])]; [by left|..]; right; exists lost; auto.
  - intros k' l'. unfold upd. case_decide; [done|apply Hs].
Qed.

Lemma live_step_sound x y : sound x -> step x y -> sound y.
Proof.
  intros Hs Hxy. destruct Hxy as [x y Hxy|x c q Hq|x];
    [destruct Hxy as [x k bytes Hb|x k chunk l s Hb Ht|x k chunk l Hb Ht|x k chunk l Hb Ht|x k Hb]|..].
  - by apply live_begin_sound.
  - by eapply sent_sound.
  - eapply give_up_sound; eauto.
  - eapply give_up_sound; eauto. apply try_send_Closed in Ht. auto.
  - eapply give_up_sound; eauto.
  - pose proof (sound_capacity _ Hs) as Hcap. rewrite Hq in Hcap. constructor; cbn; try apply Hs.
    + intros k. pose proof (sound_stream _ Hs k) as Hk. unfold delivered in *. cbn. rewrite Hq in Hk.
      by rewrite <- app_assoc.
    + pose proof (sound_chunks _ Hs) as Hf. rewrite Hq in Hf. by rewrite <- app_assoc.
    + cbn in Hcap. lia.
  - constructor; cbn; try apply Hs. intros k. destruct (sound_stream _ Hs k) as [Hk|(lost & Hk & _)]; [by left|right].
    exists lost. auto.
Qed.

Lemma live_reachable_sound x : rtc step started x -> sound x.
Proof.
  intros Hr. apply (rtc_ind_r sound) in Hr; [done| |intros y z _ Hyz Hy; by eapply live_step_sound].
  constructor; cbn; try done; [by left|]. unfold LIVE_OUTPUT_CHANNEL_CAPACITY. lia.
Qed.

(** The function is the steps of one callback without interruption. *)
Lemma enqueue_chunks_steps x k l :
  busy x k = Some l ->
  exists y, rtc step x y /\ sink y = enqueue_chunks k l (sink x) /\ busy y k = None /\
    received y = received x /\ produced y = produced x.
Proof.
  revert x. induction l as [|chunk l IH]; intros x Hb; cbn [enqueue_chunks].
  - eexists. split; [eapply rtc_l; [by apply step_callback, (step_end _ k)|apply rtc_refl]|]. cbn. by rewrite upd_eq.
  - destruct (try_send (k, chunk) (sink x)) as [s|[|]] eqn:Ht.
    + destruct (IH (MkLive s (upd (busy x) k (Some l)) (received x) (produced x))) as (y & Hy & Hrest); [apply upd_eq|].
      exists y. split; [|done]. eapply rtc_l; [by eapply step_callback, step_sent|exact Hy].
    + eexists. split; [eapply rtc_l; [by eapply step_callback, (step_full _ k)|apply rtc_refl]|]. cbn. by rewrite upd_eq.
    + eexists. split; [eapply rtc_l; [by eapply step_callback, (step_closed _ k)|apply rtc_refl]|]. cbn. by rewrite upd_eq.
Qed.

Lemma enqueue_output_steps x k bytes :
  busy x k = None ->
  exists y, rtc step x y /\ sink y = enqueue_output k bytes (sink x) /\ busy y k = None /\
    received y = received x /\ produced y k = produced x k ++ bytes.
Proof.
  intros Hb. unfold enqueue_output. pose proof (step_callback _ _ (step_begin x k bytes Hb)) as Hs.
  destruct (overflowed (sink x)) eqn:Ho.
  - eexists. split; [eapply rtc_l; [exact Hs|apply rtc_refl]|]. cbn. by rewrite upd_eq.
  - destruct (enqueue_chunks_steps (MkLive (sink x)
      (upd (busy x) k (Some (chunks LIVE_OUTPUT_MAX_CHUNK_BYTES bytes))) (received x)
      (upd (produced x) k (produced x k ++ bytes))) k (chunks LIVE_OUTPUT_MAX_CHUNK_BYTES bytes)) as (y & Hy & H1 & H2 & H3 & H4);
      [apply upd_eq|].
    exists y. split; [by eapply rtc_l|]. rewrite H4. cbn. by rewrite upd_eq.
Qed.

(** Whatever the callbacks of the two streams and the pipe handler
    interleave to, the client gets of each stream a prefix, without a gap, of
    what the process wrote, all of it unless the latch is set or the receiver
    closed; the queue never exceeds its capacity, no chunk is empty or larger
    than its bound, and a callback run on its own does what [enqueue_output]
    computes. *)
Theorem live_output_prefix x :
  rtc step started x ->
  (forall k, delivered k x `prefix_of` produced x k) /\
  (forall k, busy x k = None -> overflowed (sink x) = false -> receiver_closed (sink x) = false ->
     delivered k x = produced x k) /\
  length (queue (sink x)) <= LIVE_OUTPUT_CHANNEL_CAPACITY /\
  Forall (fun c => 0 < length c.2 <= LIVE_OUTPUT_MAX_CHUNK_BYTES) (received x ++ queue (sink x)) /\
  (forall k bytes, busy x k = None -> exists y, rtc step x y /\ sink y = enqueue_output k bytes (sink x) /\
     received y = received x /\ produced y k = produced x k ++ bytes).
Proof.
  intros Hr%live_reachable_sound. split_and!; [| |apply Hr..|].
  - intros k. destruct (sound_stream _ Hr k) as [Hk|(lost & Hk & _)]; rewrite Hk; by eexists.
  - intros k Hb Ho Hc. destruct (sound_stream _ Hr k) as [Hk|(lost & _ & [[_ ?]|?])]; [|congruence..].
    rewrite Hk. unfold remaining. rewrite Hb. cbn. by rewrite app_nil_r.
  - intros k bytes Hb. destruct (enqueue_output_steps x k bytes Hb) as (y & Hy & H1 & _ & H2 & H3). by exists y.
Qed.

Lemma live_output_prefix_witness :
  exists x, rtc step started x /\ produced x Stdout = [1; 2; 3]%Z /\
    delivered Stdout x `prefix_of` produced x Stdout /\ queue (sink x) = [(Stdout, [1; 2; 3]%Z)].
Proof.
  destruct (enqueue_output_steps started Stdout [1; 2; 3]%Z) as (x & Hx & Hs & _ & _ & Hp); [done|].
  exists x. split_and!; [done|done| |].
  - by apply (live_output_prefix x Hx).
  - rewrite Hs. by vm_compute.
Defined.

End LiveOutput.

(** ** Frames of the control protocol, [daemon_protocol.rs] *)

Module Framing.

Definition MAX_FRAME_SIZE : Z := 16 * 1024 * 1024.
#[global] Arguments MAX_FRAME_SIZE : simpl never.

(** [u32::to_le_bytes] and [u32::from_le_bytes]. *)
Definition to_le_bytes (n : Z) : list Z :=
  [n mod 256; n / 256 mod 256; n / 65536 mod 256; n / 16777216 mod 256]%Z.
Definition from_le_bytes (a b c d : Z) : Z := (a + 256 * b + 65536 * c + 16777216 * d)%Z.

(** The derived serialisation of a message through [serde_json], which reads
    back what it wrote. *)
Class Serde (T : Type) := {
  to_vec : T -> result string (list Z);
  from_slice : list Z -> result string T;
  from_slice_to_vec : forall m json, to_vec m = Ok json -> from_slice json = Ok m;
}.

Inductive DecodeResult (T : Type) : Type :=
| Message (message : T) (consumed : nat)
| Incomplete.
Arguments Message {T}.
Arguments Incomplete {T}.

Section Frames.
Context {T : Type} `{!Serde T}.

Definition encode_frame (msg : T) : result string (list Z) :=
  json ← to_vec msg;
  if (MAX_FRAME_SIZE <? Z.of_nat (length json))%Z then Err "message too large for protocol framing"%string
  else
    let len := (Z.of_nat (length json) mod 2 ^ 32)%Z in
    Ok (to_le_bytes len ++ json).

Definition decode_frame (buf : list Z) : result string (DecodeResult T) :=
  match buf with
  | a :: b :: c :: d :: body =>
      let len := from_le_bytes a b c d in
      if (MAX_FRAME_SIZE <? len)%Z then Err "frame length exceeds maximum"%string
      else
        let total := 4 + Z.to_nat len in
        if length buf <? total then Ok Incomplete
        else message ← from_slice (take (Z.to_nat len) body); Ok (Message message total)
  | _ => Ok Incomplete
  end.

(** [daemon_client.rs::read_frame] on the bytes of a pipe: [read_exact] fails
    when they run out. *)
Definition read_frame (pipe : list Z) : result string (T * list Z) :=
  match pipe with
  | a :: b :: c :: d :: body =>
      let len := from_le_bytes a b c d in
      if (MAX_FRAME_SIZE <? len)%Z
      then Err ("incoming frame length " +:+ dec len +:+ " exceeds maximum " +:+ dec MAX_FRAME_SIZE)
      else if length body <? Z.to_nat len then Err "read frame body"%string
      else match from_slice (take (Z.to_nat len) body) with
           | Ok message => Ok (message, drop (Z.to_nat len) body)
           | Err _ => Err "deserialise frame body"%string
           end
  | _ => Err "read frame length prefix"%string
  end.

Lemma le_bytes_roundtrip n :
  (0 <= n < 2 ^ 32)%Z ->
  exists a b c d, to_le_bytes n = [a; b; c; d] /\ from_le_bytes a b c d = n.
Proof.
  intros Hn. do 4 eexists. split; [done|]. unfold from_le_bytes.
  pose proof (Z.div_mod n 256). pose proof (Z.div_mod (n / 256) 256). pose proof (Z.div_mod (n / 65536) 256).
  rewrite !Z.div_div in * by lia. change (256 * 256)%Z with 65536%Z in *. change (65536 * 256)%Z with 16777216%Z in *.
  assert (Hs : (n / 16777216 mod 256 = n / 16777216)%Z).
  { apply Z.mod_small. split; [apply Z.div_pos; lia|]. apply Z.div_lt_upper_bound; lia. }
  lia.
Qed.

(** A frame is its length and its text. *)
Lemma encode_frame_Ok m frame :
  encode_frame m = Ok frame ->
  exists a b c d json, frame = a :: b :: c :: d :: json /\ to_vec m = Ok json /\
    from_le_bytes a b c d = Z.of_nat (length json) /\ (Z.of_nat (length json) <= MAX_FRAME_SIZE)%Z.
Proof.
  unfold encode_frame, mbind, result_bind. destruct (to_vec m) as [json|e] eqn:Hj; [|done].
  destruct (Z.ltb_spec MAX_FRAME_SIZE (Z.of_nat (length json))) as [|Hle]; [done|]. intros Hf.
  assert (Hsmall : (0 <= Z.of_nat (length json) < 2 ^ 32)%Z) by (unfold MAX_FRAME_SIZE in Hle; lia).
  rewrite (Z.mod_small _ (2 ^ 32)) in Hf by done.
  destruct (le_bytes_roundtrip _ Hsmall) as (a & b & c & d & Heq & Hlen). rewrite Heq in Hf. injection Hf as <-.
  by exists a, b, c, d, json.
Qed.

Lemma decode_Incomplete buf : decode_frame buf = Ok Incomplete -> (Z.of_nat (length buf) < 4 + MAX_FRAME_SIZE)%Z.
Proof.
  unfold decode_frame. destruct buf as [|a [|b [|c [|d body]]]]; try (intros _; unfold MAX_FRAME_SIZE; cbn; lia).
  destruct (Z.ltb_spec MAX_FRAME_SIZE (from_le_bytes a b c d)) as [|Hle]; [done|].
  destruct (Nat.ltb_spec (length (a :: b :: c :: d :: body)) (4 + Z.to_nat (from_le_bytes a b c d))) as [Hlt|_].
  - intros _. unfold MAX_FRAME_SIZE in *. lia.
  - unfold mbind, result_bind. by destruct (from_slice _).
Qed.

(** Frames round trip: the frame of a message, whatever follows it on the
    wire, decodes to the message and names its own length, and the blocking
    reader of the client takes exactly the frame off the pipe; every proper
    prefix of it is incomplete, and a decoder never waits for more than the
    largest frame. *)
Theorem frames_roundtrip m frame rest :
  encode_frame m = Ok frame ->
  decode_frame (frame ++ rest) = Ok (Message m (length frame)) /\ read_frame (frame ++ rest) = Ok (m, rest) /\
  (forall buf more, frame = buf ++ more -> more <> [] ->
     decode_frame buf = Ok Incomplete /\ (Z.of_nat (length buf) < 4 + MAX_FRAME_SIZE)%Z).
Proof.
  intros (a & b & c & d & json & -> & Hj & Hlen & Hle)%encode_frame_Ok.
  pose proof (from_slice_to_vec _ _ Hj) as Hback.
  assert (Hmax : (MAX_FRAME_SIZE <? Z.of_nat (length json))%Z = false) by (apply Z.ltb_ge; lia).
  split_and!.
  - unfold decode_frame, mbind, result_bind. cbn [app]. rewrite Hlen, Hmax, Nat2Z.id.
    destruct (Nat.ltb_spec (length (a :: b :: c :: d :: json ++ rest)) (4 + length json)) as [Hlt|_];
      [cbn in Hlt; rewrite length_app in Hlt; lia|]. by rewrite take_app_length, Hback.
  - unfold read_frame. cbn [app]. rewrite Hlen, Hmax, Nat2Z.id.
    destruct (Nat.ltb_spec (length (json ++ rest)) (length json)) as [Hlt|_]; [rewrite length_app in Hlt; lia|].
    by rewrite take_app_length, drop_app_length, Hback.
  - intros buf more Heq Hmore. assert (Hinc : decode_frame buf = Ok Incomplete); [|split; [done|by apply decode_Incomplete]].
    apply (f_equal length) in Heq as Hl. rewrite length_app in Hl. cbn in Hl. destruct more as [|z more]; [done|].
    cbn in Hl. unfold decode_frame.
    destruct buf as [|a' [|b' [|c' [|d' body]]]]; try done. injection Heq as <- <- <- <- Heq.
    rewrite Hlen, Hmax, Nat2Z.id.
    destruct (Nat.ltb_spec (length (a :: b :: c :: d :: body)) (4 + length json)) as [|Hge]; [done|]. cbn in Hge, Hl. lia.
Qed.
End Frames.

(** Bytes as their own text. *)
Definition raw : Serde (list Z).
Proof. refine {| to_vec := fun m => Ok m; from_slice := fun l => Ok l |}. by intros m json [= ->]. Defined.

Lemma frames_roundtrip_witness :
  exists frame, encode_frame (Serde0 := raw) [7; 8]%Z = Ok frame /\ read_frame (Serde0 := raw) (frame ++ [9]%Z) = Ok ([7; 8], [9])%Z.
Proof.
  exists [2; 0; 0; 0; 7; 8]%Z. split; [by vm_compute|].
  by apply (frames_roundtrip (Serde0 := raw) [7; 8]%Z [2; 0; 0; 0; 7; 8]%Z [9]%Z).
Defined.
End Framing.
