(* ===== verification/WslcExecs.v ===== *)
(** * The WSLC daemon: running execs by name

    The registry of [bin/wslc_daemon/session_manager.rs] through which another
    connection cancels an exec or attaches its stdin: [register_exec], the drop
    of an [ExecRegistration], [SessionHandle::cancel_exec] and
    [take_exec_stdin].  An [Arc<AtomicBool>] is the number of its allocation;
    it can be upgraded while its registration or the request, the queue or the
    exec thread hold it.  Each operation holds the registry's lock, so it is one
    step. *)

From Stdlib Require Import Ascii.
From stdpp Require Import gmap.
From S2P Require Import Prelude NetText WslcTypes.

#[local] Open Scope Z_scope.

Module WslcExecs.
Export WslcTypes.

(** [{:?}] of a string; characters outside ASCII are taken as printable. *)
Definition escape_debug (c : ascii) : string :=
  let n := Z.of_nat (nat_of_ascii c) in
  if n =? 0 then "\0"
  else if n =? 9 then "\t"
  else if n =? 10 then "\n"
  else if n =? 13 then "\r"
  else if n =? 34 then "\" +:+ String c ""
  else if n =? 92 then "\\"
  else if (n <? 32) || (n =? 127) then
    "\u{" +:+ (if n <? 16 then "" else String (hex_digit (n / 16)) "") +:+ String (hex_digit (n mod 16)) "}"
  else String c "".

Fixpoint escape_debug_all (s : string) : string :=
  match s with EmptyString => "" | String c s => escape_debug c +:+ escape_debug_all s end.

Definition debug_str (s : string) : string := String "034"%char (escape_debug_all s) +:+ String "034"%char "".

(** ** The registry *)

(** A relay is known by the allocation of its run's flag. *)
Inductive StdinSlot : Type :=
| NotRequested
| Waiting (relay : Z)
| Claimed.

Record ActiveExec : Type := MkActive {
  active_token : string;
  active_flag : Z;
  stdin : StdinSlot;
}.

Record ExecRegistration : Type := MkRegistration {
  registered_id : string;
  registered_token : string;
  registered_flag : Z;
}.

(** [live]: the registrations that have not been dropped, by their flag; [held]:
    the flags a request, the queue or an exec thread holds; [raised]: the flags
    that read true; [over]: the runs whose stdin source is gone. Ghost:
    [claims], the relays handed out; [allocated], the flags made so far. *)
Record Execs : Type := MkExecs {
  active_execs : gmap string ActiveExec;
  live : gmap Z ExecRegistration;
  held : gset Z;
  raised : gset Z;
  over : gset Z;
  claims : list Z;
  allocated : gset Z;
}.

Definition with_active x (s : Execs) : Execs :=
  MkExecs x (live s) (held s) (raised s) (over s) (claims s) (allocated s).
Definition set_live x (s : Execs) : Execs :=
  MkExecs (active_execs s) x (held s) (raised s) (over s) (claims s) (allocated s).

(** [Weak::upgrade]. *)
Definition upgrades (flag : Z) (s : Execs) : bool :=
  bool_decide (is_Some (live s !! flag)) || bool_decide (flag ∈ held s).

Definition register_exec (exec_id run_token : string) (cancellation : Z) (relay : option Z) (s : Execs)
    : result WorkerError ExecRegistration * Execs :=
  let active_exec := MkActive run_token cancellation
                       match relay with Some relay => Waiting relay | None => NotRequested end in
  let registration := MkRegistration exec_id run_token cancellation in
  match active_execs s !! exec_id with
  | Some entry =>
      if negb (upgrades (active_flag entry) s)
      then (Ok registration, with_active (<[exec_id := active_exec]> (active_execs s)) s)
      else (Err (Rejected ("exec id " +:+ debug_str exec_id +:+ " is already active")), s)
  | None => (Ok registration, with_active (<[exec_id := active_exec]> (active_execs s)) s)
  end.

(** [Drop for ExecRegistration]. *)
Definition drop_registration (r : ExecRegistration) (s : Execs) : Execs :=
  match active_execs s !! registered_id r with
  | Some current =>
      if bool_decide (active_token current = registered_token r) &&
         bool_decide (active_flag current = registered_flag r)
      then with_active (delete (registered_id r) (active_execs s)) s
      else s
  | None => s
  end.

Definition cancel_exec (exec_id run_token : string) (s : Execs) : Execs :=
  match active_execs s !! exec_id with
  | Some current =>
      if bool_decide (active_token current = run_token) && upgrades (active_flag current) s
      then MkExecs (active_execs s) (live s) (held s) ({[active_flag current]} ∪ raised s) (over s) (claims s) (allocated s)
      else s
  | None => s
  end.

Definition stdin_rejected (exec_id reason : string) : result WorkerError Z :=
  Err (Rejected ("cannot attach stdin to exec " +:+ debug_str exec_id +:+ ": " +:+ reason)).

Definition set_stdin (exec_id : string) (entry : ActiveExec) (slot : StdinSlot) (s : Execs) : Execs :=
  with_active (<[exec_id := MkActive (active_token entry) (active_flag entry) slot]> (active_execs s)) s.

Definition take_exec_stdin (exec_id run_token : string) (s : Execs) : result WorkerError Z * Execs :=
  match active_execs s !! exec_id with
  | None => (stdin_rejected exec_id "no running exec has that id and run token", s)
  | Some current =>
      if bool_decide (active_token current = run_token) && upgrades (active_flag current) s then
        let s' := set_stdin exec_id current Claimed s in
        match stdin current with
        | Waiting relay =>
            if bool_decide (relay ∈ over s) then (stdin_rejected exec_id "the run is already over", s')
            else (Ok relay, s')
        | Claimed => (stdin_rejected exec_id "its stdin is already attached", s')
        | NotRequested =>
            (stdin_rejected exec_id "it was started without stdin", set_stdin exec_id current NotRequested s')
        end
      else (stdin_rejected exec_id "no running exec has that id and run token", s)
  end.

(** [SessionHandle::exec] up to the send: a new flag, a relay if stdin was asked
    for, and the registration; a refused one drops what it made. *)
Definition begin_exec (exec_id run_token : string) (wants_stdin : bool) (flag : Z) (s : Execs)
    : result WorkerError unit * Execs :=
  let s := MkExecs (active_execs s) (live s) (held s) (raised s) (over s) (claims s) ({[flag]} ∪ allocated s) in
  match register_exec exec_id run_token flag (if wants_stdin then Some flag else None) s with
  | (Ok registration, s) =>
      (Ok tt, MkExecs (active_execs s) (<[flag := registration]> (live s)) ({[flag]} ∪ held s) (raised s) (over s)
                (claims s) (allocated s))
  | (Err e, s) => (Err e, s)
  end.

(** ** The connections and the runs, interleaved *)

Definition record_claim (r : result WorkerError Z) (s : Execs) : Execs :=
  match r with
  | Ok relay => MkExecs (active_execs s) (live s) (held s) (raised s) (over s) (relay :: claims s) (allocated s)
  | Err _ => s
  end.

Inductive step : Execs -> Execs -> Prop :=
| step_exec s exec_id run_token wants_stdin flag :
    flag ∉ allocated s -> step s (begin_exec exec_id run_token wants_stdin flag s).2
(** The last holder of the registration lets it go. *)
| step_drop s flag r :
    live s !! flag = Some r -> step s (set_live (delete flag (live s)) (drop_registration r s))
(** The request, the queue or the exec thread lets the flag go, or the run ends. *)
| step_release s flag :
    step s (MkExecs (active_execs s) (live s) (held s ∖ {[flag]}) (raised s) (over s) (claims s) (allocated s))
| step_over s flag :
    step s (MkExecs (active_execs s) (live s) (held s) (raised s) ({[flag]} ∪ over s) (claims s) (allocated s))
| step_cancel s exec_id run_token : step s (cancel_exec exec_id run_token s)
| step_stdin s exec_id run_token :
    step s (let '(r, s') := take_exec_stdin exec_id run_token s in record_claim r s').

Definition empty_registry : Execs := MkExecs ∅ ∅ ∅ ∅ ∅ [] ∅.

(** An entry and a registration that belong together. *)
Definition paired (exec_id : string) (a : ActiveExec) (r : ExecRegistration) : Prop :=
  registered_id r = exec_id /\ registered_token r = active_token a /\ registered_flag r = active_flag a.

Record sound (s : Execs) : Prop := MkSound {
  sound_live flag r : live s !! flag = Some r -> registered_flag r = flag /\
    exists a, active_execs s !! registered_id r = Some a /\ paired (registered_id r) a r;
  sound_active exec_id a : active_execs s !! exec_id = Some a ->
    exists r, live s !! active_flag a = Some r /\ paired exec_id a r;
  sound_relay exec_id a relay : active_execs s !! exec_id = Some a -> stdin a = Waiting relay ->
    relay = active_flag a /\ relay ∉ claims s;
  sound_claims : NoDup (claims s);
  sound_allocated flag : is_Some (live s !! flag) \/ flag ∈ claims s -> flag ∈ allocated s;
}.


Lemma paired_upgrades s exec_id a : sound s -> active_execs s !! exec_id = Some a -> upgrades (active_flag a) s = true.
Proof.
  intros Hs Ha. destruct (sound_active _ Hs _ _ Ha) as (r & Hr & _). unfold upgrades.
  by rewrite bool_decide_true by (by exists r).
Qed.

(** While an exec is registered its id is taken. *)
Lemma register_sound s exec_id :
  sound s -> forall run_token flag relay, register_exec exec_id run_token flag relay s =
    match active_execs s !! exec_id with
    | Some _ => (Err (Rejected ("exec id " +:+ debug_str exec_id +:+ " is already active")), s)
    | None => (Ok (MkRegistration exec_id run_token flag),
               with_active (<[exec_id := MkActive run_token flag
                               match relay with Some relay => Waiting relay | None => NotRequested end]>
                             (active_execs s)) s)
    end.
Proof.
  intros Hs run_token flag relay. unfold register_exec. destruct (active_execs s !! exec_id) as [a|] eqn:Ha; [|done].
  by rewrite (paired_upgrades _ _ _ Hs Ha).
Qed.

Lemma registry_begin_sound s exec_id run_token wants_stdin flag :
  sound s -> flag ∉ allocated s -> sound (begin_exec exec_id run_token wants_stdin flag s).2.
Proof.
  intros Hs Hf. unfold begin_exec. set (s1 := MkExecs _ _ _ _ _ _ _).
  assert (Hs1 : sound s1).
  { constructor; try apply Hs. intros flag' Hl. apply elem_of_union_r. by apply (sound_allocated _ Hs). }
  rewrite (register_sound _ _ Hs1). cbn [active_execs s1]. destruct (active_execs s !! exec_id) as [a|] eqn:Ha; [done|].
  assert (Hnew : forall flag', is_Some (live s !! flag') \/ flag' ∈ claims s -> flag' <> flag).
  { intros flag' Hl ->. by apply Hf, (sound_allocated _ Hs). }
  constructor; cbn.
  - intros flag' r. destruct (decide (flag' = flag)) as [->|Hne].
    + rewrite lookup_insert_eq. intros [= <-]. split; [done|]. eexists. cbn. by rewrite lookup_insert_eq.
    + rewrite lookup_insert_ne by done. intros Hr. destruct (sound_live _ Hs _ _ Hr) as (Hrf & b & Hb & Hp).
      split; [done|]. exists b. split; [|done]. rewrite lookup_insert_ne; [done|]. intros Heq. congruence.
  - intros id b. destruct (decide (id = exec_id)) as [->|Hne].
    + rewrite lookup_insert_eq. intros [= <-]. eexists. cbn. by rewrite lookup_insert_eq.
    + rewrite lookup_insert_ne by done. intros Hb. destruct (sound_active _ Hs _ _ Hb) as (r & Hr & Hp). exists r.
      split; [|done]. rewrite lookup_insert_ne; [done|]. intros Heq. apply (Hnew (active_flag b)); [left; by exists r|done].
  - intros id b relay. destruct (decide (id = exec_id)) as [->|Hne].
    + rewrite lookup_insert_eq. intros [= <-]. cbn. destruct wants_stdin; [|done]. intros [= <-]. split; [done|].
      intros Hc. apply (Hnew flag); auto.
    + rewrite lookup_insert_ne by done. apply (sound_relay _ Hs).
  - apply (sound_claims _ Hs).
  - intros flag' Hl. destruct (decide (flag' = flag)) as [->|Hne]; [set_solver|]. rewrite lookup_insert_ne in Hl by done.
    apply elem_of_union_r. by apply (sound_allocated _ Hs).
Qed.

Lemma drop_sound s flag r :
  sound s -> live s !! flag = Some r -> sound (set_live (delete flag (live s)) (drop_registration r s)).
Proof.
  intros Hs Hr. destruct (sound_live _ Hs _ _ Hr) as (Hrf & a & Ha & _ & Ht & Hfl). unfold drop_registration.
  rewrite Ha, !bool_decide_true by done. cbn [andb]. constructor; cbn.
  - intros flag' r' [Hne Hr']%lookup_delete_Some. destruct (sound_live _ Hs _ _ Hr') as (Hrf' & b & Hb & Hp).
    split; [done|]. exists b. split; [|done]. apply lookup_delete_Some. split; [|done]. intros Heq.
    destruct Hp as (_ & _ & Hp). rewrite <- Heq, Ha in Hb. injection Hb as <-. congruence.
  - intros id b [Hne Hb]%lookup_delete_Some. destruct (sound_active _ Hs _ _ Hb) as (r' & Hr' & Hp). exists r'.
    split; [|done]. apply lookup_delete_Some. split; [|done]. intros Heq. rewrite <- Heq in Hr'.
    assert (r' = r) as -> by congruence. destruct Hp as [Hp _]. congruence.
  - intros id b relay [_ Hb]%lookup_delete_Some. exact (sound_relay _ Hs id b relay Hb).
  - apply (sound_claims _ Hs).
  - intros flag' Hl. apply (sound_allocated _ Hs). rewrite lookup_delete_is_Some in Hl. naive_solver.
Qed.

(** Changing the slot of an entry keeps everything but what waits in it. *)
Lemma set_stdin_sound s exec_id a slot k :
  sound s -> active_execs s !! exec_id = Some a -> (slot = Claimed \/ slot = NotRequested) ->
  (k = [] \/ k = [active_flag a] /\ stdin a = Waiting (active_flag a)) ->
  sound (let s' := set_stdin exec_id a slot s in
         MkExecs (active_execs s') (live s') (held s') (raised s') (over s') (k ++ claims s') (allocated s')).
Proof.
  intros Hs Ha Hslot Hk. constructor; cbn.
  - intros flag r Hr. destruct (sound_live _ Hs _ _ Hr) as (Hrf & b & Hb & Hp). split; [done|].
    destruct (decide (registered_id r = exec_id)) as [He|Hne].
    + rewrite He in *. rewrite lookup_insert_eq. eexists. split; [done|]. assert (b = a) as -> by congruence. done.
    + rewrite lookup_insert_ne by done. eauto.
  - intros id b. destruct (decide (id = exec_id)) as [->|Hne].
    + rewrite lookup_insert_eq. intros [= <-]. cbn. destruct (sound_active _ Hs _ _ Ha) as (r & Hr & Hp). by exists r.
    + rewrite lookup_insert_ne by done. apply (sound_active _ Hs).
  - intros id b relay. destruct (decide (id = exec_id)) as [->|Hne].
    + rewrite lookup_insert_eq. intros [= <-]. cbn. naive_solver.
    + rewrite lookup_insert_ne by done. intros Hb Hw. destruct (sound_relay _ Hs _ _ _ Hb Hw) as [-> Hn]. split; [done|].
      destruct Hk as [->|[-> _]]; [done|]. intros [Heq|Hc]%elem_of_cons; [|done]. apply Hne.
      destruct (sound_active _ Hs _ _ Hb) as (r & Hr & <- & _). destruct (sound_active _ Hs _ _ Ha) as (r' & Hr' & <- & _).
      congruence.
  - destruct Hk as [->|[-> Hw]]; [apply (sound_claims _ Hs)|]. apply NoDup_cons. split; [|apply (sound_claims _ Hs)].
    by apply (sound_relay _ Hs _ _ _ Ha).
  - intros flag Hf. destruct Hk as [->|[-> _]]; [by apply (sound_allocated _ Hs)|]. destruct Hf as [Hf|Hf].
    + apply (sound_allocated _ Hs). by left.
    + apply elem_of_cons in Hf as [->|Hf]; apply (sound_allocated _ Hs); [|by right]. left.
      destruct (sound_active _ Hs _ _ Ha) as (r & Hr & _). by exists r.
Qed.

Lemma set_stdin_twice exec_id a slot slot' s :
  set_stdin exec_id a slot' (set_stdin exec_id a slot s) = set_stdin exec_id a slot' s.
Proof. unfold set_stdin, with_active. cbn. by rewrite insert_insert_eq. Qed.

Lemma stdin_sound s exec_id run_token :
  sound s -> sound (let '(r, s') := take_exec_stdin exec_id run_token s in record_claim r s').
Proof.
  intros Hs. unfold take_exec_stdin. destruct (active_execs s !! exec_id) as [a|] eqn:Ha; [|done].
  destruct (bool_decide _ && _); [|done]. cbn zeta. destruct (stdin a) as [|relay|] eqn:Hst.
  - rewrite set_stdin_twice. cbn [stdin_rejected record_claim]. exact (set_stdin_sound s exec_id a NotRequested [] Hs Ha (or_intror eq_refl) (or_introl eq_refl)).
  - destruct (sound_relay _ Hs _ _ _ Ha Hst) as [-> _].
    case_bool_decide; cbn [stdin_rejected record_claim].
    + exact (set_stdin_sound s exec_id a Claimed [] Hs Ha (or_introl eq_refl) (or_introl eq_refl)).
    + exact (set_stdin_sound s exec_id a Claimed [active_flag a] Hs Ha (or_introl eq_refl) (or_intror (conj eq_refl Hst))).
  - cbn [stdin_rejected record_claim]. exact (set_stdin_sound s exec_id a Claimed [] Hs Ha (or_introl eq_refl) (or_introl eq_refl)).
Qed.

Lemma registry_step_sound s s' : sound s -> step s s' -> sound s'.
Proof.
  intros Hs Hst. destruct Hst as [| | | |s id token|]; [by apply registry_begin_sound|by apply drop_sound| | | |by apply stdin_sound].
  - constructor; apply Hs.
  - constructor; apply Hs.
  - unfold cancel_exec. destruct (active_execs s !! id) as [a|]; [|done]. case_match; [|done].
    constructor; apply Hs.
Qed.

Lemma registry_reachable_sound s : rtc step empty_registry s -> sound s.
Proof.
  intros Hr. apply (rtc_ind_r sound) in Hr; [done| |intros y z _ Hyz Hy; by eapply registry_step_sound].
  constructor; cbn; try (intros; by rewrite lookup_empty in *); [constructor|].
  intros flag [[r Hr']|Hc]; [by rewrite lookup_empty in Hr'|]. by apply elem_of_nil in Hc.
Qed.

(** However connections and runs interleave, an exec id belongs to one live
    exec: a registration keeps its id until it is dropped, two of them never
    share one, and the drop of an old one never evicts a new one; so a
    registration is refused exactly while its id is taken, and cancelling raises
    the flag of the exec with that id and token and no other. *)
Theorem exec_ids_exclusive s :
  rtc step empty_registry s ->
  (forall flag r, live s !! flag = Some r ->
     exists a, active_execs s !! registered_id r = Some a /\ active_flag a = flag) /\
  (forall flag r flag' r', live s !! flag = Some r -> live s !! flag' = Some r' ->
     registered_id r = registered_id r' -> flag = flag') /\
  (forall exec_id run_token flag relay,
     is_ok (register_exec exec_id run_token flag relay s).1 = bool_decide (active_execs s !! exec_id = None)) /\
  (forall exec_id run_token flag, flag ∈ raised (cancel_exec exec_id run_token s) <->
     flag ∈ raised s \/ live s !! flag = Some (MkRegistration exec_id run_token flag)).
Proof.
  intros Hs%registry_reachable_sound. split_and!.
  - intros flag r Hr. destruct (sound_live _ Hs _ _ Hr) as (Hf & a & Ha & _ & _ & Hp). exists a. split; [done|congruence].
  - intros flag r flag' r' Hr Hr' Heq. destruct (sound_live _ Hs _ _ Hr) as (<- & a & Ha & _ & _ & Hp).
    destruct (sound_live _ Hs _ _ Hr') as (<- & a' & Ha' & _ & _ & Hp'). rewrite Heq in Ha. congruence.
  - intros exec_id run_token flag relay. rewrite (register_sound _ _ Hs).
    destruct (active_execs s !! exec_id); [by rewrite bool_decide_false|by rewrite bool_decide_true].
  - intros exec_id run_token flag. unfold cancel_exec. destruct (active_execs s !! exec_id) as [a|] eqn:Ha.
    + rewrite (paired_upgrades _ _ _ Hs Ha), andb_true_r. destruct (sound_active _ Hs _ _ Ha) as (r & Hr & Hi & Ht & Hf).
      case_bool_decide as Htok; cbn [raised].
      * rewrite elem_of_union, elem_of_singleton. split.
        -- intros [->|]; [right|by left]. rewrite Hr. destruct r. cbn in *. congruence.
        -- intros [|Hl]; [by right|left]. destruct (sound_live _ Hs _ _ Hl) as (_ & b & Hb & _ & _ & Hp). cbn in *. congruence.
      * split; [by left|]. intros [|Hl]; [done|]. destruct (sound_live _ Hs _ _ Hl) as (_ & b & Hb & _ & Hp & _).
        cbn in *. congruence.
    + split; [by left|]. intros [|Hl]; [done|]. destruct (sound_live _ Hs _ _ Hl) as (_ & b & Hb & _). cbn in Hb. congruence.
Qed.

(** The stdin of an exec is handed out at most once, to a connection that
    knows its id and token, while the exec is registered and its run not over,
    and only if it asked for stdin. *)
Theorem stdin_claimed_once s exec_id run_token relay s' :
  rtc step empty_registry s -> take_exec_stdin exec_id run_token s = (Ok relay, s') ->
  (relay ∉ claims s) /\ (relay ∉ over s) /\ live s !! relay = Some (MkRegistration exec_id run_token relay) /\
  forall run_token', is_ok (take_exec_stdin exec_id run_token' s').1 = false.
Proof.
  intros Hs%registry_reachable_sound. unfold take_exec_stdin at 1. destruct (active_execs s !! exec_id) as [a|] eqn:Ha; [|done].
  destruct (bool_decide (active_token a = run_token) && upgrades (active_flag a) s) eqn:Hok; [|done].
  apply andb_true_iff in Hok as [Ht%bool_decide_eq_true _]. cbn zeta.
  destruct (stdin a) as [|relay'|] eqn:Hst; [done| |done]. case_bool_decide as Hov; [done|]. intros [= -> <-].
  destruct (sound_relay _ Hs _ _ _ Ha Hst) as [-> Hn]. split_and!; [done..| |].
  - destruct (sound_active _ Hs _ _ Ha) as (r & -> & Hi & Htok & Hf). destruct r. cbn in *. congruence.
  - intros run_token'. unfold take_exec_stdin, set_stdin. cbn. rewrite lookup_insert_eq. cbn. by case_match.
Qed.


(** One exec that asked for stdin. *)
Definition one_exec : Execs := (begin_exec "exec-1" "token" true 1 empty_registry).2.

Lemma one_exec_reachable : rtc step empty_registry one_exec.
Proof. eapply rtc_l; [apply (step_exec _ "exec-1" "token" true 1); set_solver|]. apply rtc_refl. Qed.

Lemma exec_ids_exclusive_witness :
  live one_exec !! 1 = Some (MkRegistration "exec-1" "token" 1) /\ 1 ∈ raised (cancel_exec "exec-1" "token" one_exec).
Proof.
  split; [by vm_compute|]. apply (exec_ids_exclusive _ one_exec_reachable). right. by vm_compute.
Defined.

Lemma stdin_claimed_once_witness :
  (1 ∉ claims one_exec) /\ (1 ∉ over one_exec) /\
  live one_exec !! 1 = Some (MkRegistration "exec-1" "token" 1) /\
  forall run_token', is_ok (take_exec_stdin "exec-1" run_token' (take_exec_stdin "exec-1" "token" one_exec).2).1 = false.
Proof.
  apply (stdin_claimed_once one_exec "exec-1" "token" 1 (take_exec_stdin "exec-1" "token" one_exec).2 one_exec_reachable).
  by vm_compute.
Defined.
End WslcExecs.
