(* ===== verification/WslcStdin.v ===== *)
(** * The stdin of a WSLC exec

    [bin/wslc_daemon/stdin_writer.rs]: the thread that writes the client's stdin
    chunks to the process, and the handle that freezes or stops it.  The writer,
    the client's connection, the exec that freezes, interrupts or stops it, and
    the process interleave; a step is what a thread does under the gate's lock,
    one channel operation, or one write.  What the process must never see is an
    end of input that is not one. *)

From stdpp Require Import relations.
From S2P Require Import Prelude.

#[local] Open Scope nat_scope.

Module WslcStdin.

Inductive ErrorKind : Type := BrokenPipe | ConnectionReset | ConnectionAborted | OtherError.

Definition is_reader_gone (kind : ErrorKind) : bool :=
  match kind with BrokenPipe | ConnectionReset | ConnectionAborted => true | OtherError => false end.

Inductive StdinEnd : Type :=
| Closed
| Stopped
| ReaderGone
| Failed (error : ErrorKind).

Record Gate : Type := MkGate { stopped : bool; writing : bool; frozen : bool }.

(** [session_manager.rs]. *)
Definition STDIN_CHANNEL_CAPACITY : nat := 16.

(** Where the writer thread is: about to receive, holding a chunk, writing it,
    back from a write, waiting for a stop, or gone.  The file closes with it. *)
Inductive Writer : Type :=
| Receiving
| Holding (chunk : list Z)
| Writing (chunk : list Z)
| Wrote (outcome : result ErrorKind unit)
| Waiting (ending : StdinEnd)
| Done (ending : StdinEnd).

(** The gate's verdict on a chunk taken off the channel. *)
Definition gate_chunk (chunk : list Z) (gate : Gate) (interrupted : bool) : Writer * Gate :=
  if stopped gate then (Done Stopped, gate)
  else if frozen gate || interrupted then (Waiting Stopped, gate)
  else if length chunk =? 0 then (Done Closed, gate)
  else (Writing chunk, MkGate (stopped gate) true (frozen gate)).

(** The gate after a write, and what the loop does with its outcome; a failure
    keeps stdin open until the exec stops it. *)
Definition after_write (written : result ErrorKind unit) (gate : Gate) : Writer * Gate :=
  let gate' := MkGate (stopped gate) false (frozen gate) in
  (if stopped gate then Done Stopped
   else match written with
        | Ok _ => Receiving
        | Err error => if is_reader_gone error then Done ReaderGone else Waiting (Failed error)
        end, gate').

(** [channel]: the chunks in flight, each with whether it is the empty chunk of
    [stop]; [senders]: the relay still holds the channel open.  [process]: the
    bytes the process was given. Ghost: [client], the chunks of the client;
    [taken], what the writer took off the channel. *)
Record System : Type := MkSystem {
  gate : Gate;
  writer : Writer;
  channel : list (bool * list Z);
  senders : bool;
  interrupted : bool;
  process : list Z;
  client : list (list Z);
  taken : list (bool * list Z);
}.

Definition set_writer (p : Writer * Gate) (x : System) : System :=
  MkSystem p.2 p.1 (channel x) (senders x) (interrupted x) (process x) (client x) (taken x).

Inductive step : System -> System -> Prop :=
(** The client's connection. *)
| step_send x chunk :
    senders x = true -> length (channel x) < STDIN_CHANNEL_CAPACITY ->
    step x (MkSystem (gate x) (writer x) (channel x ++ [(false, chunk)]) (senders x) (interrupted x) (process x)
              (client x ++ [chunk]) (taken x))
| step_hang_up x :
    step x (MkSystem (gate x) (writer x) (channel x) false (interrupted x) (process x) (client x) (taken x))
(** The writer. *)
| step_recv x wake chunk l :
    writer x = Receiving -> channel x = (wake, chunk) :: l ->
    step x (MkSystem (gate x) (Holding chunk) l (senders x) (interrupted x) (process x) (client x)
              (taken x ++ [(wake, chunk)]))
| step_cut x :
    writer x = Receiving -> channel x = [] -> senders x = false ->
    step x (set_writer (Waiting Stopped, gate x) x)
| step_admit x chunk :
    writer x = Holding chunk -> step x (set_writer (gate_chunk chunk (gate x) (interrupted x)) x)
| step_write x chunk :
    writer x = Writing chunk ->
    step x (MkSystem (gate x) (Wrote (Ok tt)) (channel x) (senders x) (interrupted x) (process x ++ chunk) (client x) (taken x))
| step_write_fails x chunk error n :
    writer x = Writing chunk ->
    step x (MkSystem (gate x) (Wrote (Err error)) (channel x) (senders x) (interrupted x) (process x ++ take n chunk)
              (client x) (taken x))
| step_after x outcome :
    writer x = Wrote outcome -> step x (set_writer (after_write outcome (gate x)) x)
| step_stopped x ending :
    writer x = Waiting ending -> stopped (gate x) = true -> step x (set_writer (Done ending, gate x) x)
(** The exec: [freeze], the first half of [stop], its wake-up, and cancellation. *)
| step_freeze x :
    step x (set_writer (writer x, MkGate (stopped (gate x)) (writing (gate x)) true) x)
| step_stop x :
    step x (set_writer (writer x, MkGate true (writing (gate x)) (frozen (gate x))) x)
| step_wake x :
    stopped (gate x) = true -> senders x = true -> length (channel x) < STDIN_CHANNEL_CAPACITY ->
    step x (MkSystem (gate x) (writer x) (channel x ++ [(true, [])]) (senders x) (interrupted x) (process x) (client x) (taken x))
| step_interrupt x :
    step x (MkSystem (gate x) (writer x) (channel x) (senders x) true (process x) (client x) (taken x)).

Definition spawned : System := MkSystem (MkGate false false false) Receiving [] true false [] [] [].

(** The bytes taken off the channel. *)
Definition bytes (l : list (bool * list Z)) : list Z := concat (snd <$> l).
#[global] Arguments bytes : simpl never.

(** What the process has been given, by where the writer is. *)
Definition given (x : System) : Prop :=
  match writer x with
  | Receiving | Wrote (Ok _) => process x = bytes (taken x)
  | Holding chunk | Writing chunk => process x ++ chunk = bytes (taken x)
  | Done Closed => process x = bytes (taken x) /\ exists l, taken x = l ++ [(false, [])]
  | Wrote (Err _) | Waiting _ | Done _ => process x `prefix_of` bytes (taken x)
  end.

Record sound (x : System) : Prop := MkSound {
  sound_given : given x;
  (** The client's chunks are those in flight or taken, the wake-ups aside. *)
  sound_client : client x = snd <$> filter (fun c => c.1 = false) (taken x ++ channel x);
  sound_wakes : Forall (fun c => c.1 = true -> c.2 = [] /\ stopped (gate x) = true) (taken x ++ channel x);
  sound_last chunk : writer x = Holding chunk -> exists l wake, taken x = l ++ [(wake, chunk)];
  sound_ended : match writer x with
                | Waiting Closed | Waiting ReaderGone => False
                | Done Stopped | Done (Failed _) => stopped (gate x) = true
                | _ => True
                end;
  sound_writing : writing (gate x) = match writer x with Writing _ | Wrote _ => true | _ => false end;
}.

Lemma bytes_app l1 l2 : bytes (l1 ++ l2) = bytes l1 ++ bytes l2.
Proof. unfold bytes. by rewrite fmap_app, concat_app. Qed.
Lemma bytes_one wake chunk : bytes [(wake, chunk)] = chunk.
Proof. unfold bytes. cbn. apply app_nil_r. Qed.

(** Wake-ups carry no bytes. *)
Lemma bytes_client x : sound x -> concat (client x) = bytes (taken x) ++ bytes (channel x).
Proof.
  intros Hs. rewrite (sound_client _ Hs), <- bytes_app. pose proof (sound_wakes _ Hs) as Hw. clear Hs.
  induction Hw as [|[[] chunk] l Hc _ IH]; [done| |]; rewrite filter_cons.
  - destruct (Hc eq_refl) as [Hz _]. cbn in Hz. subst chunk. rewrite decide_False by done. exact IH.
  - rewrite decide_True by done. cbn. unfold bytes. cbn. by rewrite IH.
Qed.

Lemma wakes_mono (l : list (bool * list Z)) (a b : bool) :
  (a = true -> b = true) -> Forall (fun c => c.1 = true -> c.2 = [] /\ a = true) l ->
  Forall (fun c => c.1 = true -> c.2 = [] /\ b = true) l.
Proof. intros Hab Hf. eapply Forall_impl; [exact Hf|]. intros c Hc Ht. destruct (Hc Ht). auto. Qed.

Lemma admit_sound x chunk :
  sound x -> writer x = Holding chunk -> sound (set_writer (gate_chunk chunk (gate x) (interrupted x)) x).
Proof.
  intros Hs Hw. pose proof (sound_given _ Hs) as Hg. unfold given in Hg. rewrite Hw in Hg.
  pose proof (sound_writing _ Hs) as Hwr. rewrite Hw in Hwr. destruct (sound_last _ Hs _ Hw) as (l & wake & Hl).
  assert (Hp : process x `prefix_of` bytes (taken x)) by (rewrite <- Hg; by apply prefix_app_r).
  pose proof (sound_wakes _ Hs) as Hwk.
  unfold gate_chunk. destruct (stopped (gate x)) eqn:Hst; [|destruct (frozen (gate x) || interrupted x);
    [|destruct (Nat.eqb_spec (length chunk) 0) as [Hz|]]];
    rewrite ?Hst in Hwk; constructor; cbn; rewrite ?Hst; try apply Hs; try done.
  apply nil_length_inv in Hz. subst chunk. rewrite app_nil_r in Hg. split; [done|]. exists l.
  destruct wake; [|done]. rewrite Hl, <- app_assoc in Hwk.
  apply Forall_app in Hwk as [_ Hwk]. cbn in Hwk. apply Forall_cons in Hwk as [Hwk _]. by destruct (Hwk eq_refl).
Qed.

Lemma after_sound x outcome :
  sound x -> writer x = Wrote outcome -> sound (set_writer (after_write outcome (gate x)) x).
Proof.
  intros Hs Hw. pose proof (sound_given _ Hs) as Hg. unfold given in Hg. rewrite Hw in Hg.
  assert (Hp : process x `prefix_of` bytes (taken x)) by (destruct outcome; [by rewrite Hg|done]).
  pose proof (sound_wakes _ Hs) as Hwk.
  unfold after_write. destruct (stopped (gate x)) eqn:Hst; [|destruct outcome as [[]|error]; [|destruct (is_reader_gone error)]];
    rewrite ?Hst in Hwk; constructor; cbn; rewrite ?Hst; try apply Hs; done.
Qed.

Lemma recv_sound x wake chunk l :
  sound x -> writer x = Receiving -> channel x = (wake, chunk) :: l ->
  sound (MkSystem (gate x) (Holding chunk) l (senders x) (interrupted x) (process x) (client x)
           (taken x ++ [(wake, chunk)])).
Proof.
  intros Hs Hw Hc. pose proof (sound_given _ Hs) as Hg. unfold given in Hg. rewrite Hw in Hg.
  pose proof (sound_writing _ Hs) as Hwr. rewrite Hw in Hwr.
  pose proof (sound_client _ Hs) as Hcl. pose proof (sound_wakes _ Hs) as Hwk. rewrite Hc in Hcl, Hwk.
  constructor; cbn; rewrite <- ?app_assoc; try done.
  - by rewrite bytes_app, bytes_one, Hg.
  - intros chunk' [= <-]. eauto.
Qed.

(** A step that leaves the writer, the process and the channel alone. *)
Lemma idle_sound x g s i :
  sound x -> (stopped (gate x) = true -> stopped g = true) -> writing g = writing (gate x) ->
  sound (MkSystem g (writer x) (channel x) s i (process x) (client x) (taken x)).
Proof.
  intros Hs Hst Hwr. constructor; cbn; rewrite ?Hwr; try apply Hs.
  - eapply wakes_mono; [exact Hst|apply Hs].
  - pose proof (sound_ended _ Hs). destruct (writer x) as [| | | |e|e]; try done; destruct e; auto.
Qed.

(** More in the channel. *)
Lemma queued_sound x wake chunk :
  sound x -> (wake = true -> chunk = [] /\ stopped (gate x) = true) ->
  sound (MkSystem (gate x) (writer x) (channel x ++ [(wake, chunk)]) (senders x) (interrupted x) (process x)
           (if wake then client x else client x ++ [chunk]) (taken x)).
Proof.
  intros Hs Hwk. constructor; cbn; try apply Hs.
  - rewrite app_assoc, filter_app, fmap_app, <- (sound_client _ Hs). destruct wake; cbn; by rewrite ?app_nil_r.
  - rewrite app_assoc. apply Forall_app. split; [apply Hs|]. by constructor.
Qed.

Lemma stdin_step_sound x y : sound x -> step x y -> sound y.
Proof.
  intros Hs Hxy. pose proof (sound_given _ Hs) as Hg. unfold given in Hg. pose proof (sound_writing _ Hs) as Hwr.
  destruct Hxy as [x chunk|x|x wake chunk l Hw Hc|x Hw Hc Hse|x chunk Hw|x chunk Hw|x chunk error n Hw|x outcome Hw
    |x ending Hw Hst|x|x|x Hst|x].
  - by apply (queued_sound x false chunk).
  - by apply idle_sound.
  - by apply (recv_sound x wake).
  - rewrite Hw in Hg, Hwr. constructor; cbn; try apply Hs; try done. by rewrite Hg.
  - by apply admit_sound.
  - rewrite Hw in Hg, Hwr. constructor; cbn; try apply Hs; done.
  - rewrite Hw in Hg, Hwr. constructor; cbn; try apply Hs; try done. rewrite <- Hg. by apply prefix_app, prefix_take.
  - by apply after_sound.
  - pose proof (sound_ended _ Hs) as He. rewrite Hw in Hg, Hwr, He.
    constructor; cbn; try apply Hs; try done; by destruct ending.
  - by apply idle_sound.
  - by apply idle_sound.
  - by apply (queued_sound x true []).
  - by apply idle_sound.
Qed.

Lemma stdin_reachable_sound x : rtc step spawned x -> sound x.
Proof.
  intros Hr. apply (rtc_ind_r sound) in Hr; [done| |intros y z _ Hyz Hy; by eapply stdin_step_sound].
  constructor; cbn; done.
Qed.

(** What a closed stdin says. *)
Lemma ended_accounted x :
  sound x ->
  process x `prefix_of` concat (client x) /\
  forall ending, writer x = Done ending ->
    stopped (gate x) = true \/ ending = ReaderGone \/
    ending = Closed /\ exists rest, client x = (snd <$> filter (fun c => c.1 = false) (taken x)) ++ rest /\
      process x = concat (snd <$> filter (fun c => c.1 = false) (taken x)) /\
      last (snd <$> filter (fun c => c.1 = false) (taken x)) = Some [].
Proof.
  intros Hs. pose proof (bytes_client x Hs) as Hcl. pose proof (sound_given _ Hs) as Hg.
  assert (Hp : process x `prefix_of` bytes (taken x)).
  { unfold given in Hg. destruct (writer x) as [|chunk|chunk|[[]|e]|e|[]]; try done; try (by rewrite Hg).
    - rewrite <- Hg. by apply prefix_app_r.
    - rewrite <- Hg. by apply prefix_app_r.
    - destruct Hg as [-> _]. done. }
  split; [rewrite Hcl; by apply prefix_app_r|]. intros ending Hw. unfold given in Hg.
  pose proof (sound_ended _ Hs) as He. rewrite Hw in Hg, He. destruct ending; auto. right; right. split; [done|].
  exists (snd <$> filter (fun c => c.1 = false) (channel x)). destruct Hg as [Hg [l Hl]].
  split_and!.
  - rewrite (sound_client _ Hs), filter_app, fmap_app. done.
  - rewrite Hg. pose proof (bytes_client (MkSystem (gate x) (writer x) [] (senders x) (interrupted x) (process x)
      (snd <$> filter (fun c => c.1 = false) (taken x)) (taken x))) as Hb. cbn in Hb. rewrite Hb, app_nil_r; [done|].
    constructor; cbn; rewrite ?app_nil_r; try apply Hs; [done|]. pose proof (sound_wakes _ Hs) as Hwk.
    by apply Forall_app in Hwk as [Hwk _].
  - rewrite Hl, filter_app, fmap_app. cbn. apply last_snoc.
Qed.

(** *** After a stop, a freeze or a cancellation *)

Definition halted (x : System) : bool := stopped (gate x) || frozen (gate x) || interrupted x.

(** The chunk that is being written. *)
Definition in_flight (x : System) : list Z := match writer x with Writing chunk => chunk | _ => [] end.

(** The write under way may end; no other begins, and no end of input is shown. *)
Definition winds_down (x y : System) : Prop :=
  halted y = true /\
  (process y = process x /\ in_flight y = in_flight x \/
   in_flight y = [] /\ exists n, process y = process x ++ take n (in_flight x)) /\
  (writer y = Done Closed -> writer x = Done Closed).

Lemma winds_down_trans x y z : winds_down x y -> winds_down y z -> winds_down x z.
Proof.
  intros (_ & Hxy & Hcx) (Hz & Hyz & Hcy). split_and!; [done| |auto].
  destruct Hxy as [[Hp Hf]|[Hf [n Hp]]]; rewrite Hp, Hf in Hyz; [exact Hyz|]. right. destruct Hyz as [[Hz' Hf']|[Hf' [k Hz']]].
  - split; [done|by exists n].
  - split; [done|]. exists n. by rewrite Hz', take_nil, app_nil_r.
Qed.

Lemma halted_step x y : sound x -> halted x = true -> step x y -> winds_down x y.
Proof.
  intros Hs Hh Hxy. unfold winds_down.
  destruct Hxy as [x chunk|x|x wake chunk l Hw Hc|x Hw Hc Hse|x chunk Hw|x chunk Hw|x chunk error n Hw|x outcome Hw
    |x ending Hw Hst|x|x|x Hst|x]; unfold halted, in_flight in *; cbn in *.
  all: try (by split_and!; [try done; by rewrite ?orb_true_r|left|]).
  - split_and!; [done|left; by rewrite Hw|done].
  - split_and!; [done|left; by rewrite Hw|done].
  - unfold gate_chunk. destruct (stopped (gate x)) eqn:Hst; cbn; rewrite ?Hst; [by split_and!; [|left; rewrite Hw|]|].
    cbn in Hh. rewrite Hh. cbn. rewrite Hst. split_and!; [done|left; by rewrite Hw|done].
  - split_and!; [done| |done]. right. rewrite Hw. split; [done|]. exists (length chunk). by rewrite firstn_all.
  - split_and!; [done| |done]. right. rewrite Hw. split; [done|]. by exists n.
  - unfold after_write. cbn. split_and!; [done| |].
    + left. rewrite Hw. split; [done|]. by repeat case_match.
    + destruct (stopped (gate x)); [done|]. destruct outcome; [done|]. by destruct (is_reader_gone _).
  - split_and!; [done|left; by rewrite Hw|]. intros [= ->]. pose proof (sound_ended _ Hs) as He. by rewrite Hw in He.
Qed.

Lemma halted_steps x y : sound x -> halted x = true -> rtc step x y -> winds_down x y.
Proof.
  intros Hs Hh Hxy. induction Hxy as [x|x y z Hxy _ IH].
  - split_and!; [done|by left|done].
  - pose proof (halted_step _ _ Hs Hh Hxy) as Hd. eapply winds_down_trans; [exact Hd|].
    apply IH; [by eapply stdin_step_sound|apply Hd].
Qed.

(** C29. The process is given a prefix of what the client sent, in order; and when
    its stdin closes, either it was given all of it up to the client's own
    end-of-file, or the exec stopped its input, or it had stopped reading: input
    that was cut short, frozen, interrupted or failed is never closed as if it
    were complete before the exec stops it.  Once the input is frozen, stopped or
    the exec cancelled, the write under way may still end, but no other chunk is
    given to the process and no end of input is shown to it as the client's. *)
Theorem stdin_never_cut_short x y :
  rtc step spawned x -> rtc step x y ->
  process y `prefix_of` concat (client y) /\
  (forall ending, writer y = Done ending ->
     stopped (gate y) = true \/ ending = ReaderGone \/
     ending = Closed /\ exists rest, client y = (snd <$> filter (fun c => c.1 = false) (taken y)) ++ rest /\
       process y = concat (snd <$> filter (fun c => c.1 = false) (taken y)) /\
       last (snd <$> filter (fun c => c.1 = false) (taken y)) = Some []) /\
  (stopped (gate x) || frozen (gate x) || interrupted x = true ->
     (exists n, process y = process x ++ take n (match writer x with Writing chunk => chunk | _ => [] end)) /\
     (writer y = Done Closed -> writer x = Done Closed)).
Proof.
  intros Hx Hxy. cut (process y `prefix_of` concat (client y) /\
    forall ending, writer y = Done ending ->
     stopped (gate y) = true \/ ending = ReaderGone \/
     ending = Closed /\ exists rest, client y = (snd <$> filter (fun c => c.1 = false) (taken y)) ++ rest /\
       process y = concat (snd <$> filter (fun c => c.1 = false) (taken y)) /\
       last (snd <$> filter (fun c => c.1 = false) (taken y)) = Some []).
  { intros [Hp Hd]. split_and!; [done..|]. intros Hh. apply stdin_reachable_sound in Hx.
    destruct (halted_steps x y Hx Hh Hxy) as (_ & Hgiven & Hclosed). split; [|done].
    destruct Hgiven as [[-> _]|[_ Hn]]; [exists 0; by rewrite app_nil_r|exact Hn]. }
  assert (Hy : rtc step spawned y) by by etrans. clear Hx Hxy x. apply ended_accounted, stdin_reachable_sound, Hy.
Qed.

(** A client that sends two bytes and its end-of-file. *)
Definition finished : System :=
  MkSystem (MkGate false false false) (Done Closed) [] true false [5; 6]%Z [[5; 6]; []]%Z [(false, [5; 6]); (false, [])]%Z.

Lemma finished_reachable : rtc step spawned finished.
Proof.
  eapply rtc_l; [apply (step_send _ [5; 6]%Z); [done|unfold STDIN_CHANNEL_CAPACITY; cbn; lia]|].
  eapply rtc_l; [apply (step_send _ []%Z); [done|unfold STDIN_CHANNEL_CAPACITY; cbn; lia]|].
  eapply rtc_l; [by eapply step_recv|]. eapply rtc_l; [by eapply step_admit|]. cbn.
  eapply rtc_l; [by eapply step_write|]. eapply rtc_l; [by eapply step_after|]. cbn.
  eapply rtc_l; [by eapply step_recv|]. eapply rtc_l; [by eapply step_admit|]. apply rtc_refl.
Qed.

(** A chunk is being written when the exec freezes the input. *)
Definition freezing : System :=
  MkSystem (MkGate false true true) (Writing [5; 6]%Z) [] true false [] [[5; 6]]%Z [(false, [5; 6])]%Z.

Lemma freezing_reachable : rtc step spawned freezing.
Proof.
  eapply rtc_l; [apply (step_send _ [5; 6]%Z); [done|unfold STDIN_CHANNEL_CAPACITY; cbn; lia]|].
  eapply rtc_l; [by eapply step_recv|]. eapply rtc_l; [by eapply step_admit|]. cbn.
  eapply rtc_l; [by eapply step_freeze|]. apply rtc_refl.
Qed.

(** The write ends; the next chunk is held back. *)
Definition frozen_out : System :=
  MkSystem (MkGate false false true) (Waiting Stopped) [] true false [5; 6]%Z [[5; 6]; [7]]%Z
    [(false, [5; 6]); (false, [7])]%Z.

Lemma frozen_out_reached : rtc step freezing frozen_out.
Proof.
  eapply rtc_l; [apply (step_send _ [7]%Z); [done|unfold STDIN_CHANNEL_CAPACITY; cbn; lia]|].
  eapply rtc_l; [by eapply step_write|]. eapply rtc_l; [by eapply step_after|]. cbn.
  eapply rtc_l; [by eapply step_recv|]. eapply rtc_l; [by eapply step_admit|]. apply rtc_refl.
Qed.

Lemma stdin_never_cut_short_witness :
  process finished `prefix_of` concat (client finished) /\
  exists n, process frozen_out = process freezing ++ take n [5; 6]%Z.
Proof.
  split; [by apply (stdin_never_cut_short finished finished finished_reachable (rtc_refl _ _))|].
  destruct (stdin_never_cut_short freezing frozen_out freezing_reachable frozen_out_reached) as (_ & _ & Hf).
  exact (proj1 (Hf eq_refl)).
Defined.
End WslcStdin.
