(* ===== verification/WslcExecStream.v ===== *)
(** * The WSLC daemon: the result of an exec, from the process to the client

    [write_exec_result] of [bin/wslc_daemon/control_server.rs], which pumps the
    queued output of a run to the client's pipe and ends with one terminal
    frame, composed with the queue of [WslcStreams] on one side and with
    [DaemonClient::exec] of [backends/wslc/common/daemon_client.rs] on the other.
    The pipe is the list of the frames written to it, in order ([Framing] is
    their byte encoding); a write that fails, or a client that leaves, ends the
    handler at any point.  The deadline on the admission reply is not modelled. *)

From stdpp Require Import relations.
From S2P Require Import Prelude NetText WslcTypes WslcStreams WslcExecs.

#[local] Open Scope Z_scope.

Module ExecStream.
Export WslcTypes.
Import LiveOutput.

(** ** Frames *)

Inductive StreamFrame : Type :=
| FrameStdin (data : list Z)
| FrameStdout (data : list Z)
| FrameStderr (data : list Z)
| FrameExit (code : Z)
| FrameTimedOut
| FrameCancelled
| FrameTruncated
| FrameError (message : string).

Inductive DaemonResponse : Type :=
| RespSessionProvisioned (session_ref : string)
| RespProvisioned (sandbox_id : string)
| RespOk
| RespPong
| RespErr (kind : ErrKind) (message : string).

(** What the pipe of an exec carries. *)
Inductive Frame : Type :=
| Response (r : DaemonResponse)
| Stream (f : StreamFrame).

(** ** The daemon's side *)

Definition worker_err_response (e : WorkerError) : DaemonResponse :=
  RespErr (WorkerError_kind e) (WorkerError_display e).

Definition output_frame (chunk : OutStream * list Z) : StreamFrame :=
  match chunk with
  | (Stdout, data) => FrameStdout data
  | (Stderr, data) => FrameStderr data
  end.

(** [Err tt]: the sender of the completion channel was dropped. *)
Definition Completion : Type := result unit (result WorkerError ExecTerminal).

Definition exit_terminal (r : Completion) : StreamFrame :=
  match r with
  | Ok (Ok (Exited code)) => FrameExit code
  | Ok (Ok TimedOut) => FrameTimedOut
  | Ok (Ok Cancelled) => FrameCancelled
  | Ok (Err e) => FrameError (WorkerError_display e)
  | Err _ => FrameError "WSLc worker dropped the exec reply channel"
  end.

Definition terminal_frames (r : Completion) (overflowed : bool) : option StreamFrame * StreamFrame :=
  let terminal := exit_terminal r in
  if overflowed then (Some FrameTruncated, terminal) else (None, terminal).

(** The two writes after the loop. *)
Definition last_frames (r : Completion) (overflowed : bool) : list Frame :=
  let '(notice, terminal) := terminal_frames r overflowed in
  match notice with Some notice => [Stream notice] | None => [] end ++ [Stream terminal].

(** Where [write_exec_result] is: in the [select] loop, in the drain after
    [output.close()], at [done.await] after the last sender went, returned, or
    given up on. *)
Inductive Phase : Type :=
| Pumping
| Draining (r : Completion)
| Awaiting
| Sent
| Gone.

(** [senders]: the run still holds its sink.  [orderly] records that it had let
    go of it when the completion was reported. *)
Record Pump : Type := MkPump {
  live : Live;
  senders : bool;
  done_ : option Completion;
  orderly : bool;
  phase : Phase;
  frames : list Frame;
}.

Definition put (x : Live) (ph : Phase) (l : list Frame) (p : Pump) : Pump :=
  MkPump x (senders p) (done_ p) (orderly p) ph (frames p ++ l).

(** The start of the handler, on the worker's admission decision. *)
Definition admitted (admission : result WorkerError unit) : Pump :=
  match admission with
  | Ok _ => MkPump started true None false Pumping [Response RespOk]
  | Err e => MkPump started false None false Sent [Response (worker_err_response e)]
  end.

Inductive pump_step : Pump -> Pump -> Prop :=
(** A callback of the run moves. *)
| pump_callback p x :
    senders p = true -> callback (live p) x ->
    pump_step p (MkPump x (senders p) (done_ p) (orderly p) (phase p) (frames p))
(** The run returns: no callback is left, and the sink goes. *)
| pump_release p :
    senders p = true -> (forall k, busy (live p) k = None) ->
    pump_step p (MkPump (live p) false (done_ p) (orderly p) (phase p) (frames p))
(** The worker reports the run, or its channel goes; a leaked run keeps the sink. *)
| pump_done p r :
    done_ p = None ->
    pump_step p (MkPump (live p) (senders p) (Some r) (negb (senders p)) (phase p) (frames p))
(** [output.recv()] yields a chunk. *)
| pump_recv p c q :
    phase p = Pumping -> queue (sink (live p)) = c :: q ->
    pump_step p (put (take_chunk c q (live p)) Pumping [Stream (output_frame c)] p)
(** [done] resolves in the [select]. *)
| pump_close p r :
    phase p = Pumping -> done_ p = Some r ->
    pump_step p (put (close_channel (live p)) (Draining r) [] p)
(** [try_recv] yields a chunk, or nothing. *)
| pump_drain p r c q :
    phase p = Draining r -> queue (sink (live p)) = c :: q ->
    pump_step p (put (take_chunk c q (live p)) (Draining r) [Stream (output_frame c)] p)
| pump_drained p r :
    phase p = Draining r -> queue (sink (live p)) = [] ->
    pump_step p (put (live p) Sent (last_frames r (overflowed (sink (live p)))) p)
(** [output.recv()] yields [None]. *)
| pump_none p :
    phase p = Pumping -> senders p = false -> queue (sink (live p)) = [] ->
    pump_step p (put (live p) Awaiting [] p)
| pump_awaited p r :
    phase p = Awaiting -> done_ p = Some r ->
    pump_step p (put (live p) Sent (last_frames r (overflowed (sink (live p)))) p)
(** A write fails, or the client leaves: the receiver is dropped. *)
| pump_gone p :
    phase p <> Sent ->
    pump_step p (put (close_channel (live p)) Gone [] p).

(** ** The client's side *)

Inductive DaemonError : Type :=
| Daemon (kind : ErrKind) (message : string)
| Transport (e : string).

Record DaemonExecCompletion : Type := MkCompletion {
  outcome : ExecTerminal;
  truncated : bool;
}.

Record ExecResult : Type := MkExecResult {
  exit_code : Z;
  stdout : list Z;
  stderr : list Z;
}.

Definition truncation_suffix (truncated : bool) : string :=
  if truncated then
    " (live output was truncated: it was not drained fast enough and a bounded output queue overflowed)"
  else "".

(** [Display] of an [i32]. *)
Definition show_i32 (n : Z) : string := if n <? 0 then "-" +:+ dec (- n) else dec n.

(** [{:?}] of a reply that is not an admission decision; the last two cases are
    decisions. *)
Definition DaemonResponse_debug (r : DaemonResponse) : string :=
  match r with
  | RespSessionProvisioned s => "SessionProvisioned { session_ref: " +:+ WslcExecs.debug_str s +:+ " }"
  | RespProvisioned s => "Provisioned { sandbox_id: " +:+ WslcExecs.debug_str s +:+ " }"
  | RespPong => "Pong"
  | RespOk => "Ok"
  | RespErr _ _ => "Err"
  end.

Section Client.
(** The text of the error of [read_frame]: the pipe ended, or carries a frame
    of the other type. *)
Context (eof : string) (undecodable : Frame -> string).

Definition admit_exec (pipe : list Frame) : result DaemonError (list Frame) :=
  match pipe with
  | [] => Err (Transport eof)
  | Response RespOk :: pipe => Ok pipe
  | Response (RespErr kind message) :: _ => Err (Daemon kind message)
  | Response other :: _ => Err (Transport ("unexpected exec admission reply: " +:+ DaemonResponse_debug other))
  | f :: _ => Err (Transport (undecodable f))
  end.

(** [on_output] threads the state its closure captures. *)
Fixpoint read_to_completion {S} (on_output : OutStream -> list Z -> S -> S) (truncated : bool) (s : S)
    (pipe : list Frame) : result DaemonError DaemonExecCompletion * S :=
  match pipe with
  | [] => (Err (Transport eof), s)
  | Stream (FrameStdout data) :: pipe => read_to_completion on_output truncated (on_output Stdout data s) pipe
  | Stream (FrameStderr data) :: pipe => read_to_completion on_output truncated (on_output Stderr data s) pipe
  | Stream FrameTruncated :: pipe => read_to_completion on_output true s pipe
  | Stream (FrameExit code) :: _ => (Ok (MkCompletion (Exited code) truncated), s)
  | Stream FrameTimedOut :: _ => (Ok (MkCompletion TimedOut truncated), s)
  | Stream FrameCancelled :: _ => (Ok (MkCompletion Cancelled truncated), s)
  | Stream (FrameError message) :: _ =>
      (Err (Transport ("exec failed: " +:+ message +:+ truncation_suffix truncated)), s)
  | Stream (FrameStdin _) :: _ => (Err (Transport "protocol error: daemon sent a Stdin frame to the client"), s)
  | f :: _ => (Err (Transport (undecodable f)), s)
  end.

Definition exec_streaming {S} (on_output : OutStream -> list Z -> S -> S) (s : S) (pipe : list Frame)
    : result DaemonError DaemonExecCompletion * S :=
  match admit_exec pipe with
  | Ok pipe => read_to_completion on_output false s pipe
  | Err e => (Err e, s)
  end.

(** The two buffers [exec] extends. *)
Definition extend (k : OutStream) (data : list Z) (s : list Z * list Z) : list Z * list Z :=
  match k with
  | Stdout => (s.1 ++ data, s.2)
  | Stderr => (s.1, s.2 ++ data)
  end.

Definition exec (pipe : list Frame) : result DaemonError ExecResult :=
  match exec_streaming extend ([], []) pipe with
  | (Err e, _) => Err e
  | (Ok completion, (stdout, stderr)) =>
      match outcome completion with
      | TimedOut => Err (Transport ("exec timed out" +:+ truncation_suffix (truncated completion)))
      | Cancelled => Err (Transport ("exec was cancelled" +:+ truncation_suffix (truncated completion)))
      | Exited exit_code =>
          if truncated completion then
            Err (Transport ("exec output was truncated before it could be captured (the process exited "
                              +:+ show_i32 exit_code +:+ ")"))
          else Ok (MkExecResult exit_code stdout stderr)
      end
  end.

End Client.

(** ** What the pump keeps *)

Definition outputs (x : Live) : list Frame := (fun c => Stream (output_frame c)) <$> received x.

Record flows (p : Pump) : Prop := MkFlows {
  fl_live : rtc step started (live p);
  fl_idle : senders p = false -> forall k, busy (live p) k = None;
  fl_orderly : orderly p = true -> senders p = false /\ exists r, done_ p = Some r;
  fl_phase :
    match phase p with
    | Pumping => receiver_closed (sink (live p)) = false
    | Draining r => done_ p = Some r /\ receiver_closed (sink (live p)) = true
    | Awaiting => receiver_closed (sink (live p)) = false /\ senders p = false /\ queue (sink (live p)) = []
    | Sent => queue (sink (live p)) = [] /\ (receiver_closed (sink (live p)) = true \/ senders p = false)
    | Gone => True
    end;
  fl_frames :
    match phase p with
    | Sent => exists r ov, done_ p = Some r /\ (orderly p = true -> ov = overflowed (sink (live p))) /\
        frames p = Response RespOk :: outputs (live p) ++ last_frames r ov
    | _ => frames p = Response RespOk :: outputs (live p)
    end;
  fl_whole : orderly p = true -> phase p <> Gone ->
    overflowed (sink (live p)) = true \/ forall k, produced (live p) k = delivered k (live p);
}.

Lemma outputs_take c q x : outputs (take_chunk c q x) = outputs x ++ [Stream (output_frame c)].
Proof. unfold outputs. cbn. by rewrite fmap_app. Qed.

Lemma delivered_take k c q x : queue (sink x) = c :: q -> delivered k (take_chunk c q x) = delivered k x.
Proof. intros Hq. unfold delivered. cbn. by rewrite Hq, <- app_assoc. Qed.

(** While the receiver is open, output that is not on its way latched the sink. *)
Lemma open_whole x :
  rtc step started x -> (forall k, busy x k = None) -> receiver_closed (sink x) = false ->
  overflowed (sink x) = true \/ forall k, produced x k = delivered k x.
Proof.
  intros Hx%live_reachable_sound Hb Hc. destruct (overflowed (sink x)) eqn:Ho; [by left|right]. intros k.
  destruct (sound_stream _ Hx k) as [Hk|(lost & _ & [[_ ?]|?])]; [|congruence..].
  rewrite Hk. unfold remaining. rewrite Hb. cbn. by rewrite app_nil_r.
Qed.

(** A callback leaves the handler's side alone; a closed queue takes nothing. *)
Lemma callback_frame x y :
  callback x y ->
  received y = received x /\ receiver_closed (sink y) = receiver_closed (sink x) /\
  (receiver_closed (sink x) = true -> queue (sink y) = queue (sink x)).
Proof.
  intros Hxy. destruct Hxy as [x k bytes Hb|x k chunk l s Hb Ht|x k chunk l Hb Ht|x k chunk l Hb Ht|x k Hb]; try done.
  apply try_send_Ok in Ht as (-> & Hc & _). cbn. split_and!; [done|done|congruence].
Qed.

Lemma flows_callback p x :
  flows p -> senders p = true -> callback (live p) x ->
  flows (MkPump x (senders p) (done_ p) (orderly p) (phase p) (frames p)).
Proof.
  intros Hp Hs Hx. destruct (callback_frame _ _ Hx) as (Hr & Hc & Hq).
  assert (Hout : outputs x = outputs (live p)) by (unfold outputs; by rewrite Hr).
  assert (Ho : orderly p = true -> False) by (intros [? _]%(fl_orderly _ Hp); congruence).
  constructor; cbn; rewrite ?Hout, ?Hc; try apply Hp.
  - eapply rtc_r; [apply Hp|by apply step_callback].
  - congruence.
  - pose proof (fl_phase _ Hp) as Hph. destruct (phase p); try done.
    + destruct Hph as (_ & ? & _). congruence.
    + destruct Hph as [Hq0 [Hcl|?]]; [|congruence]. rewrite Hq by done. auto.
  - pose proof (fl_frames _ Hp) as Hf. destruct (phase p); try done.
    destruct Hf as (r & ov & Hd & _ & Hf). exists r, ov. split_and!; [done| |done]. intros []%Ho.
  - intros []%Ho.
Qed.

Lemma flows_release p :
  flows p -> (forall k, busy (live p) k = None) ->
  flows (MkPump (live p) false (done_ p) (orderly p) (phase p) (frames p)).
Proof.
  intros Hp Hb. constructor; cbn; try apply Hp; [done| |].
  - intros [_ ?]%(fl_orderly _ Hp). by split.
  - pose proof (fl_phase _ Hp). destruct (phase p); naive_solver.
Qed.

Lemma flows_done p r :
  flows p -> done_ p = None ->
  flows (MkPump (live p) (senders p) (Some r) (negb (senders p)) (phase p) (frames p)).
Proof.
  intros Hp Hd. pose proof (fl_phase _ Hp) as Hph. pose proof (fl_frames _ Hp) as Hf.
  constructor; cbn; try apply Hp.
  - intros ?%negb_true_iff. split; [done|by eexists].
  - destruct (phase p); naive_solver congruence.
  - destruct (phase p); try done. destruct Hf as (? & ? & ? & _). congruence.
  - intros Hs%negb_true_iff Hg. apply open_whole; [apply Hp|by apply (fl_idle _ Hp)|].
    destruct (phase p); [done|..]; try naive_solver congruence.
Qed.

Lemma flows_take p c q ph :
  flows p -> (phase p = Pumping \/ exists r, phase p = Draining r) -> ph = phase p -> queue (sink (live p)) = c :: q ->
  flows (put (take_chunk c q (live p)) ph [Stream (output_frame c)] p).
Proof.
  intros Hp Hph -> Hq. constructor; cbn [put live senders done_ orderly phase frames].
  - eapply rtc_r; [apply Hp|by apply step_recv].
  - apply Hp.
  - apply Hp.
  - pose proof (fl_phase _ Hp). destruct Hph as [E|[r E]]; rewrite E in *; done.
  - rewrite outputs_take. pose proof (fl_frames _ Hp) as Hf. destruct Hph as [E|[r E]]; rewrite E in *; by rewrite Hf.
  - intros Ho Hg. destruct (fl_whole _ Hp Ho Hg) as [?|Hk]; [by left|right]. intros k.
    rewrite delivered_take by done. apply Hk.
Qed.

(** The channel is closed, by the handler or with it. *)
Lemma flows_close p ph :
  flows p -> phase p <> Sent ->
  (ph = Gone \/ phase p = Pumping /\ exists r, ph = Draining r /\ done_ p = Some r) ->
  flows (put (close_channel (live p)) ph [] p).
Proof.
  intros Hp Hs Hph. assert (Hf : frames p = Response RespOk :: outputs (live p)).
  { pose proof (fl_frames _ Hp) as Hf. by destruct (phase p). }
  constructor; cbn [put live senders done_ orderly phase frames]; rewrite ?app_nil_r; try apply Hp.
  - eapply rtc_r; [apply Hp|apply step_close].
  - destruct Hph as [->|(_ & r & -> & Hd)]; done.
  - destruct Hph as [->|(_ & r & -> & Hd)]; done.
  - intros Ho Hg. apply (fl_whole _ Hp Ho). destruct Hph as [->|(-> & _)]; done.
Qed.

Lemma flows_last p r :
  flows p -> (phase p = Draining r /\ queue (sink (live p)) = [] \/ phase p = Awaiting /\ done_ p = Some r) ->
  flows (put (live p) Sent (last_frames r (overflowed (sink (live p)))) p).
Proof.
  intros Hp Hph. pose proof (fl_phase _ Hp) as H. pose proof (fl_frames _ Hp) as Hf.
  constructor; cbn [put live senders done_ orderly phase frames]; try apply Hp.
  - destruct Hph as [[E Hq]|[E Hd]]; rewrite E in H; naive_solver.
  - exists r, (overflowed (sink (live p))). split_and!; [|done|].
    + destruct Hph as [[E Hq]|[E Hd]]; rewrite E in H; naive_solver.
    + destruct Hph as [[E Hq]|[E Hd]]; rewrite E in Hf; by rewrite Hf.
  - intros Ho _. apply (fl_whole _ Hp Ho). destruct Hph as [[-> _]|[-> _]]; done.
Qed.

Lemma flows_step p p' : flows p -> pump_step p p' -> flows p'.
Proof.
  intros Hp Hs.
  destruct Hs as [p x Hs Hx|p Hs Hb|p r Hd|p c q Hph Hq|p r Hph Hd|p r c q Hph Hq|p r Hph Hq|p Hph Hs Hq|p r Hph Hd|p Hph].
  - by apply flows_callback.
  - by apply flows_release.
  - by apply flows_done.
  - apply flows_take; auto.
  - apply flows_close; [done|congruence|right]. eauto.
  - apply flows_take; eauto.
  - apply flows_last; auto.
  - pose proof (fl_phase _ Hp) as Hc. pose proof (fl_frames _ Hp) as Hf. pose proof (fl_whole _ Hp) as Hw.
    rewrite Hph in *. constructor; cbn [put live senders done_ orderly phase frames]; rewrite ?app_nil_r; try apply Hp; try done.
    intros Ho _. by apply Hw.
  - apply flows_last; auto.
  - apply flows_close; auto.
Qed.

Lemma flows_reachable p : rtc pump_step (admitted (Ok tt)) p -> flows p.
Proof.
  intros Hr. apply (rtc_ind_r flows) in Hr; [done| |intros y z _ Hyz Hy; by eapply flows_step].
  constructor; cbn; try done.
Qed.

(** ** What the client reads *)

Section Reads.
Context (eof : string) (undecodable : Frame -> string).

Lemma read_outputs l t s1 s2 rest :
  read_to_completion eof undecodable extend t (s1, s2) (((fun c => Stream (output_frame c)) <$> l) ++ rest) =
  read_to_completion eof undecodable extend t (s1 ++ of_stream Stdout l, s2 ++ of_stream Stderr l) rest.
Proof.
  revert s1 s2. induction l as [|[k d] l IH]; intros s1 s2; [unfold of_stream; cbn; by rewrite !app_nil_r|].
  change ((k, d) :: l) with ([(k, d)] ++ l). rewrite !of_stream_app, !of_stream_one.
  destruct k; cbn; rewrite IH; cbn; by rewrite ?app_assoc, ?app_nil_r.
Qed.

(** What [exec] makes of a completion, given what the two buffers hold. *)
Definition captured (r : Completion) (ov : bool) (out err : list Z) : result DaemonError ExecResult :=
  match r with
  | Ok (Ok (Exited code)) =>
      if ov then Err (Transport ("exec output was truncated before it could be captured (the process exited "
                              +:+ show_i32 code +:+ ")"))
      else Ok (MkExecResult code out err)
  | Ok (Ok TimedOut) => Err (Transport ("exec timed out" +:+ truncation_suffix ov))
  | Ok (Ok Cancelled) => Err (Transport ("exec was cancelled" +:+ truncation_suffix ov))
  | Ok (Err e) => Err (Transport ("exec failed: " +:+ WorkerError_display e +:+ truncation_suffix ov))
  | Err _ => Err (Transport ("exec failed: " +:+ "WSLc worker dropped the exec reply channel" +:+ truncation_suffix ov))
  end.

Lemma exec_last x r ov :
  exec eof undecodable (Response RespOk :: outputs x ++ last_frames r ov) =
  captured r ov (of_stream Stdout (received x)) (of_stream Stderr (received x)).
Proof.
  unfold exec, exec_streaming. cbn [admit_exec]. unfold outputs. rewrite read_outputs.
  destruct r as [[[]|]|], ov; done.
Qed.

Lemma exec_unfinished x :
  exec eof undecodable (Response RespOk :: outputs x) = Err (Transport eof).
Proof.
  unfold exec, exec_streaming. cbn [admit_exec]. unfold outputs.
  rewrite <- (app_nil_r (_ <$> _)), read_outputs. done.
Qed.

(** C17. From the process to the caller: a run whose sink was released before its
    completion was reported, and whose handler returned, gives the client
    exactly the bytes the process wrote to each stream with its exit code, or,
    when live output was dropped, an error saying so; a timeout, a cancellation
    or a failure stays one.  Whatever was written to the pipe when the client
    reads it, a captured result carries the reported exit code and, for each
    stream, a prefix of what the process wrote; a refused exec is the worker's
    typed error. *)
Theorem exec_capture_exact p :
  rtc pump_step (admitted (Ok tt)) p ->
  (phase p = Sent -> orderly p = true ->
   exists r, done_ p = Some r /\
     exec eof undecodable (frames p) =
       captured r (overflowed (sink (live p))) (produced (live p) Stdout) (produced (live p) Stderr)) /\
  (forall res, exec eof undecodable (frames p) = Ok res ->
     done_ p = Some (Ok (Ok (Exited (exit_code res)))) /\
     stdout res `prefix_of` produced (live p) Stdout /\ stderr res `prefix_of` produced (live p) Stderr) /\
  (forall e, exec eof undecodable (frames (admitted (Err e))) =
     Err (Daemon (WorkerError_kind e) (WorkerError_display e))).
Proof.
  intros Hp%flows_reachable. pose proof (fl_frames _ Hp) as Hf. pose proof (fl_phase _ Hp) as Hph. split_and!; [| |done].
  - intros Hs Ho. rewrite Hs in Hf, Hph. destruct Hf as (r & ov & Hd & Hov & ->). exists r. split; [done|].
    rewrite exec_last, (Hov Ho). destruct (fl_whole _ Hp Ho ltac:(congruence)) as [->|Hk].
    + by destruct r as [[[]|]|].
    + rewrite !Hk. unfold delivered. by rewrite (proj1 Hph), app_nil_r.
  - intros res Hres. destruct (phase p) eqn:E; try (rewrite Hf, exec_unfinished in Hres; done).
    destruct Hf as (r & ov & Hd & _ & Hf). rewrite Hf, exec_last in Hres.
    destruct r as [[[]|]|], ov; try done. injection Hres as <-. split; [done|].
    assert (Hk : forall k, of_stream k (received (live p)) `prefix_of` produced (live p) k).
    { intros k. destruct (sound_stream _ (live_reachable_sound _ (fl_live _ Hp)) k) as [Hk|(lost & Hk & _)];
        rewrite Hk; unfold delivered; rewrite (proj1 Hph), app_nil_r; by eexists. }
    split; apply Hk.
Qed.

End Reads.

(** ** The end of the stream *)

Lemma drain_to_end p r :
  phase p = Draining r -> exists p', nsteps pump_step (S (length (queue (sink (live p))))) p p' /\ phase p' = Sent.
Proof.
  remember (queue (sink (live p))) as q eqn:Hq. revert p Hq.
  induction q as [|c q IH]; intros p Hq Hph.
  - eexists. split; [eapply nsteps_once; by eapply pump_drained|done].
  - destruct (IH (put (take_chunk c q (live p)) (Draining r) [Stream (output_frame c)] p)) as (p' & Hp' & Hs); [done..|].
    exists p'. split; [|done]. eapply nsteps_l; [|exact Hp']. by apply pump_drain.
Qed.

(** The terminal frame is not starved: once the completion of a run is
    reported and the client is there, the handler alone writes the last frame
    within the capacity of the queue plus two steps, and from the moment it
    drains no step of the run, leaked or not, adds to what it has to write. *)
Theorem exec_terminal_not_starved p r :
  rtc pump_step (admitted (Ok tt)) p -> done_ p = Some r -> phase p <> Gone ->
  (exists n p', (n <= LIVE_OUTPUT_CHANNEL_CAPACITY + 2)%nat /\ nsteps pump_step n p p' /\ phase p' = Sent) /\
  (forall r' p', phase p = Draining r' -> pump_step p p' -> phase p' <> Gone ->
     exists sent, queue (sink (live p)) = sent ++ queue (sink (live p')) /\
       (sent = [] /\ phase p' = Draining r' \/ length sent = 1%nat /\ phase p' = Draining r' \/ phase p' = Sent)).
Proof.
  intros Hp%flows_reachable Hd Hg. pose proof (fl_phase _ Hp) as Hph.
  pose proof (sound_capacity _ (live_reachable_sound _ (fl_live _ Hp))) as Hcap. split.
  - destruct (phase p) eqn:E; [| | | |done].
    + destruct (drain_to_end (put (close_channel (live p)) (Draining r) [] p) r) as (p' & Hp' & Hs); [done|].
      eexists _, p'. split_and!; [|eapply nsteps_l; [by apply pump_close|exact Hp']|done]. cbn. lia.
    + destruct (drain_to_end p r0 E) as (p' & Hp' & Hs). eexists _, p'. split_and!; [|done|done]. lia.
    + eexists 1%nat, _. split_and!; [lia|eapply nsteps_once; by eapply pump_awaited|done].
    + exists 0%nat, p. split_and!; [lia|constructor|done].
  - intros r' p' E Hs Hg'. rewrite E in Hph. destruct Hph as [_ Hc].
    destruct Hs as [p x Hs Hx|p Hs Hb|p r'' Hd'|p c q Hph Hq|p r'' Hph Hd'|p r'' c q Hph Hq|p r'' Hph Hq|p Hph Hs Hq|p r'' Hph Hd'|p Hph];
      try congruence; cbn in *; try congruence.
    + exists []. destruct (callback_frame _ _ Hx) as (_ & _ & ->); auto.
    + exists []. auto.
    + exists [c]. rewrite Hq. split; [done|]. right. left. split; [done|congruence].
    + exists []. auto.
Qed.

(** A run that writes three bytes and exits, read by its client. *)
Definition three_bytes : Live :=
  take_chunk (Stdout, [1; 2; 3]) [] (MkLive (MkSink [(Stdout, [1; 2; 3])] false false)
    (upd (upd (upd (fun _ => None) Stdout (Some [[1; 2; 3]])) Stdout (Some [])) Stdout None) [] (upd (fun _ => []) Stdout [1; 2; 3])).

Definition ran : Pump :=
  put three_bytes Pumping [Stream (FrameStdout [1; 2; 3])]
    (MkPump (MkLive (MkSink [] false false) (fun _ => None) [] (fun _ => [])) false None false Pumping [Response RespOk]).

Definition reported : Pump := MkPump (live ran) false (Some (Ok (Ok (Exited 7)))) true Pumping (frames ran).

Lemma reported_reachable : rtc pump_step (admitted (Ok tt)) reported.
Proof.
  eapply rtc_l; [apply pump_callback; [done|]; apply (step_begin _ Stdout [1; 2; 3]); done|].
  eapply rtc_l; [apply pump_callback; [done|]; eapply (step_sent _ Stdout [1; 2; 3] []); [by vm_compute|done]|].
  eapply rtc_l; [apply pump_callback; [done|]; apply (step_end _ Stdout); done|].
  eapply rtc_l; [apply pump_recv; done|].
  eapply rtc_l; [apply pump_release; [done|by intros []]|].
  eapply rtc_l; [apply (pump_done _ (Ok (Ok (Exited 7)))); done|]. apply rtc_refl.
Qed.

Definition closing : Pump := put (close_channel (live reported)) (Draining (Ok (Ok (Exited 7)))) [] reported.
Definition returned : Pump := put (live closing) Sent (last_frames (Ok (Ok (Exited 7))) false) closing.

Lemma returned_reachable : rtc pump_step (admitted (Ok tt)) returned.
Proof.
  eapply rtc_r; [eapply rtc_r; [apply reported_reachable|by apply (pump_close reported (Ok (Ok (Exited 7))))]|].
  by apply (pump_drained closing (Ok (Ok (Exited 7)))).
Qed.

Lemma exec_capture_exact_witness :
  exec "" (fun _ => "") (frames returned) = Ok (MkExecResult 7 [1; 2; 3] []).
Proof.
  destruct (exec_capture_exact "" (fun _ => "") returned returned_reachable) as [(r & [= <-] & ->) _]; done.
Defined.

Lemma exec_terminal_not_starved_witness :
  exists n p', (n <= 258)%nat /\ nsteps pump_step n reported p' /\ phase p' = Sent.
Proof.
  apply (exec_terminal_not_starved reported (Ok (Ok (Exited 7))) reported_reachable); done.
Defined.

End ExecStream.
