(* ===== verification/UnixPath.v ===== *)
(** * Paths as [std::path] reads them on Unix

    The components of a path, and the operations of [std::path::Path] the
    backends use: [components], [starts_with], [has_root], [parent] and
    [strip_prefix] work on components, so repeated slashes and interior [.]
    segments do not count.  Bytes are compared as they are. *)

From Stdlib Require Import Ascii.
From S2P Require Import Prelude.


(** ** Splitting on a set of characters *)

(** [str::split] with a predicate: always at least one piece. *)
Fixpoint split_by (p : ascii -> bool) (s : string) : list string :=
  match s with
  | EmptyString => [""]
  | String c s =>
      if p c then "" :: split_by p s
      else match split_by p s with
           | x :: l => String c x :: l
           | [] => [String c ""]
           end
  end.

Definition is_slash (c : ascii) : bool := bool_decide (c = "/"%char).

(** ** Components *)

Module UnixPath.

Inductive Component : Type :=
| RootDir
| CurDir
| ParentDir
| Normal (name : string).

#[global] Instance Component_eq_dec : EqDecision Component.
Proof. solve_decision. Defined.

#[global] Instance Normal_inj : Inj (=) (=) Normal.
Proof. by intros a b [=]. Qed.

Definition Component_as_str (c : Component) : string :=
  match c with RootDir => "/" | CurDir => "." | ParentDir => ".." | Normal name => name end.

(** A segment of the body of a path; empty and [.] segments are skipped. *)
Definition segment (s : string) : option Component :=
  if bool_decide (s = "") || bool_decide (s = ".") then None
  else if bool_decide (s = "..") then Some ParentDir
  else Some (Normal s).

(** [Path::has_root]. *)
Definition has_root (path : string) : bool := starts_with is_slash path.

(** [Path::components]: a leading [.] of a relative path is kept. *)
Definition components (path : string) : list Component :=
  let segments := string_split "/" path in
  (if has_root path then [RootDir]
   else match segments with "." :: _ => [CurDir] | _ => [] end)
  ++ omap segment segments.

(** [Path::starts_with] and [Path::eq] compare components. *)
Definition starts_with (path base : string) : bool :=
  bool_decide (components base `prefix_of` components path).

Definition path_eq (a b : string) : bool := bool_decide (components a = components b).

(** [Path::parent], as components: none of the root or of the empty path. *)
Definition parent (path : list Component) : option (list Component) :=
  match rev path with
  | [] | RootDir :: _ => None
  | _ :: rest => Some (rev rest)
  end.

(** A path written without redundancy: absolute, no empty, [.] or [..] segment. *)
Definition clean_name (s : string) : bool :=
  negb (bool_decide (s = "")) && negb (bool_decide (s = ".")) && negb (bool_decide (s = ".."))
  && string_all (fun c => negb (is_slash c)) s.

(** The absolute path with the given names. *)
Definition absolute (names : list string) : string := "/" +:+ string_join "/" names.

(** ** Lemmas *)

Lemma lacks_slash s : string_all (fun c => negb (is_slash c)) s = lacks "/"%char s.
Proof. done. Qed.

Lemma clean_name_spec s :
  clean_name s = true -> s <> "" /\ segment s = Some (Normal s) /\ lacks "/"%char s = true.
Proof.
  unfold clean_name, segment. rewrite !andb_true_iff, !negb_true_iff, !bool_decide_eq_false.
  intros [[[H1 H2] H3] H4]. rewrite !bool_decide_eq_false_2 by done. by rewrite <- lacks_slash.
Qed.

Lemma components_absolute names :
  Forall (fun s => clean_name s = true) names -> components (absolute names) = RootDir :: (Normal <$> names).
Proof.
  intros Hn. unfold components, absolute.
  assert (Hr : has_root ("/" +:+ string_join "/" names) = true) by done. rewrite Hr. cbn [app]. f_equal.
  change ("/" +:+ string_join "/" names) with ("" +:+ String "/" (string_join "/" names)).
  rewrite string_split_cons by done.
  change (omap segment ("" :: string_split "/" (string_join "/" names)))
    with (omap segment (string_split "/" (string_join "/" names))).
  destruct names as [|s names]; [done|].
  rewrite string_split_join; [|done|].
  - induction Hn as [|x l Hx Hl IH]; [done|]. destruct (clean_name_spec _ Hx) as (_ & Hs & _).
    unfold omap in *. cbn [list_omap fmap list_fmap]. rewrite Hs. f_equal. by apply IH.
  - eapply Forall_impl; [exact Hn|]. intros x Hx. by destruct (clean_name_spec _ Hx) as (_ & _ & ?).
Qed.

End UnixPath.
