(* ===== verification/FsPolicy.v ===== *)
(** * The filesystem policy

    How the three path lists of a policy become an ordered plan.
    [core/mxc_common/config_parser.rs] drops a path that a more restrictive list
    names too ([normalize_filesystem_paths_with]); [filesystem_object.rs] tightens
    paths that name the same object of the host ([normalize_object_conflicts_with]);
    [filesystem_resolve.rs] orders what is left shallow to deep
    ([resolve_path_plan]), so that a backend for which the last rule wins lets the
    most specific path win.  The host is what the two resolvers answer for a
    path; log lines are left out. *)

From Stdlib Require Import Ascii.
From stdpp Require Import gmap sorting.
From S2P Require Import Prelude NetText Models Requests UnixPath.

#[local] Open Scope nat_scope.

Module FsPolicy.

(** ** [filesystem_resolve.rs] *)

Inductive FsIntent : Type := ReadWrite | ReadOnly | Denied.
#[global] Instance FsIntent_eq_dec : EqDecision FsIntent.
Proof. solve_decision. Defined.

(** The derived order, least to most restrictive. *)
Definition rank (i : FsIntent) : nat := match i with ReadWrite => 0 | ReadOnly => 1 | Denied => 2 end.

Record ResolvedMount : Type := MkMount {
  mount_path : string;
  mount_intent : FsIntent;
}.

Definition PathKey : Type := list string.

(** [PathKey::from_path]: the non-empty pieces between slashes of either kind. *)
Definition from_path (path : string) : PathKey :=
  filter (fun c => c <> "") (split_by (fun c => is_slash c || bool_decide (c = "\"%char)) path).

Definition depth (k : PathKey) : nat := length k.

Record Candidate : Type := MkCandidate {
  candidate_path : string;
  candidate_key : PathKey;
  candidate_intent : FsIntent;
  sequence : nat;
}.

(** The comparison given to [sort_by]. *)
Definition candidate_le (a b : Candidate) : Prop :=
  depth (candidate_key a) < depth (candidate_key b) \/
  depth (candidate_key a) = depth (candidate_key b) /\ sequence a <= sequence b.
#[global] Instance candidate_le_dec : RelDecision candidate_le.
Proof. unfold candidate_le. solve_decision. Defined.

(** The paths of the lists in the order they are pushed. *)
Definition tagged (readwrite_paths readonly_paths denied_paths : list string) : list (string * FsIntent) :=
  ((fun p => (p, ReadWrite)) <$> readwrite_paths) ++ ((fun p => (p, ReadOnly)) <$> readonly_paths)
  ++ ((fun p => (p, Denied)) <$> denied_paths).

Definition candidates (readwrite_paths readonly_paths denied_paths : list string) : list Candidate :=
  imap (fun i e => MkCandidate e.1 (from_path e.1) e.2 i) (tagged readwrite_paths readonly_paths denied_paths).

Definition resolve_path_plan (readwrite_paths readonly_paths denied_paths : list string) : list ResolvedMount :=
  (fun c => MkMount (candidate_path c) (candidate_intent c)) <$>
    merge_sort candidate_le (candidates readwrite_paths readonly_paths denied_paths).

Definition resolve_mount_order (p : ContainerPolicy) : list ResolvedMount :=
  resolve_path_plan (readwrite_paths p) (readonly_paths p) (denied_paths p).

(** ** [filesystem_object.rs] *)

(** [Intent] of this file is the same enumeration. *)
Definition list_name (i : FsIntent) : string :=
  match i with ReadWrite => "readwritePaths" | ReadOnly => "readonlyPaths" | Denied => "deniedPaths" end.

(** Device and inode, or volume and file index. *)
Definition ObjectId : Type := Z * Z.

Inductive PathResolution : Type :=
| Object (id : ObjectId)
| Absent
| Inaccessible
| Unknown.

Inductive FilesystemPolicyError : Type :=
| PolicyError (message : string)
| HostError (message : string).

Inductive ExistingObjectComparison : Type := Same | Different | UnknownObjects.

Definition compare_resolved_filesystem_objects (a b : PathResolution) : ExistingObjectComparison :=
  match a, b with
  | Object x, Object y => if decide (x = y) then Same else Different
  | (Unknown | Inaccessible), _ | _, (Unknown | Inaccessible) => UnknownObjects
  | Absent, _ | _, Absent => Different
  end.

Definition unresolvable_message (path : string) (intent : FsIntent) (cause remedy : string) : string :=
  "Filesystem path '" +:+ path +:+ "' (" +:+ list_name intent
  +:+ ") could not be resolved to a filesystem object (" +:+ cause
  +:+ "). Because deniedPaths are present, MXC cannot verify it does not alias a denied object and refuses to run rather than risk bypassing the deny. "
  +:+ remedy.

Section Objects.
Context (resolve : string -> result string PathResolution).

(** One entry of the grouping loop. *)
Definition group_entry (has_denied : bool) (e : nat * (string * FsIntent)) (groups : gmap ObjectId (list nat))
    : result FilesystemPolicyError (gmap ObjectId (list nat)) :=
  let '(i, (path, intent)) := e in
  resolution ← map_err HostError (resolve path);
  match resolution with
  | Object id => Ok (<[id := default [] (groups !! id) ++ [i]]> groups)
  | Absent => Ok groups
  | Inaccessible =>
      if has_denied then
        Err (PolicyError (unresolvable_message path intent "permission denied"
               "Grant access to the path, or remove the offending entry."))
      else Ok groups
  | Unknown =>
      if has_denied then
        Err (HostError (unresolvable_message path intent "unreachable mount or I/O error"
               "Retry once the path is reachable, or remove the offending entry."))
      else Ok groups
  end.

Definition max_intent (a b : FsIntent) : FsIntent := if rank a <=? rank b then b else a.

Definition intent_at (entries : list (string * FsIntent)) (i : nat) : FsIntent :=
  default ReadWrite (snd <$> entries !! i).

Definition raise_intent (entries : list (string * FsIntent)) (target : FsIntent) (st : list FsIntent * bool) (i : nat)
    : list FsIntent * bool :=
  if rank (intent_at entries i) <? rank target then (<[i := target]> st.1, true) else st.

(** One group of aliases: its members below the strictest intent are raised. *)
Definition tighten (entries : list (string * FsIntent)) (members : list nat) (st : list FsIntent * bool)
    : list FsIntent * bool :=
  if length members <? 2 then st
  else
    let target := foldr max_intent ReadWrite (intent_at entries <$> members) in
    if forallb (fun i => bool_decide (intent_at entries i = target)) members then st
    else foldl (raise_intent entries target) st members.

(** A list rebuilt from the entries with one intent, without repetitions. *)
Definition rebuild (entries : list (string * FsIntent)) (final : list FsIntent) (intent : FsIntent) : list string :=
  foldl (fun acc '(path, i) => if decide (i = intent /\ (path ∉ acc)) then acc ++ [path] else acc) []
    (zip (fst <$> entries) final).

Definition set_paths (p : ContainerPolicy) (rw ro dn : list string) : ContainerPolicy :=
  MkPolicy (least_privilege_mode p) (capabilities p) rw ro (enumerate_paths p) dn
    (network_egress p) (network_ingress p) (allowed_proxy_peer p) (network_proxy p)
    (network_specified p) (network_mode_specified p) (runtime_network_proxy_specified p) (ui p)
    (ui_specified p) (base_process_ui p) (capture_denials p).

Definition normalize_object_conflicts_with (p : ContainerPolicy)
    : result FilesystemPolicyError (option ContainerPolicy) :=
  let entries := tagged (readwrite_paths p) (readonly_paths p) (denied_paths p) in
  if length entries <=? 1 then Ok None
  else
    groups ← foldM (group_entry (negb (is_empty (denied_paths p)))) (enumerate entries) ∅;
    let '(final, changed) :=
      foldr (tighten entries) (snd <$> entries, false) (snd <$> map_to_list groups) in
    if (changed : bool) then
      Ok (Some (set_paths p (rebuild entries final ReadWrite) (rebuild entries final ReadOnly)
                  (rebuild entries final Denied)))
    else Ok None.

End Objects.

(** ** [config_parser.rs] *)

Section Parser.
(** [escape_diagnostic_text], which escapes by Unicode category; [path_missing]:
    the probe of a path, which may fail. *)
Context (escape_diagnostic_text : string -> string) (path_missing : string -> result string bool).

Definition validate_path_entry (path : string) : result WxcError unit :=
  if is_blank path then Err (ConfigParse "Filesystem path is empty")
  else if string_any (fun c => bool_decide (c = "000"%char)) path then
    Err (ConfigParse ("Filesystem path '" +:+ escape_diagnostic_text path +:+ "' contains an embedded NUL character"))
  else if string_any (fun c => bool_decide (c = "034"%char)) path then
    Err (ConfigParse ("Filesystem path '" +:+ escape_diagnostic_text path +:+ "' contains invalid character '"
                        +:+ String "034" "'"))
  else Ok tt.

Definition validate_paths (paths : list string) : result WxcError unit :=
  foldM (fun path _ => validate_path_entry path) paths tt.

Definition validate_filesystem_paths (p : ContainerPolicy) : result WxcError unit :=
  _ ← validate_paths (readonly_paths p);
  _ ← validate_paths (readwrite_paths p);
  _ ← validate_paths (enumerate_paths p);
  validate_paths (denied_paths p).

(** The four lists with a path kept only in the most restrictive one that names it. *)
Definition retain_strictest (p : ContainerPolicy) : ContainerPolicy :=
  let lists := set_paths p
    (filter (fun x => (x ∉ denied_paths p) /\ (x ∉ enumerate_paths p) /\ (x ∉ readonly_paths p)) (readwrite_paths p))
    (filter (fun x => (x ∉ denied_paths p) /\ (x ∉ enumerate_paths p)) (readonly_paths p)) (denied_paths p) in
  MkPolicy (least_privilege_mode lists) (capabilities lists) (readwrite_paths lists) (readonly_paths lists)
    (filter (fun x => x ∉ denied_paths p) (enumerate_paths p)) (denied_paths lists)
    (network_egress p) (network_ingress p) (allowed_proxy_peer p) (network_proxy p)
    (network_specified p) (network_mode_specified p) (runtime_network_proxy_specified p) (ui p)
    (ui_specified p) (base_process_ui p) (capture_denials p).

Definition normalize_filesystem_paths_with (p : ContainerPolicy) : result WxcError ContainerPolicy :=
  if is_empty (readwrite_paths p) && is_empty (readonly_paths p) && is_empty (enumerate_paths p)
     && is_empty (denied_paths p) then Ok p
  else
    let p := retain_strictest p in
    _ ← foldM (fun path _ => _ ← map_err ConfigParse (path_missing path); Ok tt)
          (readwrite_paths p ++ readonly_paths p ++ denied_paths p) tt;
    Ok p.

End Parser.

(** ** The most specific path wins *)

#[global] Instance candidate_le_trans : Transitive candidate_le.
Proof. unfold candidate_le. intros a b c. lia. Qed.
#[global] Instance candidate_le_total : Total candidate_le.
Proof. unfold candidate_le. intros a b. lia. Qed.

(** The last element of a sorted list that satisfies [P] is above the others. *)
Lemma sorted_last_filter {A} (R : relation A) `{!Reflexive R} (P : A -> Prop) `{!forall x, Decision (P x)} l x :
  StronglySorted R l -> last (filter P l) = Some x -> forall y, y ∈ l -> P y -> R y x.
Proof.
  intros Hl. induction Hl as [|a l Hl IH Ha]; [done|]. rewrite filter_cons. intros Hx y Hy HP.
  assert (Hmem : x ∈ l \/ filter P l = []).
  { destruct (filter P l) as [|b l'] eqn:E; [by right|]. left.
    assert (last (b :: l') = Some x) as Hb by (by destruct (decide (P a))).
    apply last_Some_elem_of in Hb. rewrite <- E in Hb. by apply list_elem_of_filter in Hb as [_ ?]. }
  apply elem_of_cons in Hy as [->|Hy].
  - rewrite decide_True in Hx by done. destruct Hmem as [Hm|E].
    + rewrite Forall_forall in Ha. by apply Ha.
    + rewrite E in Hx. injection Hx as <-. done.
  - apply IH; [|done|done]. assert (Hin : y ∈ filter P l) by (by apply list_elem_of_filter).
    destruct (filter P l) as [|b l'] eqn:E; [by apply elem_of_nil in Hin|].
    by destruct (decide (P a)).
Qed.

Lemma last_filter_split {A} (P : A -> Prop) `{!forall x, Decision (P x)} l x :
  last (filter P l) = Some x -> exists l1 l2, l = l1 ++ x :: l2 /\ P x /\ forall y, y ∈ l2 -> ~ P y.
Proof.
  induction l as [|a l IH] using rev_ind; [done|]. rewrite filter_app, filter_cons, filter_nil. case_decide as Ha.
  - rewrite last_snoc. intros [= <-]. exists l, []. split_and!; [done..|]. by intros y ?%elem_of_nil.
  - rewrite app_nil_r. intros (l1 & l2 & -> & Hx & Hl2)%IH. exists l1, (l2 ++ [a]). rewrite <- app_assoc. split_and!; [done..|].
    by intros y [?| ->%list_elem_of_singleton]%elem_of_app; [apply Hl2|].
Qed.

(** A path covers those whose key extends its own. *)
Definition covers (m : ResolvedMount) (q : PathKey) : Prop := from_path (mount_path m) `prefix_of` q.
#[global] Instance covers_dec m q : Decision (covers m q).
Proof. unfold covers. apply _. Defined.

(** The rule that a backend applying the plan in order ends up with at [q]. *)
Definition last_covering (plan : list ResolvedMount) (q : PathKey) : option ResolvedMount :=
  last (filter (fun m => covers m q) plan).

Lemma tagged_rank rw ro dn i j a b :
  tagged rw ro dn !! i = Some a -> tagged rw ro dn !! j = Some b -> i <= j -> rank a.2 <= rank b.2.
Proof.
  unfold tagged. intros Ha Hb Hij.
  apply lookup_app_Some in Ha as [Ha|[Hi Ha]];
    [|apply lookup_app_Some in Ha as [Ha|[Hi' Ha]]]; apply list_lookup_fmap_Some in Ha as (x & -> & Hx); cbn; try lia.
  - apply lookup_app_Some in Hb as [Hb|[Hj Hb]].
    + apply list_lookup_fmap_Some in Hb as (y & _ & Hy). apply lookup_lt_Some in Hy. rewrite length_fmap in *. lia.
    + apply lookup_app_Some in Hb as [Hb|[Hj' Hb]]; apply list_lookup_fmap_Some in Hb as (y & -> & Hy); cbn; lia.
  - apply lookup_app_Some in Hb as [Hb|[Hj Hb]].
    + apply list_lookup_fmap_Some in Hb as (y & _ & Hy). apply lookup_lt_Some in Hy. rewrite length_fmap in *. lia.
    + apply lookup_app_Some in Hb as [Hb|[Hj' Hb]]; apply list_lookup_fmap_Some in Hb as (y & -> & Hy); cbn; [|lia].
      apply lookup_lt_Some in Hy. rewrite !length_fmap in *. lia.
Qed.

Lemma elem_of_candidates c rw ro dn :
  c ∈ candidates rw ro dn <->
  tagged rw ro dn !! sequence c = Some (candidate_path c, candidate_intent c) /\
  candidate_key c = from_path (candidate_path c).
Proof.
  unfold candidates. rewrite list_elem_of_lookup. split.
  - intros (i & Hi). rewrite list_lookup_imap in Hi. destruct (tagged rw ro dn !! i) as [[p t]|] eqn:E; [|done].
    cbn in Hi. injection Hi as <-. done.
  - intros [Ht Hk]. exists (sequence c). rewrite list_lookup_imap, Ht. cbn. destruct c. cbn in *. by subst.
Qed.

Lemma plan_elem_of m rw ro dn :
  m ∈ resolve_path_plan rw ro dn <-> (mount_path m, mount_intent m) ∈ tagged rw ro dn.
Proof.
  unfold resolve_path_plan. rewrite list_elem_of_fmap. split.
  - intros (c & -> & Hc). rewrite merge_sort_Permutation in Hc. apply elem_of_candidates in Hc as [Hc _]. cbn.
    by eapply list_elem_of_lookup_2.
  - intros Hm. apply list_elem_of_lookup in Hm as [i Hi].
    exists (MkCandidate (mount_path m) (from_path (mount_path m)) (mount_intent m) i). split; [by destruct m|].
    rewrite merge_sort_Permutation. by apply elem_of_candidates.
Qed.

Lemma last_fmap_filter {A B} (f : A -> B) (P : B -> Prop) `{!forall x, Decision (P x)} l :
  last (filter P (f <$> l)) = f <$> last (filter (fun x => P (f x)) l).
Proof. rewrite <- fmap_last. f_equal. induction l as [|a l IH]; [done|]. rewrite fmap_cons, !filter_cons. case_decide; [|done]. rewrite fmap_cons. by f_equal. Qed.

(** Prefixes of one list have the order of their lengths. *)
Lemma prefix_same_length {A} (a b l : list A) : a `prefix_of` l -> b `prefix_of` l -> length a = length b -> a = b.
Proof. intros [k ->] [k' Hk] Hl. by apply app_inj_1 in Hk as [? _]. Qed.

(** [m] wins at [q]: it covers it, and each other path that does is shallower, or
    the same path under an intent that is no stricter. *)
Definition most_specific (l : list (string * FsIntent)) (q : PathKey) (m : ResolvedMount) : Prop :=
  (mount_path m, mount_intent m) ∈ l /\ covers m q /\
  forall path intent, (path, intent) ∈ l -> from_path path `prefix_of` q ->
    depth (from_path path) < depth (from_path (mount_path m)) \/
    from_path path = from_path (mount_path m) /\ rank intent <= rank (mount_intent m).

Lemma last_covering_spec rw ro dn q :
  match last_covering (resolve_path_plan rw ro dn) q with
  | Some m => most_specific (tagged rw ro dn) q m
  | None => forall path intent, (path, intent) ∈ tagged rw ro dn -> ~ from_path path `prefix_of` q
  end.
Proof.
  destruct (last_covering (resolve_path_plan rw ro dn) q) as [m|] eqn:Hm; unfold last_covering in Hm.
  - assert (Hin : m ∈ filter (fun m => covers m q) (resolve_path_plan rw ro dn)) by (by apply last_Some_elem_of).
    apply list_elem_of_filter in Hin as [Hc Hin]. split_and!; [by apply plan_elem_of|done|].
    unfold resolve_path_plan in Hm. rewrite last_fmap_filter in Hm.
    destruct (last (filter _ (merge_sort _ _))) as [c|] eqn:Hl; [|done]. injection Hm as <-. cbn in *.
    apply last_Some_elem_of in Hl as Hcin. apply list_elem_of_filter in Hcin as [_ Hcin].
    rewrite merge_sort_Permutation in Hcin. apply elem_of_candidates in Hcin as [Hct Hck].
    intros path intent [i Hi]%list_elem_of_lookup Hp.
    assert (Hy : MkCandidate path (from_path path) intent i ∈ merge_sort candidate_le (candidates rw ro dn))
      by (rewrite merge_sort_Permutation; by apply elem_of_candidates).
    assert (Hrefl : Reflexive candidate_le) by (intros ?; right; lia).
    pose proof (sorted_last_filter candidate_le (fun c => covers (MkMount (candidate_path c) (candidate_intent c)) q)
      _ _ (StronglySorted_merge_sort _ _) Hl _ Hy Hp) as [Hlt|[Heq Hseq]]; cbn in *; rewrite Hck in *; [by left|right].
    split; [by eapply prefix_same_length|]. exact (tagged_rank _ _ _ _ _ _ _ Hi Hct Hseq).
  - intros path intent Ht Hp. apply last_None in Hm.
    assert (Hin : MkMount path intent ∈ filter (fun m => covers m q) (resolve_path_plan rw ro dn)).
    { apply list_elem_of_filter. split; [done|by apply plan_elem_of]. }
    rewrite Hm in Hin. by apply elem_of_nil in Hin.
Qed.

(** ** Keys of plain paths *)

(** Names with neither kind of slash, and not [.] or [..]. *)
Definition plain (names : list string) : Prop :=
  Forall (fun s => UnixPath.clean_name s = true /\ lacks "\" s = true) names.

Lemma plain_clean names : plain names -> Forall (fun s => UnixPath.clean_name s = true) names.
Proof. intros Hn. eapply Forall_impl; [exact Hn|]. by intros s []. Qed.

Lemma split_by_cons p s c t :
  string_all (fun c => negb (p c)) s = true -> p c = true -> split_by p (s +:+ String c t) = s :: split_by p t.
Proof.
  intros Hs Hc. induction s as [|x s IH]; autorewrite with text; cbn in *; [by rewrite Hc|]. apply andb_true_iff in Hs as [Hx Hs].
  rewrite negb_true_iff in Hx. by rewrite Hx, (IH Hs).
Qed.

Lemma split_by_single p s : string_all (fun c => negb (p c)) s = true -> split_by p s = [s].
Proof.
  induction s as [|x s IH]; [done|]. cbn. intros [Hx Hs]%andb_true_iff. rewrite negb_true_iff in Hx. by rewrite Hx, (IH Hs).
Qed.

Lemma from_path_absolute names : plain names -> from_path (UnixPath.absolute names) = names.
Proof.
  intros Hn. unfold from_path, UnixPath.absolute. set (p := fun c => is_slash c || _).
  change ("/" +:+ string_join "/" names) with ("" +:+ String "/" (string_join "/" names)).
  rewrite split_by_cons by done. rewrite filter_cons_False by (intros H; by apply H).
  induction Hn as [|s names [Hs Hb] Hn IH]; [done|].
  assert (Hall : string_all (fun c => negb (p c)) s = true).
  { destruct (UnixPath.clean_name_spec s Hs) as (_ & _ & Hl). unfold p. revert Hl Hb. clear. unfold lacks.
    induction s as [|c s IH]; [done|]. cbn. rewrite !andb_true_iff. intros [H1 H2] [H3 H4]. split; [|by apply IH].
    unfold is_slash. by rewrite negb_orb, H1, H3. }
  assert (Hne : s <> "") by (by destruct (UnixPath.clean_name_spec s Hs)).
  destruct names as [|s' names]; [cbn [string_join]; by rewrite split_by_single, filter_cons_True|].
  change (string_join "/" (s :: s' :: names)) with (s +:+ String "/" (string_join "/" (s' :: names))).
  rewrite split_by_cons, filter_cons_True by done. by rewrite IH.
Qed.

(** ** Names of one object get one intent *)

Lemma rank_inj a b : rank a = rank b -> a = b.
Proof. by destruct a, b. Qed.

Lemma max_intent_l a b : rank a <= rank (max_intent a b).
Proof. by destruct a, b; cbn; lia. Qed.
Lemma max_intent_r a b : rank b <= rank (max_intent a b).
Proof. by destruct a, b; cbn; lia. Qed.
Lemma max_intent_or a b : max_intent a b = a \/ max_intent a b = b.
Proof. destruct a, b; cbn; auto. Qed.

Lemma strictest_ge l a : a ∈ l -> rank a <= rank (foldr max_intent ReadWrite l).
Proof.
  induction l as [|b l IH]; [by intros ?%elem_of_nil|]. cbn. intros [->|Ha]%elem_of_cons; [apply max_intent_l|].
  etrans; [by apply IH|apply max_intent_r].
Qed.

Lemma strictest_in l : l <> [] -> foldr max_intent ReadWrite l ∈ l.
Proof.
  induction l as [|b l IH]; [done|]. intros _. destruct l as [|c l]; [destruct b; left|].
  change (foldr max_intent ReadWrite (b :: c :: l)) with (max_intent b (foldr max_intent ReadWrite (c :: l))).
  destruct (max_intent_or b (foldr max_intent ReadWrite (c :: l))) as [->| ->]; [left|right].
  by apply IH.
Qed.

Section Groups.
Context (resolve : string -> result string PathResolution).

(** The entries that name an object. *)
Definition names_object (entries : list (string * FsIntent)) (id : ObjectId) (i : nat) : Prop :=
  exists path intent, entries !! i = Some (path, intent) /\ resolve path = Ok (Object id).

Record grouped (has_denied : bool) (entries : list (string * FsIntent)) (groups : gmap ObjectId (list nat)) : Prop :=
  MkGrouped {
    grouped_members id i : i ∈ default [] (groups !! id) <-> names_object entries id i;
    grouped_nodup id members : groups !! id = Some members -> NoDup members;
    grouped_examined path intent : has_denied = true -> (path, intent) ∈ entries ->
      resolve path = Ok Absent \/ exists id, resolve path = Ok (Object id);
  }.

Lemma enumerate_snoc {A} (l : list A) a : enumerate (l ++ [a]) = enumerate l ++ [(length l, a)].
Proof. unfold enumerate. rewrite imap_app. cbn. by rewrite Nat.add_0_r. Qed.

Lemma names_object_snoc entries e id i :
  names_object (entries ++ [e]) id i <->
  names_object entries id i \/ i = length entries /\ resolve e.1 = Ok (Object id).
Proof.
  unfold names_object. split.
  - intros (path & intent & He & Hr). apply lookup_app_Some in He as [He|[Hl He]]; [left; eauto|right].
    apply list_lookup_singleton_Some in He as [Hi ->]. split; [lia|done].
  - intros [(path & intent & He & Hr)|[-> Hr]].
    + exists path, intent. split; [by apply lookup_app_l_Some|done].
    + destruct e as [path intent]. exists path, intent. split; [by rewrite list_lookup_middle|done].
Qed.

Lemma names_object_lt entries id i : names_object entries id i -> i < length entries.
Proof. intros (? & ? & ?%lookup_lt_Some & _). done. Qed.

(** An entry that names no object leaves the groups as they are. *)
Lemma grouped_skip hd entries e groups :
  grouped hd entries groups -> (forall id, resolve e.1 <> Ok (Object id)) ->
  (hd = true -> resolve e.1 = Ok Absent) -> grouped hd (entries ++ [e]) groups.
Proof.
  intros [Hm Hn He] Hno Habs. constructor; [|done|].
  - intros id i. rewrite Hm, names_object_snoc. split; [by left|]. intros [|[_ ?]]; [done|by apply Hno in H].
  - intros path intent Hhd [Hin|Hin%list_elem_of_singleton]%elem_of_app; [by eapply He|].
    subst e. left. by apply Habs.
Qed.

Lemma grouped_object hd entries e groups id :
  grouped hd entries groups -> resolve e.1 = Ok (Object id) ->
  grouped hd (entries ++ [e]) (<[id := default [] (groups !! id) ++ [length entries]]> groups).
Proof.
  intros [Hm Hn He] Hr. constructor.
  - intros id' i. rewrite names_object_snoc. destruct (decide (id' = id)) as [->|Hne].
    + rewrite lookup_insert_eq. cbn. rewrite elem_of_app, Hm, list_elem_of_singleton. naive_solver.
    + rewrite lookup_insert_ne by done. rewrite Hm. split; [by left|]. intros [|[_ Hr']]; [done|congruence].
  - intros id' members. destruct (decide (id' = id)) as [->|Hne].
    + rewrite lookup_insert_eq. intros [= <-]. apply NoDup_app. split_and!.
      * destruct (groups !! id) as [ms|] eqn:E; [by eapply Hn|constructor].
      * intros i Hi Hi'%list_elem_of_singleton. apply Hm, names_object_lt in Hi. lia.
      * apply NoDup_singleton.
    + rewrite lookup_insert_ne by done. apply Hn.
  - intros path intent Hhd [Hin|Hin%list_elem_of_singleton]%elem_of_app; [by eapply He|].
    subst e. right. by exists id.
Qed.

Lemma grouped_all hd entries groups :
  foldM (group_entry resolve hd) (enumerate entries) ∅ = Ok groups -> grouped hd entries groups.
Proof.
  revert groups. induction entries as [|e entries IH] using rev_ind; intros groups.
  - intros [= <-]. constructor; [|by intros ?; rewrite lookup_empty|by intros ? ? _ ?%elem_of_nil].
    intros id i. rewrite lookup_empty. split; [by intros ?%elem_of_nil|by intros (? & ? & ? & _)].
  - rewrite enumerate_snoc, foldM_app. destruct (foldM _ (enumerate entries) ∅) as [gs|]; [|done].
    specialize (IH gs eq_refl). destruct e as [path intent]. cbn.
    destruct (resolve path) as [[id| | |]|] eqn:Hr; cbn; try done.
    + intros [= <-]. by apply grouped_object.
    + intros [= <-]. apply grouped_skip; [done|intros id; cbn; congruence|done].
    + destruct hd; [done|]. intros [= <-]. apply grouped_skip; [done|intros id; cbn; congruence|done].
    + destruct hd; [done|]. intros [= <-]. apply grouped_skip; [done|intros id; cbn; congruence|done].
Qed.

End Groups.

(** The strictest intent of a group. *)
Definition target (entries : list (string * FsIntent)) (members : list nat) : FsIntent :=
  foldr max_intent ReadWrite (intent_at entries <$> members).

Lemma target_ge entries members i : i ∈ members -> rank (intent_at entries i) <= rank (target entries members).
Proof. intros Hi. apply strictest_ge, list_elem_of_fmap. eauto. Qed.

Lemma raise_members entries t members (final : list FsIntent) changed :
  NoDup members -> (forall i, i ∈ members -> final !! i = Some (intent_at entries i)) ->
  (forall i, i ∈ members -> rank (intent_at entries i) <= rank t) ->
  let st := foldl (raise_intent entries t) (final, changed) members in
  (forall i, st.1 !! i = if decide (i ∈ members) then Some t else final !! i) /\
  (st.2 = true <-> changed = true \/ exists i, i ∈ members /\ intent_at entries i <> t).
Proof.
  revert final changed. induction members as [|m members IH]; intros final changed Hn Hf Ht; cbn.
  - split; [done|]. split; [by left|]. by intros [|(i & ?%elem_of_nil & _)].
  - apply NoDup_cons in Hn as [Hm Hn]. set (st := raise_intent entries t (final, changed) m).
    assert (Hst : (forall i, st.1 !! i = if decide (i = m) then Some t else final !! i) /\
                  (st.2 = true <-> changed = true \/ intent_at entries m <> t)).
    { unfold st, raise_intent. destruct (Nat.ltb_spec (rank (intent_at entries m)) (rank t)) as [Hlt|Hge]; cbn.
      - split; [|split; [right; intros E; rewrite E in Hlt; lia|done]]. intros i. case_decide as Hi.
        + subst i. apply list_lookup_insert_eq. eapply lookup_lt_Some, Hf. left.
        + by rewrite list_lookup_insert_ne.
      - assert (intent_at entries m = t) as E by (apply rank_inj; specialize (Ht m ltac:(left)); lia).
        split; [|naive_solver]. intros i. case_decide; [|done]. subst i. rewrite <- E. apply Hf. left. }
    destruct st as [final' changed']. cbn in Hst. destruct Hst as [Hst1 Hst2].
    destruct (IH final' changed' Hn) as [IH1 IH2].
    + intros i Hi. rewrite Hst1, decide_False by (intros ->; done). apply Hf. by right.
    + intros i Hi. apply Ht. by right.
    + split.
      * intros i. rewrite IH1, Hst1. destruct (decide (i ∈ members)), (decide (i = m)), (decide (i ∈ m :: members));
          try done; set_solver.
      * rewrite IH2, Hst2. set_solver.
Qed.

Lemma tighten_spec entries members (final : list FsIntent) changed :
  NoDup members -> (forall i, i ∈ members -> final !! i = Some (intent_at entries i)) ->
  let st := tighten entries members (final, changed) in
  (forall i, st.1 !! i = if decide (i ∈ members) then Some (target entries members) else final !! i) /\
  (st.2 = true <-> changed = true \/ exists i, i ∈ members /\ intent_at entries i <> target entries members).
Proof.
  intros Hn Hf. unfold tighten. change (foldr _ _ _) with (target entries members).
  assert (Hsame : (forall i, i ∈ members -> intent_at entries i = target entries members) ->
    (forall i, final !! i = if decide (i ∈ members) then Some (target entries members) else final !! i) /\
    (changed = true <-> changed = true \/ exists i, i ∈ members /\ intent_at entries i <> target entries members)).
  { intros Hall. split; [|naive_solver]. intros i. case_decide; [|done]. by rewrite Hf, Hall. }
  destruct (Nat.ltb_spec (length members) 2) as [Hl|Hl].
  - apply Hsame. destruct members as [|m [|m' members]]; [set_solver| |cbn in Hl; lia].
    intros i ->%list_elem_of_singleton. unfold target. cbn. by destruct (intent_at entries m).
  - destruct (forallb _ members) eqn:Hall.
    + apply Hsame. rewrite forallb_forall in Hall. intros i Hi. apply list_elem_of_In, Hall, bool_decide_eq_true in Hi. done.
    + apply raise_members; [done|done|]. intros i Hi. by apply target_ge.
Qed.

Lemma tighten_length entries members st : length (tighten entries members st).1 = length st.1.
Proof.
  unfold tighten. repeat case_match; try done. generalize (foldr max_intent ReadWrite (intent_at entries <$> members)).
  intros t. clear. revert st. induction members as [|i members IH]; intros st; cbn; [done|]. rewrite IH.
  unfold raise_intent. case_match; [cbn; apply length_insert|done].
Qed.

(** All groups: they are disjoint, so their order does not matter. *)
Lemma tighten_all entries vs :
  Forall NoDup vs -> Forall (fun members => forall j, j ∈ members -> j < length entries) vs ->
  (forall n m a b i, vs !! n = Some a -> vs !! m = Some b -> i ∈ a -> i ∈ b -> n = m) ->
  let st := foldr (tighten entries) (snd <$> entries, false) vs in
  (forall i, (forall members, members ∈ vs -> i ∉ members) -> st.1 !! i = snd <$> entries !! i) /\
  (forall i members, members ∈ vs -> i ∈ members -> st.1 !! i = Some (target entries members)) /\
  (st.2 = true <-> exists members i, members ∈ vs /\ i ∈ members /\ intent_at entries i <> target entries members).
Proof.
  induction vs as [|v vs IH]; intros Hn Hlt Hd; cbn.
  - split_and!; [intros i _; apply list_lookup_fmap|by intros ? ? ?%elem_of_nil|].
    split; [done|]. by intros (? & ? & ?%elem_of_nil & _).
  - apply Forall_cons in Hn as [Hv Hn]. destruct IH as (IH1 & IH2 & IH3); [done| | |].
    { by apply Forall_cons in Hlt as [_ ?]. }
    { intros n m a b i Ha Hb Hia Hib. pose proof (Hd (S n) (S m) a b i Ha Hb Hia Hib). congruence. }
    destruct (foldr (tighten entries) _ vs) as [final changed]. cbn in IH1, IH2, IH3.
    assert (Hout : forall i members, i ∈ v -> members ∈ vs -> i ∉ members).
    { intros i members Hi [m Hm]%list_elem_of_lookup Hi'. by pose proof (Hd 0 (S m) v members i eq_refl Hm Hi Hi'). }
    destruct (tighten_spec entries v final changed Hv) as [H1 H2].
    { intros i Hi. rewrite IH1 by (intros members ? ?; by eapply Hout). unfold intent_at.
      apply Forall_cons in Hlt as [Hl _]. destruct (lookup_lt_is_Some_2 entries i) as [e ->]; [by apply Hl|done]. }
    split_and!.
    + intros i Hi. rewrite H1, decide_False by (apply Hi; left). apply IH1. intros members Hm. apply Hi. by right.
    + intros i members [->|Hm]%elem_of_cons Hi; rewrite H1; [by rewrite decide_True|].
      rewrite decide_False by (intros Hv'; by eapply Hout). by apply IH2.
    + rewrite H2, IH3. set_solver.
Qed.

Lemma rebuild_elem entries final intent path :
  length final = length entries ->
  path ∈ rebuild entries final intent <-> exists i, fst <$> entries !! i = Some path /\ final !! i = Some intent.
Proof.
  intros Hl. unfold rebuild.
  assert (Hgen : forall l acc, path ∈ foldl (fun acc '(path, i) => if decide (i = intent /\ (path ∉ acc)) then acc ++ [path] else acc) acc l
    <-> path ∈ acc \/ (path, intent) ∈ l).
  { induction l as [|[q i] l IH]; intros acc; cbn; [set_solver|]. rewrite IH. case_decide; [set_solver|].
    rewrite elem_of_cons. destruct (decide (i = intent)) as [->|]; [|naive_solver].
    destruct (decide (q ∈ acc)); [|naive_solver]. naive_solver. }
  rewrite Hgen, elem_of_nil, list_elem_of_lookup. split.
  - intros [[]|(i & Hi)]. apply lookup_zip_with_Some in Hi as (q & t & [= <- <-] & H1 & H2).
    rewrite list_lookup_fmap in H1. by exists i.
  - intros (i & H1 & H2). right. exists i. apply lookup_zip_with_Some. exists path, intent.
    by rewrite list_lookup_fmap.
Qed.

Definition listed (p : ContainerPolicy) (path : string) (intent : FsIntent) : Prop :=
  (path, intent) ∈ tagged (readwrite_paths p) (readonly_paths p) (denied_paths p).

Lemma elem_of_tagged path t rw ro dn :
  (path, t) ∈ tagged rw ro dn <-> path ∈ match t with ReadWrite => rw | ReadOnly => ro | Denied => dn end.
Proof.
  unfold tagged. rewrite !elem_of_app, !list_elem_of_fmap. split.
  - intros [(x & [= -> ->] & ?)|[(x & [= -> ->] & ?)|(x & [= -> ->] & ?)]]; done.
  - destruct t; naive_solver.
Qed.

Lemma listed_rebuild p entries final path t :
  length final = length entries ->
  listed (set_paths p (rebuild entries final ReadWrite) (rebuild entries final ReadOnly) (rebuild entries final Denied)) path t
  <-> exists i, fst <$> entries !! i = Some path /\ final !! i = Some t.
Proof. intros Hl. unfold listed. rewrite elem_of_tagged. destruct t; cbn; by rewrite rebuild_elem. Qed.

Section Tightened.
Context (resolve : string -> result string PathResolution).

Lemma groups_disjoint hd entries groups n m a b i :
  grouped resolve hd entries groups ->
  (snd <$> map_to_list groups) !! n = Some a -> (snd <$> map_to_list groups) !! m = Some b -> i ∈ a -> i ∈ b -> n = m.
Proof.
  intros Hg Ha Hb Hia Hib. rewrite list_lookup_fmap in Ha, Hb.
  destruct (map_to_list groups !! n) as [[id x]|] eqn:Hn; [|done]. injection Ha as <-.
  destruct (map_to_list groups !! m) as [[id' x']|] eqn:Hm; [|done]. injection Hb as <-. cbn in *.
  assert (Hx : groups !! id = Some x) by (apply elem_of_map_to_list; by eapply list_elem_of_lookup_2).
  assert (Hx' : groups !! id' = Some x') by (apply elem_of_map_to_list; by eapply list_elem_of_lookup_2).
  assert (names_object resolve entries id i) as (p & t & He & Hr) by (apply (grouped_members _ _ _ _ Hg); by rewrite Hx).
  assert (names_object resolve entries id' i) as (p' & t' & He' & Hr') by (apply (grouped_members _ _ _ _ Hg); by rewrite Hx').
  assert (id = id') as <- by congruence.
  eapply (NoDup_lookup ((map_to_list groups).*1)); [apply NoDup_fst_map_to_list|..];
    rewrite list_lookup_fmap; [by rewrite Hn|by rewrite Hm].
Qed.

(** What the loop over the groups computes, whatever their order. *)
Lemma tightened hd entries groups final changed :
  grouped resolve hd entries groups ->
  foldr (tighten entries) (snd <$> entries, false) (snd <$> map_to_list groups) = (final, changed) ->
  length final = length entries /\
  (forall i path t, entries !! i = Some (path, t) -> (forall id, resolve path <> Ok (Object id)) -> final !! i = Some t) /\
  (forall i path t id, entries !! i = Some (path, t) -> resolve path = Ok (Object id) ->
     exists members, groups !! id = Some members /\ final !! i = Some (target entries members)) /\
  (changed = false -> final = entries.*2).
Proof.
  intros Hg Hst. assert (Hvs : forall v, v ∈ (snd <$> map_to_list groups) <-> exists id, groups !! id = Some v).
  { intros v. rewrite list_elem_of_fmap. split.
    - intros ([id x] & -> & ?%elem_of_map_to_list). eauto.
    - intros (id & ?). exists (id, v). split; [done|]. by apply elem_of_map_to_list. }
  destruct (tighten_all entries (snd <$> map_to_list groups)) as (H1 & H2 & H3).
  { apply Forall_forall. intros v (id & Hid)%Hvs. by eapply grouped_nodup. }
  { apply Forall_forall. intros v (id & Hid)%Hvs i Hi. eapply names_object_lt, (grouped_members _ _ _ _ Hg).
    by rewrite Hid. }
  { intros n m a b i. by eapply groups_disjoint. }
  rewrite Hst in H1, H2, H3. cbn in H1, H2, H3.
  assert (Hplain : forall i path t, entries !! i = Some (path, t) -> (forall id, resolve path <> Ok (Object id)) -> final !! i = Some t).
  { intros i path t He Hno. rewrite H1, He; [done|]. intros members (id & Hid)%Hvs Hi.
    assert (names_object resolve entries id i) as (p & t' & He' & Hr) by (apply (grouped_members _ _ _ _ Hg); by rewrite Hid).
    apply (Hno id). congruence. }
  assert (Hobj : forall i path t id, entries !! i = Some (path, t) -> resolve path = Ok (Object id) ->
     exists members, groups !! id = Some members /\ i ∈ members /\ final !! i = Some (target entries members)).
  { intros i path t id He Hr. assert (i ∈ default [] (groups !! id)) as Hi by (apply (grouped_members _ _ _ _ Hg); by exists path, t).
    destruct (groups !! id) as [members|] eqn:Hid; [|by apply elem_of_nil in Hi]. exists members. split_and!; [done..|].
    apply H2; [apply Hvs; eauto|done]. }
  split_and!; [|done|naive_solver|].
  - assert (Hlen : length (final, changed).1 = length entries); [|done]. rewrite <- Hst.
    clear. induction (snd <$> map_to_list groups) as [|v vs IH]; cbn; [by rewrite length_fmap|].
    by rewrite tighten_length.
  - intros Hc. apply list_eq. intros i. rewrite list_lookup_fmap. destruct (entries !! i) as [[path t]|] eqn:He.
    + destruct (resolve path) as [[id| | |]|] eqn:Hr; try (rewrite (Hplain i path t He) by congruence; done).
      destruct (Hobj i path t id He Hr) as (members & Hid & Hi & ->). cbn. f_equal.
      destruct (decide (t = target entries members)) as [|Hne]; [done|]. exfalso.
      assert (changed = true); [|congruence]. apply H3. exists members, i. split_and!; [apply Hvs; eauto|done|].
      unfold intent_at. rewrite He. done.
    + rewrite H1; [by rewrite He|]. intros members (id & Hid)%Hvs Hi.
      assert (names_object resolve entries id i) as Hl%names_object_lt by (apply (grouped_members _ _ _ _ Hg); by rewrite Hid).
      apply lookup_ge_None in He. lia.
Qed.

End Tightened.

(** ** The theorems *)

(** Most specific path wins: of the plan of a policy, the last rule that
    covers a path is that of its deepest ancestor among all three lists, and of
    the strictest list when several name that ancestor; a path no rule of the
    plan covers is below none of the policy's paths; and the plan has exactly the
    policy's paths. *)
Theorem plan_most_specific rw ro dn :
  (forall q, match last_covering (resolve_path_plan rw ro dn) q with
   | Some m => most_specific (tagged rw ro dn) q m
   | None => forall path intent, (path, intent) ∈ tagged rw ro dn -> ~ from_path path `prefix_of` q
   end) /\
  ((fun m => (mount_path m, mount_intent m)) <$> resolve_path_plan rw ro dn) ≡ₚ tagged rw ro dn.
Proof.
  split; [intros q; apply last_covering_spec|]. unfold resolve_path_plan, candidates.
  rewrite merge_sort_Permutation, <- list_fmap_compose. cbn. rewrite fmap_imap. cbn.
  rewrite (imap_ext _ (const id)); [|by intros i []]. by rewrite imap_const, list_fmap_id.
Qed.

Section ObjectTheorem.
Context (resolve : string -> result string PathResolution).

Lemma listed_set_paths p rw ro dn path t : listed (set_paths p rw ro dn) path t <-> (path, t) ∈ tagged rw ro dn.
Proof. done. Qed.

Lemma intent_at_lookup entries i path t : entries !! i = Some (path, t) -> intent_at entries i = t.
Proof. unfold intent_at. by intros ->. Qed.

Lemma normalized_fields p r :
  normalize_object_conflicts_with resolve p = Ok r ->
  default p r = set_paths p (readwrite_paths (default p r)) (readonly_paths (default p r)) (denied_paths (default p r)).
Proof.
  unfold normalize_object_conflicts_with. case_match; [intros [= <-]; by destruct p|].
  destruct (foldM _ _ ∅); cbn; [|done]. case_match. case_match; intros [= <-]; [done|by destruct p].
Qed.

Lemma singleton_same {A} (l : list A) a b : length l <= 1 -> a ∈ l -> b ∈ l -> a = b.
Proof.
  intros Hl [i Hi]%list_elem_of_lookup [j Hj]%list_elem_of_lookup.
  pose proof (lookup_lt_Some _ _ _ Hi). pose proof (lookup_lt_Some _ _ _ Hj). assert (i = j) as -> by lia. congruence.
Qed.

(** The intents after normalisation, entry by entry. *)
Lemma normalized_final p r :
  normalize_object_conflicts_with resolve p = Ok r ->
  let entries := tagged (readwrite_paths p) (readonly_paths p) (denied_paths p) in
  exists final : list FsIntent,
    (forall path t, listed (default p r) path t <-> exists i, fst <$> entries !! i = Some path /\ final !! i = Some t) /\
    (forall i path t, entries !! i = Some (path, t) -> exists t', final !! i = Some t' /\ rank t <= rank t') /\
    (forall i j path1 u1 path2 u2 id, entries !! i = Some (path1, u1) -> entries !! j = Some (path2, u2) ->
       resolve path1 = Ok (Object id) -> resolve path2 = Ok (Object id) -> final !! i = final !! j) /\
    (denied_paths p <> [] -> forall path1 t1 path2 t2, listed p path1 t1 -> listed p path2 t2 -> (path1, t1) <> (path2, t2) ->
       resolve path1 = Ok Absent \/ exists id, resolve path1 = Ok (Object id)) /\
    (forall i path t, entries !! i = Some (path, t) -> (forall id, resolve path <> Ok (Object id)) -> final !! i = Some t).
Proof.
  intros Hp entries. unfold normalize_object_conflicts_with in Hp.
  change (tagged _ _ _) with entries in Hp.
  assert (Hdecl : forall path t, listed p path t <-> exists i, fst <$> entries !! i = Some path /\ entries.*2 !! i = Some t).
  { intros path t. unfold listed. fold entries. rewrite list_elem_of_lookup. apply exist_proper. intros i.
    rewrite list_lookup_fmap. destruct (entries !! i) as [[]|]; cbn; naive_solver. }
  destruct (Nat.leb_spec (length entries) 1) as [Hl|_].
  - injection Hp as <-. exists (entries.*2). split_and!; [exact Hdecl|..].
    + intros i path t Hi. exists t. by rewrite list_lookup_fmap, Hi.
    + intros i j path1 u1 path2 u2 id Hi Hj _ _. rewrite !list_lookup_fmap, Hi, Hj.
      rewrite (singleton_same entries (path1, u1) (path2, u2)); [done|done|by eapply list_elem_of_lookup_2..].
    + intros _ path1 t1 path2 t2 H1 H2 Hne. by destruct Hne; eapply singleton_same.
    + intros i path t Hi _. by rewrite list_lookup_fmap, Hi.
  - destruct (foldM _ (enumerate entries) ∅) as [groups|] eqn:Hg; [|done]. apply grouped_all in Hg. cbn in Hp.
    destruct (foldr (tighten entries) _ _) as [final changed] eqn:Hst.
    destruct (tightened _ _ _ _ _ _ Hg Hst) as (Hlen & Hplain & Hobj & Hsame). exists final. split_and!.
    + intros path t. destruct changed; injection Hp as <-; cbn [default from_option id]; [by apply listed_rebuild|].
      rewrite (Hsame eq_refl). apply Hdecl.
    + intros i path t He. destruct (resolve path) as [[id| | |]|] eqn:Hr; try (exists t; split; [eapply Hplain; [done|congruence]|done]).
      destruct (Hobj i path t id He Hr) as (members & Hid & Hf). exists (target entries members). split; [done|].
      rewrite <- (intent_at_lookup _ _ _ _ He). apply target_ge.
      assert (i ∈ default [] (groups !! id)) by (apply (grouped_members _ _ _ _ Hg); by exists path, t). by rewrite Hid in *.
    + intros i j path1 u1 path2 u2 id He1 He2 Hr1 Hr2.
      destruct (Hobj _ _ _ _ He1 Hr1) as (m1 & Hm1 & ->). destruct (Hobj _ _ _ _ He2 Hr2) as (m2 & Hm2 & ->). congruence.
    + intros Hd path1 t1 path2 t2 Hin _ _. eapply (grouped_examined _ _ _ _ Hg); [|done]. by destruct (denied_paths p).
    + exact Hplain.
Qed.

Lemma normalized_same (p' : ContainerPolicy) (entries : list (string * FsIntent)) (final : list FsIntent) :
  (forall path t, listed p' path t <-> exists i, fst <$> entries !! i = Some path /\ final !! i = Some t) ->
  (forall i j path1 u1 path2 u2 id, entries !! i = Some (path1, u1) -> entries !! j = Some (path2, u2) ->
     resolve path1 = Ok (Object id) -> resolve path2 = Ok (Object id) -> final !! i = final !! j) ->
  forall path1 t1 path2 t2 id, listed p' path1 t1 -> listed p' path2 t2 ->
    resolve path1 = Ok (Object id) -> resolve path2 = Ok (Object id) -> t1 = t2.
Proof.
  intros Hl Hobj path1 t1 path2 t2 id (i & Hi & Hf)%Hl (j & Hj & Hf')%Hl Hr1 Hr2.
  destruct (entries !! i) as [[q1 u1]|] eqn:He1; [|done]. injection Hi as ->.
  destruct (entries !! j) as [[q2 u2]|] eqn:He2; [|done]. injection Hj as ->.
  pose proof (Hobj _ _ _ _ _ _ _ He1 He2 Hr1 Hr2). congruence.
Qed.

(** Aliases cannot loosen a policy: when the policy's paths have been
    examined, every path keeps its place in a list at least as strict as before,
    no path is added, and paths that name the same object of the host end up in
    the same list, the strictest of them; with denied paths present every path
    was found to be an object or absent, otherwise the request is refused.
    Nothing but the three lists changes. *)
Theorem object_aliases_tightened p r :
  normalize_object_conflicts_with resolve p = Ok r ->
  let p' := default p r in
  (forall path t', listed p' path t' -> exists t, listed p path t /\ rank t <= rank t') /\
  (forall path t, listed p path t -> exists t', listed p' path t' /\ rank t <= rank t') /\
  (forall path1 t1 path2 t2 id, listed p' path1 t1 -> listed p' path2 t2 ->
     resolve path1 = Ok (Object id) -> resolve path2 = Ok (Object id) -> t1 = t2) /\
  (denied_paths p <> [] -> forall path1 t1 path2 t2, listed p path1 t1 -> listed p path2 t2 -> (path1, t1) <> (path2, t2) ->
     resolve path1 = Ok Absent \/ exists id, resolve path1 = Ok (Object id)) /\
  p' = set_paths p (readwrite_paths p') (readonly_paths p') (denied_paths p').
Proof.
  intros Hp p'. destruct (normalized_final p r Hp) as (final & Hl & Hup & Hobj & Hex & _).
  split_and!; [| |exact (normalized_same _ _ _ Hl Hobj)|exact Hex|by apply normalized_fields].
  - intros path t' (i & Hi & Hf)%Hl. destruct (tagged _ _ _ !! i) as [[q t]|] eqn:He; [|done]. injection Hi as ->.
    destruct (Hup i path t He) as (t'' & Hf' & Hr). exists t. split; [by eapply list_elem_of_lookup_2|congruence].
  - intros path t [i Hi]%list_elem_of_lookup. destruct (Hup i path t Hi) as (t' & Hf & Hr). exists t'. split; [|done].
    apply Hl. exists i. by rewrite Hi.
Qed.

(** A path that is in one list only stays in one list only. *)
Lemma normalized_one_list p r :
  normalize_object_conflicts_with resolve p = Ok r ->
  (forall path t1 t2, listed p path t1 -> listed p path t2 -> t1 = t2) ->
  forall path t1 t2, listed (default p r) path t1 -> listed (default p r) path t2 -> t1 = t2.
Proof.
  intros Hp Hone path t1 t2. destruct (normalized_final p r Hp) as (final & Hl & _ & Hobj & _ & Hplain).
  intros (i & Hi & Hf)%Hl (j & Hj & Hf')%Hl. set (entries := tagged _ _ _) in *.
  destruct (entries !! i) as [[q1 u1]|] eqn:He1; [|done]. injection Hi as ->.
  destruct (entries !! j) as [[q2 u2]|] eqn:He2; [|done]. injection Hj as ->.
  assert (u1 = u2) as <- by (eapply Hone; by eapply list_elem_of_lookup_2).
  destruct (resolve path) as [[id| | |]|] eqn:Hr.
  1: pose proof (Hobj _ _ _ _ _ _ _ He1 He2 Hr Hr); congruence.
  all: rewrite (Hplain _ _ _ He1), (Hplain _ _ _ He2) in * by congruence; congruence.
Qed.

(** A path is in the lists as before, or in a stricter one. *)
Lemma normalized_from p r :
  normalize_object_conflicts_with resolve p = Ok r ->
  forall path t', listed (default p r) path t' -> exists t, listed p path t /\ rank t <= rank t'.
Proof.
  intros Hp path t'. destruct (normalized_final p r Hp) as (final & Hl & Hup & _).
  intros (i & Hi & Hf)%Hl. destruct (tagged _ _ _ !! i) as [[q t]|] eqn:He; [|done]. injection Hi as ->.
  exists t. split; [by eapply list_elem_of_lookup_2|]. destruct (Hup i path t He) as (t1 & Ht1 & Hr). congruence.
Qed.

Lemma normalized_paths p r :
  normalize_object_conflicts_with resolve p = Ok r ->
  forall path t', listed (default p r) path t' -> exists t, listed p path t.
Proof. intros Hp path t' Ht'. destruct (normalized_from p r Hp path t' Ht') as (t & Ht & _). by exists t. Qed.

End ObjectTheorem.

(** The form the backends read a policy in: a path has one intent, and a path
    that may only be enumerated has none of the three. *)
Definition one_intent (p : ContainerPolicy) : Prop :=
  (forall path t1 t2, listed p path t1 -> listed p path t2 -> t1 = t2) /\
  (forall path t, listed p path t -> path ∉ enumerate_paths p).

Lemma listed_strictest p path t :
  listed (retain_strictest p) path t <->
  listed p path t /\ (forall t', listed p path t' -> rank t' <= rank t) /\ (t = Denied \/ path ∉ enumerate_paths p).
Proof.
  unfold listed. rewrite !elem_of_tagged. setoid_rewrite elem_of_tagged.
  destruct t; cbn; rewrite ?list_elem_of_filter.
  - split; [|intros (H1 & H2 & [[=]|H3]); split_and!; [| |..|done]; try done; intros Hin].
    + intros ((H1 & H2 & H3) & H4). split_and!; [done| |by right]. intros []; cbn; done || lia.
    + apply (H2 Denied) in Hin. cbn in Hin. lia.
    + apply (H2 ReadOnly) in Hin. cbn in Hin. lia.
  - split; [|intros (H1 & H2 & [[=]|H3]); split_and!; try done; intros Hin].
    + intros ((H1 & H2) & H4). split_and!; [done| |by right]. intros []; cbn; done || lia.
    + apply (H2 Denied) in Hin. cbn in Hin. lia.
  - split; [|by intros (? & _)]. intros H. split_and!; [done| |by left]. intros []; cbn; lia.
Qed.

(** A denied object is denied by every name: once aliases are tightened, the
    plan of the resulting policy ends in a denial at each path of the policy that
    names the object of a denied path, whatever list the path was in. *)
Theorem denied_object_never_granted (resolve : string -> result string PathResolution) p r d path t id :
  normalize_object_conflicts_with resolve p = Ok r ->
  listed p d Denied -> resolve d = Ok (Object id) -> listed p path t -> resolve path = Ok (Object id) ->
  mount_intent <$> last_covering (resolve_mount_order (default p r)) (from_path path) = Some Denied.
Proof.
  intros Hp Hd Hdr Hpath Hpr. destruct (normalized_final resolve p r Hp) as (final & Hl & Hup & Hobj & _).
  assert (Hden : forall q, (exists u, listed p q u) -> resolve q = Ok (Object id) -> listed (default p r) q Denied).
  { intros q (u & [i Hi]%list_elem_of_lookup) Hq. apply list_elem_of_lookup in Hd as [j Hj].
    destruct (Hup j d Denied Hj) as (t' & Hf & Hr). apply Hl. exists i. rewrite Hi. split; [done|].
    rewrite (Hobj _ _ _ _ _ _ _ Hi Hj Hq Hdr), Hf. destruct t'; cbn in Hr; [lia..|done]. }
  specialize (Hden path (ex_intro _ t Hpath) Hpr). unfold resolve_mount_order.
  pose proof (last_covering_spec (readwrite_paths (default p r)) (readonly_paths (default p r)) (denied_paths (default p r)) (from_path path)) as Hlast.
  destruct (last_covering _ _) as [m|]; cbn; [|by apply (Hlast path Denied) in Hden].
  destruct Hlast as (_ & Hc & Hall). destruct (Hall path Denied Hden ltac:(done)) as [Hlt|[_ Hr]].
  - destruct Hc as [k Hk]. apply (f_equal length) in Hk. rewrite length_app in Hk. unfold depth in Hlt. lia.
  - destruct (mount_intent m); cbn in Hr; [lia..|done].
Qed.

Lemma empty_policy_lists p :
  is_empty (readwrite_paths p) && is_empty (readonly_paths p) && is_empty (enumerate_paths p)
    && is_empty (denied_paths p) = true ->
  retain_strictest p = p.
Proof.
  destruct p as [? ? rw ro en dn]. cbn. destruct rw, ro, en, dn; cbn; try done.
Qed.

Lemma normalized_policy path_missing p p1 :
  normalize_filesystem_paths_with path_missing p = Ok p1 -> p1 = retain_strictest p.
Proof.
  unfold normalize_filesystem_paths_with. destruct (_ && _) eqn:E; [|destruct (foldM _ _ tt)]; cbn.
  - intros [= <-]. symmetry. by apply empty_policy_lists.
  - by intros [= <-].
  - done.
Qed.

Lemma retain_strictest_one_intent p : one_intent (retain_strictest p).
Proof.
  split.
  - intros path t1 t2 (H1 & H1' & _)%listed_strictest (H2 & H2' & _)%listed_strictest.
    apply H1' in H2. apply H2' in H1. apply rank_inj. lia.
  - intros path t (Hl & _ & H)%listed_strictest. cbn. rewrite list_elem_of_filter. intros [Hd He].
    destruct H as [->|]; [|done]. apply Hd. by apply (elem_of_tagged path Denied) in Hl.
Qed.

(** A parsed policy is well formed and stays so: normalisation leaves each
    path of the request in exactly one list, the strictest of those that named
    it, whatever the probe of the host says; and tightening the aliases keeps
    the policy in that form on every host. *)
Theorem parsed_policy_well_formed (path_missing : string -> result string bool) p p1 :
  normalize_filesystem_paths_with path_missing p = Ok p1 ->
  one_intent p1 /\
  (forall path t, listed p1 path t <->
     listed p path t /\ (forall t', listed p path t' -> rank t' <= rank t) /\ (t = Denied \/ path ∉ enumerate_paths p)) /\
  (forall path, path ∈ enumerate_paths p1 <-> path ∈ enumerate_paths p /\ ~ listed p path Denied) /\
  (forall resolve r, normalize_object_conflicts_with resolve p1 = Ok r -> one_intent (default p1 r)).
Proof.
  intros ->%normalized_policy. pose proof (retain_strictest_one_intent p) as Hone.
  split_and!; [done|apply listed_strictest| |].
  - intros path. unfold listed. rewrite elem_of_tagged. cbn. rewrite list_elem_of_filter. naive_solver.
  - intros resolve r Hr. split; [by eapply normalized_one_list, Hone|].
    intros path t (u & Hu)%(normalized_paths _ _ _ Hr). rewrite (normalized_fields _ _ _ Hr). by eapply Hone.
Qed.

(** A host where [/data/link] is another name of [/data/secret]. *)
Definition linked_host (path : string) : result string PathResolution :=
  Ok (if bool_decide (path = "/data") then Object (1, 1)
      else if bool_decide (path = "/data/link") || bool_decide (path = "/data/secret") then Object (1, 2)
      else Absent)%Z.

Definition aliased_policy : ContainerPolicy :=
  set_paths ContainerPolicy_default ["/data"; "/data/link"] [] ["/data/secret"].

Lemma object_aliases_tightened_witness :
  exists r, normalize_object_conflicts_with linked_host aliased_policy = Ok r /\
    denied_paths (default aliased_policy r) = ["/data/link"; "/data/secret"] /\
    (forall path t', listed (default aliased_policy r) path t' -> exists t, listed aliased_policy path t /\ rank t <= rank t').
Proof.
  destruct (normalize_object_conflicts_with linked_host aliased_policy) as [r|] eqn:E; [|by vm_compute in E].
  exists r. split_and!; [done|vm_compute in E; by injection E as <-|].
  apply (object_aliases_tightened linked_host aliased_policy r E).
Defined.

Lemma denied_object_never_granted_witness :
  exists r, normalize_object_conflicts_with linked_host aliased_policy = Ok r /\
    mount_intent <$> last_covering (resolve_mount_order (default aliased_policy r)) (from_path "/data/link") = Some Denied.
Proof.
  destruct (normalize_object_conflicts_with linked_host aliased_policy) as [r|] eqn:E; [|by vm_compute in E].
  exists r. split; [done|].
  apply (denied_object_never_granted linked_host aliased_policy r "/data/secret" "/data/link" ReadWrite (1, 2)%Z E);
    first [done | apply elem_of_tagged; cbn; set_solver].
Defined.

(** A request that names a path in all four lists. *)
Definition repeated_policy : ContainerPolicy :=
  MkPolicy false [] ["/data"; "/data/link"; "/tmp"] ["/data"; "/tmp"] ["/data"; "/srv"] ["/data/link"]
    (network_egress ContainerPolicy_default) (network_ingress ContainerPolicy_default)
    (allowed_proxy_peer ContainerPolicy_default) (network_proxy ContainerPolicy_default) false false false
    (ui ContainerPolicy_default) false (base_process_ui ContainerPolicy_default) (capture_denials ContainerPolicy_default).

Lemma parsed_policy_well_formed_witness :
  exists p1, normalize_filesystem_paths_with (fun _ => Ok false) repeated_policy = Ok p1 /\
    readwrite_paths p1 = [] /\ readonly_paths p1 = ["/tmp"] /\ one_intent p1.
Proof.
  destruct (normalize_filesystem_paths_with (fun _ => Ok false) repeated_policy) as [p1|] eqn:E; [|by vm_compute in E].
  exists p1. split_and!; [done|vm_compute in E; by injection E as <-..|].
  apply (parsed_policy_well_formed (fun _ => Ok false) repeated_policy p1 E).
Defined.

End FsPolicy.
