(* ===== verification/DefaultEnv.v ===== *)
(** * The environment of a process

    [core/mxc_common/default_env.rs]: which entries a child gets, from what the
    caller supplied and the backend's default block. *)

From Stdlib Require Import Ascii.
From stdpp Require Import gmap.
From S2P Require Import Prelude Models Requests.

#[local] Open Scope nat_scope.

Module DefaultEnv.

Inductive EnvResolution : Type := DefaultBlock | Replace | Overlay.

(** [EnvResolution::of]. *)
Definition EnvResolution_of (r : ExecutionRequest) : EnvResolution :=
  match env r, inherit_default_env r with
  | None, _ => DefaultBlock
  | Some _, false => Replace
  | Some _, true => Overlay
  end.

Definition env_pairs (entries : list string) : list (string * string) := omap (split_once "="%char) entries.

(** The entries with the position of each name in them. *)
Definition overlay_entry (st : list (string * string) * gmap string nat) (kv : string * string)
    : list (string * string) * gmap string nat :=
  let '(entries, index) := st in
  match index !! kv.1 with
  | Some at_ => (alter (fun e => (e.1, kv.2)) at_ entries, index)
  | None => (entries ++ [kv], <[kv.1 := length entries]> index)
  end.

Definition overlay (entries : list (string * string)) (supplied : list string) : list (string * string) :=
  let index := foldl (fun m '(i, e) => <[e.1 := i]> m) (∅ : gmap string nat) (enumerate entries) in
  fst (foldl overlay_entry (entries, index) (env_pairs supplied)).

Definition resolve_env (r : ExecutionRequest) (defaults : list (string * string)) : list string :=
  let supplied := env_entries r in
  let render := fmap (fun '(key, value) => key +:+ "=" +:+ value) in
  match EnvResolution_of r with
  | Replace => supplied
  | DefaultBlock => render defaults
  | Overlay => render (overlay defaults supplied)
  end.

(** ** The overlay *)

(** The last value given to a name. *)
Definition last_value (key : string) (l : list (string * string)) : option string :=
  snd <$> last (filter (fun e => e.1 = key) l).

Lemma last_value_snoc key l kv :
  last_value key (l ++ [kv]) = if decide (kv.1 = key) then Some kv.2 else last_value key l.
Proof.
  unfold last_value. rewrite filter_app, filter_cons, filter_nil. case_decide; [by rewrite last_snoc|].
  by rewrite app_nil_r.
Qed.

(** The index holds the position of every name, once. *)
Record indexed (entries : list (string * string)) (index : gmap string nat) : Prop := MkIndexed {
  indexed_nodup : NoDup entries.*1;
  indexed_lookup key i : index !! key = Some i <-> entries.*1 !! i = Some key;
}.

Lemma indexed_None entries index key : indexed entries index -> index !! key = None -> key ∉ entries.*1.
Proof. intros Hi Hk [i Hl]%list_elem_of_lookup. apply (indexed_lookup _ _ Hi) in Hl. congruence. Qed.

Lemma lookup_snoc_Some {A} (l : list A) a i b :
  (l ++ [a]) !! i = Some b <-> l !! i = Some b \/ i = length l /\ b = a.
Proof.
  rewrite lookup_app_Some, list_lookup_singleton_Some. split; [|intros [?|[-> ->]]; [by left|right; split; [lia|by rewrite Nat.sub_diag]]].
  intros [?|(? & ? & ->)]; [by left|right]. split; [lia|done].
Qed.

Lemma indexed_snoc entries index kv :
  indexed entries index -> index !! kv.1 = None -> indexed (entries ++ [kv]) (<[kv.1 := length entries]> index).
Proof.
  intros Hi Hk. pose proof (indexed_None _ _ _ Hi Hk) as Hn. constructor.
  - rewrite fmap_app. apply NoDup_app. split_and!; [apply Hi| |apply NoDup_singleton].
    intros x Hx ->%list_elem_of_singleton. done.
  - intros key i. rewrite fmap_app. change ([kv].*1) with [kv.1]. rewrite lookup_snoc_Some, length_fmap. destruct (decide (key = kv.1)) as [->|Hne].
    + rewrite lookup_insert_eq. split; [intros [= <-]; by right|]. intros [Hl|[-> _]]; [|done].
      destruct Hn. by eapply list_elem_of_lookup_2.
    + rewrite lookup_insert_ne by done. rewrite (indexed_lookup _ _ Hi). split; [by left|]. by intros [|[_ ?]].
Qed.

Lemma indexed_initial entries :
  NoDup entries.*1 -> indexed entries (foldl (fun m '(i, e) => <[e.1 := i]> m) (∅ : gmap string nat) (enumerate entries)).
Proof.
  induction entries as [|e entries IH] using rev_ind; intros Hn.
  - constructor; [constructor|]. intros key i. change ((∅ : gmap string nat) !! key = Some i <-> ([] : list string) !! i = Some key). by rewrite lookup_empty, lookup_nil.
  - rewrite fmap_app in Hn. apply NoDup_app in Hn as (Hn & Hd & _).
    unfold enumerate in *. rewrite imap_app, foldl_app. cbn. rewrite Nat.add_0_r. specialize (IH Hn).
    apply indexed_snoc; [done|]. destruct (_ !! e.1) as [i|] eqn:E; [|done].
    apply (indexed_lookup _ _ IH) in E. destruct (Hd e.1); [by eapply list_elem_of_lookup_2|left].
Qed.

(** Names in the order they are first seen. *)
Definition add_name (names : list string) (name : string) : list string :=
  if decide (name ∈ names) then names else names ++ [name].

(** The step on an existing name, and on a new one. *)
Lemma overlay_entry_spec entries index kv :
  indexed entries index ->
  let st := overlay_entry (entries, index) kv in
  indexed st.1 st.2 /\ st.1.*1 = add_name entries.*1 kv.1 /\
  forall key, last_value key st.1 = if decide (kv.1 = key) then Some kv.2 else last_value key entries.
Proof.
  intros Hi. unfold overlay_entry, add_name. destruct (index !! kv.1) as [i|] eqn:E; cbn.
  - pose proof E as Hl. apply (indexed_lookup _ _ Hi) in Hl.
    assert (Hn : (alter (fun e => (e.1, kv.2)) i entries).*1 = entries.*1).
    { apply list_eq. intros j. rewrite !list_lookup_fmap. destruct (decide (i = j)) as [->|Hne].
      - rewrite list_lookup_alter_eq. by destruct (entries !! j).
      - by rewrite list_lookup_alter_ne. }
    split_and!.
    + constructor; rewrite Hn; apply Hi.
    + rewrite Hn, decide_True; [done|by eapply list_elem_of_lookup_2].
    + intros key. rewrite list_lookup_fmap in Hl. destruct (entries !! i) as [e|] eqn:He; [|done]. injection Hl as Hl.
      apply list_elem_of_split_length in He as (l1 & l2 & -> & ->). rewrite alter_app_r_alt, Nat.sub_diag by lia. cbn [alter list_alter].
      pose proof (indexed_nodup _ _ Hi) as Hnd. rewrite fmap_app, fmap_cons in Hnd. apply NoDup_app in Hnd as (_ & Hd & Hnd).
      apply NoDup_cons in Hnd as [Hd2 _]. unfold last_value. rewrite !filter_app, !filter_cons. cbn. rewrite Hl.
      case_decide as Hkey; [|done]. subst key.
      assert (Hnil : filter (fun x => x.1 = kv.1) l2 = []); [|by rewrite Hnil, !last_snoc].
      destruct (filter _ l2) as [|x l] eqn:Hx; [done|]. assert (Hin : x ∈ x :: l) by left. rewrite <- Hx in Hin.
      apply list_elem_of_filter in Hin as [Hk Hin]. destruct Hd2. apply list_elem_of_fmap. exists x. split; [congruence|done].
  - split_and!; [by apply indexed_snoc| |].
    + rewrite fmap_app, decide_False; [done|]. by eapply indexed_None.
    + intros key. apply last_value_snoc.
Qed.

Lemma overlay_fold l entries index :
  indexed entries index ->
  let st := foldl overlay_entry (entries, index) l in
  indexed st.1 st.2 /\ st.1.*1 = foldl add_name entries.*1 l.*1 /\
  forall key, last_value key st.1 = last_value key (entries ++ l).
Proof.
  revert entries index. induction l as [|kv l IH] using rev_ind; intros entries index Hi; cbn [foldl fst snd]; [by rewrite app_nil_r|].
  rewrite foldl_app. destruct (IH entries index Hi) as (H1 & H2 & H3).
  destruct (foldl overlay_entry (entries, index) l) as [es ix]. cbn [foldl fst snd] in *.
  destruct (overlay_entry_spec es ix kv H1) as (K1 & K2 & K3). split_and!; [done| |].
  - etrans; [exact K2|]. by rewrite H2, fmap_app, foldl_app.
  - intros key. etrans; [exact (K3 key)|]. by rewrite H3, app_assoc, last_value_snoc.
Qed.

(** The environment a child gets under an overlay sets every name once, to
    the last value the caller supplied or else to the backend's default; the
    default names keep their order and come first, then the caller's in the order
    they first appear. *)
Theorem overlay_sets_each_name_once defaults supplied :
  NoDup defaults.*1 ->
  let entries := overlay defaults supplied in
  NoDup entries.*1 /\ entries.*1 = foldl add_name defaults.*1 (env_pairs supplied).*1 /\
  forall key, last_value key entries =
    match last_value key (env_pairs supplied) with Some v => Some v | None => last_value key defaults end.
Proof.
  intros Hn entries. destruct (overlay_fold (env_pairs supplied) defaults _ (indexed_initial _ Hn)) as (H1 & H2 & H3).
  split_and!; [apply H1|done|]. intros key. etrans; [apply H3|]. unfold last_value. rewrite filter_app, last_app.
  by destruct (last (filter _ (env_pairs supplied))).
Qed.

Lemma overlay_sets_each_name_once_witness :
  overlay [("PATH", "/bin"); ("TERM", "xterm")] ["PATH=/opt"; "A=1"; "PATH=/usr"; "A=2"; "junk"]
    = [("PATH", "/usr"); ("TERM", "xterm"); ("A", "2")] /\
  NoDup (overlay [("PATH", "/bin"); ("TERM", "xterm")] ["PATH=/opt"; "A=1"; "PATH=/usr"; "A=2"; "junk"]).*1.
Proof.
  split; [by vm_compute|].
  apply (overlay_sets_each_name_once [("PATH", "/bin"); ("TERM", "xterm")] ["PATH=/opt"; "A=1"; "PATH=/usr"; "A=2"; "junk"]).
  apply (bool_decide_unpack _). by vm_compute.
Defined.

End DefaultEnv.
