(* ===== verification/MountView.v ===== *)
(** * A file system made of mounts

    What a process sees at a path of a sandbox whose mounts are applied in order:
    the last mount at the path or above it.  The paths of a policy that are
    written without redundancy, and the mount among a policy's that decides. *)

From Stdlib Require Import Ascii.
From stdpp Require Import gmap.
From S2P Require Import Prelude Models UnixPath FsPolicy.

Module MountView.
Export FsPolicy.

Inductive Content : Type :=
| HostTree (source : string) (writable : bool)
| Private (writable : bool)
| Virtual
| Link (text : string)
| FileData.

Definition read_only (c : Content) : Content :=
  match c with HostTree s _ => HostTree s false | Private _ => Private false | c => c end.

(** ** The file system *)

(** The mount a path is seen through: components of a mount's destination are
    compared with those of the path. *)
Definition covers_path (q : list UnixPath.Component) (m : string * Content) : Prop := UnixPath.components m.1 `prefix_of` q.
#[global] Instance covers_path_dec q m : Decision (covers_path q m).
Proof. unfold covers_path. apply _. Defined.

Definition top (l : list (string * Content)) (q : list UnixPath.Component) : option (string * Content) :=
  last (filter (covers_path q) l).

Inductive Access : Type :=
| Host (path : list UnixPath.Component) (writable : bool)
| Sandboxed (writable : bool)
| Leads (text : string).

Definition access (mounts : list (string * Content)) (q : list UnixPath.Component) : Access :=
  match top mounts q with
  | None => Sandboxed true
  | Some (d, HostTree source w) =>
      Host (UnixPath.components source ++ drop (length (UnixPath.components d)) q) w
  | Some (_, Private w) => Sandboxed w
  | Some (_, (Virtual | FileData)) => Sandboxed false
  | Some (_, Link text) => Leads text
  end.

Lemma top_app l1 l2 q : top (l1 ++ l2) q = match top l2 q with Some m => Some m | None => top l1 q end.
Proof. unfold top. rewrite filter_app, last_app. done. Qed.

Lemma top_None l q : top l q = None <-> forall m, m ∈ l -> ~ covers_path q m.
Proof.
  unfold top. rewrite last_None. split.
  - intros Hl m Hm Hc. assert (Hin : m ∈ filter (covers_path q) l) by (by apply list_elem_of_filter).
    rewrite Hl in Hin. by apply elem_of_nil in Hin.
  - intros Hno. destruct (filter _ l) as [|m k] eqn:E; [done|]. assert (Hin : m ∈ m :: k) by left.
    rewrite <- E in Hin. apply list_elem_of_filter in Hin as [Hc Hin]. by apply Hno in Hc.
Qed.

Lemma top_Some l q m : top l q = Some m -> m ∈ l /\ covers_path q m.
Proof. intros Hm%last_Some_elem_of. by apply list_elem_of_filter in Hm as [? ?]. Qed.

(** ** Paths written without redundancy *)

Definition plain_policy (p : ContainerPolicy) : Prop :=
  forall path intent, (path, intent) ∈ tagged (readwrite_paths p) (readonly_paths p) (denied_paths p) ->
    exists names, plain names /\ path = UnixPath.absolute names.

Definition path_of (names : list string) : list UnixPath.Component := UnixPath.RootDir :: (UnixPath.Normal <$> names).

Lemma filter_ext_in {A} (P Q : A -> Prop) `{!forall x, Decision (P x)} `{!forall x, Decision (Q x)} (l : list A) :
  (forall x, x ∈ l -> P x <-> Q x) -> filter P l = filter Q l.
Proof.
  induction l as [|a l IH]; intros Hl; [done|]. rewrite !filter_cons, IH by (intros x Hx; apply Hl; by right).
  assert (Ha : P a <-> Q a) by (apply Hl; left). by repeat case_decide; tauto || (f_equal; tauto).
Qed.

Lemma path_of_prefix a b : path_of a `prefix_of` path_of b <-> a `prefix_of` b.
Proof.
  unfold path_of. split.
  - intros [k Hk]. injection Hk as Hk. apply fmap_app_inv in Hk as (l1 & l2 & H1 & H2 & ->).
    apply (inj (fmap UnixPath.Normal)) in H1 as ->. by apply prefix_app_r.
  - intros [k ->]. rewrite fmap_app. by exists (UnixPath.Normal <$> k).
Qed.

Lemma top_fmap {A} (path : A -> string) (content : A -> Content) (l : list A) q :
  top ((fun m => (path m, content m)) <$> l) q =
  (fun m => (path m, content m)) <$> last (filter (fun m => UnixPath.components (path m) `prefix_of` q) l).
Proof. unfold top. by rewrite last_fmap_filter. Qed.

Section Policy.
Context (p : ContainerPolicy) (q : list string).
Hypothesis p_plain : plain_policy p.

Lemma plain_path_prefix path intent :
  (path, intent) ∈ tagged (readwrite_paths p) (readonly_paths p) (denied_paths p) ->
  UnixPath.components path = path_of (from_path path) /\ path = UnixPath.absolute (from_path path).
Proof.
  intros (names & Hn & ->)%p_plain. rewrite from_path_absolute by done. split; [|done].
  rewrite UnixPath.components_absolute by (by apply plain_clean). done.
Qed.

(** Components and keys agree on which paths cover another. *)
Lemma last_covering_components :
  last (filter (fun m => UnixPath.components (mount_path m) `prefix_of` path_of q) (resolve_mount_order p)) =
  last_covering (resolve_mount_order p) q.
Proof.
  unfold last_covering. f_equal. apply filter_ext_in.
  intros m Hm%plan_elem_of. destruct (plain_path_prefix _ _ Hm) as [-> _]. apply path_of_prefix.
Qed.

(** What is most specific at a path is one mount. *)
Lemma most_specific_covering m :
  most_specific (tagged (readwrite_paths p) (readonly_paths p) (denied_paths p)) q m ->
  last_covering (resolve_mount_order p) q = Some m.
Proof.
  intros (Hin & Hcov & Hmax). unfold resolve_mount_order.
  pose proof (last_covering_spec (readwrite_paths p) (readonly_paths p) (denied_paths p) q) as Hspec.
  destruct (last_covering _ q) as [m'|]; [|by destruct (Hspec _ _ Hin)]. destruct Hspec as (Hin' & Hcov' & Hmax').
  assert (Hsame : from_path (mount_path m') = from_path (mount_path m) /\ mount_intent m' = mount_intent m).
  { destruct (Hmax _ _ Hin' Hcov') as [H1|[H1 H2]], (Hmax' _ _ Hin Hcov) as [K1|[K1 K2]];
      [lia|rewrite K1 in H1; lia|rewrite H1 in K1; lia|]. split; [done|]. apply rank_inj. lia. }
  destruct Hsame as [Hk Hi]. destruct (plain_path_prefix _ _ Hin) as [_ E1], (plain_path_prefix _ _ Hin') as [_ E2].
  rewrite Hk in E2. destruct m, m'. cbn in *. congruence.
Qed.

End Policy.

End MountView.
