(* ===== verification/BwrapCommand.v ===== *)
(** * The Bubblewrap command line

    [backends/bubblewrap/common/bwrap_command.rs]: the argument vector a request
    is run with.  Mounts come in the order they take effect, the policy's after
    the baseline's, links into aliased grants after the mounts that could hide
    them and before the masks they may sit in become read-only.  What the host
    says about a baseline path is an argument. *)

From Stdlib Require Import Ascii.
From stdpp Require Import gmap.
From S2P Require Import Prelude NetText Models Requests ProxyEnv UnixPath FsPolicy DefaultEnv.

Module BwrapCommand.
Export FsPolicy.

(** ** Policy mounts and the baseline *)

Definition COMMAND_TAIL : list string := ["--"; "sh"; "-c"].

Record PolicyMount : Type := MkPolicyMount {
  source : string;
  destination : string;
  intent : FsIntent;
}.

Definition policy_mounts (p : ContainerPolicy) : list PolicyMount :=
  (fun m => MkPolicyMount (mount_path m) (mount_path m) (mount_intent m)) <$> resolve_mount_order p.

Definition BASELINE_RO_BIND_PATHS : list string :=
  ["/bin"; "/sbin"; "/lib"; "/lib32"; "/lib64"; "/libx32"; "/usr/bin"; "/usr/sbin"; "/usr/lib"; "/usr/lib32";
   "/usr/lib64"; "/usr/libx32"; "/usr/libexec"; "/usr/share"; "/etc"].

Record BaselineLink : Type := MkBaselineLink {
  link_path : string;
  relative_target : string;
}.

(** How many components two paths share at the front. *)
Fixpoint shared (a b : list UnixPath.Component) : nat :=
  match a, b with
  | x :: a, y :: b => if decide (x = y) then S (shared a b) else 0
  | _, _ => 0
  end.

(** [from] and [to] as components; they have a root if they start with it. *)
Definition relative_path (from to : list UnixPath.Component) : option string :=
  match from, to with
  | UnixPath.RootDir :: _, UnixPath.RootDir :: _ =>
      let n := shared from to in
      let parts := replicate (length from - n) ".." ++ (UnixPath.Component_as_str <$> drop n to) in
      let path := string_join "/" parts in
      if bool_decide (path = "") then None else Some path
  | _, _ => None
  end.

Definition refused (reason : string) : string :=
  reason +:+ ". Refusing to start: mounting it apart from its target would let it bypass filesystem.deniedPaths.".

Definition baseline_links (host_link_target : string -> result string (option string))
    : result string (list BaselineLink) :=
  targets ← mapM (fun path =>
      map_err (fun error => refused ("could not resolve the host's " +:+ path +:+ " (" +:+ error +:+ ")"))
        (host_link_target path)) BASELINE_RO_BIND_PATHS;
  let entries := zip BASELINE_RO_BIND_PATHS targets in
  let inside_bound_entry target :=
    existsb (fun '(entry, link) => bool_decide (link = None) && UnixPath.starts_with target entry) entries in
  foldM (fun '(path, target) links =>
    match target with
    | Some target =>
        if inside_bound_entry target then
          relative ← ok_or (UnixPath.parent (UnixPath.components path) ≫= fun parent =>
                              relative_path parent (UnixPath.components target))
            (refused ("the host's " +:+ path +:+ " points to " +:+ target
                       +:+ ", which cannot be written as a relative link"));
          Ok (links ++ [MkBaselineLink path relative])
        else Ok links
    | None => Ok links
    end) entries [].

(** ** Links into aliased grants *)

Inductive GrantLink : Type :=
| MkGrantLink (path target : string) (passes_through : list GrantLink) (climbs_out_of : list string).

Definition grant_path (l : GrantLink) : string := match l with MkGrantLink path _ _ _ => path end.
Definition grant_target (l : GrantLink) : string := match l with MkGrantLink _ target _ _ => target end.

Record AliasedGrant : Type := MkAliased {
  real_path : string;
  links : list GrantLink;
  inner : option GrantLink;
  climbs_out_of : list string;
}.

Inductive SandboxEntry : Type :=
| HostBind
| Symlink (target : string)
| Closed
| Tmpfs
| Directory.

Record GrantLinkPlan : Type := MkPlan {
  plan_args : list string;
  unavailable : list GrantLink;
}.

Inductive LinkPlacement : Type :=
| Create
| Present
| HostLink
| CreateInside
| SandboxLink (target : string)
| Blocked.
#[global] Instance LinkPlacement_eq_dec : EqDecision LinkPlacement.
Proof. solve_decision. Defined.

(** The entry each mount argument leaves at its destination, or [None] for an
    option this does not know. *)
Fixpoint sandbox_layout (mount_args : list string) : option (list (string * SandboxEntry)) :=
  match mount_args with
  | [] => Some []
  | opt :: args =>
      if bool_decide (opt ∈ ["--unshare-user"; "--unshare-pid"; "--unshare-ipc"; "--unshare-uts"; "--unshare-net";
                             "--die-with-parent"]) then sandbox_layout args
      else if bool_decide (opt ∈ ["--dev"; "--proc"; "--remount-ro"]) then
        match args with path :: args => cons (path, Closed) <$> sandbox_layout args | _ => None end
      else if bool_decide (opt = "--tmpfs") then
        match args with path :: args => cons (path, Tmpfs) <$> sandbox_layout args | _ => None end
      else if bool_decide (opt = "--dir") then
        match args with path :: args => cons (path, Directory) <$> sandbox_layout args | _ => None end
      else if bool_decide (opt = "--symlink") then
        match args with
        | target :: path :: args => cons (path, Symlink target) <$> sandbox_layout args
        | _ => None
        end
      else if bool_decide (opt = "--file") then
        match args with _ :: path :: args => cons (path, Closed) <$> sandbox_layout args | _ => None end
      else if bool_decide (opt ∈ ["--bind"; "--ro-bind"; "--ro-bind-try"]) then
        match args with
        | source :: destination :: args =>
            cons (destination, if bool_decide (source = destination) then HostBind else Closed) <$> sandbox_layout args
        | _ => None
        end
      else None
  end.

(** One mount, for a link at a given location. *)
Definition place_step (link : string) (placement : LinkPlacement) (mount : string * SandboxEntry) : LinkPlacement :=
  let '(path, entry) := mount in
  if UnixPath.path_eq link path then
    match entry with
    | HostBind => Present
    | Symlink target => SandboxLink target
    | Tmpfs => CreateInside
    | Directory => if decide (placement = Create) then CreateInside else placement
    | Closed => Blocked
    end
  else if UnixPath.starts_with link path then
    match entry with
    | HostBind => HostLink
    | Tmpfs => Create
    | Directory => placement
    | Symlink _ | Closed => Blocked
    end
  else if UnixPath.starts_with path link && bool_decide (placement = Create) then CreateInside
  else placement.

(** The sandbox root is a tmpfs. *)
Definition link_placement (link : string) (layout : list (string * SandboxEntry)) : LinkPlacement :=
  foldl (place_step link) Create layout.

Definition link_text (link : GrantLink) : option string :=
  directory ← UnixPath.parent (UnixPath.components (grant_path link));
  let target := UnixPath.components (grant_target link) in
  if decide (directory = target) then Some "." else relative_path directory target.

(** One part of the loop of [sandbox_link_target]. *)
Definition fold_part (parts : list string) (part : string) : list string :=
  if bool_decide (part = "") || bool_decide (part = ".") then parts
  else if bool_decide (part = "..") then removelast parts
  else parts ++ [part].

Definition sandbox_link_target (location target : string) : string :=
  let parent := if starts_with is_slash target then ""
                else default "" (fst <$> rsplit_once "/"%char location) in
  "/" +:+ string_join "/" (foldl fold_part [] (string_split "/" parent ++ string_split "/" target)).

(** [str::strip_prefix] with a string. *)
Fixpoint strip_prefix (p s : string) : option string :=
  match p, s with
  | EmptyString, _ => Some s
  | String c p, String d s => if decide (c = d) then strip_prefix p s else None
  | String _ _, EmptyString => None
  end.

Definition inner_link_under (grant : AliasedGrant) (link : GrantLink) (directory : string) : option GrantLink :=
  inner ← inner grant;
  rest ← strip_prefix (grant_path link) (grant_path inner);
  name ← strip_prefix_char "/"%char rest;
  if bool_decide (name = "") || string_any is_slash name then None
  else Some (MkGrantLink (trim_end_matches is_slash directory +:+ "/" +:+ name) (grant_target inner) [] []).

(** What is known to be reachable, and the arguments emitted so far. *)
Record Links : Type := MkLinks {
  reachable : gmap string bool;
  emitted : list string;
}.

Definition know (path : string) (b : bool) (st : Links) : Links := MkLinks (<[path := b]> (reachable st)) (emitted st).
Definition emit_args (args : list string) (st : Links) : Links := MkLinks (reachable st) (emitted st ++ args).

Section Placement.
Context (place : string -> LinkPlacement).

Definition ensure_directory (directory : string) (st : Links) : bool * Links :=
  match reachable st !! directory with
  | Some exists_ => (exists_, st)
  | None =>
      let '(exists_, st) :=
        match place directory with
        | Present | HostLink | CreateInside => (true, st)
        | Create => (true, emit_args ["--dir"; directory] st)
        | SandboxLink _ | Blocked => (false, st)
        end in
      (exists_, know directory exists_ st)
  end.

(** [Iterator::all], threading the state. *)
Fixpoint all_directories (l : list string) (st : Links) : bool * Links :=
  match l with
  | [] => (true, st)
  | directory :: l =>
      let '(ok, st) := ensure_directory directory st in
      if ok then all_directories l st else (false, st)
  end.

Fixpoint make_reachable (link : GrantLink) (placement : LinkPlacement) (st : Links) : bool * Links :=
  match link with
  | MkGrantLink path target passes_through climbs_out_of =>
      let '(reaches, st) :=
        match placement with
        | Present => (true, st)
        | Create =>
            match link_text link with
            | Some text => (true, emit_args ["--symlink"; text; path] st)
            | None => (false, st)
            end
        | HostLink =>
            let '(ok, st) := all_directories climbs_out_of st in
            if ok then
              (fix all_hops (hops : list GrantLink) (st : Links) : bool * Links :=
                 match hops with
                 | [] => (true, st)
                 | hop :: hops =>
                     if UnixPath.starts_with target (grant_target hop) then
                       let '(reaches, st) :=
                         match reachable st !! grant_path hop with
                         | Some reaches => (reaches, st)
                         | None => make_reachable hop (place (grant_path hop)) st
                         end in
                       if reaches then all_hops hops st else (false, st)
                     else (false, st)
                 end) passes_through st
            else (false, st)
        | SandboxLink text => (bool_decide (sandbox_link_target path text = target), st)
        | CreateInside | Blocked => (false, st)
        end in
      (reaches, know path reaches st)
  end.

(** The link to make for one of a grant's links, and where it goes. *)
Definition choose_link (grant : AliasedGrant) (link : GrantLink) : GrantLink * LinkPlacement :=
  match place (grant_path link) with
  | CreateInside =>
      match inner_link_under grant link (grant_path link) with
      | Some next =>
          match place (grant_path next) with
          | (Create | Present | HostLink) as placement => (next, placement)
          | _ => (link, Blocked)
          end
      | None => (link, Blocked)
      end
  | SandboxLink target =>
      let leads_to := sandbox_link_target (grant_path link) target in
      if bool_decide (leads_to = grant_target link) then (link, Present)
      else match inner_link_under grant link leads_to with
           | Some next =>
               match place (grant_path next) with
               | Create => (next, Create)
               | _ => (link, Blocked)
               end
           | None => (link, Blocked)
           end
  | placement => (link, placement)
  end.

Definition plan_directory (real_path : string) (st : Links * list GrantLink) (directory : string) : Links * list GrantLink :=
  let '(ok, links) := ensure_directory directory st.1 in
  (links, if (ok : bool) then st.2 else st.2 ++ [MkGrantLink directory real_path [] []]).

Definition plan_link (grant : AliasedGrant) (st : Links * list GrantLink) (link : GrantLink) : Links * list GrantLink :=
  let '(link, placement) := choose_link grant link in
  match reachable st.1 !! grant_path link with
  | Some _ => st
  | None =>
      let '(ok, links) := make_reachable link placement st.1 in
      (links, if (ok : bool) then st.2 else st.2 ++ [link])
  end.

Definition plan_grant (st : Links * list GrantLink) (grant : AliasedGrant) : Links * list GrantLink :=
  foldl (plan_link grant) (foldl (plan_directory (real_path grant)) st (climbs_out_of grant)) (links grant).

End Placement.

Definition plan_grant_links (mount_args : list string) (grants : list AliasedGrant) : GrantLinkPlan :=
  let layout := sandbox_layout mount_args in
  let place path := match layout with Some layout => link_placement path layout | None => Blocked end in
  let '(st, unavailable) := foldl (plan_grant place) (MkLinks ∅ [], []) grants in
  MkPlan (emitted st) unavailable.

(** ** Lexical checks *)

Definition RESOLVER_DIRS : list string := ["/run/systemd/resolve"; "/run/NetworkManager"; "/run/resolvconf"].
Definition WSL_RESOLV_CONF : string := "/mnt/wsl/resolv.conf".
Definition COMPAT_RUN_LINK : string := "/var/run".
Definition COMPAT_RUN_TARGET : string := "/run".

Definition path_intent (p : ContainerPolicy) (target : string) : option FsIntent :=
  mount_intent <$> last (filter (fun m => UnixPath.starts_with target (mount_path m) = true) (resolve_mount_order p)).

Definition path_is_denied (p : ContainerPolicy) (target : string) : bool :=
  bool_decide (path_intent p target = Some Denied).

Definition paths_overlap (a b : string) : bool := UnixPath.starts_with a b || UnixPath.starts_with b a.

(** [split('/').any(|part| part == "." || part == "..")]. *)
Definition has_dots (path : string) : bool :=
  existsb (fun part => bool_decide (part = ".") || bool_decide (part = "..")) (string_split "/" path).

Definition resolver_target_without_matching_mount (p : ContainerPolicy) (target : string) : bool :=
  let policy_mounts := readwrite_paths p ++ readonly_paths p ++ denied_paths p in
  let mounts := BASELINE_RO_BIND_PATHS ++ RESOLVER_DIRS ++ [WSL_RESOLV_CONF]
                ++ ["/dev"; "/proc"; "/tmp"; "/var/run"] ++ policy_mounts in
  negb (bool_decide (target = "/") || negb (starts_with is_slash target) || has_dots target)
  && forallb (fun mount => negb (negb (starts_with is_slash mount) || has_dots mount || paths_overlap target mount)) mounts
  && negb (existsb (paths_overlap "/etc/resolv.conf") policy_mounts).

(** ** Network modes *)

Inductive ResolvedNetworkMode : Type := Isolated | FirewallEnforced | ProxyOnly.

Definition from_request (r : ExecutionRequest) (proxy_active : bool) : ResolvedNetworkMode :=
  if proxy_active then ProxyOnly
  else match network_egress (policy r) with
       | None => Isolated
       | Some e =>
           if bool_decide (egress_default e = Deny) && is_empty (allow e) && is_empty (deny e)
           then Isolated else FirewallEnforced
       end.

Definition uses_external_userns (m : ResolvedNetworkMode) : bool :=
  match m with ProxyOnly | FirewallEnforced => true | Isolated => false end.

Definition BWRAP_INGRESS_DEFAULT_ALLOW : string :=
  "Bubblewrap: network.ingress.default='allow' is not supported. The sandbox runs in a private network namespace reached through slirp, which has no route in until a host port is forwarded to it, and the schema carries no port list to forward. A listener inside the sandbox is reachable from the sandbox only. Use network.ingress.default='deny'.".

Definition BWRAP_HOST_LOOPBACK_ALLOW : string :=
  "Bubblewrap: network.ingress.hostLoopback='allow' is not supported. The sandbox's loopback belongs to its own network namespace and is not the host's, so the host cannot dial a sandbox listener and nothing bridges the two. Use network.ingress.hostLoopback='deny'.".

Definition directional_network_rejection (r : ExecutionRequest) : option string :=
  match network_egress (policy r), network_ingress (policy r) with
  | None, None => None
  | _, Some i =>
      if bool_decide (ingress_default i = Allow) then Some BWRAP_INGRESS_DEFAULT_ALLOW
      else if bool_decide (host_loopback i = Allow) then Some BWRAP_HOST_LOOPBACK_ALLOW
      else None
  | _, None => None
  end.

Definition BWRAP_PROXY_DIRECTIONAL_EGRESS : string :=
  "Bubblewrap: runtimeConfig.networkProxy cannot be combined with direct network.egress rules or default='allow'. A proxy resolves to proxy-only egress, whose chain opens the proxy endpoint alone and never reads network.egress, so the rules would be dropped in silence. Use network.egress.default='deny' with no allow/deny rules (the proxy-only posture), or remove runtimeConfig.networkProxy and express the policy with network.egress.".

Definition proxy_with_egress_rejection (r : ExecutionRequest) : option string :=
  if negb (is_enabled (network_proxy (policy r))) then None
  else match network_egress (policy r) with
       | Some e =>
           if negb (bool_decide (egress_default e = Deny)) || negb (is_empty (allow e)) || negb (is_empty (deny e))
           then Some BWRAP_PROXY_DIRECTIONAL_EGRESS else None
       | None => None
       end.

(** ** The environment and the working directory *)

Definition DEFAULT_PATH : string := "/usr/local/sbin:/usr/local/bin:/usr/sbin:/usr/bin:/sbin:/bin".
Definition DEFAULT_TERM : string := "xterm-256color".

Definition start_directory (r : ExecutionRequest) : option string :=
  if bool_decide (working_directory r = "") then None else Some (sandbox_absolute_path (working_directory r)).

Definition cwd_without_matching_mount (r : ExecutionRequest) : option string :=
  dir ← start_directory r;
  if bool_decide (dir = "/") || negb (starts_with is_slash (working_directory r)) || has_dots (working_directory r) then None
  else
    let mounts := BASELINE_RO_BIND_PATHS ++ ["/dev"; "/proc"; "/tmp"; "/var/run"]
                  ++ readwrite_paths (policy r) ++ readonly_paths (policy r) ++ denied_paths (policy r) in
    if existsb (fun mount => negb (starts_with is_slash mount) || has_dots mount
                             || UnixPath.starts_with dir mount || UnixPath.starts_with mount dir) mounts
    then None else Some dir.

Definition default_env (r : ExecutionRequest) : list (string * string) :=
  [("PATH", DEFAULT_PATH)] ++ match start_directory r with Some home => [("HOME", home)] | None => [] end
  ++ [("TERM", DEFAULT_TERM)].

Definition resolved_env (r : ExecutionRequest) : list string := DefaultEnv.resolve_env r (default_env r).

(** ** The argument vector *)

Definition baseline_args (baseline : list BaselineLink) (path : string) : list string :=
  match List.find (fun link => bool_decide (link_path link = path)) baseline with
  | Some link => ["--symlink"; relative_target link; path]
  | None => ["--ro-bind-try"; path; path]
  end.

Definition policy_args (denied_files : gset string) (m : PolicyMount) : list string :=
  match intent m with
  | ReadWrite => ["--bind"; source m; destination m]
  | ReadOnly => ["--ro-bind"; source m; destination m]
  | Denied =>
      if decide (source m ∈ denied_files) then ["--ro-bind"; "/dev/null"; destination m]
      else ["--tmpfs"; destination m]
  end.

Definition masked_directory (denied_files : gset string) (m : PolicyMount) : option string :=
  match intent m with
  | Denied => if decide (source m ∈ denied_files) then None else Some (destination m)
  | _ => None
  end.

(** The arguments up to the policy's mounts, given to [grant_links]. *)
Definition mount_args (denied_files : gset string) (network_mode : ResolvedNetworkMode) (baseline : list BaselineLink)
    (resolver_args : list string) (mounts : list PolicyMount) (private_tmp : bool) : list string :=
  (if uses_external_userns network_mode then [] else ["--unshare-user"])
  ++ ["--unshare-pid"; "--unshare-ipc"; "--unshare-uts"] ++ ["--die-with-parent"] ++ ["--unshare-net"]
  ++ (BASELINE_RO_BIND_PATHS ≫= baseline_args baseline)
  ++ ["--symlink"; COMPAT_RUN_TARGET; COMPAT_RUN_LINK] ++ ["--dev"; "/dev"] ++ ["--proc"; "/proc"]
  ++ (if private_tmp then ["--tmpfs"; "/tmp"] else []) ++ resolver_args
  ++ (mounts ≫= policy_args denied_files).

Definition env_args (proxied : bool) (entry : string) : list string :=
  match split_once "="%char entry with
  | Some (key, value) => if proxied && Proxy.is_managed_proxy_key key then [] else ["--setenv"; key; value]
  | None => []
  end.

Definition build_args_classified_with_mode (r : ExecutionRequest) (proxy_address : option ProxyAddress)
    (denied_files : gset string) (network_mode : ResolvedNetworkMode) (seccomp_fd : option Z)
    (baseline : list BaselineLink) (resolver_args : list string) (mounts : list PolicyMount) (private_tmp : bool)
    (grant_links : list string -> list string) : list string :=
  let args := mount_args denied_files network_mode baseline resolver_args mounts private_tmp in
  args ++ grant_links args
  ++ (omap (masked_directory denied_files) mounts ≫= fun destination => ["--remount-ro"; destination])
  ++ match start_directory r with Some dir => ["--chdir"; dir] | None => [] end
  ++ ["--clearenv"] ++ (resolved_env r ≫= env_args (bool_decide (is_Some proxy_address)))
  ++ match proxy_address with
     | Some addr => Proxy.PROXY_SET_KEYS ≫= fun key => ["--setenv"; key; to_url addr]
     | None => []
     end
  ++ match seccomp_fd with Some fd => ["--seccomp"; dec fd] | None => [] end
  ++ COMMAND_TAIL ++ [script_code r].

Definition build_args_classified (r : ExecutionRequest) (proxy_address : option ProxyAddress) (denied_files : gset string)
    : list string :=
  build_args_classified_with_mode r proxy_address denied_files (from_request r (bool_decide (is_Some proxy_address)))
    None [] [] (policy_mounts (policy r)) true (fun _ => []).

Definition build_args (r : ExecutionRequest) (proxy_address : option ProxyAddress) : list string :=
  build_args_classified r proxy_address ∅.

End BwrapCommand.
