(* ===== verification/BwrapLinks.v ===== *)
(** * Links into aliased grants

    [plan_grant_links] of [bwrap_command.rs]: what it emits, where, and where the
    links lead. *)

From Stdlib Require Import Ascii.
From stdpp Require Import gmap.
From S2P Require Import Prelude UnixPath FsPolicy BwrapCommand.

#[local] Open Scope nat_scope.

Module BwrapLinks.
Export BwrapCommand.

(** ** The emitted options *)

Inductive LinkOp : Type :=
| MakeDir (path : string)
| MakeLink (path target text : string).

Definition op_args (op : LinkOp) : list string :=
  match op with MakeDir path => ["--dir"; path] | MakeLink path _ text => ["--symlink"; text; path] end.
Definition op_path (op : LinkOp) : string := match op with MakeDir path | MakeLink path _ _ => path end.

Section Made.
Context (place : string -> LinkPlacement).

(** An option at a place where there is nothing yet; a link has the text that
    leads to its target. *)
Definition op_ok (op : LinkOp) : Prop :=
  place (op_path op) = Create /\
  match op with
  | MakeDir _ => True
  | MakeLink path target text => link_text (MkGrantLink path target [] []) = Some text
  end.

Record made (st : Links) (ops : list LinkOp) : Prop := MkMade {
  made_emitted : emitted st = ops ≫= op_args;
  made_ok : Forall op_ok ops;
  made_once : NoDup (op_path <$> ops);
  made_known op : op ∈ ops -> is_Some (reachable st !! op_path op);
}.

Lemma made_know st ops path b : made st ops -> made (know path b st) ops.
Proof.
  intros [H1 H2 H3 H4]. constructor; try done. intros op Hop. cbn. rewrite lookup_insert_is_Some.
  destruct (decide (path = op_path op)); [by left|right]. auto.
Qed.

Lemma made_emit st ops op b :
  made st ops -> reachable st !! op_path op = None -> op_ok op ->
  made (know (op_path op) b (emit_args (op_args op) st)) (ops ++ [op]).
Proof.
  intros [H1 H2 H3 H4] Hn Hop. constructor.
  - cbn. rewrite H1, bind_app. cbn. by rewrite app_nil_r.
  - apply Forall_app. split; [done|by constructor].
  - rewrite fmap_app. apply NoDup_app. split_and!; [done| |apply NoDup_singleton].
    intros x (op' & -> & Hop')%list_elem_of_fmap Heq%list_elem_of_singleton. destruct (H4 op' Hop') as [? Hs]. cbn in *. congruence.
  - intros op' [Hop'| ->%list_elem_of_singleton]%elem_of_app; cbn; rewrite lookup_insert_is_Some; [|by left].
    destruct (decide (op_path op = op_path op')); [by left|right]. auto.
Qed.

Lemma ensure_directory_made d st ops : made st ops -> exists ops', made (ensure_directory place d st).2 ops'.
Proof.
  intros Hm. unfold ensure_directory. destruct (reachable st !! d) eqn:E; [by exists ops|].
  destruct (place d) eqn:Hp; cbn; try (exists ops; by apply made_know).
  exists (ops ++ [MakeDir d]). by apply (made_emit st ops (MakeDir d)).
Qed.

Lemma all_directories_made l st ops : made st ops -> exists ops', made (all_directories place l st).2 ops'.
Proof.
  revert st ops. induction l as [|d l IH]; intros st ops Hm; cbn; [by exists ops|].
  destruct (ensure_directory_made d st ops Hm) as [ops' Hm']. destruct (ensure_directory place d st) as [[] st']; [|by exists ops'].
  by eapply IH.
Qed.

Lemma GrantLink_nested_ind (P : GrantLink -> Prop) :
  (forall path target hops climbs, Forall P hops -> P (MkGrantLink path target hops climbs)) -> forall link, P link.
Proof.
  intros Hstep. fix IH 1. intros [path target hops climbs]. apply Hstep.
  induction hops as [|hop hops IHl]; constructor; [apply IH|exact IHl].
Qed.

Lemma make_reachable_made link : forall placement st ops,
  made st ops -> reachable st !! grant_path link = None -> (placement = Create -> place (grant_path link) = Create) ->
  exists ops', made (make_reachable place link placement st).2 ops'.
Proof.
  induction link as [path target hops climbs IH] using GrantLink_nested_ind. intros placement st ops Hm Hn Hp.
  destruct placement; cbn [make_reachable]; try (exists ops; by apply made_know).
  - destruct (link_text _) as [text|] eqn:Ht; [|exists ops; by apply made_know].
    exists (ops ++ [MakeLink path target text]). apply (made_emit st ops (MakeLink path target text)); [done|done|].
    split; [by apply Hp|]. exact Ht.
  - destruct (all_directories_made climbs st ops Hm) as [ops1 Hm1].
    destruct (all_directories place climbs st) as [[] st1]; [|exists ops1; by apply made_know]. cbn in Hm1.
    match goal with |- exists _, made (let '(_, _) := ?loop hops st1 in _).2 _ => set (all_hops := loop) end.
    assert (Hhops : exists ops', made (all_hops hops st1).2 ops').
    { clear Hn Hp Hm. revert st1 ops1 Hm1. induction IH as [|hop hops Hhop Hhops IHl]; intros st1 ops1 Hm1; [by exists ops1|].
      cbn. destruct (UnixPath.starts_with target (grant_target hop)); [|by exists ops1].
      destruct (reachable st1 !! grant_path hop) as [b|] eqn:E.
      - destruct b; [by eapply IHl|by exists ops1].
      - destruct (Hhop (place (grant_path hop)) st1 ops1 Hm1 E) as [ops2 Hm2]; [done|].
        destruct (make_reachable place hop (place (grant_path hop)) st1) as [[] st2]; [by eapply IHl|by exists ops2]. }
    destruct Hhops as [ops' Hm']. destruct (all_hops hops st1) as [b st2]. exists ops'. by apply made_know.
Qed.

Lemma choose_link_placement grant link :
  (choose_link place grant link).2 = Create -> place (grant_path (choose_link place grant link).1) = Create.
Proof. unfold choose_link. repeat case_match; cbn; congruence. Qed.

Lemma plan_grants_made grants st u ops :
  made st ops -> exists ops', made (foldl (plan_grant place) (st, u) grants).1 ops'.
Proof.
  revert st u ops. induction grants as [|g grants IH]; intros st u ops Hm; cbn; [by exists ops|].
  assert (Hg : exists ops', made (plan_grant place (st, u) g).1 ops').
  { unfold plan_grant.
    assert (Hd : exists ops', made (foldl (plan_directory place (real_path g)) (st, u) (climbs_out_of g)).1 ops').
    { revert st u ops Hm. induction (climbs_out_of g) as [|d l IHl]; intros st u ops Hm; cbn; [by exists ops|].
      unfold plan_directory at 2. cbn. destruct (ensure_directory_made d st ops Hm) as [ops' Hm'].
      destruct (ensure_directory place d st) as [b st']. by eapply IHl. }
    destruct Hd as [ops1 Hm1]. destruct (foldl _ (st, u) _) as [st1 u1]. clear Hm. revert st1 u1 ops1 Hm1.
    induction (links g) as [|l ls IHl]; intros st1 u1 ops1 Hm1; cbn; [by exists ops1|].
    unfold plan_link at 2. cbn [fst]. pose proof (choose_link_placement g l) as Hc.
    destruct (choose_link place g l) as [link placement]. cbn in Hc.
    destruct (reachable st1 !! grant_path link) eqn:E; [by eapply IHl|].
    destruct (make_reachable_made link placement st1 ops1 Hm1 E Hc) as [ops2 Hm2].
    destruct (make_reachable place link placement st1) as [b st2]. by eapply IHl. }
  destruct Hg as [ops' Hm']. destruct (plan_grant place (st, u) g) as [st' u']. by eapply IH.
Qed.

End Made.

(** The place of a path among the mounts given to [plan_grant_links]. *)
Definition place_in (mount_args : list string) (path : string) : LinkPlacement :=
  match sandbox_layout mount_args with Some layout => link_placement path layout | None => Blocked end.

Lemma plan_grant_links_ops mount_args grants :
  exists ops, plan_args (plan_grant_links mount_args grants) = ops ≫= op_args /\
    Forall (op_ok (place_in mount_args)) ops /\ NoDup (op_path <$> ops).
Proof.
  unfold plan_grant_links. fold (place_in mount_args).
  destruct (plan_grants_made (place_in mount_args) grants (MkLinks ∅ []) [] []) as [ops Hm].
  { constructor; cbn; [done|constructor|constructor|by intros op ?%elem_of_nil]. }
  change (fun path => match sandbox_layout mount_args with Some layout => link_placement path layout | None => Blocked end)
    with (place_in mount_args).
  destruct (foldl (plan_grant (place_in mount_args)) _ grants) as [st u]. exists ops. cbn. destruct Hm. done.
Qed.

(** ** Where a link leads *)

Definition clean (names : list string) : Prop := Forall (fun s => UnixPath.clean_name s = true) names.

Lemma fold_part_clean names parts : clean names -> foldl fold_part parts names = parts ++ names.
Proof.
  revert parts. induction names as [|s names IH]; intros parts Hn; cbn; [by rewrite app_nil_r|].
  apply Forall_cons in Hn as [Hs Hn]. rewrite IH by done. unfold fold_part.
  unfold UnixPath.clean_name in Hs. rewrite !andb_true_iff, !negb_true_iff, !bool_decide_eq_false in Hs.
  destruct Hs as [[[? ?] ?] _]. rewrite !bool_decide_eq_false_2 by done. cbn. by rewrite <- app_assoc.
Qed.

Lemma fold_part_up k parts : foldl fold_part parts (replicate k "..") = take (length parts - k) parts.
Proof.
  revert parts. induction k as [|k IH]; intros parts; cbn [replicate foldl]; [by rewrite Nat.sub_0_r, firstn_all|].
  change (fold_part parts "..") with (removelast parts). rewrite IH.
  destruct parts as [|p parts _] using rev_ind; [done|]. rewrite removelast_last, length_app. cbn.
  rewrite take_app_le by lia. f_equal. lia.
Qed.

(** The text of an absolute path up to its last name. *)
Definition stem (names : list string) : string := match names with [] => "" | _ => UnixPath.absolute names end.

Lemma join_snoc names x : names <> [] -> string_join "/" (names ++ [x]) = string_join "/" names +:+ "/" +:+ x.
Proof.
  induction names as [|s names IH]; [done|]. intros _. destruct names as [|s' names]; [done|].
  change (string_join "/" ((s :: s' :: names) ++ [x])) with (s +:+ "/" +:+ string_join "/" ((s' :: names) ++ [x])).
  change (string_join "/" (s :: s' :: names)) with (s +:+ "/" +:+ string_join "/" (s' :: names)).
  rewrite IH by done. by rewrite !string_app_assoc.
Qed.

Lemma absolute_snoc names x : UnixPath.absolute (names ++ [x]) = stem names +:+ String "/" x.
Proof.
  unfold UnixPath.absolute, stem. destruct names as [|s names]; [done|]. rewrite join_snoc by done.
  unfold UnixPath.absolute. by rewrite <- string_app_assoc.
Qed.

Lemma clean_lacks names : clean names -> Forall (fun s => lacks "/" s = true) names.
Proof. intros Hn. eapply Forall_impl; [exact Hn|]. intros s Hs. by destruct (UnixPath.clean_name_spec _ Hs) as (_ & _ & ?). Qed.

Lemma split_stem names : clean names -> foldl fold_part [] (string_split "/" (stem names)) = names.
Proof.
  intros Hn. destruct names as [|s names]; [done|]. unfold stem, UnixPath.absolute.
  change ("/" +:+ string_join "/" (s :: names)) with ("" +:+ String "/" (string_join "/" (s :: names))).
  rewrite string_split_cons by done. rewrite string_split_join; [|done|by apply clean_lacks].
  change (foldl fold_part [] ("" :: s :: names)) with (foldl fold_part [] (s :: names)). by rewrite fold_part_clean.
Qed.

Lemma shared_spec (a b : list UnixPath.Component) : take (shared a b) a = take (shared a b) b /\ shared a b <= length a /\ shared a b <= length b.
Proof.
  revert b. induction a as [|x a IH]; intros [|y b]; cbn; try (split_and!; done || lia).
  case_decide as E; cbn; [|split_and!; [done|lia..]]. subst y. destruct (IH b) as (H1 & H2 & H3). rewrite H1. split_and!; [done|lia..].
Qed.

Lemma shared_Normal a b : shared (UnixPath.RootDir :: (UnixPath.Normal <$> a)) (UnixPath.RootDir :: (UnixPath.Normal <$> b)) =
  S (shared (UnixPath.Normal <$> a) (UnixPath.Normal <$> b)).
Proof. cbn. by rewrite decide_True. Qed.

(** The parts of a relative path, and what they fold to. *)
Lemma relative_path_folds from to text :
  clean from -> clean to -> relative_path (UnixPath.RootDir :: (UnixPath.Normal <$> from)) (UnixPath.RootDir :: (UnixPath.Normal <$> to)) = Some text ->
  starts_with is_slash text = false /\ foldl fold_part from (string_split "/" text) = to.
Proof.
  intros Hf Ht. unfold relative_path. rewrite shared_Normal. set (n := shared (UnixPath.Normal <$> from) (UnixPath.Normal <$> to)).
  destruct (shared_spec (UnixPath.Normal <$> from) (UnixPath.Normal <$> to)) as (Htake & Hn1 & Hn2). fold n in Htake, Hn1, Hn2.
  rewrite !length_fmap in *. cbn [length drop]. rewrite length_fmap.
  replace (S (length from) - S n) with (length from - n) by lia.
  rewrite <- fmap_drop, <- list_fmap_compose. rewrite (list_fmap_ext _ id (drop n to)) by done. rewrite list_fmap_id.
  set (parts := replicate (length from - n) ".." ++ drop n to).
  case_bool_decide as Hne; [done|]. intros [= <-].
  assert (Hlacks : Forall (fun s => lacks "/" s = true) parts).
  { unfold parts. apply Forall_app. split; [by apply Forall_replicate|]. by apply Forall_drop, clean_lacks. }
  assert (Hparts : parts <> []) by (intros E; by rewrite E in Hne). split.
  - destruct parts as [|p parts'] eqn:E; [done|]. apply Forall_cons in Hlacks as [Hp _].
    assert (Hpne : p <> "").
    { intros ->. assert (Hin : "" ∈ parts) by (rewrite E; left). unfold parts in E.
      destruct (length from - n) as [|k]; [|done]. cbn in E. assert (Hd : clean (drop n to)) by (by apply Forall_drop).
      rewrite E in Hd. by apply Forall_cons in Hd as [? _]. }
    destruct p as [|c p]; [done|]. unfold lacks in Hp. cbn in Hp. apply andb_true_iff in Hp as [Hc _].
    rewrite negb_true_iff in Hc. destruct parts'; cbn; exact Hc.
  - rewrite string_split_join by done. unfold parts. rewrite foldl_app, fold_part_up, fold_part_clean by (by apply Forall_drop).
    replace (length from - (length from - n)) with n by lia.
    rewrite <- !fmap_take in Htake. apply (inj (fmap UnixPath.Normal)) in Htake. rewrite Htake. apply take_drop.
Qed.

Lemma link_text_leads names target text hops climbs :
  clean names -> clean target -> names <> [] ->
  link_text (MkGrantLink (UnixPath.absolute names) (UnixPath.absolute target) hops climbs) = Some text ->
  sandbox_link_target (UnixPath.absolute names) text = UnixPath.absolute target.
Proof.
  intros Hn Ht Hne. destruct names as [|x names _] using rev_ind; [done|]. pose proof Hn as Hall.
  apply Forall_app in Hn as [Hn Hx]. apply Forall_cons in Hx as [Hx _].
  unfold link_text. cbn [grant_path grant_target]. rewrite !UnixPath.components_absolute by done.
  rewrite fmap_app. unfold UnixPath.parent. change (UnixPath.RootDir :: ?a ++ ?b) with ((UnixPath.RootDir :: a) ++ b).
  cbn [fmap list_fmap]. rewrite rev_unit. cbn [mbind option_bind]. rewrite rev_involutive.
  assert (Hdir : default "" (fst <$> rsplit_once "/" (UnixPath.absolute (names ++ [x]))) = stem names).
  { rewrite absolute_snoc. destruct (UnixPath.clean_name_spec _ Hx) as (_ & _ & Hl).
    by rewrite (proj2 (rsplit_once_Some "/" _ (stem names) x)). }
  unfold sandbox_link_target. rewrite Hdir. case_decide as Heq.
  - intros [= <-]. change (starts_with is_slash ".") with false. rewrite foldl_app, split_stem by done.
    change (foldl fold_part names (string_split "/" ".")) with names. injection Heq as Heq.
    apply (inj (fmap UnixPath.Normal)) in Heq. by subst.
  - intros Hr. destruct (relative_path_folds _ _ _ Hn Ht Hr) as [Hs Hf]. rewrite Hs, foldl_app, split_stem, Hf by done. done.
Qed.

(** ** Links and the mounts at a path *)

Section Placement.
Context (link : string) (q : list UnixPath.Component).
Hypothesis link_above : UnixPath.components link `prefix_of` q.

Definition uncovered (l : list (string * SandboxEntry)) : Prop :=
  forall m, m ∈ l -> ~ UnixPath.components m.1 `prefix_of` q.

(** Mounts that are not above [q] never free a place above it. *)
Lemma placement_kept l placement : uncovered l -> placement <> Create -> foldl (place_step link) placement l = placement.
Proof.
  intros Hl Hp. induction l as [|[path entry] l IH]; [done|]. cbn [foldl].
  assert (Hne : ~ UnixPath.components path `prefix_of` UnixPath.components link).
  { intros Hpre. apply (Hl (path, entry)); [left|]. cbn. by etrans. }
  unfold place_step at 2. unfold UnixPath.path_eq, UnixPath.starts_with.
  rewrite bool_decide_eq_false_2 by (intros E; apply Hne; by rewrite E).
  rewrite bool_decide_eq_false_2 by done. rewrite (bool_decide_eq_false_2 (placement = Create)), andb_false_r by done.
  apply IH. intros m Hm. apply Hl. by right.
Qed.

(** A free place above [q], the last mount at or above which is [path]: the mount
    is a tmpfs and the place is below it. *)
Lemma placement_free l0 path entry l1 :
  UnixPath.components path `prefix_of` q -> uncovered l1 ->
  entry <> Directory -> (forall text, entry <> Symlink text) ->
  link_placement link (l0 ++ (path, entry) :: l1) = Create ->
  entry = Tmpfs /\ UnixPath.components path `prefix_of` UnixPath.components link /\
  UnixPath.components path <> UnixPath.components link.
Proof.
  intros Hpath Hl1 Hd Hs. unfold link_placement. rewrite foldl_app. cbn [foldl].
  set (p0 := foldl (place_step link) Create l0). intros Hfree.
  assert (Hstep : place_step link p0 (path, entry) = Create).
  { destruct (decide (place_step link p0 (path, entry) = Create)) as [|Hne]; [done|]. by rewrite placement_kept in Hfree. }
  revert Hstep. unfold place_step, UnixPath.path_eq, UnixPath.starts_with.
  case_bool_decide as E1; [destruct entry; try done; by destruct (Hs target)|].
  case_bool_decide as E2.
  - by destruct entry.
  - destruct (prefix_weak_total _ _ _ Hpath link_above) as [?|Hab]; [done|].
    rewrite bool_decide_eq_true_2 by done. case_bool_decide; [done|]. cbn. intros ?. done.
Qed.

End Placement.

(** ** The theorem *)

(** Links into aliased grants: the planner emits directories and links only,
    each at a place of its own where the mounts before it leave nothing, neither
    in a host directory nor over an entry of the sandbox; and a link, read at its
    place in the sandbox, leads to the real path it was made for. *)
Theorem grant_links_sound mount_args grants :
  exists ops, plan_args (plan_grant_links mount_args grants) = ops ≫= op_args /\ NoDup (op_path <$> ops) /\
    forall op, op ∈ ops ->
      place_in mount_args (op_path op) = Create /\
      forall path target text, op = MakeLink path target text ->
        forall names target_names, clean names -> clean target_names -> names <> [] ->
          path = UnixPath.absolute names -> target = UnixPath.absolute target_names ->
          sandbox_link_target path text = target.
Proof.
  destruct (plan_grant_links_ops mount_args grants) as (ops & Hargs & Hok & Hnd). exists ops. split_and!; [done..|].
  rewrite Forall_forall in Hok. intros op Hop. destruct (Hok op Hop) as [Hp Hl]. split; [done|].
  intros path target text -> names target_names Hn Ht Hne -> ->. by eapply link_text_leads.
Qed.

End BwrapLinks.
