(* ===== verification/BwrapView.v ===== *)
(** * What a Bubblewrap sandbox shows

    The argument vector of [BwrapCommand] read the way [bwrap] documents its
    options, in order, each with its operands; and the file system it sets up: at
    a path, the last mount at it or above it is what the process sees.  The
    theorems show that the policy decides what is seen of the host, that the
    links made for aliased grants lead where they should and never into the host,
    and what the environment of the process is. *)

From Stdlib Require Import Ascii.
From stdpp Require Import gmap.
From S2P Require Import Prelude NetText Models Requests ProxyEnv UnixPath FsPolicy DefaultEnv MountView BwrapCommand BwrapLinks.

Module BwrapView.
Export BwrapLinks MountView.

(** ** Reading the options *)

(** [namespaces]: the options about namespaces and the process itself;
    [mounts]: destinations and contents in the order they are applied;
    [env_]: the assignments after the environment is cleared. *)
Record Sandbox : Type := MkSandbox {
  namespaces : list string;
  mounts : list (string * Content);
  directories : list string;
  cwd : option string;
  cleared : bool;
  env_ : list (string * string);
  seccomp : option string;
  command : list string;
}.

Definition fresh : Sandbox := MkSandbox [] [] [] None false [] None [].

Definition unshare (name : string) (s : Sandbox) : Sandbox :=
  MkSandbox (namespaces s ++ [name]) (mounts s) (directories s) (cwd s) (cleared s) (env_ s) (seccomp s) (command s).
Definition set_mounts (l : list (string * Content)) (s : Sandbox) : Sandbox :=
  MkSandbox (namespaces s) l (directories s) (cwd s) (cleared s) (env_ s) (seccomp s) (command s).
Definition mount_at (path : string) (c : Content) (s : Sandbox) : Sandbox := set_mounts (mounts s ++ [(path, c)]) s.
Definition make_dir (path : string) (s : Sandbox) : Sandbox :=
  MkSandbox (namespaces s) (mounts s) (directories s ++ [path]) (cwd s) (cleared s) (env_ s) (seccomp s) (command s).
Definition chdir (path : string) (s : Sandbox) : Sandbox :=
  MkSandbox (namespaces s) (mounts s) (directories s) (Some path) (cleared s) (env_ s) (seccomp s) (command s).
Definition clear_env (s : Sandbox) : Sandbox :=
  MkSandbox (namespaces s) (mounts s) (directories s) (cwd s) true [] (seccomp s) (command s).
Definition set_env (key value : string) (s : Sandbox) : Sandbox :=
  MkSandbox (namespaces s) (mounts s) (directories s) (cwd s) (cleared s) (env_ s ++ [(key, value)]) (seccomp s) (command s).
Definition set_seccomp (fd : string) (s : Sandbox) : Sandbox :=
  MkSandbox (namespaces s) (mounts s) (directories s) (cwd s) (cleared s) (env_ s) (Some fd) (command s).
Definition run (argv : list string) (s : Sandbox) : Sandbox :=
  MkSandbox (namespaces s) (mounts s) (directories s) (cwd s) (cleared s) (env_ s) (seccomp s) argv.

Definition at_path (path : string) (m : string * Content) : bool := UnixPath.path_eq m.1 path.

(** [--remount-ro] acts on what is mounted last at the path. *)
Fixpoint remount (path : string) (l : list (string * Content)) : list (string * Content) :=
  match l with
  | [] => []
  | m :: l =>
      if existsb (at_path path) l then m :: remount path l
      else if at_path path m then (m.1, read_only m.2) :: l
      else m :: l
  end.

Section Read.
(** Whether the source of a [--ro-bind-try] is there. *)
Context (host_has : string -> bool).

Fixpoint read_options (args : list string) (s : Sandbox) : option Sandbox :=
  match args with
  | [] => None
  | opt :: args =>
      if bool_decide (opt = "--") then Some (run args s)
      else if bool_decide (opt ∈ ["--unshare-user"; "--unshare-pid"; "--unshare-ipc"; "--unshare-uts"; "--unshare-net";
                                  "--die-with-parent"; "--new-session"]) then read_options args (unshare opt s)
      else if bool_decide (opt = "--clearenv") then read_options args (clear_env s)
      else match args with
      | [] => None
      | x :: args =>
          if bool_decide (opt ∈ ["--dev"; "--proc"]) then read_options args (mount_at x Virtual s)
          else if bool_decide (opt ∈ ["--userns"; "--info-fd"; "--block-fd"]) then read_options args (unshare opt s)
          else if bool_decide (opt = "--tmpfs") then read_options args (mount_at x (Private true) s)
          else if bool_decide (opt = "--dir") then read_options args (make_dir x s)
          else if bool_decide (opt = "--remount-ro") then read_options args (set_mounts (remount x (mounts s)) s)
          else if bool_decide (opt = "--chdir") then read_options args (chdir x s)
          else if bool_decide (opt = "--seccomp") then read_options args (set_seccomp x s)
          else match args with
          | [] => None
          | y :: args =>
              if bool_decide (opt = "--bind") then read_options args (mount_at y (HostTree x true) s)
              else if bool_decide (opt = "--ro-bind") then read_options args (mount_at y (HostTree x false) s)
              else if bool_decide (opt = "--ro-bind-try") then
                read_options args (if host_has x then mount_at y (HostTree x false) s else s)
              else if bool_decide (opt = "--symlink") then read_options args (mount_at y (Link x) s)
              else if bool_decide (opt = "--file") then read_options args (mount_at y FileData s)
              else if bool_decide (opt = "--setenv") then read_options args (set_env x y s)
              else None
          end
      end
  end.

(** Arguments that are read as a whole number of options. *)
Definition reads (args : list string) (f : Sandbox -> Sandbox) : Prop :=
  forall rest s, read_options (args ++ rest) s = read_options rest (f s).

Lemma reads_nil : reads [] id.
Proof. done. Qed.

Lemma reads_app a b f g : reads a f -> reads b g -> reads (a ++ b) (fun s => g (f s)).
Proof. intros Ha Hb rest s. by rewrite <- app_assoc, Ha, Hb. Qed.

Lemma reads_bind {A} (l : list A) (args : A -> list string) (f : A -> Sandbox -> Sandbox) :
  (forall a, a ∈ l -> reads (args a) (f a)) -> reads (l ≫= args) (fun s => foldl (fun s a => f a s) s l).
Proof.
  induction l as [|a l IH]; intros Hl; [apply reads_nil|]. rewrite bind_cons. cbn [foldl].
  apply (reads_app (args a) (l ≫= args) (f a) (fun s => foldl (fun s a => f a s) s l)); [apply Hl; left|]. apply IH. intros b Hb. apply Hl. by right.
Qed.

End Read.

Lemma existsb_at_path path l : existsb (at_path path) l = true <-> exists m, m ∈ l /\ at_path path m = true.
Proof. rewrite existsb_exists. by setoid_rewrite list_elem_of_In. Qed.

Lemma at_path_covers path m q : at_path path m = true -> covers_path q m <-> UnixPath.components path `prefix_of` q.
Proof. unfold at_path, UnixPath.path_eq, covers_path. by intros ->%bool_decide_eq_true. Qed.

Lemma top_remount path l q :
  top (remount path l) q = (fun m => if at_path path m then (m.1, read_only m.2) else m) <$> top l q.
Proof.
  induction l as [|m l IH]; [done|]. cbn [remount].
  change (m :: l) with ([m] ++ l) at 2. rewrite top_app.
  destruct (existsb (at_path path) l) eqn:Hex.
  - change (m :: remount path l) with ([m] ++ remount path l). rewrite top_app, IH.
    destruct (top l q) as [m'|] eqn:Hl; [done|]. cbn.
    apply existsb_at_path in Hex as (m' & Hm' & Hat). unfold top. rewrite filter_cons, filter_nil.
    case_decide as Hc; [|done]. cbn. destruct (at_path path m) eqn:Hat'; [|done]. exfalso.
    rewrite top_None in Hl. apply (Hl m' Hm'). apply (at_path_covers path m' q Hat). by apply (at_path_covers path m q Hat').
  - assert (Hout : forall m', m' ∈ l -> at_path path m' = false).
    { intros m' Hm'. destruct (at_path path m') eqn:E; [|done]. rewrite <- Hex. symmetry. apply existsb_at_path. eauto. }
    assert (Htop : forall m', top l q = Some m' -> at_path path m' = false) by (intros m' [Hm' _]%top_Some; auto).
    destruct (at_path path m) eqn:Hat.
    + change ((m.1, read_only m.2) :: l) with ([(m.1, read_only m.2)] ++ l). rewrite top_app.
      destruct (top l q) as [m'|] eqn:Hl; [cbn; by rewrite (Htop m' eq_refl)|].
      unfold top. rewrite !filter_cons, !filter_nil. repeat case_decide; unfold covers_path in *; cbn in *; try done. by rewrite Hat.
    + change (m :: l) with ([m] ++ l). rewrite top_app. destruct (top l q) as [m'|] eqn:Hl; [cbn; by rewrite (Htop m' eq_refl)|].
      unfold top. rewrite filter_cons, filter_nil. case_decide; [|done]. cbn. by rewrite Hat.
Qed.

Lemma top_remounts ds l q :
  top (foldl (fun l d => remount d l) l ds) q =
  (fun m => if existsb (fun d => at_path d m) ds then (m.1, read_only m.2) else m) <$> top l q.
Proof.
  revert l. induction ds as [|d ds IH]; intros l; cbn [foldl existsb]; [by destruct (top l q)|].
  rewrite IH, top_remount. destruct (top l q) as [[p c]|]; [|done]. cbn. f_equal. unfold at_path. cbn.
  destruct (UnixPath.path_eq p d); cbn; [|done]. case_match; [|done]. by destruct c.
Qed.

(** ** Where mounts end up *)

Definition is_link (c : Content) : bool := match c with Link _ => true | _ => false end.

(** Whether the destination of a mount is at or below a link that stands there.
    [bwrap] then resolves the destination through the link, or fails. *)
Definition over_link (l : list (string * Content)) (m : string * Content) : bool :=
  negb (is_link m.2) && match top l (UnixPath.components m.1) with Some (_, Link _) => true | _ => false end.

(** No mount is applied through a link: each is where its option says, and
    [access] tells what is seen. *)
Fixpoint settled_after (before l : list (string * Content)) : bool :=
  match l with
  | [] => true
  | m :: l => negb (over_link before m) && settled_after (before ++ [m]) l
  end.

Definition settled (l : list (string * Content)) : bool := settled_after [] l.

Lemma settled_after_app before l1 l2 :
  settled_after before (l1 ++ l2) = settled_after before l1 && settled_after (before ++ l1) l2.
Proof.
  revert before. induction l1 as [|m l1 IH]; intros before; cbn [app settled_after]; [by rewrite app_nil_r|].
  rewrite IH, <- app_assoc. by rewrite andb_assoc.
Qed.

Lemma settled_snoc l m : settled (l ++ [m]) = settled l && negb (over_link l m).
Proof. unfold settled. rewrite settled_after_app. cbn. by rewrite andb_true_r. Qed.

(** Mounts whose links are among some places, none of which is at or above
    [path]. *)
Definition clear_of (places : list string) (path : string) : Prop :=
  forall place, place ∈ places -> ~ UnixPath.components place `prefix_of` UnixPath.components path.

Definition links_at (places : list string) (l : list (string * Content)) : Prop :=
  forall path text, (path, Link text) ∈ l -> path ∈ places.

Lemma clear_not_over places l m : links_at places l -> (is_link m.2 = false -> clear_of places m.1) -> over_link l m = false.
Proof.
  intros Hl Hm. unfold over_link. destruct (is_link m.2); [done|]. cbn. specialize (Hm eq_refl).
  destruct (top l _) as [[d c]|] eqn:Ht; [|done]. apply top_Some in Ht as [Hin Hc]. destruct c; try done. by destruct (Hm d (Hl _ _ Hin)).
Qed.

Lemma links_at_snoc places l m :
  links_at places l -> (is_link m.2 = true -> m.1 ∈ places) -> links_at places (l ++ [m]).
Proof. intros Hl Hm path text [Hin|Hin%list_elem_of_singleton]%elem_of_app; [by eapply Hl|]. subst m. by apply Hm. Qed.

Lemma settled_mounts places before l :
  settled before = true -> links_at places before ->
  Forall (fun m => if is_link m.2 then m.1 ∈ places else clear_of places m.1) l ->
  settled (before ++ l) = true /\ links_at places (before ++ l).
Proof.
  intros Hs Hl Hall. revert before Hs Hl. induction Hall as [|m l Hm Hall IH]; intros before Hs Hl; [by rewrite app_nil_r|].
  change (m :: l) with ([m] ++ l). rewrite app_assoc. apply IH.
  - rewrite settled_snoc, Hs, (clear_not_over places); [done..|]. intros E. by rewrite E in Hm.
  - apply links_at_snoc; [done|]. intros E. by rewrite E in Hm.
Qed.

(** Remounting changes neither places nor links. *)
Lemma read_only_link c : is_link (read_only c) = is_link c.
Proof. by destruct c. Qed.

Lemma settled_after_remount path l : forall a, settled_after a (remount path l) = settled_after a l.
Proof.
  assert (Hsame : forall a b l, (forall q, (is_link ∘ snd <$> top a q) = (is_link ∘ snd <$> top b q)) ->
    settled_after a l = settled_after b l).
  { intros a b l'. revert a b. induction l' as [|m l' IH]; intros a b Hab; [done|]. cbn [settled_after].
    f_equal; [f_equal; unfold over_link; f_equal; specialize (Hab (UnixPath.components m.1));
      destruct (top a _) as [[? []]|], (top b _) as [[? []]|]; done|].
    apply IH. intros q. rewrite !top_app. by destruct (top [m] q). }
  induction l as [|m l IH]; intros a; [done|]. cbn [remount]. destruct (existsb (at_path path) l); [cbn [settled_after]; by rewrite IH|].
  destruct (at_path path m); [|done]. cbn [settled_after]. unfold over_link at 1. cbn [fst snd]. rewrite read_only_link. f_equal. apply Hsame.
  intros q. rewrite !top_app. unfold top. rewrite !filter_cons, !filter_nil. unfold covers_path. cbn [fst snd].
  repeat case_decide; [|done..]. cbn. by rewrite read_only_link.
Qed.

Lemma settled_remount path l : settled (remount path l) = settled l.
Proof. apply settled_after_remount. Qed.

Lemma remount_elem path l m : m ∈ remount path l -> m ∈ l \/ exists c, (m.1, c) ∈ l /\ m.2 = read_only c.
Proof.
  induction l as [|x l IH]; [by intros ?%elem_of_nil|]. cbn [remount]. repeat case_match; rewrite !elem_of_cons.
  - intros [->|Hm]; [by left; left|]. destruct (IH Hm) as [?|(c & ? & ?)]; [by left; right|right; exists c; split; [by right|done]].
  - intros [->|Hm]; [right; exists x.2; split; [destruct x; left|done]|by left; right].
  - intros [->|Hm]; [by left; left|by left; right].
Qed.

Lemma links_at_remount places path l : links_at places l -> links_at places (remount path l).
Proof. intros Hl d text [Hin|(c & Hin & Hc)]%remount_elem; [by eapply Hl|]. cbn in *. destruct c; try done. by eapply Hl. Qed.

(** ** What the builder's arguments are read as *)

(** The options of the resolver's layout ([ResolverFile::mount_args]). *)
Inductive ResolverOp : Type :=
| RTmpfs (path : string)
| RDir (path : string)
| RSymlink (text path : string)
| RFile (fd path : string)
| RNull (path : string)
| RRemount (path : string).

Definition resolver_op_args (op : ResolverOp) : list string :=
  match op with
  | RTmpfs path => ["--tmpfs"; path]
  | RDir path => ["--dir"; path]
  | RSymlink text path => ["--symlink"; text; path]
  | RFile fd path => ["--file"; fd; path]
  | RNull path => ["--ro-bind"; "/dev/null"; path]
  | RRemount path => ["--remount-ro"; path]
  end.

Definition policy_content (denied_files : gset string) (m : PolicyMount) : Content :=
  match intent m with
  | ReadWrite => HostTree (source m) true
  | ReadOnly => HostTree (source m) false
  | Denied => if decide (source m ∈ denied_files) then HostTree "/dev/null" false else Private true
  end.

Definition policy_entry (denied_files : gset string) (m : PolicyMount) : SandboxEntry :=
  match intent m with
  | ReadWrite | ReadOnly => if bool_decide (source m = destination m) then HostBind else Closed
  | Denied =>
      if decide (source m ∈ denied_files) then (if bool_decide ("/dev/null" = destination m) then HostBind else Closed)
      else Tmpfs
  end.

(** What a resolver's option does to the mounts. *)
Definition apply_op (l : list (string * Content)) (op : ResolverOp) : list (string * Content) :=
  match op with
  | RTmpfs path => l ++ [(path, Private true)]
  | RDir _ => l
  | RSymlink text path => l ++ [(path, Link text)]
  | RFile _ path => l ++ [(path, FileData)]
  | RNull path => l ++ [(path, HostTree "/dev/null" false)]
  | RRemount path => remount path l
  end.

(** The places of its links, and the destinations of its mounts. *)
Definition op_link (op : ResolverOp) : option string := match op with RSymlink _ path => Some path | _ => None end.
Definition op_mount (op : ResolverOp) : option string :=
  match op with RTmpfs path | RFile _ path | RNull path => Some path | _ => None end.

(** Mounts that leave the host unwritable and show each of its paths in its own
    place. *)
Definition mirrored (l : list (string * Content)) : Prop :=
  forall path src w, (path, HostTree src w) ∈ l -> w = false /\ (src = path \/ src = "/dev/null").

Lemma mirrored_snoc l m : mirrored l -> mirrored [m] -> mirrored (l ++ [m]).
Proof. intros Hl Hm path src w [Hin|Hin]%elem_of_app; [by eapply Hl|by eapply Hm]. Qed.

Lemma mirrored_remount path l : mirrored l -> mirrored (remount path l).
Proof.
  intros Hl p src w [Hin|(c & Hin & Hc)]%remount_elem; [by eapply Hl|]. cbn in *. destruct c; try done. injection Hc as -> ->.
  by apply Hl in Hin as [_ ?].
Qed.

Lemma apply_op_mirrored l op : mirrored l -> mirrored (apply_op l op).
Proof.
  intros Hl. destruct op; cbn; [|done|..]; try (by apply mirrored_remount); apply mirrored_snoc; try done;
    intros p src w Hin%list_elem_of_singleton; try done. injection Hin as -> -> ->. auto.
Qed.

Lemma apply_op_settled places l op :
  settled l = true -> links_at places l ->
  (forall path, op_link op = Some path -> path ∈ places) -> (forall path, op_mount op = Some path -> clear_of places path) ->
  settled (apply_op l op) = true /\ links_at places (apply_op l op).
Proof.
  intros Hs Hl Hlink Hmount. destruct op; cbn in *;
    try (apply (settled_mounts places); [done..|]; constructor; [cbn; by auto|constructor]); [done|].
  rewrite settled_remount. split; [done|]. by apply links_at_remount.
Qed.

Section Built.
Context (host_has : string -> bool).

(** Options that only set up mounts, with their effect; they have entries in the
    layout the planner sees. *)
Definition sets_up (args : list string) (effect : list (string * Content) -> list (string * Content)) : Prop :=
  (exists f, reads host_has args f /\ forall s, mounts (f s) = effect (mounts s) /\ cwd (f s) = cwd s) /\
  exists l0, forall rest, sandbox_layout (args ++ rest) = app l0 <$> sandbox_layout rest.

Lemma sets_up_nil : sets_up [] id.
Proof.
  split; [exists id; split; [apply reads_nil|done]|]. exists []. intros rest. cbn. by destruct (sandbox_layout rest).
Qed.

Lemma sets_up_app a b f g : sets_up a f -> sets_up b g -> sets_up (a ++ b) (fun l => g (f l)).
Proof.
  intros ((f' & Hf & Hf') & l1 & Hl1) ((g' & Hg & Hg') & l2 & Hl2). split.
  - exists (fun s => g' (f' s)). split; [by apply reads_app|]. intros s.
    destruct (Hf' s) as (H1 & H2). destruct (Hg' (f' s)) as (K1 & K2). split; [by rewrite K1, H1|by rewrite K2].
  - exists (l1 ++ l2). intros rest. rewrite <- app_assoc, Hl1, Hl2. destruct (sandbox_layout rest); [|done]. cbn. by rewrite app_assoc.
Qed.

Lemma sets_up_bind {A} (l : list A) (args : A -> list string) (f : list (string * Content) -> A -> list (string * Content)) :
  (forall a, sets_up (args a) (fun l => f l a)) -> sets_up (l ≫= args) (fun ms => foldl f ms l).
Proof.
  intros Ha. induction l as [|a l IH]; [apply sets_up_nil|]. rewrite bind_cons. cbn [foldl].
  exact (sets_up_app _ _ _ _ (Ha a) IH).
Qed.

Lemma sets_up_option args f l0 effect :
  reads host_has args f -> (forall s, cwd (f s) = cwd s) -> (forall s, mounts (f s) = effect (mounts s)) ->
  (forall rest, sandbox_layout (args ++ rest) = app l0 <$> sandbox_layout rest) -> sets_up args effect.
Proof. intros Hr He Hm Hl. split; [|by exists l0]. exists f. split; [done|]. intros s. auto. Qed.

Ltac one_option f l := apply (sets_up_option _ f l); [by intros rest s|by intros s|by intros s|by intros rest].

Lemma sets_up_unshare name :
  name ∈ ["--unshare-user"; "--unshare-pid"; "--unshare-ipc"; "--unshare-uts"; "--unshare-net"; "--die-with-parent"] -> sets_up [name] id.
Proof.
  intros Hn. apply (sets_up_option _ (unshare name) []); [|done|done|].
  - intros rest s. cbn [app read_options].
    rewrite bool_decide_eq_false_2; [rewrite bool_decide_eq_true_2; [done|set_solver]|].
    intros ->. apply (bool_decide_eq_true_2 (_ ∈ _)) in Hn. by vm_compute in Hn.
  - intros rest. cbn [app sandbox_layout]. rewrite bool_decide_eq_true_2 by done. by destruct (sandbox_layout rest).
Qed.

Lemma sets_up_symlink text path : sets_up ["--symlink"; text; path] (fun l => l ++ [(path, Link text)]).
Proof. one_option (mount_at path (Link text)) [(path, Symlink text)]. Qed.

Lemma sets_up_tmpfs path : sets_up ["--tmpfs"; path] (fun l => l ++ [(path, Private true)]).
Proof. one_option (mount_at path (Private true)) [(path, Tmpfs)]. Qed.

Lemma sets_up_virtual opt path : opt ∈ ["--dev"; "--proc"] -> sets_up [opt; path] (fun l => l ++ [(path, Virtual)]).
Proof.
  intros [->|[->|[]%elem_of_nil]%elem_of_cons]%elem_of_cons; one_option (mount_at path Virtual) [(path, Closed)].
Qed.

Definition baseline_mounts (baseline : list BaselineLink) (path : string) : list (string * Content) :=
  match List.find (fun link => bool_decide (link_path link = path)) baseline with
  | Some link => [(path, Link (relative_target link))]
  | None => if host_has path then [(path, HostTree path false)] else []
  end.

Lemma sets_up_baseline baseline path : sets_up (baseline_args baseline path) (fun l => l ++ baseline_mounts baseline path).
Proof.
  unfold baseline_args, baseline_mounts. case_match; [apply sets_up_symlink|].
  apply (sets_up_option _ (fun s => if host_has path then mount_at path (HostTree path false) s else s)
    [(path, if bool_decide (path = path) then HostBind else Closed)]);
    [by intros rest s|by intros s; destruct (host_has path)| |by intros rest].
  intros s. destruct (host_has path); [done|]. by rewrite app_nil_r.
Qed.

Lemma sets_up_resolver op : sets_up (resolver_op_args op) (fun l => apply_op l op).
Proof.
  destruct op; cbn.
  - apply sets_up_tmpfs.
  - one_option (make_dir path) [(path, Directory)].
  - apply sets_up_symlink.
  - one_option (mount_at path FileData) [(path, Closed)].
  - one_option (mount_at path (HostTree "/dev/null" false)) [(path, if bool_decide ("/dev/null" = path) then HostBind else Closed)].
  - one_option (fun s => set_mounts (remount path (mounts s)) s) [(path, Closed)].
Qed.

(** The mounts before the resolver's and the policy's. *)
Definition first_mounts (baseline : list BaselineLink) (private_tmp : bool) : list (string * Content) :=
  (BASELINE_RO_BIND_PATHS ≫= baseline_mounts baseline)
  ++ [(COMPAT_RUN_LINK, Link COMPAT_RUN_TARGET); ("/dev", Virtual); ("/proc", Virtual)]
  ++ (if private_tmp then [("/tmp", Private true)] else []).

Lemma foldl_app_bind {A B} (f : A -> list B) (l : list A) (acc : list B) : foldl (fun l a => l ++ f a) acc l = acc ++ (l ≫= f).
Proof.
  revert acc. induction l as [|a l IH]; intros acc; [by rewrite app_nil_r|]. cbn [foldl]. rewrite IH, bind_cons. by rewrite app_assoc.
Qed.

(** The arguments before the policy's mounts. *)
Lemma sets_up_setup denied_files mode baseline ops private_tmp :
  sets_up (mount_args denied_files mode baseline (ops ≫= resolver_op_args) [] private_tmp)
    (fun l => foldl apply_op (l ++ first_mounts baseline private_tmp) ops).
Proof.
  assert (Heq : forall f g args, (forall l, f l = g l) -> sets_up args f -> sets_up args g).
  { intros f g args Hfg ((f' & Hr & Hm) & Hl). split; [|done]. exists f'. split; [done|]. intros s. rewrite <- Hfg. apply Hm. }
  unfold mount_args. eapply Heq; cycle 1.
  { eapply (sets_up_app _ _ id); [case_match; [apply sets_up_nil|by apply sets_up_unshare; left]|].
    eapply (sets_up_app ["--unshare-pid"; "--unshare-ipc"; "--unshare-uts"] _ id).
    { apply (sets_up_app ["--unshare-pid"] _ id id); [|apply (sets_up_app ["--unshare-ipc"] _ id id)]; apply sets_up_unshare; set_solver. }
    eapply (sets_up_app ["--die-with-parent"] _ id); [apply sets_up_unshare; set_solver|].
    eapply (sets_up_app ["--unshare-net"] _ id); [apply sets_up_unshare; set_solver|].
    eapply sets_up_app; [apply sets_up_bind, sets_up_baseline|].
    eapply (sets_up_app ["--symlink"; COMPAT_RUN_TARGET; COMPAT_RUN_LINK]); [apply sets_up_symlink|].
    eapply (sets_up_app ["--dev"; "/dev"]); [apply sets_up_virtual; set_solver|].
    eapply (sets_up_app ["--proc"; "/proc"]); [apply sets_up_virtual; set_solver|].
    apply (sets_up_app _ _ (if private_tmp then fun l => l ++ [("/tmp", Private true)] else id) (fun l => foldl apply_op l ops));
      [case_match; [apply sets_up_tmpfs|apply sets_up_nil]|].
    apply (sets_up_app _ _ (fun l => foldl apply_op l ops) id); [apply sets_up_bind, sets_up_resolver|apply sets_up_nil]. }
  intros l. unfold first_mounts. cbn beta. rewrite foldl_app_bind. unfold id. rewrite <- !app_assoc.
  destruct private_tmp; cbn [app]; by rewrite ?app_nil_r, <- ?app_assoc.
Qed.

(** The places of links when the policy's mounts are applied. *)
Definition sandbox_links (baseline : list BaselineLink) (resolver : list ResolverOp) : list string :=
  (link_path <$> baseline) ++ [COMPAT_RUN_LINK] ++ omap op_link resolver.

(** No destination the policy or the resolver is mounted at is at or below one
    of them. *)
Definition clear_of_links (baseline : list BaselineLink) (resolver : list ResolverOp) (ms : list PolicyMount) : Prop :=
  forall path, path ∈ omap op_mount resolver ++ (destination <$> ms) -> clear_of (sandbox_links baseline resolver) path.

Lemma baseline_link_found baseline path link :
  List.find (fun link => bool_decide (link_path link = path)) baseline = Some link -> path ∈ link_path <$> baseline.
Proof.
  intros [Hin Heq]%find_some. apply bool_decide_eq_true in Heq as <-. apply list_elem_of_fmap. exists link.
  split; [done|]. by apply list_elem_of_In.
Qed.

(** Destinations of the baseline are not in each other's way. *)
Lemma baseline_apart a b :
  a ∈ BASELINE_RO_BIND_PATHS ++ [COMPAT_RUN_LINK] -> b ∈ BASELINE_RO_BIND_PATHS ++ ["/dev"; "/proc"; "/tmp"] ->
  UnixPath.components a `prefix_of` UnixPath.components b -> a = b.
Proof.
  assert (Hall : Forall (fun a => Forall (fun b => UnixPath.components a `prefix_of` UnixPath.components b -> a = b)
    (BASELINE_RO_BIND_PATHS ++ ["/dev"; "/proc"; "/tmp"])) (BASELINE_RO_BIND_PATHS ++ [COMPAT_RUN_LINK]))
    by (apply (bool_decide_unpack _); by vm_compute).
  intros Ha Hb. rewrite Forall_forall in Hall. specialize (Hall a Ha). rewrite Forall_forall in Hall. by apply Hall.
Qed.

Lemma first_mounts_settled baseline private_tmp :
  settled (first_mounts baseline private_tmp) = true /\ links_at ((link_path <$> baseline) ++ [COMPAT_RUN_LINK]) (first_mounts baseline private_tmp).
Proof.
  set (linked := filter (fun path => is_Some (List.find (fun link => bool_decide (link_path link = path)) baseline)) BASELINE_RO_BIND_PATHS
    ++ [COMPAT_RUN_LINK]).
  assert (Hlinked : forall path, path ∈ linked -> path ∈ BASELINE_RO_BIND_PATHS ++ [COMPAT_RUN_LINK]).
  { intros path [[_ ?]%list_elem_of_filter|?]%elem_of_app; apply elem_of_app; auto. }
  assert (Hother : forall path, path ∈ ["/dev"; "/proc"; "/tmp"] -> clear_of linked path).
  { intros path Hp place Hpl Hpre. assert (place = path) as -> by (apply baseline_apart; [auto|by apply elem_of_app; right|done]).
    apply Hlinked in Hpl. revert path Hp Hpl Hpre. intros path Hp Hpl _. revert path Hp Hpl.
    apply (Forall_forall (fun path => path ∉ _)). apply (bool_decide_unpack _). by vm_compute. }
  destruct (settled_mounts linked [] (first_mounts baseline private_tmp)) as [Hs Hl]; [done|by intros ? ? ?%elem_of_nil| |].
  - unfold first_mounts. apply Forall_app_2; [|apply Forall_app_2].
    + apply Forall_forall. intros m (path & Hm & Hin)%list_elem_of_bind. unfold baseline_mounts in Hm.
      destruct (List.find _ baseline) as [link|] eqn:E.
      * apply list_elem_of_singleton in Hm as ->. cbn [is_link fst snd]. apply elem_of_app. left. apply list_elem_of_filter. split; [rewrite E; by eexists|exact Hin].
      * destruct (host_has path); [|by apply elem_of_nil in Hm]. apply list_elem_of_singleton in Hm as ->. cbn [is_link fst snd]. intros place Hpl Hpre.
        assert (place = path) as -> by (apply baseline_apart; [auto|by apply elem_of_app; left|done]).
        apply elem_of_app in Hpl as [[Hsome _]%list_elem_of_filter|Hpl]; [rewrite E in Hsome; by destruct Hsome|].
        apply list_elem_of_singleton in Hpl as ->. apply (bool_decide_eq_true_2 (_ ∈ _)) in Hin. by vm_compute in Hin.
    + repeat constructor; cbn [is_link fst snd]; [by apply elem_of_app; right; left|apply Hother; set_solver..].
    + destruct private_tmp; repeat constructor. cbn [is_link fst snd]. apply Hother; set_solver.
  - split; [done|]. intros path text [[Hsome Hin]%list_elem_of_filter|Hin]%Hl%elem_of_app; apply elem_of_app; [left|by right].
    destruct Hsome as [link Hlink]. by eapply baseline_link_found.
Qed.

Lemma first_mounts_mirrored baseline private_tmp : mirrored (first_mounts baseline private_tmp).
Proof.
  intros path src w. unfold first_mounts. rewrite !elem_of_app. intros [Hin|[Hin|Hin]].
  - apply list_elem_of_bind in Hin as (p & Hm & _). unfold baseline_mounts in Hm. repeat case_match;
      rewrite ?list_elem_of_singleton, ?elem_of_nil in Hm; try done. injection Hm as -> -> ->. auto.
  - set_unfold in Hin. naive_solver.
  - destruct private_tmp; set_unfold in Hin; naive_solver.
Qed.

(** What stands when the policy's mounts are applied. *)
Lemma setup_mounts baseline resolver private_tmp ms :
  clear_of_links baseline resolver ms ->
  let base := foldl apply_op (first_mounts baseline private_tmp) resolver in
  mirrored base /\ settled base = true /\ links_at (sandbox_links baseline resolver) base.
Proof.
  intros Hclear base. split.
  - assert (Hfirst := first_mounts_mirrored baseline private_tmp). unfold base. clear Hclear base.
    revert Hfirst. generalize (first_mounts baseline private_tmp). induction resolver as [|op ops IH]; intros l Hl; [done|].
    cbn. by apply IH, apply_op_mirrored.
  - destruct (first_mounts_settled baseline private_tmp) as [Hs Hl].
    assert (Hl' : links_at (sandbox_links baseline resolver) (first_mounts baseline private_tmp)).
    { intros path text [?|?]%Hl%elem_of_app; unfold sandbox_links; rewrite !elem_of_app; auto. }
    clear Hl. unfold base. clear base. revert Hs Hl'. generalize (first_mounts baseline private_tmp).
    assert (Hops : forall op, op ∈ resolver -> (forall path, op_link op = Some path -> path ∈ sandbox_links baseline resolver) /\
      (forall path, op_mount op = Some path -> clear_of (sandbox_links baseline resolver) path)).
    { intros op Hop. split; intros path Hpath.
      - unfold sandbox_links. rewrite !elem_of_app. right; right. apply list_elem_of_omap. eauto.
      - apply Hclear, elem_of_app. left. apply list_elem_of_omap. eauto. }
    revert Hops. generalize (sandbox_links baseline resolver). clear Hclear. intros places.
    induction resolver as [|op ops IH]; intros Hops l Hs Hl; [done|]. cbn.
    destruct (Hops op) as [H1 H2]; [left|]. destruct (apply_op_settled places l op Hs Hl H1 H2). apply IH; [|done..].
    intros op' Hop'. apply Hops. by right.
Qed.

Lemma mount_args_policy denied_files mode baseline resolver_args ms private_tmp :
  mount_args denied_files mode baseline resolver_args ms private_tmp =
  mount_args denied_files mode baseline resolver_args [] private_tmp ++ (ms ≫= policy_args denied_files).
Proof. unfold mount_args. rewrite <- !app_assoc. cbn [mbind list_bind]. by rewrite app_nil_l. Qed.

(** The policy's mounts, read and laid out. *)
Lemma reads_policy denied_files ms :
  reads host_has (ms ≫= policy_args denied_files)
    (fun s => set_mounts (mounts s ++ ((fun m => (destination m, policy_content denied_files m)) <$> ms)) s).
Proof.
  induction ms as [|m ms IH]; intros rest s; cbn [fmap list_fmap]; [rewrite app_nil_r; by destruct s|].
  rewrite bind_cons, <- app_assoc.
  assert (Hm : forall rest, read_options host_has (policy_args denied_files m ++ rest) s =
    read_options host_has rest (mount_at (destination m) (policy_content denied_files m) s)).
  { intros rest'. unfold policy_args, policy_content. destruct (intent m); [done..|]. by case_decide. }
  rewrite Hm, IH. cbn. by rewrite <- app_assoc.
Qed.

Lemma lays_policy denied_files ms :
  sandbox_layout (ms ≫= policy_args denied_files) = Some ((fun m => (destination m, policy_entry denied_files m)) <$> ms).
Proof.
  induction ms as [|m ms IH]; [done|]. rewrite bind_cons. cbn [fmap list_fmap].
  assert (Hm : forall rest, sandbox_layout (policy_args denied_files m ++ rest) =
    cons (destination m, policy_entry denied_files m) <$> sandbox_layout rest).
  { intros rest. unfold policy_args, policy_entry. destruct (intent m); [done..|]. by case_decide. }
  by rewrite Hm, IH.
Qed.

Definition link_mount (op : LinkOp) : option (string * Content) :=
  match op with MakeDir _ => None | MakeLink path _ text => Some (path, Link text) end.

Lemma reads_links ops :
  exists f, reads host_has (ops ≫= op_args) f /\ forall s,
    mounts (f s) = mounts s ++ omap link_mount ops /\ cwd (f s) = cwd s.
Proof.
  induction ops as [|op ops (f & Hf & Hf')]; [exists id; split; [done|]; intros s; by rewrite app_nil_r|].
  destruct op as [path|path target text].
  - exists (fun s => f (make_dir path s)). split; [intros rest s; rewrite bind_cons, <- app_assoc, <- Hf; done|].
    intros s. by destruct (Hf' (make_dir path s)) as (-> & ->).
  - exists (fun s => f (mount_at path (Link text) s)). split; [intros rest s; rewrite bind_cons, <- app_assoc, <- Hf; done|].
    intros s. destruct (Hf' (mount_at path (Link text) s)) as (-> & ->). split; [|done]. cbn. by rewrite <- app_assoc.
Qed.

Lemma reads_remounts ds :
  reads host_has (ds ≫= fun d => ["--remount-ro"; d]) (fun s => set_mounts (foldl (fun l d => remount d l) (mounts s) ds) s).
Proof. induction ds as [|d ds IH]; intros rest s; [by destruct s|]. rewrite bind_cons, <- app_assoc. exact (IH rest (set_mounts (remount d (mounts s)) s)). Qed.

End Built.

(** ** The environment and the command *)

Definition env_pair (proxied : bool) (entry : string) : option (string * string) :=
  kv ← split_once "="%char entry;
  if proxied && Proxy.is_managed_proxy_key kv.1 then None else Some kv.

Definition proxy_pairs (proxy_address : option ProxyAddress) : list (string * string) :=
  match proxy_address with Some addr => (fun key => (key, to_url addr)) <$> Proxy.PROXY_SET_KEYS | None => [] end.

Definition set_envs (l : list (string * string)) (s : Sandbox) : Sandbox :=
  MkSandbox (namespaces s) (mounts s) (directories s) (cwd s) (cleared s) (env_ s ++ l) (seccomp s) (command s).

Section Environment.
Context (host_has : string -> bool).

Lemma set_envs_nil s : set_envs [] s = s.
Proof. destruct s. unfold set_envs. cbn. by rewrite app_nil_r. Qed.

Lemma set_envs_cons kv l s : set_envs (kv :: l) s = set_envs l (set_env kv.1 kv.2 s).
Proof. unfold set_envs, set_env. cbn. rewrite <- app_assoc. by destruct kv. Qed.

Lemma reads_env proxied entries :
  reads host_has (entries ≫= env_args proxied) (set_envs (omap (env_pair proxied) entries)).
Proof.
  induction entries as [|e l IH]; intros rest s; [by rewrite set_envs_nil|]. rewrite bind_cons, <- app_assoc.
  assert (Ho : omap (env_pair proxied) (e :: l) =
    match env_pair proxied e with Some kv => kv :: omap (env_pair proxied) l | None => omap (env_pair proxied) l end) by done.
  rewrite Ho. clear Ho. unfold env_args at 1, env_pair at 1. destruct (split_once _ e) as [[key value]|]; cbn [mbind option_bind fst]; [|apply IH].
  destruct (proxied && Proxy.is_managed_proxy_key key); [apply IH|]. rewrite set_envs_cons. exact (IH rest (set_env key value s)).
Qed.

Lemma reads_pairs l : reads host_has (l ≫= fun kv => ["--setenv"; kv.1; kv.2]) (set_envs l).
Proof.
  induction l as [|kv l IH]; intros rest s; [by rewrite set_envs_nil|]. rewrite bind_cons, <- app_assoc, set_envs_cons.
  exact (IH rest (set_env kv.1 kv.2 s)).
Qed.

Lemma reads_proxy proxy_address :
  reads host_has match proxy_address with
     | Some addr => Proxy.PROXY_SET_KEYS ≫= fun key => ["--setenv"; key; to_url addr]
     | None => []
     end (set_envs (proxy_pairs proxy_address)).
Proof.
  destruct proxy_address as [addr|]; cbn [proxy_pairs]; [|intros rest s; by rewrite set_envs_nil].
  pose proof (reads_pairs ((fun key => (key, to_url addr)) <$> Proxy.PROXY_SET_KEYS)) as Hr.
  intros rest s. rewrite <- Hr. f_equal.
Qed.

(** The arguments before the command. *)
Definition build_options (r : ExecutionRequest) (proxy_address : option ProxyAddress)
    (denied_files : gset string) (network_mode : ResolvedNetworkMode) (seccomp_fd : option Z)
    (baseline : list BaselineLink) (resolver_args : list string) (mounts : list PolicyMount) (private_tmp : bool)
    (grant_links : list string -> list string) : list string :=
  let args := mount_args denied_files network_mode baseline resolver_args mounts private_tmp in
  args ++ grant_links args
  ++ (omap (masked_directory denied_files) mounts ≫= fun destination => ["--remount-ro"; destination])
  ++ match start_directory r with Some dir => ["--chdir"; dir] | None => [] end
  ++ ["--clearenv"] ++ (resolved_env r ≫= env_args (bool_decide (is_Some proxy_address)))
  ++ match proxy_address with
     | Some addr => Proxy.PROXY_SET_KEYS ≫= fun key => ["--setenv"; key; to_url addr]
     | None => []
     end
  ++ match seccomp_fd with Some fd => ["--seccomp"; dec fd] | None => [] end.

Lemma build_args_command r proxy_address denied_files mode seccomp_fd baseline resolver_args ms private_tmp grant_links :
  build_args_classified_with_mode r proxy_address denied_files mode seccomp_fd baseline resolver_args ms private_tmp grant_links =
  build_options r proxy_address denied_files mode seccomp_fd baseline resolver_args ms private_tmp grant_links
    ++ COMMAND_TAIL ++ [script_code r].
Proof. unfold build_args_classified_with_mode, build_options. by rewrite <- !app_assoc. Qed.

(** A file bound read-only after everything else. *)
Definition pin_args (pin : string * string) : list string := ["--ro-bind"; pin.1; pin.2].
Definition pin_mount (pin : string * string) : string * Content := (pin.2, HostTree pin.1 false).

Lemma reads_pins pins : reads host_has (pins ≫= pin_args) (fun s => set_mounts (mounts s ++ (pin_mount <$> pins)) s).
Proof.
  induction pins as [|pin pins IH]; intros rest s; cbn [fmap list_fmap]; [rewrite app_nil_r; by destruct s|].
  rewrite bind_cons, <- app_assoc. transitivity (read_options host_has ((pins ≫= pin_args) ++ rest) (mount_at pin.2 (HostTree pin.1 false) s)); [done|].
  rewrite IH. cbn. by rewrite <- app_assoc.
Qed.

(** The mounts of a vector, before its pins. *)
Definition all_mounts (denied_files : gset string) (baseline : list BaselineLink) (resolver : list ResolverOp)
    (ms : list PolicyMount) (private_tmp : bool) (ops : list LinkOp) : list (string * Content) :=
  foldl (fun l d => remount d l)
    (foldl apply_op (first_mounts host_has baseline private_tmp) resolver
     ++ ((fun m => (destination m, policy_content denied_files m)) <$> ms) ++ omap link_mount ops)
    (omap (masked_directory denied_files) ms).

(** The whole argument vector, read, with options about the process in front of
    it and pins before its command. *)
Lemma read_built front f0 pins r proxy_address denied_files mode seccomp_fd baseline resolver ms private_tmp grant_links ops :
  reads host_has front f0 -> mounts (f0 fresh) = [] -> cwd (f0 fresh) = None ->
  grant_links (mount_args denied_files mode baseline (resolver ≫= resolver_op_args) ms private_tmp) = ops ≫= op_args ->
  exists s,
    read_options host_has (front ++ build_options r proxy_address denied_files mode seccomp_fd baseline
      (resolver ≫= resolver_op_args) ms private_tmp grant_links ++ (pins ≫= pin_args) ++ COMMAND_TAIL ++ [script_code r]) fresh = Some s /\
    mounts s = all_mounts denied_files baseline resolver ms private_tmp ops ++ (pin_mount <$> pins) /\
    cleared s = true /\
    env_ s = omap (env_pair (bool_decide (is_Some proxy_address))) (resolved_env r) ++ proxy_pairs proxy_address /\
    cwd s = start_directory r /\ command s = ["sh"; "-c"; script_code r].
Proof.
  intros Hfront Hm0 Hc0 Hlinks. unfold build_options. rewrite Hlinks, mount_args_policy.
  destruct (sets_up_setup host_has denied_files mode baseline resolver private_tmp) as [(f & Hf & Hbase) _].
  destruct (reads_links host_has ops) as (g & Hg & Hops).
  destruct (Hbase (f0 fresh)) as [Hmounts Hcwd]. rewrite Hm0 in Hmounts. cbn [app] in Hmounts.
  set (granted := set_mounts (mounts (f (f0 fresh)) ++ ((fun m => (destination m, policy_content denied_files m)) <$> ms)) (f (f0 fresh))).
  set (mounted := set_mounts (foldl (fun l d => remount d l) (mounts (g granted)) (omap (masked_directory denied_files) ms)) (g granted)).
  assert (Hchdir : exists h, reads host_has match start_directory r with Some dir => ["--chdir"; dir] | None => [] end h /\
    mounts (h mounted) = mounts mounted /\ cwd (h mounted) = start_directory r).
  { destruct (start_directory r) as [dir|]; [by exists (chdir dir)|]. exists id. split_and!; [done..|].
    unfold mounted. cbn. by rewrite (proj2 (Hops _)), <- Hc0. }
  destruct Hchdir as (h & Hh & Hm & Hc). eexists.
  rewrite <- !app_assoc, Hfront, Hf, reads_policy, Hg, reads_remounts. fold granted mounted. rewrite Hh.
  assert (Hclear : reads host_has ["--clearenv"] clear_env) by done. rewrite Hclear, reads_env, reads_proxy.
  assert (Hfd : reads host_has match seccomp_fd with Some fd => ["--seccomp"; dec fd] | None => [] end
    (match seccomp_fd with Some fd => set_seccomp (dec fd) | None => id end)) by (by destruct seccomp_fd). rewrite Hfd, reads_pins.
  split; [reflexivity|].
  assert (Hms : mounts mounted = all_mounts denied_files baseline resolver ms private_tmp ops).
  { unfold mounted, all_mounts. cbn. rewrite (proj1 (Hops _)). cbn. by rewrite <- app_assoc, Hmounts. }
  rewrite <- Hms. destruct seccomp_fd; cbn; by rewrite Hm.
Qed.

(** The vector on its own. *)
Lemma read_alone r proxy_address denied_files mode seccomp_fd baseline resolver ms private_tmp grant_links ops :
  grant_links (mount_args denied_files mode baseline (resolver ≫= resolver_op_args) ms private_tmp) = ops ≫= op_args ->
  exists s,
    read_options host_has (build_args_classified_with_mode r proxy_address denied_files mode seccomp_fd baseline
      (resolver ≫= resolver_op_args) ms private_tmp grant_links) fresh = Some s /\
    mounts s = all_mounts denied_files baseline resolver ms private_tmp ops /\ cleared s = true /\
    env_ s = omap (env_pair (bool_decide (is_Some proxy_address))) (resolved_env r) ++ proxy_pairs proxy_address /\
    cwd s = start_directory r /\ command s = ["sh"; "-c"; script_code r].
Proof.
  intros Hlinks. rewrite build_args_command.
  destruct (read_built [] id [] r proxy_address denied_files mode seccomp_fd baseline resolver ms private_tmp grant_links ops)
    as (s & Hs & Hm & Hrest); [apply reads_nil|done..|]. exists s. cbn [app] in Hs. cbn [fmap list_fmap] in Hm.
  rewrite app_nil_r in Hm. done.
Qed.

End Environment.

(** Mounts of the policy that are clear of the links stay where they are put. *)
Section Settled.
Context (host_has : string -> bool) (denied_files : gset string) (baseline : list BaselineLink) (resolver : list ResolverOp).
Context (ms : list PolicyMount) (private_tmp : bool).
Hypothesis clear : clear_of_links baseline resolver ms.

Lemma policy_mounts_settled :
  let l := foldl apply_op (first_mounts host_has baseline private_tmp) resolver
    ++ ((fun m => (destination m, policy_content denied_files m)) <$> ms) in
  settled l = true /\ links_at (sandbox_links baseline resolver) l.
Proof.
  destruct (setup_mounts host_has baseline resolver private_tmp ms clear) as (_ & Hs & Hl).
  apply settled_mounts; [done..|]. apply Forall_fmap, Forall_forall. intros m Hm. cbn [compose fst snd].
  assert (Hnot : is_link (policy_content denied_files m) = false) by (unfold policy_content; by repeat case_match).
  rewrite Hnot. apply clear, elem_of_app. right. apply list_elem_of_fmap. eauto.
Qed.

Lemma settled_remounts ds l : settled (foldl (fun l d => remount d l) l ds) = settled l.
Proof. revert l. induction ds as [|d ds IH]; intros l; [done|]. cbn. by rewrite IH, settled_remount. Qed.

Lemma links_at_remounts places ds l : links_at places l -> links_at places (foldl (fun l d => remount d l) l ds).
Proof.
  revert l. induction ds as [|d ds IH]; intros l Hl; [done|]. cbn. apply IH.
  intros path text [Hin|(c & Hin & Hc)]%remount_elem; [by eapply Hl|]. cbn in *. destruct c; try done. by eapply Hl.
Qed.

Lemma all_mounts_settled ops : settled (all_mounts host_has denied_files baseline resolver ms private_tmp ops) = true.
Proof.
  unfold all_mounts. rewrite settled_remounts, app_assoc. destruct policy_mounts_settled as [Hs _]. cbv zeta in Hs.
  set (l := _ ++ (_ <$> ms)) in *. unfold settled in *. rewrite settled_after_app, Hs. cbn [andb app].
  generalize l. clear. induction ops as [|op ops IH]; intros l; [done|]. destruct op as [|path target text]; [apply IH|].
  change (omap link_mount (MakeLink path target text :: ops)) with ((path, Link text) :: omap link_mount ops).
  cbn [settled_after]. rewrite IH. done.
Qed.

(** Without links of grants, pins clear of the other links stay put as well. *)
Lemma pins_settled pins :
  Forall (fun pin : string * string => clear_of (sandbox_links baseline resolver) pin.2) pins ->
  settled (all_mounts host_has denied_files baseline resolver ms private_tmp [] ++ (pin_mount <$> pins)) = true.
Proof.
  intros Hpins. apply (settled_mounts (sandbox_links baseline resolver)); [apply all_mounts_settled| |by apply Forall_fmap].
  apply links_at_remounts. change (omap link_mount []) with (@nil (string * Content)). rewrite app_nil_r. by destruct policy_mounts_settled.
Qed.

End Settled.

(** ** What the policy decides *)

(** The policy mount at a path: the last at or above it. *)
Definition policy_top (ms : list PolicyMount) (q : list UnixPath.Component) : option PolicyMount :=
  last (filter (fun m => UnixPath.components (destination m) `prefix_of` q) ms).

(** Nothing but a mask is at the place of a mask. *)
Definition masks_stay (denied_files : gset string) (ms : list PolicyMount) (q : list UnixPath.Component) : Prop :=
  forall m d, policy_top ms q = Some m -> d ∈ omap (masked_directory denied_files) ms ->
    UnixPath.path_eq (destination m) d = true -> intent m = Denied.

Section Decides.
Context (denied_files : gset string) (base : list (string * Content)) (ms : list PolicyMount) (q : list UnixPath.Component).
Context (ops : list LinkOp) (layout : list (string * SandboxEntry)).
Hypothesis base_ok : mirrored base.
Hypothesis ops_free : forall op, op ∈ ops ->
  link_placement (op_path op) (layout ++ ((fun m => (destination m, policy_entry denied_files m)) <$> ms)) = Create.

Lemma top_policy :
  top ((fun m => (destination m, policy_content denied_files m)) <$> ms) q =
  (fun m => (destination m, policy_content denied_files m)) <$> policy_top ms q.
Proof. apply top_fmap. Qed.

(** A link above [q] is below a mask, which is the policy's mount at [q]. *)
Lemma link_below_mask m path text :
  policy_top ms q = Some m -> top (omap link_mount ops) q = Some (path, Link text) ->
  masked_directory denied_files m = Some (destination m) /\
  UnixPath.components (destination m) `prefix_of` UnixPath.components path /\
  UnixPath.components (destination m) <> UnixPath.components path.
Proof.
  intros Hm [Hin Hcov]%top_Some. unfold covers_path in Hcov. cbn in Hcov.
  apply list_elem_of_omap in Hin as (op & Hop & Hlink). destruct op as [|path' target text']; [done|].
  injection Hlink as -> ->. specialize (ops_free _ Hop). cbn [op_path] in ops_free.
  apply last_filter_split in Hm as (l1 & l2 & -> & Hpre & Hl2).
  rewrite fmap_app, fmap_cons, app_assoc in ops_free.
  apply (placement_free path q) in ops_free as (He & Hp & Hne); [|done|done| | |].
  - split; [|done]. unfold policy_entry in He. unfold masked_directory. repeat case_match; done.
  - intros e (m' & -> & Hm')%list_elem_of_fmap. by apply Hl2.
  - unfold policy_entry. by repeat case_match.
  - intros t. unfold policy_entry. by repeat case_match.
Qed.

Lemma masked_at m : masked_directory denied_files m = Some (destination m) -> m ∈ ms ->
  existsb (fun d => at_path d (destination m, policy_content denied_files m)) (omap (masked_directory denied_files) ms) = true.
Proof.
  intros Hm Hin. apply existsb_exists. exists (destination m). split.
  - apply list_elem_of_In, list_elem_of_omap. by exists m.
  - unfold at_path, UnixPath.path_eq. cbn. by apply bool_decide_eq_true_2.
Qed.

Definition seen (s : Sandbox) : Prop :=
  match policy_top ms q with
  | Some m =>
      let below := drop (length (UnixPath.components (destination m))) q in
      match intent m with
      | ReadWrite => access (mounts s) q = Host (UnixPath.components (source m) ++ below) true
      | ReadOnly => access (mounts s) q = Host (UnixPath.components (source m) ++ below) false
      | Denied =>
          if decide (source m ∈ denied_files) then access (mounts s) q = Host (UnixPath.components "/dev/null" ++ below) false
          else access (mounts s) q = Sandboxed false \/
            exists path target text, MakeLink path target text ∈ ops /\ access (mounts s) q = Leads text /\
              UnixPath.components path `prefix_of` q /\
              UnixPath.components (destination m) `prefix_of` UnixPath.components path /\
              UnixPath.components (destination m) <> UnixPath.components path
      end
  | None => forall path, access (mounts s) q <> Host path true
  end.

Lemma policy_seen s :
  masks_stay denied_files ms q ->
  mounts s = foldl (fun l d => remount d l)
    (base ++ ((fun m => (destination m, policy_content denied_files m)) <$> ms) ++ omap link_mount ops)
    (omap (masked_directory denied_files) ms) -> seen s.
Proof.
  intros Hstay Hs. unfold seen, access. rewrite Hs, top_remounts, !top_app, top_policy.
  destruct (policy_top ms q) as [m|] eqn:Hm.
  - assert (Hin : m ∈ ms) by (apply last_Some_elem_of, list_elem_of_filter in Hm; by destruct Hm).
    destruct (top (omap link_mount ops) q) as [[path c]|] eqn:Hl.
    + pose proof Hl as [Hop Hcov]%top_Some. apply list_elem_of_omap in Hop as (op & Hop & Hlink).
      destruct op as [|path' target text]; [done|]. injection Hlink as -> <-.
      destruct (link_below_mask m path text Hm Hl) as (Hmask & Hp & Hne). unfold masked_directory in Hmask.
      destruct (intent m) eqn:Hi; [done..|]. case_decide; [done|]. right. exists path, target, text.
      split_and!; [done| |exact Hcov|done..]. cbn. by destruct (existsb _ _).
    + cbn. destruct (intent m) eqn:Hi; cycle 2.
      * case_decide as Hd.
        -- unfold policy_content. rewrite Hi, decide_True by done. by destruct (existsb _ _).
        -- left. rewrite masked_at; [|unfold masked_directory; by rewrite Hi, decide_False|done].
           unfold policy_content. by rewrite Hi, decide_False.
      * destruct (existsb _ _) eqn:Hex; unfold policy_content; rewrite Hi; [|done].
        apply existsb_exists in Hex as (d & Hd%list_elem_of_In & Hat). rewrite (Hstay m d Hm Hd Hat) in Hi. done.
      * destruct (existsb _ _); unfold policy_content; by rewrite Hi.
  - intros path. destruct (top (omap link_mount ops) q) as [[p c]|] eqn:Hl.
    + apply top_Some in Hl as [Hop _]. apply list_elem_of_omap in Hop as ([|? ? ?] & _ & Hlink); [done|]. injection Hlink as <- <-.
      cbn. by destruct (existsb _ _).
    + cbn. destruct (top base q) as [[p c]|] eqn:Hb; [|done]. apply top_Some in Hb as [Hb _]. cbn.
      destruct (existsb _ _); destruct c as [src w| | | |]; cbn; try done. intros [= _ ->]. by destruct (base_ok p src true Hb).
Qed.

End Decides.

(** ** The policy as written *)

Section Policy.
Context (p : ContainerPolicy) (q : list string).
Hypothesis p_plain : plain_policy p.

Lemma policy_top_plan :
  policy_top (policy_mounts p) (path_of q) =
  (fun m => MkPolicyMount (mount_path m) (mount_path m) (mount_intent m)) <$> last_covering (resolve_mount_order p) q.
Proof. unfold policy_top, policy_mounts. rewrite last_fmap_filter. cbn. by rewrite last_covering_components. Qed.

Lemma most_specific_top m :
  most_specific (tagged (readwrite_paths p) (readonly_paths p) (denied_paths p)) q m ->
  policy_top (policy_mounts p) (path_of q) = Some (MkPolicyMount (mount_path m) (mount_path m) (mount_intent m)).
Proof. intros Hm. rewrite policy_top_plan. by rewrite (most_specific_covering p q p_plain m Hm). Qed.

Lemma policy_masks_stay denied_files : masks_stay denied_files (policy_mounts p) (path_of q).
Proof.
  intros m d Hm Hd Heq. rewrite policy_top_plan in Hm.
  pose proof (last_covering_spec (readwrite_paths p) (readonly_paths p) (denied_paths p) q) as Hspec.
  unfold resolve_mount_order in Hm. destruct (last_covering _ q) as [m'|]; [|done]. injection Hm as <-. cbn in *.
  destruct Hspec as (Hin & Hcov & Hmax).
  apply list_elem_of_omap in Hd as (md & Hmd & Hmask). apply list_elem_of_fmap in Hmd as (m2 & -> & Hm2%plan_elem_of).
  unfold masked_directory in Hmask. cbn in Hmask. destruct (mount_intent m2) eqn:Hi2; [done..|]. case_decide; [done|]. injection Hmask as <-.
  unfold UnixPath.path_eq in Heq. apply bool_decide_eq_true in Heq.
  destruct (plain_path_prefix p p_plain _ _ Hin) as [E1 _], (plain_path_prefix p p_plain _ _ Hm2) as [E2 _]. rewrite E1, E2 in Heq.
  injection Heq as Heq. apply (inj (fmap UnixPath.Normal)) in Heq. unfold covers in Hcov. rewrite Heq in Hcov.
  destruct (Hmax _ _ Hm2 Hcov) as [Hlt|[_ Hr]]; [rewrite Heq in Hlt; lia|]. cbn in Hr. destruct (mount_intent m'); cbn in *; lia || done.
Qed.

End Policy.

(** The planner's options are at free places among the mounts. *)
Lemma links_free denied_files mode baseline resolver ms private_tmp ops :
  Forall (op_ok (place_in (mount_args denied_files mode baseline (resolver ≫= resolver_op_args) ms private_tmp))) ops ->
  exists layout, forall op, op ∈ ops ->
    link_placement (op_path op) (layout ++ ((fun m => (destination m, policy_entry denied_files m)) <$> ms)) = Create.
Proof.
  intros Hok. destruct (sets_up_setup (fun _ => true) denied_files mode baseline resolver private_tmp) as (_ & layout & Hl).
  exists layout. rewrite Forall_forall in Hok. intros op Hop. destruct (Hok op Hop) as [Hplace _].
  unfold place_in in Hplace. by rewrite mount_args_policy, Hl, lays_policy in Hplace.
Qed.

(** The links a planner makes among the mounts of a vector, and what the policy
    decides at a path in a sandbox with these mounts. *)
Lemma policy_decides host_has p denied_files mode baseline resolver private_tmp grants q :
  plain_policy p -> clear_of_links baseline resolver (policy_mounts p) ->
  exists ops,
    plan_args (plan_grant_links (mount_args denied_files mode baseline (resolver ≫= resolver_op_args) (policy_mounts p) private_tmp) grants)
      = ops ≫= op_args /\
    forall s, mounts s = all_mounts host_has denied_files baseline resolver (policy_mounts p) private_tmp ops ->
      seen denied_files (policy_mounts p) (path_of q) ops s.
Proof.
  intros Hp Hclear. set (margs := mount_args denied_files mode baseline (resolver ≫= resolver_op_args) (policy_mounts p) private_tmp).
  destruct (plan_grant_links_ops margs grants) as (ops & Hops & Hok & _). exists ops. split; [done|]. intros s Hs.
  destruct (links_free denied_files mode baseline resolver (policy_mounts p) private_tmp ops Hok) as (layout & Hfree).
  destruct (setup_mounts host_has baseline resolver private_tmp _ Hclear) as (Hbase & _).
  by apply (policy_seen denied_files _ (policy_mounts p) (path_of q) ops layout Hbase Hfree s (policy_masks_stay p q Hp denied_files)).
Qed.

(** C5. Bubblewrap shows of the host what the policy says.  Take a policy whose
    paths are written without redundancy and, like the resolver's mounts, neither
    at nor below a place where the sandbox has a link by then ([/var/run], the
    links that stand for linked baseline directories, the resolver's links).  The
    argument vector built for the request is read by [bwrap] to its end, and no
    mount in it is applied through a link.  In the sandbox it sets up, the policy
    path that is most specific at a path decides what is there: the same path of
    the host, writable only under readwritePaths; for deniedPaths [/dev/null] or an
    unwritable private directory, in which a link to an aliased grant may stand;
    and a path below none of the policy's is never a writable path of the host.
    The process gets nothing of the caller's environment. *)
Theorem bwrap_enforces_filesystem_policy host_has r proxy_address denied_files mode seccomp_fd baseline resolver private_tmp
    grants q :
  let p := policy r in
  let entries := tagged (readwrite_paths p) (readonly_paths p) (denied_paths p) in
  plain_policy p -> clear_of_links baseline resolver (policy_mounts p) ->
  exists s,
    read_options host_has (build_args_classified_with_mode r proxy_address denied_files mode seccomp_fd baseline
      (resolver ≫= resolver_op_args) (policy_mounts p) private_tmp (fun args => plan_args (plan_grant_links args grants))) fresh
      = Some s /\
    settled (mounts s) = true /\ cleared s = true /\ command s = ["sh"; "-c"; script_code r] /\
    (forall m, most_specific entries q m ->
      match mount_intent m with
      | ReadWrite => access (mounts s) (path_of q) = Host (path_of q) true
      | ReadOnly => access (mounts s) (path_of q) = Host (path_of q) false
      | Denied =>
          if decide (mount_path m ∈ denied_files)
          then access (mounts s) (path_of q) = Host (path_of ["dev"; "null"] ++ drop (S (length (from_path (mount_path m)))) (path_of q)) false
          else access (mounts s) (path_of q) = Sandboxed false \/ exists text, access (mounts s) (path_of q) = Leads text
      end) /\
    ((forall path intent, (path, intent) ∈ entries -> ~ from_path path `prefix_of` q) ->
      forall path, access (mounts s) (path_of q) <> Host path true).
Proof.
  intros p entries Hp Hclear.
  destruct (policy_decides host_has p denied_files mode baseline resolver private_tmp grants q Hp Hclear) as (ops & Hops & Hseen).
  destruct (read_alone host_has r proxy_address denied_files mode seccomp_fd baseline resolver (policy_mounts p) private_tmp
    (fun args => plan_args (plan_grant_links args grants)) ops Hops) as (s & Hread & Hm & Hc & _ & _ & Hcmd).
  specialize (Hseen s Hm). unfold seen in Hseen. exists s.
  split_and!; [done|rewrite Hm; by apply all_mounts_settled|done..| |].
  - intros m Hms. rewrite (most_specific_top p q Hp m Hms) in Hseen. cbn in Hseen. destruct Hms as (Hin & Hcov & _).
    destruct (plain_path_prefix p Hp _ _ Hin) as [Hcomp _]. rewrite Hcomp in Hseen.
    assert (Hjoin : path_of (from_path (mount_path m)) ++ drop (length (path_of (from_path (mount_path m)))) (path_of q) = path_of q).
    { apply path_of_prefix in Hcov as [k ->]. by rewrite drop_app_length. }
    destruct (mount_intent m); [by rewrite Hseen, Hjoin..|]. case_decide.
    + assert (Hlen : S (length (from_path (mount_path m))) = length (path_of (from_path (mount_path m))))
        by (unfold path_of; cbn; by rewrite length_fmap). rewrite Hlen. exact Hseen.
    + destruct Hseen as [?|(? & ? & text & _ & ? & _)]; [by left|right; by exists text].
  - intros Hno. rewrite policy_top_plan in Hseen by done. unfold resolve_mount_order in Hseen.
    pose proof (last_covering_spec (readwrite_paths p) (readonly_paths p) (denied_paths p) q) as Hspec.
    destruct (last_covering _ q) as [m|]; [|exact Hseen]. destruct Hspec as (Hin & Hcov & _). by destruct (Hno _ _ Hin).
Qed.

Definition nested_request : ExecutionRequest :=
  MkRequest None "" (Some ["HTTP_PROXY=http://other:1"; "A=1"]) false "ls" "/srv" 0 Bubblewrap LifecycleConfig_default
    (set_paths ContainerPolicy_default ["/srv"; "/srv/secret/out"] ["/srv/data"] ["/srv/secret"])
    (MkLxc "" "") None None None None None None None None false false.

Lemma nested_policy_plain : plain_policy (policy nested_request).
Proof.
  intros path intent Hin. cut (plain (from_path path) /\ path = UnixPath.absolute (from_path path)); [by eexists|].
  change path with ((path, intent).1). revert Hin. generalize (path, intent). apply Forall_forall.
  repeat constructor.
Qed.

Lemma nested_most_specific :
  let p := policy nested_request in
  most_specific (tagged (readwrite_paths p) (readonly_paths p) (denied_paths p)) ["srv"; "secret"; "out"; "x"]
    (MkMount "/srv/secret/out" ReadWrite).
Proof.
  intros p. split_and!; [apply (bool_decide_unpack _); by vm_compute..|].
  intros path intent Hin _. unfold depth. cbn [mount_path mount_intent].
  change path with ((path, intent).1). change intent with ((path, intent).2) at 3. revert Hin. generalize (path, intent).
  apply Forall_forall. apply (bool_decide_unpack _). by vm_compute.
Qed.

(** Two baseline directories are links into [/usr], and the resolver's file is
    copied into the sandbox. *)
Definition usr_links : list BaselineLink := [MkBaselineLink "/bin" "usr/bin"; MkBaselineLink "/lib" "usr/lib"].
Definition stub_resolver : list ResolverOp :=
  [RTmpfs "/run/systemd/resolve"; RFile "7" "/run/systemd/resolve/stub-resolv.conf"; RRemount "/run/systemd/resolve"].

Lemma nested_clear : clear_of_links usr_links stub_resolver (policy_mounts (policy nested_request)).
Proof.
  assert (Hall : Forall (fun path => Forall (fun place => ~ UnixPath.components place `prefix_of` UnixPath.components path)
    (sandbox_links usr_links stub_resolver))
    (omap op_mount stub_resolver ++ (destination <$> policy_mounts (policy nested_request))))
    by (apply (bool_decide_unpack _); by vm_compute).
  intros path Hpath place Hplace. rewrite Forall_forall in Hall. specialize (Hall path Hpath). rewrite Forall_forall in Hall. by apply Hall.
Qed.

Lemma bwrap_enforces_filesystem_policy_witness :
  exists s, read_options (fun _ => true)
    (build_args_classified_with_mode nested_request None ∅ Isolated None usr_links (stub_resolver ≫= resolver_op_args)
      (policy_mounts (policy nested_request)) true (fun args => plan_args (plan_grant_links args []))) fresh = Some s /\
    access (mounts s) (path_of ["srv"; "secret"; "out"; "x"]) = Host (path_of ["srv"; "secret"; "out"; "x"]) true.
Proof.
  destruct (bwrap_enforces_filesystem_policy (fun _ => true) nested_request None ∅ Isolated None usr_links stub_resolver true []
    ["srv"; "secret"; "out"; "x"] nested_policy_plain nested_clear) as (s & Hs & _ & _ & _ & Hm & _).
  exists s. split; [exact Hs|]. exact (Hm (MkMount "/srv/secret/out" ReadWrite) nested_most_specific).
Defined.

(** ** The environment *)

Lemma last_value_app key l1 l2 :
  DefaultEnv.last_value key (l1 ++ l2) =
  match DefaultEnv.last_value key l2 with Some v => Some v | None => DefaultEnv.last_value key l1 end.
Proof. unfold DefaultEnv.last_value. rewrite filter_app, last_app. by destruct (last (filter _ l2)). Qed.

Lemma proxy_pairs_value key addr :
  DefaultEnv.last_value key (proxy_pairs (Some addr)) = if decide (key ∈ Proxy.PROXY_SET_KEYS) then Some (to_url addr) else None.
Proof.
  unfold DefaultEnv.last_value, proxy_pairs. generalize Proxy.PROXY_SET_KEYS. intros keys. rewrite last_fmap_filter. cbn.
  destruct (last (filter (fun k => k = key) keys)) as [k|] eqn:E; cbn.
  - apply last_Some_elem_of, list_elem_of_filter in E as [-> Hin]. by rewrite decide_True.
  - rewrite decide_False; [done|]. intros Hin. apply last_None in E.
    assert (Hk : key ∈ filter (fun k => k = key) keys) by (by apply list_elem_of_filter). rewrite E in Hk. by apply elem_of_nil in Hk.
Qed.

Lemma proxy_keys_managed key : key ∈ Proxy.PROXY_SET_KEYS -> Proxy.is_managed_proxy_key key = true.
Proof. revert key. apply Forall_forall. repeat constructor. Qed.

Lemma env_pair_values proxied entries key :
  DefaultEnv.last_value key (omap (env_pair proxied) entries) =
  if proxied && Proxy.is_managed_proxy_key key then None else DefaultEnv.last_value key (DefaultEnv.env_pairs entries).
Proof.
  induction entries as [|e l IH] using rev_ind; [by destruct (_ && _)|].
  unfold DefaultEnv.env_pairs in *. rewrite !omap_app, !last_value_app, IH. cbn [omap list_omap]. unfold env_pair at 1.
  destruct (split_once "=" e) as [[k v]|]; cbn [mbind option_bind fst]; [|done].
  destruct (decide (k = key)) as [->|Hne].
  - destruct (proxied && Proxy.is_managed_proxy_key key); [done|].
    unfold DefaultEnv.last_value. by rewrite filter_cons_True.
  - assert (Hv : DefaultEnv.last_value key [(k, v)] = None) by (unfold DefaultEnv.last_value; by rewrite filter_cons_False).
    rewrite Hv. by destruct (proxied && Proxy.is_managed_proxy_key k); [|rewrite Hv].
Qed.

(** C38. The environment of a Bubblewrap sandbox: it is cleared first, and a name
    then has the value the request's environment gives it last, except that under
    a proxy no name that steers proxying is taken from the request: those the
    runner sets have the proxy's URL, the others are not set. *)
Theorem bwrap_environment host_has r proxy_address denied_files mode seccomp_fd baseline resolver ms private_tmp grants :
  exists s,
    read_options host_has (build_args_classified_with_mode r proxy_address denied_files mode seccomp_fd baseline
      (resolver ≫= resolver_op_args) ms private_tmp (fun args => plan_args (plan_grant_links args grants))) fresh = Some s /\
    cleared s = true /\ cwd s = start_directory r /\ command s = ["sh"; "-c"; script_code r] /\
    forall key, DefaultEnv.last_value key (env_ s) =
      match proxy_address with
      | Some addr =>
          if Proxy.is_managed_proxy_key key
          then if decide (key ∈ Proxy.PROXY_SET_KEYS) then Some (to_url addr) else None
          else DefaultEnv.last_value key (DefaultEnv.env_pairs (resolved_env r))
      | None => DefaultEnv.last_value key (DefaultEnv.env_pairs (resolved_env r))
      end.
Proof.
  set (margs := mount_args denied_files mode baseline (resolver ≫= resolver_op_args) ms private_tmp).
  destruct (plan_grant_links_ops margs grants) as (ops & Hops & _ & _).
  destruct (read_alone host_has r proxy_address denied_files mode seccomp_fd baseline resolver ms private_tmp
    (fun args => plan_args (plan_grant_links args grants)) ops Hops) as (s & Hread & _ & Hc & Henv & Hcwd & Hcmd).
  exists s. split_and!; [done..|]. intros key. rewrite Henv, last_value_app, env_pair_values.
  destruct proxy_address as [addr|]; cbn [bool_decide]; [|done]. rewrite proxy_pairs_value.
  change (bool_decide (is_Some (Some addr))) with true. cbn [andb].
  case_decide as Hk; [by rewrite (proxy_keys_managed key Hk)|]. done.
Qed.

End BwrapView.
