(* ===== verification/LxcMounts.v ===== *)
(** * File-system access of an LXC container

    [backends/lxc/common/filesystem_mounts.rs] and the parts of
    [lxc_bindings.rs] that write the container's configuration: the mount entry
    of each policy path, in the order of the plan, and the block of the
    configuration that holds them.  The configuration is read back the way LXC
    documents its [lxc.mount.entry] lines, each a line of [fstab], mounted in
    order. *)

From Stdlib Require Import Ascii.
From stdpp Require Import gmap.
From S2P Require Import Prelude Models Requests UnixPath FsPolicy MountView.

Module LxcMounts.
Export MountView.

(** ** Lines *)

Definition nl : ascii := ascii_of_nat 10.
Definition cr : ascii := ascii_of_nat 13.

(** [str::lines]: a line break is a line feed, with a carriage return before it
    taken off; the text after the last one is a line if it is not empty. *)
Definition strip_cr (s : string) : string := default s (strip_suffix_char cr s).

Fixpoint cut_lines (pieces : list string) : list string :=
  match pieces with
  | [] => []
  | [tail] => if bool_decide (tail = "") then [] else [tail]
  | piece :: rest => strip_cr piece :: cut_lines rest
  end.

Definition lines (s : string) : list string := cut_lines (string_split nl s).

(** Each line with its line feed. *)
Definition unlines (l : list string) : string := string_concat ((fun s => s +:+ String nl "") <$> l).

(** ** [lxc_bindings.rs] *)

Definition MANAGED_MOUNTS_BEGIN : string := "# BEGIN MXC managed mounts (rewritten every run)".
Definition MANAGED_MOUNTS_END : string := "# END MXC managed mounts".

Record MountShape : Type := MkShape {
  filesystem : string;
  options : string;
}.

Definition entry (self : MountShape) (source target : string) : string :=
  source +:+ " " +:+ target +:+ " " +:+ filesystem self +:+ " " +:+ options self +:+ " 0 0".

Definition MOUNT_READWRITE : MountShape := MkShape "none" "bind,create=dir".
Definition MOUNT_READONLY : MountShape := MkShape "none" "bind,ro,create=dir".
Definition MASK_FILE : MountShape := MkShape "none" "bind,ro,create=file".
Definition MASK_DIR_HOLDING_MOUNTPOINTS : MountShape := MkShape "tmpfs" "size=1m,create=dir".
Definition MASK_DIR : MountShape := MkShape "tmpfs" "ro,size=0,create=dir".

(** One line of the loop of [strip_managed_mount_entries]. *)
Definition strip_line (st : string * bool) (line : string) : string * bool :=
  let '(out, inside) := st in
  if bool_decide (trim line = MANAGED_MOUNTS_BEGIN) then (out, true)
  else if bool_decide (trim line = MANAGED_MOUNTS_END) then (out, false)
  else if (inside : bool) then (out, inside)
  else (out +:+ line +:+ String nl "", inside).

Definition strip_managed_mount_entries (config : string) : string :=
  fst (foldl strip_line ("", false) (lines config)).

Definition ends_with_char (c : ascii) (s : string) : bool := bool_decide (is_Some (strip_suffix_char c s)).

(** The text [set_filesystem_access_points] writes. *)
Definition rewritten (existing : string) (entries : list string) : string :=
  let out := strip_managed_mount_entries existing in
  match entries with
  | [] => out
  | _ =>
      let out := if negb (bool_decide (out = "")) && negb (ends_with_char nl out) then out +:+ String nl "" else out in
      foldl (fun out entry => out +:+ "lxc.mount.entry = " +:+ entry +:+ String nl "")
        (out +:+ MANAGED_MOUNTS_BEGIN +:+ String nl "") entries
      +:+ MANAGED_MOUNTS_END +:+ String nl ""
  end.

(** What the file operations answer: the configuration's text, and whether the
    staged file can be written and renamed over it. *)
Record ConfigFile : Type := MkConfigFile {
  contents : result string string;
  staged : result string unit;
  installed : result string unit;
}.

(** The outcome and the configuration afterwards. *)
Definition set_filesystem_access_points (config_path : string) (file : ConfigFile) (entries : list string)
    : result string unit * result string string :=
  let temp_path := config_path +:+ ".mxc-tmp" in
  match contents file with
  | Err e =>
      (Err ("Failed to read container config to replace its mount entries: " +:+ e +:+ " (config file: " +:+ config_path +:+ ")"),
       contents file)
  | Ok existing =>
      match staged file with
      | Err e => (Err ("Failed to stage rewritten container config: " +:+ e +:+ " (temp file: " +:+ temp_path +:+ ")"), contents file)
      | Ok _ =>
          match installed file with
          | Err e =>
              (Err ("Failed to install rewritten container config: " +:+ e +:+ " (config file: " +:+ config_path +:+ ")"), contents file)
          | Ok _ => (Ok tt, Ok (rewritten existing entries))
          end
      end
  end.

(** ** [filesystem_mounts.rs] *)

(** [PathBuf::pop] and the text of components. *)
Definition pop (path : list UnixPath.Component) : list UnixPath.Component := default path (UnixPath.parent path).

Definition path_text (path : list UnixPath.Component) : string :=
  match path with
  | UnixPath.RootDir :: rest => "/" +:+ string_join "/" (UnixPath.Component_as_str <$> rest)
  | _ => string_join "/" (UnixPath.Component_as_str <$> path)
  end.

Section Configure.
(** The host: [canonicalize] of a path, whether the text of a path is UTF-8,
    whether a path is itself a symbolic link or a regular file, and the probe of
    a path, which answers or fails; [debug] is Rust's quoting of a text. *)
Context (canonicalize : list UnixPath.Component -> option (list UnixPath.Component)).
Context (is_utf8 is_symlink is_file : string -> bool) (probe : string -> result string unit) (debug : string -> string).

Definition validate_path (path : string) : result string unit :=
  if bool_decide (path = "") then Err "Empty path is not allowed"
  else if has_white path then
    Err ("Path contains whitespace characters which could inject or break LXC config parsing: " +:+ debug path)
  else Ok tt.

Definition denied_path_is_file (host_path : string) : bool := is_file host_path.

Definition resolve_component (result : list UnixPath.Component) (component : UnixPath.Component) : list UnixPath.Component :=
  match component with
  | UnixPath.RootDir => [UnixPath.RootDir]
  | UnixPath.CurDir => result
  | UnixPath.ParentDir => pop result
  | UnixPath.Normal _ =>
      let result := result ++ [component] in
      match canonicalize result with Some real => real | None => result end
  end.

Definition resolve_through_symlinks (path : string) : option (list UnixPath.Component) :=
  match foldl resolve_component [] (UnixPath.components path) with [] => None | result => Some result end.

Definition resolve_denied_host_path (host_path : string) : result string string :=
  match resolve_through_symlinks host_path with
  | Some resolved =>
      let real := path_text resolved in
      if negb (is_utf8 real) then
        Err ("deniedPaths entry " +:+ debug host_path
             +:+ " resolves to a non-UTF-8 host path that cannot be safely masked; refusing to start.")
      else if is_symlink real then
        Err ("deniedPaths entry " +:+ debug host_path +:+ " resolves to " +:+ debug real
             +:+ ", which is still a symlink (dangling or unresolvable) and cannot be safely masked; refusing to start.")
      else Ok real
  | None => Ok host_path
  end.

Definition has_rebound_descendant (container_path : string) (rebound : list string) : bool :=
  existsb (String.prefix (container_path +:+ "/")) rebound.

Definition relative (path : string) : string := trim_start_matches is_slash path.

Definition rebound_comparison_paths (host_path : string) : list string :=
  let original := relative host_path in
  match resolve_through_symlinks host_path with
  | Some resolved =>
      let resolved := path_text resolved in
      if is_utf8 resolved && negb (bool_decide (relative resolved = original)) then [relative resolved; original]
      else [original]
  | None => [original]
  end.

(** The entry of one mount of the plan. *)
Definition mount_entry (rebound : list string) (mount : ResolvedMount) : result string string :=
  let host_path := mount_path mount in
  _ ← validate_path host_path;
  match mount_intent mount with
  | ReadWrite => Ok (entry MOUNT_READWRITE host_path (relative host_path))
  | ReadOnly => Ok (entry MOUNT_READONLY host_path (relative host_path))
  | Denied =>
      _ ← probe host_path;
      real_host ← resolve_denied_host_path host_path;
      _ ← validate_path real_host;
      let container_path := relative real_host in
      Ok (if denied_path_is_file real_host then entry MASK_FILE "/dev/null" container_path
          else if has_rebound_descendant container_path rebound then
            entry MASK_DIR_HOLDING_MOUNTPOINTS "tmpfs" container_path
          else entry MASK_DIR "tmpfs" container_path)
  end.

Definition rebound_paths (mounts : list ResolvedMount) : result string (list string) :=
  mjoin <$> mapM (fun mount => _ ← validate_path (mount_path mount); _ ← probe (mount_path mount);
                     Ok (rebound_comparison_paths (mount_path mount)))
    (filter (fun m => mount_intent m <> Denied) mounts).

Definition mount_entries (p : ContainerPolicy) : result string (list string) :=
  let mounts := resolve_mount_order p in
  rebound ← rebound_paths mounts;
  mapM (mount_entry rebound) mounts.

Definition configure_filesystem_mounts (config_path : string) (file : ConfigFile) (p : ContainerPolicy)
    : result string unit * result string string :=
  match mount_entries p with
  | Err e => (Err e, contents file)
  | Ok entries => set_filesystem_access_points config_path file entries
  end.

End Configure.


(** ** What LXC reads *)

(** The fields of a line of [fstab]. *)
Definition words (s : string) : list string := filter (fun w => w <> "") (split_by is_ascii_space s).

(** One [fstab] entry, with its destination in the container. *)
Definition read_entry (value : string) : option (string * Content) :=
  match words value with
  | source :: target :: filesystem :: options :: _ =>
      let options := string_split "," options in
      let writable := bool_decide ("ro" ∉ options) in
      Some ("/" +:+ target,
            if bool_decide ("bind" ∈ options) then HostTree source writable
            else if bool_decide (filesystem = "tmpfs") then Private writable else Virtual)
  | _ => None
  end.

Definition read_line (line : string) : option (string * Content) :=
  match split_once "=" line with
  | Some (key, value) => if bool_decide (trim key = "lxc.mount.entry") then read_entry value else None
  | None => None
  end.

(** The mounts of a configuration, in order. *)
Definition lxc_mounts (config : string) : list (string * Content) := omap read_line (lines config).

(** ** Lemmas on lines *)

Definition one_line (s : string) : Prop := lacks nl s = true /\ lacks cr s = true.

Lemma strip_suffix_char_lacks c s : lacks c s = true -> strip_suffix_char c s = None.
Proof.
  induction s as [|x s IH]; [done|]. unfold lacks in *. cbn.
  rewrite andb_true_iff, negb_true_iff, bool_decide_eq_false. intros [Hx Hs].
  destruct s; [by rewrite decide_False|]. by rewrite (IH Hs).
Qed.

Lemma unlines_cons s l : unlines (s :: l) = s +:+ String nl (unlines l).
Proof. unfold unlines, string_concat. cbn. by rewrite string_app_assoc. Qed.

Lemma unlines_app l k : unlines (l ++ k) = unlines l +:+ unlines k.
Proof. unfold unlines. by rewrite fmap_app, string_concat_app. Qed.

Lemma lines_unlines l : Forall one_line l -> lines (unlines l) = l.
Proof.
  unfold lines. induction 1 as [|s l [Hn Hc] Hl IH]; [done|]. rewrite unlines_cons, string_split_cons by done.
  cbn [cut_lines]. destruct (string_split nl (unlines l)) as [|x k] eqn:E; [by apply string_split_ne in E|].
  unfold strip_cr. rewrite strip_suffix_char_lacks by done. by rewrite IH.
Qed.

Lemma split_lacks_other c sep s : lacks c s = true -> Forall (fun p => lacks c p = true) (string_split sep s).
Proof.
  unfold lacks. induction s as [|x s IH]; [by repeat constructor|]. cbn. intros [Hx Hs]%andb_true_iff. specialize (IH Hs).
  destruct (decide (x = sep)); [by constructor|]. destruct (string_split sep s) as [|p ps]; [constructor; [cbn; by rewrite Hx|constructor]|].
  apply Forall_cons in IH as [Hp Hps]. constructor; [|done]. cbn. by rewrite Hx, Hp.
Qed.

Lemma config_lines_one_line config : lacks cr config = true -> Forall one_line (lines config).
Proof.
  intros Hc. unfold lines. pose proof (string_split_lacks nl config) as Hn. pose proof (split_lacks_other cr nl config Hc) as Hr.
  induction (string_split nl config) as [|p ps IH]; [constructor|].
  apply Forall_cons in Hn as [Hp Hps], Hr as [Hp' Hps']. specialize (IH Hps Hps'). cbn [cut_lines].
  destruct ps; [case_bool_decide; repeat constructor; done|]. constructor; [|done].
  unfold strip_cr. rewrite strip_suffix_char_lacks by done. done.
Qed.

(** ** The managed block *)

(** The lines that are not the backend's. *)
Fixpoint foreign (inside : bool) (l : list string) : list string :=
  match l with
  | [] => []
  | line :: l =>
      if bool_decide (trim line = MANAGED_MOUNTS_BEGIN) then foreign true l
      else if bool_decide (trim line = MANAGED_MOUNTS_END) then foreign false l
      else if inside then foreign inside l else line :: foreign inside l
  end.

Lemma strip_lines l out inside :
  fst (foldl strip_line (out, inside) l) = out +:+ unlines (foreign inside l).
Proof.
  revert out inside. induction l as [|line l IH]; intros out inside; [cbn; by rewrite string_app_nil_r|].
  cbn [foldl foreign]. unfold strip_line at 2. repeat case_match; try apply IH.
  rewrite IH, unlines_cons, !string_app_assoc. done.
Qed.

Lemma strip_managed config : strip_managed_mount_entries config = unlines (foreign false (lines config)).
Proof. unfold strip_managed_mount_entries. by rewrite strip_lines. Qed.

Definition entry_line (entry : string) : string := "lxc.mount.entry = " +:+ entry.

Definition block (entries : list string) : list string :=
  match entries with [] => [] | _ => MANAGED_MOUNTS_BEGIN :: (entry_line <$> entries) ++ [MANAGED_MOUNTS_END] end.

Lemma unlines_ends l : unlines l = "" \/ ends_with_char nl (unlines l) = true.
Proof.
  destruct l as [|s l _] using rev_ind; [by left|]. right. unfold ends_with_char. apply bool_decide_eq_true.
  rewrite unlines_app, unlines_cons. change (unlines []) with "". rewrite <- string_app_assoc.
  generalize (unlines l +:+ s). intros t. induction t as [|c t IH]; autorewrite with text; cbn; [by rewrite decide_True|].
  destruct IH as [x Hx]. destruct (t +:+ String nl "") eqn:E; [by destruct t; autorewrite with text in E|]. rewrite Hx. by eexists.
Qed.

Lemma rewritten_lines config entries :
  rewritten config entries = unlines (foreign false (lines config) ++ block entries).
Proof.
  unfold rewritten. rewrite strip_managed. destruct entries as [|e entries]; [cbn; by rewrite app_nil_r|].
  assert (Hfold : forall l out, foldl (fun out entry => out +:+ "lxc.mount.entry = " +:+ entry +:+ String nl "") out l =
    out +:+ unlines (entry_line <$> l)).
  { induction l as [|x l IH]; intros out; [cbn; by rewrite string_app_nil_r|]. cbn [foldl]. rewrite IH, fmap_cons, unlines_cons.
    unfold entry_line. by rewrite !string_app_assoc. }
  rewrite Hfold, unlines_app. cbn [block]. rewrite unlines_cons, unlines_app, unlines_cons. change (unlines []) with "".
  set (out := unlines (foreign false (lines config))).
  replace (if negb (bool_decide (out = "")) && negb (ends_with_char nl out) then out +:+ String nl "" else out) with out.
  - by rewrite !string_app_assoc.
  - destruct (unlines_ends (foreign false (lines config))) as [E|E]; fold out in E; [by rewrite E|]. by rewrite E, andb_false_r.
Qed.


Definition marker (line : string) : bool :=
  bool_decide (trim line = MANAGED_MOUNTS_BEGIN) || bool_decide (trim line = MANAGED_MOUNTS_END).

Lemma foreign_unmarked inside l : Forall (fun s => marker s = false) (foreign inside l).
Proof.
  revert inside. induction l as [|line l IH]; intros inside; cbn; [constructor|].
  case_bool_decide as H1; [apply IH|]. case_bool_decide as H2; [apply IH|]. destruct inside; [apply IH|].
  constructor; [|apply IH]. unfold marker. by rewrite !bool_decide_eq_false_2.
Qed.

Lemma foreign_app l k : Forall (fun s => marker s = false) l -> foreign false (l ++ k) = l ++ foreign false k.
Proof.
  induction 1 as [|s l Hs Hl IH]; [done|]. unfold marker in Hs. apply orb_false_iff in Hs as [H1 H2].
  cbn [app foreign]. by rewrite H1, H2, IH.
Qed.

Lemma entry_line_unmarked e : marker (entry_line e) = false.
Proof.
  unfold marker, entry_line. autorewrite with text.
  assert (Ht : forall s, exists t, trim (String "l" s) = String "l" t).
  { intros s. unfold trim. exists (trim_end s).
    assert (Hs : trim_start (String "l" s) = String "l" s) by (destruct s as [|b [|c s]]; done). rewrite Hs.
    cbn [trim_end]. assert (Hb : is_blank (String "l" s) = false) by (destruct s as [|b [|c s]]; done). by rewrite Hb. }
  match goal with |- context [trim (String _ ?s)] => destruct (Ht s) as [t Ht'] end. rewrite Ht'.
  by rewrite !bool_decide_eq_false_2.
Qed.

Lemma foreign_block entries : foreign false (block entries) = [].
Proof.
  destruct entries as [|e entries]; [done|]. cbn [block foreign].
  change (bool_decide (trim MANAGED_MOUNTS_BEGIN = MANAGED_MOUNTS_BEGIN)) with true. cbn iota.
  change (foreign true ((entry_line <$> e :: entries) ++ [MANAGED_MOUNTS_END]) = []).
  induction (e :: entries) as [|x l IH]; [done|]. rewrite fmap_cons. cbn [app foreign].
  pose proof (entry_line_unmarked x) as Hx. unfold marker in Hx. apply orb_false_iff in Hx as [H1 H2]. by rewrite H1, H2.
Qed.

Lemma foreign_one_line inside l : Forall one_line l -> Forall one_line (foreign inside l).
Proof.
  intros Hl. revert inside. induction Hl as [|s l Hs Hl IH]; intros inside; cbn; [constructor|].
  repeat case_match; try apply IH. by constructor.
Qed.

Lemma block_one_line entries : Forall one_line entries -> Forall one_line (block entries).
Proof.
  intros He. destruct entries as [|e entries]; [constructor|]. cbn [block]. constructor; [done|]. apply Forall_app. split; [|by repeat constructor].
  apply Forall_fmap. eapply Forall_impl; [exact He|]. intros x [Hn Hr]. change (one_line (entry_line x)). unfold entry_line, one_line. by rewrite !lacks_app, Hn, Hr.
Qed.

Lemma rewritten_foreign config entries :
  lacks cr config = true -> Forall one_line entries ->
  lines (rewritten config entries) = foreign false (lines config) ++ block entries /\
  foreign false (lines (rewritten config entries)) = foreign false (lines config).
Proof.
  intros Hc He.
  assert (Hl : lines (rewritten config entries) = foreign false (lines config) ++ block entries).
  { rewrite rewritten_lines. apply lines_unlines. apply Forall_app. split; [|by apply block_one_line].
    by apply foreign_one_line, config_lines_one_line. }
  split; [done|]. rewrite Hl, foreign_app by apply foreign_unmarked. by rewrite foreign_block, app_nil_r.
Qed.

(** ** Entries read back *)

Definition word (s : string) : Prop := s <> "" /\ string_all (fun c => negb (is_ascii_space c)) s = true.

Lemma entry_words_cons w rest : word w -> words (w +:+ String " " rest) = w :: words rest.
Proof. intros [Hne Hw]. unfold words. rewrite split_by_cons by done. by rewrite filter_cons_True. Qed.

Lemma words_space rest : words (String " " rest) = words rest.
Proof.
  unfold words. change (String " " rest) with ("" +:+ String " " rest). rewrite split_by_cons by done.
  rewrite filter_cons_False; [done|]. intros Hn. by apply Hn.
Qed.

Lemma read_entry_line e : read_line (entry_line e) = read_entry e.
Proof.
  unfold read_line, entry_line. change ("lxc.mount.entry = " +:+ e) with ("lxc.mount.entry " +:+ String "=" (String " " e)).
  rewrite split_once_make by done. rewrite bool_decide_eq_true_2 by done. unfold read_entry. by rewrite words_space.
Qed.

Lemma read_mount shape source target :
  word source -> word target -> word (filesystem shape) -> word (options shape) ->
  read_entry (entry shape source target) =
    let opts := string_split "," (options shape) in
    let writable := bool_decide ("ro" ∉ opts) in
    Some ("/" +:+ target, if bool_decide ("bind" ∈ opts) then HostTree source writable
                          else if bool_decide (filesystem shape = "tmpfs") then Private writable else Virtual).
Proof.
  intros Hs Ht Hf Ho. unfold read_entry, entry.
  change (" " +:+ ?x) with (String " " x). rewrite entry_words_cons by done.
  change (" " +:+ ?x) with (String " " x). rewrite entry_words_cons by done.
  change (" " +:+ ?x) with (String " " x). rewrite entry_words_cons by done.
  change (" 0 0") with (String " " "0 0"). rewrite entry_words_cons by done. done.
Qed.


(** ** The policy decides *)

Lemma has_white_words s : has_white s = false -> string_all (fun c => negb (is_ascii_space c)) s = true.
Proof.
  induction s as [|c s IH]; [done|]. cbn [has_white string_all]. intros [Hs Hr]%orb_false_iff. rewrite (IH Hr), andb_true_r.
  cbn [starts_white] in Hs. apply orb_false_iff in Hs as [Hc _]. by rewrite Hc.
Qed.

Lemma word_one_line s : string_all (fun c => negb (is_ascii_space c)) s = true -> one_line s.
Proof.
  unfold one_line, lacks. induction s as [|c s IH]; [done|]. cbn. intros [Hc Hs]%andb_true_iff. destruct (IH Hs) as [-> ->].
  rewrite !andb_true_r. split; apply negb_true_iff, bool_decide_eq_false; intros ->; by vm_compute in Hc.
Qed.

Lemma string_all_tail (P : ascii -> bool) (a b : string) : string_all P (a +:+ b) = true -> string_all P b = true.
Proof. rewrite string_all_app. by intros [_ ?]%andb_true_iff. Qed.

Lemma relative_absolute names :
  plain names -> names <> [] -> "/" +:+ relative (UnixPath.absolute names) = UnixPath.absolute names /\ relative (UnixPath.absolute names) <> "".
Proof.
  intros Hn Hne. destruct names as [|s names]; [done|]. apply Forall_cons in Hn as [[Hs _] _].
  destruct (UnixPath.clean_name_spec s Hs) as (Hs1 & _ & Hs2). destruct s as [|c s]; [done|].
  unfold lacks in Hs2. cbn in Hs2. apply andb_true_iff in Hs2 as [Hc _]. rewrite negb_true_iff in Hc.
  unfold relative, UnixPath.absolute.
  assert (Hj : exists t, string_join "/" (String c s :: names) = String c t) by (destruct names; eexists; reflexivity).
  destruct Hj as [t ->]. autorewrite with text. cbn [trim_start_matches]. change (is_slash "/") with true. cbn iota.
  assert (Hcs : is_slash c = false) by exact Hc. by rewrite Hcs.
Qed.

Lemma entry_one_line shape source target :
  word source -> word target -> word (filesystem shape) -> word (options shape) -> one_line (entry shape source target).
Proof.
  intros [_ Hs%word_one_line] [_ Ht%word_one_line] [_ Hf%word_one_line] [_ Ho%word_one_line].
  destruct Hs, Ht, Hf, Ho. unfold one_line, entry. rewrite !lacks_app. split; repeat (apply andb_true_iff; split); done.
Qed.

Definition shape_content (shape : MountShape) (source : string) : Content :=
  let opts := string_split "," (options shape) in
  let writable := bool_decide ("ro" ∉ opts) in
  if bool_decide ("bind" ∈ opts) then HostTree source writable
  else if bool_decide (filesystem shape = "tmpfs") then Private writable else Virtual.

Lemma placed_read names shape source :
  plain names -> names <> [] -> word (UnixPath.absolute names) ->
  word source -> word (filesystem shape) -> word (options shape) ->
  let e := entry shape source (relative (UnixPath.absolute names)) in
  one_line e /\ read_entry e = Some (UnixPath.absolute names, shape_content shape source).
Proof.
  intros Hn Hne [_ Hall] Hs Hf Ho e. destruct (relative_absolute names Hn Hne) as [Hrel Hrel'].
  assert (Ht : word (relative (UnixPath.absolute names))).
  { split; [done|]. rewrite <- Hrel in Hall. by apply string_all_tail in Hall. }
  split; [by apply entry_one_line|]. unfold e. rewrite read_mount by done. cbv zeta. rewrite Hrel. done.
Qed.

Lemma mapM_all_Ok {E A B} (f : A -> result E B) (g : A -> B) l : (forall a, a ∈ l -> f a = Ok (g a)) -> mapM f l = Ok (g <$> l).
Proof.
  induction l as [|a l IH]; intros Hl; [done|]. cbn. rewrite Hl by left. cbn. rewrite IH by (intros b Hb; apply Hl; by right). done.
Qed.

Section Enforced.
Context (canonicalize : list UnixPath.Component -> option (list UnixPath.Component)).
Context (is_utf8 is_symlink is_file : string -> bool) (probe : string -> result string unit) (debug : string -> string).
#[local] Abbreviation entry_of_mount := (mount_entry canonicalize is_utf8 is_symlink is_file probe debug).

(** A path that can be mounted where it is: its text has no white space, the
    probe of it answers, and if it is denied no component of it is a link. *)
Definition mountable (path : string) (intent : FsIntent) : Prop :=
  validate_path debug path = Ok tt /\ probe path = Ok tt /\ path <> "/" /\
  (intent = Denied -> resolve_denied_host_path canonicalize is_utf8 is_symlink debug path = Ok path).

Definition lxc_content (rebound : list string) (m : ResolvedMount) : Content :=
  match mount_intent m with
  | ReadWrite => HostTree (mount_path m) true
  | ReadOnly => HostTree (mount_path m) false
  | Denied =>
      if is_file (mount_path m) then HostTree "/dev/null" false
      else Private (has_rebound_descendant (relative (mount_path m)) rebound)
  end.

Lemma mount_entry_read rebound m names :
  mountable (mount_path m) (mount_intent m) -> plain names -> mount_path m = UnixPath.absolute names ->
  exists e, entry_of_mount rebound m = Ok e /\ one_line e /\ read_entry e = Some (mount_path m, lxc_content rebound m).
Proof.
  intros (Hv & Hp & Hroot & Hd) Hn Hpath. unfold mount_entry. rewrite Hv. cbn [mbind result_bind].
  assert (Hw : word (mount_path m)).
  { unfold validate_path in Hv. case_bool_decide; [done|]. destruct (has_white (mount_path m)) eqn:E; [done|].
    split; [done|]. by apply has_white_words. }
  assert (Hne : names <> []) by (intros ->; by rewrite Hpath in Hroot).
  rewrite Hpath in Hw, Hp, Hd, Hv |- *. unfold lxc_content, denied_path_is_file. rewrite Hpath. destruct (mount_intent m).
  - eexists. split; [reflexivity|]. by apply placed_read.
  - eexists. split; [reflexivity|]. by apply placed_read.
  - rewrite Hp, (Hd eq_refl). cbn [mbind result_bind]. rewrite Hv. cbn [mbind result_bind]. eexists. split; [reflexivity|].
    destruct (is_file _); [by apply placed_read|]. by destruct (has_rebound_descendant _ _); apply placed_read.
Qed.

(** The entries of a policy, each read back as the mount of its path. *)
Lemma mount_entries_read p :
  plain_policy p ->
  (forall path intent, (path, intent) ∈ tagged (readwrite_paths p) (readonly_paths p) (denied_paths p) -> mountable path intent) ->
  exists rebound entries, mount_entries canonicalize is_utf8 is_symlink is_file probe debug p = Ok entries /\ Forall one_line entries /\
    omap read_entry entries = (fun m => (mount_path m, lxc_content rebound m)) <$> resolve_mount_order p.
Proof.
  intros Hp Hm. unfold mount_entries.
  assert (Hall : forall m, m ∈ resolve_mount_order p -> mountable (mount_path m) (mount_intent m) /\
    exists names, plain names /\ mount_path m = UnixPath.absolute names).
  { intros m Hin%plan_elem_of. split; [by apply Hm|]. by eapply Hp. }
  assert (Hre : exists rebound, rebound_paths canonicalize is_utf8 probe debug (resolve_mount_order p) = Ok rebound).
  { unfold rebound_paths. rewrite (mapM_all_Ok _ (fun m => rebound_comparison_paths canonicalize is_utf8 (mount_path m))).
    - by eexists.
    - intros m [_ Hin]%list_elem_of_filter. destruct (Hall m Hin) as [(Hv & Hpr & _) _]. by rewrite Hv; cbn; rewrite Hpr. }
  destruct Hre as [rebound ->]. exists rebound. cbn [mbind result_bind].
  induction (resolve_mount_order p) as [|m l IH]; [by exists []; split_and!; [|constructor|]|].
  destruct IH as (entries & He & Hone & Hread); [intros m' Hm'; apply Hall; by right|].
  destruct (Hall m) as (Hmt & names & Hn & Hpath); [left|].
  destruct (mount_entry_read rebound m names Hmt Hn Hpath) as (e & Hem & Hone' & Hread').
  exists (e :: entries). split_and!; [|by constructor|].
  - cbn [mapM]. rewrite Hem. cbn [mbind result_bind]. by rewrite He.
  - cbn [omap list_omap]. rewrite Hread'. rewrite fmap_cons. by rewrite <- Hread.
Qed.

End Enforced.


(** ** The theorems *)

Lemma omap_comments l : Forall (fun s => lacks "=" s = true) l -> omap read_line l = [].
Proof.
  induction 1 as [|s l Hs Hl IH]; [done|]. unfold omap in *. cbn [list_omap]. unfold read_line at 1. by rewrite split_once_lacks.
Qed.

Lemma block_read entries : omap read_line (block entries) = omap read_entry entries.
Proof.
  destruct entries as [|e entries]; [done|]. unfold block. change (MANAGED_MOUNTS_BEGIN :: ?l) with ([MANAGED_MOUNTS_BEGIN] ++ l).
  rewrite !omap_app. rewrite (omap_comments [MANAGED_MOUNTS_BEGIN]), (omap_comments [MANAGED_MOUNTS_END]) by (by repeat constructor).
  rewrite app_nil_l, app_nil_r. induction (e :: entries) as [|x l IH]; [done|]. rewrite fmap_cons. unfold omap in *. cbn [list_omap].
  rewrite read_entry_line. destruct (read_entry x); [by rewrite IH|done].
Qed.

(** The managed block of a container's configuration.  Rewriting replaces the
    block and nothing else: the other lines stay as they are, in order, the block
    comes after them and LXC reads from it exactly the given entries; a later
    rewrite leaves nothing of an earlier one; and when the file cannot be read,
    staged or installed the configuration is what it was. *)
Theorem managed_block_replaced config_path config entries :
  lacks cr config = true -> Forall one_line entries ->
  (forall file, contents file = Ok config ->
    set_filesystem_access_points config_path file entries =
      match staged file, installed file with
      | Ok _, Ok _ => (Ok tt, Ok (rewritten config entries))
      | _, _ => (fst (set_filesystem_access_points config_path file entries), Ok config)
      end) /\
  lines (rewritten config entries) = foreign false (lines config) ++ block entries /\
  lxc_mounts (rewritten config entries) = omap read_line (foreign false (lines config)) ++ omap read_entry entries /\
  forall entries', rewritten (rewritten config entries) entries' = rewritten config entries'.
Proof.
  intros Hc He. destruct (rewritten_foreign config entries Hc He) as [Hl Hf]. split_and!.
  - intros file Hfile. unfold set_filesystem_access_points. rewrite Hfile. by destruct (staged file), (installed file).
  - done.
  - unfold lxc_mounts. by rewrite Hl, omap_app, block_read.
  - intros entries'. by rewrite (rewritten_lines (rewritten config entries)), (rewritten_lines config entries'), Hf.
Qed.

Lemma managed_block_replaced_witness :
  let config := unlines ["lxc.rootfs.path = dir:/r"; MANAGED_MOUNTS_BEGIN; "lxc.mount.entry = /old old none bind 0 0"] in
  lacks cr config = true /\
  lxc_mounts (rewritten config [entry MOUNT_READONLY "/srv" "srv"]) = [("/srv", HostTree "/srv" false)].
Proof.
  intros config. split; [by vm_compute|].
  destruct (managed_block_replaced "/c" config [entry MOUNT_READONLY "/srv" "srv"]) as (_ & _ & Hm & _);
    [by vm_compute|by repeat constructor|]. rewrite Hm. by vm_compute.
Defined.

Section Policy.
Context (canonicalize : list UnixPath.Component -> option (list UnixPath.Component)).
Context (is_utf8 is_symlink is_file : string -> bool) (probe : string -> result string unit) (debug : string -> string).

(** C8. LXC shows of the host what the policy says, when the policy's paths are
    written without redundancy and its denied paths have no link in them: the
    mounts are configured, and the policy path that is most specific at a path
    decides what is there, whatever the configuration mounted before: the same
    path of the host, writable only under readwritePaths; for deniedPaths
    [/dev/null] or a private directory. *)
Theorem lxc_enforces_filesystem_policy config_path file config p :
  plain_policy p ->
  (forall path intent, (path, intent) ∈ tagged (readwrite_paths p) (readonly_paths p) (denied_paths p) ->
    mountable canonicalize is_utf8 is_symlink probe debug path intent) ->
  contents file = Ok config -> lacks cr config = true -> staged file = Ok tt -> installed file = Ok tt ->
  exists config',
    configure_filesystem_mounts canonicalize is_utf8 is_symlink is_file probe debug config_path file p = (Ok tt, Ok config') /\
    foreign false (lines config') = foreign false (lines config) /\
    forall q m, most_specific (tagged (readwrite_paths p) (readonly_paths p) (denied_paths p)) q m ->
      match mount_intent m with
      | ReadWrite => access (lxc_mounts config') (path_of q) = Host (path_of q) true
      | ReadOnly => access (lxc_mounts config') (path_of q) = Host (path_of q) false
      | Denied =>
          if is_file (mount_path m)
          then access (lxc_mounts config') (path_of q) =
                 Host (path_of ["dev"; "null"] ++ drop (S (length (from_path (mount_path m)))) (path_of q)) false
          else exists writable, access (lxc_mounts config') (path_of q) = Sandboxed writable
      end.
Proof.
  intros Hp Hm Hcont Hcr Hst Hin.
  destruct (mount_entries_read canonicalize is_utf8 is_symlink is_file probe debug p Hp Hm) as (rebound & entries & He & Hone & Hread).
  exists (rewritten config entries). destruct (rewritten_foreign config entries Hcr Hone) as [Hl Hf].
  unfold configure_filesystem_mounts, set_filesystem_access_points. rewrite He, Hcont, Hst, Hin. split_and!; [done..|].
  intros q m Hms. pose proof (most_specific_covering p q Hp m Hms) as Htop. rewrite <- last_covering_components in Htop by done.
  unfold access, lxc_mounts. rewrite Hl, omap_app, block_read, Hread, top_app.
  rewrite top_fmap, Htop. cbn [fmap option_fmap option_map].
  destruct Hms as (Hmin & Hcov & _). destruct (plain_path_prefix p Hp _ _ Hmin) as [Hcomp _].
  assert (Hjoin : path_of (from_path (mount_path m)) ++ drop (length (path_of (from_path (mount_path m)))) (path_of q) = path_of q).
  { apply path_of_prefix in Hcov as [k ->]. by rewrite drop_app_length. }
  unfold lxc_content. destruct (mount_intent m); [by rewrite !Hcomp, Hjoin..|].
  destruct (is_file (mount_path m)); [|by eexists].
  assert (Hlen : S (length (from_path (mount_path m))) = length (path_of (from_path (mount_path m))))
    by (unfold path_of; cbn; by rewrite length_fmap). by rewrite Hlen, Hcomp.
Qed.

End Policy.


(** A host on which every path exists, [/l] is a link to [/deep/dir/secret] and
    there is no other link; each path is an object of its own. *)
Definition real_path (path : list UnixPath.Component) : option (list UnixPath.Component) :=
  Some (if bool_decide (path = path_of ["l"]) then path_of ["deep"; "dir"; "secret"] else path).

Definition own_object (path : string) : result string PathResolution :=
  Ok (Object (0, Z.of_nat (length (UnixPath.components path)))).

Definition on_host (p : ContainerPolicy) : result string unit * result string string :=
  configure_filesystem_mounts real_path (fun _ => true) (fun _ => false) (fun _ => false) (fun _ => Ok tt) id
    "/var/lib/lxc/c/config" (MkConfigFile (Ok "") (Ok tt) (Ok tt)) p.

Definition configured (p : ContainerPolicy) : string := match snd (on_host p) with Ok config => config | Err _ => "" end.

Definition nested_policy : ContainerPolicy := set_paths ContainerPolicy_default ["/srv"; "/srv/secret/out"] [] ["/srv/secret"].

Lemma nested_mountable path intent :
  (path, intent) ∈ tagged (readwrite_paths nested_policy) (readonly_paths nested_policy) (denied_paths nested_policy) ->
  mountable real_path (fun _ => true) (fun _ => false) (fun _ => Ok tt) id path intent /\
  exists names, plain names /\ path = UnixPath.absolute names.
Proof.
  intros Hin. cut (mountable real_path (fun _ => true) (fun _ => false) (fun _ => Ok tt) id path intent /\
    plain (from_path path) /\ path = UnixPath.absolute (from_path path)).
  { intros (Hm & Hpl & Heq). split; [done|]. by exists (from_path path). }
  pose (P e := mountable real_path (fun _ => true) (fun _ => false) (fun _ => Ok tt) id e.1 e.2 /\
    plain (from_path e.1) /\ e.1 = UnixPath.absolute (from_path e.1)).
  change (P (path, intent)). revert Hin. generalize (path, intent). apply Forall_forall. unfold P. repeat constructor; done.
Qed.

Lemma secret_most_specific :
  most_specific (tagged (readwrite_paths nested_policy) (readonly_paths nested_policy) (denied_paths nested_policy))
    ["srv"; "secret"; "key"] (MkMount "/srv/secret" Denied).
Proof.
  split_and!; [apply (bool_decide_unpack _); by vm_compute..|]. intros path intent Hin.
  pose (P e := from_path e.1 `prefix_of` ["srv"; "secret"; "key"] ->
    (length (from_path e.1) < 2)%nat \/ (from_path e.1 = ["srv"; "secret"] /\ (rank e.2 <= 2)%nat)).
  change (P (path, intent)). revert Hin. generalize (path, intent). apply Forall_forall. apply (bool_decide_unpack _). by vm_compute.
Qed.

Lemma lxc_enforces_filesystem_policy_witness :
  exists config', on_host nested_policy = (Ok tt, Ok config') /\
    exists writable, access (lxc_mounts config') (path_of ["srv"; "secret"; "key"]) = Sandboxed writable.
Proof.
  destruct (lxc_enforces_filesystem_policy real_path (fun _ => true) (fun _ => false) (fun _ => false) (fun _ => Ok tt) id
    "/var/lib/lxc/c/config" (MkConfigFile (Ok "") (Ok tt) (Ok tt)) "" nested_policy) as (config' & Hc & _ & Hm);
    [intros path intent Hin; apply (nested_mountable path intent Hin)|intros path intent Hin; apply (nested_mountable path intent Hin)|reflexivity..|].
  exists config'. split; [exact Hc|]. exact (Hm ["srv"; "secret"; "key"] (MkMount "/srv/secret" Denied) secret_most_specific).
Defined.

Definition redundant_policy : ContainerPolicy := set_paths ContainerPolicy_default ["/srv/././."] [] ["/srv/secret"].

(** A denied path is exposed on LXC by a grant above it that is written with
    [.] segments: the policy is accepted and no alias is found in it; the
    segments count as depth, so that the grant is mounted after the mask, over
    it, and what the policy denies is there for writing. *)
Theorem lxc_redundant_grant_exposes_denied :
  validate_filesystem_paths id redundant_policy = Ok tt /\
  normalize_object_conflicts_with own_object redundant_policy = Ok None /\
  exists config', on_host redundant_policy = (Ok tt, Ok config') /\
    access (lxc_mounts config') (path_of ["srv"; "secret"; "key"]) = Host (path_of ["srv"; "secret"; "key"]) true.
Proof. split_and!; [by vm_compute..|]. exists (configured redundant_policy).
  split; vm_compute; reflexivity. Qed.

Definition linked_policy : ContainerPolicy := set_paths ContainerPolicy_default ["/deep/dir"] [] ["/l"].

(** A path denied through a link is exposed on LXC by a grant above the
    link's target: the mask is made for the target but takes the place of the
    link in the order, so that the grant is mounted after it, over it. *)
Theorem lxc_linked_denied_path_exposed :
  validate_filesystem_paths id linked_policy = Ok tt /\
  normalize_object_conflicts_with own_object linked_policy = Ok None /\
  resolve_denied_host_path real_path (fun _ => true) (fun _ => false) id "/l" = Ok "/deep/dir/secret" /\
  exists config', on_host linked_policy = (Ok tt, Ok config') /\
    access (lxc_mounts config') (path_of ["deep"; "dir"; "secret"; "key"])
      = Host (path_of ["deep"; "dir"; "secret"; "key"]) true.
Proof. split_and!; [by vm_compute..|]. exists (configured linked_policy).
  split; vm_compute; reflexivity. Qed.

End LxcMounts.
