(* ===== verification/SeatbeltProfile.v ===== *)
(** * The Seatbelt profile of a request

    [backends/seatbelt/common]: [profile_builder.rs] (the profile's text),
    [seatbelt_policy.rs] (the postures it is built from and the checks before
    it), [default_env.rs], the rules of [run_marker.rs] and the selection of the
    developer directory in [profile_preparation.rs].  A [write_*] function is
    modelled by the text it appends to its [out] argument. *)

From Stdlib Require Import Ascii.
From stdpp Require Import gmap.
From S2P Require Import Prelude Models Requests NetworkParser UnixPath FsPolicy DefaultEnv.

Module SeatbeltProfile.
Export FsPolicy.

(** A quotation mark; in the texts below it is written [~]. *)
Definition quote : ascii := "034".
Definition text (s : string) : string := string_map (fun c => if bool_decide (c = "~"%char) then quote else c) s.
Definition newline : string := String (ascii_of_nat 10) "".
Definition line (s : string) : string := s +:+ newline.

(** ** [seatbelt_policy.rs] *)

Definition seatbelt_flag (f : SeatbeltConfig -> bool) (r : ExecutionRequest) : bool :=
  match seatbelt r with Some c => f c | None => false end.

Definition gui_access_effective (r : ExecutionRequest) : bool :=
  seatbelt_flag gui_access r && negb (disable (ui (policy r))).

Definition validate_seatbelt_ui_policy (r : ExecutionRequest) : result string unit :=
  fail_if (seatbelt_flag gui_access r && disable (ui (policy r)))
    "Seatbelt: seatbelt.guiAccess=true cannot be combined with ui.disable=true. The GUI grants (Mach IPC, mach-register, IOKit, pseudo-tty, per-user temp/cache writes) are only emitted when UI is enabled, so this combination would drop every GUI capability and deny WindowServer instead. Set 'ui.disable' to false to grant GUI access, or remove 'seatbelt.guiAccess'. Note that 'ui.disable' defaults to true, so an omitted 'ui' section conflicts too.".

Definition RUN_MARKER_NAME_PREFIX : string := "com.microsoft.mxc.run.".

Definition validate_seatbelt_reserved_names (r : ExecutionRequest) : result string unit :=
  match seatbelt r with
  | None => Ok tt
  | Some config =>
      if match profile_override config with Some profile => str_contains RUN_MARKER_NAME_PREFIX profile | None => false end then
        Err ("Seatbelt: seatbelt.profileOverride contains '" +:+ RUN_MARKER_NAME_PREFIX
             +:+ "', which MXC reserves for its process cleanup rules. Remove those rules (they are specific to the run that printed them); MXC adds this run's own.")
      else match List.find (String.prefix RUN_MARKER_NAME_PREFIX) (extra_mach_lookups config) with
      | Some name =>
          Err ("Seatbelt: seatbelt.extraMachLookups entry '" +:+ name +:+ "' uses the prefix '" +:+ RUN_MARKER_NAME_PREFIX
               +:+ "', which MXC reserves for its process cleanup rules.")
      | None => Ok tt
      end
  end.

Definition egress_allowed (p : ContainerPolicy) : bool :=
  match network_egress p with Some e => bool_decide (egress_default e = Allow) | None => false end.

Definition local_network_allowed (p : ContainerPolicy) : bool :=
  match network_ingress p with Some i => bool_decide (ingress_default i = Allow) | None => false end.

Definition host_loopback_allowed (p : ContainerPolicy) : bool :=
  match network_ingress p with Some i => bool_decide (host_loopback i = Allow) | None => false end.

Definition validate_seatbelt_network_policy (p : ContainerPolicy) : result string unit :=
  let proxy_enabled := is_enabled (network_proxy p) in
  let outbound_allowed := egress_allowed p in
  if negb outbound_allowed
     && match proxy_config_address (network_proxy p) with
        | Some addr => negb (Parser.host_is_canonical_loopback (proxy_address addr))
        | None => false
        end then
    Err "Seatbelt: runtimeConfig.networkProxy must name a loopback endpoint (127.0.0.1, [::1], or localhost); a remote proxy cannot be reached under network.egress.default='deny'"
  else if proxy_enabled && outbound_allowed then
    Err "Seatbelt: runtimeConfig.networkProxy requires network.egress.default='deny'; an allow default would bypass the proxy and leave direct outbound traffic unrestricted"
  else match network_ingress p with
  | Some i =>
      fail_if (bool_decide (host_loopback i = Allow) && bool_decide (ingress_default i = Deny))
        "macOS Seatbelt cannot enforce network.ingress.hostLoopback='allow' alongside network.ingress.default='deny': the inbound half of host loopback rides the same Seatbelt rule as the inbound default, so it cannot be granted while that default denies it. Set network.ingress.default='allow' as well, or set hostLoopback='deny'. Note that an omitted 'hostLoopback' is 'deny', not an inherit of 'default'."
  | None => Ok tt
  end.

(** ** [default_env.rs] *)

Definition DEFAULT_SANDBOX_PATH : string := "/usr/bin:/bin:/usr/sbin:/sbin".

Definition seatbelt_default_env (working_directory : option string) : list (string * string) :=
  [("PATH", DEFAULT_SANDBOX_PATH)] ++ match working_directory with Some home => [("HOME", home)] | None => [] end
  ++ [("TERM", "xterm-256color")].

Definition seatbelt_resolved_env (r : ExecutionRequest) (working_directory : option string) : list string :=
  DefaultEnv.resolve_env r (seatbelt_default_env working_directory).

(** ** [profile_preparation.rs] *)

Definition dir_is_root_controlled (uid mode : Z) : bool := (uid =? 0) && (Z.land mode 18 =? 0).

(** [Path::file_name] and [Path::extension] on components. *)
Definition file_name (path : list UnixPath.Component) : option string :=
  match last path with Some (UnixPath.Normal name) => Some name | _ => None end.

Definition extension (path : list UnixPath.Component) : option string :=
  name ← file_name path;
  match rsplit_once "."%char name with
  | Some (stem, ext) => if bool_decide (stem = "") then None else Some ext
  | None => None
  end.

Definition enclosing_app_bundle (dir : list UnixPath.Component) : option (list UnixPath.Component) :=
  name ← file_name dir;
  if negb (bool_decide (name = "Developer")) then None
  else
    contents ← UnixPath.parent dir;
    name ← file_name contents;
    if negb (bool_decide (name = "Contents")) then None
    else
      bundle ← UnixPath.parent contents;
      ext ← extension bundle;
      if eq_ignore_ascii_case ext "app" then Some bundle else None.

Definition developer_dir_grant_root (dir : list UnixPath.Component) : list UnixPath.Component :=
  default dir (enclosing_app_bundle dir).

Definition expand_tilde (home : option string) (path : string) : result string string :=
  if bool_decide (path = "~") || String.prefix "~/" path then
    home ← ok_or home ("HOME environment variable not set; cannot expand '" +:+ path +:+ "' in seatbelt profile");
    if bool_decide (path = "~") then Ok home
    else Ok (home +:+ "/" +:+ match path with String _ (String _ rest) => rest | _ => "" end)
  else Ok path.

(** ** [profile_builder.rs] *)

Record ProfileInputs : Type := MkInputs {
  input_readonly : list string;
  input_readwrite : list string;
  input_denied : list string;
  developer_dir : option string;
  user_keychains : option string;
}.

Inductive ProfileError : Type :=
| ProfilePolicy (message : string)
| ProfileHost (message : string).

(** One character of the loop of [escape_for_quotes]. *)
Definition escape_char (c : ascii) : string :=
  if bool_decide (c = "\"%char) then "\\"
  else if bool_decide (c = quote) then String "\" (String quote "")
  else String c "".

Fixpoint escape_for_quotes (s : string) : string :=
  match s with EmptyString => "" | String c s => escape_char c +:+ escape_for_quotes s end.

Definition quote_scheme (s : string) : string := String quote (escape_for_quotes s +:+ String quote "").

Definition BASELINE_ALLOW : string := text
";; --- baseline (required for any process to start) ---
(allow process-fork)
(allow process-exec)
(allow signal (target same-sandbox))
(allow sysctl-read)
(allow file-read-metadata)
(allow mach-lookup
    (global-name ~com.apple.system.notification_center~)
    (global-name ~com.apple.system.logger~)
    (global-name ~com.apple.distributed_notifications@Uv3~)
    (global-name ~com.apple.CoreServices.coreservicesd~)
    (global-name ~com.apple.FSEvents~))
".

Definition SYSTEM_READ_ALLOW : string := text
";; --- read-only access to system locations ---
;; `/` itself must be readable as data so the shell / loader can resolve
;; path lookups; without this the kernel kills the child during exec.
(allow file-read-data (literal ~/~))
(allow file-read*
    (subpath ~/bin~)
    (subpath ~/sbin~)
    (subpath ~/usr/bin~)
    (subpath ~/usr/sbin~)
    (subpath ~/usr/lib~)
    (subpath ~/usr/libexec~)
    (subpath ~/usr/share~)
    (subpath ~/System~)
    (subpath ~/Library~)
    (subpath ~/private/var/db/timezone~)
    (subpath ~/private/var/db/dyld~)
    (subpath ~/private/var/select~)
    (subpath ~/private/etc~))
;; Standard bit-bucket / entropy devices — read+write because shell
;; redirections (`>/dev/null`, `</dev/urandom`) need both directions.
;; Writes to /dev/null and /dev/zero are discarded; /dev/random and
;; /dev/urandom write to the entropy pool, which is harmless.
(allow file-read* file-write*
    (literal ~/dev/null~)
    (literal ~/dev/zero~)
    (literal ~/dev/random~)
    (literal ~/dev/urandom~))
".

Definition TTY_ALLOW : string := text
";; --- controlling terminal and sandbox-allocated pseudo-terminals ---
(allow file-read* file-write* file-ioctl (literal ~/dev/tty~))
(allow file-read* file-write* file-ioctl
    (require-all
        (regex #~^/dev/ttys[0-9]+$~)
        (extension ~com.apple.sandbox.pty~)))
(allow file-read* (subpath ~/dev/fd~))
".

Definition write_developer_dir_rule (developer_dir : option string) : string :=
  match developer_dir with
  | None => ""
  | Some path =>
      line ";; --- active developer directory (xcrun shims in /usr/bin) ---"
      +:+ line ("(allow file-read* (subpath " +:+ quote_scheme path +:+ "))")
  end.

Definition write_terminal_rule (path : string) : string :=
  line ("(allow file-read* file-write* file-ioctl (literal " +:+ quote_scheme path +:+ "))").

Record ResolvedPaths : Type := MkResolvedPaths {
  resolved_readonly : list string;
  resolved_readwrite : list string;
  resolved_denied : list string;
}.

Definition from_inputs (inputs : ProfileInputs) : ResolvedPaths :=
  let denied := input_denied inputs in
  let readonly := filter (fun p => p ∉ denied) (input_readonly inputs) in
  let readwrite := filter (fun p => (p ∉ denied) /\ (p ∉ readonly)) (input_readwrite inputs) in
  MkResolvedPaths readonly readwrite denied.

Definition write_path_rule (ops : string) (paths : list string) : string :=
  line ("(" +:+ ops) +:+ string_concat ((fun p => line ("    (subpath " +:+ quote_scheme p +:+ ")")) <$> paths) +:+ line ")".

Definition write_allow_mount (m : ResolvedMount) : string :=
  match mount_intent m with
  | ReadWrite => write_path_rule "allow file-read* file-write* network-bind network-outbound" [mount_path m]
  | ReadOnly =>
      write_path_rule "allow file-read*" [mount_path m]
      +:+ write_path_rule "deny file-write* network-bind network-outbound" [mount_path m]
  | Denied => ""
  end.

Definition write_filesystem_allow (paths : ResolvedPaths) : string :=
  if is_empty (resolved_readonly paths) && is_empty (resolved_readwrite paths) then ""
  else
    line ";; --- policy.readonlyPaths / policy.readwritePaths (shallow-to-deep) ---"
    +:+ string_concat (write_allow_mount <$> resolve_path_plan (resolved_readwrite paths) (resolved_readonly paths) []).

Definition write_filesystem_deny (paths : ResolvedPaths) : string :=
  if is_empty (resolved_denied paths) then ""
  else
    line ";; --- policy.deniedPaths (override broader allow rules) ---"
    +:+ write_path_rule "deny file-read* file-read-metadata file-write* network-bind network-outbound" (resolved_denied paths).

Definition write_outbound_allow_rules : string :=
  line "(allow network-outbound)" +:+ line "(allow network-bind (local ip))" +:+ line "(allow system-socket)".

Definition write_host_loopback_rules (p : ContainerPolicy) (allow_outbound : bool) : string :=
  match host_loopback_allowed p, allow_outbound with
  | false, true =>
      line ";; --- network: ingress.hostLoopback=deny — close host loopback,"
      +:+ line ";;     including this host's own non-loopback addresses ---"
      +:+ line (text "(deny network-outbound (remote ip ~localhost:*~))")
  | true, false =>
      line ";; --- network: ingress.hostLoopback=allow — open host loopback"
      +:+ line ";;     under an otherwise-deny egress default. Covers every"
      +:+ line ";;     address bound to this host; other machines stay denied ---"
      +:+ line (text "(allow network-outbound (remote ip ~localhost:*~))")
  | _, _ => ""
  end.

Definition write_proxy_reachability_rules (address : ProxyAddress) : string :=
  if Parser.host_is_canonical_loopback (proxy_address address) then
    line (";; --- network: proxy configured — allow reaching the loopback proxy on port " +:+ dec (proxy_port address) +:+ " ---")
    +:+ line ("(allow network-outbound (remote ip " +:+ text "~localhost:" +:+ dec (proxy_port address) +:+ text "~))")
  else
    line ";; --- network: non-loopback proxy cannot be expressed as a Seatbelt"
    +:+ line ";;     reachability rule; no outbound allow emitted (fail closed) ---".

Definition write_local_network_rules (allow_ingress : bool) : string :=
  if allow_ingress then
    line ";; --- network: ingress.default=allow — accept inbound on local IPs ---"
    +:+ line "(allow network-inbound (local ip))"
  else "".

Definition write_network_rules (r : ExecutionRequest) (address : option ProxyAddress) : string :=
  let allow_outbound := egress_allowed (policy r) in
  (if allow_outbound then
     line ";; --- network: outbound allowed (any host) ---" +:+ write_outbound_allow_rules
   else line ";; --- network: default-deny (no allow-network rules emitted) ---")
  +:+ write_host_loopback_rules (policy r) allow_outbound
  +:+ match allow_outbound, address with
      | false, Some address => write_proxy_reachability_rules address
      | _, _ => ""
      end
  +:+ write_local_network_rules (local_network_allowed (policy r)).

Definition GUI_RULES : string := text
";; --- guiAccess: allow all Mach IPC for GUI applications ---
(allow mach-lookup)
(allow mach-register)
;; --- guiAccess: allow IOKit for GPU rendering ---
(allow iokit-open)
;; --- guiAccess: allow writing to per-user temp/cache ---
(allow file-read* file-write*
    (subpath ~/private/tmp~)
    (subpath ~/private/var/folders~))
;; --- guiAccess: allow pseudo-TTY for shell sessions ---
(allow pseudo-tty)
(allow file-read* file-write* file-ioctl
    (literal ~/dev/ptmx~))
;; --- guiAccess: allow POSIX IPC for GUI apps ---
(allow ipc-posix-shm-read-data ipc-posix-shm-write-data ipc-posix-shm-write-create)
".

Definition UI_ENABLED : string := text
";; --- ui enabled: allow WindowServer + LaunchServices ---
(allow mach-lookup
    (global-name ~com.apple.windowserver.active~)
    (global-name ~com.apple.windowserver.session~)
    (global-name ~com.apple.coreservices.launchservicesd~))
".

Definition UI_DISABLED : string := text
";; --- ui.disable: deny WindowServer + related ---
(deny mach-lookup
    (global-name ~com.apple.windowserver.active~)
    (global-name ~com.apple.windowserver.session~)
    (global-name ~com.apple.coreservices.launchservicesd~))
".

Definition write_ui_rules (r : ExecutionRequest) : string :=
  let ui := ui (policy r) in
  (if disable ui then UI_DISABLED
   else UI_ENABLED +:+ (if gui_access_effective r then GUI_RULES else ""))
  +:+ match clipboard ui with
      | ClipNone =>
          text ";; --- ui.clipboard=none: deny pasteboard ---
(deny mach-lookup (global-name ~com.apple.pasteboard.1~))
"
      | _ =>
          text ";; --- clipboard enabled: allow pasteboard ---
(allow mach-lookup (global-name ~com.apple.pasteboard.1~))
"
      end
  +:+ (if injection ui then ""
       else
         text ";; --- ui.injection=false: deny HID iokit access ---
(deny iokit-open (iokit-user-client-class ~IOHIDLibUserClient~))
").

Definition write_nested_pty_rules (r : ExecutionRequest) : string :=
  let enabled := match seatbelt r with Some c => nested_pty c | None => true end in
  if negb enabled || gui_access_effective r then ""
  else text ";; --- nestedPty: allow inner process to allocate its own pty ---
(allow pseudo-tty)
(allow file-read* file-write* file-ioctl
    (literal ~/dev/ptmx~))
".

Definition KEYCHAIN_RULES : string := text
";; --- keychainAccess: Mach IPC for Keychain (securityd, prefs, XPC, LS) ---
(allow mach-lookup
    (global-name ~com.apple.SecurityServer~)
    (global-name ~com.apple.securityd~)
    (global-name ~com.apple.trustd~)
    (global-name ~com.apple.trustd.agent~)
    (global-name ~com.apple.ocspd~)
    (global-name ~com.apple.cfprefsd.daemon~)
    (global-name ~com.apple.cfprefsd.agent~)
    (global-name ~com.apple.xpcd~)
    (global-name-regex #~^com\.apple\.lsd\.~))
;; --- keychainAccess: MDS keychain metadata + trustd protected store ---
(allow file-read*
    (subpath ~/private/var/protected/trustd~)
    (subpath ~/private/var/db/mds~))
;; --- keychainAccess: user keychain DB + XPC/folder caches (read+write) ---
(allow file-read* file-write*
".

Definition write_keychain_rules (r : ExecutionRequest) (user_keychains : option string) : result ProfileError string :=
  if negb (seatbelt_flag keychain_access r) then Ok ""
  else
    user_keychains ← ok_or user_keychains
      (ProfileHost "User keychain directory was not prepared for keychainAccess");
    Ok (KEYCHAIN_RULES +:+ line ("    (subpath " +:+ quote_scheme user_keychains +:+ ")")
        +:+ line (text "    (subpath ~/private/var/folders~))")).

Definition write_extra_seatbelt_rules (r : ExecutionRequest) : string :=
  match seatbelt r with
  | None => ""
  | Some sb =>
      if is_empty (extra_mach_lookups sb) then ""
      else
        line ";; --- extraMachLookups: caller-provided Mach services ---"
        +:+ line "(allow mach-lookup"
        +:+ string_concat ((fun name => line ("    (global-name " +:+ quote_scheme name +:+ ")")) <$> extra_mach_lookups sb)
        +:+ line ")"
  end.

(** A terminal path that is not UTF-8 has no text. *)
Definition build_profile_with_terminals (r : ExecutionRequest) (address : option ProxyAddress) (inputs : ProfileInputs)
    (terminal_paths : list (option string)) : result ProfileError string :=
  match seatbelt r ≫= profile_override with
  | Some override_profile => Ok override_profile
  | None =>
      terminals ← mapM (fun path => write_terminal_rule <$>
        ok_or path (ProfileHost "Seatbelt: assigned terminal path is not valid UTF-8")) terminal_paths;
      let resolved := from_inputs inputs in
      keychain ← write_keychain_rules r (user_keychains inputs);
      Ok (line "(version 1)" +:+ line "(deny default)" +:+ BASELINE_ALLOW +:+ SYSTEM_READ_ALLOW
          +:+ write_developer_dir_rule (developer_dir inputs) +:+ TTY_ALLOW +:+ string_concat terminals
          +:+ write_filesystem_allow resolved +:+ write_network_rules r address +:+ write_nested_pty_rules r
          +:+ keychain +:+ write_extra_seatbelt_rules r +:+ write_ui_rules r +:+ write_filesystem_deny resolved)
  end.

Definition build_profile_with_proxy (r : ExecutionRequest) (address : option ProxyAddress) (inputs : ProfileInputs)
    : result ProfileError string :=
  build_profile_with_terminals r address inputs [].

(** ** [run_marker.rs] *)

(** The rules [RunMarker::with_nonces] makes for the markers' nonces. *)
Definition run_marker_rules (markers : list string) : string :=
  newline +:+ line ";; --- run marker: lets MXC find this run's processes; grants nothing ---"
  +:+ line ("(deny mach-lookup (global-name-prefix " +:+ text "~" +:+ RUN_MARKER_NAME_PREFIX +:+ text "~))")
  +:+ line ("(allow mach-lookup (global-name-regex #" +:+ text "~^" +:+ "com\.microsoft\.mxc\.run\." +:+ "("
            +:+ string_join "|" markers +:+ ")$" +:+ text "~))").

End SeatbeltProfile.
