(* ===== verification/SeatbeltReader.v ===== *)
(** * Reading a Seatbelt profile

    A reader of the profile language ([;] comments, lists, symbols, strings with
    backslash escapes, [#] followed by a raw string), one character at a time,
    and the proof that the text the builder writes reads back as the rules it
    means, whatever the paths and names of the request contain. *)

From Stdlib Require Import Ascii.
From stdpp Require Import gmap.
From S2P Require Import Prelude Models Requests NetworkParser UnixPath FsPolicy DefaultEnv SeatbeltProfile.

Module SeatbeltReader.
Export SeatbeltProfile.

(** ** The reader *)

Inductive sexp : Type :=
| Sym (name : string)
| Str (value : string)
| Re (pattern : string)
| Lst (items : list sexp).

Inductive mode : Type :=
| Between
| Comment
| InSym (acc : string)
| InStr (acc : string)
| Escape (acc : string)
| Hash
| InRe (acc : string)
| Bad.

(** The lists that are open, innermost first, and the forms read so far. *)
Record reader : Type := MkReader {
  at_ : mode;
  stack : list (list sexp);
  forms : list sexp;
}.

Definition set_at (m : mode) (st : reader) : reader := MkReader m (stack st) (forms st).

Definition push (x : sexp) (st : reader) : reader :=
  match stack st with
  | [] => MkReader Between [] (forms st ++ [x])
  | top :: rest => MkReader Between ((top ++ [x]) :: rest) (forms st)
  end.

Definition open_list (st : reader) : reader := MkReader Between ([] :: stack st) (forms st).

Definition close_list (st : reader) : reader :=
  match stack st with
  | [] => set_at Bad st
  | top :: rest => push (Lst top) (MkReader Between rest (forms st))
  end.

Definition is_space (c : ascii) : bool := bool_decide (c = " "%char) || byte_in 9 13 c.

(** A character outside of strings, comments and symbols. *)
Definition between (c : ascii) (st : reader) : reader :=
  if is_space c then set_at Between st
  else if bool_decide (c = ";"%char) then set_at Comment st
  else if bool_decide (c = "("%char) then open_list st
  else if bool_decide (c = ")"%char) then close_list st
  else if bool_decide (c = quote) then set_at (InStr "") st
  else if bool_decide (c = "#"%char) then set_at Hash st
  else set_at (InSym (String c "")) st.

Definition ends_symbol (c : ascii) : bool :=
  is_space c || bool_decide (c = ";"%char) || bool_decide (c = "("%char) || bool_decide (c = ")"%char) || bool_decide (c = quote).

Definition unescape (c : ascii) : ascii :=
  if bool_decide (c = "n"%char) then ascii_of_nat 10
  else if bool_decide (c = "t"%char) then ascii_of_nat 9
  else if bool_decide (c = "r"%char) then ascii_of_nat 13
  else c.

Definition step (st : reader) (c : ascii) : reader :=
  match at_ st with
  | Between => between c st
  | Comment => if bool_decide (c = ascii_of_nat 10) then set_at Between st else st
  | InSym acc => if ends_symbol c then between c (push (Sym acc) st) else set_at (InSym (acc +:+ String c "")) st
  | InStr acc =>
      if bool_decide (c = quote) then push (Str acc) st
      else if bool_decide (c = "\"%char) then set_at (Escape acc) st
      else set_at (InStr (acc +:+ String c "")) st
  | Escape acc => set_at (InStr (acc +:+ String (unescape c) "")) st
  | Hash => if bool_decide (c = quote) then set_at (InRe "") st else set_at (InSym ("#" +:+ String c "")) st
  | InRe acc => if bool_decide (c = quote) then push (Re acc) st else set_at (InRe (acc +:+ String c "")) st
  | Bad => st
  end.

Fixpoint run (s : string) (st : reader) : reader :=
  match s with EmptyString => st | String c s => run s (step st c) end.

Definition start : reader := MkReader Between [] [].

Definition read (s : string) : option (list sexp) :=
  match run s start with MkReader Between [] forms => Some forms | _ => None end.

(** ** Composition *)

Lemma run_app a b st : run (a +:+ b) st = run b (run a st).
Proof. revert st. induction a as [|c a IH]; intros st; autorewrite with text; [done|]. cbn. apply IH. Qed.

Lemma run_line s st : run (line s) st = run newline (run s st).
Proof. apply run_app. Qed.

(** Forms that were read before make no difference. *)
Definition after (before : list sexp) (st : reader) : reader := MkReader (at_ st) (stack st) (before ++ forms st).

Lemma push_after p x st : push x (after p st) = after p (push x st).
Proof. unfold push. destruct st as [m [|top rest] f]; cbn; [by rewrite <- app_assoc|done]. Qed.

Lemma between_after p c st : between c (after p st) = after p (between c st).
Proof.
  unfold between. repeat case_match; try done. unfold close_list. destruct st as [m [|top rest] f]; [done|]. cbn.
  exact (push_after p (Lst top) (MkReader Between rest f)).
Qed.

Lemma step_after p c st : step (after p st) c = after p (step st c).
Proof.
  unfold step. cbn. destruct (at_ st); repeat case_match; try done; try apply push_after; try apply between_after.
  by rewrite push_after, between_after.
Qed.

Lemma run_after p s st : run s (after p st) = after p (run s st).
Proof. revert st. induction s as [|c s IH]; intros st; [done|]. cbn. by rewrite step_after, IH. Qed.

(** Text that is read as whole forms. *)
Definition reads_as (s : string) (l : list sexp) : Prop := run s start = MkReader Between [] l.

Lemma reads_as_app a b k l : reads_as a k -> reads_as b l -> reads_as (a +:+ b) (k ++ l).
Proof.
  unfold reads_as. intros Ha Hb. rewrite run_app, Ha.
  assert (Hk : MkReader Between [] k = after k start) by (unfold after; cbn; by rewrite app_nil_r).
  rewrite Hk, run_after, Hb. done.
Qed.

Lemma reads_as_nil : reads_as "" [].
Proof. done. Qed.

Lemma reads_as_concat {A} (l : list A) (f : A -> string) (g : A -> list sexp) :
  (forall a, reads_as (f a) (g a)) -> reads_as (string_concat (f <$> l)) (l ≫= g).
Proof.
  intros Hf. induction l as [|a l IH]; [done|]. rewrite bind_cons.
  change (string_concat (f <$> a :: l)) with (f a +:+ string_concat (f <$> l)). by apply reads_as_app.
Qed.

Lemma reads_as_read s l : reads_as s l -> read s = Some l.
Proof. unfold reads_as, read. by intros ->. Qed.

(** ** Quoted text *)

Lemma run_escaped s acc stk f :
  run (escape_for_quotes s) (MkReader (InStr acc) stk f) = MkReader (InStr (acc +:+ s)) stk f.
Proof.
  revert acc. induction s as [|c s IH]; intros acc; [cbn; by rewrite string_app_nil_r|].
  cbn [escape_for_quotes]. rewrite run_app. unfold escape_char.
  assert (Hacc : acc +:+ String c s = (acc +:+ String c "") +:+ s) by (by rewrite string_app_assoc).
  rewrite Hacc. case_bool_decide as H1; [subst; apply IH|]. case_bool_decide as H2; [subst; apply IH|].
  cbn [run]. unfold step at 1. cbn [at_]. rewrite !bool_decide_eq_false_2 by done. apply IH.
Qed.

Lemma run_quoted s stk f : run (quote_scheme s) (MkReader Between stk f) = push (Str s) (MkReader Between stk f).
Proof.
  unfold quote_scheme. cbn [run]. rewrite run_app. change (step (MkReader Between stk f) quote) with (MkReader (InStr "") stk f).
  rewrite run_escaped. done.
Qed.

(** Text that has neither a quotation mark nor a backslash, in a string. *)
Lemma run_plain s acc stk f :
  lacks quote s = true -> lacks "\" s = true -> run s (MkReader (InStr acc) stk f) = MkReader (InStr (acc +:+ s)) stk f.
Proof.
  revert acc. induction s as [|c s IH]; intros acc Hq Hb; [cbn; by rewrite string_app_nil_r|].
  unfold lacks in *. cbn in Hq, Hb. apply andb_true_iff in Hq as [Hq1 Hq2], Hb as [Hb1 Hb2]. apply negb_true_iff in Hq1, Hb1.
  cbn [run]. unfold step at 1. cbn [at_]. rewrite Hq1, Hb1.
  assert (Hacc : acc +:+ String c s = (acc +:+ String c "") +:+ s) by (by rewrite string_app_assoc).
  rewrite Hacc. by apply IH.
Qed.

(** A comment ends with its line. *)
Lemma run_comment s stk f :
  lacks (ascii_of_nat 10) s = true -> run (s +:+ newline) (MkReader Comment stk f) = MkReader Between stk f.
Proof.
  induction s as [|c s IH]; [done|]. unfold lacks in *. cbn. intros [Hc Hs]%andb_true_iff. apply negb_true_iff in Hc.
  autorewrite with text. cbn [run]. unfold step at 1. cbn [at_]. rewrite Hc. by apply IH.
Qed.

(** ** The forms that are meant *)

Definition subpath (p : string) : sexp := Lst [Sym "subpath"; Str p].
Definition literal (p : string) : sexp := Lst [Sym "literal"; Str p].
Definition global_name (n : string) : sexp := Lst [Sym "global-name"; Str n].
Definition remote (host_port : string) : sexp := Lst [Sym "remote"; Sym "ip"; Str host_port].

Definition path_rule (ops : string) (paths : list string) : sexp :=
  Lst ((Sym <$> string_split " " ops) ++ (subpath <$> paths)).

(** The forms of a text without variable parts. *)
Definition forms_of (s : string) : list sexp := default [] (read s).

Definition opens (ops : string) : Prop :=
  run (line ("(" +:+ ops)) start = MkReader Between [Sym <$> string_split " " ops] [].

Lemma run_subpaths paths top :
  run (string_concat ((fun p => line ("    (subpath " +:+ quote_scheme p +:+ ")")) <$> paths)) (MkReader Between [top] []) =
  MkReader Between [top ++ (subpath <$> paths)] [].
Proof.
  revert top. induction paths as [|p paths IH]; intros top; [cbn; by rewrite app_nil_r|].
  change (string_concat (?f <$> p :: paths)) with (f p +:+ string_concat (f <$> paths)).
  rewrite run_app. cbn beta. rewrite run_line, !run_app.
  change (run "    (subpath " (MkReader Between [top] [])) with (MkReader Between [[Sym "subpath"]; top] []).
  rewrite run_quoted. cbn [push stack run]. etrans; [|etrans; [apply (IH (top ++ [subpath p]))|]].
  - done.
  - rewrite fmap_cons, <- app_assoc. done.
Qed.

Lemma path_rule_reads ops paths : opens ops -> reads_as (write_path_rule ops paths) [path_rule ops paths].
Proof.
  intros Ho. unfold reads_as, write_path_rule. rewrite !run_app, Ho, run_subpaths. done.
Qed.

Definition write_ops : string := "allow file-read* file-write* network-bind network-outbound".
Definition read_ops : string := "allow file-read*".
Definition strip_ops : string := "deny file-write* network-bind network-outbound".
Definition deny_ops : string := "deny file-read* file-read-metadata file-write* network-bind network-outbound".

Definition developer_forms (developer_dir : option string) : list sexp :=
  match developer_dir with Some path => [Lst [Sym "allow"; Sym "file-read*"; subpath path]] | None => [] end.

Definition terminal_form (path : string) : sexp :=
  Lst [Sym "allow"; Sym "file-read*"; Sym "file-write*"; Sym "file-ioctl"; literal path].

Definition mount_forms (m : ResolvedMount) : list sexp :=
  match mount_intent m with
  | ReadWrite => [path_rule write_ops [mount_path m]]
  | ReadOnly => [path_rule read_ops [mount_path m]; path_rule strip_ops [mount_path m]]
  | Denied => []
  end.

Definition allow_forms (paths : ResolvedPaths) : list sexp :=
  resolve_path_plan (resolved_readwrite paths) (resolved_readonly paths) [] ≫= mount_forms.

Definition deny_forms (paths : ResolvedPaths) : list sexp :=
  if is_empty (resolved_denied paths) then [] else [path_rule deny_ops (resolved_denied paths)].

Definition sym_rule (action op : string) (filters : list sexp) : sexp := Lst (Sym action :: Sym op :: filters).

Definition network_forms (r : ExecutionRequest) (address : option ProxyAddress) : list sexp :=
  let allow_outbound := egress_allowed (policy r) in
  (if allow_outbound then
     [sym_rule "allow" "network-outbound" []; sym_rule "allow" "network-bind" [Lst [Sym "local"; Sym "ip"]];
      sym_rule "allow" "system-socket" []]
   else [])
  ++ match host_loopback_allowed (policy r), allow_outbound with
     | false, true => [sym_rule "deny" "network-outbound" [remote "localhost:*"]]
     | true, false => [sym_rule "allow" "network-outbound" [remote "localhost:*"]]
     | _, _ => []
     end
  ++ match allow_outbound, address with
     | false, Some address =>
         if Parser.host_is_canonical_loopback (proxy_address address)
         then [sym_rule "allow" "network-outbound" [remote ("localhost:" +:+ dec (proxy_port address))]] else []
     | _, _ => []
     end
  ++ (if local_network_allowed (policy r) then [sym_rule "allow" "network-inbound" [Lst [Sym "local"; Sym "ip"]]] else []).

(** The forms of the keychain rules before the one that has a path. *)
Definition keychain_fixed : list sexp := forms (run KEYCHAIN_RULES start).

Definition keychain_forms (r : ExecutionRequest) (user_keychains : option string) : list sexp :=
  match seatbelt_flag keychain_access r, user_keychains with
  | true, Some dir =>
      keychain_fixed ++ [Lst [Sym "allow"; Sym "file-read*"; Sym "file-write*"; subpath dir; subpath "/private/var/folders"]]
  | _, _ => []
  end.

Definition extra_forms (r : ExecutionRequest) : list sexp :=
  match seatbelt r with
  | Some sb => if is_empty (extra_mach_lookups sb) then [] else [sym_rule "allow" "mach-lookup" (global_name <$> extra_mach_lookups sb)]
  | None => []
  end.

Definition profile_forms (r : ExecutionRequest) (address : option ProxyAddress) (inputs : ProfileInputs) (terminals : list string)
    : list sexp :=
  let resolved := from_inputs inputs in
  [Lst [Sym "version"; Sym "1"]; Lst [Sym "deny"; Sym "default"]]
  ++ forms_of BASELINE_ALLOW ++ forms_of SYSTEM_READ_ALLOW ++ developer_forms (developer_dir inputs) ++ forms_of TTY_ALLOW
  ++ (terminal_form <$> terminals) ++ allow_forms resolved ++ network_forms r address ++ forms_of (write_nested_pty_rules r)
  ++ keychain_forms r (user_keychains inputs) ++ extra_forms r ++ forms_of (write_ui_rules r) ++ deny_forms resolved.

(** ** The pieces *)

Lemma baseline_reads : reads_as BASELINE_ALLOW (forms_of BASELINE_ALLOW).
Proof. by vm_compute. Qed.
Lemma system_reads : reads_as SYSTEM_READ_ALLOW (forms_of SYSTEM_READ_ALLOW).
Proof. by vm_compute. Qed.
Lemma tty_reads : reads_as TTY_ALLOW (forms_of TTY_ALLOW).
Proof. by vm_compute. Qed.

Lemma developer_reads dir : reads_as (write_developer_dir_rule dir) (developer_forms dir).
Proof.
  destruct dir as [path|]; [|done]. unfold write_developer_dir_rule. apply (reads_as_app _ _ []); [done|].
  unfold reads_as, line. rewrite !run_app.
  change (run "(allow file-read* (subpath " start) with (MkReader Between [[Sym "subpath"]; [Sym "allow"; Sym "file-read*"]] []).
  by rewrite run_quoted.
Qed.

Lemma terminal_reads path : reads_as (write_terminal_rule path) [terminal_form path].
Proof.
  unfold write_terminal_rule, reads_as, line. rewrite !run_app.
  change (run "(allow file-read* file-write* file-ioctl (literal " start) with
    (MkReader Between [[Sym "literal"]; [Sym "allow"; Sym "file-read*"; Sym "file-write*"; Sym "file-ioctl"]] []).
  by rewrite run_quoted.
Qed.

Lemma allow_reads paths : reads_as (write_filesystem_allow paths) (allow_forms paths).
Proof.
  unfold write_filesystem_allow, allow_forms.
  destruct (is_empty (resolved_readonly paths) && is_empty (resolved_readwrite paths)) eqn:E.
  - apply andb_true_iff in E as [E1 E2]. destruct (resolved_readonly paths); [|done]. destruct (resolved_readwrite paths); done.
  - apply (reads_as_app _ _ []); [done|]. apply reads_as_concat. intros [path intent]. unfold write_allow_mount, mount_forms. cbn.
    destruct intent; [by apply path_rule_reads| |done].
    apply (reads_as_app _ _ [path_rule read_ops [path]]); by apply path_rule_reads.
Qed.

Lemma deny_reads paths : reads_as (write_filesystem_deny paths) (deny_forms paths).
Proof.
  unfold write_filesystem_deny, deny_forms. case_match; [done|]. apply (reads_as_app _ _ []); [done|]. by apply path_rule_reads.
Qed.

Lemma dec_lacks c z : is_ascii_digit c = false -> lacks c (dec z) = true.
Proof.
  intros Hc. pose proof (dec_digits z) as Hd. unfold lacks. induction (dec z) as [|x s IH]; [done|]. cbn in *.
  apply andb_true_iff in Hd as [Hx Hd]. rewrite (IH Hd), andb_true_r. apply negb_true_iff, bool_decide_eq_false. intros ->. congruence.
Qed.

Lemma proxy_comment_reads port :
  reads_as (line (";; --- network: proxy configured — allow reaching the loopback proxy on port " +:+ dec port +:+ " ---")) [].
Proof.
  unfold reads_as, line. rewrite string_app_assoc, run_app.
  change (run ";; --- network: proxy configured — allow reaching the loopback proxy on port " start) with (MkReader Comment [] []).
  apply run_comment. by rewrite lacks_app, dec_lacks.
Qed.

Lemma proxy_rule_reads port :
  reads_as (line ("(allow network-outbound (remote ip " +:+ text "~localhost:" +:+ dec port +:+ text "~))"))
    [sym_rule "allow" "network-outbound" [remote ("localhost:" +:+ dec port)]].
Proof.
  unfold reads_as. rewrite run_line, !run_app.
  change (run (text "~localhost:") (run "(allow network-outbound (remote ip " start)) with
    (MkReader (InStr "localhost:") [[Sym "remote"; Sym "ip"]; [Sym "allow"; Sym "network-outbound"]] []).
  rewrite run_plain by (by apply dec_lacks). done.
Qed.

Lemma run_names names top :
  run (string_concat ((fun name => line ("    (global-name " +:+ quote_scheme name +:+ ")")) <$> names)) (MkReader Between [top] []) =
  MkReader Between [top ++ (global_name <$> names)] [].
Proof.
  revert top. induction names as [|p names IH]; intros top; [cbn; by rewrite app_nil_r|].
  change (string_concat (?f <$> p :: names)) with (f p +:+ string_concat (f <$> names)).
  rewrite run_app. cbn beta. rewrite run_line, !run_app.
  change (run "    (global-name " (MkReader Between [top] [])) with (MkReader Between [[Sym "global-name"]; top] []).
  rewrite run_quoted. cbn [push stack run]. etrans; [|etrans; [apply (IH (top ++ [global_name p]))|]].
  - done.
  - rewrite fmap_cons, <- app_assoc. done.
Qed.

Lemma network_reads r address : reads_as (write_network_rules r address) (network_forms r address).
Proof.
  unfold write_network_rules, network_forms. repeat apply reads_as_app.
  - by destruct (egress_allowed _).
  - unfold write_host_loopback_rules. by destruct (host_loopback_allowed _), (egress_allowed _).
  - destruct (egress_allowed _), address as [address|]; try done. unfold write_proxy_reachability_rules.
    case_match; [|done]. apply (reads_as_app _ _ []); [apply proxy_comment_reads|apply proxy_rule_reads].
  - by destruct (local_network_allowed _).
Qed.

Lemma nested_pty_reads r : reads_as (write_nested_pty_rules r) (forms_of (write_nested_pty_rules r)).
Proof. unfold write_nested_pty_rules. by destruct (negb _ || _). Qed.

Lemma ui_reads r : reads_as (write_ui_rules r) (forms_of (write_ui_rules r)).
Proof.
  unfold write_ui_rules. destruct (ui (policy r)) as [d c i]. cbn [disable clipboard injection].
  by destruct d, (gui_access_effective r), c, i.
Qed.

Lemma extra_reads r : reads_as (write_extra_seatbelt_rules r) (extra_forms r).
Proof.
  unfold write_extra_seatbelt_rules, extra_forms. destruct (seatbelt r) as [sb|]; [|done]. case_match; [done|].
  apply (reads_as_app _ _ []); [done|]. unfold reads_as. rewrite !run_app.
  change (run (line "(allow mach-lookup") start) with (MkReader Between [[Sym "allow"; Sym "mach-lookup"]] []).
  by rewrite run_names.
Qed.

Lemma keychain_reads r dir text :
  write_keychain_rules r dir = Ok text -> reads_as text (keychain_forms r dir).
Proof.
  unfold write_keychain_rules, keychain_forms. destruct (seatbelt_flag keychain_access r); cbn [negb]; [|by intros [= <-]].
  destruct dir as [dir|]; cbn [ok_or mbind result_bind]; [|done]. intros [= <-]. unfold reads_as. rewrite run_app.
  assert (Hk : run KEYCHAIN_RULES start = MkReader Between [[Sym "allow"; Sym "file-read*"; Sym "file-write*"]] keychain_fixed)
    by (by vm_compute).
  rewrite Hk, run_app, (run_line (_ +:+ _)), !run_app.
  assert (Hopen : run "    (subpath " (MkReader Between [[Sym "allow"; Sym "file-read*"; Sym "file-write*"]] keychain_fixed) =
    MkReader Between [[Sym "subpath"]; [Sym "allow"; Sym "file-read*"; Sym "file-write*"]] keychain_fixed) by done.
  rewrite Hopen, run_quoted. generalize keychain_fixed. intros fixed. done.
Qed.

(** The terminals' rules, if each has a text. *)
Lemma terminals_written (terminals : list (option string)) :
  match mapM (M := option) id terminals with
  | Some paths =>
      mapM (M := result ProfileError) (fun path => write_terminal_rule <$> ok_or path (ProfileHost "Seatbelt: assigned terminal path is not valid UTF-8")) terminals
      = Ok (write_terminal_rule <$> paths)
  | None =>
      exists message,
        mapM (M := result ProfileError) (fun path => write_terminal_rule <$> ok_or path (ProfileHost "Seatbelt: assigned terminal path is not valid UTF-8")) terminals
        = Err (ProfileHost message)
  end.
Proof.
  induction terminals as [|[path|] l IH]; cbn; [done| |by eexists].
  destruct (mapM (M := option) id l) as [paths|]; cbn; [by rewrite IH|]. destruct IH as [message ->]. by eexists.
Qed.

Lemma terminals_reads paths : reads_as (string_concat (write_terminal_rule <$> paths)) (terminal_form <$> paths).
Proof.
  pose proof (reads_as_concat paths write_terminal_rule (fun p => [terminal_form p]) terminal_reads) as H.
  assert (Hb : (paths ≫= fun p => [terminal_form p]) = terminal_form <$> paths) by (clear; induction paths; [done|]; cbn; by f_equal).
  by rewrite <- Hb.
Qed.

Lemma profile_built r address inputs terminals paths keychain :
  seatbelt r ≫= profile_override = None -> mapM (M := option) id terminals = Some paths ->
  write_keychain_rules r (user_keychains inputs) = Ok keychain ->
  exists profile, build_profile_with_terminals r address inputs terminals = Ok profile /\
    read profile = Some (profile_forms r address inputs paths).
Proof.
  intros Hov Hp Hk. unfold build_profile_with_terminals. rewrite Hov. pose proof (terminals_written terminals) as Ht. rewrite Hp in Ht.
  rewrite Ht, Hk. cbn [mbind result_bind]. eexists. split; [reflexivity|]. apply reads_as_read. unfold profile_forms.
  apply (reads_as_app _ _ [Lst [Sym "version"; Sym "1"]]); [done|]. apply (reads_as_app _ _ [Lst [Sym "deny"; Sym "default"]]); [done|].
  apply reads_as_app; [exact baseline_reads|]. apply reads_as_app; [exact system_reads|].
  apply reads_as_app; [apply developer_reads|]. apply reads_as_app; [exact tty_reads|].
  apply reads_as_app; [apply terminals_reads|]. apply reads_as_app; [apply allow_reads|].
  apply reads_as_app; [apply network_reads|]. apply reads_as_app; [apply nested_pty_reads|].
  apply reads_as_app; [by apply keychain_reads|]. apply reads_as_app; [apply extra_reads|].
  apply reads_as_app; [apply ui_reads|]. apply deny_reads.
Qed.

(** A profile that was built, and not overridden, reads as its forms. *)
Lemma built_reads r address inputs terminals profile :
  seatbelt r ≫= profile_override = None -> build_profile_with_terminals r address inputs terminals = Ok profile ->
  exists paths, mapM (M := option) id terminals = Some paths /\ read profile = Some (profile_forms r address inputs paths).
Proof.
  intros Hov Hb. destruct (mapM (M := option) id terminals) as [paths|] eqn:Hp; cycle 1.
  { unfold build_profile_with_terminals in Hb. rewrite Hov in Hb. pose proof (terminals_written terminals) as Ht. rewrite Hp in Ht.
    destruct Ht as [message Ht]. by rewrite Ht in Hb. }
  destruct (write_keychain_rules r (user_keychains inputs)) as [keychain|e] eqn:Hk; cycle 1.
  { unfold build_profile_with_terminals in Hb. rewrite Hov in Hb. pose proof (terminals_written terminals) as Ht. rewrite Hp in Ht.
    by rewrite Ht, Hk in Hb. }
  destruct (profile_built r address inputs terminals paths keychain Hov Hp Hk) as (profile' & Hb' & Hr).
  exists paths. split; [done|]. congruence.
Qed.

(** ** The theorem *)

(** C18. The Seatbelt profile says what it means: when the builder succeeds, the
    text it writes reads as the forms of its rules, each path and service name
    one string of its rule with the value the request gave, so that nothing in a
    path or a name can end its string, its rule or the profile; and it fails only
    when a terminal has no UTF-8 path or the keychain directory it needs was not
    prepared. *)
Theorem profile_reads_back r address inputs terminals :
  match seatbelt r ≫= profile_override with
  | Some override => build_profile_with_terminals r address inputs terminals = Ok override
  | None =>
      match mapM (M := option) id terminals with
      | Some paths =>
          if seatbelt_flag keychain_access r && negb (bool_decide (is_Some (user_keychains inputs)))
          then exists message, build_profile_with_terminals r address inputs terminals = Err (ProfileHost message)
          else exists profile, build_profile_with_terminals r address inputs terminals = Ok profile /\
                 read profile = Some (profile_forms r address inputs paths)
      | None => exists message, build_profile_with_terminals r address inputs terminals = Err (ProfileHost message)
      end
  end.
Proof.
  destruct (seatbelt r ≫= profile_override) as [override|] eqn:Hov; [unfold build_profile_with_terminals; by rewrite Hov|].
  destruct (mapM (M := option) id terminals) as [paths|] eqn:Hp; cycle 1.
  { unfold build_profile_with_terminals. rewrite Hov. pose proof (terminals_written terminals) as Ht. rewrite Hp in Ht.
    destruct Ht as [message ->]. by eexists. }
  destruct (write_keychain_rules r (user_keychains inputs)) as [keychain|e] eqn:Hk.
  - assert (Hok : seatbelt_flag keychain_access r && negb (bool_decide (is_Some (user_keychains inputs))) = false).
    { unfold write_keychain_rules in Hk. destruct (seatbelt_flag keychain_access r); [|done]. cbn in *.
      by destruct (user_keychains inputs). }
    rewrite Hok. by apply (profile_built r address inputs terminals paths keychain).
  - unfold build_profile_with_terminals. rewrite Hov. pose proof (terminals_written terminals) as Ht. rewrite Hp in Ht.
    rewrite Ht, Hk. cbn [mbind result_bind].
    unfold write_keychain_rules in Hk. destruct (seatbelt_flag keychain_access r); [|done]. cbn in *.
    destruct (user_keychains inputs); [done|]. cbn in Hk. injection Hk as <-. by eexists.
Qed.

End SeatbeltReader.
