(* ===== verification/SeatbeltRules.v ===== *)
(** * What a Seatbelt profile allows

    The rules of a profile and how Seatbelt decides an operation on a target, as
    the builder's comments state it: a rule that names the operation outranks one
    that reaches it through a wildcard, a rule with a filter outranks one without,
    and of the rules left the last one decides; the default is to deny.  The
    theorems say what the profile of a request decides for paths, for outbound
    connections and for the services of the window server. *)

From Stdlib Require Import Ascii.
From stdpp Require Import gmap.
From S2P Require Import Prelude Models Requests NetworkParser UnixPath FsPolicy MountView SeatbeltProfile SeatbeltReader.

#[local] Open Scope nat_scope.

Module SeatbeltRules.
Export SeatbeltReader MountView.

(** ** Rules *)

Record rule : Type := MkRule {
  allows : bool;
  ops : list string;
  filters : list sexp;
}.

Fixpoint leading_symbols (l : list sexp) : list string * list sexp :=
  match l with
  | Sym s :: l => let '(syms, rest) := leading_symbols l in (s :: syms, rest)
  | _ => ([], l)
  end.

Definition rule_of (form : sexp) : option rule :=
  match form with
  | Lst (Sym action :: rest) =>
      let '(syms, filters) := leading_symbols rest in
      if bool_decide (action = "allow") then Some (MkRule true syms filters)
      else if bool_decide (action = "deny") then Some (MkRule false syms filters)
      else None
  | _ => None
  end.

Definition rules (l : list sexp) : list rule := omap rule_of l.

(** ** Decisions *)

(** A path; an IP endpoint, on this machine or another; a Mach service. *)
Inductive target : Type :=
| TPath (path : list UnixPath.Component)
| TRemote (this_machine : bool) (port : Z)
| TMach (name : string).

(** A pattern of operations that ends with a star. *)
Definition wildcard (pattern op : string) : bool :=
  match strip_suffix_char "*" pattern with Some stem => String.prefix stem op | None => false end.

Section Decide.
(** Filters of other kinds (regular expressions, extensions, conjunctions). *)
Context (other : sexp -> target -> bool).

Definition matches (t : target) (filter : sexp) : bool :=
  match filter, t with
  | Lst [Sym kind; Str value], TPath q =>
      if bool_decide (kind = "subpath") then bool_decide (UnixPath.components value `prefix_of` q)
      else if bool_decide (kind = "literal") then bool_decide (UnixPath.components value = q)
      else if bool_decide (kind = "global-name") then false
      else other filter t
  | Lst [Sym kind; Str value], TMach name =>
      if bool_decide (kind = "global-name") then bool_decide (value = name)
      else if bool_decide (kind = "subpath") || bool_decide (kind = "literal") then false
      else other filter t
  | Lst [Sym kind; Str value], TRemote _ _ =>
      if bool_decide (kind ∈ ["subpath"; "literal"; "global-name"]) then false else other filter t
  | Lst [Sym kind; Sym _; Str value], TRemote this_machine port =>
      if bool_decide (kind = "remote")
      then this_machine && (bool_decide (value = "localhost:*") || bool_decide (value = "localhost:" +:+ dec port))
      else other filter t
  | _, _ => other filter t
  end.

(** How closely a rule names an operation. *)
Definition level (op : string) (r : rule) : option nat :=
  if bool_decide (op ∈ ops r) then Some 2
  else if existsb (fun pattern => wildcard pattern op) (ops r) then Some 1
  else if bool_decide ("default" ∈ ops r) then Some 0
  else None.

Definition weight (op : string) (t : target) (r : rule) : option nat :=
  l ← level op r;
  match filters r with
  | [] => Some (2 * l)
  | filters => if existsb (matches t) filters then Some (2 * l + 1) else None
  end.

Definition prefer (op : string) (t : target) (best : option (nat * bool)) (r : rule) : option (nat * bool) :=
  match weight op t r with
  | None => best
  | Some w => match best with Some (w', _) => if w' <=? w then Some (w, allows r) else best | None => Some (w, allows r) end
  end.

Definition allowed (l : list rule) (op : string) (t : target) : bool :=
  match foldl (prefer op t) None l with Some (_, a) => a | None => false end.

(** ** Which rule decides *)

Definition below (op : string) (t : target) (n : nat) (r : rule) : Prop := forall w, weight op t r = Some w -> w < n.

Lemma prefer_below op t l n best :
  Forall (below op t n) l -> match best with Some (w, _) => w < n | None => True end ->
  match foldl (prefer op t) best l with Some (w, _) => w < n | None => True end.
Proof.
  intros Hl. revert best. induction Hl as [|r l Hr Hl IH]; intros best Hb; [done|]. cbn. apply IH.
  unfold prefer. destruct (weight op t r) as [w|] eqn:Hw; [|done]. specialize (Hr w Hw).
  destruct best as [[w' a]|]; [|done]. destruct (w' <=? w); done.
Qed.

Lemma prefer_kept op t l w a : Forall (below op t w) l -> foldl (prefer op t) (Some (w, a)) l = Some (w, a).
Proof.
  induction 1 as [|r l Hr Hl IH]; [done|]. cbn. unfold prefer at 2. destruct (weight op t r) as [w'|] eqn:Hw; [|done].
  specialize (Hr w' Hw). rewrite (proj2 (Nat.leb_gt w w')) by lia. done.
Qed.

(** A rule that is outranked by none and followed by none of its rank. *)
Lemma decided op t l1 r l2 w :
  weight op t r = Some w -> Forall (below op t (S w)) l1 -> Forall (below op t w) l2 -> allowed (l1 ++ r :: l2) op t = allows r.
Proof.
  intros Hr H1 H2. unfold allowed. rewrite foldl_app. cbn [foldl].
  pose proof (prefer_below op t l1 (S w) None H1 I) as Hb.
  assert (Hp : prefer op t (foldl (prefer op t) None l1) r = Some (w, allows r)).
  { unfold prefer at 1. rewrite Hr. destruct (foldl (prefer op t) None l1) as [[w' a]|]; [|done].
    rewrite (proj2 (Nat.leb_le w' w)) by lia. done. }
  rewrite Hp, prefer_kept by done. done.
Qed.

Lemma decided_as op t l1 r l2 w a :
  weight op t r = Some w -> allows r = a -> Forall (below op t (S w)) l1 -> Forall (below op t w) l2 -> allowed (l1 ++ r :: l2) op t = a.
Proof. intros Hw <- H1 H2. by apply (decided op t l1 r l2 w). Qed.

Lemma undecided op t l : Forall (fun r => forall w, weight op t r = Some w -> allows r = false) l -> allowed l op t = false.
Proof.
  intros Hl. unfold allowed.
  assert (Hb : forall best, match best with Some (_, a) => a = false | None => True end ->
    match foldl (prefer op t) best l with Some (_, a) => a | None => false end = false).
  { induction Hl as [|r l Hr Hl IH]; intros best Hb; [by destruct best as [[? ?]|]|]. cbn. apply IH. unfold prefer.
    destruct (weight op t r) as [w|] eqn:Hw; [|done]. destruct best as [[w' a]|]; [destruct (w' <=? w)|]; [by eapply Hr|done|by eapply Hr]. }
  by apply Hb.
Qed.

Lemma weight_max op t r : below op t 6 r.
Proof.
  intros w. unfold weight, level. repeat case_match; cbn; intros; simplify_eq; lia.
Qed.

End Decide.


(** ** The rules of a profile *)

Lemma rules_app a b : rules (a ++ b) = rules a ++ rules b.
Proof. apply omap_app. Qed.

Lemma rules_cons f l : rules (f :: l) = match rule_of f with Some r => r :: rules l | None => rules l end.
Proof. done. Qed.

(** The rule over some paths, with its first path or more. *)
Lemma path_rule_of (ops : string) (a : bool) (syms : list string) (p : string) (paths : list string) :
  string_split " " ops = (if a then "allow" else "deny") :: syms ->
  rule_of (path_rule ops (p :: paths)) = Some (MkRule a syms (subpath <$> p :: paths)).
Proof.
  intros Hs. unfold path_rule. rewrite Hs, fmap_cons. cbn [app rule_of].
  assert (Hl : leading_symbols ((Sym <$> syms) ++ (subpath <$> p :: paths)) = (syms, subpath <$> p :: paths)).
  { clear. induction syms as [|s l IH]; [done|]. rewrite fmap_cons. cbn [app leading_symbols]. by rewrite IH. }
  rewrite Hl. by destruct a.
Qed.

Lemma sym_rule_of (a : bool) (op : string) (fs : list sexp) :
  leading_symbols fs = ([], fs) -> rule_of (sym_rule (if a then "allow" else "deny") op fs) = Some (MkRule a [op] fs).
Proof. intros Hf. unfold sym_rule, rule_of. cbn [leading_symbols]. rewrite Hf. by destruct a. Qed.

Lemma write_rule path : rule_of (path_rule write_ops [path]) =
  Some (MkRule true ["file-read*"; "file-write*"; "network-bind"; "network-outbound"] [subpath path]).
Proof. by apply (path_rule_of write_ops true). Qed.

Lemma read_rule path : rule_of (path_rule read_ops [path]) = Some (MkRule true ["file-read*"] [subpath path]).
Proof. by apply (path_rule_of read_ops true). Qed.

Lemma strip_rule path : rule_of (path_rule strip_ops [path]) =
  Some (MkRule false ["file-write*"; "network-bind"; "network-outbound"] [subpath path]).
Proof. by apply (path_rule_of strip_ops false). Qed.

Definition deny_list : list string := ["file-read*"; "file-read-metadata"; "file-write*"; "network-bind"; "network-outbound"].

(** An operation on files that the policy's denials are about. *)
Definition on_files (op : string) : bool := String.prefix "file-read" op || String.prefix "file-write" op.

(** A rule names no operation on files but those a denial names, and the reading
    of the root directory. *)
Definition path_safe (r : rule) : bool :=
  forallb (fun op =>
    bool_decide (op ∈ deny_list) || negb (on_files op)
    || (bool_decide (op = "file-read-data")
        && match filters r with [Lst [Sym kind; Str value]] => bool_decide (kind = "literal") && bool_decide (value = "/") | _ => false end))
    (ops r).

Lemma forallb_rules_app (P : rule -> bool) a b : forallb P (rules (a ++ b)) = forallb P (rules a) && forallb P (rules b).
Proof. by rewrite rules_app, forallb_app. Qed.

Lemma allow_forms_rules (P : rule -> bool) paths :
  (forall path, P (MkRule true ["file-read*"; "file-write*"; "network-bind"; "network-outbound"] [subpath path]) = true) ->
  (forall path, P (MkRule true ["file-read*"] [subpath path]) = true) ->
  (forall path, P (MkRule false ["file-write*"; "network-bind"; "network-outbound"] [subpath path]) = true) ->
  forallb P (rules (allow_forms paths)) = true.
Proof.
  intros H1 H2 H3. unfold allow_forms. induction (resolve_path_plan _ _ _) as [|[path intent] l IH]; [done|].
  rewrite bind_cons, forallb_rules_app, IH, andb_true_r. unfold mount_forms. cbn [mount_intent mount_path].
  destruct intent; [| |done].
  - rewrite rules_cons, write_rule. cbn. by rewrite H1.
  - rewrite !rules_cons, read_rule, strip_rule. cbn. by rewrite H2, H3.
Qed.

(** The forms of a profile before its denials. *)
Definition granting_forms (r : ExecutionRequest) (address : option ProxyAddress) (inputs : ProfileInputs) (terminals : list string)
    : list sexp :=
  [Lst [Sym "version"; Sym "1"]; Lst [Sym "deny"; Sym "default"]]
  ++ forms_of BASELINE_ALLOW ++ forms_of SYSTEM_READ_ALLOW ++ developer_forms (developer_dir inputs) ++ forms_of TTY_ALLOW
  ++ (terminal_form <$> terminals) ++ allow_forms (from_inputs inputs) ++ network_forms r address
  ++ forms_of (write_nested_pty_rules r) ++ keychain_forms r (user_keychains inputs) ++ extra_forms r ++ forms_of (write_ui_rules r).

Lemma profile_forms_split r address inputs terminals :
  profile_forms r address inputs terminals = granting_forms r address inputs terminals ++ deny_forms (from_inputs inputs).
Proof. unfold profile_forms, granting_forms. by rewrite <- !app_assoc. Qed.

Lemma terminals_rules (P : rule -> bool) terminals :
  (forall path, P (MkRule true ["file-read*"; "file-write*"; "file-ioctl"] [literal path]) = true) ->
  forallb P (rules (terminal_form <$> terminals)) = true.
Proof. intros HP. induction terminals as [|t l IH]; [done|]. rewrite fmap_cons, rules_cons.
  change (rule_of (terminal_form t)) with (Some (MkRule true ["file-read*"; "file-write*"; "file-ioctl"] [literal t])).
  cbn [forallb]. by rewrite HP, IH. Qed.

Lemma nested_pty_cases r :
  forms_of (write_nested_pty_rules r) = [] \/
  forms_of (write_nested_pty_rules r) = [sym_rule "allow" "pseudo-tty" [];
    Lst [Sym "allow"; Sym "file-read*"; Sym "file-write*"; Sym "file-ioctl"; literal "/dev/ptmx"]].
Proof. unfold write_nested_pty_rules. destruct (negb _ || _); [by left|right]. by vm_compute. Qed.

Lemma network_forms_rules (P : rule -> bool) r address :
  P (MkRule true ["network-outbound"] []) = true -> P (MkRule true ["network-bind"] [Lst [Sym "local"; Sym "ip"]]) = true ->
  P (MkRule true ["system-socket"] []) = true -> (forall a hp, P (MkRule a ["network-outbound"] [remote hp]) = true) ->
  P (MkRule true ["network-inbound"] [Lst [Sym "local"; Sym "ip"]]) = true ->
  forallb P (rules (network_forms r address)) = true.
Proof.
  intros H1 H2 H3 H4 H5. unfold network_forms. rewrite !forallb_rules_app. rewrite !andb_true_iff. split_and!.
  - destruct (egress_allowed _); [|reflexivity]. rewrite !rules_cons, !(sym_rule_of true) by done. cbn [forallb rules omap list_omap].
    by rewrite H1, H2, H3.
  - destruct (host_loopback_allowed _), (egress_allowed _); try reflexivity; rewrite rules_cons.
    + rewrite (sym_rule_of true) by done. cbn [forallb rules omap list_omap]. by rewrite H4.
    + rewrite (sym_rule_of false) by done. cbn [forallb rules omap list_omap]. by rewrite H4.
  - destruct (egress_allowed _), address as [address|]; try reflexivity.
    destruct (Parser.host_is_canonical_loopback _); [|reflexivity]. rewrite rules_cons, (sym_rule_of true) by done.
    cbn [forallb rules omap list_omap]. by rewrite H4.
  - destruct (local_network_allowed _); [|reflexivity]. rewrite rules_cons, (sym_rule_of true) by done.
    cbn [forallb rules omap list_omap]. by rewrite H5.
Qed.

Lemma granting_path_safe r address inputs terminals :
  forallb path_safe (rules (granting_forms r address inputs terminals)) = true.
Proof.
  unfold granting_forms. rewrite !forallb_rules_app.
  assert (H1 : forallb path_safe (rules (forms_of BASELINE_ALLOW)) = true) by (by vm_compute).
  assert (H2 : forallb path_safe (rules (forms_of SYSTEM_READ_ALLOW)) = true) by (by vm_compute).
  assert (H3 : forallb path_safe (rules (developer_forms (developer_dir inputs))) = true) by (by destruct (developer_dir inputs)).
  assert (H4 : forallb path_safe (rules (forms_of TTY_ALLOW)) = true) by (by vm_compute).
  assert (H5 : forallb path_safe (rules (terminal_form <$> terminals)) = true) by (by apply terminals_rules).
  assert (H6 : forallb path_safe (rules (allow_forms (from_inputs inputs))) = true) by (by apply allow_forms_rules).
  assert (H7 : forallb path_safe (rules (network_forms r address)) = true).
  { by apply network_forms_rules. }
  assert (H8 : forallb path_safe (rules (forms_of (write_nested_pty_rules r))) = true) by (by destruct (nested_pty_cases r) as [-> | ->]).
  assert (H9 : forallb path_safe (rules (keychain_forms r (user_keychains inputs))) = true).
  { unfold keychain_forms. destruct (seatbelt_flag _ _), (user_keychains inputs); reflexivity. }
  assert (H10 : forallb path_safe (rules (extra_forms r)) = true).
  { unfold extra_forms. destruct (seatbelt r) as [sb|]; [|done]. by destruct (extra_mach_lookups sb). }
  assert (H11 : forallb path_safe (rules (forms_of (write_ui_rules r))) = true).
  { unfold write_ui_rules. destruct (ui (policy r)) as [d c i]. cbn [disable clipboard injection].
    destruct d, (gui_access_effective r), c, i; by vm_compute. }
  by rewrite H1, H2, H3, H4, H5, H6, H7, H8, H9, H10, H11.
Qed.


(** ** Denied paths *)

Lemma existsb_subpath other paths p q :
  p ∈ paths -> UnixPath.components p `prefix_of` q -> existsb (matches other (TPath q)) (subpath <$> paths) = true.
Proof.
  intros Hp Hq. apply existsb_exists. exists (subpath p). split.
  - apply list_elem_of_In, list_elem_of_fmap. by exists p.
  - cbn. by apply bool_decide_eq_true.
Qed.

Lemma safe_below other op q r :
  path_safe r = true -> on_files op = true -> op ∉ deny_list -> q <> [UnixPath.RootDir] -> below other op (TPath q) 4 r.
Proof.
  intros Hr Hop Hne Hq w. unfold weight. destruct (level op r) as [l|] eqn:Hl; [|done]. cbn [mbind option_bind].
  unfold level in Hl. case_bool_decide as Hin; cycle 1.
  { assert (Hle : l <= 1) by (destruct (existsb _ _); [injection Hl as <-; lia|]; case_bool_decide; [injection Hl as <-; lia|done]).
    destruct (filters r) as [|f fs]; [intros [= <-]; lia|]. destruct (existsb _ (f :: fs)); [|done]. intros [= <-]. lia. }
  unfold path_safe in Hr. rewrite forallb_forall in Hr. specialize (Hr op (proj1 (list_elem_of_In _ _) Hin)).
  rewrite bool_decide_eq_false_2, Hop in Hr by done. cbn [negb orb] in Hr. apply andb_true_iff in Hr as [_ Hf].
  destruct (filters r) as [|[| | |[|[kind| | |] [|[|value| |] [|]]]] [|]]; try done.
  apply andb_true_iff in Hf as [Hk Hv]. apply bool_decide_eq_true in Hk, Hv. subst kind value.
  cbn [existsb matches]. change (bool_decide ("literal" = "subpath")) with false. change (bool_decide ("literal" = "literal")) with true.
  cbn iota. rewrite bool_decide_eq_false_2; [done|]. intros E. by apply Hq.
Qed.

(** ** Outbound connections *)

(** Of no account for a target: the default, or no match. *)
Definition idle (other : sexp -> target -> bool) (op : string) (t : target) (r : rule) : Prop :=
  forall w, weight other op t r = Some w -> w = 0 /\ allows r = false.

Definition idle_best (best : option (nat * bool)) : Prop := best = None \/ best = Some (0, false).

Lemma idle_kept other op t l w a : Forall (idle other op t) l -> foldl (prefer other op t) (Some (S w, a)) l = Some (S w, a).
Proof.
  intros Hl. apply prefer_kept. eapply Forall_impl; [exact Hl|]. intros r Hr w' Hw. destruct (Hr w' Hw). lia.
Qed.

Lemma idle_fold other op t l best : Forall (idle other op t) l -> idle_best best -> idle_best (foldl (prefer other op t) best l).
Proof.
  intros Hl. revert best. induction Hl as [|r l Hr Hl IH]; intros best Hb; [done|]. cbn. apply IH. unfold prefer.
  destruct (weight other op t r) as [w|] eqn:Hw; [|done]. destruct (Hr w Hw) as [-> Ha]. rewrite Ha.
  by destruct Hb as [-> | ->]; right.
Qed.

(** Rules of no account around others make no difference. *)
Lemma allowed_idle other op t pre l post :
  Forall (idle other op t) pre -> Forall (idle other op t) post ->
  Forall (fun r => forall w, weight other op t r = Some w -> 0 < w) l ->
  allowed other (pre ++ l ++ post) op t = allowed other l op t.
Proof.
  intros Hpre Hpost Hl. unfold allowed. rewrite !foldl_app.
  pose proof (idle_fold other op t pre None Hpre (or_introl eq_refl)) as H0. set (b0 := foldl _ None pre) in *.
  assert (Hmid : match foldl (prefer other op t) None l with
    | Some (S w, a) => foldl (prefer other op t) b0 l = Some (S w, a)
    | Some (0, _) => False
    | None => foldl (prefer other op t) b0 l = b0
    end).
  { clear Hpost. induction l as [|r l IH] using rev_ind; [done|]. apply Forall_app in Hl as [Hl Hr]. apply Forall_cons in Hr as [Hr _].
    specialize (IH Hl). rewrite !foldl_app. cbn [foldl].
    destruct (weight other op t r) as [w|] eqn:Hw.
    - specialize (Hr w eq_refl).
      assert (Hp : forall best, prefer other op t best r =
        match best with Some (w', _) => if w' <=? w then Some (w, allows r) else best | None => Some (w, allows r) end)
        by (intros best; unfold prefer; by rewrite Hw).
      rewrite !Hp. destruct w as [|w]; [lia|]. destruct (foldl (prefer other op t) None l) as [[[|w'] a]|]; [done| |].
      + rewrite IH. by destruct (S w' <=? S w).
      + rewrite IH. by destruct H0 as [-> | ->].
    - assert (Hp : forall best, prefer other op t best r = best) by (intros best; unfold prefer; by rewrite Hw). by rewrite !Hp. }
  destruct (foldl (prefer other op t) None l) as [[[|w] a]|]; [done|by rewrite Hmid, idle_kept|].
  rewrite Hmid. by destruct (idle_fold other op t post b0 Hpost H0) as [-> | ->].
Qed.

Definition is_subpath (f : sexp) : bool :=
  match f with Lst [Sym kind; Str _] => bool_decide (kind = "subpath") | _ => false end.

(** A rule that says nothing about outbound IP connections but the default. *)
Definition ip_quiet (r : rule) : bool :=
  negb (is_empty (filters r)) && forallb is_subpath (filters r)
  || negb (bool_decide ("network-outbound" ∈ ops r)) && negb (existsb (fun pattern => wildcard pattern "network-outbound") (ops r))
     && (negb (bool_decide ("default" ∈ ops r)) || negb (allows r) && is_empty (filters r)).

Lemma ip_quiet_idle other tm port r : ip_quiet r = true -> idle other "network-outbound" (TRemote tm port) r.
Proof.
  unfold ip_quiet. intros [Hf|Hl]%orb_true_iff w Hw; unfold weight in Hw.
  - apply andb_true_iff in Hf as [Hne Hf]. destruct (level _ r); [|done]. cbn [mbind option_bind] in Hw.
    destruct (filters r) as [|f fs]; [done|].
    assert (Hno : existsb (matches other (TRemote tm port)) (f :: fs) = false); [|by rewrite Hno in Hw].
    clear Hw Hne. induction (f :: fs) as [|[| | |[|[kind| | |] [|[|value| |] [|]]]] l IH]; try done.
    cbn [forallb] in Hf. apply andb_true_iff in Hf as [Hk Hf]. cbn [existsb]. rewrite (IH Hf), orb_false_r.
    cbn in Hk |- *. apply bool_decide_eq_true in Hk. by subst kind.
  - rewrite !andb_true_iff, !negb_true_iff in Hl. destruct Hl as [[H1 H2] H3].
    unfold level in Hw. rewrite H1, H2 in Hw. destruct (bool_decide ("default" ∈ ops r)); [|done].
    cbn in H3. apply andb_true_iff in H3 as [Ha Hf]. apply negb_true_iff in Ha. destruct (filters r); [|done].
    cbn in Hw. by injection Hw as <-.
Qed.

Lemma quiet_forall other tm port l :
  forallb ip_quiet l = true -> Forall (idle other "network-outbound" (TRemote tm port)) l.
Proof. intros Hl. apply Forall_forall. intros r Hr. apply ip_quiet_idle. rewrite forallb_forall in Hl. by apply Hl, list_elem_of_In. Qed.

Lemma deny_forms_rules (P : rule -> bool) paths :
  (forall d ds, P (MkRule false deny_list (subpath <$> d :: ds)) = true) -> forallb P (rules (deny_forms paths)) = true.
Proof.
  intros HP. unfold deny_forms. destruct (resolved_denied paths) as [|d ds]; [done|]. cbn [is_empty].
  rewrite rules_cons, (path_rule_of deny_ops false deny_list) by done. cbn [forallb rules omap list_omap]. by rewrite HP.
Qed.

(** The forms before and after those of the network. *)
Definition before_network (inputs : ProfileInputs) (terminals : list string) : list sexp :=
  [Lst [Sym "version"; Sym "1"]; Lst [Sym "deny"; Sym "default"]]
  ++ forms_of BASELINE_ALLOW ++ forms_of SYSTEM_READ_ALLOW ++ developer_forms (developer_dir inputs) ++ forms_of TTY_ALLOW
  ++ (terminal_form <$> terminals) ++ allow_forms (from_inputs inputs).

Definition after_network (r : ExecutionRequest) (inputs : ProfileInputs) : list sexp :=
  forms_of (write_nested_pty_rules r) ++ keychain_forms r (user_keychains inputs) ++ extra_forms r ++ forms_of (write_ui_rules r)
  ++ deny_forms (from_inputs inputs).

Lemma profile_forms_network r address inputs terminals :
  profile_forms r address inputs terminals = before_network inputs terminals ++ network_forms r address ++ after_network r inputs.
Proof. unfold profile_forms, before_network, after_network. by rewrite <- !app_assoc. Qed.

Lemma before_network_quiet inputs terminals : forallb ip_quiet (rules (before_network inputs terminals)) = true.
Proof.
  unfold before_network. rewrite !forallb_rules_app.
  assert (H1 : forallb ip_quiet (rules (forms_of BASELINE_ALLOW)) = true) by (by vm_compute).
  assert (H2 : forallb ip_quiet (rules (forms_of SYSTEM_READ_ALLOW)) = true) by (by vm_compute).
  assert (H3 : forallb ip_quiet (rules (developer_forms (developer_dir inputs))) = true) by (by destruct (developer_dir inputs)).
  assert (H4 : forallb ip_quiet (rules (forms_of TTY_ALLOW)) = true) by (by vm_compute).
  assert (H5 : forallb ip_quiet (rules (terminal_form <$> terminals)) = true) by (by apply terminals_rules).
  assert (H6 : forallb ip_quiet (rules (allow_forms (from_inputs inputs))) = true) by (by apply allow_forms_rules).
  by rewrite H1, H2, H3, H4, H5, H6.
Qed.

Lemma after_network_quiet r inputs : forallb ip_quiet (rules (after_network r inputs)) = true.
Proof.
  unfold after_network. rewrite !forallb_rules_app.
  assert (H8 : forallb ip_quiet (rules (forms_of (write_nested_pty_rules r))) = true) by (by destruct (nested_pty_cases r) as [-> | ->]).
  assert (H9 : forallb ip_quiet (rules (keychain_forms r (user_keychains inputs))) = true).
  { unfold keychain_forms. destruct (seatbelt_flag _ _), (user_keychains inputs); reflexivity. }
  assert (H10 : forallb ip_quiet (rules (extra_forms r)) = true).
  { unfold extra_forms. destruct (seatbelt r) as [sb|]; [|done]. by destruct (extra_mach_lookups sb). }
  assert (H11 : forallb ip_quiet (rules (forms_of (write_ui_rules r))) = true).
  { unfold write_ui_rules. destruct (ui (policy r)) as [d c i]. cbn [disable clipboard injection].
    destruct d, (gui_access_effective r), c, i; by vm_compute. }
  rewrite H8, H9, H10, H11. apply deny_forms_rules. intros d ds. unfold ip_quiet. cbn [filters].
  rewrite fmap_cons. cbn [is_empty forallb negb andb].
  assert (Hs : forallb is_subpath (subpath <$> ds) = true) by (clear; induction ds; [done|]; by cbn). by rewrite Hs.
Qed.

(** What the request says about an outbound connection. *)
Definition outbound_expected (p : ContainerPolicy) (address : option ProxyAddress) (this_machine : bool) (port : Z) : bool :=
  if egress_allowed p then negb this_machine || host_loopback_allowed p
  else this_machine &&
    (host_loopback_allowed p ||
     match address with
     | Some a => Parser.host_is_canonical_loopback (proxy_address a) && (proxy_port a =? port)%Z
     | None => false
     end).

Lemma remote_matches other tm port hp :
  matches other (TRemote tm port) (remote hp) = tm && (bool_decide (hp = "localhost:*") || bool_decide (hp = "localhost:" +:+ dec port)).
Proof. done. Qed.

Lemma proxy_matches other tm port pport :
  (0 <= port)%Z -> (0 <= pport)%Z ->
  matches other (TRemote tm port) (remote ("localhost:" +:+ dec pport)) = tm && (pport =? port)%Z.
Proof.
  intros H1 H2. rewrite remote_matches. f_equal.
  assert (Hstar : "localhost:" +:+ dec pport <> "localhost:*").
  { intros E. apply (inj (String.append "localhost:")) in E. pose proof (dec_digits pport) as Hd. by rewrite E in Hd. }
  rewrite (bool_decide_eq_false_2 _ Hstar). cbn [orb]. case_bool_decide as E.
  - apply (inj (String.append "localhost:")), dec_inj in E; [|done..]. subst. by rewrite Z.eqb_refl.
  - symmetry. apply Z.eqb_neq. intros ->. done.
Qed.

Section Outbound.
Context (other : sexp -> target -> bool) (tm : bool) (port : Z).
#[local] Abbreviation out := (weight other "network-outbound" (TRemote tm port)).

Lemma out_remote a hp : out (MkRule a ["network-outbound"] [remote hp]) = if matches other (TRemote tm port) (remote hp) then Some 5 else None.
Proof. unfold weight. cbn -[matches]. rewrite orb_false_r. by destruct (matches _ _ _). Qed.

Lemma out_open : out (MkRule true ["network-outbound"] []) = Some 4.
Proof. done. Qed.
Lemma out_bind : out (MkRule true ["network-bind"] [Lst [Sym "local"; Sym "ip"]]) = None.
Proof. done. Qed.
Lemma out_socket : out (MkRule true ["system-socket"] []) = None.
Proof. done. Qed.
Lemma out_inbound : out (MkRule true ["network-inbound"] [Lst [Sym "local"; Sym "ip"]]) = None.
Proof. done. Qed.

Ltac rule_list := rewrite ?rules_cons, ?(sym_rule_of true) by done; rewrite ?(sym_rule_of false) by done.
Ltac weigh :=
  unfold allowed; cbn [rules omap list_omap app foldl]; unfold prefer;
  rewrite ?out_open, ?out_bind, ?out_socket, ?out_inbound, ?out_remote.

Lemma network_rules_decide r address :
  (0 <= port)%Z -> match address with Some a => (0 <= proxy_port a)%Z | None => True end ->
  Forall (fun r => forall w, out r = Some w -> 0 < w) (rules (network_forms r address)) /\
  allowed other (rules (network_forms r address)) "network-outbound" (TRemote tm port) = outbound_expected (policy r) address tm port.
Proof.
  intros Hport Hpp. split.
  - pose proof (network_forms_rules (fun r => match out r with Some 0 => false | _ => true end) r address) as Hn.
    rewrite Forall_forall. intros r' Hr' w Hw. destruct w; [|lia]. exfalso. rewrite forallb_forall in Hn.
    assert (Hf : match out r' with Some 0 => false | _ => true end = true).
    { apply Hn; [done..| |done|by apply list_elem_of_In]. intros a hp. rewrite out_remote. by destruct (matches _ _ _). }
    by rewrite Hw in Hf.
  - unfold network_forms, outbound_expected. rewrite !rules_app.
    destruct (egress_allowed _), (host_loopback_allowed _), (local_network_allowed _); rule_list;
      try (weigh; rewrite ?remote_matches; by destruct tm);
      (destruct address as [a|]; [|weigh; rewrite ?remote_matches; by destruct tm]);
      (destruct (Parser.host_is_canonical_loopback _); rule_list; weigh; rewrite ?proxy_matches, ?remote_matches by done;
       destruct tm; cbn [andb orb]; try done; by destruct (_ =? _)%Z).
Qed.
End Outbound.

(** ** Granted paths *)

Lemma prefix_split a s : String.prefix a s = true <-> exists rest, s = a +:+ rest.
Proof.
  revert s. induction a as [|c a IH]; intros s; [split; [by exists s|by destruct s]|]. destruct s as [|d s].
  - split; [done|]. by intros [rest ?].
  - cbn [String.prefix]. destruct (ascii_dec c d) as [->|Hne].
    + rewrite IH. split; intros [rest E]; exists rest; [by rewrite E|]. by injection E.
    + split; [done|]. intros [rest E]. by injection E as ->.
Qed.

(** A rule that is about no operation on files. *)
Definition file_free (r : rule) : bool :=
  forallb (fun op => negb (String.prefix "file-" op) && negb (bool_decide (op = "default"))
    && match strip_suffix_char "*" op with Some _ => false | None => true end) (ops r).

Lemma file_op_read op : on_files op = true ->
  (exists rest, op = "file-read" +:+ rest) \/ (exists rest, op = "file-write" +:+ rest).
Proof. unfold on_files. intros [H|H]%orb_true_iff; [left|right]; by apply prefix_split. Qed.

Lemma read_or_write op : on_files op = true -> String.prefix "file-write" op = negb (String.prefix "file-read" op).
Proof.
  intros Hop. destruct (file_op_read op Hop) as [[rest ->]|[rest ->]].
  - assert (H : String.prefix "file-read" ("file-read" +:+ rest) = true) by (apply prefix_split; by exists rest). by rewrite H.
  - assert (H : String.prefix "file-write" ("file-write" +:+ rest) = true) by (apply prefix_split; by exists rest). by rewrite H.
Qed.

Lemma file_free_silent other op t r : on_files op = true -> file_free r = true -> weight other op t r = None.
Proof.
  intros Hop Hr. unfold weight, level. unfold file_free in Hr. rewrite forallb_forall in Hr.
  assert (Hin : op ∉ ops r).
  { intros Hin%list_elem_of_In%Hr. rewrite !andb_true_iff in Hin. destruct Hin as [[Hp _] _].
    by destruct (file_op_read op Hop) as [[rest ->]|[rest ->]]. }
  assert (Hwild : existsb (fun pattern => wildcard pattern op) (ops r) = false).
  { destruct (existsb _ _) eqn:E; [|done]. apply existsb_exists in E as (o & Ho%Hr & Hw). rewrite !andb_true_iff in Ho.
    destruct Ho as [_ Ho]. unfold wildcard in Hw. by destruct (strip_suffix_char "*" o). }
  assert (Hdef : "default" ∉ ops r).
  { intros Hd%list_elem_of_In%Hr. by rewrite !andb_true_iff in Hd; destruct Hd as [[_ ?] _]. }
  by rewrite bool_decide_eq_false_2, Hwild, bool_decide_eq_false_2.
Qed.

Lemma silent_below other op t r n : weight other op t r = None -> below other op t n r.
Proof. intros Hr w Hw. congruence. Qed.

(** A rule of the policy's paths, for a path it is not about. *)
Lemma subpath_silent other op q (a : bool) l path :
  ~ UnixPath.components path `prefix_of` q -> weight other op (TPath q) (MkRule a l [subpath path]) = None.
Proof.
  intros Hn. unfold weight. destruct (level _ _); [|done]. cbn [mbind option_bind filters existsb].
  assert (Hm : matches other (TPath q) (subpath path) = false) by (by apply bool_decide_eq_false_2). by rewrite Hm.
Qed.

Lemma subpath_weight other op q (a : bool) l path :
  UnixPath.components path `prefix_of` q ->
  weight other op (TPath q) (MkRule a l [subpath path]) = (fun n => 2 * n + 1) <$> level op (MkRule a l [subpath path]).
Proof.
  intros Hp. unfold weight. destruct (level _ _) as [n|]; [|done]. cbn [mbind option_bind filters].
  change [subpath path] with (subpath <$> [path]). by rewrite (existsb_subpath other [path] path q) by (done || left).
Qed.

(** The level of a file operation in a rule that reaches it by a wildcard. *)
Lemma file_level op (a : bool) fs (read write : bool) rest :
  on_files op = true -> op ∉ deny_list -> file_free (MkRule a rest []) = true ->
  level op (MkRule a ((if read then ["file-read*"] else []) ++ (if write then ["file-write*"] else []) ++ rest) fs) =
  if read && String.prefix "file-read" op || write && String.prefix "file-write" op then Some 1 else None.
Proof.
  intros Hop Hd Hrest. unfold level. cbn [ops].
  assert (Hr : level op (MkRule a rest []) = None).
  { pose proof (file_free_silent (fun _ _ => false) op (TMach "") (MkRule a rest []) Hop Hrest) as H. unfold weight in H. by destruct (level _ _). }
  unfold level in Hr. cbn [ops] in Hr. case_bool_decide as Hin; [done|]. destruct (existsb _ rest) eqn:Hw; [done|].
  case_bool_decide as Hdef; [done|].
  assert (H1 : op ∉ (if read then ["file-read*"] else []) ++ (if write then ["file-write*"] else []) ++ rest).
  { intros [Hx|[Hx|Hx]%elem_of_app]%elem_of_app; [| |done].
    - destruct read; [|by apply elem_of_nil in Hx]. apply list_elem_of_singleton in Hx. subst. apply Hd. left.
    - destruct write; [|by apply elem_of_nil in Hx]. apply list_elem_of_singleton in Hx. subst. apply Hd. right. right. left. }
  assert (H2 : "default" ∉ (if read then ["file-read*"] else []) ++ (if write then ["file-write*"] else []) ++ rest).
  { intros [Hx|[Hx|Hx]%elem_of_app]%elem_of_app; [| |done].
    - destruct read; [|by apply elem_of_nil in Hx]. by apply list_elem_of_singleton in Hx.
    - destruct write; [|by apply elem_of_nil in Hx]. by apply list_elem_of_singleton in Hx. }
  rewrite (bool_decide_eq_false_2 _ H1), (bool_decide_eq_false_2 _ H2), !existsb_app, Hw, orb_false_r.
  replace (existsb (fun pattern => wildcard pattern op) (if read then ["file-read*"] else [])) with (read && String.prefix "file-read" op).
  2: { destruct read; [|done]. cbn [existsb]. rewrite orb_false_r. done. }
  replace (existsb (fun pattern => wildcard pattern op) (if write then ["file-write*"] else [])) with (write && String.prefix "file-write" op).
  2: { destruct write; [|done]. cbn [existsb]. rewrite orb_false_r. done. }
  done.
Qed.

(** The forms before those of the granted paths. *)
Definition base_forms (inputs : ProfileInputs) (terminals : list string) : list sexp :=
  [Lst [Sym "version"; Sym "1"]; Lst [Sym "deny"; Sym "default"]]
  ++ forms_of BASELINE_ALLOW ++ forms_of SYSTEM_READ_ALLOW ++ developer_forms (developer_dir inputs) ++ forms_of TTY_ALLOW
  ++ (terminal_form <$> terminals).

Lemma profile_forms_allow r address inputs terminals :
  profile_forms r address inputs terminals =
  base_forms inputs terminals ++ allow_forms (from_inputs inputs) ++ network_forms r address ++ after_network r inputs.
Proof. unfold profile_forms, base_forms, after_network. by rewrite <- !app_assoc. Qed.

Lemma base_path_safe inputs terminals : forallb path_safe (rules (base_forms inputs terminals)) = true.
Proof.
  pose proof (granting_path_safe ExecutionRequest_default None inputs terminals) as Hs.
  assert (Hg : exists rest, granting_forms ExecutionRequest_default None inputs terminals = base_forms inputs terminals ++ rest).
  { eexists. unfold granting_forms, base_forms. rewrite <- !app_assoc. reflexivity. }
  destruct Hg as [rest Hg]. rewrite Hg, forallb_rules_app in Hs. by apply andb_true_iff in Hs as [? _].
Qed.

(** The denials say nothing of a path that none of them is above. *)
Lemma deny_forms_silent other inputs op q :
  (forall d, d ∈ input_denied inputs -> ~ UnixPath.components d `prefix_of` q) ->
  Forall (fun r => weight other op (TPath q) r = None) (rules (deny_forms (from_inputs inputs))).
Proof.
  intros Hden. unfold deny_forms. cbn [resolved_denied from_inputs]. destruct (input_denied inputs) as [|d ds]; [constructor|]. cbn [is_empty].
  rewrite rules_cons, (path_rule_of deny_ops false deny_list) by done. constructor; [|constructor].
  unfold weight. destruct (level _ _); [|done]. cbn [mbind option_bind filters]. rewrite fmap_cons.
  change (subpath d :: (subpath <$> ds)) with (subpath <$> d :: ds).
  assert (Hno : existsb (matches other (TPath q)) (subpath <$> d :: ds) = false); [|by rewrite Hno].
  revert Hden. clear. induction (d :: ds) as [|x l IH]; intros Hden; [done|]. rewrite fmap_cons. cbn [existsb].
  assert (Hm : matches other (TPath q) (subpath x) = false) by (apply bool_decide_eq_false_2; apply Hden; left).
  rewrite Hm. apply IH. intros d' Hd'. apply Hden. by right.
Qed.

(** What comes after the granted paths, when no option opens other paths. *)
Lemma later_silent other r address inputs op q :
  gui_access_effective r = false -> seatbelt_flag keychain_access r = false ->
  (forall d, d ∈ input_denied inputs -> ~ UnixPath.components d `prefix_of` q) -> q <> path_of ["dev"; "ptmx"] -> on_files op = true ->
  Forall (fun r => weight other op (TPath q) r = None) (rules (network_forms r address ++ after_network r inputs)).
Proof.
  intros Hgui Hkey Hden Hq Hop. unfold after_network, keychain_forms. rewrite Hkey, !rules_app, !Forall_app.
  assert (Hfree : forall l, forallb file_free l = true -> Forall (fun r => weight other op (TPath q) r = None) l).
  { intros l Hl. apply Forall_forall. intros r' Hr'. apply file_free_silent; [done|]. rewrite forallb_forall in Hl. by apply Hl, list_elem_of_In. }
  split_and!.
  - apply Hfree. by apply network_forms_rules.
  - destruct (nested_pty_cases r) as [-> | ->]; [constructor|]. constructor; [by apply file_free_silent|]. constructor; [|constructor].
    unfold weight. destruct (level _ _); [|done]. cbn [mbind option_bind filters existsb].
    assert (Hm : matches other (TPath q) (literal "/dev/ptmx") = false) by (apply bool_decide_eq_false_2; intros E; by apply Hq). by rewrite Hm.
  - constructor.
  - apply Hfree. unfold extra_forms. destruct (seatbelt r) as [sb|]; [|done]. by destruct (extra_mach_lookups sb).
  - apply Hfree. unfold write_ui_rules. rewrite Hgui. destruct (ui (policy r)) as [d c i]. cbn [disable clipboard injection].
    destruct d, c, i; by vm_compute.
  - by apply deny_forms_silent.
Qed.

(** The rules of a plan, for a file operation at a path its mount [m] is the
    last to cover. *)
Lemma plan_decides other op q pre l1 m l2 post :
  on_files op = true -> op ∉ deny_list -> mount_intent m <> Denied ->
  UnixPath.components (mount_path m) `prefix_of` q ->
  (forall m', m' ∈ l2 -> ~ UnixPath.components (mount_path m') `prefix_of` q) ->
  Forall (below other op (TPath q) 4) (pre ++ rules (l1 ≫= mount_forms)) ->
  Forall (fun r => weight other op (TPath q) r = None) post ->
  allowed other (pre ++ rules ((l1 ++ m :: l2) ≫= mount_forms) ++ post) op (TPath q) =
    match mount_intent m with ReadWrite => true | _ => String.prefix "file-read" op end.
Proof.
  intros Hop Hd Hne Hm Hl2 Hpre Hpost. rewrite bind_app, bind_cons, !rules_app.
  assert (Hafter : Forall (below other op (TPath q) 3) (rules (l2 ≫= mount_forms) ++ post)).
  { apply Forall_app. split; [|eapply Forall_impl; [exact Hpost|]; intros r Hr; by apply silent_below].
    clear Hpost Hpre. induction l2 as [|[path intent] l2 IH]; [constructor|]. rewrite bind_cons, rules_app. apply Forall_app.
    split; [|apply IH; intros m' Hm'; apply Hl2; by right]. assert (Hp : ~ UnixPath.components path `prefix_of` q) by (apply (Hl2 (MkMount path intent)); left).
    unfold mount_forms. cbn [mount_intent mount_path]. destruct intent; rewrite ?rules_cons, ?write_rule, ?read_rule, ?strip_rule;
      repeat (apply List.Forall_cons; [by apply silent_below, subpath_silent|]); apply List.Forall_nil. }
  pose proof (read_or_write op Hop) as Hrw.
  unfold mount_forms at 2. destruct m as [path intent]. cbn [mount_intent mount_path] in *. destruct intent; [| |done].
  - rewrite rules_cons, write_rule. rewrite <- !app_assoc, app_assoc. cbn [app].
    apply (decided_as other op (TPath q) _ _ _ 3); [|done..]. rewrite subpath_weight by done.
    pose proof (file_level op true [subpath path] true true ["network-bind"; "network-outbound"] Hop Hd eq_refl) as Hlev. cbn [app andb orb] in Hlev. rewrite Hlev. rewrite Hrw.
    by destruct (String.prefix "file-read" op).
  - rewrite !rules_cons, read_rule, strip_rule. rewrite <- !app_assoc, app_assoc. cbn [app].
    assert (Hread : weight other op (TPath q) (MkRule true ["file-read*"] [subpath path]) = if String.prefix "file-read" op then Some 3 else None).
    { rewrite subpath_weight by done. pose proof (file_level op true [subpath path] true false [] Hop Hd eq_refl) as Hlev. cbn [app andb orb] in Hlev. rewrite Hlev. cbn [andb orb].
      rewrite orb_false_r. by destruct (String.prefix "file-read" op). }
    assert (Hstrip : weight other op (TPath q) (MkRule false ["file-write*"; "network-bind"; "network-outbound"] [subpath path]) =
      if String.prefix "file-read" op then None else Some 3).
    { rewrite subpath_weight by done. pose proof (file_level op false [subpath path] false true ["network-bind"; "network-outbound"] Hop Hd eq_refl) as Hlev. cbn [app andb orb] in Hlev. rewrite Hlev.
      cbn [andb orb]. rewrite Hrw. by destruct (String.prefix "file-read" op). }
    destruct (String.prefix "file-read" op).
    + apply (decided_as other op (TPath q) _ _ _ 3); [done..|]. constructor; [by apply silent_below|done].
    + change (?a ++ ?x :: ?y :: ?l) with (a ++ [x] ++ y :: l). rewrite app_assoc.
      apply (decided_as other op (TPath q) _ _ _ 3); [done|done| |done]. apply Forall_app. split; [done|]. constructor; [by apply silent_below|constructor].
Qed.

(** ** The window server and the pasteboard *)

Definition mach_rule (a : bool) (names : list string) : rule := MkRule a ["mach-lookup"] (global_name <$> names).
Definition WINDOW_NAMES : list string :=
  ["com.apple.windowserver.active"; "com.apple.windowserver.session"; "com.apple.coreservices.launchservicesd"].

(** The rules for the pasteboard and for injection, which end the UI's. *)
Definition ui_tail (u : UiPolicy) : list rule :=
  mach_rule (match clipboard u with ClipNone => false | _ => true end) ["com.apple.pasteboard.1"]
  :: (if injection u then [] else [MkRule false ["iokit-open"] [Lst [Sym "iokit-user-client-class"; Str "IOHIDLibUserClient"]]]).

Lemma ui_rules_shape r :
  exists head, rules (forms_of (write_ui_rules r)) = head ++ ui_tail (ui (policy r)) /\
    (disable (ui (policy r)) = true -> head = [mach_rule false WINDOW_NAMES]).
Proof.
  unfold write_ui_rules. destruct (ui (policy r)) as [d c i]. cbn [disable].
  destruct d; [exists [mach_rule false WINDOW_NAMES]|
    exists (rules (forms_of (UI_ENABLED +:+ (if gui_access_effective r then GUI_RULES else ""))))];
    (split; [|done]); destruct (gui_access_effective r), c, i; by vm_compute.
Qed.

Lemma mach_rule_weight other a names name :
  weight other "mach-lookup" (TMach name) (mach_rule a names) = 
  match names with [] => Some 4 | _ => if bool_decide (name ∈ names) then Some 5 else None end.
Proof.
  unfold weight, mach_rule. change (level "mach-lookup" _) with (Some 2). cbn [mbind option_bind filters].
  destruct names as [|n names]; [done|]. rewrite fmap_cons. change (global_name n :: (global_name <$> names)) with (global_name <$> n :: names).
  assert (He : existsb (matches other (TMach name)) (global_name <$> n :: names) = bool_decide (name ∈ n :: names)); [|by rewrite He].
  induction (n :: names) as [|x l IH]; [done|]. rewrite fmap_cons. cbn [existsb]. rewrite IH.
  change (matches other (TMach name) (global_name x)) with (bool_decide (x = name)).
  rewrite <- bool_decide_or. apply bool_decide_ext. rewrite elem_of_cons. naive_solver.
Qed.

Lemma ui_rule_denies other r name :
  (disable (ui (policy r)) = true /\ name ∈ WINDOW_NAMES) \/ (clipboard (ui (policy r)) = ClipNone /\ name = "com.apple.pasteboard.1") ->
  exists l1 rule l2, rules (forms_of (write_ui_rules r)) = l1 ++ rule :: l2 /\
    weight other "mach-lookup" (TMach name) rule = Some 5 /\ allows rule = false /\
    Forall (fun r => weight other "mach-lookup" (TMach name) r = None) l2.
Proof.
  destruct (ui_rules_shape r) as (head & -> & Hhead).
  assert (Htail : forall i : bool, Forall (fun r => weight other "mach-lookup" (TMach name) r = None)
    (if i then [] else [MkRule false ["iokit-open"] [Lst [Sym "iokit-user-client-class"; Str "IOHIDLibUserClient"]]])).
  { intros []; [constructor|]. by repeat constructor. }
  intros [[Hd Hn]|[Hc ->]].
  - rewrite (Hhead Hd). exists [], (mach_rule false WINDOW_NAMES), (ui_tail (ui (policy r))). split_and!; [done| |done|].
    + rewrite mach_rule_weight. cbn [WINDOW_NAMES]. by rewrite bool_decide_eq_true_2.
    + constructor; [|apply Htail]. rewrite mach_rule_weight. rewrite bool_decide_eq_false_2; [done|].
      intros ->%list_elem_of_singleton. revert Hn. apply (bool_decide_unpack (~ _)). by vm_compute.
  - unfold ui_tail. rewrite Hc. eexists head, _, _. split_and!; [reflexivity| |done|apply Htail].
    rewrite mach_rule_weight. by rewrite bool_decide_eq_true_2 by left.
Qed.

(** *** The directories of a GUI *)

Definition GUI_DIRECTORIES : list string := ["/private/tmp"; "/private/var/folders"].

Lemma gui_rules_shape r :
  gui_access_effective r = true ->
  exists l1 l2, rules (forms_of (write_ui_rules r)) =
    l1 ++ MkRule true ["file-read*"; "file-write*"] (subpath <$> GUI_DIRECTORIES) :: l2 /\
    Forall (fun rule => file_free rule = true \/ filters rule = [literal "/dev/ptmx"]) l2.
Proof.
  intros Hgui. assert (Hd : disable (ui (policy r)) = false).
  { unfold gui_access_effective in Hgui. by destruct (disable _); [rewrite ?andb_false_r in Hgui|]. }
  unfold write_ui_rules. rewrite Hgui. destruct (ui (policy r)) as [d c i]. cbn [disable] in Hd. subst d. cbn [disable clipboard injection].
  exists (take 4 (rules (forms_of (UI_ENABLED +:+ GUI_RULES)))).
  destruct c, i; eexists; (split; [vm_compute; reflexivity|]);
    repeat (constructor; [first [left; reflexivity | right; reflexivity]|]); constructor.
Qed.

Section Theorems.
Context (other : sexp -> target -> bool).

(** C7. deniedPaths hold on Seatbelt, whatever else the request grants: in a
    profile that was built, no operation that reads or writes a file, its
    metadata included, and no socket operation is allowed at a denied path or
    below it (the root directory itself excepted). *)
Theorem seatbelt_denies_denied_paths r address inputs terminals profile p q op :
  seatbelt r ≫= profile_override = None ->
  build_profile_with_terminals r address inputs terminals = Ok profile ->
  p ∈ input_denied inputs -> UnixPath.components p `prefix_of` q -> q <> [UnixPath.RootDir] ->
  on_files op = true \/ op = "network-bind" \/ op = "network-outbound" ->
  exists l, read profile = Some l /\ allowed other (rules l) op (TPath q) = false.
Proof.
  intros Hov Hb Hp Hpq Hq Hop. destruct (built_reads r address inputs terminals profile Hov Hb) as (paths & _ & Hr).
  eexists. split; [exact Hr|]. rewrite profile_forms_split, rules_app. unfold deny_forms. cbn [resolved_denied from_inputs].
  destruct (input_denied inputs) as [|d ds] eqn:Hd; [by apply elem_of_nil in Hp|]. cbn [is_empty].
  rewrite rules_cons, (path_rule_of deny_ops false deny_list) by done.
  change (rules []) with (@nil rule).
  assert (Hw : exists w, weight other op (TPath q) (MkRule false deny_list (subpath <$> d :: ds)) = Some w /\
    Forall (below other op (TPath q) (S w)) (rules (granting_forms r address inputs paths))).
  { unfold weight. cbn [filters]. rewrite fmap_cons. change (subpath d :: (subpath <$> ds)) with (subpath <$> d :: ds).
    rewrite (existsb_subpath other (d :: ds) p q) by done. unfold level. cbn [ops].
    case_bool_decide as Hin; [exists 5; split; [done|]; apply Forall_forall; intros r' _; apply weight_max|].
    destruct Hop as [Hop|[->| ->]]; [|destruct Hin; apply (bool_decide_unpack _); by vm_compute..].
    assert (Hwild : existsb (fun pattern => wildcard pattern op) deny_list = true).
    { unfold on_files in Hop. apply orb_true_iff in Hop as [Hop|Hop]; apply existsb_exists.
      - exists "file-read*". split; [by left|exact Hop].
      - exists "file-write*". split; [by right; right; left|exact Hop]. }
    rewrite Hwild. exists 3. split; [done|]. apply Forall_forall. intros r' Hr'. apply safe_below; [|done..].
    pose proof (granting_path_safe r address inputs paths) as Hs. rewrite forallb_forall in Hs. by apply Hs, list_elem_of_In. }
  destruct Hw as (w & Hw & Hbelow). exact (decided other op (TPath q) _ _ [] w Hw Hbelow (List.Forall_nil _)).
Qed.

(** C28. Outbound connections under Seatbelt.  In a profile that was built, a
    connection to another machine is allowed exactly when network.egress.default
    is allow; one to this machine exactly when hostLoopback is allow or, under a
    deny default, when it is to the port of a loopback proxy; nothing in the
    request's paths, services or options changes that. *)
Theorem seatbelt_outbound_decided r address inputs terminals profile this_machine port :
  seatbelt r ≫= profile_override = None ->
  build_profile_with_terminals r address inputs terminals = Ok profile ->
  (0 <= port)%Z -> match address with Some a => (0 <= proxy_port a)%Z | None => True end ->
  exists l, read profile = Some l /\
    allowed other (rules l) "network-outbound" (TRemote this_machine port) = outbound_expected (policy r) address this_machine port.
Proof.
  intros Hov Hb Hport Hpp. destruct (built_reads r address inputs terminals profile Hov Hb) as (paths & _ & Hr).
  eexists. split; [exact Hr|]. rewrite profile_forms_network, !rules_app.
  destruct (network_rules_decide other this_machine port r address Hport Hpp) as [Hpos Hd].
  rewrite allowed_idle; [done| | |done]; apply quiet_forall; [apply before_network_quiet|apply after_network_quiet].
Qed.

(** The grants of a Seatbelt profile follow the policy.  Where no denied path
    is above a path and neither guiAccess nor keychainAccess opens directories of
    its own, the granted path that is most specific decides a read or a write
    there: under readwritePaths both are allowed, under readonlyPaths reads are
    and writes are not, inside a wider writable directory too. *)
Theorem seatbelt_grants_follow_policy r address inputs terminals profile q m op :
  let paths := from_inputs inputs in
  let entries := tagged (resolved_readwrite paths) (resolved_readonly paths) [] in
  seatbelt r ≫= profile_override = None ->
  build_profile_with_terminals r address inputs terminals = Ok profile ->
  gui_access_effective r = false -> seatbelt_flag keychain_access r = false ->
  (forall path intent, (path, intent) ∈ entries -> exists names, plain names /\ path = UnixPath.absolute names) ->
  most_specific entries q m ->
  (forall d, d ∈ input_denied inputs -> ~ UnixPath.components d `prefix_of` path_of q) ->
  q <> [] -> q <> ["dev"; "ptmx"] -> on_files op = true -> op ∉ deny_list ->
  exists l, read profile = Some l /\
    allowed other (rules l) op (TPath (path_of q)) =
      match mount_intent m with ReadWrite => true | _ => String.prefix "file-read" op end.
Proof.
  intros paths entries Hov Hb Hgui Hkey Hplain Hms Hden Hq Hptmx Hop Hd.
  destruct (built_reads r address inputs terminals profile Hov Hb) as (ts & _ & Hr).
  eexists. split; [exact Hr|]. rewrite profile_forms_allow, rules_app.
  set (p := set_paths ContainerPolicy_default (resolved_readwrite paths) (resolved_readonly paths) []).
  assert (Hp : plain_policy p) by exact Hplain.
  pose proof (most_specific_covering p q Hp m Hms) as Htop. rewrite <- last_covering_components in Htop by done.
  apply last_filter_split in Htop as (l1 & l2 & Hplan & Hm & Hl2).
  unfold allow_forms. fold paths. change (resolve_path_plan (resolved_readwrite paths) (resolved_readonly paths) []) with (resolve_mount_order p).
  rewrite Hplan, rules_app. apply plan_decides; [done|done| |done|done| |].
  - intros Hi. destruct Hms as [Hin _]. rewrite Hi in Hin. apply elem_of_tagged in Hin. cbn in Hin. by apply elem_of_nil in Hin.
  - apply Forall_app. split; apply Forall_forall; intros r' Hr'; apply safe_below; try done.
    + pose proof (base_path_safe inputs ts) as Hs. rewrite forallb_forall in Hs. by apply Hs, list_elem_of_In.
    + by destruct q.
    + pose proof (allow_forms_rules path_safe paths) as Hs. rewrite forallb_forall in Hs. apply Hs; [done..|].
      unfold allow_forms. change (resolve_path_plan (resolved_readwrite paths) (resolved_readonly paths) []) with (resolve_mount_order p).
      rewrite Hplan, bind_app, rules_app. apply list_elem_of_In, elem_of_app. by left.
    + by destruct q.
  - apply later_silent; [done..| |done]. intros E. apply Hptmx. unfold path_of in E. apply (inj (cons UnixPath.RootDir)) in E.
    by apply (inj (fmap UnixPath.Normal)) in E.
Qed.

(** ui.disable and ui.clipboard hold on Seatbelt: no profile that was built
    under ui.disable lets a process look up the window server or the launch
    services, nor one built with the clipboard at none the pasteboard, whatever
    services the request lists and whatever its other options open. *)
Theorem seatbelt_ui_denied r address inputs terminals profile name :
  seatbelt r ≫= profile_override = None ->
  build_profile_with_terminals r address inputs terminals = Ok profile ->
  (disable (ui (policy r)) = true /\
     name ∈ ["com.apple.windowserver.active"; "com.apple.windowserver.session"; "com.apple.coreservices.launchservicesd"]) \/
  (clipboard (ui (policy r)) = ClipNone /\ name = "com.apple.pasteboard.1") ->
  exists l, read profile = Some l /\ allowed other (rules l) "mach-lookup" (TMach name) = false.
Proof.
  intros Hov Hb Hname. destruct (built_reads r address inputs terminals profile Hov Hb) as (ts & _ & Hr).
  eexists. split; [exact Hr|].
  assert (Hui : exists l1 rule l2, rules (forms_of (write_ui_rules r)) = l1 ++ rule :: l2 /\
    weight other "mach-lookup" (TMach name) rule = Some 5 /\ allows rule = false /\
    Forall (fun r => weight other "mach-lookup" (TMach name) r = None) l2).
  { by apply ui_rule_denies. }
  destruct Hui as (l1 & rule & l2 & Hl & Hw & Ha & Hl2). unfold profile_forms. rewrite !app_assoc, !rules_app, Hl.
  rewrite <- (app_assoc _ (l1 ++ rule :: l2)), <- (app_assoc l1), app_assoc. cbn [app].
  apply (decided_as other _ _ _ rule _ 5); [done|done|apply Forall_forall; intros r' _; apply weight_max|].
  apply Forall_app. split; [eapply Forall_impl; [exact Hl2|]; intros r' Hr'; by apply silent_below|].
  unfold deny_forms. destruct (resolved_denied _) as [|d ds]; [constructor|]. cbn [is_empty].
  rewrite rules_cons, (path_rule_of deny_ops false deny_list) by done. constructor; [by apply silent_below|constructor].
Qed.

Lemma gui_directory_clear dir q :
  dir ∈ GUI_DIRECTORIES -> UnixPath.components dir `prefix_of` q ->
  q <> [UnixPath.RootDir] /\ UnixPath.components "/dev/ptmx" <> q.
Proof.
  unfold GUI_DIRECTORIES. rewrite !elem_of_cons, elem_of_nil.
  intros [->|[->|[]]] [k ->]; split; vm_compute; discriminate.
Qed.

(** C39. With guiAccess the per-user temporary directories can be written,
    whatever the policy's readonlyPaths say of paths in them: in a profile that
    was built, every operation that writes a file is allowed below /private/tmp
    and /private/var/folders, deniedPaths excepted. *)
Theorem seatbelt_gui_overrides_readonly r address inputs terminals profile dir q op :
  seatbelt r ≫= profile_override = None ->
  build_profile_with_terminals r address inputs terminals = Ok profile ->
  gui_access_effective r = true -> dir ∈ GUI_DIRECTORIES -> UnixPath.components dir `prefix_of` q ->
  (forall d, d ∈ input_denied inputs -> ~ UnixPath.components d `prefix_of` q) ->
  String.prefix "file-write" op = true -> op ∉ deny_list ->
  exists l, read profile = Some l /\ allowed other (rules l) op (TPath q) = true.
Proof.
  intros Hov Hb Hgui Hdir Hq Hden Hop Hd. destruct (built_reads r address inputs terminals profile Hov Hb) as (ts & _ & Hr).
  eexists. split; [exact Hr|]. destruct (gui_rules_shape r Hgui) as (l1 & l2 & Hl & Hl2).
  assert (Hfile : on_files op = true) by (unfold on_files; rewrite Hop; apply orb_true_r).
  assert (Hne : q <> [UnixPath.RootDir]).
  { intros ->. by apply (gui_directory_clear dir _ Hdir) in Hq as [? _]. }
  assert (Hpre : Forall (below other op (TPath q) 4) (rules (granting_forms r address inputs ts))).
  { apply Forall_forall. intros r' Hr'. apply safe_below; [|done..].
    pose proof (granting_path_safe r address inputs ts) as Hs. rewrite forallb_forall in Hs. by apply Hs, list_elem_of_In. }
  rewrite profile_forms_split, rules_app. unfold granting_forms in *. rewrite !app_assoc, rules_app, Hl in *.
  rewrite <- app_assoc, <- (app_assoc l1), app_assoc. cbn [app]. rewrite app_assoc in Hpre. apply Forall_app in Hpre as [Hpre _].
  apply (decided_as other op (TPath q) _ _ _ 3); [|done|done|].
  - unfold weight. pose proof (file_level op true (subpath <$> GUI_DIRECTORIES) true true [] Hfile Hd eq_refl) as Hlev. cbn [app andb orb] in Hlev.
    rewrite Hlev, Hop, orb_true_r. cbn [mbind option_bind filters].
    pose proof (existsb_subpath other GUI_DIRECTORIES dir q Hdir Hq) as He. unfold GUI_DIRECTORIES in *. rewrite fmap_cons in *.
    by rewrite He.
  - apply Forall_app. split; [|eapply Forall_impl; [by apply deny_forms_silent|]; intros r' Hr'; apply silent_below; exact Hr'].
    eapply Forall_impl; [exact Hl2|]. intros r' [Hr'|Hr'].
    + by apply silent_below, file_free_silent.
    + apply silent_below. unfold weight. destruct (level _ _); [|done]. rewrite Hr'. cbn [mbind option_bind existsb].
      assert (Hm : matches other (TPath q) (literal "/dev/ptmx") = false); [|by rewrite Hm].
      apply bool_decide_eq_false_2. intros E. by apply (gui_directory_clear dir _ Hdir) in Hq as [_ ?].
Qed.

End Theorems.


(** ** Examples *)

Definition sealed (ui : UiPolicy) : ContainerPolicy :=
  let d := ContainerPolicy_default in
  MkPolicy (least_privilege_mode d) (capabilities d) (readwrite_paths d) (readonly_paths d) (enumerate_paths d) (denied_paths d)
    (network_egress d) (network_ingress d) (allowed_proxy_peer d) (network_proxy d)
    (network_specified d) (network_mode_specified d) (runtime_network_proxy_specified d) ui
    (ui_specified d) (base_process_ui d) (capture_denials d).

Definition seatbelt_request (gui : bool) (ui : UiPolicy) : ExecutionRequest :=
  MkRequest None "" None false "ls" "" 0 Seatbelt LifecycleConfig_default (sealed ui) (MkLxc "" "") None
    (Some (MkSeatbelt None gui true false ["com.apple.windowserver.active"])) None None None None None None false false.

Definition example_request : ExecutionRequest := seatbelt_request false UiPolicy_default.
Definition example_inputs : ProfileInputs := MkInputs ["/srv/data"] ["/srv"] ["/srv/secret"] None None.

Definition built (r : ExecutionRequest) (inputs : ProfileInputs) : string :=
  match build_profile_with_proxy r None inputs with Ok profile => profile | Err _ => "" end.

Definition nothing_else : sexp -> target -> bool := fun _ _ => false.

Lemma example_profile_built : build_profile_with_terminals example_request None example_inputs [] = Ok (built example_request example_inputs).
Proof. vm_compute. reflexivity. Qed.

Lemma seatbelt_denies_denied_paths_witness :
  exists l, read (built example_request example_inputs) = Some l /\
    allowed nothing_else (rules l) "file-read-metadata" (TPath (path_of ["srv"; "secret"; "key"])) = false.
Proof.
  apply (seatbelt_denies_denied_paths nothing_else example_request None example_inputs [] _ "/srv/secret");
    [reflexivity|exact example_profile_built|left|apply (bool_decide_unpack _); by vm_compute|discriminate|by left].
Defined.

Lemma seatbelt_outbound_decided_witness :
  exists l, read (built example_request example_inputs) = Some l /\
    allowed nothing_else (rules l) "network-outbound" (TRemote false 443) =
      outbound_expected (policy example_request) None false 443.
Proof.
  apply (seatbelt_outbound_decided nothing_else example_request None example_inputs [] _ false 443%Z);
    [reflexivity|exact example_profile_built|done|done].
Defined.

Lemma example_specific :
  most_specific (tagged ["/srv"] ["/srv/data"] []) ["srv"; "data"; "x"] (MkMount "/srv/data" ReadOnly).
Proof.
  split_and!; [apply (bool_decide_unpack _); by vm_compute..|]. intros path intent Hin.
  pose (P e := from_path e.1 `prefix_of` ["srv"; "data"; "x"] ->
    (length (from_path e.1) < 2)%nat \/ (from_path e.1 = ["srv"; "data"] /\ (rank e.2 <= 1)%nat)).
  change (P (path, intent)). revert Hin. generalize (path, intent). apply Forall_forall. apply (bool_decide_unpack _). by vm_compute.
Qed.

Lemma example_plain path intent :
  (path, intent) ∈ tagged ["/srv"] ["/srv/data"] [] -> exists names, plain names /\ path = UnixPath.absolute names.
Proof.
  intros Hin. exists (from_path path). change path with ((path, intent).1). revert Hin. generalize (path, intent).
  apply Forall_forall. repeat constructor.
Qed.

Lemma seatbelt_grants_follow_policy_witness :
  exists l, read (built example_request example_inputs) = Some l /\
    allowed nothing_else (rules l) "file-write-data" (TPath (path_of ["srv"; "data"; "x"])) = false.
Proof.
  apply (seatbelt_grants_follow_policy nothing_else example_request None example_inputs [] _ ["srv"; "data"; "x"]
    (MkMount "/srv/data" ReadOnly) "file-write-data"); [reflexivity|exact example_profile_built|reflexivity|reflexivity|exact example_plain
    |exact example_specific| |discriminate|discriminate|reflexivity|apply (bool_decide_unpack _); by vm_compute].
  intros d Hd%list_elem_of_singleton. subst d. apply (bool_decide_unpack _). by vm_compute.
Defined.

Lemma seatbelt_ui_denied_witness :
  exists l, read (built example_request example_inputs) = Some l /\
    allowed nothing_else (rules l) "mach-lookup" (TMach "com.apple.windowserver.active") = false.
Proof.
  apply (seatbelt_ui_denied nothing_else example_request None example_inputs []); [reflexivity|exact example_profile_built|].
  left. split; [reflexivity|left].
Defined.

Definition gui_request : ExecutionRequest := seatbelt_request true (MkUi false ClipNone false).
Definition gui_inputs : ProfileInputs := MkInputs ["/private/tmp/ro"] [] [] None None.

Lemma gui_profile_built : build_profile_with_terminals gui_request None gui_inputs [] = Ok (built gui_request gui_inputs).
Proof. vm_compute. reflexivity. Qed.

(** A read-only path below a temporary directory. *)
Lemma seatbelt_gui_overrides_readonly_witness :
  exists l, read (built gui_request gui_inputs) = Some l /\
    allowed nothing_else (rules l) "file-write-data" (TPath (path_of ["private"; "tmp"; "ro"; "file"])) = true.
Proof.
  apply (seatbelt_gui_overrides_readonly nothing_else gui_request None gui_inputs [] _ "/private/tmp"
    (path_of ["private"; "tmp"; "ro"; "file"]) "file-write-data");
    [reflexivity|exact gui_profile_built|reflexivity|left| |intros d Hd%elem_of_nil; destruct Hd|reflexivity|].
  - by exists (UnixPath.Normal <$> ["ro"; "file"]).
  - apply (bool_decide_unpack (~ _)). by vm_compute.
Defined.

End SeatbeltRules.
