(* ===== verification/SymlinkWalk.v ===== *)
(** * Paths of the host and the links on them

    [core/mxc_common/filesystem_symlink.rs]: a policy path is resolved to the
    object it names before a backend mounts over it.  The host is a tree of
    directories, files and links with the kernel's own path walk
    ([path_resolution(7)]); [resolve_through_symlinks] is the code's walk, which
    tolerates missing components, and it is proved to arrive where the kernel
    does, now or after the missing components have been created. *)

From Stdlib Require Import Ascii.
From stdpp Require Import gmap.
From S2P Require Import Prelude UnixPath.

#[local] Open Scope nat_scope.

(** ** The host *)

Module HostFs.
Export UnixPath.

Inductive Errno : Type := ENOENT | ENOTDIR | EACCES | ELOOP | ENAMETOOLONG | EPERM | EROFS | EINVAL | EIO.
#[global] Instance Errno_eq_dec : EqDecision Errno.
Proof. solve_decision. Defined.

Inductive Node : Type :=
| Dir (search : bool)
| File
| Link (text : string).
#[global] Instance Node_eq_dec : EqDecision Node.
Proof. solve_decision. Defined.

Definition is_symlink (n : Node) : bool := match n with Link _ => true | _ => false end.
Definition is_dir (n : Node) : bool := match n with Dir _ => true | _ => false end.

(** What stands at a place, a place being the names from the root down through
    real directories; the current directory; and the number of links one lookup
    may follow. *)
Record Host : Type := MkHost {
  node_at : list string -> result Errno Node;
  cwd : result Errno (list string);
  max_links : nat;
}.

(** The path from the root with the given names. *)
Definition rooted (names : list string) : list Component := RootDir :: (Normal <$> names).

Section Walk.
Context (fs : Host).

(** Using a place as a directory. *)
Definition enter (place : list string) : result Errno unit :=
  match node_at fs place with
  | Ok (Dir true) => Ok tt
  | Ok (Dir false) => Err EACCES
  | Ok _ => Err ENOTDIR
  | Err e => Err e
  end.

(** The text of a link, or a path: a last [/] or [.] asks for a directory. *)
Definition lookup_components (text : string) : list Component :=
  components text ++
  match last (string_split "/" text) with Some "" | Some "." => [CurDir] | _ => [] end.

(** The kernel's walk, all links followed: the place reached and the links that
    may still be followed. *)
Fixpoint walk (links : nat) : list string -> list Component -> result Errno (list string * nat) :=
  fix go (place : list string) (todo : list Component) :=
    match todo with
    | [] => Ok (place, links)
    | RootDir :: rest => go [] rest
    | CurDir :: rest => _ ← enter place; go place rest
    | ParentDir :: rest => _ ← enter place; go (removelast place) rest
    | Normal name :: rest =>
        _ ← enter place;
        node ← node_at fs (place ++ [name]);
        match node with
        | Link text =>
            match links with
            | O => Err ELOOP
            | S links => walk links place (lookup_components text ++ rest)
            end
        | _ => go (place ++ [name]) rest
        end
    end.

(** [stat], [lstat], [realpath] and [readlink] of a path. *)
Definition start (path : list Component) : result Errno (list string) :=
  match path with RootDir :: _ => Ok [] | _ => cwd fs end.

Definition target_of (path : list Component) : result Errno (list string) :=
  place ← start path; fst <$> walk (max_links fs) place path.

Definition metadata (path : list Component) : result Errno Node :=
  place ← target_of path; node_at fs place.

Definition symlink_metadata (path : list Component) : result Errno Node :=
  match last path with
  | Some (Normal name) =>
      place ← start path;
      parent ← fst <$> walk (max_links fs) place (removelast path);
      _ ← enter parent;
      node_at fs (parent ++ [name])
  | Some _ => metadata path
  | None => Err ENOENT
  end.

Definition canonicalize (path : list Component) : result Errno (list Component) :=
  rooted <$> target_of path.

Definition read_link (path : list Component) : result Errno string :=
  node ← symlink_metadata path;
  match node with Link text => Ok text | _ => Err EINVAL end.

End Walk.

(** *** Lemmas on the walk *)

(** A place reached through directories that may be searched, not itself a link. *)
Definition real (fs : Host) (place : list string) : Prop :=
  (forall dir name rest, place = dir ++ name :: rest -> node_at fs dir = Ok (Dir true)) /\
  exists node, node_at fs place = Ok node /\ is_symlink node = false.

Section WalkLemmas.
Context (fs : Host).

Lemma walk_eq links place todo :
  walk fs links place todo =
  match todo with
  | [] => Ok (place, links)
  | RootDir :: rest => walk fs links [] rest
  | CurDir :: rest => _ ← enter fs place; walk fs links place rest
  | ParentDir :: rest => _ ← enter fs place; walk fs links (removelast place) rest
  | Normal name :: rest =>
      _ ← enter fs place;
      node ← node_at fs (place ++ [name]);
      match node with
      | Link text =>
          match links with O => Err ELOOP | S links => walk fs links place (lookup_components text ++ rest) end
      | _ => walk fs links (place ++ [name]) rest
      end
  end.
Proof. by destruct links, todo as [|[] ?]. Qed.

Lemma walk_root links place todo : walk fs links place (RootDir :: todo) = walk fs links [] todo.
Proof. by rewrite walk_eq. Qed.

Lemma walk_induct (P : nat -> list string -> list Component -> Prop) :
  (forall links place todo,
    (forall place' todo', length todo' < length todo -> P links place' todo') ->
    (forall links' place' todo', links = S links' -> P links' place' todo') ->
    P links place todo) ->
  forall links place todo, P links place todo.
Proof.
  intros Hstep. induction links as [links IH] using lt_wf_ind. intros place todo. revert place.
  induction todo as [todo IHt] using (induction_ltof1 _ (@length _)). intros place. apply Hstep.
  - intros place' todo' Hlt. by apply IHt.
  - intros links' place' todo' ->. apply IH. lia.
Qed.

Lemma enter_Ok place : enter fs place = Ok tt <-> node_at fs place = Ok (Dir true).
Proof. unfold enter. split; [|by intros ->]. by repeat case_match. Qed.

Lemma walk_app links place a b :
  walk fs links place (a ++ b) = '(place', links') ← walk fs links place a; walk fs links' place' b.
Proof.
  revert links place a b.
  enough (H : forall links place a, forall b, walk fs links place (a ++ b) =
    '(place', links') ← walk fs links place a; walk fs links' place' b) by (intros; apply H).
  apply (walk_induct (fun links place a => forall b, _)). intros links place a IHt IHl b.
  rewrite (walk_eq links place a), (walk_eq links place (a ++ b)).
  destruct a as [|c a]; cbn [app].
  { cbn. rewrite <- walk_eq. done. }
  destruct c as [| | |name].
  - by apply IHt; cbn; lia.
  - destruct (enter fs place); [|done]. cbn. by apply IHt; cbn; lia.
  - destruct (enter fs place); [|done]. cbn. by apply IHt; cbn; lia.
  - destruct (enter fs place); [|done]. cbn. destruct (node_at fs (place ++ [name])) as [node|]; [|done]. cbn.
    destruct node as [s| |text]; [by apply IHt; cbn; lia..|].
    destruct links as [|links]; [done|]. rewrite app_assoc. by apply IHl.
Qed.

(** More links allowed, the same place. *)
Lemma walk_more links place todo place' links' more :
  walk fs links place todo = Ok (place', links') -> walk fs (links + more) place todo = Ok (place', links' + more).
Proof.
  revert place' links'. revert links place todo. apply (walk_induct (fun links place todo => forall place' links', _ -> _)).
  intros links place todo IHt IHl place' links'. rewrite (walk_eq links), (walk_eq (links + more)).
  destruct todo as [|[| | |name] todo]; [by intros [= -> ->]|by apply IHt; cbn; lia|..];
    (destruct (enter fs place); [|done]); cbn; [by apply IHt; cbn; lia..|].
  destruct (node_at fs (place ++ [name])) as [[s| |text]|]; cbn; [by apply IHt; cbn; lia..| |done].
  destruct links as [|links]; [done|]. cbn. by apply IHl.
Qed.

Lemma walk_spends links place todo place' links' : walk fs links place todo = Ok (place', links') -> links' <= links.
Proof.
  revert place' links'. revert links place todo. apply (walk_induct (fun links place todo => forall place' links', _ -> _)).
  intros links place todo IHt IHl place' links'. rewrite (walk_eq links).
  destruct todo as [|[| | |name] todo]; [by intros [= -> ->]|by apply IHt; cbn; lia|..];
    (destruct (enter fs place); [|done]); cbn; [by apply IHt; cbn; lia..|].
  destruct (node_at fs (place ++ [name])) as [[s| |text]|]; cbn; [by apply IHt; cbn; lia..| |done].
  destruct links as [|links]; [done|]. intros H%IHl; [lia|done].
Qed.

(** A host that makes sense: what has a name stands in a directory, and the
    current directory is a real place. *)
Record host_ok : Prop := MkHostOk {
  root_is_dir : exists search, node_at fs [] = Ok (Dir search);
  parents_are_dirs dir name node : node_at fs (dir ++ [name]) = Ok node -> exists search, node_at fs dir = Ok (Dir search);
  cwd_real place : cwd fs = Ok place -> real fs place;
}.

Lemma real_child place name node :
  real fs place -> node_at fs place = Ok (Dir true) -> node_at fs (place ++ [name]) = Ok node -> is_symlink node = false ->
  real fs (place ++ [name]).
Proof.
  intros [Hdirs _] Hdir Hnode Hlink. split; [|by exists node]. intros dir n rest Heq.
  destruct rest as [|x rest _] using rev_ind.
  - apply app_inj_tail in Heq as [<- _]. done.
  - rewrite app_comm_cons, app_assoc in Heq. apply app_inj_tail in Heq as [-> _]. by eapply Hdirs.
Qed.

Lemma real_prefix dir rest : real fs (dir ++ rest) -> real fs dir.
Proof.
  intros [Hdirs (node & Hnode & Hlink)]. split.
  - intros dir' name rest' ->. apply (Hdirs dir' name (rest' ++ rest)). by rewrite <- app_assoc.
  - destruct rest as [|name rest]; [rewrite app_nil_r in Hnode; by exists node|].
    exists (Dir true). split; [by eapply Hdirs|done].
Qed.

Lemma real_up place : real fs place -> real fs (removelast place).
Proof.
  destruct place as [|name place _] using rev_ind; [done|]. rewrite removelast_last. apply real_prefix.
Qed.

Lemma real_root : host_ok -> real fs [].
Proof. intros [[s Hs] _ _]. split; [by intros [|??] ?? [=]|by exists (Dir s)]. Qed.

(** The walk ends at a real place. *)
Lemma walk_real links place todo place' links' :
  host_ok -> real fs place -> walk fs links place todo = Ok (place', links') -> real fs place'.
Proof.
  intros Hok. revert place' links'. revert links place todo.
  apply (walk_induct (fun links place todo => forall place' links', real fs place -> _ -> _)).
  intros links place todo IHt IHl place' links' Hreal. rewrite (walk_eq links).
  destruct todo as [|[| | |name] todo]; [by intros [= <- _]|apply IHt; [cbn; lia|by apply real_root]|..];
    (destruct (enter fs place) as [[]|] eqn:He; [|done]); cbn; [apply IHt; [cbn; lia|by try apply real_up]..|].
  apply enter_Ok in He.
  destruct (node_at fs (place ++ [name])) as [[s| |text]|] eqn:Hn; cbn;
    [apply IHt; [cbn; lia|by eapply real_child]..| |done].
  destruct links as [|links]; [done|]. by apply IHl.
Qed.

(** Walking down to a real place follows no link. *)
Lemma walk_down links place rest : real fs place -> walk fs links [] ((Normal <$> place) ++ rest) = walk fs links place rest.
Proof.
  revert rest. induction place as [|name place IH] using rev_ind; intros rest Hreal; [done|].
  rewrite fmap_app, <- app_assoc, IH by (by eapply real_prefix). cbn [fmap list_fmap app]. rewrite walk_eq.
  destruct Hreal as [Hdirs (node & Hnode & Hlink)].
  assert (enter fs place = Ok tt) as -> by (apply enter_Ok; by eapply Hdirs). cbn. rewrite Hnode. cbn.
  by destruct node.
Qed.

Lemma walk_rooted links place rest : real fs place -> walk fs links [] (rooted place ++ rest) = walk fs links place rest.
Proof. intros Hreal. unfold rooted. cbn [app]. rewrite walk_eq. by apply walk_down. Qed.

Lemma target_of_rooted place rest :
  real fs place -> target_of fs (rooted place ++ rest) = fst <$> walk fs (max_links fs) place rest.
Proof. intros Hreal. unfold target_of. cbn -[walk]. by rewrite <- (walk_rooted _ place). Qed.

End WalkLemmas.

(** The same host later: what stood stands, what could not be looked up cannot
    be, and what has been created since is no link. *)
Record grows (fs fs' : Host) : Prop := MkGrows {
  same_links : max_links fs' = max_links fs;
  same_cwd : cwd fs' = cwd fs;
  later place :
    match node_at fs place with
    | Ok node => node_at fs' place = Ok node
    | Err ENOENT => forall text, node_at fs' place <> Ok (Link text)
    | Err e => node_at fs' place = Err e
    end;
}.

Section Growth.
Context (fs fs' : Host).
Hypothesis fs_ok : host_ok fs.
Hypothesis growth : grows fs fs'.

Lemma later_Ok place node : node_at fs place = Ok node -> node_at fs' place = Ok node.
Proof. intros H. pose proof (later _ _ growth place) as L. by rewrite H in L. Qed.

Lemma before place node : node_at fs' place = Ok node ->
  node_at fs place = Ok node \/ node_at fs place = Err ENOENT /\ is_symlink node = false.
Proof.
  intros H. pose proof (later _ _ growth place) as L. destruct (node_at fs place) as [node'|[]]; [left|right|..]; try congruence.
  split; [done|]. destruct node; [done..|]. by destruct (L text).
Qed.

Lemma walk_later links place todo r : walk fs links place todo = Ok r -> walk fs' links place todo = Ok r.
Proof.
  revert r. revert links place todo. apply (walk_induct (fun links place todo => forall r, _ -> _)).
  intros links place todo IHt IHl r. rewrite (walk_eq fs links), (walk_eq fs' links).
  assert (Henter : forall u, enter fs place = Ok u -> enter fs' place = Ok u).
  { intros []. rewrite !enter_Ok. apply later_Ok. }
  destruct todo as [|[| | |name] todo]; [done|by apply IHt; cbn; lia|..];
    (destruct (enter fs place) as [u|]; [|done]); rewrite (Henter u eq_refl); cbn; [by apply IHt; cbn; lia..|].
  destruct (node_at fs (place ++ [name])) as [node|] eqn:Hn; [|done]. rewrite (later_Ok _ _ Hn). cbn.
  destruct node; [by apply IHt; cbn; lia..|]. destruct links; [done|]. by apply IHl.
Qed.

(** A place real later is real now, or not there yet. *)
Lemma real_before place : real fs' place ->
  real fs place \/ node_at fs place = Err ENOENT /\ forall links rest, walk fs links [] ((Normal <$> place) ++ rest) = Err ENOENT.
Proof.
  induction place as [|name place IH] using rev_ind; intros Hreal; [left; by apply real_root|].
  pose proof (real_prefix _ _ _ Hreal) as Hdir. destruct Hreal as [Hdirs (node & Hnode & Hlink)].
  assert (Hplace : node_at fs' place = Ok (Dir true)) by (by eapply Hdirs).
  destruct (IH Hdir) as [Hnow|[Hmiss Hwalk]].
  - destruct (before _ _ Hplace) as [Hp|[Hp _]]; [|destruct Hnow as [_ (? & ? & _)]; congruence].
    destruct (before _ _ Hnode) as [Hn|[Hn _]]; [left; by eapply real_child|right]. split; [done|]. intros links rest.
    rewrite fmap_app, <- app_assoc, walk_down by done. cbn [fmap list_fmap app]. rewrite walk_eq.
    assert (enter fs place = Ok tt) as -> by (by apply enter_Ok). cbn. by rewrite Hn.
  - right. destruct (before _ _ Hnode) as [Hn|[Hn _]].
    + destruct (parents_are_dirs _ fs_ok _ _ _ Hn) as [? ?]. congruence.
    + split; [done|]. intros links rest. rewrite fmap_app, <- app_assoc. apply Hwalk.
Qed.

End Growth.

(** A host given by its nodes. *)
Definition host_of (nodes : gmap (list string) Node) : Host :=
  MkHost (fun place => match nodes !! place with Some node => Ok node | None => Err ENOENT end) (Ok []) 40.

Definition nodes_ok (nodes : gmap (list string) Node) : bool :=
  bool_decide (is_dir <$> nodes !! [] = Some true) &&
  bool_decide (map_Forall (fun place _ => is_dir <$> nodes !! removelast place = Some true) nodes).

Lemma host_of_ok nodes : nodes_ok nodes = true -> host_ok (host_of nodes).
Proof.
  unfold nodes_ok. rewrite andb_true_iff, !bool_decide_eq_true. intros [Hroot Hall].
  assert (Hdir : forall place, is_dir <$> nodes !! place = Some true -> exists s, node_at (host_of nodes) place = Ok (Dir s)).
  { intros place Hd. cbn. destruct (nodes !! place) as [[s| |]|]; [by exists s|done..]. }
  split; [by apply Hdir| |].
  - intros dir name node Hn. apply Hdir. cbn in Hn. destruct (nodes !! (dir ++ [name])) eqn:E; [|done].
    apply Hall in E. by rewrite removelast_last in E.
  - intros place [= <-]. destruct (Hdir [] Hroot) as [s Hs]. split; [by intros [|??] ?? [=]|]. by exists (Dir s).
Qed.

Definition nodes_grow (nodes nodes' : gmap (list string) Node) : bool :=
  bool_decide (map_Forall (fun place node => nodes' !! place = Some node) nodes) &&
  bool_decide (map_Forall (fun place node => nodes !! place = None -> is_symlink node = false) nodes').

Lemma host_of_grows nodes nodes' : nodes_grow nodes nodes' = true -> grows (host_of nodes) (host_of nodes').
Proof.
  unfold nodes_grow. rewrite andb_true_iff, !bool_decide_eq_true. intros [Hold Hnew]. split; [done..|].
  intros place. cbn. destruct (nodes !! place) as [node|] eqn:Hp; [by rewrite (Hold _ _ Hp)|].
  intros text. destruct (nodes' !! place) as [node|] eqn:Hp'; [|done]. intros [= ->]. by pose proof (Hnew _ _ Hp' Hp).
Qed.

End HostFs.

(** ** The code's walk *)

Module SymlinkWalk.
Export HostFs.

Record SymlinkResolution : Type := MkResolution {
  path : list Component;
  error : option Errno;
  links : list (list Component * list Component);
  climbed_out_of : list (list Component);
}.

Section Resolve.
Context (fs : Host).

(** [std::path::absolute], on components. *)
Definition absolute_path (path : list Component) : result Errno (list Component) :=
  match path with
  | RootDir :: _ => Ok path
  | CurDir :: rest => names ← cwd fs; Ok (rooted names ++ rest)
  | _ => names ← cwd fs; Ok (rooted names ++ path)
  end.

(** The closure [resolve_prefix]: what an existing prefix is, and the first
    failure so far. *)
Definition resolve_prefix (prefix : list Component) (failure : option Errno)
    : option (list Component * bool) * option Errno :=
  let resolved :=
    match symlink_metadata fs prefix with
    | Err ENOENT => Ok None
    | Err error => Err error
    | Ok node =>
        _ ← metadata fs prefix;
        real ← canonicalize fs prefix;
        Ok (Some (real, is_symlink node))
    end in
  match resolved with
  | Ok resolved => (resolved, failure)
  | Err error => (None, Some (default error failure))
  end.

(** [PathBuf::pop]. *)
Definition pop (path : list Component) : list Component := default path (parent path).

Definition resolve_component (st : SymlinkResolution) (component : Component) : SymlinkResolution :=
  match component with
  | RootDir => MkResolution [RootDir] (error st) (links st) (climbed_out_of st)
  | CurDir => st
  | ParentDir =>
      let '(_, failure) := resolve_prefix (path st ++ [ParentDir]) (error st) in
      MkResolution (pop (path st)) failure (links st)
        (climbed_out_of st ++ match parent (path st) with Some _ => [path st] | None => [] end)
  | Normal name =>
      let location := path st ++ [Normal name] in
      match resolve_prefix location (error st) with
      | (Some (real, is_link), failure) =>
          MkResolution real failure (links st ++ if is_link then [(location, real)] else []) (climbed_out_of st)
      | (None, failure) => MkResolution location failure (links st) (climbed_out_of st)
      end
  end.

Definition resolve_through_symlinks (path : list Component) : option SymlinkResolution :=
  match path with
  | [] => None
  | _ =>
      Some (match absolute_path path with
            | Ok path => foldl resolve_component (MkResolution [] None [] []) path
            | Err error => MkResolution path (Some error) [] []
            end)
  end.

Definition is_policy_path_error (error : Errno) : bool :=
  match error with
  | ENOENT | ENOTDIR | EACCES | EPERM | ENAMETOOLONG | ELOOP => true
  | EROFS | EINVAL | EIO => false
  end.

End Resolve.

(** ** Lemmas *)

Lemma pop_rooted place : pop (rooted place) = rooted (removelast place).
Proof.
  unfold pop, parent, rooted. destruct place as [|name place _] using rev_ind; [done|].
  rewrite fmap_app, removelast_last. cbn. rewrite rev_app_distr. cbn. by rewrite rev_app_distr, rev_involutive.
Qed.

Section Follows.
Context (fs fs' : Host).
Hypothesis fs_ok : host_ok fs.
Hypothesis fs_ok' : host_ok fs'.
Hypothesis growth : grows fs fs'.

Lemma lstat_name place name :
  real fs place -> node_at fs place = Ok (Dir true) ->
  symlink_metadata fs (rooted place ++ [Normal name]) = node_at fs (place ++ [name]).
Proof.
  intros Hreal Hdir. unfold symlink_metadata. rewrite last_snoc, removelast_last. cbn -[walk].
  rewrite <- (app_nil_r (rooted place)), walk_rooted, walk_eq by done. cbn.
  by assert (enter fs place = Ok tt) as -> by (by apply enter_Ok).
Qed.

(** What a component names later, and what the prefix resolves to now. *)
Lemma prefix_name place name links mid links' failure :
  real fs' place -> links <= max_links fs -> walk fs' links place [Normal name] = Ok (mid, links') ->
  (exists is_link, resolve_prefix fs (rooted place ++ [Normal name]) failure = (Some (rooted mid, is_link), failure)) \/
  (resolve_prefix fs (rooted place ++ [Normal name]) failure = (None, failure) /\ mid = place ++ [name]) \/
  (exists e, resolve_prefix fs (rooted place ++ [Normal name]) failure = (None, Some (default e failure)) /\ fs <> fs').
Proof.
  intros Hreal Hmax Hwalk. pose proof Hwalk as Hw. rewrite walk_eq in Hw.
  destruct (enter fs' place) as [[]|] eqn:He; [|done]. apply enter_Ok in He. cbn -[walk] in Hw.
  destruct (node_at fs' (place ++ [name])) as [node|] eqn:Hnode; [|done]. cbn -[walk] in Hw.
  assert (Hplain : is_symlink node = false -> mid = place ++ [name]).
  { intros Hl. destruct node; [rewrite walk_eq in Hw; congruence..|done]. }
  destruct (real_before fs fs' fs_ok growth place Hreal) as [Hnow|[Hmiss Hdown]].
  - assert (Hdir : node_at fs place = Ok (Dir true)).
    { destruct (before fs fs' growth _ _ He) as [?|[? _]]; [done|]. destruct Hnow as [_ (? & ? & _)]. congruence. }
    unfold resolve_prefix. rewrite lstat_name by done.
    destruct (before fs fs' growth _ _ Hnode) as [Hn|[Hn Hl]]; rewrite Hn; [|right; left; by rewrite Hplain].
    unfold metadata, canonicalize. rewrite target_of_rooted by done.
    destruct (walk fs (max_links fs) place [Normal name]) as [[mid2 links2]|e] eqn:Hwn.
    + left. exists (is_symlink node). destruct (walk_real _ _ _ _ _ _ fs_ok Hnow Hwn) as [_ (nd & Hnd & _)].
      cbn. rewrite Hnd. cbn. apply (walk_later fs fs' growth) in Hwn.
      apply (walk_more fs' _ _ _ _ _ (max_links fs - links)) in Hwalk.
      replace (links + (max_links fs - links)) with (max_links fs) in Hwalk by lia. congruence.
    + right; right. exists e. split; [done|]. intros <-.
      apply (walk_more fs _ _ _ _ _ (max_links fs - links)) in Hwalk.
      replace (links + (max_links fs - links)) with (max_links fs) in Hwalk by lia. congruence.
  - right; left. split.
    + unfold resolve_prefix, symlink_metadata. rewrite last_snoc, removelast_last.
      specialize (Hdown (max_links fs) []). rewrite app_nil_r in Hdown. unfold rooted. cbn -[walk].
      by rewrite walk_root, Hdown.
    + destruct (before fs fs' growth _ _ Hnode) as [Hn|[_ Hl]]; [|auto].
      destruct (parents_are_dirs _ fs_ok _ _ _ Hn) as [? ?]. congruence.
Qed.

Lemma prefix_parent place failure :
  real fs' place -> node_at fs' place = Ok (Dir true) ->
  (resolve_prefix fs (rooted place ++ [ParentDir]) failure).2 = failure.
Proof.
  intros Hreal Hdir. unfold resolve_prefix, symlink_metadata. rewrite last_snoc.
  destruct (real_before fs fs' fs_ok growth place Hreal) as [Hnow|[Hmiss Hdown]].
  - assert (Hd : enter fs place = Ok tt).
    { apply enter_Ok. destruct (before fs fs' growth _ _ Hdir) as [?|[? _]]; [done|].
      destruct Hnow as [_ (? & ? & _)]. congruence. }
    destruct (real_up _ _ Hnow) as [_ (node & Hnode & _)].
    unfold metadata, canonicalize. rewrite target_of_rooted, walk_eq, Hd by done. cbn -[walk]. rewrite walk_eq. cbn.
    rewrite Hnode. done.
  - unfold metadata, target_of. cbn -[walk]. by rewrite walk_root, Hdown.
Qed.

(** A failure is kept. *)
Lemma resolve_component_error st c e : error st = Some e -> error (resolve_component fs st c) = Some e.
Proof.
  intros He. assert (Hp : forall prefix, (resolve_prefix fs prefix (error st)).2 = Some e).
  { intros prefix. unfold resolve_prefix. rewrite He. by repeat case_match. }
  destruct c as [| | |name]; [done..| |]; cbn.
  - specialize (Hp (path st ++ [ParentDir])). by destruct (resolve_prefix _ _ _).
  - specialize (Hp (path st ++ [Normal name])). by destruct (resolve_prefix _ _ _) as [[[??]|] ?].
Qed.

Lemma resolve_components_error todo st e : error st = Some e -> error (foldl (resolve_component fs) st todo) = Some e.
Proof.
  revert st. induction todo as [|c todo IH]; intros st He; [done|]. cbn. apply IH. by apply resolve_component_error.
Qed.

Lemma resolution_arrives todo : forall st place links target links',
  error st = None -> path st = rooted place -> real fs' place -> links <= max_links fs ->
  walk fs' links place todo = Ok (target, links') ->
  let r := foldl (resolve_component fs) st todo in
  (error r = None -> path r = rooted target) /\ (fs = fs' -> error r = None).
Proof.
  induction todo as [|c todo IH]; intros st place links target links' He Hp Hreal Hmax Hwalk; cbn [foldl].
  { rewrite walk_eq in Hwalk. injection Hwalk as <- _. done. }
  assert (Hsplit : exists mid links1, walk fs' links place [c] = Ok (mid, links1) /\ walk fs' links1 mid todo = Ok (target, links')).
  { change (c :: todo) with ([c] ++ todo) in Hwalk. rewrite walk_app in Hwalk.
    destruct (walk fs' links place [c]) as [[mid links1]|]; [|done]. by exists mid, links1. }
  destruct Hsplit as (mid & links1 & Hc & Hrest).
  pose proof (walk_real _ _ _ _ _ _ fs_ok' Hreal Hc) as Hmid. pose proof (walk_spends _ _ _ _ _ _ Hc) as Hless.
  assert (Hgo : forall st', error st' = None -> path st' = rooted mid ->
    let r := foldl (resolve_component fs) st' todo in (error r = None -> path r = rooted target) /\ (fs = fs' -> error r = None)).
  { intros st' E P. eapply (IH st' mid links1); [done..|lia|exact Hrest]. }
  destruct c as [| | |name].
  - apply Hgo; [done|]. do 2 rewrite walk_eq in Hc. by injection Hc as <- _.
  - apply Hgo; [done|]. rewrite walk_eq in Hc. destruct (enter fs' place); [|done]. cbn -[walk] in Hc.
    rewrite walk_eq in Hc. by injection Hc as <- _.
  - rewrite walk_eq in Hc. destruct (enter fs' place) as [[]|] eqn:Hd; [|done]. apply enter_Ok in Hd. cbn -[walk] in Hc.
    rewrite walk_eq in Hc. injection Hc as <- _. pose proof (prefix_parent place (error st) Hreal Hd) as Hpar.
    cbn [resolve_component]. rewrite Hp in *. destruct (resolve_prefix _ _ _). cbn in Hpar. subst.
    apply Hgo; [done|]. cbn. by rewrite pop_rooted.
  - cbn [resolve_component]. rewrite Hp, He.
    destruct (prefix_name place name links mid links1 None Hreal Hmax Hc) as [[b ->]|[[-> ->]|(e & -> & Hne)]].
    + by apply Hgo.
    + apply Hgo; [done|]. cbn. unfold rooted. by rewrite fmap_app.
    + cbn [default]. split; [|done]. rewrite (resolve_components_error _ _ e) by done. done.
Qed.

Lemma resolution_from_root todo links target links' :
  links <= max_links fs -> walk fs' links [] todo = Ok (target, links') ->
  let r := foldl (resolve_component fs) (MkResolution [] None [] []) (RootDir :: todo) in
  (error r = None -> path r = rooted target) /\ (fs = fs' -> error r = None).
Proof. intros Hl Hw. cbn. by apply (resolution_arrives todo _ [] links target links'); try apply real_root. Qed.

(** The components the code walks, and those the kernel does. *)
Lemma absolute_walk comps place :
  comps <> [] -> target_of fs' comps = Ok place ->
  exists todo links', absolute_path fs comps = Ok (RootDir :: todo) /\ walk fs' (max_links fs) [] todo = Ok (place, links').
Proof.
  intros Hne. unfold target_of. rewrite (same_links _ _ growth). unfold start, absolute_path. rewrite (same_cwd _ _ growth).
  assert (Hcwd : forall names rest, cwd fs = Ok names -> walk fs' (max_links fs) [] ((Normal <$> names) ++ rest) = walk fs' (max_links fs) names rest).
  { intros names rest Hn. apply walk_down. apply (cwd_real _ fs_ok'). by rewrite (same_cwd _ _ growth). }
  destruct comps as [|c comps]; [done|]. destruct c; cbn -[walk]; [rewrite walk_root|..].
  { intros Hw. destruct (walk _ _ _ _) as [[? l]|] eqn:E; [|done]. injection Hw as <-. by exists comps, l. }
  all: destruct (cwd fs) as [names|] eqn:Hc; [|done]; cbn -[walk]; intros Hw;
    destruct (walk _ _ _ _) as [[? l]|] eqn:E; [|done]; injection Hw as <-.
  - exists ((Normal <$> names) ++ comps), l. split; [done|]. rewrite Hcwd by done. rewrite walk_eq in E. by destruct (enter fs' names).
  - exists ((Normal <$> names) ++ ParentDir :: comps), l. split; [done|]. by rewrite Hcwd.
  - exists ((Normal <$> names) ++ Normal name :: comps), l. split; [done|]. by rewrite Hcwd.
Qed.

End Follows.

(** A last slash changes whether a lookup succeeds, not where it ends. *)
Lemma target_of_lookup fs path place :
  path <> "" -> target_of fs (lookup_components path) = Ok place -> target_of fs (components path) = Ok place.
Proof.
  unfold lookup_components, target_of. set (tail := match last _ with Some _ => _ | None => _ end). intros Hne.
  assert (Hcases : tail = [] \/ tail = [CurDir]) by (unfold tail; repeat case_match; auto).
  assert (Hstart : start fs (components path ++ tail) = start fs (components path)).
  { destruct (components path) as [|[] ?] eqn:Hc; [|done..]. cbn. by destruct Hcases as [-> | ->]. }
  rewrite Hstart. destruct (start fs (components path)) as [from|]; [|done]. cbn -[walk].
  destruct Hcases as [-> | ->]; [by rewrite app_nil_r|]. rewrite walk_app.
  destruct (walk fs (max_links fs) from (components path)) as [[q l]|]; [|done]. cbn -[walk]. rewrite walk_eq.
  destruct (enter fs q); [|done]. cbn -[walk]. by rewrite walk_eq.
Qed.

Lemma components_ne path : path <> "" -> components path <> [].
Proof.
  unfold components. destruct path as [|c s]; [done|]. intros _. destruct (has_root (String c s)) eqn:Hr; [done|].
  assert (Hc : c <> "/"%char). { intros ->. done. }
  assert (Hsplit : exists x l, string_split "/" (String c s) = String c x :: l).
  { cbn [string_split]. rewrite decide_False by done. destruct (string_split "/" s); eauto. }
  destruct Hsplit as (x & l & ->). destruct (decide (String c x = ".")) as [Hdot|Hdot]; [by injection Hdot as -> ->|].
  intros [_ Hnil]%app_eq_nil. unfold omap in Hnil. cbn [list_omap] in Hnil. unfold segment at 1 in Hnil.
  rewrite (bool_decide_eq_false_2 (String c x = "")), (bool_decide_eq_false_2 (String c x = ".")) in Hnil by done.
  cbn in Hnil. by case_bool_decide.
Qed.

(** Every link recorded is a link, with the place it leads to. *)
Definition links_followed (fs : Host) (l : list (list Component * list Component)) : Prop :=
  Forall (fun e => canonicalize fs e.1 = Ok e.2 /\ exists text, symlink_metadata fs e.1 = Ok (Link text)) l.

Lemma resolve_prefix_Some fs prefix failure real b failure' :
  resolve_prefix fs prefix failure = (Some (real, b), failure') ->
  exists node, symlink_metadata fs prefix = Ok node /\ is_symlink node = b /\ canonicalize fs prefix = Ok real.
Proof.
  unfold resolve_prefix. destruct (symlink_metadata fs prefix) as [node|[]]; [|done..].
  destruct (metadata fs prefix); [|done]. cbn. destruct (canonicalize fs prefix); [|done]. intros [= <- <- _]. by exists node.
Qed.

Lemma resolve_prefix_None fs prefix failure :
  resolve_prefix fs prefix failure = (None, None) -> symlink_metadata fs prefix = Err ENOENT.
Proof.
  unfold resolve_prefix. destruct (symlink_metadata fs prefix) as [node|[]]; [|done..].
  destruct (metadata fs prefix); [|done]. cbn. by destruct (canonicalize fs prefix).
Qed.

Lemma resolve_components_links fs todo st :
  links_followed fs (links st) -> links_followed fs (links (foldl (resolve_component fs) st todo)).
Proof.
  revert st. induction todo as [|c todo IH]; intros st Hl; [done|]. cbn. apply IH. destruct c as [| | |name]; [done..| |]; cbn.
  - by destruct (resolve_prefix _ _ _).
  - destruct (resolve_prefix fs _ _) as [[[real []]|] f] eqn:Hp; cbn; [|by rewrite app_nil_r|done].
    apply resolve_prefix_Some in Hp as (node & Hn & Hs & Hc). apply Forall_app. split; [done|]. constructor; [|done].
    split; [done|]. destruct node; [done..|]. by exists text.
Qed.

(** ** Places no link leads away from *)

(** No link stands at the place or above it. *)
Definition linkless (fs : Host) (place : list string) : Prop :=
  forall dir rest text, place = dir ++ rest -> node_at fs dir <> Ok (Link text).

Lemma linkless_prefix fs dir rest : linkless fs (dir ++ rest) -> linkless fs dir.
Proof. intros Hl d k text ->. apply (Hl d (k ++ rest) text). by rewrite app_assoc. Qed.

Lemma linkless_snoc fs place name :
  linkless fs place -> (forall text, node_at fs (place ++ [name]) <> Ok (Link text)) -> linkless fs (place ++ [name]).
Proof.
  intros Hl Hn dir rest text Heq. destruct rest as [|x rest _] using rev_ind.
  - rewrite app_nil_r in Heq. subst dir. apply Hn.
  - rewrite app_assoc in Heq. apply app_inj_tail in Heq as [-> _]. by apply (Hl dir rest).
Qed.

Lemma real_linkless fs place : real fs place -> linkless fs place.
Proof.
  intros [Hdirs (node & Hnode & Hlink)] dir [|name rest] text ->.
  - rewrite app_nil_r in Hnode. intros Hd. assert (node = Link text) as -> by congruence. done.
  - by rewrite (Hdirs dir name rest eq_refl).
Qed.

Lemma linkless_before fs fs' place : grows fs fs' -> linkless fs' place -> linkless fs place.
Proof. intros Hg Hl dir rest text Heq Hn. apply (Hl dir rest text Heq). by apply (later_Ok fs fs' Hg). Qed.

Section Linkless.
Context (fs : Host).
Hypothesis fs_ok : host_ok fs.

Lemma above_is_dir place name rest node :
  node_at fs (place ++ name :: rest) = Ok node -> exists search, node_at fs place = Ok (Dir search).
Proof.
  revert node. induction rest as [|x rest IH] using rev_ind; intros node Hn; [by apply (parents_are_dirs _ fs_ok) in Hn|].
  rewrite app_comm_cons, app_assoc in Hn. apply (parents_are_dirs _ fs_ok) in Hn as [s Hs]. by apply (IH (Dir s)).
Qed.

(** A walk down to a place that is there ends at it, or is not permitted. *)
Lemma walk_linkless links place node :
  linkless fs place -> node_at fs place = Ok node ->
  walk fs links [] (Normal <$> place) = Ok (place, links) \/ walk fs links [] (Normal <$> place) = Err EACCES.
Proof.
  revert node. induction place as [|name place IH] using rev_ind; intros node Hl Hn; [left; by rewrite walk_eq|].
  destruct (above_is_dir place name [] node Hn) as [s Hs].
  rewrite fmap_app, walk_app. destruct (IH (Dir s)) as [-> | ->]; [by eapply linkless_prefix|done| |by right].
  cbn -[walk]. rewrite walk_eq. unfold enter. rewrite Hs. destruct s; [|by right]. cbn -[walk]. rewrite Hn. cbn -[walk].
  destruct node; [left; by rewrite walk_eq..|]. by destruct (Hl (place ++ [name]) [] text); [by rewrite app_nil_r|].
Qed.

Lemma lstat_missing place name text :
  linkless fs place -> symlink_metadata fs (rooted place ++ [Normal name]) = Err ENOENT ->
  node_at fs (place ++ [name]) <> Ok (Link text).
Proof.
  intros Hl Hm Hn. destruct (above_is_dir place name [] _ Hn) as [s Hs].
  unfold symlink_metadata in Hm. rewrite last_snoc, removelast_last in Hm. cbn -[walk] in Hm. unfold rooted in Hm. rewrite walk_root in Hm.
  destruct (walk_linkless (max_links fs) place _ Hl Hs) as [Hw|Hw]; rewrite Hw in Hm; [|done]. cbn in Hm.
  unfold enter in Hm. rewrite Hs in Hm. destruct s; [|done]. cbn in Hm. by rewrite Hn in Hm.
Qed.

Lemma target_real path place : target_of fs path = Ok place -> real fs place.
Proof.
  unfold target_of, start. destruct path as [|[] path]; cbn -[walk];
    [|destruct (walk fs _ [] _) as [[p l]|] eqn:Hw; [|done]; intros [= <-]; eapply walk_real; [done|by apply real_root|exact Hw]|..];
    (destruct (cwd fs) as [from|] eqn:Hc; [|done]); cbn -[walk];
    (destruct (walk fs _ from _) as [[p l]|] eqn:Hw; [|done]); intros [= <-]; (eapply walk_real; [done|by apply (cwd_real _ fs_ok)|exact Hw]).
Qed.

Lemma resolve_component_linkless st c place :
  path st = rooted place -> linkless fs place -> error (resolve_component fs st c) = None ->
  exists place', path (resolve_component fs st c) = rooted place' /\ linkless fs place'.
Proof.
  intros Hp Hl. destruct c as [| | |name]; cbn.
  - intros _. exists []. split; [done|]. apply real_linkless, real_root, fs_ok.
  - intros _. by exists place.
  - destruct (resolve_prefix _ _ _). cbn. intros _. rewrite Hp, pop_rooted. exists (removelast place). split; [done|].
    destruct place as [|x place _] using rev_ind; [done|]. rewrite removelast_last. by eapply linkless_prefix.
  - rewrite Hp. destruct (resolve_prefix fs _ _) as [[[re b]|] f] eqn:Hr; cbn.
    + intros _. apply resolve_prefix_Some in Hr as (_ & _ & _ & Hc). unfold canonicalize in Hc.
      destruct (target_of fs _) as [target|] eqn:Ht; [|done]. injection Hc as <-. exists target. split; [done|].
      apply real_linkless. by eapply target_real.
    + intros ->. exists (place ++ [name]). split; [unfold rooted; by rewrite fmap_app|]. apply linkless_snoc; [done|]. intros text.
      apply lstat_missing; [done|]. by eapply resolve_prefix_None.
Qed.

(** What a path is resolved to without a failure is not reached through a link. *)
Lemma resolve_linkless text r :
  resolve_through_symlinks fs text = Some r -> error r = None -> exists place, path r = rooted place /\ linkless fs place.
Proof.
  unfold resolve_through_symlinks. destruct text as [|c text]; [done|].
  assert (Hgo : forall todo st place, path st = rooted place -> linkless fs place ->
    error (foldl (resolve_component fs) st todo) = None ->
    exists place', path (foldl (resolve_component fs) st todo) = rooted place' /\ linkless fs place').
  { induction todo as [|c' todo IH]; intros st place Hp Hl He; [by exists place|]. cbn [foldl] in *.
    destruct (error (resolve_component fs st c')) eqn:Hc; [by rewrite (resolve_components_error _ _ _ e) in He|].
    destruct (resolve_component_linkless st c' place Hp Hl Hc) as (place' & Hp' & Hl'). by eapply IH. }
  assert (Habs : forall p, absolute_path fs (c :: text) = Ok p -> exists todo, p = RootDir :: todo).
  { intros p. unfold absolute_path. destruct c; [intros [= <-]; by eexists|..]; (destruct (cwd fs); [|done]);
      intros [= <-]; by eexists. }
  destruct (absolute_path fs (c :: text)) as [p|]; intros [= <-]; [|done]. destruct (Habs p eq_refl) as [todo ->]. cbn [foldl resolve_component].
  apply (Hgo _ _ []); [done|]. apply real_linkless, real_root, fs_ok.
Qed.

End Linkless.

(** ** The theorem *)

Lemma resolution_reaches fs fs' text place :
  host_ok fs -> host_ok fs' -> grows fs fs' -> text <> "" ->
  target_of fs' (lookup_components text) = Ok place ->
  exists todo r, absolute_path fs (components text) = Ok (RootDir :: todo) /\
    resolve_through_symlinks fs (components text) = Some r /\
    r = foldl (resolve_component fs) (MkResolution [] None [] []) (RootDir :: todo) /\
    (error r = None -> path r = rooted place) /\ (fs = fs' -> error r = None).
Proof.
  intros Hok Hok' Hg Hne Hk. apply target_of_lookup in Hk; [|done].
  destruct (absolute_walk fs fs' Hok' Hg _ _ (components_ne _ Hne) Hk) as (todo & l & Habs & Hw).
  exists todo, (foldl (resolve_component fs) (MkResolution [] None [] []) (RootDir :: todo)). split_and!; [done| |done|..].
  - unfold resolve_through_symlinks. destruct (components text) eqn:Hc; [by apply components_ne in Hc|]. by rewrite Habs.
  - apply (resolution_from_root fs fs' Hok Hok' Hg todo (max_links fs) place l ltac:(lia) Hw).
  - apply (resolution_from_root fs fs' Hok Hok' Hg todo (max_links fs) place l ltac:(lia) Hw).
Qed.

(** C19. A policy path is resolved to what the kernel would reach.  If a lookup of
    the path ends at [place], on the host as it is or as it becomes when missing
    files and directories are created, then the code resolves the path on the host
    as it is to [place], or reports a failure; on the host as it is it reports
    none.  Each link recorded on the way is a link of the host, with the place the
    kernel reaches through it. *)
Theorem resolution_follows_kernel fs fs' text place :
  host_ok fs -> host_ok fs' -> grows fs fs' -> text <> "" ->
  target_of fs' (lookup_components text) = Ok place ->
  exists r, resolve_through_symlinks fs (components text) = Some r /\
    (error r = None -> path r = rooted place) /\ (fs = fs' -> error r = None) /\ links_followed fs (links r).
Proof.
  intros Hok Hok' Hg Hne Hk.
  destruct (resolution_reaches fs fs' text place Hok Hok' Hg Hne Hk) as (todo & r & _ & Hr & Hfold & H1 & H2).
  exists r. split_and!; [done..|]. rewrite Hfold. apply resolve_components_links. constructor.
Qed.

(** A home directory with a link, before and after two of its entries are made. *)
Definition home_nodes : gmap (list string) Node :=
  list_to_map [([], Dir true); (["home"], Dir true); (["home"; "real"], Dir true); (["home"; "link"], Link "real")].

Definition home_nodes_later : gmap (list string) Node :=
  <[["home"; "real"; "gone"] := Dir true]> (<[["home"; "real"; "key"] := File]> home_nodes).

Lemma resolution_follows_kernel_witness :
  exists r, resolve_through_symlinks (host_of home_nodes) (components "/home/link/gone/../key") = Some r /\
    path r = rooted ["home"; "real"; "key"] /\ links r = [(rooted ["home"; "link"], rooted ["home"; "real"])].
Proof.
  destruct (resolution_follows_kernel (host_of home_nodes) (host_of home_nodes_later) "/home/link/gone/../key"
    ["home"; "real"; "key"]) as (r & Hr & Hpath & _); [| |apply host_of_grows|done| |];
    [apply host_of_ok; vm_compute; reflexivity..|vm_compute; reflexivity|vm_compute; reflexivity|].
  exists r. split_and!; [exact Hr| |].
  - apply Hpath. vm_compute in Hr. injection Hr as <-. reflexivity.
  - vm_compute in Hr. injection Hr as <-. vm_compute. reflexivity.
Defined.

End SymlinkWalk.
