(* ===== verification/BwrapProxy.v ===== *)
(** * The proxy of a Bubblewrap sandbox and the files pinned into it

    The parts of [backends/bubblewrap/common/proxy_network.rs] that decide what a
    sandbox with a private network sees: the proxy as the sandbox reaches it
    ([SandboxProxy]), the text of the hosts file that pins its name, and the text of
    the resolver file that points at slirp's forwarder.  The host's name lookup and
    the [url] crate are arguments. *)

From Stdlib Require Import Ascii.
From stdpp Require Import gmap.
From S2P Require Import Prelude NetText Models LxcMounts.

Module BwrapProxy.

(** ** Words *)

(** How many bytes of white space the text starts with: one character, or none. *)
Definition white_length (s : string) : nat :=
  if negb (starts_white s) then 0
  else match s with
       | String a _ => if is_ascii_space a then 1 else if bool_decide (byte_of a = 0xC2)%Z then 2 else 3
       | EmptyString => 0
       end.

Definition flush (word : string) : list string := if bool_decide (word = "") then [] else [word].

(** [str::split_whitespace]; [skip] bytes are left of a white space character. *)
Fixpoint words_from (s : string) (skip : nat) (word : string) : list string :=
  match s with
  | EmptyString => flush word
  | String c rest =>
      match skip with
      | S skip => words_from rest skip word
      | O =>
          match white_length s with
          | O => words_from rest 0 (word +:+ String c "")
          | S more => flush word ++ words_from rest more ""
          end
      end
  end.

Definition split_whitespace (s : string) : list string := words_from s 0 "".

(** ** The proxy as the sandbox sees it *)

Definition SLIRP_HOST_GATEWAY : string := "10.0.2.2".
Definition SLIRP_HOST_GATEWAY_IP : Z := 0x0A000202.
Definition SLIRP_NETWORK : string := "10.0.2.0/24".
Definition SLIRP_NETWORK_OCTETS : Z := 0x0A0002.

Definition is_v4_loopback (ip : Z) : bool := bool_decide (Z.shiftr ip 24 = 127)%Z.
Definition is_loopback (ip : IpAddr) : bool :=
  match ip with V4 bits => is_v4_loopback bits | V6 bits => bool_decide (bits = 1)%Z end.

Record ProxyEgress : Type := MkEgress {
  egress_ip : Z;
  egress_port : Z;
  pin : option ProxyHostPin;
}.

Record SandboxProxy : Type := MkSandboxProxy {
  sandbox_address : ProxyAddress;
  egress : ProxyEgress;
}.

Inductive ProxyResolveError : Type :=
| Rejected (message : string)
| RejectedPin (error : PinError)
| Lookup (message : string).

Definition reject_slirp_reserved (resolved : Z) (host : string) : result ProxyResolveError unit :=
  let shown := ip_text (V4 resolved) in
  if negb (bool_decide (Z.shiftr resolved 8 = SLIRP_NETWORK_OCTETS)) then Ok tt
  else
    Err (Rejected ("Bubblewrap: proxy endpoint '" +:+ host +:+ "' is " +:+ shown +:+ ", which is inside the sandbox's own network ("
      +:+ SLIRP_NETWORK +:+ "); there that address is slirp's own, not the host's " +:+ shown
      +:+ ", so the egress rule would open an unrelated service. Bind the proxy to 127.0.0.1 -- which is translated to the gateway deliberately -- or give it an address outside "
      +:+ SLIRP_NETWORK +:+ ".")).

Definition sandbox_facing_ip (resolved : Z) : Z :=
  if is_v4_loopback resolved || bool_decide (resolved = 0)%Z then SLIRP_HOST_GATEWAY_IP else resolved.

Definition ipv6_unsupported (host : string) : string :=
  "Bubblewrap: proxy-only egress requires an IPv4 proxy endpoint, but '" +:+ host +:+
  "' is reachable over IPv6 only. The egress rule is emitted with IPv4 iptables, so an IPv6 endpoint would be silently dropped. Use an IPv4 proxy address.".

(** What is used of [url::Url]: [parse], with the text of its error, [set_host]
    and [as_str]. *)
Class GatewayUrl : Type := {
  ProxyUrl : Type;
  url_parse : string -> result string ProxyUrl;
  url_set_host : ProxyUrl -> string -> option ProxyUrl;
  url_text : ProxyUrl -> string;
}.

Section Resolve.
Context `{!GatewayUrl}.

Definition rewrite_to_gateway (address : ProxyAddress) : result ProxyResolveError ProxyAddress :=
  match original_url address with
  | Some original_url =>
      url ← map_err (fun error =>
          Rejected ("Bubblewrap: failed to translate proxy URL for private networking: " +:+ error)) (url_parse original_url);
      url ← ok_or (url_set_host url SLIRP_HOST_GATEWAY)
        (Rejected "Bubblewrap: failed to translate proxy URL host for private networking");
      Ok (ProxyAddress_from_url (url_text url) SLIRP_HOST_GATEWAY (proxy_port address))
  | None => Ok (ProxyAddress_new SLIRP_HOST_GATEWAY (proxy_port address))
  end.

Definition rewritten (configured : ProxyAddress) : result ProxyResolveError SandboxProxy :=
  address ← rewrite_to_gateway configured;
  Ok (MkSandboxProxy address (MkEgress SLIRP_HOST_GATEWAY_IP (proxy_port configured) None)).

Definition lift {S E A} (r : result E A) : stateful S E A := fun st => (r, st).

(** The resolver is injected, and may have a state. *)
Definition resolve_with {S} (configured : ProxyAddress) (resolve : string -> Z -> stateful S ProxyResolveError Z)
    : stateful S ProxyResolveError SandboxProxy :=
  if bool_decide (proxy_port configured = 0)%Z then
    throw (Rejected "Bubblewrap: proxy-only egress requires a non-zero proxy port")
  else
    let host := trim_matches (fun c => bool_decide (c = "["%char) || bool_decide (c = "]"%char)) (proxy_address configured) in
    match parse_ipv4 host with
    | Some ip =>
        if is_v4_loopback ip || bool_decide (ip = 0)%Z then lift (rewritten configured)
        else
          _ ← lift (reject_slirp_reserved ip host);
          mret (MkSandboxProxy configured (MkEgress ip (proxy_port configured) None))
    | None =>
        match parse_with read_ipv6 host with
        | Some ip =>
            if bool_decide (ip = 0)%Z then lift (rewritten configured)
            else if bool_decide (ip = 1)%Z then
              throw (Rejected ("Bubblewrap: proxy address '" +:+ proxy_address configured +:+
                "' uses the IPv6 loopback, which the private network namespace cannot reach; bind the proxy to 127.0.0.1 or a dual-stack wildcard address instead. The egress rule is emitted with IPv4 iptables."))
            else throw (Rejected (ipv6_unsupported host))
        | None =>
            if eq_ignore_ascii_case host "localhost" then lift (rewritten configured)
            else
              resolved ← resolve host (proxy_port configured);
              _ ← lift (reject_slirp_reserved resolved host);
              let ip := sandbox_facing_ip resolved in
              pin ← lift (map_err RejectedPin (host_pin configured (V4 ip)));
              mret (MkSandboxProxy configured (MkEgress ip (proxy_port configured) pin))
        end
    end.

(** [lookup]: the host's resolver, within its deadline. *)
Definition resolve (lookup : string -> Z -> result ProxyResolveError Z) (configured : ProxyAddress)
    : result ProxyResolveError SandboxProxy :=
  fst (resolve_with configured (fun host port => lift (lookup host port)) tt).

(** The state is whether the resolver was asked. *)
Definition inspect_without_resolving (configured : ProxyAddress) : bool * result ProxyResolveError unit :=
  let '(checked, asked) := resolve_with configured (fun _ _ _ => (Err (Lookup ""), true)) false in
  (asked, _ ← checked; Ok tt).

(** A pin is made only for an endpoint that is looked up. *)
Lemma pin_needs_lookup lookup configured proxy p :
  resolve lookup configured = Ok proxy -> pin (egress proxy) = Some p -> fst (inspect_without_resolving configured) = true.
Proof.
  unfold resolve, inspect_without_resolving, resolve_with. set (host := trim_matches _ _).
  destruct (bool_decide (proxy_port configured = 0)%Z); [done|].
  assert (Hrewritten : rewritten configured = Ok proxy -> pin (egress proxy) <> Some p).
  { unfold rewritten. intros (address & _ & [= <-])%bind_Ok. done. }
  destruct (parse_ipv4 host) as [ip|].
  - destruct (_ || _); cbn; [intros Hr Hp; by destruct (Hrewritten Hr)|].
    destruct (reject_slirp_reserved ip host); cbn; [|done]. by intros [= <-].
  - destruct (parse_with read_ipv6 host) as [ip|].
    + destruct (bool_decide (ip = 0)%Z); [intros Hr Hp; by destruct (Hrewritten Hr)|]. by destruct (bool_decide (ip = 1)%Z).
    + destruct (eq_ignore_ascii_case host "localhost"); [intros Hr Hp; by destruct (Hrewritten Hr)|]. done.
Qed.

End Resolve.

(** ** The pinned files *)

Definition SANDBOX_HOSTS_PATH : string := "/etc/hosts".
Definition SANDBOX_RESOLV_CONF_PATH : string := "/etc/resolv.conf".
Definition SLIRP_DNS_FORWARDER : string := "10.0.2.3".

Definition line (s : string) : string := s +:+ String (ascii_of_nat 10) "".

(** One line of the loop of [strip_host_from_hosts]. *)
Definition strip_line (hostname text : string) : string :=
  let '(body, comment) := match split_once "#"%char text with
                          | Some (body, comment) => (body, Some comment)
                          | None => (text, None)
                          end in
  match split_whitespace body with
  | [] => line text
  | address :: names =>
      if negb (existsb (fun name => eq_ignore_ascii_case name hostname) names) then line text
      else
        match filter (fun name => eq_ignore_ascii_case name hostname = false) names with
        | [] => match comment with Some comment => line ("#" +:+ comment) | None => "" end
        | kept =>
            line (address +:+ string_concat ((fun name => " " +:+ name) <$> kept)
                  +:+ match comment with Some comment => " #" +:+ comment | None => "" end)
        end
  end.

Definition strip_host_from_hosts (contents hostname : string) : string :=
  string_concat (strip_line hostname <$> LxcMounts.lines contents).

(** The text [write_pinned_hosts] writes, given the host's file. *)
Definition pinned_hosts (existing : string) (pin : ProxyHostPin) : string :=
  line (hosts_line pin) +:+ strip_host_from_hosts existing (pin_hostname pin).

Definition directive_keyword (text : string) : option string :=
  if starts_white text then None else head (split_whitespace text).

Definition is_nameserver_line (text : string) : bool := bool_decide (directive_keyword text = Some "nameserver").

Definition nameserver_values (contents : string) : list string :=
  omap (fun text => if is_nameserver_line text then split_whitespace text !! 1%nat else None) (LxcMounts.lines contents).

(** The loop of [resolvers_are_loopback_only], with [saw_ipv4_loopback]. *)
Fixpoint loopback_only (saw : bool) (values : list string) : bool :=
  match values with
  | [] => saw
  | value :: values =>
      match parse_ip (default value (head (string_split "%"%char value))) with
      | Some (V4 bits) => if is_loopback (V4 bits) then loopback_only true values else false
      | Some (V6 bits) => if is_loopback (V6 bits) then loopback_only saw values else false
      | None => false
      end
  end.

Definition resolvers_are_loopback_only (contents : string) : bool := loopback_only false (nameserver_values contents).

Definition CARRIED_DIRECTIVES : list string := ["search"; "domain"; "sortlist"; "options"].

Definition render_pinned_resolv_conf (contents : string) : string :=
  line ("nameserver " +:+ SLIRP_DNS_FORWARDER)
  +:+ string_concat (line <$> List.filter (fun text =>
        match directive_keyword text with Some keyword => bool_decide (keyword ∈ CARRIED_DIRECTIVES) | None => false end)
        (LxcMounts.lines contents)).

Example resolver_example :
  let nl := String (ascii_of_nat 10) "" in
  let contents := "# stub" +:+ nl +:+ "nameserver 127.0.0.53" +:+ nl +:+ "options edns0" +:+ nl +:+ "search lan" +:+ nl in
  resolvers_are_loopback_only contents = true /\
  render_pinned_resolv_conf contents = "nameserver 10.0.2.3" +:+ nl +:+ "options edns0" +:+ nl +:+ "search lan" +:+ nl.
Proof. vm_compute. done. Qed.

End BwrapProxy.
