(* ===== verification/BwrapResolve.v ===== *)
(** * From a policy to the mounts of a Bubblewrap sandbox

    The filesystem half of [backends/bubblewrap/common/bwrap_runner.rs] [spawn]:
    aliases of one object are tightened, the caller's own access is checked
    ([core/mxc_common/filesystem_access.rs]), denied and granted paths are moved
    to the real places they name, and the argument vector is built from the
    result.  The host is a [HostFs.Host]; what its probe workers, [access]
    and the identity of objects answer are arguments.  The lemmas tell what the
    lists of a launch hold, in terms of the lists of the request. *)

From Stdlib Require Import Ascii.
From stdpp Require Import gmap.
From S2P Require Import Prelude NetText Models Requests ProxyEnv UnixPath FsPolicy DefaultEnv MountView BwrapCommand BwrapLinks BwrapView SymlinkWalk BwrapProxy.

#[local] Open Scope nat_scope.

Module BwrapResolve.
Export BwrapView.
Module H := HostFs.
Module S := SymlinkWalk.

(** ** Text of host paths *)

(** Whether bytes are UTF-8: the ranges of the first and second byte, and how
    many continuation bytes follow them. *)
Definition in_range (lo hi : nat) (c : ascii) : bool := (lo <=? nat_of_ascii c) && (nat_of_ascii c <=? hi).

Definition continuation (c : ascii) : bool := in_range 0x80 0xBF c.

Fixpoint is_utf8 (s : string) : bool :=
  match s with
  | EmptyString => true
  | String a s =>
      if in_range 0 0x7F a then is_utf8 s
      else match s with
           | EmptyString => false
           | String b s =>
               if in_range 0xC2 0xDF a then continuation b && is_utf8 s
               else match s with
                    | EmptyString => false
                    | String c s =>
                        if in_range 0xE0 0xEF a then
                          (if in_range 0xE0 0xE0 a then in_range 0xA0 0xBF b
                           else if in_range 0xED 0xED a then in_range 0x80 0x9F b else continuation b)
                          && continuation c && is_utf8 s
                        else match s with
                             | EmptyString => false
                             | String d s =>
                                 in_range 0xF0 0xF4 a
                                 && (if in_range 0xF0 0xF0 a then in_range 0x90 0xBF b
                                     else if in_range 0xF4 0xF4 a then in_range 0x80 0x8F b else continuation b)
                                 && continuation c && continuation d && is_utf8 s
                             end
                    end
           end
  end.

(** The bytes of a path, and [OsString::into_string]. *)
Definition path_text (path : list UnixPath.Component) : string :=
  match path with
  | UnixPath.RootDir :: rest => "/" +:+ string_join "/" (UnixPath.Component_as_str <$> rest)
  | _ => string_join "/" (UnixPath.Component_as_str <$> path)
  end.

Definition into_string (path : list UnixPath.Component) : option string :=
  if is_utf8 (path_text path) then Some (path_text path) else None.

(** [Path::join]. *)
Definition join (base : list UnixPath.Component) (rest : list UnixPath.Component) : list UnixPath.Component :=
  match rest with
  | UnixPath.RootDir :: _ => rest
  | UnixPath.CurDir :: rest => base ++ rest
  | _ => base ++ rest
  end.

(** [Path::strip_prefix]. *)
Fixpoint strip_path (base path : list UnixPath.Component) : option (list UnixPath.Component) :=
  match base, path with
  | [], _ => Some path
  | a :: base, b :: path => if decide (a = b) then strip_path base path else None
  | _ :: _, [] => None
  end.

(** How Rust shows an error of the host. *)
Definition errno_text (e : H.Errno) : string :=
  match e with
  | H.ENOENT => "No such file or directory (os error 2)"
  | H.ENOTDIR => "Not a directory (os error 20)"
  | H.EACCES => "Permission denied (os error 13)"
  | H.ELOOP => "Too many levels of symbolic links (os error 40)"
  | H.ENAMETOOLONG => "File name too long (os error 36)"
  | H.EPERM => "Operation not permitted (os error 1)"
  | H.EROFS => "Read-only file system (os error 30)"
  | H.EINVAL => "Invalid argument (os error 22)"
  | H.EIO => "Input/output error (os error 5)"
  end.

(** ** [filesystem_access.rs] *)

Inductive AccessMode : Type := AccessRead | AccessReadWrite.

Definition access_list_name (m : AccessMode) : string :=
  match m with AccessRead => "readonlyPaths" | AccessReadWrite => "readwritePaths" end.
Definition access_phrase (m : AccessMode) : string :=
  match m with AccessRead => "read" | AccessReadWrite => "read+write" end.

Inductive UserAccess : Type :=
| Granted
| Missing
| AccessDenied
| Uninspectable (reason : string).

Definition classify_access_error (e : H.Errno) : UserAccess :=
  match e with
  | H.ENOENT | H.ENOTDIR => Missing
  | H.EACCES | H.EPERM | H.EROFS => AccessDenied
  | e => Uninspectable (errno_text e)
  end.

(** [CString::new] and [access(2)]. *)
Definition user_can_access (access : string -> AccessMode -> result H.Errno unit) (path : string) (mode : AccessMode) : UserAccess :=
  if string_any (fun c => bool_decide (c = "000"%char)) path then AccessDenied
  else match access path mode with
       | Ok _ => Granted
       | Err e => classify_access_error e
       end.

Definition check_path (check : string -> AccessMode -> result string UserAccess) (mode : AccessMode) (path : string)
    : result FilesystemPolicyError unit :=
  found ← map_err HostError (check path mode);
  match found with
  | Granted | Missing => Ok tt
  | AccessDenied =>
      Err (PolicyError ("Filesystem path '" +:+ path +:+ "' (" +:+ access_list_name mode
        +:+ "): the invoking user does not have " +:+ access_phrase mode
        +:+ " access, so it cannot be delegated to the sandbox"))
  | Uninspectable reason =>
      Err (HostError ("Filesystem path '" +:+ path +:+ "' (" +:+ access_list_name mode
        +:+ "): could not check the invoking user's " +:+ access_phrase mode +:+ " access (" +:+ reason
        +:+ "), so it was not delegated to the sandbox"))
  end.

Definition check_delegation_with (check : string -> AccessMode -> result string UserAccess) (p : ContainerPolicy)
    : result FilesystemPolicyError unit :=
  _ ← mapM (check_path check AccessRead) (readonly_paths p);
  _ ← mapM (check_path check AccessReadWrite) (readwrite_paths p);
  Ok tt.

(** ** Paths of the policy at their real places *)

Definition MAX_SYMLINKS : nat := 40.

Record DeniedPlan : Type := MkDeniedPlan {
  paths : option (list string);
  files : gset string;
}.

Record GrantPlan : Type := MkGrantPlan {
  grant_policy : option ContainerPolicy;
  aliased : list AliasedGrant;
  replaces_private_tmp : bool;
}.

Section Host.
(** The host, and whether a probe worker answers for a path. *)
Context (fs : H.Host) (probe : string -> result string unit).

Definition refusal (message : string) (e : H.Errno) : FilesystemPolicyError :=
  if S.is_policy_path_error e then PolicyError message else HostError message.

Definition is_file_mask_target (path : string) : bool :=
  match H.symlink_metadata fs (UnixPath.components path) with
  | Ok node => negb (H.is_dir node)
  | Err _ => false
  end.

Definition resolve_denied_path (path : string) : result FilesystemPolicyError (string * bool) :=
  resolved ← match S.resolve_through_symlinks fs (UnixPath.components path) with
             | Some resolved =>
                 match S.error resolved with
                 | Some e =>
                     Err (refusal ("Bubblewrap: deniedPaths entry '" +:+ path +:+ "' could not be resolved (" +:+ errno_text e
                                   +:+ "); refusing to start.") e)
                 | None => Ok (S.path resolved)
                 end
             | None => Ok []
             end;
  resolved ← ok_or (into_string resolved)
    (PolicyError ("Bubblewrap: deniedPaths entry '" +:+ path +:+
      "' resolves to a non-UTF-8 host path that cannot be safely masked; refusing to start."));
  Ok (resolved, is_file_mask_target resolved).

Definition deny_step (path : string) (st : bool * list string * gset string)
    : result FilesystemPolicyError (bool * list string * gset string) :=
  let '(changed, out, files) := st in
  _ ← map_err HostError (probe path);
  '(resolved, is_file) ← resolve_denied_path path;
  Ok (changed || negb (bool_decide (resolved = path)), out ++ [resolved],
      if (is_file : bool) then {[resolved]} ∪ files else files).

Definition resolve_denied_paths (p : ContainerPolicy) : result FilesystemPolicyError DeniedPlan :=
  '(changed, out, files) ← foldM deny_step (denied_paths p) (false, [], ∅);
  Ok (MkDeniedPlan (if (changed : bool) then Some out else None) files).

(** [fuel] is what is left of [MAX_SYMLINKS] at the call's depth. *)
Fixpoint host_link (refuse : H.Errno -> FilesystemPolicyError)
    (text : list UnixPath.Component -> result FilesystemPolicyError string) (fuel : nat)
    (location target : list UnixPath.Component) : result FilesystemPolicyError GrantLink :=
  match fuel with
  | O => Err (refuse H.ELOOP)
  | Datatypes.S fuel =>
      link ← map_err refuse (H.read_link fs location);
      let followed := join (default [UnixPath.RootDir] (UnixPath.parent location)) (UnixPath.components link) in
      '(passes_through, climbs_out_of) ←
        match S.resolve_through_symlinks fs followed with
        | Some resolved =>
            match S.error resolved with
            | Some e => Err (refuse e)
            | None =>
                passes_through ← mapM (fun hop => host_link refuse text fuel hop.1 hop.2) (S.links resolved);
                climbs_out_of ← mapM text (S.climbed_out_of resolved);
                Ok (passes_through, climbs_out_of)
            end
        | None => Ok ([], [])
        end;
      path ← text location;
      target ← text target;
      Ok (MkGrantLink path target passes_through climbs_out_of)
  end.

Definition inner_link (path : list UnixPath.Component) (links : list (list UnixPath.Component * list UnixPath.Component))
    : result H.Errno (option (list UnixPath.Component * list UnixPath.Component)) :=
  match links with
  | [] => Ok None
  | (first, _) :: _ =>
      path ← S.absolute_path fs path;
      match strip_path first path with
      | Some (UnixPath.Normal next :: parts) =>
          if decide (UnixPath.ParentDir ∈ parts) then Ok None
          else
            let inner := first ++ [UnixPath.Normal next] in
            match S.resolve_through_symlinks fs inner with
            | Some resolved =>
                match S.error resolved with
                | Some e => Err e
                | None => Ok (Some (inner, S.path resolved))
                end
            | None => Ok None
            end
      | _ => Ok None
      end
  end.

Definition resolve_granted_path (list_ path : string) : result FilesystemPolicyError AliasedGrant :=
  let refuse e :=
    refusal ("Bubblewrap: " +:+ list_ +:+ " entry '" +:+ path +:+ "' could not be resolved (" +:+ errno_text e
             +:+ "); refusing to start.") e in
  let text host_path :=
    ok_or (into_string host_path)
      (PolicyError ("Bubblewrap: " +:+ list_ +:+ " entry '" +:+ path +:+
        "' resolves through a non-UTF-8 host path that cannot be mounted; refusing to start.")) in
  match S.resolve_through_symlinks fs (UnixPath.components path) with
  | None => Ok (MkAliased path [] None [])
  | Some resolved =>
      match S.error resolved with
      | Some e => Err (refuse e)
      | None =>
          inner ← map_err refuse (inner_link (UnixPath.components path) (S.links resolved));
          links ← mapM (fun link => host_link refuse text MAX_SYMLINKS link.1 link.2) (S.links resolved);
          inner ← match inner with
                  | Some (location, target) =>
                      path ← text location; target ← text target; Ok (Some (MkGrantLink path target [] []))
                  | None => Ok None
                  end;
          real_path ← text (S.path resolved);
          climbs_out_of ← mapM text (S.climbed_out_of resolved);
          Ok (MkAliased real_path links inner climbs_out_of)
      end
  end.

(** What the closure [resolve] accumulates over both lists. *)
Record GrantState : Type := MkGrantState {
  moved : bool;
  private_tmp_replaced : bool;
  aliased_grants : list AliasedGrant;
}.

Definition grant_step (list_ path : string) (st : GrantState * list string)
    : result FilesystemPolicyError (GrantState * list string) :=
  let '(st, real_paths) := st in
  _ ← map_err HostError (probe path);
  grant ← resolve_granted_path list_ path;
  let real := real_path grant in
  Ok (MkGrantState (moved st || negb (bool_decide (real = path)))
        (private_tmp_replaced st
         || existsb (fun link => bool_decide (grant_path link = "/tmp") && bool_decide (grant_target link = real)) (links grant))
        (if is_empty (links grant) && is_empty (climbs_out_of grant) then aliased_grants st
         else aliased_grants st ++ [grant]),
      if decide (real ∈ real_paths) then real_paths else real_paths ++ [real]).

Definition resolve_granted_paths (p : ContainerPolicy) : result FilesystemPolicyError GrantPlan :=
  '(st, readwrite) ← foldM (grant_step "readwritePaths") (readwrite_paths p) (MkGrantState false false [], []);
  '(st, readonly) ← foldM (grant_step "readonlyPaths") (readonly_paths p) (st, []);
  Ok (MkGrantPlan (if moved st then Some (set_paths p readwrite readonly (denied_paths p)) else None)
        (aliased_grants st) (private_tmp_replaced st)).

Definition host_link_target (path : string) : result H.Errno (option (list UnixPath.Component)) :=
  match H.symlink_metadata fs (UnixPath.components path) with
  | Ok node =>
      if H.is_symlink node then
        match H.canonicalize fs (UnixPath.components path) with
        | Ok target => Ok (Some target)
        | Err H.ENOENT => Ok None
        | Err e => Err e
        end
      else Ok None
  | Err H.ENOENT => Ok None
  | Err e => Err e
  end.

End Host.

(** ** The proxy's pin and a denied hosts file *)

Definition hosts_file_is_denied (p : ContainerPolicy) : bool := path_is_denied p BwrapProxy.SANDBOX_HOSTS_PATH.

Section Pin.
Context `{!BwrapProxy.GatewayUrl}.

Definition check_hosts_pin_against_policy (configured : ProxyAddress) (p : ContainerPolicy) : result string unit :=
  let '(needs_pin, _) := BwrapProxy.inspect_without_resolving configured in
  if negb needs_pin || negb (hosts_file_is_denied p) then Ok tt
  else
    Err ("Bubblewrap: the proxy endpoint '" +:+ proxy_address configured +:+
      "' is a hostname, which is reached by pinning it in the sandbox's " +:+ BwrapProxy.SANDBOX_HOSTS_PATH +:+
      ", but the filesystem policy denies that path. The pin is applied after every policy mount, so honouring it would expose the file the policy masks. Remove "
      +:+ BwrapProxy.SANDBOX_HOSTS_PATH +:+ " from deniedPaths, or give the proxy an IP address, which needs no pin.").

Definition check_pin_against_denied_hosts (r : ExecutionRequest) : result string unit :=
  match from_request r (is_enabled (network_proxy (policy r))), proxy_config_address (network_proxy (policy r)) with
  | ProxyOnly, Some address => check_hosts_pin_against_policy address (policy r)
  | _, _ => Ok tt
  end.

End Pin.

(** ** [spawn], up to the process *)

Definition message (e : FilesystemPolicyError) : string := match e with PolicyError m | HostError m => m end.

Record Launch : Type := MkLaunch {
  launch_request : ExecutionRequest;
  launch_files : gset string;
  launch_baseline : list BaselineLink;
  launch_aliased : list AliasedGrant;
  launch_private_tmp : bool;
}.

Section Spawn.
Context `{!BwrapProxy.GatewayUrl}.
(** [resolve]: the identity of the object at a path; [probe]: whether a worker
    answers; [access]: the system call. *)
Context (fs : H.Host) (resolve : string -> result string PathResolution) (probe : string -> result string unit)
  (access : string -> AccessMode -> result H.Errno unit).

(** The policy of a request as [spawn] mounts it. *)
Definition prepare (r : ExecutionRequest) : result string Launch :=
  tightened ← map_err message (normalize_object_conflicts_with resolve (policy r));
  let r := with_policy r (default (policy r) tightened) in
  _ ← map_err message
        (check_delegation_with (fun path mode => _ ← probe path; Ok (user_can_access access path mode)) (policy r));
  plan ← map_err message (resolve_denied_paths fs probe (policy r));
  let r := match paths plan with
           | Some denied => with_policy r (set_paths (policy r) (readwrite_paths (policy r)) (readonly_paths (policy r)) denied)
           | None => r
           end in
  grants ← map_err message (resolve_granted_paths fs probe (policy r));
  _ ← check_pin_against_denied_hosts r;
  let r := with_policy r (default (policy r) (grant_policy grants)) in
  baseline ← map_err (fun e => "Bubblewrap: " +:+ e)
    (baseline_links (fun path => map_err errno_text (option_map path_text <$> host_link_target fs path)));
  Ok (MkLaunch r (files plan) baseline (aliased grants) (negb (replaces_private_tmp grants))).

End Spawn.

(** ** Plain names *)

Definition plain_component (c : UnixPath.Component) : Prop :=
  match c with UnixPath.Normal name => plain [name] | _ => True end.

Lemma split_keeps_lacking sep c s : lacks c s = true -> Forall (fun p => lacks c p = true) (string_split sep s).
Proof.
  unfold lacks. induction s as [|x s IH]; [repeat constructor|]. cbn. intros [Hx Hs]%andb_true_iff. specialize (IH Hs).
  destruct (decide (x = sep)); [by constructor|]. destruct (string_split sep s) as [|p ps]; inversion IH; subst; constructor; try done;
    cbn; rewrite Hx; done.
Qed.

Lemma components_plain s : lacks "\" s = true -> Forall plain_component (UnixPath.components s).
Proof.
  intros Hs. unfold UnixPath.components. apply Forall_app. split.
  - destruct (UnixPath.has_root s); [by repeat constructor|]. by repeat case_match; repeat constructor.
  - apply Forall_forall. intros c (seg & Hseg & Hc)%list_elem_of_omap.
    pose proof (string_split_lacks "/" s) as Hslash. pose proof (split_keeps_lacking "/" "\" s Hs) as Hback.
    rewrite Forall_forall in Hslash, Hback. specialize (Hslash _ Hseg). specialize (Hback _ Hseg).
    unfold UnixPath.segment in Hc. repeat case_bool_decide; cbn in Hc; try done; injection Hc as <-; [done|].
    constructor; [|done]. split; [|done]. unfold UnixPath.clean_name. rewrite UnixPath.lacks_slash, Hslash.
    by rewrite !bool_decide_eq_false_2.
Qed.

(** A host whose links and current directory are written without backslashes,
    as the keys of the mount plan read both slashes. *)
Definition tidy (fs : H.Host) : Prop :=
  (forall place text, H.node_at fs place = Ok (H.Link text) -> lacks "\" text = true) /\
  (forall place, H.cwd fs = Ok place -> plain place).

Section Tidy.
Context (fs : H.Host).
Hypothesis fs_tidy : tidy fs.

Lemma lookup_components_plain s : lacks "\" s = true -> Forall plain_component (H.lookup_components s).
Proof.
  intros Hs. apply Forall_app. split; [by apply components_plain|]. by repeat case_match; repeat constructor.
Qed.

Lemma plain_up place : plain place -> plain (removelast place).
Proof.
  intros Hp. destruct place as [|x place _] using rev_ind; [done|]. rewrite removelast_last. by apply Forall_app in Hp as [? _].
Qed.

Lemma walk_plain links place todo place' links' :
  plain place -> Forall plain_component todo -> H.walk fs links place todo = Ok (place', links') -> plain place'.
Proof.
  revert place' links'. revert links place todo.
  apply (H.walk_induct (fun links place todo => forall place' links', plain place -> _ -> _ -> _)).
  intros links place todo IHt IHl place' links' Hplace Htodo. rewrite (H.walk_eq fs links).
  destruct Htodo as [|c todo Hc Htodo]; [by intros [= <- _]|].
  destruct c as [| | |name]; [apply IHt; [cbn; lia|by constructor|done]|..];
    (destruct (H.enter fs place); [|done]); cbn; [apply IHt; [cbn; lia|by try apply plain_up|done]..|].
  destruct (H.node_at fs (place ++ [name])) as [[s| |text]|] eqn:Hn; cbn;
    [apply IHt; [cbn; lia|by apply Forall_app|done]..| |done].
  destruct links as [|links]; [done|]. apply IHl; [done..|]. apply Forall_app. split; [|done].
  apply lookup_components_plain. by eapply fs_tidy.
Qed.

Lemma start_plain path place : H.start fs path = Ok place -> plain place.
Proof. destruct path as [|[]]; cbn; try apply fs_tidy. intros [= <-]. constructor. Qed.

Lemma canonicalize_plain path target :
  Forall plain_component path -> H.canonicalize fs path = Ok target -> exists names, plain names /\ target = path_of names.
Proof.
  intros Hp. unfold H.canonicalize, H.target_of. destruct (H.start fs path) as [place|] eqn:Hs; [|done]. cbn -[H.walk].
  destruct (H.walk fs _ _ _) as [[names l]|] eqn:Hw; [|done]. cbn. intros [= <-]. exists names. split; [|done].
  eapply walk_plain; [by eapply start_plain|exact Hp|exact Hw].
Qed.

Lemma path_of_plain names : plain names -> Forall plain_component (path_of names).
Proof. intros Hn. constructor; [done|]. apply Forall_fmap. eapply Forall_impl; [exact Hn|]. intros x Hx. by constructor. Qed.

Lemma resolve_component_plain st c names :
  plain_component c -> S.path st = path_of names -> plain names ->
  exists names', plain names' /\ S.path (S.resolve_component fs st c) = path_of names'.
Proof.
  intros Hc Hst Hn. destruct c as [| | |name]; cbn.
  - exists []. split; [constructor|done].
  - by exists names.
  - destruct (S.resolve_prefix _ _ _). cbn. rewrite Hst. exists (removelast names). split; [by apply plain_up|].
    apply S.pop_rooted.
  - assert (Hloc : S.path st ++ [UnixPath.Normal name] = path_of (names ++ [name])) by (rewrite Hst; unfold path_of; by rewrite fmap_app).
    assert (Hpl : plain (names ++ [name])) by (by apply Forall_app).
    destruct (S.resolve_prefix _ _ _) as [[[real b]|] f] eqn:Hp; cbn; [|by exists (names ++ [name])].
    apply S.resolve_prefix_Some in Hp as (_ & _ & _ & Hcan). rewrite Hloc in Hcan.
    destruct (canonicalize_plain _ _ (path_of_plain _ Hpl) Hcan) as (names' & ? & ->). by exists names'.
Qed.

Lemma resolve_components_plain todo st names :
  Forall plain_component todo -> S.path st = path_of names -> plain names ->
  exists names', plain names' /\ S.path (foldl (S.resolve_component fs) st todo) = path_of names'.
Proof.
  intros Ht. revert st names. induction Ht as [|c todo Hc Ht IH]; intros st names Hst Hn; [by exists names|].
  destruct (resolve_component_plain st c names Hc Hst Hn) as (names1 & Hn1 & Hst1). by apply (IH _ names1).
Qed.

(** Whatever a path resolves to without an error is written plainly. *)
Lemma resolve_plain path r :
  Forall plain_component path -> S.resolve_through_symlinks fs path = Some r -> S.error r = None ->
  exists names, plain names /\ S.path r = path_of names.
Proof.
  intros Hp Hr He. unfold S.resolve_through_symlinks in Hr. destruct path as [|c path]; [done|].
  destruct (S.absolute_path fs (c :: path)) as [comps|] eqn:Habs; injection Hr as <-; [|done].
  assert (Hcomps : exists todo, comps = UnixPath.RootDir :: todo /\ Forall plain_component todo).
  { inversion Hp as [|? ? Hc Hpath]; subst. unfold S.absolute_path in Habs. destruct fs_tidy as [_ Hcwd].
    destruct c; [injection Habs as <-; by exists path|..]; (destruct (H.cwd fs) as [names|]; [|done]);
      injection Habs as <-; (eexists; split; [reflexivity|]); pose proof (path_of_plain names (Hcwd _ eq_refl)) as Hn;
      inversion Hn; subst; apply Forall_app; split; try done; by constructor. }
  destruct Hcomps as (todo & -> & Htodo). cbn [foldl S.resolve_component]. apply (resolve_components_plain todo _ []); [done|done|constructor].
Qed.

End Tidy.

(** ** What the resolved lists hold *)

Lemma path_text_path_of names : path_text (path_of names) = UnixPath.absolute names.
Proof. unfold path_text, path_of, UnixPath.absolute. by rewrite <- list_fmap_compose, list_fmap_id. Qed.

Section Lists.
Context (fs : H.Host) (probe : string -> result string unit).

Definition deny_resolves (path resolved : string) : Prop := exists is_file, resolve_denied_path fs path = Ok (resolved, is_file).

Lemma deny_steps l changed out files changed' out' files' :
  foldM (deny_step fs probe) l (changed, out, files) = Ok (changed', out', files') ->
  exists new, out' = out ++ new /\ Forall2 deny_resolves l new /\ (changed' = false -> changed = false /\ new = l).
Proof.
  revert changed out files. induction l as [|path l IH]; intros changed out files; cbn.
  { intros [= -> -> ->]. exists []. by rewrite app_nil_r. }
  intros ([[c1 o1] f1] & (? & _ & ([resolved is_file] & Hres & [= <- <- <-])%bind_Ok)%bind_Ok & Hl)%bind_Ok.
  destruct (IH _ _ _ Hl) as (new & -> & Hnew & Hch). exists (resolved :: new). rewrite <- app_assoc. split_and!; [done| |].
  - constructor; [by exists is_file|done].
  - intros [[-> H2%negb_false_iff%bool_decide_eq_true]%orb_false_iff ->]%Hch. split; congruence.
Qed.

(** The denied paths that are mounted: each at its place, in order. *)
Lemma resolve_denied_paths_spec p plan :
  resolve_denied_paths fs probe p = Ok plan ->
  Forall2 deny_resolves (denied_paths p) (default (denied_paths p) (paths plan)).
Proof.
  intros ([[changed out] files] & Hf & [= <-])%bind_Ok. destruct (deny_steps _ _ _ _ _ _ _ Hf) as (new & -> & Hnew & Hch).
  destruct changed; [done|]. cbn. destruct (Hch eq_refl) as [_ ->]. done.
Qed.

Definition grant_resolves (list_ path resolved : string) : Prop :=
  exists grant, resolve_granted_path fs list_ path = Ok grant /\ real_path grant = resolved.

Lemma grant_steps list_ l st reals st' reals' :
  foldM (grant_step fs probe list_) l (st, reals) = Ok (st', reals') ->
  (forall x, x ∈ reals' <-> x ∈ reals \/ exists path, path ∈ l /\ grant_resolves list_ path x) /\
  (moved st' = false -> moved st = false /\ forall path, path ∈ l -> grant_resolves list_ path path).
Proof.
  revert st reals. induction l as [|path l IH]; intros st reals; cbn.
  { intros [= -> ->]. split; [intros x; set_solver|]. intros H. split; [done|]. by intros path []%not_elem_of_nil. }
  intros ([st1 r1] & (u & _ & (grant & Hg & [= <- <-])%bind_Ok)%bind_Ok & Hl)%bind_Ok.
  destruct (IH _ _ Hl) as [Hreals Hmoved]. split.
  - intros x. rewrite Hreals. assert (Hr : grant_resolves list_ path (real_path grant)) by (by exists grant). split.
    + intros [Hx|(p & Hp & Hx)]; [|right; exists p; split; [by right|done]].
      case_decide; [by left|]. apply elem_of_app in Hx as [?| ->%list_elem_of_singleton]; [by left|].
      right. exists path. split; [left|done].
    + intros [Hx|(p & Hp & Hx)]; [left; case_decide; set_solver|]. apply elem_of_cons in Hp as [->|Hp]; [|right; by exists p].
      left. destruct Hx as (g & Hg' & <-). assert (g = grant) as -> by congruence. case_decide; set_solver.
  - intros [[Hm Heq%negb_false_iff%bool_decide_eq_true]%orb_false_iff Hall]%Hmoved. split; [done|].
    intros p [->|Hp]%elem_of_cons; [|by apply Hall]. by exists grant.
Qed.

(** The granted paths that are mounted: the places the written ones name. *)
Lemma resolve_granted_paths_spec p plan :
  resolve_granted_paths fs probe p = Ok plan ->
  let p' := default p (grant_policy plan) in
  (forall x, x ∈ readwrite_paths p' <-> exists path, path ∈ readwrite_paths p /\ grant_resolves "readwritePaths" path x) /\
  (forall x, x ∈ readonly_paths p' <-> exists path, path ∈ readonly_paths p /\ grant_resolves "readonlyPaths" path x) /\
  denied_paths p' = denied_paths p.
Proof.
  intros ([st rw] & Hrw & ([st' ro] & Hro & [= <-])%bind_Ok)%bind_Ok.
  destruct (grant_steps _ _ _ _ _ _ Hrw) as [Hrw1 Hrw2], (grant_steps _ _ _ _ _ _ Hro) as [Hro1 Hro2].
  assert (Hnil : forall x (P : Prop), x ∈ (@nil string) \/ P <-> P) by (intros; rewrite elem_of_nil; tauto).
  destruct (moved st') eqn:Hm; cbn.
  - split_and!; [intros x; by rewrite Hrw1, Hnil|intros x; by rewrite Hro1, Hnil|done].
  - destruct (Hro2 eq_refl) as [Hm1 Hro3], (Hrw2 Hm1) as [_ Hrw3].
    assert (Hsame : forall list_ (l : list string), (forall path, path ∈ l -> grant_resolves list_ path path) ->
      forall x, x ∈ l <-> exists path, path ∈ l /\ grant_resolves list_ path x).
    { intros list_ l Hl x. split; [intros Hx; exists x; auto|]. intros (path & Hp & g & Hg & <-).
      destruct (Hl _ Hp) as (g' & Hg' & Heq). assert (g' = g) as -> by congruence. by rewrite Heq. }
    split_and!; [by apply Hsame..|done].
Qed.

(** *** Plain policies *)

Hypothesis fs_tidy : tidy fs.

Lemma into_string_plain names text : into_string (path_of names) = Some text -> text = UnixPath.absolute names.
Proof. unfold into_string. rewrite path_text_path_of. case_match; congruence. Qed.

Lemma deny_resolves_plain path resolved :
  path <> "" -> lacks "\" path = true -> deny_resolves path resolved ->
  exists names, plain names /\ resolved = UnixPath.absolute names.
Proof.
  intros Hne Hb (is_file & (comps & Hc & (text & Htext & [= -> _])%bind_Ok)%bind_Ok).
  destruct (S.resolve_through_symlinks _ _) as [r|] eqn:Hr.
  - destruct (S.error r) eqn:He; [done|]. injection Hc as <-.
    destruct (resolve_plain fs fs_tidy _ _ (components_plain _ Hb) Hr He) as (names & Hn & Hp). exists names. split; [done|].
    rewrite Hp in Htext. destruct (into_string _) eqn:Hi; [|done]. injection Htext as <-. by apply into_string_plain.
  - unfold S.resolve_through_symlinks in Hr. destruct (UnixPath.components path) eqn:E; [|done]. by apply S.components_ne in E.
Qed.

Lemma grant_resolves_plain list_ path resolved :
  path <> "" -> lacks "\" path = true -> grant_resolves list_ path resolved ->
  exists names, plain names /\ resolved = UnixPath.absolute names.
Proof.
  intros Hne Hb (grant & Hg & <-). unfold resolve_granted_path in Hg. destruct (S.resolve_through_symlinks _ _) as [r|] eqn:Hr.
  - destruct (S.error r) eqn:He; [done|].
    apply bind_Ok in Hg as (? & _ & (? & _ & (? & _ & (text & Htext & (? & _ & [= <-])%bind_Ok)%bind_Ok)%bind_Ok)%bind_Ok).
    destruct (resolve_plain fs fs_tidy _ _ (components_plain _ Hb) Hr He) as (names & Hn & Hp). exists names. split; [done|].
    rewrite Hp in Htext. destruct (into_string _) eqn:Hi; [|done]. injection Htext as <-. by apply into_string_plain.
  - unfold S.resolve_through_symlinks in Hr. destruct (UnixPath.components path) eqn:E; [|done]. by apply S.components_ne in E.
Qed.

End Lists.

(** ** A launch *)

Section Prepared.
Context `{!BwrapProxy.GatewayUrl}.
Context (fs : H.Host) (resolve : string -> result string PathResolution) (probe : string -> result string unit)
  (access_ : string -> AccessMode -> result H.Errno unit).

(** The lists of a launch, in terms of the lists once aliases are tightened;
    the request the pin was checked against; and the links of the baseline. *)
Lemma prepare_lists r l :
  prepare fs resolve probe access_ r = Ok l ->
  script_code (launch_request l) = script_code r /\
  (exists p1,
    (forall d, listed (policy r) d Denied -> d ∈ denied_paths p1) /\
    (forall path t, listed p1 path t -> exists t', listed (policy r) path t' /\ rank t' <= rank t) /\
    Forall2 (deny_resolves fs) (denied_paths p1) (denied_paths (policy (launch_request l))) /\
    (forall x, x ∈ readwrite_paths (policy (launch_request l)) <->
       exists path, path ∈ readwrite_paths p1 /\ grant_resolves fs "readwritePaths" path x) /\
    (forall x, x ∈ readonly_paths (policy (launch_request l)) <->
       exists path, path ∈ readonly_paths p1 /\ grant_resolves fs "readonlyPaths" path x) /\
    exists checked, check_pin_against_denied_hosts checked = Ok tt /\
      readwrite_paths (policy checked) = readwrite_paths p1 /\ readonly_paths (policy checked) = readonly_paths p1 /\
      denied_paths (policy checked) = denied_paths (policy (launch_request l)) /\
      network_proxy (policy checked) = network_proxy (policy (launch_request l)) /\
      network_egress (policy checked) = network_egress (policy (launch_request l))) /\
  baseline_links (fun path => map_err errno_text (option_map path_text <$> host_link_target fs path)) = Ok (launch_baseline l).
Proof.
  unfold prepare. intros (tightened & Ht & (? & _ & (plan & Hplan & (grants & Hgrants & ([] & Hcheck & (baseline & Hbase & [= <-])%bind_Ok)%bind_Ok)%bind_Ok)%bind_Ok)%bind_Ok)%bind_Ok.
  set (p1 := default (policy r) tightened) in *. cbn [policy with_policy] in *.
  apply map_err_Ok in Ht, Hplan, Hgrants, Hbase. pose proof Hgrants as Hsame.
  apply resolve_denied_paths_spec in Hplan. apply resolve_granted_paths_spec in Hgrants as (Hrw & Hro & Hdn).
  cbn [launch_request launch_baseline]. split_and!; [by destruct (paths plan)| |done]. exists p1.
  destruct (normalized_final resolve (policy r) tightened Ht) as (final & Hl & Hup & _). split_and!.
  - intros d [i Hi]%list_elem_of_lookup. destruct (Hup i d Denied Hi) as (t' & Hf & Hr).
    assert (Hlist : listed p1 d t') by (apply Hl; exists i; by rewrite Hi).
    destruct t'; cbn in Hr; [lia..|]. by apply elem_of_tagged in Hlist.
  - by apply (normalized_from resolve).
  - destruct (paths plan); cbn in *; by rewrite Hdn.
  - destruct (paths plan); exact Hrw.
  - destruct (paths plan); exact Hro.
  - eexists. split; [exact Hcheck|]. apply bind_Ok in Hsame as ([st rw] & _ & ([st' ro] & _ & [= <-])%bind_Ok).
    destruct (paths plan), (moved st'); done.
Qed.

(** A path that is listed for the launch was resolved from one of the request. *)
Lemma launch_listed r l path t :
  prepare fs resolve probe access_ r = Ok l -> listed (policy (launch_request l)) path t ->
  exists q t', listed (policy r) q t' /\ (deny_resolves fs q path \/ exists list_, grant_resolves fs list_ q path).
Proof.
  intros Hl Hin. destruct (prepare_lists r l Hl) as (_ & (p1 & _ & Hfrom & Hdn & Hrw & Hro & _) & _).
  apply elem_of_tagged in Hin. destruct t.
  - destruct (proj1 (Hrw path) Hin) as (q & Hq & Hg). destruct (Hfrom q ReadWrite) as (t' & ? & _); [by apply elem_of_tagged|]. exists q, t'. eauto.
  - destruct (proj1 (Hro path) Hin) as (q & Hq & Hg). destruct (Hfrom q ReadOnly) as (t' & ? & _); [by apply elem_of_tagged|]. exists q, t'. eauto.
  - apply list_elem_of_lookup in Hin as [i Hi]. destruct (Forall2_lookup_r _ _ _ _ _ Hdn Hi) as (q & Hq & Hg).
    destruct (Hfrom q Denied) as (t' & ? & _); [apply elem_of_tagged; by eapply list_elem_of_lookup_2|]. exists q, t'. eauto.
Qed.

End Prepared.

(** Paths a parser lets through, written with slashes only. *)
Definition written (p : ContainerPolicy) : Prop :=
  forall path t, listed p path t -> path <> "" /\ lacks "\" path = true.

Lemma launch_plain `{!BwrapProxy.GatewayUrl} fs resolve probe access_ r l :
  tidy fs -> written (policy r) -> prepare fs resolve probe access_ r = Ok l -> plain_policy (policy (launch_request l)).
Proof.
  intros Htidy Hw Hl path intent Hin. destruct (launch_listed fs resolve probe access_ r l path intent Hl Hin) as (q & t' & Hq & Hres).
  destruct (Hw q t' Hq) as [Hne Hb]. destruct Hres as [?|[list_ ?]]; [by eapply deny_resolves_plain|by eapply grant_resolves_plain].
Qed.

(** A denied path is mounted at the place it names, now or later. *)
Lemma denied_place_listed `{!BwrapProxy.GatewayUrl} fs fs' resolve probe access_ r l d place :
  H.host_ok fs -> H.host_ok fs' -> H.grows fs fs' -> tidy fs -> written (policy r) ->
  prepare fs resolve probe access_ r = Ok l -> listed (policy r) d Denied ->
  H.target_of fs' (H.lookup_components d) = Ok place ->
  plain place /\ listed (policy (launch_request l)) (UnixPath.absolute place) Denied.
Proof.
  intros Hok Hok' Hg Htidy Hw Hl Hd Hk. destruct (prepare_lists fs resolve probe access_ r l Hl) as (_ & (p1 & Hden & _ & Hdn & _) & _).
  destruct (Hw d Denied Hd) as [Hne Hb]. apply Hden, list_elem_of_lookup in Hd as [i Hi].
  destruct (Forall2_lookup_l _ _ _ _ _ Hdn Hi) as (resolved & Hr & is_file & Hres).
  destruct (S.resolution_reaches fs fs' d place Hok Hok' Hg Hne Hk) as (todo & res & _ & Hthrough & _ & Hpath & _).
  unfold resolve_denied_path in Hres. rewrite Hthrough in Hres. destruct (S.error res) eqn:He; [done|]. specialize (Hpath eq_refl).
  apply bind_Ok in Hres as (comps & [= <-] & (text & Htext & [= -> _])%bind_Ok).
  destruct (resolve_plain fs Htidy _ _ (components_plain _ Hb) Hthrough He) as (names & Hn & Hp).
  assert (names = place) as ->. { rewrite Hp in Hpath. injection Hpath as H'. by apply (inj (fmap UnixPath.Normal)) in H'. }
  split; [done|]. apply elem_of_tagged. rewrite Hp in Htext. destruct (into_string _) eqn:Hi'; [|done]. injection Htext as <-.
  apply into_string_plain in Hi' as ->. by eapply list_elem_of_lookup_2.
Qed.

End BwrapResolve.
