(* ===== verification/ResolverFile.v ===== *)
(** * The resolver file of a Bubblewrap sandbox

    [backends/bubblewrap/common/resolver_file.rs]: when the host's
    [/etc/resolv.conf] leads out of what the sandbox is given anyway, the links on
    the way are made again in the sandbox and a snapshot of the file is put where
    they lead.  Mounts of the policy are moved to the places those links lead to,
    so that they are applied where they are seen.  The host is a [HostFs.Host];
    making the snapshot is an argument.  The lemmas show that on a host whose
    [/var/run] is a link nothing of a resolved policy is moved, and that the links
    made stand where the host has links. *)

From Stdlib Require Import Ascii.
From stdpp Require Import gmap sorting.
From S2P Require Import Prelude NetText Models Requests ProxyEnv UnixPath FsPolicy DefaultEnv MountView BwrapCommand BwrapLinks BwrapView SymlinkWalk BwrapProxy BwrapResolve.

#[local] Open Scope nat_scope.

Module ResolverFile.
Export BwrapResolve.

#[global] Instance PolicyMount_eq_dec : EqDecision PolicyMount.
Proof. solve_decision. Defined.

(** ** Data *)

Record SandboxLink : Type := MkSandboxLink {
  slink_path : string;
  slink_target : string;
  host_symlink : bool;
}.

(** [snapshot]: the descriptor; [layout_args]: as options. *)
Record ResolverFile : Type := MkResolverFile {
  snapshot : option Z;
  resolver_destination : string;
  layout_args : list ResolverOp;
  resolver_links : list SandboxLink;
}.

Record ResolverLayout : Type := MkLayout {
  layout_destination : list UnixPath.Component;
  layout_ops : list ResolverOp;
  layout_links : list SandboxLink;
}.

(** ** Paths *)

Definition sandbox_mount_path (host_path : string) : string :=
  match strip_prefix COMPAT_RUN_LINK host_path with
  | Some rest => if starts_with is_slash rest then COMPAT_RUN_TARGET +:+ rest else host_path
  | None => host_path
  end.

(** [path_text]. *)
Definition utf8_text (path : list UnixPath.Component) : result string string :=
  ok_or (into_string path) (path_text path +:+ " is not a UTF-8 resolver path").

(** [PathBuf::push] and [PathBuf::pop]; a [.] that is pushed stays in the text. *)
Definition push (path : list UnixPath.Component) (c : UnixPath.Component) : list UnixPath.Component :=
  match c with UnixPath.RootDir => [UnixPath.RootDir] | c => path ++ [c] end.

Fixpoint skip_dots (path : list UnixPath.Component) : list UnixPath.Component :=
  match path with UnixPath.CurDir :: path => skip_dots path | path => path end.

Definition trim_dots (path : list UnixPath.Component) : list UnixPath.Component := rev (skip_dots (rev path)).

Definition pop_path (path : list UnixPath.Component) : list UnixPath.Component :=
  match UnixPath.parent (trim_dots path) with Some parent => trim_dots parent | None => path end.

(** [Path::components] of such a path. *)
Definition norm (path : list UnixPath.Component) : list UnixPath.Component := filter (fun c => c <> UnixPath.CurDir) path.

(** [Iterator::max_by_key] keeps the last of the greatest. *)
Definition later_max {A} (key : A -> nat) (best : option A) (a : A) : option A :=
  match best with
  | Some b => if key b <=? key a then Some a else Some b
  | None => Some a
  end.
Definition max_by_key {A} (key : A -> nat) (l : list A) : option A := foldl (later_max key) None l.

(** [slice::sort_by_key], which is stable. *)
Fixpoint insert_by {A} (le : A -> A -> bool) (a : A) (l : list A) : list A :=
  match l with
  | [] => [a]
  | b :: l => if le a b then a :: b :: l else b :: insert_by le a l
  end.
Definition sort_by {A} (le : A -> A -> bool) (l : list A) : list A := foldr (insert_by le) [] l.

(** ** The host *)

Section Host.
Context (fs : H.Host) (snapshot_file : string -> result string Z).

Definition implicit_source_paths (target : list UnixPath.Component) : list string :=
  omap (fun root =>
      resolved ← S.resolve_through_symlinks fs (UnixPath.components root);
      match S.error resolved with
      | Some _ => None
      | None => suffix ← strip_path (S.path resolved) target; Some (path_text (UnixPath.components root ++ suffix))
      end) (BASELINE_RO_BIND_PATHS ++ RESOLVER_DIRS)
  ++ match S.resolve_through_symlinks fs (UnixPath.components WSL_RESOLV_CONF) with
     | Some file => if bool_decide (S.error file = None) && bool_decide (target = S.path file) then [WSL_RESOLV_CONF] else []
     | None => []
     end.

Definition resolver_target_is_denied (p : ContainerPolicy) (target : list UnixPath.Component) : bool :=
  match path_intent p (path_text target) with
  | Some intent => bool_decide (intent = Denied)
  | None =>
      let sources := implicit_source_paths target in
      negb (is_empty sources) && forallb (path_is_denied p) sources
  end.

(** The loop of [resolver_layout]; [budget] links may still be followed. *)
Fixpoint layout_steps (path : string) (budget : nat)
    : list UnixPath.Component -> list UnixPath.Component -> list ResolverOp -> list SandboxLink -> result string ResolverLayout :=
  fix go (current pending : list UnixPath.Component) (args : list ResolverOp) (links : list SandboxLink) :=
    match pending with
    | [] => Ok (MkLayout current args links)
    | UnixPath.ParentDir :: pending => go (pop_path current) pending args links
    | component :: pending =>
        let current := push current component in
        metadata ← map_err (fun e => "could not inspect " +:+ path_text current +:+ ": " +:+ errno_text e)
          (H.symlink_metadata fs current);
        let needs_layout :=
          negb (bool_decide (norm current = [UnixPath.RootDir]))
          && negb (bool_decide (norm current = UnixPath.components COMPAT_RUN_LINK))
          && negb (existsb (fun root => bool_decide (UnixPath.components root `prefix_of` norm current)) BASELINE_RO_BIND_PATHS) in
        args ← (if needs_layout && H.is_dir metadata then
                  text ← utf8_text current; Ok (args ++ [RDir (sandbox_mount_path text)])
                else Ok args);
        if negb (H.is_symlink metadata) then go current pending args links
        else
          match budget with
          | O => Err ("too many resolver symlinks in " +:+ path)
          | Datatypes.S budget =>
              target ← map_err (fun e => "could not read " +:+ path_text current +:+ ": " +:+ errno_text e)
                (H.read_link fs current);
              '(args, links) ←
                (if needs_layout then
                   resolved ← map_err (fun e => "could not resolve " +:+ path_text current +:+ ": " +:+ errno_text e)
                     (H.canonicalize fs current);
                   link ← sandbox_mount_path <$> utf8_text current;
                   destination ← sandbox_mount_path <$> utf8_text resolved;
                   if bool_decide (link = destination) then Ok (args, links)
                   else Ok (args ++ [RSymlink destination link], links ++ [MkSandboxLink link destination true])
                 else Ok (args, links));
              layout_steps path budget (pop_path current) (UnixPath.components target ++ pending) args links
          end
    end.

Definition resolver_layout (path : string) : result string ResolverLayout :=
  host_symlink ← match H.symlink_metadata fs (UnixPath.components COMPAT_RUN_LINK) with
                 | Ok metadata => Ok (H.is_symlink metadata)
                 | Err H.ENOENT => Ok false
                 | Err e => Err ("could not inspect " +:+ COMPAT_RUN_LINK +:+ ": " +:+ errno_text e)
                 end;
  layout_steps path MAX_SYMLINKS [] (UnixPath.components path) [] [MkSandboxLink COMPAT_RUN_LINK COMPAT_RUN_TARGET host_symlink].

Definition in_baseline (destination : list UnixPath.Component) : bool :=
  existsb (fun root =>
    match S.resolve_through_symlinks fs (UnixPath.components root) with
    | Some root => bool_decide (S.error root = None) && bool_decide (S.path root `prefix_of` destination)
    | None => false
    end) BASELINE_RO_BIND_PATHS.

Definition from_resolver (path : string) (p : ContainerPolicy) (is_visible : list UnixPath.Component -> bool)
    : result string (option ResolverFile) :=
  match H.canonicalize fs (UnixPath.components path) with
  | Err H.ENOENT => Ok None
  | Err e => Err ("could not resolve " +:+ path +:+ ": " +:+ errno_text e)
  | Ok destination =>
      let supplied := match path_intent p (path_text destination) with Some (ReadOnly | ReadWrite) => true | _ => false end in
      if path_is_denied p (path_text destination) || (negb (is_visible destination) && negb supplied) then Ok None
      else
        layout ← resolver_layout path;
        if negb (bool_decide (norm (layout_destination layout) = destination)) then
          Err (path +:+ " changed while preparing its resolver mount")
        else
          snapshot ← (if supplied || in_baseline destination then Ok None
                      else Some <$> snapshot_file (path_text destination));
          destination ← utf8_text destination;
          Ok (Some (MkResolverFile snapshot destination (layout_ops layout) (layout_links layout)))
  end.

(** A failure is a warning. *)
Definition for_host (p : ContainerPolicy) : option ResolverFile :=
  match from_resolver BwrapProxy.SANDBOX_RESOLV_CONF_PATH p
    (fun target => existsb (fun source => negb (path_is_denied p source)) (implicit_source_paths target)) with
  | Ok resolver => resolver
  | Err _ => None
  end.

(** ** Mounts of the policy *)

(** The loop over the links of one destination; [budget] may still be followed. *)
Fixpoint follow_links (links : list (SandboxLink * bool)) (source : string) (budget : nat) (destination : string)
    : result string string :=
  match max_by_key (fun link => length (UnixPath.components (slink_path link)))
          (fst <$> filter (fun '(link, active) => active = true /\ UnixPath.starts_with destination (slink_path link) = true) links) with
  | None => Ok destination
  | Some link =>
      match budget with
      | O => Err ("too many sandbox resolver symlinks in " +:+ source)
      | Datatypes.S budget =>
          suffix ← ok_or (strip_path (UnixPath.components (slink_path link)) (UnixPath.components destination))
            ("could not translate policy path " +:+ source +:+ ": prefix not found");
          follow_links links source budget
            (if is_empty suffix then slink_target link else path_text (UnixPath.components (slink_target link) ++ suffix))
      end
  end.

(** Which links are left once something is mounted at [destination]. *)
Definition still_active (destination : string) (intent : FsIntent) (link : SandboxLink * bool) : SandboxLink * bool :=
  let '(link, active) := link in
  if UnixPath.path_eq (slink_path link) destination then (link, false)
  else if UnixPath.starts_with (slink_path link) destination then
    (link, negb (bool_decide (intent = Denied)) && host_symlink link)
  else (link, active).

Fixpoint translate_mounts (links : list (SandboxLink * bool)) (mounts : list PolicyMount) : result string (list PolicyMount) :=
  match mounts with
  | [] => Ok []
  | mount :: mounts =>
      destination ← follow_links links (source mount) MAX_SYMLINKS (source mount);
      rest ← translate_mounts (still_active destination (intent mount) <$> links) mounts;
      Ok (MkPolicyMount (source mount) destination (intent mount) :: rest)
  end.

Definition translate_policy_mounts (self : ResolverFile) (mounts : list PolicyMount) : result string (list PolicyMount) :=
  translate_mounts ((fun link => (link, true)) <$> resolver_links self) mounts.

(** [(components().count(), intent)]. *)
Definition mount_le (a b : PolicyMount) : bool :=
  let depth m := length (UnixPath.components (destination m)) in
  (depth a <? depth b) || (depth a =? depth b) && (rank (intent a) <=? rank (intent b)).

Fixpoint mount_rounds (self : ResolverFile) (rounds : nat) (mounts : list PolicyMount) : result string (list PolicyMount) :=
  match rounds with
  | O =>
      Err "resolver aliases prevent a stable parent-before-child mount order; remove conflicting alias paths from the filesystem policy"
  | Datatypes.S rounds =>
      translated ← translate_policy_mounts self mounts;
      let sorted := sort_by mount_le translated in
      if decide (sorted = mounts) then Ok sorted else mount_rounds self rounds sorted
  end.

Definition resolve_policy_mounts (self : ResolverFile) (mounts : list PolicyMount) : result string (list PolicyMount) :=
  mount_rounds self (Datatypes.S (length mounts + length (resolver_links self))) mounts.

(** The mount points a read-only directory has to hold for later mounts. *)
Fixpoint placeholders (parent destination : string) (denied_files : gset string) (previous mounts : list PolicyMount)
    : result string (list ResolverOp) :=
  match mounts with
  | [] => Ok []
  | mount :: mounts =>
      let target := BwrapCommand.destination mount in
      let rest := placeholders parent destination denied_files (previous ++ [mount]) mounts in
      if UnixPath.path_eq target parent || UnixPath.path_eq target destination || negb (UnixPath.starts_with target parent)
         || existsb (fun earlier => UnixPath.starts_with target (BwrapCommand.destination earlier)) previous
      then rest
      else
        is_dir ← match intent mount with
                 | Denied => Ok (bool_decide (source mount ∉ denied_files))
                 | _ =>
                     H.is_dir <$> map_err (fun e => "could not inspect policy path " +:+ source mount +:+ ": " +:+ errno_text e)
                       (H.metadata fs (UnixPath.components (source mount)))
                 end;
        ops ← rest;
        Ok ((if (is_dir : bool) then RDir target else RNull target) :: ops)
  end.

(** [mount_args], with the mounts it leaves. *)
Definition resolver_mount_args (self : ResolverFile) (mounts : list PolicyMount) (denied_files : gset string)
    : result string (list ResolverOp * list PolicyMount) :=
  mounts ← resolve_policy_mounts self mounts;
  match snapshot self with
  | None => Ok (layout_args self, mounts)
  | Some fd =>
      let destination := sandbox_mount_path (resolver_destination self) in
      let parent := match UnixPath.parent (UnixPath.components destination) with Some parent => path_text parent | None => "/" end in
      extra ← placeholders parent destination denied_files [] mounts;
      Ok ([RTmpfs parent] ++ layout_args self ++ [RFile (dec fd) destination] ++ extra ++ [RRemount parent], mounts)
  end.

End Host.

(** ** Texts of paths *)

Definition clean_component (c : UnixPath.Component) : Prop :=
  match c with UnixPath.Normal name => UnixPath.clean_name name = true | _ => True end.

Lemma components_clean s : Forall clean_component (UnixPath.components s).
Proof.
  unfold UnixPath.components. apply Forall_app. split; [by repeat case_match; repeat constructor|].
  pose proof (string_split_lacks "/" s) as Hl. induction Hl as [|x l Hx Hl IH]; [constructor|].
  unfold omap in *. cbn [list_omap]. unfold UnixPath.segment at 1. repeat case_bool_decide; cbn; try done; constructor; try done.
  unfold clean_component, UnixPath.clean_name. rewrite UnixPath.lacks_slash, Hx. by rewrite !bool_decide_eq_false_2.
Qed.

(** The components below the root of a path that is pushed to and popped. *)
Definition pushed (c : UnixPath.Component) : Prop := clean_component c /\ c <> UnixPath.RootDir /\ c <> UnixPath.ParentDir.

Lemma components_path_text rest :
  Forall pushed rest -> UnixPath.components (path_text (UnixPath.RootDir :: rest)) = norm (UnixPath.RootDir :: rest).
Proof.
  intros Hr. unfold UnixPath.components, path_text.
  assert (Hroot : UnixPath.has_root ("/" +:+ string_join "/" (UnixPath.Component_as_str <$> rest)) = true) by done.
  rewrite Hroot. clear Hroot. unfold norm. rewrite filter_cons_True by done. cbn [app]. f_equal.
  change ("/" +:+ ?s) with ("" +:+ String "/" s). rewrite string_split_cons by done.
  change (omap UnixPath.segment ("" :: ?l)) with (omap UnixPath.segment l).
  destruct rest as [|c rest]; [done|]. rewrite string_split_join; [|done|].
  - induction Hr as [|x l (Hx & H1 & H2) Hl IH]; [done|]. unfold omap in *. cbn [list_omap fmap list_fmap].
    destruct x as [| | |name]; [done| |done|]; cbn [UnixPath.Component_as_str].
    + rewrite filter_cons_False by (intros []; done). exact IH.
    + rewrite filter_cons_True by done. destruct (UnixPath.clean_name_spec _ Hx) as (_ & -> & _). by f_equal.
  - apply Forall_fmap. eapply Forall_impl; [exact Hr|]. intros [| | |name] (Hx & H1 & H2); [done|done|done|].
    by destruct (UnixPath.clean_name_spec _ Hx) as (_ & _ & ?).
Qed.

Lemma strip_prefix_Some p s rest : strip_prefix p s = Some rest -> s = p +:+ rest.
Proof.
  revert s. induction p as [|c p IH]; intros s; [by intros [= ->]|]. destruct s as [|d s]; [done|]. cbn.
  destruct (decide (c = d)) as [->|]; [|done]. intros ->%IH. done.
Qed.

(** Only what is below [/var/run] is moved. *)
Lemma mount_path_same s loc :
  UnixPath.components s = path_of loc -> ~ ["var"; "run"] `prefix_of` loc -> sandbox_mount_path s = s.
Proof.
  intros Hs Hno. unfold sandbox_mount_path. destruct (strip_prefix COMPAT_RUN_LINK s) as [rest|] eqn:E; [|done].
  destruct rest as [|c rest]; [done|]. cbn [starts_with]. unfold is_slash. case_bool_decide as Hc; [|done]. subst c.
  apply strip_prefix_Some in E. subst s. destruct Hno.
  change (COMPAT_RUN_LINK +:+ String "/" rest) with ("" +:+ String "/" ("var" +:+ String "/" ("run" +:+ String "/" rest))) in Hs.
  unfold UnixPath.components in Hs. rewrite !string_split_cons in Hs by done.
  assert (Hr : UnixPath.has_root ("" +:+ String "/" ("var" +:+ String "/" ("run" +:+ String "/" rest))) = true) by done.
  rewrite Hr in Hs. destruct loc as [|a [|b loc]]; [done..|]. injection Hs as <- <- _. by exists loc.
Qed.

(** ** The order of a plan *)

Lemma sorted_fmap {A B} (f : A -> B) (R : relation A) (Q : relation B) l :
  StronglySorted R l -> (forall a b, a ∈ l -> b ∈ l -> R a b -> Q (f a) (f b)) -> StronglySorted Q (f <$> l).
Proof.
  induction 1 as [|a l Hl IH Ha]; intros HQ; [constructor|]. cbn. constructor.
  - apply IH. intros x y Hx Hy. apply HQ; by right.
  - apply Forall_fmap, Forall_forall. intros b Hb. rewrite Forall_forall in Ha. apply HQ; [left|by right|auto].
Qed.

Lemma policy_mounts_sorted p : plain_policy p -> StronglySorted (fun a b => mount_le a b = true) (policy_mounts p).
Proof.
  intros Hp. unfold policy_mounts, resolve_mount_order, resolve_path_plan. rewrite <- list_fmap_compose.
  eapply sorted_fmap; [apply (StronglySorted_merge_sort candidate_le)|]. intros a b Ha Hb Hle. rewrite !merge_sort_Permutation in *.
  apply elem_of_candidates in Ha as [Ha Hka], Hb as [Hb Hkb].
  assert (Hlen : forall path i, (path, i) ∈ tagged (readwrite_paths p) (readonly_paths p) (denied_paths p) ->
    length (UnixPath.components path) = Datatypes.S (length (from_path path))).
  { intros path i Hin. destruct (plain_path_prefix p Hp _ _ Hin) as [-> _]. unfold path_of. cbn. by rewrite length_fmap. }
  unfold mount_le. cbn. rewrite (Hlen _ _ (list_elem_of_lookup_2 _ _ _ Ha)), (Hlen _ _ (list_elem_of_lookup_2 _ _ _ Hb)).
  unfold candidate_le, depth in Hle. rewrite Hka, Hkb in Hle. destruct Hle as [Hlt|[Heq Hseq]].
  - apply orb_true_iff. left. apply Nat.ltb_lt. lia.
  - apply orb_true_iff. right. apply andb_true_iff. split; [apply Nat.eqb_eq; lia|]. apply Nat.leb_le. exact (tagged_rank _ _ _ _ _ _ _ Ha Hb Hseq).
Qed.

(** ** The layout *)

(** On most hosts [/var/run] is a link to [/run]. *)
Definition linked_run (fs : H.Host) : Prop := exists text, H.node_at fs ["var"; "run"] = Ok (H.Link text).

(** A path at or above which the host has a link. *)
Definition at_host_link (fs : H.Host) (path : string) : Prop :=
  exists dir rest text, UnixPath.components path = path_of (dir ++ rest) /\ H.node_at fs dir = Ok (H.Link text).

Section Layout.
Context (fs : H.Host).
Hypothesis fs_ok : H.host_ok fs.
Hypothesis run_link : linked_run fs.

Lemma linkless_outside_run place : S.linkless fs place -> ~ ["var"; "run"] `prefix_of` place.
Proof. intros Hl [k ->]. destruct run_link as [text Hr]. by apply (Hl ["var"; "run"] k text). Qed.

Lemma walk_norm links place todo r : H.walk fs links place todo = Ok r -> H.walk fs links place (norm todo) = Ok r.
Proof.
  revert links place. induction todo as [|c todo IH]; intros links place Hw; [done|].
  destruct (decide (c = UnixPath.CurDir)) as [->|Hc].
  - unfold norm. rewrite filter_cons_False by (intros []; done). apply IH. rewrite H.walk_eq in Hw. by destruct (H.enter fs place).
  - unfold norm. rewrite filter_cons_True by done. change (c :: ?l) with ([c] ++ l) in *. rewrite H.walk_app in *.
    destruct (H.walk fs links place [c]) as [[p l]|]; [|done]. by apply IH.
Qed.

(** Where the loop stands. *)
Definition at_place (current : list UnixPath.Component) (place : list string) : Prop :=
  exists rest, current = UnixPath.RootDir :: rest /\ Forall pushed rest /\ norm current = path_of place /\ H.real fs place.

Lemma at_root : at_place [UnixPath.RootDir] [].
Proof. exists []. split_and!; [done|constructor|done|by apply H.real_root]. Qed.

Lemma walk_at links current place r :
  at_place current place -> H.walk fs links [] current = Ok r -> r.1 = place.
Proof.
  intros (rest & -> & _ & Hn & Hreal) Hw%walk_norm. rewrite Hn in Hw. change (path_of place) with (H.rooted place) in Hw.
  rewrite <- (app_nil_r (H.rooted place)), H.walk_rooted in Hw by done. rewrite H.walk_eq in Hw. by injection Hw as <-.
Qed.

Lemma norm_snoc l c : norm (l ++ [c]) = norm l ++ (if decide (c = UnixPath.CurDir) then [] else [c]).
Proof.
  unfold norm. rewrite filter_app, filter_cons, filter_nil. repeat case_decide; naive_solver.
Qed.

Lemma trim_snoc l c : trim_dots (l ++ [c]) = if decide (c = UnixPath.CurDir) then trim_dots l else l ++ [c].
Proof.
  unfold trim_dots. rewrite rev_app_distr. cbn. destruct c; cbn; try done; by rewrite rev_involutive.
Qed.

Lemma at_trim l place : at_place l place -> at_place (trim_dots l) place.
Proof.
  intros (rest & -> & Hr & Hn & Hreal). revert Hr Hn. induction rest as [|c rest IH] using rev_ind; intros Hr Hn.
  { exists []. done. }
  change (UnixPath.RootDir :: rest ++ [c]) with ((UnixPath.RootDir :: rest) ++ [c]) in *. rewrite trim_snoc.
  case_decide as Hc; [|by exists (rest ++ [c])]. apply IH; [by apply Forall_app in Hr as [? _]|].
  rewrite norm_snoc, decide_True, app_nil_r in Hn by done. done.
Qed.

Lemma path_of_snoc names l name : path_of names = l ++ [UnixPath.Normal name] -> exists names', names = names' ++ [name] /\ l = path_of names'.
Proof.
  unfold path_of. destruct names as [|x names _] using rev_ind; [by destruct l as [|? [|]]|].
  rewrite fmap_app, app_comm_cons. intros [<- [= ->]]%app_inj_tail. eauto.
Qed.

Lemma at_parent rest place :
  at_place (UnixPath.RootDir :: rest) place ->
  match UnixPath.parent (trim_dots (UnixPath.RootDir :: rest)) with
  | Some parent => at_place (trim_dots parent) (removelast place)
  | None => place = []
  end.
Proof.
  induction rest as [|c rest IH] using rev_ind; intros (rest0 & [= <-] & Hr & Hn & Hreal).
  { by destruct place. }
  apply Forall_app in Hr as [Hr Hc]. apply Forall_singleton in Hc as (Hclean & Hnr & Hnp).
  rewrite app_comm_cons in *. rewrite trim_snoc. rewrite norm_snoc in Hn. case_decide as Hc.
  - apply IH. exists rest. rewrite app_nil_r in Hn. done.
  - destruct c as [| | |name]; [done..|]. unfold UnixPath.parent. rewrite rev_app_distr. cbn [rev app].
    symmetry in Hn. apply path_of_snoc in Hn as (names & -> & Hn). rewrite removelast_last.
    change (rev (rev rest ++ [UnixPath.RootDir])) with (rev (rev (UnixPath.RootDir :: rest))). rewrite rev_involutive.
    apply at_trim. exists rest. split_and!; [done..|by eapply H.real_prefix].
Qed.

Lemma at_pop current place : at_place current place -> at_place (pop_path current) (removelast place).
Proof.
  intros Hat. pose proof Hat as (rest & -> & _). pose proof (at_parent rest place Hat) as Hp. unfold pop_path.
  destruct (UnixPath.parent _); [done|]. by subst place.
Qed.

Lemma layout_steps_up path budget current pending args links :
  layout_steps fs path budget current (UnixPath.ParentDir :: pending) args links =
  layout_steps fs path budget (pop_path current) pending args links.
Proof. by destruct budget. Qed.

Lemma layout_steps_push path budget current component pending args links :
  component <> UnixPath.ParentDir ->
  layout_steps fs path budget current (component :: pending) args links =
      let current := push current component in
      metadata ← map_err (fun e => "could not inspect " +:+ path_text current +:+ ": " +:+ errno_text e)
        (H.symlink_metadata fs current);
      let needs_layout :=
        negb (bool_decide (norm current = [UnixPath.RootDir]))
        && negb (bool_decide (norm current = UnixPath.components COMPAT_RUN_LINK))
        && negb (existsb (fun root => bool_decide (UnixPath.components root `prefix_of` norm current)) BASELINE_RO_BIND_PATHS) in
      args ← (if needs_layout && H.is_dir metadata then
                text ← utf8_text current; Ok (args ++ [RDir (sandbox_mount_path text)])
              else Ok args);
      if negb (H.is_symlink metadata) then layout_steps fs path budget current pending args links
      else
        match budget with
        | O => Err ("too many resolver symlinks in " +:+ path)
        | Datatypes.S budget =>
            target ← map_err (fun e => "could not read " +:+ path_text current +:+ ": " +:+ errno_text e)
              (H.read_link fs current);
            '(args, links) ←
              (if needs_layout then
                 resolved ← map_err (fun e => "could not resolve " +:+ path_text current +:+ ": " +:+ errno_text e)
                   (H.canonicalize fs current);
                 link ← sandbox_mount_path <$> utf8_text current;
                 destination ← sandbox_mount_path <$> utf8_text resolved;
                 if bool_decide (link = destination) then Ok (args, links)
                 else Ok (args ++ [RSymlink destination link], links ++ [MkSandboxLink link destination true])
               else Ok (args, links));
            layout_steps fs path budget (pop_path current) (UnixPath.components target ++ pending) args links
        end.
Proof. intros Hne. by destruct budget, component. Qed.

(** What is pushed, and what the host has there. *)
Lemma at_push current place c node :
  at_place current place \/ c = UnixPath.RootDir -> clean_component c -> c <> UnixPath.ParentDir ->
  H.symlink_metadata fs (push current c) = Ok node ->
  (H.is_symlink node = false /\ exists place', at_place (push current c) place') \/
  (exists name text, c = UnixPath.Normal name /\ node = H.Link text /\ at_place current place /\
    H.node_at fs (place ++ [name]) = Ok (H.Link text) /\ norm (push current c) = path_of (place ++ [name]) /\
    exists rest, push current c = UnixPath.RootDir :: rest /\ Forall pushed rest).
Proof.
  intros Hat Hclean Hnp Hmeta. destruct (decide (c = UnixPath.RootDir)) as [->|Hnr].
  { left. split; [|exists []; apply at_root]. cbn in Hmeta. destruct (H.root_is_dir _ fs_ok) as [s Hs].
    unfold H.symlink_metadata, H.metadata, H.target_of in Hmeta. cbn -[H.walk] in Hmeta. rewrite !H.walk_eq in Hmeta. cbn in Hmeta.
    rewrite Hs in Hmeta. by injection Hmeta as <-. }
  destruct Hat as [Hat|]; [|done]. pose proof Hat as (rest & -> & Hr & Hn & Hreal).
  assert (Hpush : push (UnixPath.RootDir :: rest) c = (UnixPath.RootDir :: rest) ++ [c]) by (by destruct c).
  assert (Hpr : Forall pushed (rest ++ [c])) by (apply Forall_app; split; [done|]; by constructor).
  rewrite Hpush in *. destruct c as [| | |name]; [done| |done|].
  - left. assert (Hat' : at_place ((UnixPath.RootDir :: rest) ++ [UnixPath.CurDir]) place).
    { exists (rest ++ [UnixPath.CurDir]). rewrite norm_snoc, decide_True, app_nil_r by done. done. }
    split; [|by exists place]. unfold H.symlink_metadata in Hmeta. rewrite last_snoc in Hmeta. unfold H.metadata, H.target_of in Hmeta.
    cbn [app H.start mbind result_bind] in Hmeta. destruct (H.walk fs _ _ _) as [r|] eqn:Hw; [|done]. cbn in Hmeta.
    apply (walk_at _ _ place) in Hw; [|done]. rewrite Hw in Hmeta. destruct Hreal as [_ (nd & Hnd & Hl)]. congruence.
  - unfold H.symlink_metadata in Hmeta. rewrite last_snoc, removelast_last in Hmeta. cbn -[H.walk] in Hmeta.
    destruct (H.walk fs _ _ _) as [r|] eqn:Hw; [|done]. cbn in Hmeta. apply (walk_at _ _ place) in Hw; [|done]. rewrite Hw in Hmeta.
    destruct (H.enter fs place) as [[]|] eqn:He; [|done]. apply H.enter_Ok in He. cbn in Hmeta.
    assert (Hnorm : norm ((UnixPath.RootDir :: rest) ++ [UnixPath.Normal name]) = path_of (place ++ [name])).
    { rewrite norm_snoc, decide_False, Hn by done. unfold path_of. by rewrite fmap_app. }
    destruct (H.is_symlink node) eqn:Hlink.
    + right. destruct node as [| |text]; [done..|]. exists name, text. split_and!; try done. by exists (rest ++ [UnixPath.Normal name]).
    + left. split; [done|]. exists (place ++ [name]). exists (rest ++ [UnixPath.Normal name]). split_and!; [done..|by eapply H.real_child].
Qed.

(** Popping the link again. *)
Lemma at_pop_link current place name :
  at_place current place -> at_place (pop_path (push current (UnixPath.Normal name))) place.
Proof.
  intros Hat. pose proof Hat as (r0 & -> & _). cbn [push]. unfold pop_path. rewrite trim_snoc, decide_False by done.
  unfold UnixPath.parent. rewrite rev_app_distr. cbn [rev app].
  change (rev (rev r0 ++ [UnixPath.RootDir])) with (rev (rev (UnixPath.RootDir :: r0))). rewrite rev_involutive. by apply at_trim.
Qed.

(** The options of a layout make directories, and links where the host has
    links. *)
Definition layout_op (op : ResolverOp) : Prop :=
  match op with RDir _ => True | RSymlink _ path => at_host_link fs path | _ => False end.

Definition links_of_host (links : list SandboxLink) : Prop := Forall (fun link => at_host_link fs (slink_path link)) links.

(** A link the loop finds and makes again. *)
Lemma found_link current place name text rest shown :
  at_place current place -> H.node_at fs (place ++ [name]) = Ok (H.Link text) ->
  push current (UnixPath.Normal name) = UnixPath.RootDir :: rest -> Forall pushed rest ->
  norm (push current (UnixPath.Normal name)) = path_of (place ++ [name]) ->
  norm (push current (UnixPath.Normal name)) <> UnixPath.components COMPAT_RUN_LINK ->
  utf8_text (push current (UnixPath.Normal name)) = Ok shown -> at_host_link fs (sandbox_mount_path shown).
Proof.
  intros (r0 & _ & _ & _ & Hreal) Hnode Hpush Hr Hnorm Hne Hshown. exists (place ++ [name]), [], text. rewrite app_nil_r.
  assert (shown = path_text (UnixPath.RootDir :: rest)) as ->.
  { unfold utf8_text, into_string in Hshown. rewrite Hpush in Hshown. destruct (is_utf8 _); [by injection Hshown|done]. }
  assert (Hc : UnixPath.components (path_text (UnixPath.RootDir :: rest)) = path_of (place ++ [name]))
    by (by rewrite components_path_text, <- Hpush).
  rewrite (mount_path_same _ (place ++ [name])); [done..|]. intros [k Hk].
  destruct k as [|x k _] using rev_ind; [rewrite app_nil_r in Hk; rewrite Hnorm, Hk in Hne; by destruct Hne|].
  rewrite app_assoc in Hk. apply app_inj_tail in Hk as [-> _].
  apply (linkless_outside_run (["var"; "run"] ++ k)); [by apply S.real_linkless|by exists k].
Qed.

Lemma layout_steps_spec path budget : forall pending current args links layout,
  (exists place, at_place current place) \/ head pending = Some UnixPath.RootDir ->
  Forall clean_component pending -> Forall layout_op args -> links_of_host links ->
  layout_steps fs path budget current pending args links = Ok layout ->
  Forall layout_op (layout_ops layout) /\ links_of_host (layout_links layout).
Proof.
  induction budget as [budget IHb] using lt_wf_ind. induction pending as [|c pending IHp]; intros current args links layout Hat Hclean Hargs Hlinks;
    [intros Hrun; assert (Hl : Ok (MkLayout current args links) = Ok layout) by (by destruct budget); by injection Hl as <-|].
  inversion Hclean as [|? ? Hc Hpending]; subst. destruct (decide (c = UnixPath.ParentDir)) as [->|Hnp].
  { rewrite layout_steps_up. apply IHp; [|done..]. destruct Hat as [[place Hat]|[=]]. left. exists (removelast place). by apply at_pop. }
  assert (Hat' : exists place, at_place current place \/ c = UnixPath.RootDir).
  { destruct Hat as [[place ?]|[= ->]]; [exists place; by left|exists []; by right]. }
  destruct Hat' as [place Hat']. rewrite layout_steps_push by done. cbv zeta.
  intros (node & Hnode%map_err_Ok & (args1 & Hargs1 & Hrun)%bind_Ok)%bind_Ok. set (needs := negb _ && negb _ && negb _) in *.
  assert (Hops : Forall layout_op args1).
  { destruct (needs && H.is_dir node); [|by injection Hargs1 as <-]. apply bind_Ok in Hargs1 as (shown & _ & [= <-]).
    apply Forall_app. split; [done|]. by repeat constructor. }
  destruct (at_push current place c node Hat' Hc Hnp Hnode)
    as [[Hlink (place' & Hplace)]|(name & text & -> & -> & Hplace & Hn & Hnorm & rest & Hpush & Hrest)].
  { rewrite Hlink in Hrun. apply (IHp _ _ _ _ (or_introl (ex_intro _ place' Hplace)) Hpending Hops Hlinks Hrun). }
  cbn [H.is_symlink negb] in Hrun. destruct budget as [|budget]; [done|].
  apply bind_Ok in Hrun as (target & _ & ([args2 links2] & Hmade & Hrun)%bind_Ok).
  assert (Hmade' : Forall layout_op args2 /\ links_of_host links2).
  { destruct needs eqn:Hneeds; [|by injection Hmade as <- <-].
    apply bind_Ok in Hmade as (resolved & _ & (link & Hshown & (dest & _ & Hmade)%bind_Ok)%bind_Ok).
    destruct (bool_decide (link = dest)); injection Hmade as <- <-; [done|].
    assert (Hhost : at_host_link fs link).
    { destruct (utf8_text _) as [shown|] eqn:Hs in Hshown; [|done]. injection Hshown as <-.
      apply (found_link current place name text rest); try done. unfold needs in Hneeds.
      apply andb_true_iff in Hneeds as [[_ Hne]%andb_true_iff _]. by apply negb_true_iff, bool_decide_eq_false in Hne. }
    split; apply Forall_app; (split; [done|]); by constructor. }
  destruct Hmade' as [Hops2 Hlinks2]. eapply (IHb budget); [lia| |exact (Forall_app_2 _ _ _ (components_clean target) Hpending)
    |exact Hops2|exact Hlinks2|exact Hrun].
  left. exists place. by apply at_pop_link.
Qed.

Lemma walk_names links names r :
  H.walk fs links [] (UnixPath.Normal <$> names) = Ok r ->
  r.1 = names \/ exists dir rest text, names = dir ++ rest /\ H.node_at fs dir = Ok (H.Link text).
Proof.
  revert r. induction names as [|name names IH] using rev_ind; intros r; [rewrite H.walk_eq; intros [= <-]; by left|].
  rewrite fmap_app, H.walk_app. intros ([place l] & Hw & Hlast)%bind_Ok.
  destruct (IH _ Hw) as [Hp|(dir & rest & text & -> & Hn)]; [|right; exists dir, (rest ++ [name]), text; by rewrite app_assoc].
  cbn in Hp. subst place. cbn [fmap list_fmap] in Hlast. rewrite H.walk_eq in Hlast.
  destruct (H.enter fs names); [|done]. cbn -[H.walk] in Hlast. destruct (H.node_at fs (names ++ [name])) as [node|] eqn:Hn; [|done].
  cbn -[H.walk] in Hlast. destruct node as [| |text]; [rewrite H.walk_eq in Hlast; injection Hlast as <-; by left..|].
  right. exists (names ++ [name]), [], text. by rewrite app_nil_r.
Qed.

(** Where [lstat] finds a link, the host has one at the path or above it. *)
Lemma lstat_at_host_link path names name text :
  UnixPath.components path = path_of (names ++ [name]) -> H.symlink_metadata fs (UnixPath.components path) = Ok (H.Link text) ->
  at_host_link fs path.
Proof.
  intros Hc. rewrite Hc. unfold H.symlink_metadata, path_of. rewrite fmap_app. change (UnixPath.Normal <$> [name]) with [UnixPath.Normal name].
  rewrite app_comm_cons, last_snoc, removelast_last. cbn -[H.walk]. rewrite H.walk_root. destruct (H.walk fs _ _ _) as [r|] eqn:Hw; [|done]. cbn. destruct (H.enter fs r.1); [|done]. cbn. intros Hn.
  destruct (walk_names _ _ _ Hw) as [Hr|(dir & rest & text' & -> & Hd)].
  - rewrite Hr in Hn. exists (names ++ [name]), [], text. by rewrite app_nil_r.
  - exists dir, (rest ++ [name]), text'. by rewrite app_assoc.
Qed.

Lemma compat_at_host_link : at_host_link fs COMPAT_RUN_LINK.
Proof. destruct run_link as [text Hr]. by exists ["var"; "run"], [], text. Qed.

(** ** The resolver of the host *)

Hypothesis fs_tidy : tidy fs.

(** A path that no link of the host is at or above. *)
Definition link_free (path : string) : Prop := exists names, UnixPath.components path = path_of names /\ S.linkless fs names.

Lemma link_free_clear path link : link_free path -> at_host_link fs link -> ~ UnixPath.components link `prefix_of` UnixPath.components path.
Proof.
  intros (names & -> & Hl) (dir & rest & text & -> & Hn) [k Hk]%path_of_prefix. apply (Hl dir (rest ++ k) text); [|done].
  by rewrite app_assoc.
Qed.

Context (snapshot_file : string -> result string Z).

Lemma for_host_spec p resolver :
  for_host fs snapshot_file p = Some resolver ->
  Forall layout_op (layout_args resolver) /\ links_of_host (resolver_links resolver) /\
  exists names, plain names /\ resolver_destination resolver = UnixPath.absolute names /\ H.real fs names.
Proof.
  unfold for_host. destruct (from_resolver _ _ _ _ _) as [found|] eqn:Hf; [|done]. intros ->.
  unfold from_resolver in Hf. destruct (H.canonicalize fs _) as [destination|e] eqn:Hcan; [|by destruct e].
  destruct (_ || _); [done|]. apply bind_Ok in Hf as (layout & Hlay & Hf). destruct (negb _); [done|].
  apply bind_Ok in Hf as (snap & _ & (shown & Hshown & [= <-])%bind_Ok). cbn.
  apply bind_Ok in Hlay as (hs & _ & Hsteps).
  eapply layout_steps_spec in Hsteps as [Hops Hlinks];
    [|by right|apply components_clean|constructor|constructor; [apply compat_at_host_link|constructor]].
  split_and!; [done..|].
  destruct (canonicalize_plain fs fs_tidy _ _ (components_plain BwrapProxy.SANDBOX_RESOLV_CONF_PATH eq_refl) Hcan) as (names & Hplain & ->).
  exists names. split_and!; [done| |].
  - unfold utf8_text in Hshown. destruct (into_string _) as [s|] eqn:Hi; [|done]. injection Hshown as <-. by apply into_string_plain in Hi.
  - unfold H.canonicalize in Hcan. destruct (H.target_of fs _) as [place|] eqn:Ht; [|done].
    assert (place = names) as -> by (injection Hcan as Heq; by apply (inj (fmap UnixPath.Normal)) in Heq).
    by eapply S.target_real.
Qed.

Lemma absolute_link_free names : plain names -> S.linkless fs names -> link_free (UnixPath.absolute names).
Proof. intros Hp Hl. exists names. split; [|done]. by rewrite UnixPath.components_absolute by (by apply plain_clean). Qed.

(** ** Mounts that stay *)

(** Mounts of the host's own places, at these places. *)
Definition in_place (m : PolicyMount) : Prop := destination m = source m /\ link_free (source m).

Lemma follow_stays links source budget :
  Forall (fun l => at_host_link fs (slink_path l.1)) links -> link_free source -> follow_links links source budget source = Ok source.
Proof.
  intros Hl Hs. assert (Hnone : fst <$> filter (fun '(link, active) => active = true /\ UnixPath.starts_with source (slink_path link) = true) links = []).
  { destruct (filter _ links) as [|[link active] l] eqn:E; [done|]. assert (Hin : (link, active) ∈ (link, active) :: l) by left.
    rewrite <- E in Hin. apply list_elem_of_filter in Hin as [[_ Hst] Hin]. rewrite Forall_forall in Hl. specialize (Hl _ Hin). cbn in Hl.
    unfold UnixPath.starts_with in Hst. apply bool_decide_eq_true in Hst. by destruct (link_free_clear source (slink_path link) Hs Hl). }
  destruct budget; cbn [follow_links]; by rewrite Hnone.
Qed.

Lemma translate_stays links mounts :
  Forall (fun l => at_host_link fs (slink_path l.1)) links -> Forall in_place mounts -> translate_mounts links mounts = Ok mounts.
Proof.
  intros Hl Hm. revert links Hl. induction Hm as [|m mounts [Hd Hs] Hm IH]; intros links Hl; [done|]. cbn [translate_mounts].
  rewrite follow_stays by done. cbn. rewrite IH; [|apply Forall_fmap; eapply Forall_impl; [exact Hl|]; intros [link active]; cbn; by repeat case_match].
  cbn. destruct m as [s d i]. cbn in *. by subst d.
Qed.

Lemma sort_sorted {A} (le : A -> A -> bool) l : StronglySorted (fun a b => le a b = true) l -> sort_by le l = l.
Proof.
  induction 1 as [|a l Hl IH Ha]; [done|]. unfold sort_by in *. cbn. rewrite IH. destruct l as [|b l]; [done|]. cbn.
  inversion Ha as [|? ? Hb]; subst. by rewrite Hb.
Qed.

Lemma mounts_stay resolver mounts :
  links_of_host (resolver_links resolver) -> Forall in_place mounts -> StronglySorted (fun a b => mount_le a b = true) mounts ->
  resolve_policy_mounts resolver mounts = Ok mounts.
Proof.
  intros Hl Hm Hs. unfold resolve_policy_mounts. cbn [mount_rounds]. unfold translate_policy_mounts. rewrite translate_stays; [|by apply Forall_fmap|done].
  cbn. rewrite sort_sorted by done. by rewrite decide_True.
Qed.

Lemma placeholders_ops parent destination denied_files previous mounts ops :
  placeholders fs parent destination denied_files previous mounts = Ok ops ->
  forall op, op ∈ ops -> exists path, (op = RDir path \/ op = RNull path) /\ path ∈ BwrapCommand.destination <$> mounts.
Proof.
  revert previous ops. induction mounts as [|m mounts IH]; intros previous ops; cbn [placeholders]; [intros [= <-] op []%elem_of_nil|].
  assert (Hrest : forall ops, placeholders fs parent destination denied_files (previous ++ [m]) mounts = Ok ops ->
    forall op, op ∈ ops -> exists path, (op = RDir path \/ op = RNull path) /\ path ∈ BwrapCommand.destination <$> m :: mounts).
  { intros ops' Ho op Hop. destruct (IH _ _ Ho op Hop) as (path & ? & ?). exists path. split; [done|]. by right. }
  destruct (_ || _); [apply Hrest|]. intros (is_dir & _ & (ops' & Ho & [= <-])%bind_Ok)%bind_Ok op [->|Hop]%elem_of_cons; [|by eapply Hrest].
  exists (BwrapCommand.destination m). split; [destruct is_dir; auto|left].
Qed.

(** What a resolver adds to the arguments, for mounts that stay in place. *)
Lemma resolver_mount_args_spec p resolver mounts denied_files ops mounts' :
  for_host fs snapshot_file p = Some resolver -> Forall in_place mounts -> StronglySorted (fun a b => mount_le a b = true) mounts ->
  resolver_mount_args fs resolver mounts denied_files = Ok (ops, mounts') ->
  mounts' = mounts /\ (forall path, path ∈ omap op_mount ops -> link_free path) /\ (forall path, path ∈ omap op_link ops -> at_host_link fs path).
Proof.
  intros Hhost Hm Hs Hargs. destruct (for_host_spec p resolver Hhost) as (Hops & Hlinks & names & Hplain & Hdest & Hreal).
  unfold resolver_mount_args in Hargs. rewrite mounts_stay in Hargs by done. cbn [mbind result_bind] in Hargs.
  assert (Hlayout : forall op, op ∈ layout_args resolver -> op_mount op = None /\ forall path, op_link op = Some path -> at_host_link fs path).
  { intros op Hop. rewrite Forall_forall in Hops. specialize (Hops op Hop). destruct op; cbn in *; try done. split; [done|]. by intros ? [= <-]. }
  destruct (snapshot resolver) as [fd|]; cycle 1.
  { injection Hargs as <- <-. split_and!; [done|..]; intros path (op & Hop & Hpath)%list_elem_of_omap; destruct (Hlayout op Hop) as [H1 H2];
      [congruence|auto]. }
  apply bind_Ok in Hargs as (extra & Hextra & [= <- <-]).
  assert (Hsame : sandbox_mount_path (resolver_destination resolver) = UnixPath.absolute names).
  { rewrite Hdest. apply (mount_path_same _ names); [by rewrite UnixPath.components_absolute by (by apply plain_clean)|].
    by apply linkless_outside_run, S.real_linkless. }
  rewrite Hsame in *. rewrite UnixPath.components_absolute in * by (by apply plain_clean).
  set (parent := match UnixPath.parent _ with Some parent => path_text parent | None => "/" end) in *.
  assert (Hparent : link_free parent).
  { unfold parent. destruct names as [|x names _] using rev_ind; [exists []; split; [done|]; by apply S.real_linkless|].
    unfold UnixPath.parent. rewrite fmap_app, app_comm_cons, rev_app_distr. cbn [rev app fmap list_fmap].
    change (rev (rev (UnixPath.Normal <$> names) ++ [UnixPath.RootDir])) with (rev (rev (path_of names))). rewrite rev_involutive.
    rewrite path_text_path_of. apply Forall_app in Hplain as [Hplain _]. apply absolute_link_free; [done|].
    apply S.real_linkless. by eapply H.real_prefix. }
  assert (Hall : forall op, op ∈ [RTmpfs parent] ++ layout_args resolver ++ [RFile (dec fd) (UnixPath.absolute names)] ++ extra ++ [RRemount parent] ->
    (forall path, op_mount op = Some path -> link_free path) /\ (forall path, op_link op = Some path -> at_host_link fs path)).
  { intros op. rewrite !elem_of_app, !list_elem_of_singleton. intros [->|[Hop|[->|[Hop| ->]]]]; cbn.
    - split; [by intros ? [= <-]|done].
    - destruct (Hlayout op Hop) as [-> H2]. split; [done|exact H2].
    - split; [|done]. intros ? [= <-]. apply absolute_link_free; [done|]. by apply S.real_linkless.
    - destruct (placeholders_ops _ _ _ _ _ _ Hextra op Hop) as (path & [-> | ->] & Hin); (split; [|done]); [done|]. intros ? [= <-].
      apply list_elem_of_fmap in Hin as (m & -> & Hin). rewrite Forall_forall in Hm. destruct (Hm m Hin) as [-> ?]. done.
    - done. }
  split_and!; [done|..]; intros path (op & Hop & Hpath)%list_elem_of_omap; by apply (Hall op Hop).
Qed.

End Layout.

End ResolverFile.
