(* ===== verification/BwrapLaunch.v ===== *)
(** * The argument vector Bubblewrap is launched with

    [backends/bubblewrap/common/bwrap_runner.rs] [spawn_bwrap], up to the process:
    the resolver's file and the policy's mounts, the proxy as the sandbox reaches
    it, and the private network namespace
    ([backends/bubblewrap/common/proxy_network.rs]), which binds the files it pins
    over everything else and hands [bwrap] its descriptors.  The host is a
    [HostFs.Host]; the name lookup, the start of the namespace, the files that are
    read and written and the descriptors are arguments.  The last theorem follows a
    denied path through all of it to what a process in the sandbox sees. *)

From Stdlib Require Import Ascii.
From stdpp Require Import gmap sorting.
From S2P Require Import Prelude NetText Models Requests ProxyEnv UnixPath FsPolicy DefaultEnv MountView BwrapCommand BwrapLinks BwrapView SymlinkWalk BwrapProxy BwrapResolve ResolverFile.

#[local] Open Scope nat_scope.

Module BwrapLaunch.
Export ResolverFile.

(** ** The resolver's pin *)

Record ResolverPin : Type := MkResolverPin {
  pin_destination : string;
  pin_contents : string;
}.

Definition policy_names_path (p : ContainerPolicy) (target : string) : bool :=
  existsb (fun mount => bool_decide (trim_end_matches is_slash (mount_path mount) = target)) (resolve_mount_order p).

(** The arguments before its command, in the shape [command_separator] looks for. *)
Definition command_separator (args : list string) : result string nat :=
  let separator := length args - (length COMMAND_TAIL + 1) in
  if (length COMMAND_TAIL + 1 <=? length args) && bool_decide (take (length COMMAND_TAIL) (drop separator args) = COMMAND_TAIL)
  then Ok separator
  else Err "Bubblewrap: argument list has no command separator".

(** Whether a mount is overridden, which is logged, and the arguments. *)
Definition insert_pin_bind (args : list string) (source destination : string) : result string (bool * list string) :=
  separator ← command_separator args;
  Ok (bool_decide (destination ∈ take separator args),
      take separator args ++ ["--ro-bind"; source; destination] ++ drop separator args).

Definition insert_hosts_bind (args : list string) (hosts_path : string) : result string (bool * list string) :=
  insert_pin_bind args hosts_path BwrapProxy.SANDBOX_HOSTS_PATH.

(** [hosts], [resolver] and [userns] of [ProxyNetworkNamespace]. *)
Record Network : Type := MkNetwork {
  net_hosts : option string;
  net_resolver : option (string * string);
  net_userns : option Z;
}.

(** Why a launch fails before there is a process. *)
Inductive LaunchError : Type :=
| Failed (message : string)
| ProxyFailed (error : BwrapProxy.ProxyResolveError).

Section Launch.
Context `{!BwrapProxy.GatewayUrl}.
(** [snapshot_file]: the descriptor of a snapshot; [lookup]: the host's name
    lookup; [read_hosts] and [read_resolv]: the host's [/etc/hosts] and
    [/etc/resolv.conf]; [started]: the outcome of planning the filter and starting
    the supervisor, with its state directory and its user namespace; [write]: [fs::write]; [seccomp] and [pipes]:
    descriptors. *)
Context (fs : H.Host) (snapshot_file : string -> result string Z)
  (lookup : string -> Z -> result BwrapProxy.ProxyResolveError Z)
  (read_hosts read_resolv : result H.Errno string) (started : result string (string * Z))
  (write : string -> string -> result string unit) (seccomp : result string Z) (pipes : result string (Z * Z)).

Definition resolver_target_of (start : string) : result string (list UnixPath.Component) :=
  resolved ← ok_or (S.resolve_through_symlinks fs (UnixPath.components start)) (start +:+ " is not a resolvable path");
  match S.error resolved with
  | Some e => Err (start +:+ " could not be resolved (" +:+ errno_text e +:+ ")")
  | None =>
      metadata ← map_err (fun e => path_text (S.path resolved) +:+ " could not be read (" +:+ errno_text e +:+ ")")
        (H.symlink_metadata fs (S.path resolved));
      if negb (bool_decide (metadata = H.File)) then Err (path_text (S.path resolved) +:+ " does not resolve to a regular file")
      else Ok (S.path resolved)
  end.

(** [ResolverPin::from_resolver]; each way out is a warning or silent. *)
Definition pin_from_resolver (resolver_path : string) (p : ContainerPolicy) (mounts : list PolicyMount) : option ResolverPin :=
  match read_resolv with
  | Err _ => None
  | Ok host_contents =>
      if negb (BwrapProxy.resolvers_are_loopback_only host_contents) then None
      else match resolver_target_of resolver_path with
      | Err _ => None
      | Ok destination =>
          match into_string destination with
          | None => None
          | Some destination_text =>
              let sandbox_destination := sandbox_mount_path destination_text in
              let covering_mount :=
                last (filter (fun m => UnixPath.starts_with sandbox_destination (BwrapCommand.destination m) = true) mounts) in
              if resolver_target_is_denied fs p destination
                 || match covering_mount with Some m => bool_decide (intent m = Denied) | None => false end then None
              else if policy_names_path p resolver_path || policy_names_path p destination_text
                      || match covering_mount with
                         | Some m => UnixPath.path_eq (BwrapCommand.destination m) sandbox_destination
                         | None => false
                         end then None
              else Some (MkResolverPin destination_text (BwrapProxy.render_pinned_resolv_conf host_contents))
          end
      end
  end.

Definition pin_for_host (p : ContainerPolicy) (mounts : list PolicyMount) : option ResolverPin :=
  pin_from_resolver BwrapProxy.SANDBOX_RESOLV_CONF_PATH p mounts.

Definition stage (self : ResolverPin) (directory : string) : result string (string * string) :=
  let source := directory +:+ "/resolv.conf" in
  _ ← map_err (fun e => "Bubblewrap: failed to write the resolver pin: " +:+ e) (write source (pin_contents self));
  if is_utf8 source then Ok (source, sandbox_mount_path (pin_destination self))
  else Err ("Bubblewrap: the staged resolver path " +:+ source +:+ " is not valid UTF-8").

(** A failure to stage gives up the pin. *)
Definition stage_resolver (resolver : option ResolverPin) (directory : string) : option (string * string) :=
  resolver ← resolver;
  match stage resolver directory with Ok staged => Some staged | Err _ => None end.

Definition write_pinned_hosts (path : string) (pin : ProxyHostPin) : result string unit :=
  existing ← match read_hosts with
             | Ok contents => Ok contents
             | Err H.ENOENT => Ok ""
             | Err e =>
                 Err ("Bubblewrap: failed to read " +:+ BwrapProxy.SANDBOX_HOSTS_PATH +:+ " while pinning the proxy host: " +:+ errno_text e)
             end;
  map_err (fun e => "Bubblewrap: failed to write the proxy hosts pin: " +:+ e) (write path (BwrapProxy.pinned_hosts existing pin)).

(** [ProxyNetworkNamespace::start], from where its supervisor is ready. *)
Definition start (pin : option ProxyHostPin) (resolver : option ResolverPin) : result string Network :=
  '(state_dir, userns) ← started;
  hosts ← match pin with
          | Some pin => let path := state_dir +:+ "/hosts" in _ ← write_pinned_hosts path pin; Ok (Some path)
          | None => Ok None
          end;
  Ok (MkNetwork hosts (stage_resolver resolver state_dir) (Some userns)).

Definition configure_bwrap (self : Network) (args : list string) : result string (list string) :=
  '(info, gate) ← pipes;
  userns ← ok_or (net_userns self) "Bubblewrap: proxy user namespace is already handed off";
  args ← match net_hosts self with
         | Some path =>
             if is_utf8 path then snd <$> insert_hosts_bind args path
             else Err "Bubblewrap: proxy hosts pin path is not valid UTF-8"
         | None => Ok args
         end;
  args ← match net_resolver self with
         | Some (source, destination) => snd <$> insert_pin_bind args source destination
         | None => Ok args
         end;
  Ok (["--userns"; dec userns; "--info-fd"; dec info; "--block-fd"; dec gate] ++ args).

(** The arguments [bwrap] is run with; [inherit]: with the runner's own
    standard streams. *)
Definition spawn_args (l : Launch) (inherit : bool) : result LaunchError (list string) :=
  let r := launch_request l in
  let configured_proxy := proxy_config_address (network_proxy (policy r)) in
  let network_mode := from_request r (bool_decide (is_Some configured_proxy)) in
  let mounts := policy_mounts (policy r) in
  '(resolver_ops, mounts) ←
    match for_host fs snapshot_file (policy r) with
    | Some resolver => map_err (fun e => Failed ("Bubblewrap: " +:+ e)) (resolver_mount_args fs resolver mounts (launch_files l))
    | None => Ok ([], mounts)
    end;
  sandbox_proxy ←
    match network_mode with
    | ProxyOnly =>
        address ← ok_or configured_proxy (Failed "Bubblewrap: proxy mode was selected without a resolved proxy address.");
        Some <$> map_err ProxyFailed (BwrapProxy.resolve lookup address)
    | _ => Ok None
    end;
  let proxy_address := match sandbox_proxy with Some proxy => Some (BwrapProxy.sandbox_address proxy) | None => configured_proxy end in
  network ←
    match sandbox_proxy, network_mode with
    | Some proxy, _ => Some <$> map_err Failed (start (BwrapProxy.pin (BwrapProxy.egress proxy)) None)
    | None, FirewallEnforced => Some <$> map_err Failed (start None (pin_for_host (policy r) mounts))
    | None, _ => Ok None
    end;
  seccomp_fd ← map_err Failed seccomp;
  let args :=
    build_args_classified_with_mode r proxy_address (launch_files l) network_mode (Some seccomp_fd) (launch_baseline l)
      (resolver_ops ≫= resolver_op_args) mounts (launch_private_tmp l)
      (fun mount_args => plan_args (plan_grant_links mount_args (launch_aliased l))) in
  let args := if inherit then "--new-session" :: args else args in
  match network with
  | Some network => map_err Failed (configure_bwrap network args)
  | None => Ok args
  end.

(** ** The shape of the arguments *)

Definition pins_of (network : Network) : list (string * string) :=
  match net_hosts network with Some path => [(path, BwrapProxy.SANDBOX_HOSTS_PATH)] | None => [] end
  ++ match net_resolver network with Some pin => [pin] | None => [] end.

Lemma separator_found options script : command_separator (options ++ COMMAND_TAIL ++ [script]) = Ok (length options).
Proof.
  unfold command_separator. rewrite length_app.
  replace (length options + length (COMMAND_TAIL ++ [script]) - (length COMMAND_TAIL + 1)) with (length options) by (cbn; lia).
  assert (Hle : (length COMMAND_TAIL + 1 <=? length options + length (COMMAND_TAIL ++ [script])) = true) by (apply Nat.leb_le; cbn; lia).
  rewrite Hle, drop_app_length, take_app_length. by rewrite bool_decide_eq_true_2.
Qed.

Lemma pin_inserted options script source destination :
  snd <$> insert_pin_bind (options ++ COMMAND_TAIL ++ [script]) source destination =
  Ok ((options ++ pin_args (source, destination)) ++ COMMAND_TAIL ++ [script]).
Proof.
  unfold insert_pin_bind. rewrite separator_found. cbn. rewrite take_app_length, drop_app_length. by rewrite <- app_assoc.
Qed.

(** The options about the process in front of the vector. *)
Definition process_front (front : list string) : Prop :=
  forall host_has, exists f, reads host_has front f /\ mounts (f fresh) = [] /\ cwd (f fresh) = None.

Lemma configured network options script args :
  configure_bwrap network (options ++ COMMAND_TAIL ++ [script]) = Ok args ->
  exists userns info gate, args = ["--userns"; userns; "--info-fd"; info; "--block-fd"; gate] ++ options
    ++ (pins_of network ≫= pin_args) ++ COMMAND_TAIL ++ [script].
Proof.
  intros ([info gate] & _ & (userns & _ & (args1 & H1 & (args2 & H2 & [= <-])%bind_Ok)%bind_Ok)%bind_Ok)%bind_Ok.
  exists (dec userns), (dec info), (dec gate). f_equal. unfold pins_of. rewrite bind_app.
  assert (Hhosts : args1 = (options ++ (match net_hosts network with Some path => [(path, BwrapProxy.SANDBOX_HOSTS_PATH)] | None => [] end ≫= pin_args))
    ++ COMMAND_TAIL ++ [script]).
  { destruct (net_hosts network) as [path|]; [|injection H1 as <-; cbn; by rewrite app_nil_r].
    destruct (is_utf8 path); [|done]. unfold insert_hosts_bind in H1. rewrite pin_inserted in H1. by injection H1 as <-. }
  subst args1. destruct (net_resolver network) as [[source destination]|].
  - rewrite pin_inserted in H2. injection H2 as <-. cbn [mbind list_bind]. rewrite app_nil_r. by rewrite <- !app_assoc.
  - injection H2 as <-. cbn [mbind list_bind]. by rewrite app_nil_r, <- !app_assoc.
Qed.

(** Where a pin of a launch comes from. *)
Inductive pin_origin (l : Launch) (ms : list PolicyMount) : string * string -> Prop :=
| hosts_origin dir userns address proxy p :
    started = Ok (dir, userns) ->
    proxy_config_address (network_proxy (policy (launch_request l))) = Some address ->
    BwrapProxy.resolve lookup address = Ok proxy -> BwrapProxy.pin (BwrapProxy.egress proxy) = Some p ->
    pin_origin l ms (dir +:+ "/hosts", BwrapProxy.SANDBOX_HOSTS_PATH)
| resolver_origin dir userns pin :
    started = Ok (dir, userns) -> pin_for_host (policy (launch_request l)) ms = Some pin ->
    pin_origin l ms (dir +:+ "/resolv.conf", sandbox_mount_path (pin_destination pin)).

Lemma started_pins l ms pin resolver network :
  start pin resolver = Ok network ->
  (forall p, pin = Some p -> exists address proxy,
     proxy_config_address (network_proxy (policy (launch_request l))) = Some address /\
     BwrapProxy.resolve lookup address = Ok proxy /\ BwrapProxy.pin (BwrapProxy.egress proxy) = Some p) ->
  (forall p, resolver = Some p -> pin_for_host (policy (launch_request l)) ms = Some p) ->
  Forall (pin_origin l ms) (pins_of network).
Proof.
  intros ([dir userns] & Hs & (hosts & Hhosts & [= <-])%bind_Ok)%bind_Ok Hpin Hres. apply Forall_app. cbn. split.
  - destruct pin as [p|]; [|by injection Hhosts as <-]. apply bind_Ok in Hhosts as (? & _ & [= <-]). constructor; [|constructor].
    destruct (Hpin p eq_refl) as (address & proxy & ? & ? & ?). by eapply hosts_origin.
  - destruct resolver as [p|]; [|constructor]. cbn. unfold stage. destruct (map_err _ _); [|constructor]. cbn.
    destruct (is_utf8 _); [|constructor]. constructor; [|constructor]. eapply resolver_origin; [done|by apply Hres].
Qed.

Lemma spawn_args_shape l inherit args :
  spawn_args l inherit = Ok args ->
  let r := launch_request l in
  let mode := from_request r (bool_decide (is_Some (proxy_config_address (network_proxy (policy r))))) in
  exists front ops ms pins proxy fd,
    args = front ++ build_options r proxy (launch_files l) mode (Some fd) (launch_baseline l) (ops ≫= resolver_op_args) ms
      (launch_private_tmp l) (fun mount_args => plan_args (plan_grant_links mount_args (launch_aliased l)))
      ++ (pins ≫= pin_args) ++ COMMAND_TAIL ++ [script_code r] /\
    process_front front /\ Forall (pin_origin l ms) pins /\ (mode = Isolated -> pins = []) /\
    match for_host fs snapshot_file (policy r) with
    | Some resolver => resolver_mount_args fs resolver (policy_mounts (policy r)) (launch_files l) = Ok (ops, ms)
    | None => ops = [] /\ ms = policy_mounts (policy r)
    end.
Proof.
  unfold spawn_args. cbv zeta. set (r := launch_request l). set (mode := from_request r _).
  intros ([ops ms] & Hops & (sandbox_proxy & Hproxy & (network & Hnet & (fd & _ & Hargs)%bind_Ok)%bind_Ok)%bind_Ok)%bind_Ok.
  rewrite build_args_command in Hargs. set (options := build_options _ _ _ _ _ _ _ _ _ _) in *.
  set (session := if inherit then ["--new-session"] else []).
  assert (Hsession : (if inherit then "--new-session" :: options ++ COMMAND_TAIL ++ [script_code r] else options ++ COMMAND_TAIL ++ [script_code r])
    = (session ++ options) ++ COMMAND_TAIL ++ [script_code r]) by (unfold session; by destruct inherit).
  rewrite Hsession in Hargs.
  assert (Hpins : exists front pins, args = front ++ options ++ (pins ≫= pin_args) ++ COMMAND_TAIL ++ [script_code r] /\
    process_front front /\ pins = match network with Some n => pins_of n | None => [] end).
  { destruct network as [n|].
    - apply map_err_Ok, configured in Hargs as (userns & info & gate & ->).
      exists (["--userns"; userns; "--info-fd"; info; "--block-fd"; gate] ++ session), (pins_of n).
      rewrite <- !app_assoc. split_and!; [done| |done]. intros host_has. unfold session.
      exists (fun s => (if inherit then unshare "--new-session" else id) (unshare "--block-fd" (unshare "--info-fd" (unshare "--userns" s)))).
      by destruct inherit.
    - injection Hargs as <-. exists session, []. rewrite <- app_assoc. split_and!; [done| |done]. intros host_has. unfold session.
      destruct inherit; [by exists (unshare "--new-session")|by exists id]. }
  destruct Hpins as (front & pins & -> & Hfront & Hpins). exists front, ops, ms, pins. eexists. exists fd.
  assert (Hres : match for_host fs snapshot_file (policy r) with
    | Some resolver => resolver_mount_args fs resolver (policy_mounts (policy r)) (launch_files l) = Ok (ops, ms)
    | None => ops = [] /\ ms = policy_mounts (policy r)
    end).
  { destruct (for_host _ _ _); [by apply map_err_Ok in Hops|]. by injection Hops as <- <-. }
  split_and!; [done|done| | |done].
  - rewrite Hpins. destruct network as [n|]; [|constructor]. destruct sandbox_proxy as [sp|].
    + destruct (map_err Failed (start _ _)) as [n'|] eqn:Hs; [|done]. apply map_err_Ok in Hs. injection Hnet as ->.
      eapply started_pins; [exact Hs| |done]. intros p Hp. destruct mode; [done..|].
      apply bind_Ok in Hproxy as (address & Ha & Hsp). destruct (map_err _ _) as [sp'|] eqn:Hm in Hsp; [|done]. apply map_err_Ok in Hm.
      injection Hsp as ->. exists address, sp. split_and!; [|done..]. unfold r in Ha. by destruct (proxy_config_address _) in Ha |- *; [injection Ha as ->|].
    + destruct mode; [done| |done]. destruct (map_err Failed (start _ _)) as [n'|] eqn:Hs; [|done]. apply map_err_Ok in Hs. injection Hnet as ->.
      eapply started_pins; [exact Hs|done|]. by intros p Hp.
  - intros Hm. rewrite Hpins. rewrite Hm in Hnet, Hproxy. injection Hproxy as <-. by injection Hnet as <-.
Qed.

End Launch.

(** ** Links of the sandbox are links of the host *)

Lemma baseline_link_origin target baseline :
  baseline_links target = Ok baseline ->
  forall link, link ∈ baseline -> link_path link ∈ BASELINE_RO_BIND_PATHS /\ exists to, target (link_path link) = Ok (Some to).
Proof.
  unfold baseline_links. intros (targets & Ht%mapM_Ok & Hfold)%bind_Ok.
  assert (Hentries : forall path to, (path, to) ∈ zip BASELINE_RO_BIND_PATHS targets -> path ∈ BASELINE_RO_BIND_PATHS /\ target path = Ok to).
  { intros path to Hin. split; [by eapply elem_of_zip_l|]. revert Hin. clear Hfold. induction Ht as [|a b l k Hab Hl IH]; cbn; [by intros ?%elem_of_nil|].
    intros [[= -> ->]|Hin]%elem_of_cons; [by apply map_err_Ok in Hab|auto]. }
  cbv zeta in Hfold. match type of Hfold with foldM ?f _ _ = _ => set (step := f) in Hfold end.
  assert (Hstep : forall path to links links', step (path, to) links = Ok links' -> links' = links \/
    exists relative target, to = Some target /\ links' = links ++ [MkBaselineLink path relative]).
  { intros path [to|] links links'; cbn; [|intros [= ->]; by left]. case_match; [|intros [= ->]; by left].
    intros (relative & _ & [= <-])%bind_Ok. right. by exists relative, to. }
  clearbody step. revert Hentries Hfold. generalize (zip BASELINE_RO_BIND_PATHS targets). clear Ht.
  assert (Hacc : forall link : BaselineLink, link ∈ [] -> link_path link ∈ BASELINE_RO_BIND_PATHS /\ exists to, target (link_path link) = Ok (Some to))
    by (by intros link ?%elem_of_nil).
  revert Hacc. generalize (@nil BaselineLink). intros acc Hacc entries. revert acc Hacc.
  induction entries as [|[path to] entries IH]; intros acc Hacc Hentries; cbn [foldM]; [by intros [= <-]|].
  intros (acc' & Hs & Hrest)%bind_Ok. eapply (IH acc'); [|intros ? ? ?; apply Hentries; by right|exact Hrest].
  destruct (Hstep _ _ _ _ Hs) as [->|(relative & to' & -> & ->)]; [done|].
  intros link [?|Hl%list_elem_of_singleton]%elem_of_app; [by apply Hacc|]. subst link. cbn.
  destruct (Hentries path (Some to')) as [? ?]; [left|]. eauto.
Qed.

Section Sandbox.
Context `{!BwrapProxy.GatewayUrl}.
Context (fs : H.Host) (resolve : string -> result string PathResolution) (probe : string -> result string unit)
  (access_ : string -> AccessMode -> result H.Errno unit).
Hypothesis fs_ok : H.host_ok fs.
Hypothesis fs_tidy : tidy fs.
Hypothesis run_link : linked_run fs.

Lemma baseline_at_host_link baseline link :
  baseline_links (fun path => map_err errno_text (option_map path_text <$> host_link_target fs path)) = Ok baseline ->
  link ∈ baseline -> at_host_link fs (link_path link).
Proof.
  intros Hb Hin. destruct (baseline_link_origin _ _ Hb link Hin) as (Hpath & to & Hto). apply map_err_Ok in Hto.
  assert (Hnames : exists names name, UnixPath.components (link_path link) = path_of (names ++ [name])).
  { revert Hpath. generalize (link_path link). apply Forall_forall. unfold BASELINE_RO_BIND_PATHS.
    repeat (constructor; [first [exists []; eexists; reflexivity | exists ["usr"]; eexists; reflexivity]|]). constructor. }
  destruct Hnames as (names & name & Hnames). unfold host_link_target in Hto.
  destruct (H.symlink_metadata fs _) as [node|e] eqn:Hm in Hto; [|by destruct e]. destruct (H.is_symlink node) eqn:Hl; [|done].
  destruct node as [| |text]; [done..|]. by apply (lstat_at_host_link fs _ names name text).
Qed.

Lemma resolved_link_free path r text :
  path <> "" -> lacks "\" path = true -> S.resolve_through_symlinks fs (UnixPath.components path) = Some r -> S.error r = None ->
  into_string (S.path r) = Some text -> link_free fs text.
Proof.
  intros Hne Hb Hr He Hi. destruct (resolve_plain fs fs_tidy _ _ (components_plain _ Hb) Hr He) as (names & Hn & Hp).
  destruct (S.resolve_linkless fs fs_ok _ _ Hr He) as (place & Hp' & Hl). rewrite Hp in *. injection Hp' as Hp'.
  apply (inj (fmap UnixPath.Normal)) in Hp' as <-. apply into_string_plain in Hi as ->. by apply absolute_link_free.
Qed.

Lemma launch_link_free r l path t :
  written (policy r) -> prepare fs resolve probe access_ r = Ok l -> listed (policy (launch_request l)) path t -> link_free fs path.
Proof.
  intros Hw Hl Hin. destruct (launch_listed fs resolve probe access_ r l path t Hl Hin) as (q & t' & Hq & Hres). destruct (Hw q t' Hq) as [Hne Hb].
  assert (Hsome : exists r, S.resolve_through_symlinks fs (UnixPath.components q) = Some r).
  { unfold S.resolve_through_symlinks. destruct (UnixPath.components q) eqn:E; [by apply S.components_ne in E|]. eauto. }
  destruct Hsome as [res Hsome]. destruct Hres as [(is_file & Hres)|(list_ & grant & Hres & <-)].
  - unfold resolve_denied_path in Hres. rewrite Hsome in Hres. destruct (S.error res) eqn:He; [done|].
    apply bind_Ok in Hres as (? & [= <-] & (text & Htext & [= <- _])%bind_Ok).
    destruct (into_string _) eqn:Hi; [|done]. injection Htext as <-. by eapply resolved_link_free.
  - unfold resolve_granted_path in Hres. rewrite Hsome in Hres. destruct (S.error res) eqn:He; [done|].
    apply bind_Ok in Hres as (? & _ & (? & _ & (? & _ & (text & Htext & (? & _ & [= <-])%bind_Ok)%bind_Ok)%bind_Ok)%bind_Ok).
    destruct (into_string _) eqn:Hi; [|done]. injection Htext as <-. by eapply resolved_link_free.
Qed.

Lemma launch_in_place r l :
  written (policy r) -> prepare fs resolve probe access_ r = Ok l -> Forall (in_place fs) (policy_mounts (policy (launch_request l))).
Proof.
  intros Hw Hl. apply Forall_fmap, Forall_forall. intros m Hm%plan_elem_of. split; [done|]. by eapply launch_link_free.
Qed.

(** The mounts of a launch are the policy's, in place, clear of every link. *)
Lemma launch_mounts snapshot_file r l ops ms :
  written (policy r) -> prepare fs resolve probe access_ r = Ok l ->
  match for_host fs snapshot_file (policy (launch_request l)) with
  | Some resolver => resolver_mount_args fs resolver (policy_mounts (policy (launch_request l))) (launch_files l) = Ok (ops, ms)
  | None => ops = [] /\ ms = policy_mounts (policy (launch_request l))
  end ->
  ms = policy_mounts (policy (launch_request l)) /\ Forall (at_host_link fs) (sandbox_links (launch_baseline l) ops) /\
  clear_of_links (launch_baseline l) ops ms.
Proof.
  intros Hw Hl Hres. pose proof (launch_in_place r l Hw Hl) as Hplace.
  pose proof (policy_mounts_sorted _ (launch_plain fs resolve probe access_ r l fs_tidy Hw Hl)) as Hsorted.
  assert (Hops : ms = policy_mounts (policy (launch_request l)) /\ (forall path, path ∈ omap op_mount ops -> link_free fs path) /\
    (forall path, path ∈ omap op_link ops -> at_host_link fs path)).
  { destruct (for_host _ _ _) as [resolver|] eqn:Hhost.
    - by eapply (resolver_mount_args_spec fs fs_ok run_link fs_tidy).
    - destruct Hres as [-> ->]. split_and!; [done|by intros ? ?%elem_of_nil..]. }
  destruct Hops as (-> & Hmounts & Hlinks). split; [done|].
  destruct (prepare_lists fs resolve probe access_ r l Hl) as (_ & _ & Hbase).
  assert (Hall : Forall (at_host_link fs) (sandbox_links (launch_baseline l) ops)).
  { apply Forall_forall. intros place Hp. unfold sandbox_links in Hp. rewrite !elem_of_app, list_elem_of_singleton in Hp.
    destruct Hp as [Hp|[->|Hp]]; [|by apply compat_at_host_link|auto].
    apply list_elem_of_fmap in Hp as (link & -> & Hlink). by eapply baseline_at_host_link. }
  split; [done|]. intros path Hpath place Hplaces. rewrite Forall_forall in Hall. apply (link_free_clear fs); [|auto].
  apply elem_of_app in Hpath as [?|Hpath]; [auto|]. apply list_elem_of_fmap in Hpath as (m & -> & Hm).
  rewrite Forall_forall in Hplace. by destruct (Hplace m Hm) as [-> ?].
Qed.

End Sandbox.

(** ** What pins leave alone *)

(** A path is granted inside a place, on the way to [q]. *)
Definition grant_inside (p : ContainerPolicy) (place q : list string) : Prop :=
  exists path t, listed p path t /\ t <> Denied /\ UnixPath.components path `prefix_of` path_of q /\
    length place < length (from_path path).

(** The last of a plan's entries with a property that a denied path has is
    denied, or deeper. *)
Lemma last_after_denied p (P : ResolvedMount -> Prop) `{!forall m, Decision (P m)} place :
  plain place -> listed p (UnixPath.absolute place) Denied -> P (MkMount (UnixPath.absolute place) Denied) ->
  exists m, last (filter P (resolve_mount_order p)) = Some m /\ P m /\ listed p (mount_path m) (mount_intent m) /\
    (mount_intent m = Denied \/ length place < length (from_path (mount_path m))).
Proof.
  intros Hplain Hlisted HP. destruct (last (filter P (resolve_mount_order p))) as [m|] eqn:Hm; cycle 1.
  { apply last_None in Hm. assert (Hin : MkMount (UnixPath.absolute place) Denied ∈ filter P (resolve_mount_order p)).
    { apply list_elem_of_filter. split; [done|]. by apply plan_elem_of. }
    rewrite Hm in Hin. by apply elem_of_nil in Hin. }
  assert (Hin : m ∈ filter P (resolve_mount_order p)) by (by apply last_Some_elem_of).
  apply list_elem_of_filter in Hin as [HPm Hin]. exists m. split_and!; [done..|by apply plan_elem_of|].
  unfold resolve_mount_order, resolve_path_plan in Hm. rewrite last_fmap_filter in Hm.
  destruct (last (filter _ (merge_sort _ _))) as [c|] eqn:Hl; [|done]. injection Hm as <-. cbn in *.
  apply last_Some_elem_of in Hl as Hcin. apply list_elem_of_filter in Hcin as [_ Hcin].
  rewrite merge_sort_Permutation in Hcin. apply elem_of_candidates in Hcin as [Hct Hck].
  apply list_elem_of_lookup in Hlisted as [i Hi].
  assert (Hy : MkCandidate (UnixPath.absolute place) (from_path (UnixPath.absolute place)) Denied i
    ∈ merge_sort candidate_le (candidates (readwrite_paths p) (readonly_paths p) (denied_paths p)))
    by (rewrite merge_sort_Permutation; by apply elem_of_candidates).
  assert (Hrefl : Reflexive candidate_le) by (intros ?; right; lia).
  pose proof (sorted_last_filter candidate_le (fun c => P (MkMount (candidate_path c) (candidate_intent c)))
    _ _ (StronglySorted_merge_sort _ _) Hl _ Hy HP) as [Hlt|[Heq Hseq]]; cbn in *; rewrite Hck, from_path_absolute in * by done.
  - by right.
  - left. pose proof (tagged_rank _ _ _ _ _ _ _ Hi Hct Hseq) as Hr. cbn in Hr. destruct (candidate_intent c); cbn in Hr; [lia..|done].
Qed.

Section Pins.
Context `{!BwrapProxy.GatewayUrl}.
Context (fs fs' : H.Host) (resolve : string -> result string PathResolution) (probe : string -> result string unit)
  (access_ : string -> AccessMode -> result H.Errno unit) (lookup : string -> Z -> result BwrapProxy.ProxyResolveError Z)
  (read_resolv : result H.Errno string) (started : result string (string * Z)).
Context (r : ExecutionRequest) (l : Launch) (place suffix : list string).
Hypothesis fs_ok : H.host_ok fs.
Hypothesis growth : H.grows fs fs'.
Hypothesis fs_tidy : tidy fs.
Hypothesis run_link : linked_run fs.
Hypothesis prepared : prepare fs resolve probe access_ r = Ok l.
Hypothesis place_plain : plain place.
Hypothesis place_real : H.real fs' place.
Hypothesis place_denied : listed (policy (launch_request l)) (UnixPath.absolute place) Denied.
Hypothesis none_written : ~ grant_inside (policy r) place (place ++ suffix).
Hypothesis none_launched : ~ grant_inside (policy (launch_request l)) place (place ++ suffix).

(** A file is not above a place. *)
Lemma file_not_above file :
  (forall node, H.node_at fs' file = Ok node -> node = H.File) -> file `prefix_of` place ++ suffix -> place `prefix_of` file.
Proof.
  intros Hfile Hpre. assert (Hplace : place `prefix_of` place ++ suffix) by (by exists suffix).
  destruct (prefix_weak_total _ _ _ Hpre Hplace) as [[k Hk]|?]; [|done].
  destruct k as [|x k]; [rewrite app_nil_r in Hk; by rewrite Hk|]. destruct place_real as [Hdirs _].
  by specialize (Hfile _ (Hdirs file x k Hk)).
Qed.

Lemma hosts_pin_spares address proxy p :
  proxy_config_address (network_proxy (policy (launch_request l))) = Some address ->
  BwrapProxy.resolve lookup address = Ok proxy -> BwrapProxy.pin (BwrapProxy.egress proxy) = Some p ->
  (forall node, H.node_at fs' ["etc"; "hosts"] = Ok node -> node = H.File) ->
  ~ ["etc"; "hosts"] `prefix_of` place ++ suffix.
Proof.
  intros Ha Hr Hp Hfile Hpre. pose proof (file_not_above _ Hfile Hpre) as Habove.
  destruct (prepare_lists fs resolve probe access_ r l prepared) as (_ & (p1 & _ & Hfrom & _ & _ & _ & checked & Hcheck & Hrw & Hro & Hdn & Hproxy & _) & _).
  assert (Hlisted : listed (policy checked) (UnixPath.absolute place) Denied).
  { apply elem_of_tagged. rewrite Hdn. by apply elem_of_tagged in place_denied. }
  destruct (last_after_denied (policy checked) (fun m => UnixPath.starts_with BwrapProxy.SANDBOX_HOSTS_PATH (mount_path m) = true) place place_plain Hlisted)
    as (m & Hlast & Hcov & Hm & Hdeep).
  { unfold UnixPath.starts_with. apply bool_decide_eq_true. cbn [mount_path]. rewrite UnixPath.components_absolute by (by apply plain_clean).
    change (UnixPath.components BwrapProxy.SANDBOX_HOSTS_PATH) with (path_of ["etc"; "hosts"]). by apply path_of_prefix. }
  assert (Hnot : mount_intent m <> Denied).
  { intros Hi. unfold check_pin_against_denied_hosts in Hcheck. rewrite Hproxy, Ha in Hcheck.
    assert (Hmode : from_request checked (is_enabled (network_proxy (policy (launch_request l)))) = ProxyOnly).
    { unfold is_enabled. rewrite Ha. done. }
    rewrite Hmode in Hcheck. unfold check_hosts_pin_against_policy in Hcheck.
    pose proof (BwrapProxy.pin_needs_lookup lookup address proxy p Hr Hp) as Hask.
    destruct (BwrapProxy.inspect_without_resolving address) as [asked ?]. cbn in Hask. subst asked. cbn [negb orb] in Hcheck.
    unfold hosts_file_is_denied, path_is_denied, path_intent in Hcheck. rewrite Hlast in Hcheck. cbn in Hcheck. rewrite Hi in Hcheck.
    by rewrite bool_decide_eq_true_2 in Hcheck. }
  destruct Hdeep as [?|Hdeep]; [done|]. destruct none_written.
  destruct (Hfrom (mount_path m) (mount_intent m)) as (t' & Ht' & Hrank).
  { apply elem_of_tagged in Hm. apply elem_of_tagged. destruct (mount_intent m); [by rewrite <- Hrw|by rewrite <- Hro|done]. }
  exists (mount_path m), t'. split_and!; [done| | |done].
  - intros ->. destruct (mount_intent m); cbn in Hrank; [lia..|done].
  - unfold UnixPath.starts_with in Hcov. apply bool_decide_eq_true in Hcov. etransitivity; [exact Hcov|].
    change (UnixPath.components BwrapProxy.SANDBOX_HOSTS_PATH) with (path_of ["etc"; "hosts"]). by apply path_of_prefix.
Qed.

(** The resolver's pin is at a file of the host. *)
Lemma resolver_pin_file ms pin :
  pin_for_host fs read_resolv (policy (launch_request l)) ms = Some pin ->
  exists names, UnixPath.components (sandbox_mount_path (pin_destination pin)) = path_of names /\ S.linkless fs names /\
    H.node_at fs names = Ok H.File /\
    match last (filter (fun m => UnixPath.starts_with (UnixPath.absolute names) (BwrapCommand.destination m) = true) ms) with
    | Some m => intent m <> Denied
    | None => True
    end /\ plain names.
Proof.
  unfold pin_for_host, pin_from_resolver. destruct read_resolv as [contents|]; [|done]. destruct (negb _); [done|].
  destruct (resolver_target_of fs _) as [target|] eqn:Ht; [|done]. destruct (into_string target) as [text|] eqn:Hi; [|done].
  unfold resolver_target_of in Ht. apply bind_Ok in Ht as (res & Hres & Ht).
  destruct (S.resolve_through_symlinks fs _) as [res'|] eqn:Hthrough in Hres; [|done]. injection Hres as ->.
  destruct (S.error res) eqn:He; [done|]. apply bind_Ok in Ht as (node & Hnode%map_err_Ok & Ht).
  destruct (bool_decide (node = H.File)) eqn:Hfile in Ht; [|done]. apply bool_decide_eq_true in Hfile as ->. injection Ht as <-.
  destruct (resolve_plain fs fs_tidy _ _ (components_plain BwrapProxy.SANDBOX_RESOLV_CONF_PATH eq_refl) Hthrough He) as (names & Hplain & Hp).
  destruct (S.resolve_linkless fs fs_ok _ _ Hthrough He) as (names' & Hp' & Hlinkless). rewrite Hp in *. injection Hp' as Hp'.
  apply (inj (fmap UnixPath.Normal)) in Hp' as <-. apply into_string_plain in Hi as ->.
  assert (Hcomp : UnixPath.components (UnixPath.absolute names) = path_of names) by (by rewrite UnixPath.components_absolute by (by apply plain_clean)).
  rewrite (mount_path_same _ names Hcomp) by (by eapply linkless_outside_run).
  destruct (_ || _) eqn:Hden; [done|]. apply orb_false_iff in Hden as [_ Hden]. destruct (_ || _ || _); [done|]. intros [= <-]. cbn [pin_destination].
  exists names. rewrite (mount_path_same _ names Hcomp) by (by eapply linkless_outside_run). split_and!; [done..| | |done].
  - destruct names as [|x names _] using rev_ind.
    { destruct (H.root_is_dir _ fs_ok) as [s Hs]. unfold H.symlink_metadata, H.metadata, H.target_of in Hnode. cbn -[H.walk] in Hnode.
      change (path_of []) with [UnixPath.RootDir] in Hnode. rewrite H.walk_root, H.walk_eq in Hnode. cbn in Hnode. congruence. }
    unfold H.symlink_metadata, path_of in Hnode. rewrite fmap_app in Hnode. change (UnixPath.Normal <$> [x]) with [UnixPath.Normal x] in Hnode.
    rewrite app_comm_cons, last_snoc, removelast_last in Hnode. cbn -[H.walk] in Hnode. rewrite H.walk_root in Hnode.
    destruct (H.walk fs _ _ _) as [w|] eqn:Hw; [|done]. cbn in Hnode. destruct (H.enter fs w.1); [|done]. cbn in Hnode.
    destruct (walk_names fs _ _ _ Hw) as [Heq|(dir & rest & text & -> & Hlink)]; [by rewrite Heq in Hnode|].
    by destruct (Hlinkless dir (rest ++ [x]) text); [by rewrite app_assoc|].
  - destruct (last _); [|done]. by apply bool_decide_eq_false in Hden.
Qed.

Lemma resolver_pin_spares pin names :
  pin_for_host fs read_resolv (policy (launch_request l)) (policy_mounts (policy (launch_request l))) = Some pin ->
  UnixPath.components (sandbox_mount_path (pin_destination pin)) = path_of names -> ~ names `prefix_of` place ++ suffix.
Proof.
  intros Hpin Hcomp Hpre. destruct (resolver_pin_file _ pin Hpin) as (names' & Hc & _ & Hfile & Hcov & Hplain).
  assert (names' = names) as -> by (rewrite Hcomp in Hc; injection Hc as Hc; by apply (inj (fmap UnixPath.Normal)) in Hc).
  assert (Habove : place `prefix_of` names).
  { apply file_not_above; [|done]. intros node Hn. apply (H.later_Ok fs fs' growth) in Hfile. congruence. }
  assert (Habs : UnixPath.components (UnixPath.absolute names) = path_of names) by (by rewrite UnixPath.components_absolute by (by apply plain_clean)).
  destruct (last_after_denied (policy (launch_request l)) (fun m => UnixPath.starts_with (UnixPath.absolute names) (mount_path m) = true)
    place place_plain place_denied) as (m & Hlast & Hst & Hm & Hdeep).
  { unfold UnixPath.starts_with. apply bool_decide_eq_true. cbn [mount_path]. rewrite Habs, UnixPath.components_absolute by (by apply plain_clean).
    by apply path_of_prefix. }
  unfold policy_mounts in Hcov. rewrite last_fmap_filter in Hcov. cbn in Hcov. rewrite Hlast in Hcov. cbn in Hcov.
  destruct Hdeep as [?|Hdeep]; [done|]. destruct none_launched. exists (mount_path m), (mount_intent m). split_and!; [done..| |done].
  unfold UnixPath.starts_with in Hst. apply bool_decide_eq_true in Hst. rewrite Habs in Hst. etransitivity; [exact Hst|]. by apply path_of_prefix.
Qed.

(** No pin of the launch is at or above the place. *)
Lemma pins_spare pin :
  (forall node, H.node_at fs' ["etc"; "hosts"] = Ok node -> node = H.File) ->
  pin_origin fs lookup read_resolv started l (policy_mounts (policy (launch_request l))) pin ->
  ~ UnixPath.components pin.2 `prefix_of` path_of (place ++ suffix).
Proof.
  intros Hfile Horigin. destruct Horigin as [dir userns address proxy p _ Ha Hr Hp|dir userns pin _ Hpin]; cbn [snd].
  - change (UnixPath.components BwrapProxy.SANDBOX_HOSTS_PATH) with (path_of ["etc"; "hosts"]). rewrite path_of_prefix. by eapply hosts_pin_spares.
  - destruct (resolver_pin_file _ pin Hpin) as (names & Hc & _). rewrite Hc, path_of_prefix. by eapply resolver_pin_spares.
Qed.

(** Pins are at no link of the host, if [/etc/hosts] is not. *)
Lemma pin_link_free ms pin :
  S.linkless fs ["etc"; "hosts"] -> pin_origin fs lookup read_resolv started l ms pin -> link_free fs pin.2.
Proof.
  intros Hhosts [dir userns address proxy p _ _ _ _|dir userns pin' _ Hpin]; cbn [snd].
  - by exists ["etc"; "hosts"].
  - destruct (resolver_pin_file _ pin' Hpin) as (names & Hc & Hl & _). by exists names.
Qed.

End Pins.

(** The policy of a launch denies a denied place where nothing is granted inside. *)
Lemma launch_denies p place suffix :
  plain_policy p -> plain place -> listed p (UnixPath.absolute place) Denied -> ~ grant_inside p place (place ++ suffix) ->
  exists m, policy_top (policy_mounts p) (path_of (place ++ suffix)) = Some m /\ intent m = Denied.
Proof.
  intros Hplain Hpl Hlisted Hgrants. pose proof (policy_top_plan p (place ++ suffix) Hplain) as Htop. unfold resolve_mount_order in Htop.
  pose proof (last_covering_spec (readwrite_paths p) (readonly_paths p) (denied_paths p) (place ++ suffix)) as Hlast.
  assert (Hcov : from_path (UnixPath.absolute place) `prefix_of` place ++ suffix) by (rewrite from_path_absolute by done; by apply prefix_app_r).
  destruct (last_covering _ _) as [m|]; [|by destruct (Hlast _ _ Hlisted)].
  destruct Hlast as (Hin & Hc & Hmax). eexists. split; [exact Htop|]. cbn.
  destruct (decide (mount_intent m = Denied)) as [|Hne]; [done|]. destruct Hgrants. exists (mount_path m), (mount_intent m).
  split_and!; [done..| |].
  - destruct (plain_path_prefix p Hplain _ _ Hin) as [-> _]. by apply path_of_prefix.
  - destruct (Hmax _ _ Hlisted Hcov) as [Hlt|[_ Hr]]; rewrite ?from_path_absolute in * by done; unfold depth in *; [lia|].
    destruct (mount_intent m); cbn in Hr; [lia..|done].
Qed.

(** ** What is seen *)

(** Nothing of the host but [/dev/null] is seen. *)
Definition hidden (a : Access) : Prop :=
  match a with
  | Host path writable => writable = false /\ path_of ["dev"; "null"] `prefix_of` path
  | Sandboxed writable => writable = false
  | Leads _ => True
  end.

Lemma denied_top_hidden denied_files p q ops s m :
  policy_top (policy_mounts p) (path_of q) = Some m -> intent m = Denied ->
  seen denied_files (policy_mounts p) (path_of q) ops s -> hidden (access (mounts s) (path_of q)).
Proof.
  unfold seen. intros -> Hi. rewrite Hi. case_decide.
  - intros ->. split; [done|]. by apply (prefix_app_r (path_of ["dev"; "null"]) (path_of ["dev"; "null"])).
  - by intros [->|(? & ? & text & _ & -> & _)].
Qed.

(** Pins that are not above a path do not change what is seen there. *)
Lemma access_spared l pins q :
  (forall pin, pin ∈ pins -> ~ UnixPath.components pin.2 `prefix_of` q) -> access (l ++ (pin_mount <$> pins)) q = access l q.
Proof.
  intros Hpins. unfold access. rewrite top_app. assert (Hnone : top (pin_mount <$> pins) q = None); [|by rewrite Hnone].
  apply top_None. intros m (pin & -> & Hin)%list_elem_of_fmap. by apply Hpins.
Qed.

(** Every path of the host that is seen is seen in its own place, but for
    [/dev/null] and the pins. *)
Lemma seen_in_place host_has denied_files baseline resolver ms private_tmp ops pins q h w :
  clear_of_links baseline resolver ms -> (forall m, m ∈ ms -> BwrapCommand.destination m = source m) ->
  access (all_mounts host_has denied_files baseline resolver ms private_tmp ops ++ (pin_mount <$> pins)) q = Host h w ->
  h = q \/ path_of ["dev"; "null"] `prefix_of` h \/ exists pin, pin ∈ pins /\ UnixPath.components pin.1 `prefix_of` h.
Proof.
  intros Hclear Hms. destruct (setup_mounts host_has baseline resolver private_tmp ms Hclear) as (Hbase & _).
  unfold access. rewrite top_app. destruct (top (pin_mount <$> pins) q) as [m|] eqn:Hpin.
  { apply top_Some in Hpin as [(pin & -> & Hin)%list_elem_of_fmap _]. intros [= <- <-]. right; right. exists pin. split; [done|]. by eexists. }
  unfold all_mounts. rewrite top_remounts.
  set (l := foldl apply_op _ resolver ++ _ ++ _). destruct (top l q) as [[d c]|] eqn:Ht; [|done]. apply top_Some in Ht as [Hin Hcov].
  assert (Hsource : forall src w', c = HostTree src w' -> src = d \/ src = "/dev/null").
  { intros src w' ->. unfold l in Hin. rewrite !elem_of_app in Hin. destruct Hin as [Hin|[Hin|Hin]].
    - by apply Hbase in Hin as [_ ?].
    - apply list_elem_of_fmap in Hin as (m & Hm & Hin). injection Hm as -> Hm. rewrite (Hms m Hin). unfold policy_content in Hm.
      repeat case_match; try done; injection Hm as -> _; auto.
    - apply list_elem_of_omap in Hin as ([|? ? ?] & _ & Hl); done. }
  assert (Hshow : forall src w', (src = d \/ src = "/dev/null") -> Host (UnixPath.components src ++ drop (length (UnixPath.components d)) q) w' = Host h w ->
    h = q \/ path_of ["dev"; "null"] `prefix_of` h \/ exists pin, pin ∈ pins /\ UnixPath.components pin.1 `prefix_of` h).
  { intros src w' [-> | ->] [= <- _]; [left|right; left; by eexists].
    unfold covers_path in Hcov. cbn in Hcov. destruct Hcov as [k ->]. by rewrite drop_app_length. }
  cbn. destruct (existsb _ _); destruct c as [src w'| | | |]; cbn; try done; apply Hshow; by eapply Hsource.
Qed.

(** ** The theorem *)

Section Hidden.
Context `{!BwrapProxy.GatewayUrl}.
Context (fs fs' : H.Host) (resolve : string -> result string PathResolution) (probe : string -> result string unit)
  (access_ : string -> AccessMode -> result H.Errno unit) (snapshot_file : string -> result string Z)
  (lookup : string -> Z -> result BwrapProxy.ProxyResolveError Z)
  (read_hosts read_resolv : result H.Errno string) (started : result string (string * Z))
  (write : string -> string -> result string unit) (seccomp : result string Z) (pipes : result string (Z * Z)).

(** C6. A denied object is hidden, however it was named.  Take a request that
    Bubblewrap agrees to launch on a host whose [/var/run] is a link, a path of its
    deniedPaths and the place the path names on the host, then or once missing files
    and directories are made, through whatever links.  The argument vector of the
    launch, with the resolver's mounts in it and the pinned files at its end, is
    read to its end.  Without a private network no mount in it is applied through a
    link; with one neither, if no grant is named through a link and no link is on
    the way to [/etc/hosts].  If none is, then in the sandbox the place and what is
    below it shows nothing of the host, except below a path that is granted inside
    it, and no other path of the sandbox shows it either; a pinned file is never
    mounted over it.  ([/etc/hosts] is a regular file of the host, or not there.) *)
Theorem denied_object_hidden r l inherit args d place suffix host_has :
  H.host_ok fs -> H.host_ok fs' -> H.grows fs fs' -> tidy fs -> linked_run fs ->
  (forall node, H.node_at fs' ["etc"; "hosts"] = Ok node -> node = H.File) ->
  written (policy r) -> prepare fs resolve probe access_ r = Ok l ->
  spawn_args fs snapshot_file lookup read_hosts read_resolv started write seccomp pipes l inherit = Ok args ->
  listed (policy r) d Denied -> H.target_of fs' (H.lookup_components d) = Ok place ->
  ~ grant_inside (policy r) place (place ++ suffix) -> ~ grant_inside (policy (launch_request l)) place (place ++ suffix) ->
  let mode := from_request (launch_request l) (bool_decide (is_Some (proxy_config_address (network_proxy (policy (launch_request l)))))) in
  exists s,
    read_options host_has args fresh = Some s /\
    (mode = Isolated \/ launch_aliased l = [] /\ S.linkless fs ["etc"; "hosts"] -> settled (mounts s) = true) /\
    (settled (mounts s) = true ->
      hidden (access (mounts s) (path_of (place ++ suffix))) /\
      forall q w, access (mounts s) q = Host (path_of (place ++ suffix)) w ->
        path_of ["dev"; "null"] `prefix_of` path_of (place ++ suffix) \/
        exists dir userns name, started = Ok (dir, userns) /\ name ∈ ["/hosts"; "/resolv.conf"] /\
          UnixPath.components (dir +:+ name) `prefix_of` path_of (place ++ suffix)).
Proof.
  intros Hok Hok' Hg Htidy Hrun Hfile Hw Hl Hargs Hd Hk Hwritten Hlaunched mode.
  pose proof (launch_plain fs resolve probe access_ r l Htidy Hw Hl) as Hplain.
  destruct (denied_place_listed fs fs' resolve probe access_ r l d place Hok Hok' Hg Htidy Hw Hl Hd Hk) as [Hpl Hlisted].
  assert (Hreal : H.real fs' place) by (by eapply S.target_real).
  destruct (spawn_args_shape fs snapshot_file lookup read_hosts read_resolv started write seccomp pipes l inherit args Hargs)
    as (front & ops & ms & pins & proxy & fd & -> & Hfront & Hpins & Hisolated & Hres).
  destruct (launch_mounts fs resolve probe access_ Hok Htidy Hrun snapshot_file r l ops ms Hw Hl Hres) as (-> & Hat & Hclear). clear Hres Hargs.
  destruct (policy_decides host_has (policy (launch_request l)) (launch_files l) mode (launch_baseline l) ops (launch_private_tmp l)
    (launch_aliased l) (place ++ suffix) Hplain Hclear) as (links & Hlinks & Hseen).
  destruct (Hfront host_has) as (f0 & Hf0 & Hm0 & Hc0).
  destruct (read_built host_has front f0 pins (launch_request l) proxy (launch_files l) mode (Some fd) (launch_baseline l) ops
    (policy_mounts (policy (launch_request l))) (launch_private_tmp l)
    (fun mount_args => plan_args (plan_grant_links mount_args (launch_aliased l))) links Hf0 Hm0 Hc0 Hlinks) as (s & Hread & Hmounts & _).
  exists s. split; [exact Hread|]. rewrite Hmounts. set (all := all_mounts _ _ _ _ _ _ _) in *.
  assert (Hspare : forall pin, pin ∈ pins -> ~ UnixPath.components pin.2 `prefix_of` path_of (place ++ suffix)).
  { intros pin Hpin. rewrite Forall_forall in Hpins.
    exact (pins_spare fs fs' resolve probe access_ lookup read_resolv started r l place suffix Hok Hg Htidy Hrun Hl Hpl Hreal Hlisted
      Hwritten Hlaunched pin Hfile (Hpins pin Hpin)). }
  split; [intros Hcase|].
  - destruct Hcase as [Hiso|[Hnone Hhosts]].
    + rewrite (Hisolated Hiso), app_nil_r. by apply all_mounts_settled.
    + rewrite Hnone in Hlinks. assert (links = []) as -> by (by destruct links as [|[] ?]).
      apply pins_settled; [done|]. apply (Forall_impl _ _ _ Hpins). intros pin Hpin place' Hplace'. rewrite Forall_forall in Hat.
      apply (link_free_clear fs); [|auto]. by eapply pin_link_free.
  - intros _. assert (Hhidden : hidden (access (all ++ (pin_mount <$> pins)) (path_of (place ++ suffix)))).
    { rewrite access_spared by done. change (hidden (access (mounts (set_mounts all s)) (path_of (place ++ suffix)))).
      destruct (launch_denies _ place suffix Hplain Hpl Hlisted Hlaunched) as (m & Htop & Hm).
      by apply (denied_top_hidden (launch_files l) _ (place ++ suffix) links _ m Htop Hm), Hseen. }
    split; [exact Hhidden|]. intros q w Hq.
    assert (Hsame : forall m, m ∈ policy_mounts (policy (launch_request l)) -> BwrapCommand.destination m = source m)
      by (by intros m (x & -> & _)%list_elem_of_fmap).
    destruct (seen_in_place _ _ _ _ _ _ _ _ _ _ _ Hclear Hsame Hq) as [<-|[Hnull|(pin & Hpin & Hpre)]]; [|by left|right].
    + left. rewrite Hq in Hhidden. by destruct Hhidden.
    + rewrite Forall_forall in Hpins. destruct (Hpins pin Hpin) as [dir userns ? ? ? Hs _ _ _|dir userns ? Hs _]; cbn in Hpre;
        exists dir, userns; eexists; split_and!; [done| |exact Hpre|done| |exact Hpre]; set_solver.
Qed.

End Hidden.

(** ** A launch *)

(** A home directory is granted, and a key in it is denied by a path through a
    link, before the key is made.  The proxy is named, so that the hosts file is
    pinned, and the resolver's file is reached through a link into [/run]. *)
Definition run_nodes : gmap (list string) H.Node :=
  list_to_map [(["var"], H.Dir true); (["var"; "run"], H.Link "/run"); (["etc"], H.Dir true); (["etc"; "hosts"], H.File);
    (["etc"; "resolv.conf"], H.Link "../run/systemd/resolve/stub-resolv.conf"); (["run"], H.Dir true); (["run"; "systemd"], H.Dir true);
    (["run"; "systemd"; "resolve"], H.Dir true); (["run"; "systemd"; "resolve"; "stub-resolv.conf"], H.File)].

Definition home_host : H.Host := H.host_of (S.home_nodes ∪ run_nodes).
Definition home_host_later : H.Host := H.host_of (S.home_nodes_later ∪ run_nodes).

Definition home_policy (denied : string) : ContainerPolicy :=
  let p := ContainerPolicy_default in
  MkPolicy (least_privilege_mode p) (capabilities p) ["/home"] [] (enumerate_paths p) [denied]
    (network_egress p) (network_ingress p) (allowed_proxy_peer p) (MkProxyConfig (Some (ProxyAddress_new "proxy.test" 3128)))
    (network_specified p) (network_mode_specified p) (runtime_network_proxy_specified p) (ui p)
    (ui_specified p) (base_process_ui p) (capture_denials p).

Definition home_request : ExecutionRequest := with_policy nested_request (home_policy "/home/link/key").

Definition home_objects (path : string) : result string PathResolution :=
  Ok (if decide (path = "/home") then Object (1, 2)%Z else Absent).

Definition home_launch : Launch := MkLaunch (with_policy home_request (home_policy "/home/real/key")) ∅ [] [] true.

Definition text_url : BwrapProxy.GatewayUrl :=
  {| BwrapProxy.ProxyUrl := string; BwrapProxy.url_parse := Ok; BwrapProxy.url_set_host _ host := Some host; BwrapProxy.url_text url := url |}.

Lemma home_prepared :
  @prepare text_url home_host home_objects (fun _ => Ok tt) (fun _ _ => Ok tt) home_request = Ok home_launch.
Proof. vm_compute. reflexivity. Qed.

Definition home_args : result LaunchError (list string) :=
  @spawn_args text_url home_host (fun _ => Ok 5%Z) (fun _ _ => Ok 3232235777%Z) (Ok "127.0.0.1 localhost") (Err H.ENOENT)
    (Ok ("/tmp/state", 7%Z)) (fun _ _ => Ok tt) (Ok 9%Z) (Ok (11, 12)%Z) home_launch false.

Definition home_argv : list string := Eval vm_compute in match home_args with Ok args => args | Err _ => [] end.

Lemma home_args_eq : home_args = Ok home_argv.
Proof. vm_compute. reflexivity. Qed.

Definition link_texts_plain (nodes : gmap (list string) H.Node) : bool :=
  bool_decide (map_Forall (fun _ node => match node with H.Link t => lacks "\" t | _ => true end = true) nodes).

Lemma host_of_tidy nodes : link_texts_plain nodes = true -> tidy (H.host_of nodes).
Proof.
  intros Hall%bool_decide_eq_true. split; [|intros place [= <-]; constructor]. intros place text. unfold H.host_of. simpl H.node_at.
  destruct (nodes !! place) as [node|] eqn:E; [|done]. intros [= ->]. exact (Hall _ _ E).
Qed.


Lemma home_written : written (policy home_request).
Proof.
  intros path t Hin. unfold listed, tagged in Hin. cbn in Hin.
  repeat (apply elem_of_cons in Hin as [[= -> ->]|Hin]; [done|]). by apply elem_of_nil in Hin.
Qed.

Lemma home_unlinked : S.linkless home_host ["etc"; "hosts"].
Proof.
  intros dir rest text. destruct dir as [|a [|b [|c dir]]]; intros [=]; subst; vm_compute; discriminate.
Qed.

Lemma denied_object_hidden_witness :
  exists s,
    read_options (fun _ => true) home_argv fresh = Some s /\ settled (mounts s) = true /\
    hidden (access (mounts s) (path_of ["home"; "real"; "key"])).
Proof.
  destruct (@denied_object_hidden text_url home_host home_host_later home_objects (fun _ => Ok tt) (fun _ _ => Ok tt)
    (fun _ => Ok 5%Z) (fun _ _ => Ok 3232235777%Z) (Ok "127.0.0.1 localhost") (Err H.ENOENT)
    (Ok ("/tmp/state", 7%Z)) (fun _ _ => Ok tt) (Ok 9%Z) (Ok (11, 12)%Z)
    home_request home_launch false home_argv "/home/link/key" ["home"; "real"; "key"] [] (fun _ => true))
    as (s & Hread & Hsettled & Hseen);
    [apply H.host_of_ok; vm_compute; reflexivity|apply H.host_of_ok; vm_compute; reflexivity
    |apply H.host_of_grows; vm_compute; reflexivity|apply host_of_tidy; vm_compute; reflexivity
    |exists "/run"; vm_compute; reflexivity|intros node; vm_compute; congruence
    |exact home_written|exact home_prepared|exact home_args_eq|apply elem_of_tagged; left|vm_compute; reflexivity| | |].
  1,2: intros (path & t & Hin & Hne & _ & Hdeep); unfold listed, tagged in Hin; cbn in Hin;
    apply elem_of_cons in Hin as [[= -> ->]|Hin]; [vm_compute in Hdeep; lia|];
    apply elem_of_cons in Hin as [[= -> ->]|Hin]; [done|]; by apply elem_of_nil in Hin.
  exists s. assert (Hs : settled (mounts s) = true) by (apply Hsettled; right; split; [done|exact home_unlinked]).
  split_and!; [exact Hread|exact Hs|]. by apply Hseen.
Defined.

End BwrapLaunch.
