(* ===== verification/WireRequest.v ===== *)
(** * The wire form of a request

    The sections of a configuration other than the network one
    ([core/mxc_common/wire.rs]), and the intermediate request the contract
    adapters assemble from them ([common_request_ir.rs]).  The names are those of
    the source, inside a module because the request model ([Models], [Requests])
    has the same ones. *)

From S2P Require Import Prelude Wire Models Requests.

Module WireRequest.

Inductive Phase : Type := Provision | Start | Exec | Stop | Deprovision.

Record Process : Type := MkProcess {
  command_line : option string;
  cwd : option string;
  process_env : option (list string);
  inherit_default_env : option bool;
  timeout : option Z;
}.

Record Lifecycle : Type := MkLifecycle {
  destroy_on_exit : option bool;
  preserve_policy : option bool;
}.

Inductive CaptureDenialsMode : Type := Block | Allow.

Record CaptureDenials : Type := MkCaptureDenials {
  mode : option CaptureDenialsMode;
  output_path : option string;
  retain_etl : option bool;
}.

Inductive UiIsolation : Type := Desktop | Handles | Atoms | Container.

Definition UiIsolation_as_str (i : UiIsolation) : string :=
  match i with Desktop => "desktop" | Handles => "handles" | Atoms => "atoms" | Container => "container" end.

Inductive UiSystemSettings : Type := SettingsNone | Parameters | Display | SettingsAll.

Definition UiSystemSettings_as_str (s : UiSystemSettings) : string :=
  match s with
  | SettingsNone => "none" | Parameters => "parameters" | Display => "display" | SettingsAll => "all"
  end.

Record BaseProcessUi : Type := MkBaseProcessUi {
  isolation : option UiIsolation;
  desktop_system_control : option bool;
  system_settings : option UiSystemSettings;
  ime : option bool;
}.

Record ProcessContainerFilesystem : Type := MkPcFilesystem { enumerate_paths : option (list string) }.

Record ProcessContainer : Type := MkProcessContainer {
  least_privilege : option bool;
  learning_mode : option bool;
  capabilities : option (list string);
  capture_denials : option CaptureDenials;
  pc_ui : option BaseProcessUi;
  pc_filesystem : option ProcessContainerFilesystem;
  pc_network : option Wire.ProcessContainerNetwork;
}.

Record Lxc : Type := MkLxc { distribution : option string; release : option string }.

Record Filesystem : Type := MkFilesystem {
  readwrite_paths : option (list string);
  readonly_paths : option (list string);
  denied_paths : option (list string);
}.

Inductive ClipboardPolicy : Type := ClipNone | ClipRead | ClipWrite | ClipAll.

Record Ui : Type := MkUi {
  disable : option bool;
  clipboard : option ClipboardPolicy;
  injection : option bool;
}.

Record Seatbelt : Type := MkSeatbelt {
  profile_override : option string;
  gui_access : option bool;
  nested_pty : option bool;
  keychain_access : option bool;
  extra_mach_lookups : option (list string);
}.

Record Telemetry : Type := MkTelemetry { enabled : option bool }.
Record TestFeature : Type := MkTestFeature { message : option string }.

Record WindowsSandbox : Type := MkWindowsSandbox {
  idle_timeout_ms : option Z;
  idle_timeout : option Z;
  daemon_pipe_name : option string;
}.

Record Hyperlight : Type := MkHyperlight { runtime : option HyperlightRuntime }.

Record MicroVm : Type := MkMicroVm { microvm_image : string; memory_mib : option Z }.

(** The protocol of a mapping has one value, and nothing reads it. *)
Record PortMapping : Type := MkPortMapping { windows_port : Z; container_port : Z }.

(** Without [provision], which nothing fills. *)
Record Wslc : Type := MkWslc {
  target_os : option string;
  image : option string;
  image_tar_path : option string;
  cpu_count : option Z;
  memory_mb : option Z;
  gpu : option bool;
  storage_path : option string;
  port_mappings : option (list PortMapping);
}.

(** Without [schema] and [comment], which are ignored. *)
Record CommonRequestIR : Type := MkIR {
  source_contract : ContractVersion;
  phase : option Phase;
  sandbox_id : option string;
  container_id : option string;
  containment : option Wire.Containment;
  process : option Process;
  lifecycle : option Lifecycle;
  process_container : option ProcessContainer;
  lxc : option Lxc;
  wslc : option Wslc;
  filesystem : option Filesystem;
  network : option Wire.Network;
  runtime_config : option Wire.RuntimeConfig;
  ui : option Ui;
  seatbelt : option Seatbelt;
  telemetry : option Telemetry;
  test_feature : option TestFeature;
  windows_sandbox : option WindowsSandbox;
  hyperlight : option Hyperlight;
  microvm : option MicroVm;
}.

(** A request that says nothing, under a contract. *)
Definition empty_ir (v : ContractVersion) : CommonRequestIR :=
  MkIR v None None None None None None None None None None None None None None None None None None None.

End WireRequest.
