(* ===== verification/Validator.v ===== *)
(** * Shared validation

    [core/mxc_common/validator.rs]: the checks of a request that do not belong
    to a backend.  A backend declares the network features it enforces as a set
    of bits; port mappings are checked before the WSL container backend applies
    them. *)

From Stdlib Require Import Ascii.
From S2P Require Import Prelude Models Requests.

Module Validator.

(** ** Network features *)

(** A set of features, the bits of a [u8]. *)
Definition NetworkPolicySupport : Type := Z.

Definition EGRESS_DEFAULT : NetworkPolicySupport := Z.shiftl 1 4.
Definition EGRESS_RULES : NetworkPolicySupport := Z.shiftl 1 0.
Definition INGRESS_DEFAULT : NetworkPolicySupport := Z.shiftl 1 1.
Definition HOST_LOOPBACK : NetworkPolicySupport := Z.shiftl 1 2.
Definition RUNTIME_PROXY : NetworkPolicySupport := Z.shiftl 1 3.
Definition PROXY_PEER_IDENTITY : NetworkPolicySupport := Z.shiftl 1 5.

Definition contains (self required : NetworkPolicySupport) : bool := Z.land self required =? required.

(** [BitOr]. *)
Definition support_or (a b : NetworkPolicySupport) : NetworkPolicySupport := Z.lor a b.

Definition ALL : NetworkPolicySupport :=
  foldr support_or 0 [EGRESS_DEFAULT; EGRESS_RULES; INGRESS_DEFAULT; HOST_LOOPBACK; RUNTIME_PROXY; PROXY_PEER_IDENTITY].

Definition directional_posture_supplied (p : ContainerPolicy) : bool :=
  network_mode_specified p || (bool_decide (is_Some (network_egress p)) && is_enabled (network_proxy p)).

Definition validate_network_policy_support (r : ExecutionRequest) (support : NetworkPolicySupport)
    : result ScriptResponse unit :=
  let p := policy r in
  let directional := directional_posture_supplied p in
  if negb (contains support EGRESS_DEFAULT)
     && is_some_and (fun egress => directional || bool_decide (egress_default egress = Allow)) (network_egress p) then
    Err (rejected "network.egress.default is not supported by the selected backend")
  else if negb (contains support EGRESS_RULES)
     && is_some_and (fun egress => negb (is_empty (allow egress)) || negb (is_empty (deny egress))) (network_egress p) then
    Err (rejected "network.egress allow/deny rules are not supported by the selected backend")
  else if negb (contains support INGRESS_DEFAULT)
     && is_some_and (fun ingress => directional || bool_decide (ingress_default ingress = Allow)) (network_ingress p) then
    Err (rejected "network.ingress.default is not supported by the selected backend")
  else if negb (contains support HOST_LOOPBACK)
     && is_some_and (fun ingress => directional || bool_decide (host_loopback ingress = Allow)) (network_ingress p) then
    Err (rejected "network.ingress.hostLoopback is not supported by the selected backend")
  else if negb (contains support PROXY_PEER_IDENTITY) && bool_decide (is_Some (allowed_proxy_peer p)) then
    Err (rejected "processContainer.network.allowedProxyPeer is not supported by the selected backend")
  else if negb (contains support RUNTIME_PROXY) && runtime_network_proxy_specified p then
    Err (rejected "runtimeConfig.networkProxy is not supported by the selected backend")
  else Ok tt.

(** The error as its code and message. *)
Definition validate_state_aware_network_policy_support (r : ExecutionRequest) (support : NetworkPolicySupport)
    : result (MxcErrorCode * string) unit :=
  map_err (fun response => (PolicyValidation, error_message response)) (validate_network_policy_support r support).

(** ** The request *)

Definition validate_common (r : ExecutionRequest) : result ScriptResponse unit :=
  if bool_decide (script_code r = "") then Err (response_error "Script content must not be empty.")
  else if negb (is_empty (enumerate_paths (policy r))) && negb (bool_decide (containment r = ProcessContainer)) then
    Err (response_error ("processContainer.filesystem.enumeratePaths is supported only by the Windows " +:+
                         "ProcessContainer backend"))
  else Ok tt.

Definition validate_exec_common (r : ExecutionRequest) : result (MxcErrorCode * string) unit :=
  if bool_decide (script_code r = "") then
    Err (MalformedRequest, "exec phase requires a non-empty process.commandLine")
  else Ok tt.

(** ** Port mappings *)

Definition check_port (at_ name : string) (port : Z) : result WxcError unit :=
  fail_if (port =? 0) (ConfigParse (at_ +:+ ": '" +:+ name +:+ "' must be > 0")).

Definition check_mapping (field_path : string) (index : nat) (mapping : PortMapping) : result WxcError unit :=
  let at_ := field_path +:+ "[" +:+ dec (Z.of_nat index) +:+ "]" in
  _ ← check_port at_ "windowsPort" (windows_port mapping);
  _ ← check_port at_ "containerPort" (container_port mapping);
  fail_if (negb (bool_decide (mapping_protocol mapping = "tcp")))
    (ConfigParse (at_ +:+ ": 'protocol' must be 'tcp', got '" +:+ mapping_protocol mapping +:+ "'")).

(** One mapping of the second loop, over the keys seen. *)
Definition insert_seen (field_path : string) (mapping : PortMapping) (seen : list (Z * string))
    : result WxcError (list (Z * string)) :=
  let key := (windows_port mapping, mapping_protocol mapping) in
  if decide (key ∈ seen) then
    Err (ConfigParse (field_path +:+ ": duplicate windowsPort " +:+ dec (windows_port mapping)
                        +:+ " for protocol '" +:+ mapping_protocol mapping +:+ "'"))
  else Ok (key :: seen).

Definition validate_port_mappings (field_path : string) (mappings : list PortMapping) : result WxcError unit :=
  _ ← foldM (fun '(index, mapping) _ => check_mapping field_path index mapping) (enumerate mappings) tt;
  _ ← foldM (insert_seen field_path) mappings [];
  Ok tt.

(** ** What is accepted *)

(** A feature the request relies on. *)
Inductive uses (p : ContainerPolicy) : NetworkPolicySupport -> Prop :=
| uses_egress e : network_egress p = Some e -> directional_posture_supplied p = true \/ egress_default e = Allow ->
    uses p EGRESS_DEFAULT
| uses_rules e : network_egress p = Some e -> allow e <> [] \/ deny e <> [] -> uses p EGRESS_RULES
| uses_ingress i : network_ingress p = Some i -> directional_posture_supplied p = true \/ ingress_default i = Allow ->
    uses p INGRESS_DEFAULT
| uses_loopback i : network_ingress p = Some i -> directional_posture_supplied p = true \/ host_loopback i = Allow ->
    uses p HOST_LOOPBACK
| uses_peer x : allowed_proxy_peer p = Some x -> uses p PROXY_PEER_IDENTITY
| uses_proxy : runtime_network_proxy_specified p = true -> uses p RUNTIME_PROXY.

Lemma guard_absent {A} (b : bool) (f : A -> bool) o :
  negb b && is_some_and f o = false <-> (forall a, o = Some a -> f a = true -> b = true).
Proof. destruct b, o as [a|]; cbn; split; try done; try naive_solver. destruct (f a) eqn:E; naive_solver. Qed.

(** A request passes exactly when the backend supports every feature it uses. *)
Lemma network_support_decided r support :
  validate_network_policy_support r support = Ok tt <->
  forall f, uses (policy r) f -> contains support f = true.
Proof.
  unfold validate_network_policy_support. set (p := policy r).
  assert (Hor : forall (a : bool) (P : Prop) `{!Decision P}, a || bool_decide P = true <-> a = true \/ P)
    by (intros a P ?; by rewrite orb_true_iff, bool_decide_eq_true).
  assert (Hne : forall {A B} (l : list A) (k : list B), negb (is_empty l) || negb (is_empty k) = true <-> l <> [] \/ k <> [])
    by (intros A B [] []; cbn; naive_solver).
  repeat match goal with
  | |- (if ?b then _ else _) = _ <-> _ => destruct b eqn:?
  end.
  all: repeat match goal with
  | H : negb _ && is_some_and _ _ = false |- _ => rewrite guard_absent in H; try setoid_rewrite Hor in H; try setoid_rewrite Hne in H
  end.
  7: {
    split; [|done]. intros _ f Hf. destruct Hf as [e|e|i|i|x Hx|Hx]; [eauto..| |].
    - destruct (contains support PROXY_PEER_IDENTITY); [done|]. rewrite Hx in *. done.
    - destruct (contains support RUNTIME_PROXY); [done|]. rewrite Hx in *. done. }
  all: split; [done|]; intros H; exfalso.
  - destruct (network_egress p) as [e|] eqn:E; [|by rewrite andb_false_r in *]. cbn in *. rewrite andb_true_iff, Hor in *.
    rewrite (H EGRESS_DEFAULT) in * by (econstructor; naive_solver). naive_solver.
  - destruct (network_egress p) as [e|] eqn:E; [|by rewrite andb_false_r in *]. cbn in *. rewrite andb_true_iff, Hne in *.
    rewrite (H EGRESS_RULES) in * by (econstructor; naive_solver). naive_solver.
  - destruct (network_ingress p) as [e|] eqn:E; [|by rewrite andb_false_r in *]. cbn in *. rewrite andb_true_iff, Hor in *.
    rewrite (H INGRESS_DEFAULT) in * by (econstructor; naive_solver). naive_solver.
  - destruct (network_ingress p) as [e|] eqn:E; [|by rewrite andb_false_r in *]. cbn in *. rewrite andb_true_iff, Hor in *.
    rewrite (H HOST_LOOPBACK) in * by (econstructor; naive_solver). naive_solver.
  - destruct (allowed_proxy_peer p) as [e|] eqn:E; [|by rewrite andb_false_r in *].
    rewrite (H PROXY_PEER_IDENTITY) in * by (by econstructor). done.
  - destruct (runtime_network_proxy_specified p) eqn:E; [|by rewrite andb_false_r in *].
    rewrite (H RUNTIME_PROXY) in * by (by econstructor). done.
Qed.

Definition mapping_ok (m : PortMapping) : Prop :=
  windows_port m <> 0 /\ container_port m <> 0 /\ mapping_protocol m = "tcp".

Lemma check_mapping_ok field_path i m : check_mapping field_path i m = Ok tt <-> mapping_ok m.
Proof.
  unfold check_mapping, check_port, mapping_ok. rewrite bind_Ok. split.
  - intros ([] & ?%fail_if_Ok & ([] & ?%fail_if_Ok & H%fail_if_Ok)%bind_Ok).
    apply negb_false_iff, bool_decide_eq_true in H. split_and!; [lia|lia|done].
  - intros (H1 & H2 & H3). exists tt. split; [apply fail_if_Ok; lia|]. apply bind_Ok. exists tt.
    split; apply fail_if_Ok; [lia|]. by rewrite bool_decide_eq_true_2.
Qed.

Lemma foldM_unit {E A} (f : A -> result E unit) l :
  foldM (fun a _ => f a) l tt = Ok tt <-> Forall (fun a => f a = Ok tt) l.
Proof.
  induction l as [|a l IH]; cbn; [split; [constructor|done]|]. rewrite Forall_cons, <- IH, bind_Ok.
  split; [intros ([] & ? & ?)|intros [? ?]]; eauto.
Qed.

Lemma insert_seen_spec field_path m seen seen' :
  insert_seen field_path m seen = Ok seen' <->
  seen' = (windows_port m, mapping_protocol m) :: seen /\ (windows_port m, mapping_protocol m) ∉ seen.
Proof. unfold insert_seen. cbv zeta. case_decide; split; try naive_solver. Qed.

Lemma seen_ok field_path l seen :
  (exists seen', foldM (insert_seen field_path) l seen = Ok seen') <->
  NoDup ((fun m => (windows_port m, mapping_protocol m)) <$> l) /\
  (forall m, m ∈ l -> (windows_port m, mapping_protocol m) ∉ seen).
Proof.
  revert seen. induction l as [|m l IH]; intros seen; cbn.
  - split; [intros _; split; [constructor|set_solver]|by eexists].
  - setoid_rewrite bind_Ok. rewrite NoDup_cons, list_elem_of_fmap. split.
    + intros (u & s' & (-> & Hin)%insert_seen_spec & Hu). destruct (proj1 (IH _) (ex_intro _ u Hu)) as [Hn Hs].
      split_and!; [|done|].
      * intros (x & Hx & Hl). apply (Hs x Hl). rewrite <- Hx. left.
      * intros x [->|Hl]%elem_of_cons; [done|]. intros Hx. apply (Hs x Hl). by right.
    + intros [[Hm Hn] Hs]. destruct (proj2 (IH ((windows_port m, mapping_protocol m) :: seen))) as [u Hu].
      * split; [done|]. intros x Hl [Hx|Hx]%elem_of_cons; [apply Hm; by exists x|]. by apply (Hs x ltac:(by right)).
      * exists u, ((windows_port m, mapping_protocol m) :: seen). split; [|done]. apply insert_seen_spec.
        split; [done|]. apply Hs. left.
Qed.

(** Accepted mappings have positive ports, are TCP, and no host port twice. *)
Lemma port_mappings_decided field_path l :
  validate_port_mappings field_path l = Ok tt <-> Forall mapping_ok l /\ NoDup (windows_port <$> l).
Proof.
  unfold validate_port_mappings. rewrite bind_Ok.
  assert (Hc : foldM (fun '(index, mapping) (_ : unit) => check_mapping field_path index mapping) (enumerate l) tt = Ok tt
    <-> Forall mapping_ok l).
  { rewrite (foldM_ext _ (fun e _ => check_mapping field_path e.1 e.2)) by (by intros []).
    rewrite foldM_unit. rewrite <- (snd_enumerate l) at 2. rewrite Forall_fmap. apply Forall_proper; [|done].
    intros [i m]. apply check_mapping_ok. }
  assert (Hs : Forall mapping_ok l -> (exists u, foldM (insert_seen field_path) l [] = Ok u) <-> NoDup (windows_port <$> l)).
  { intros Hok. rewrite seen_ok.
    assert (((fun m => (windows_port m, mapping_protocol m)) <$> l) = (fun p => (p, "tcp")) <$> (windows_port <$> l)) as ->.
    { rewrite <- list_fmap_compose. apply list_fmap_ext. intros i m Hm. cbn.
      apply Forall_lookup with (1 := Hok) in Hm. by destruct Hm as (_ & _ & ->). }
    split; [intros [H _]|intros H; split; [|set_solver]].
    - by apply NoDup_fmap_1 in H.
    - apply NoDup_fmap_2; [|done]. by intros ? ? [= ->]. }
  split.
  - intros ([] & H1%Hc & (u & H2 & _)%bind_Ok). split; [done|]. apply Hs; eauto.
  - intros [H1 H2]. exists tt. split; [by apply Hc|]. apply Hs in H2 as [u H2]; [|done]. by rewrite H2.
Qed.

End Validator.
