(* ===== verification/ConfigParser.v ===== *)
(** * From the wire form to a request

    [core/mxc_common/config_parser.rs]: [normalize_common_request_ir] turns the
    intermediate request of the contract adapters into the [ExecutionRequest]
    the backends run.  The checks come in the order of the source, the first one
    that fails deciding the error.  The probe of a path, the escaping of text in
    diagnostics and the [url] and [cidr] crates are parameters; [HostPaths] is
    what the check of one output path uses of [std::path] and of the host. *)

From Stdlib Require Import Ascii.
From stdpp Require Import gmap.
From S2P Require Import Prelude NetText Wire Models Requests NetworkBlocks ProxyEnv Crates NetworkParser UnixPath FsPolicy WireRequest Validator.

Module ConfigParser.

Module W := WireRequest.
Export FsPolicy.

(** ** Backend sections *)

Definition present_backend_sections (cfg : W.CommonRequestIR) : list string :=
  omap (fun '(present, backend) => if (present : bool) then section_path backend else None)
    [(bool_decide (is_Some (W.process_container cfg)), ProcessContainer);
     (bool_decide (is_Some (W.lxc cfg)), Lxc);
     (bool_decide (is_Some (W.wslc cfg)), Wslc);
     (bool_decide (is_Some (W.seatbelt cfg)), Seatbelt);
     (bool_decide (is_Some (W.windows_sandbox cfg)), WindowsSandbox);
     (bool_decide (is_Some (W.hyperlight cfg)), Hyperlight)].

Definition validate_single_backend_section (containment : ContainmentBackend) (present_sections : list string)
    : result WxcError unit :=
  let allowed_section := section_path containment in
  let extras := List.filter (fun section => negb (bool_decide (Some section = allowed_section))) present_sections in
  if is_empty extras then Ok tt
  else Err (ConfigParse
    match allowed_section with
    | Some name =>
        "Multiple containment backends configured: 'containment' is '" +:+ wire_name containment
        +:+ "' (allows the '" +:+ name +:+ "' section), but the config also includes unrelated backend section(s): "
        +:+ string_join ", " extras +:+ ". Only one backend section is allowed; remove the unused section(s)."
    | None =>
        "Multiple containment backends configured: 'containment' is '" +:+ wire_name containment
        +:+ "' (no per-backend section is defined for this backend), but the config includes backend section(s): "
        +:+ string_join ", " extras +:+ ". Only one backend section is allowed; remove the unused section(s)."
    end).

Definition make_seatbelt_config (sb : W.Seatbelt) : SeatbeltConfig :=
  MkSeatbelt (W.profile_override sb) (default false (W.gui_access sb)) (default true (W.nested_pty sb))
    (default false (W.keychain_access sb)) (default [] (W.extra_mach_lookups sb)).

Definition map_wire_containment (os : HostOs) (c : option Wire.Containment) : ContainmentBackend :=
  resolve_containment os (default Wire.Process c).

Definition requested_kind (c : option Wire.Containment) : string :=
  match c with
  | None | Some Wire.Process => "process"
  | Some Wire.ProcessContainer => "processcontainer"
  | Some Wire.Vm => "vm"
  | Some Wire.WindowsSandbox => "windows_sandbox"
  | Some Wire.Lxc => "lxc"
  | Some Wire.Microvm => "microvm"
  | Some Wire.Hyperlight => "hyperlight"
  | Some Wire.Wslc => "wslc"
  | Some Wire.Seatbelt => "seatbelt"
  | Some Wire.IsolationSession => "isolation_session"
  | Some Wire.Bubblewrap => "bubblewrap"
  end.

Definition make_wslc_config (cc : W.Wslc) : result WxcError WslcConfig :=
  let converted := (fun m => MkPortMapping (W.windows_port m) (W.container_port m) "tcp") <$> default [] (W.port_mappings cc) in
  _ ← (if bool_decide (is_Some (W.port_mappings cc))
       then Validator.validate_port_mappings "wslc.portMappings" converted else Ok tt);
  Ok (MkWslc (default (target_os WslcConfig_default) (W.target_os cc))
        (default (wslc_image WslcConfig_default) (W.image cc)) (W.image_tar_path cc) (W.cpu_count cc)
        (W.memory_mb cc) (default (gpu WslcConfig_default) (W.gpu cc)) (W.storage_path cc) converted).

Definition make_windows_sandbox (sandbox : W.WindowsSandbox) : WindowsSandboxConfig :=
  MkWindowsSandbox
    (default (idle_timeout_ms WindowsSandboxConfig_default)
       match W.idle_timeout_ms sandbox with Some ms => Some ms | None => W.idle_timeout sandbox end)
    (default (daemon_pipe_name WindowsSandboxConfig_default) (W.daemon_pipe_name sandbox)).

(** ** The process section *)

Record ProcessFields : Type := MkFields {
  field_script_code : string;
  field_working_directory : string;
  field_timeout : Z;
  field_env : option (list string);
  field_inherit : bool;
}.

Definition process_fields (process : option W.Process) (require_process : bool) : result WxcError ProcessFields :=
  match process with
  | Some p =>
      script_code ←
        match W.command_line p with
        | Some s =>
            if negb (bool_decide (s = "")) then Ok s
            else if require_process then Err (ConfigParse "process.commandLine cannot be empty") else Ok ""
        | None =>
            if require_process then Err (ConfigParse "Missing required field: process.commandLine") else Ok ""
        end;
      _ ← fail_if (string_any (fun c => bool_decide (c = "000"%char)) script_code)
            (ConfigParse "process.commandLine must not contain null bytes");
      Ok (MkFields script_code (default "" (W.cwd p)) (default 0 (W.timeout p)) (W.process_env p)
            (default false (W.inherit_default_env p)))
  | None =>
      if require_process then Err (ConfigParse "'process' section is required")
      else Ok (MkFields "" "" 0 None false)
  end.

(** ** Capabilities of the process container *)

Definition reserved_capability (c : string) : bool :=
  eq_ignore_ascii_case c "learningModeLogging" || eq_ignore_ascii_case c "permissiveLearningMode".

Definition check_capabilities (caps : list string) : result WxcError unit :=
  match List.find (string_any (fun c => bool_decide (c = ","%char))) caps with
  | Some invalid =>
      Err (ConfigParse ("processContainer.capabilities entry '" +:+ invalid +:+ "' must not contain a comma; "
                          +:+ "provide multiple capabilities as separate JSON array entries"))
  | None =>
      match List.find reserved_capability caps with
      | Some reserved =>
          Err (ConfigParse ("processContainer.capabilities must not include reserved learning-mode capability '"
                 +:+ reserved +:+ "'; use processContainer.learningMode for deny-and-record mode or --audit for permissive mode"))
      | None => Ok tt
      end
  end.

Definition convert_capture_mode (mode : option W.CaptureDenialsMode) : CaptureDenialsMode :=
  match mode with Some W.Allow => AllowAccess | Some W.Block | None => Block end.

(** The capability of a capture mode, and the one it replaces. *)
Definition capture_capability (mode : CaptureDenialsMode) : string :=
  match mode with Block => "learningModeLogging" | AllowAccess => "permissiveLearningMode" end.
Definition replaced_capability (mode : CaptureDenialsMode) : string :=
  match mode with Block => "permissiveLearningMode" | AllowAccess => "learningModeLogging" end.

Definition capture_capabilities (mode : CaptureDenialsMode) (caps : list string) : list string :=
  let kept := List.filter (fun c => negb (eq_ignore_ascii_case c (replaced_capability mode))) caps in
  if existsb (fun c => eq_ignore_ascii_case c (capture_capability mode)) kept then kept
  else kept ++ [capture_capability mode].

(** What [std::path] and the host say of a path. *)
Class HostPaths : Type := {
  is_absolute : string -> bool;
  parent : string -> option string;
  is_directory : string -> bool;
}.

Definition OUTPUT_PATH : string := "processContainer.captureDenials.outputPath ".

Definition validate_capture_denials_output_path `{HostPaths} (path : string) : result WxcError unit :=
  if negb (is_absolute path) then
    Err (ConfigParse (OUTPUT_PATH +:+ "must be an absolute path: '" +:+ path +:+ "'"))
  else match parent path with
  | None => Err (ConfigParse (OUTPUT_PATH +:+ "must name a file, not a directory root: '" +:+ path +:+ "'"))
  | Some parent =>
      if bool_decide (parent = "") then
        Err (ConfigParse (OUTPUT_PATH +:+ "must name a file, not a directory root: '" +:+ path +:+ "'"))
      else if negb (is_directory parent) then
        Err (ConfigParse (OUTPUT_PATH +:+ "parent directory does not exist: '" +:+ parent +:+ "'"))
      else if is_directory path then
        Err (ConfigParse (OUTPUT_PATH +:+ "must name a file, not an existing directory: '" +:+ path +:+ "'"))
      else Ok tt
  end.

Definition convert_base_ui (raw : option W.BaseProcessUi) : BaseProcessUiConfig :=
  match raw with
  | Some raw_ui =>
      MkBaseUi (default "container" (W.UiIsolation_as_str <$> W.isolation raw_ui))
        (default false (W.desktop_system_control raw_ui))
        (default "none" (W.UiSystemSettings_as_str <$> W.system_settings raw_ui))
        (default false (W.ime raw_ui))
  | None => BaseProcessUiConfig_default
  end.

(** The policy after the processContainer section. *)
Definition process_container_policy `{HostPaths} (section : option W.ProcessContainer) : result WxcError ContainerPolicy :=
  match section with
  | None => Ok ContainerPolicy_default
  | Some ac =>
      let learning := if default false (W.learning_mode ac) then ["learningModeLogging"] else [] in
      _ ← match W.capabilities ac with Some caps => check_capabilities caps | None => Ok tt end;
      let caps := learning ++ default [] (W.capabilities ac) in
      '(caps, capture) ←
        match W.capture_denials ac with
        | Some cd =>
            _ ← match W.output_path cd with
                | Some path => validate_capture_denials_output_path path
                | None => Ok tt
                end;
            let mode := convert_capture_mode (W.mode cd) in
            Ok (capture_capabilities mode caps,
                Some (MkCapture mode (W.output_path cd) (default false (W.retain_etl cd))))
        | None => Ok (caps, None)
        end;
      let d := ContainerPolicy_default in
      Ok (MkPolicy (default (least_privilege_mode d) (W.least_privilege ac)) caps (readwrite_paths d) (readonly_paths d)
            (default [] (W.pc_filesystem ac ≫= W.enumerate_paths)) (denied_paths d)
            (network_egress d) (network_ingress d) (allowed_proxy_peer d) (network_proxy d) (network_specified d)
            (network_mode_specified d) (runtime_network_proxy_specified d) (ui d) (ui_specified d)
            (convert_base_ui (W.pc_ui ac)) capture)
  end.

(** ** Filesystem and user interface *)

Definition with_filesystem (p : ContainerPolicy) (section : option W.Filesystem) : ContainerPolicy :=
  match section with
  | Some fs =>
      set_paths p (default (readwrite_paths p) (W.readwrite_paths fs)) (default (readonly_paths p) (W.readonly_paths fs))
        (default (denied_paths p) (W.denied_paths fs))
  | None => p
  end.

Definition convert_clipboard (c : W.ClipboardPolicy) : ClipboardPolicy :=
  match c with
  | W.ClipNone => ClipNone | W.ClipRead => ClipRead | W.ClipWrite => ClipWrite | W.ClipAll => ClipAll
  end.

Definition with_ui (p : ContainerPolicy) (section : option W.Ui) : ContainerPolicy :=
  MkPolicy (least_privilege_mode p) (capabilities p) (readwrite_paths p) (readonly_paths p) (enumerate_paths p)
    (denied_paths p) (network_egress p) (network_ingress p) (allowed_proxy_peer p) (network_proxy p)
    (network_specified p) (network_mode_specified p) (runtime_network_proxy_specified p)
    match section with
    | Some raw_ui =>
        MkUi (default true (W.disable raw_ui)) (default ClipNone (convert_clipboard <$> W.clipboard raw_ui))
          (default false (W.injection raw_ui))
    | None => ui p
    end
    (bool_decide (is_Some section)) (base_process_ui p) (capture_denials p).

(** ** The request *)

Section Normalize.
Context `{CC : CidrCrate} `{UC : UrlCrate} `{HP : HostPaths}.
Context (os : HostOs) (escape_diagnostic_text : string -> string) (path_missing : string -> result string bool).

(** The policy of a request, section by section. *)
Definition normalize_policy (cfg : W.CommonRequestIR) (containment : ContainmentBackend) : result WxcError ContainerPolicy :=
  p ← process_container_policy (W.process_container cfg);
  let p := with_filesystem p (W.filesystem cfg) in
  _ ← validate_filesystem_paths escape_diagnostic_text p;
  p ← normalize_filesystem_paths_with path_missing p;
  Parser.parse_network_policy p
    (Parser.MkSections (W.network cfg) (W.runtime_config cfg) (W.process_container cfg ≫= W.pc_network)) containment.

Definition normalize_common_request_ir (cfg : W.CommonRequestIR) (require_process : bool)
    : result WxcError ExecutionRequest :=
  let microvm_memory_mib := W.microvm cfg ≫= W.memory_mib in
  _ ← validate_memory_mib microvm_memory_mib;
  _ ← fail_if (bool_decide (is_Some (W.phase cfg)))
        (ConfigParse "'phase' is only valid on state-aware lifecycle requests");
  _ ← fail_if (bool_decide (is_Some (W.sandbox_id cfg)))
        (ConfigParse "'sandboxId' is only valid on state-aware lifecycle requests");
  fields ← process_fields (W.process cfg) require_process;
  let containment := map_wire_containment os (W.containment cfg) in
  _ ← validate_single_backend_section containment (present_backend_sections cfg);
  p ← normalize_policy cfg containment;
  wslc ← map_transpose make_wslc_config (W.wslc cfg);
  Ok (MkRequest (Some (W.source_contract cfg)) (default "" (W.container_id cfg)) (field_env fields)
        (field_inherit fields) (field_script_code fields) (field_working_directory fields) (field_timeout fields)
        containment
        match W.lifecycle cfg with
        | Some lc => MkLifecycle (default true (W.destroy_on_exit lc)) (default false (W.preserve_policy lc))
        | None => MkLifecycle true false
        end
        (with_ui p (W.ui cfg))
        match W.lxc cfg with
        | Some l => MkLxc (default "" (W.distribution l)) (default "" (W.release l))
        | None => MkLxc "" ""
        end
        wslc (make_seatbelt_config <$> W.seatbelt cfg)
        ((fun raw => MkTelemetry (W.enabled raw) (Some (requested_kind (W.containment cfg)))) <$> W.telemetry cfg)
        ((fun test => TestFeatureConfig_from_raw (W.message test)) <$> W.test_feature cfg)
        (make_windows_sandbox <$> W.windows_sandbox cfg)
        ((fun h => MkHyperlight (default (runtime HyperlightConfig_default) (W.runtime h))) <$> W.hyperlight cfg)
        (W.microvm_image <$> W.microvm cfg) microvm_memory_mib false false).

End Normalize.

(** ** The development contract's own checks

    They are made on the contract's request, whose sections its adapter
    ([config_contract_adapters/dev/one_shot.rs]) copies into the intermediate
    request one by one; here they read the copy. *)

(** The text of [RequestParseError::InvalidCombination]. *)
Definition invalid_combination (message : string) : WxcError :=
  ConfigParse ("Invalid one-shot request: " +:+ message).

Definition validate_isolation_session_one_shot_network (cfg : W.CommonRequestIR) : result WxcError unit :=
  let has_canonical_network :=
    match W.network cfg with
    | Some network =>
        match Wire.egress network with
        | Some egress =>
            match Wire.egress_default egress with Some Wire.Allow => true | _ => false end
            && bool_decide (Wire.allow egress = None) && bool_decide (Wire.deny egress = None)
        | None => false
        end
        && match Wire.ingress network with
           | Some ingress =>
               match Wire.ingress_default ingress with Some Wire.Allow => true | _ => false end
               && match Wire.host_loopback ingress with Some Wire.Allow => true | _ => false end
           | None => false
           end
    | None => false
    end in
  let has_runtime_proxy := bool_decide (is_Some (W.runtime_config cfg ≫= Wire.network_proxy)) in
  fail_if (negb has_canonical_network || has_runtime_proxy) (invalid_combination
    "IsolationSession requires an explicit network policy with network.egress.default=allow, network.ingress.default=allow, and network.ingress.hostLoopback=allow, without rules or runtimeConfig.networkProxy").

Definition validate_one_shot_request (cfg : W.CommonRequestIR) : result WxcError unit :=
  let selects_microvm := match W.containment cfg with Some Wire.Microvm => true | _ => false end in
  _ ← fail_if (negb (Bool.eqb selects_microvm (bool_decide (is_Some (W.microvm cfg)))))
        (invalid_combination "microvm.image is required exactly when containment is microvm");
  match W.containment cfg with
  | Some Wire.IsolationSession => validate_isolation_session_one_shot_network cfg
  | _ => Ok tt
  end.

(** ** Inversion *)

Section Accepted.
Context `{CC : CidrCrate} `{UC : UrlCrate} `{HP : HostPaths}.
Context (os : HostOs) (escape_diagnostic_text : string -> string) (path_missing : string -> result string bool).

Lemma process_fields_inv process require_process fields :
  process_fields process require_process = Ok fields ->
  lacks "000"%char (field_script_code fields) = true /\
  (require_process = true -> field_script_code fields <> "").
Proof.
  unfold process_fields. destruct process as [p|].
  - intros (s & Hs & ([] & Hn%fail_if_Ok & [= <-])%bind_Ok)%bind_Ok. cbn. split.
    + unfold string_any in Hn. by apply negb_false_iff in Hn.
    + intros ->. destruct (W.command_line p) as [c|]; [|done].
      case_bool_decide; cbn in Hs; [done|]. by injection Hs as <-.
  - destruct require_process; [done|]. by intros [= <-].
Qed.

Lemma normalize_policy_inv cfg c p :
  normalize_policy escape_diagnostic_text path_missing cfg c = Ok p ->
  exists p0, process_container_policy (W.process_container cfg) = Ok p0 /\
    let p1 := retain_strictest (with_filesystem p0 (W.filesystem cfg)) in
    validate_filesystem_paths escape_diagnostic_text (with_filesystem p0 (W.filesystem cfg)) = Ok tt /\
    Parser.parse_network_policy p1
      (Parser.MkSections (W.network cfg) (W.runtime_config cfg) (W.process_container cfg ≫= W.pc_network)) c = Ok p /\
    exists egress ingress peer proxy specified mode flag, p = with_network p1 egress ingress peer proxy specified mode flag.
Proof.
  unfold normalize_policy. intros (p0 & Hp0 & ([] & Hv & (p1 & ->%normalized_policy & Hn)%bind_Ok)%bind_Ok)%bind_Ok.
  exists p0. split_and!; [done..|].
  apply Parser.parse_network_policy_inv in Hn as (peer & egress & ingress & mode & flag & proxy & _ & -> & _). by repeat eexists.
Qed.

Lemma normalize_inv cfg require_process r :
  normalize_common_request_ir os escape_diagnostic_text path_missing cfg require_process = Ok r ->
  exists fields p,
    process_fields (W.process cfg) require_process = Ok fields /\ script_code r = field_script_code fields /\
    containment r = map_wire_containment os (W.containment cfg) /\
    validate_single_backend_section (containment r) (present_backend_sections cfg) = Ok tt /\
    normalize_policy escape_diagnostic_text path_missing cfg (containment r) = Ok p /\ policy r = with_ui p (W.ui cfg) /\
    map_transpose make_wslc_config (W.wslc cfg) = Ok (wslc r) /\
    (is_Some (seatbelt r) <-> is_Some (W.seatbelt cfg)) /\
    (is_Some (windows_sandbox r) <-> is_Some (W.windows_sandbox cfg)) /\
    (is_Some (hyperlight r) <-> is_Some (W.hyperlight cfg)).
Proof.
  unfold normalize_common_request_ir.
  intros ([] & _ & ([] & _ & ([] & _ & (fields & Hf & ([] & Hs & (p & Hp & (w & Hw & [= <-])%bind_Ok)%bind_Ok)%bind_Ok)
    %bind_Ok)%bind_Ok)%bind_Ok)%bind_Ok.
  exists fields, p. cbn [script_code containment policy wslc seatbelt windows_sandbox hyperlight].
  split_and!; try done; by rewrite fmap_is_Some.
Qed.

Lemma normalize_microvm cfg require_process r :
  normalize_common_request_ir os escape_diagnostic_text path_missing cfg require_process = Ok r ->
  microvm_image r = W.microvm_image <$> W.microvm cfg.
Proof.
  unfold normalize_common_request_ir.
  by intros ([] & _ & ([] & _ & ([] & _ & (fields & _ & ([] & _ & (p & _ & (w & _ & [= <-])%bind_Ok)%bind_Ok)%bind_Ok)
    %bind_Ok)%bind_Ok)%bind_Ok)%bind_Ok.
Qed.

(** The contract ties the section of the microVM to the containment. *)
Lemma one_shot_microvm cfg :
  validate_one_shot_request cfg = Ok tt ->
  (is_Some (W.microvm cfg) <-> map_wire_containment os (W.containment cfg) = MicroVm).
Proof.
  unfold validate_one_shot_request. intros ([] & Hm%fail_if_Ok%negb_false_iff%eqb_prop & _)%bind_Ok.
  rewrite <- (bool_decide_eq_true (is_Some (W.microvm cfg))), <- Hm. unfold map_wire_containment.
  destruct (W.containment cfg) as [[]|], os; cbn; naive_solver.
Qed.

(** ** Sections *)

Lemma present_sections_elem cfg s :
  s ∈ present_backend_sections cfg <->
  (is_Some (W.process_container cfg) /\ s = "processContainer") \/ (is_Some (W.lxc cfg) /\ s = "lxc") \/
  (is_Some (W.wslc cfg) /\ s = "wslc") \/ (is_Some (W.seatbelt cfg) /\ s = "seatbelt") \/
  (is_Some (W.windows_sandbox cfg) /\ s = "windowsSandbox") \/ (is_Some (W.hyperlight cfg) /\ s = "hyperlight").
Proof.
  unfold present_backend_sections. rewrite list_elem_of_omap. split.
  - intros ((b & backend) & Hin & Hs). set_unfold in Hin.
    destruct_or! Hin; injection Hin as -> ->; case_bool_decide; naive_solver.
  - intros Hs. destruct_or! Hs; destruct Hs as [Hs ->];
      [exists (bool_decide (is_Some (W.process_container cfg)), ProcessContainer)
      |exists (bool_decide (is_Some (W.lxc cfg)), Lxc)|exists (bool_decide (is_Some (W.wslc cfg)), Wslc)
      |exists (bool_decide (is_Some (W.seatbelt cfg)), Seatbelt)
      |exists (bool_decide (is_Some (W.windows_sandbox cfg)), WindowsSandbox)
      |exists (bool_decide (is_Some (W.hyperlight cfg)), Hyperlight)];
      (split; [set_solver|by rewrite bool_decide_eq_true_2]).
Qed.

Lemma single_section_ok c present :
  validate_single_backend_section c present = Ok tt <-> forall s, s ∈ present -> section_path c = Some s.
Proof.
  unfold validate_single_backend_section. destruct (is_empty _) eqn:E.
  - split; [|done]. intros _ s Hs. destruct (List.filter _ present) as [|x l] eqn:Hf; [|done].
    destruct (decide (Some s = section_path c)) as [|Hne]; [done|].
    assert (In s (List.filter (fun x => negb (bool_decide (Some x = section_path c))) present)) as Hin.
    { apply filter_In. split; [by apply list_elem_of_In|]. by rewrite bool_decide_eq_false_2. }
    by rewrite Hf in Hin.
  - split; [done|]. intros Hall. destruct (List.filter _ present) as [|x l] eqn:Hf; [done|].
    assert (In x (x :: l)) as Hin by (by left). rewrite <- Hf in Hin. apply filter_In in Hin as [Hx Hne].
    apply list_elem_of_In, Hall in Hx. by rewrite bool_decide_eq_true_2 in Hne.
Qed.

(** ** Learning-mode capabilities *)

Definition permissive (c : string) : bool := eq_ignore_ascii_case c "permissiveLearningMode".
Definition logging (c : string) : bool := eq_ignore_ascii_case c "learningModeLogging".

Lemma logging_not_permissive c : logging c = true -> permissive c = false.
Proof.
  unfold logging, permissive, eq_ignore_ascii_case. rewrite bool_decide_eq_true, bool_decide_eq_false. intros -> H. by vm_compute in H.
Qed.

Lemma filter_all {A} (f : A -> bool) l : Forall (fun x => f x = true) l -> List.filter f l = l.
Proof. induction 1 as [|x l Hx _ IH]; cbn; [done|]. by rewrite Hx, IH. Qed.

Lemma filter_none {A} (f : A -> bool) l : Forall (fun x => f x = false) l -> List.filter f l = [].
Proof. induction 1 as [|x l Hx _ IH]; cbn; [done|]. by rewrite Hx, IH. Qed.

Lemma check_capabilities_ok caps :
  check_capabilities caps = Ok tt -> Forall (fun c => logging c = false /\ permissive c = false) caps.
Proof.
  unfold check_capabilities. destruct (List.find (string_any _) caps); [done|].
  destruct (List.find reserved_capability caps) as [|] eqn:E; [done|]. intros _.
  apply Forall_forall. intros c Hc. apply list_elem_of_In in Hc. pose proof (List.find_none _ _ E c Hc) as Hr.
  by apply orb_false_iff in Hr.
Qed.

(** The learning-mode capabilities a section ends up with. *)
Definition learning_part (learning : bool) (capture : option CaptureDenialsMode) : list string :=
  match capture with
  | Some mode => [capture_capability mode]
  | None => if learning then ["learningModeLogging"] else []
  end.

Lemma capture_capabilities_spec mode (learning : bool) caps :
  Forall (fun c => logging c = false /\ permissive c = false) caps ->
  let l := (if learning then ["learningModeLogging"] else []) ++ caps in
  List.filter reserved_capability (capture_capabilities mode l) = learning_part learning (Some mode) /\
  List.filter (fun c => negb (reserved_capability c)) (capture_capabilities mode l) = caps.
Proof.
  intros Hc l.
  assert (Hkeep : List.filter (fun c => negb (reserved_capability c)) caps = caps).
  { apply filter_all. eapply Forall_impl; [exact Hc|]. intros c [H1 H2]. unfold reserved_capability.
    change (negb (logging c || permissive c) = true). by rewrite H1, H2. }
  assert (Hnone : List.filter reserved_capability caps = []).
  { apply filter_none. eapply Forall_impl; [exact Hc|]. intros c [H1 H2]. change (logging c || permissive c = false). by rewrite H1, H2. }
  assert (Hrep : List.filter (fun c => negb (eq_ignore_ascii_case c (replaced_capability mode))) caps = caps).
  { apply filter_all. eapply Forall_impl; [exact Hc|]. intros c [H1 H2]. destruct mode; cbn.
    - change (negb (permissive c) = true). by rewrite H2.
    - change (negb (logging c) = true). by rewrite H1. }
  assert (Hno : existsb (fun c => eq_ignore_ascii_case c (capture_capability mode)) caps = false).
  { apply not_true_iff_false. rewrite existsb_elem. intros (c & Hin & He). rewrite Forall_forall in Hc.
    destruct (Hc c Hin) as [H1 H2]. destruct mode; cbn in He; [change (logging c = true) in He|change (permissive c = true) in He]; congruence. }
  unfold capture_capabilities, l. rewrite List.filter_app, Hrep.
  destruct mode, learning; cbn [capture_capability replaced_capability] in *; cbn [List.filter].
  all: change (eq_ignore_ascii_case "learningModeLogging" "permissiveLearningMode") with false;
    change (eq_ignore_ascii_case "learningModeLogging" "learningModeLogging") with true.
  all: cbn [negb app existsb]; change (eq_ignore_ascii_case "learningModeLogging" "learningModeLogging") with true.
  all: rewrite ?Hno; cbn [orb]; rewrite ?List.filter_app; cbn [List.filter].
  all: change (reserved_capability "learningModeLogging") with true; change (reserved_capability "permissiveLearningMode") with true.
  all: cbn [negb]; rewrite Hkeep, Hnone; cbn [app]; rewrite ?app_nil_r; done.
Qed.

Definition written_capture (section : option W.ProcessContainer) : option CaptureDenialsMode :=
  (fun cd => convert_capture_mode (W.mode cd)) <$> (section ≫= W.capture_denials).

Lemma reserved_elem (f : string -> bool) caps :
  (forall c, f c = true -> reserved_capability c = true) ->
  (exists c, c ∈ caps /\ f c = true) <-> exists c, c ∈ List.filter reserved_capability caps /\ f c = true.
Proof.
  intros Hf. apply exist_proper. intros c. rewrite !list_elem_of_In, filter_In. naive_solver.
Qed.

Lemma learning_part_permissive learning capture :
  (exists c, c ∈ learning_part learning capture /\ permissive c = true) <-> capture = Some AllowAccess.
Proof.
  unfold learning_part. destruct capture as [[]|]; [| |destruct learning]; cbn; setoid_rewrite list_elem_of_singleton || setoid_rewrite elem_of_nil;
    split; try done; try (intros (c & -> & Hc); by vm_compute in Hc); try naive_solver.
Qed.

Lemma learning_part_logging learning capture :
  (exists c, c ∈ learning_part learning capture /\ logging c = true) <-> capture = Some Block \/ (capture = None /\ learning = true).
Proof.
  unfold learning_part. destruct capture as [[]|]; [| |destruct learning]; cbn; setoid_rewrite list_elem_of_singleton || setoid_rewrite elem_of_nil;
    split; try (intros (c & -> & Hc); by vm_compute in Hc); try naive_solver.
  all: intros _; exists "learningModeLogging"; by vm_compute.
Qed.

Lemma process_container_inv section p0 :
  process_container_policy section = Ok p0 ->
  List.filter reserved_capability (capabilities p0) =
    learning_part (default false (section ≫= W.learning_mode)) (written_capture section) /\
  List.filter (fun c => negb (reserved_capability c)) (capabilities p0) = default [] (section ≫= W.capabilities) /\
  capture_mode <$> capture_denials p0 = (written_capture section) /\
  readwrite_paths p0 = [] /\ readonly_paths p0 = [] /\ denied_paths p0 = [] /\
  enumerate_paths p0 = default [] ((section ≫= W.pc_filesystem) ≫= W.enumerate_paths).
Proof.
  unfold process_container_policy, written_capture. destruct section as [ac|]; [|by intros [= <-]].
  intros ([] & Hc & ([caps capture] & Hcd & [= <-])%bind_Ok)%bind_Ok. cbn [mbind option_bind capabilities capture_denials
    readwrite_paths readonly_paths denied_paths enumerate_paths].
  assert (Hwritten : Forall (fun c => logging c = false /\ permissive c = false) (default [] (W.capabilities ac))).
  { destruct (W.capabilities ac); [by apply check_capabilities_ok|constructor]. }
  split_and!; try done.
  - destruct (W.capture_denials ac) as [cd|]; cbn.
    + apply bind_Ok in Hcd as ([] & _ & [= <- _]).
      destruct (capture_capabilities_spec (convert_capture_mode (W.mode cd)) (default false (W.learning_mode ac)) _ Hwritten) as [H1 _].
      exact H1.
    + injection Hcd as <- _. rewrite List.filter_app, (filter_none _ (default [] _)), app_nil_r.
      * by destruct (default false (W.learning_mode ac)).
      * eapply Forall_impl; [exact Hwritten|]. intros c [H1 H2]. change (logging c || permissive c = false). by rewrite H1, H2.
  - destruct (W.capture_denials ac) as [cd|]; cbn.
    + apply bind_Ok in Hcd as ([] & _ & [= <- _]).
      destruct (capture_capabilities_spec (convert_capture_mode (W.mode cd)) (default false (W.learning_mode ac)) _ Hwritten) as [_ H2].
      exact H2.
    + injection Hcd as <- _. rewrite List.filter_app, (filter_all _ (default [] _)).
      * by destruct (default false (W.learning_mode ac)).
      * eapply Forall_impl; [exact Hwritten|]. intros c [H1 H2]. change (negb (logging c || permissive c) = true). by rewrite H1, H2.
  - destruct (W.capture_denials ac) as [cd|]; cbn.
    + by apply bind_Ok in Hcd as ([] & _ & [= _ <-]).
    + by injection Hcd as _ <-.
Qed.

(** What of the policy the later sections leave alone. *)
Lemma policy_of_section cfg require_process r :
  normalize_common_request_ir os escape_diagnostic_text path_missing cfg require_process = Ok r ->
  exists p0, process_container_policy (W.process_container cfg) = Ok p0 /\
    capabilities (policy r) = capabilities p0 /\ capture_denials (policy r) = capture_denials p0 /\
    let p1 := retain_strictest (with_filesystem p0 (W.filesystem cfg)) in
    readwrite_paths (policy r) = readwrite_paths p1 /\ readonly_paths (policy r) = readonly_paths p1 /\
    enumerate_paths (policy r) = enumerate_paths p1 /\ denied_paths (policy r) = denied_paths p1.
Proof.
  intros (fields & p & _ & _ & _ & _ & Hp & -> & _)%normalize_inv.
  apply normalize_policy_inv in Hp as (p0 & Hp0 & _ & _ & (? & ? & ? & ? & ? & ? & ? & ->)).
  exists p0. split; [done|]. unfold with_filesystem. by destruct (W.filesystem cfg).
Qed.

Lemma sections_of_backend cfg require_process r :
  normalize_common_request_ir os escape_diagnostic_text path_missing cfg require_process = Ok r ->
  (is_Some (W.process_container cfg) -> containment r = ProcessContainer) /\ (is_Some (W.lxc cfg) -> containment r = Lxc) /\
  (is_Some (W.wslc cfg) -> containment r = Wslc) /\ (is_Some (W.seatbelt cfg) -> containment r = Seatbelt) /\
  (is_Some (W.windows_sandbox cfg) -> containment r = WindowsSandbox) /\
  (is_Some (W.hyperlight cfg) -> containment r = Hyperlight).
Proof.
  intros (fields & p & _ & _ & _ & Hs & _)%normalize_inv.
  pose proof (proj1 (single_section_ok _ _) Hs) as Hall. setoid_rewrite present_sections_elem in Hall.
  assert (Hpath : forall s b, section_path b = Some s -> section_path (containment r) = Some s -> containment r = b).
  { intros s b. destruct b, (containment r); cbn; congruence. }
  split_and!; intros H; (eapply Hpath; [reflexivity|apply Hall; naive_solver]).
Qed.

(** C27. Learning mode is never a side effect: in the policy of an accepted
    request the capability that lets every access through is there exactly when
    captureDenials asks to allow what it records, the one that records denials
    exactly when captureDenials blocks or, without captureDenials, when
    learningMode is set; no entry of the capabilities list gets either in,
    however it is spelled, the other capabilities are the written ones, in
    order; and on a backend other than the process container there are none. *)
Theorem learning_mode_is_explicit cfg require_process r :
  normalize_common_request_ir os escape_diagnostic_text path_missing cfg require_process = Ok r ->
  let caps := capabilities (policy r) in
  let section := W.process_container cfg in
  ((exists c, c ∈ caps /\ permissive c = true) <->
     exists cd, section ≫= W.capture_denials = Some cd /\ W.mode cd = Some W.Allow) /\
  ((exists c, c ∈ caps /\ logging c = true) <->
     (exists cd, section ≫= W.capture_denials = Some cd /\ W.mode cd <> Some W.Allow) \/
     (section ≫= W.capture_denials = None /\ section ≫= W.learning_mode = Some true)) /\
  List.filter (fun c => negb (reserved_capability c)) caps = default [] (section ≫= W.capabilities) /\
  (containment r <> ProcessContainer -> caps = [] /\ capture_denials (policy r) = None).
Proof.
  intros Hr. destruct (policy_of_section _ _ _ Hr) as (p0 & Hp0 & Hcaps & Hcapture & _). cbv zeta. rewrite Hcaps, Hcapture.
  pose proof (process_container_inv _ _ Hp0) as (Hres & Hrest & _). split_and!; [| |exact Hrest|].
  - rewrite (reserved_elem permissive), Hres, learning_part_permissive
      by (intros c Hc; apply orb_true_iff; by right).
    unfold written_capture. destruct (W.process_container cfg ≫= W.capture_denials) as [cd|]; cbn; [|naive_solver].
    destruct (W.mode cd) as [[]|] eqn:Hm; cbn; naive_solver.
  - rewrite (reserved_elem logging), Hres, learning_part_logging by (intros c Hc; apply orb_true_iff; by left).
    unfold written_capture. destruct (W.process_container cfg ≫= W.capture_denials) as [cd|]; cbn.
    + destruct (W.mode cd) as [[]|] eqn:Hm; cbn; naive_solver.
    + destruct (W.process_container cfg ≫= W.learning_mode) as [[]|]; cbn; naive_solver.
  - intros Hne. destruct (W.process_container cfg) eqn:Hpc.
    + destruct Hne. apply (sections_of_backend _ _ _ Hr). by rewrite Hpc.
    + by injection Hp0 as <-.
Qed.

(** ** The accepted request *)

Definition path_ok (path : string) : Prop :=
  is_blank path = false /\ lacks "000"%char path = true /\ lacks "034"%char path = true.

Lemma validate_paths_ok paths : validate_paths escape_diagnostic_text paths = Ok tt -> Forall path_ok paths.
Proof.
  unfold validate_paths. rewrite Validator.foldM_unit. intros Hall. eapply Forall_impl; [exact Hall|].
  intros path. unfold validate_path_entry, path_ok, string_any.
  destruct (is_blank path); [done|]. destruct (string_all _ path) eqn:E1; cbn; [|done].
  destruct (string_all (fun c => negb (bool_decide (c = "034"%char))) path) eqn:E2; cbn; done.
Qed.

Lemma validate_filesystem_paths_ok p :
  validate_filesystem_paths escape_diagnostic_text p = Ok tt ->
  Forall path_ok (readwrite_paths p) /\ Forall path_ok (readonly_paths p) /\ Forall path_ok (enumerate_paths p) /\
  Forall path_ok (denied_paths p).
Proof.
  unfold validate_filesystem_paths.
  intros ([] & H1 & ([] & H2 & ([] & H3 & H4)%bind_Ok)%bind_Ok)%bind_Ok. split_and!; by apply validate_paths_ok.
Qed.

Lemma strictest_subset p :
  readwrite_paths (retain_strictest p) ⊆ readwrite_paths p /\ readonly_paths (retain_strictest p) ⊆ readonly_paths p /\
  enumerate_paths (retain_strictest p) ⊆ enumerate_paths p /\ denied_paths (retain_strictest p) ⊆ denied_paths p.
Proof. cbn. split_and!; try done; intros x [_ ?]%list_elem_of_filter; done. Qed.

Lemma accepted_paths cfg require_process r :
  normalize_common_request_ir os escape_diagnostic_text path_missing cfg require_process = Ok r ->
  one_intent (policy r) /\
  forall path, path ∈ readwrite_paths (policy r) ++ readonly_paths (policy r) ++ enumerate_paths (policy r) ++ denied_paths (policy r) ->
    path_ok path.
Proof.
  intros Hr. pose proof Hr as (p0 & Hp0 & _ & _ & Hrw & Hro & Hen & Hdn)%policy_of_section.
  apply normalize_inv in Hr as (fields & p & _ & _ & _ & _ & Hp & _). apply normalize_policy_inv in Hp as (p0' & Hp0' & Hv & _).
  assert (p0' = p0) as -> by congruence. apply validate_filesystem_paths_ok in Hv as (V1 & V2 & V3 & V4).
  set (q := with_filesystem p0 (W.filesystem cfg)) in *. destruct (strictest_subset q) as (S1 & S2 & S3 & S4). split.
  - unfold one_intent, listed. rewrite Hrw, Hro, Hen, Hdn. apply (retain_strictest_one_intent q).
  - rewrite Forall_forall in V1, V2, V3, V4. rewrite Hrw, Hro, Hen, Hdn. intros path. rewrite !elem_of_app.
    intros [?|[?|[?|?]]]; [apply V1, S1|apply V2, S2|apply V3, S3|apply V4, S4]; done.
Qed.

Lemma make_wslc_config_ok cc w :
  make_wslc_config cc = Ok w -> Forall Validator.mapping_ok (port_mappings w) /\ NoDup (windows_port <$> port_mappings w).
Proof.
  unfold make_wslc_config. intros ([] & Hv & [= <-])%bind_Ok. cbn. case_bool_decide as Hs.
  - by apply Validator.port_mappings_decided in Hv.
  - apply eq_None_not_Some in Hs. rewrite Hs. split; constructor.
Qed.

(** C20. An accepted one-shot request is well formed: it passes the validation
    every backend runs, its command has no NUL byte, each of its paths is in one
    list only and none is blank or holds a NUL byte or a quotation mark; a
    processContainer, lxc, wslc, seatbelt, windowsSandbox or hyperlight section
    is that of its own backend, so there is at most one, and the port mappings of
    a WSL container are positive and name no host port twice.  The parser does
    not look at a microvm section; with the development contract's own check,
    which comes before it, the request has an image exactly when its backend is
    the microVM. *)
Theorem accepted_request_well_formed cfg r :
  normalize_common_request_ir os escape_diagnostic_text path_missing cfg true = Ok r ->
  Validator.validate_common r = Ok tt /\ lacks "000"%char (script_code r) = true /\ one_intent (policy r) /\
  (forall path, path ∈ readwrite_paths (policy r) ++ readonly_paths (policy r) ++ enumerate_paths (policy r) ++ denied_paths (policy r) ->
     path_ok path) /\
  (forall w, wslc r = Some w -> containment r = Wslc /\ Forall Validator.mapping_ok (port_mappings w) /\
     NoDup (windows_port <$> port_mappings w)) /\
  (is_Some (seatbelt r) -> containment r = Seatbelt) /\ (is_Some (windows_sandbox r) -> containment r = WindowsSandbox) /\
  (is_Some (hyperlight r) -> containment r = Hyperlight) /\
  (is_Some (W.process_container cfg) -> containment r = ProcessContainer) /\ (is_Some (W.lxc cfg) -> containment r = Lxc) /\
  (validate_one_shot_request cfg = Ok tt -> (is_Some (microvm_image r) <-> containment r = MicroVm)).
Proof.
  intros Hr. destruct (accepted_paths _ _ _ Hr) as [Hone Hok]. pose proof (sections_of_backend _ _ _ Hr) as (Hpc & Hlxc & Hw & Hs & Hws & Hh).
  pose proof (normalize_inv _ _ _ Hr) as (fields & p & Hf & Hcode & Hcont & _ & _ & _ & Hwslc & Hsb & Hwb & Hhl).
  destruct (process_fields_inv _ _ _ Hf) as [Hn Hne]. rewrite <- Hcode in Hn, Hne.
  split_and!; [|done|done|done| |by rewrite Hsb|by rewrite Hwb|by rewrite Hhl|done|done|].
  - unfold Validator.validate_common. rewrite bool_decide_eq_false_2 by auto.
    destruct (is_empty (enumerate_paths (policy r))) eqn:E; [done|]. rewrite bool_decide_eq_true_2; [done|].
    apply Hpc. destruct (W.process_container cfg) eqn:Hsec; [done|]. exfalso.
    destruct (policy_of_section _ _ _ Hr) as (p0 & Hp0 & _ & _ & _ & _ & Hen & _). rewrite Hsec in Hp0. injection Hp0 as <-.
    rewrite Hen in E. destruct (W.filesystem cfg); done.
  - intros w Hsome. rewrite Hsome in Hwslc. destruct (W.wslc cfg) as [cc|]; [|done].
    apply fmap_Ok in Hwslc as (w' & Hmk & [= <-]). split; [by apply Hw|]. by apply make_wslc_config_ok in Hmk.
  - intros Hv. rewrite (normalize_microvm _ _ _ Hr), fmap_is_Some, Hcont. by apply one_shot_microvm.
Qed.

End Accepted.


(** ** Witnesses *)

(** [std::path] on Unix; the parent is written without redundant separators. *)
Definition unix_parent (path : string) : option string :=
  (fun components =>
     match components with
     | UnixPath.RootDir :: rest => "/" +:+ string_join "/" (UnixPath.Component_as_str <$> rest)
     | _ => string_join "/" (UnixPath.Component_as_str <$> components)
     end) <$> UnixPath.parent (UnixPath.components path).

#[local] Instance unix_paths : HostPaths := {
  is_absolute := UnixPath.has_root;
  parent := unix_parent;
  is_directory := fun path => bool_decide (path = "/") || bool_decide (path = "/tmp");
}.

#[local] Existing Instance Instances.cidr_crate.
#[local] Existing Instance Instances.url_crate.

Definition shell_process : W.Process := W.MkProcess (Some "make test") (Some "/srv") None None (Some 60000).

(** Denial capture in the process container, blocking what it records. *)
Definition capture_ir : W.CommonRequestIR :=
  W.MkIR V1_0_0 None None None (Some Wire.ProcessContainer) (Some shell_process) None
    (Some (W.MkProcessContainer (Some true) (Some true) (Some ["internetClient"])
             (Some (W.MkCaptureDenials None (Some "/tmp/denials.json") None)) None
             (Some (W.MkPcFilesystem (Some ["/srv/list"]))) None))
    None None (Some (W.MkFilesystem (Some ["/srv"; "/srv/doc"]) (Some ["/srv/doc"]) (Some ["/srv/key"])))
    None None None None None None None None None.

Definition capture_result : result WxcError ExecutionRequest :=
  normalize_common_request_ir Linux (fun s => s) (fun _ => Ok false) capture_ir true.

Lemma learning_mode_is_explicit_witness :
  exists r, capture_result = Ok r /\ capabilities (policy r) = ["learningModeLogging"; "internetClient"] /\
    exists c, c ∈ capabilities (policy r) /\ logging c = true.
Proof.
  destruct capture_result as [r|] eqn:E; [|by vm_compute in E]. exists r.
  split_and!; [done|vm_compute in E; by injection E as <-|].
  apply (learning_mode_is_explicit Linux (fun s => s) (fun _ => Ok false) capture_ir true r E). left.
  eexists. split; [reflexivity|done].
Defined.

Lemma accepted_request_well_formed_witness :
  exists r, capture_result = Ok r /\ readwrite_paths (policy r) = ["/srv"] /\ Validator.validate_common r = Ok tt.
Proof.
  destruct capture_result as [r|] eqn:E; [|by vm_compute in E]. exists r.
  split_and!; [done|vm_compute in E; by injection E as <-|].
  apply (accepted_request_well_formed Linux (fun s => s) (fun _ => Ok false) capture_ir r E).
Defined.

End ConfigParser.
