(* ===== verification/StateAware.v ===== *)
(** * Lifecycle requests

    [core/mxc_common/state_aware_request.rs], [state_aware_operation.rs],
    [state_aware_input.rs] and the lifecycle half of [config_parser.rs]: a
    sandbox that outlives one command is driven by phases, each an operation with
    exactly the identity and configuration it needs.  The operation is checked,
    the common sections become a request, and the backend is found from the
    containment of a provision or from the prefix of a sandbox id. *)

From Stdlib Require Import Ascii.
From stdpp Require Import gmap.
From S2P Require Import Prelude NetText Wire Models Requests NetworkBlocks ProxyEnv Crates NetworkParser UnixPath FsPolicy WireRequest Validator ConfigParser.

Module StateAware.
Module W := WireRequest.
Module P := ConfigParser.

(** [MxcError]: its code and message. *)
Definition MxcError : Type := MxcErrorCode * string.

(** ** Phases *)

Inductive TargetIdKind : Type := NoId | SandboxId | SessionId.

Definition wire_member (k : TargetIdKind) : option string :=
  match k with NoId => None | SandboxId => Some "sandboxId" | SessionId => Some "sessionId" end.

Inductive Phase : Type := ProvisionSession | Provision | Start | Exec | Stop | Deprovision | DeprovisionSession.
#[global] Instance Phase_eq_dec : EqDecision Phase.
Proof. solve_decision. Defined.

Definition Phase_as_str (p : Phase) : string :=
  match p with
  | ProvisionSession => "provision-session"
  | Provision => "provision"
  | Start => "start"
  | Exec => "exec"
  | Stop => "stop"
  | Deprovision => "deprovision"
  | DeprovisionSession => "deprovision-session"
  end.

Definition target_id_kind (p : Phase) : TargetIdKind :=
  match p with
  | ProvisionSession | Provision => NoId
  | Start | Exec | Stop | Deprovision => SandboxId
  | DeprovisionSession => SessionId
  end.

Definition routes_by_containment (p : Phase) : bool :=
  match target_id_kind p with SandboxId => false | _ => true end.

(** ** Operations *)

Inductive StateAwareProvision : Type :=
| ProvisionIsolationSession (config : option IsolationSessionProvisionConfig)
| ProvisionWindowsSandbox
| ProvisionMicroVm (config : option MicroVmProvisionConfig)
| ProvisionWslc (config : option WslcProvisionConfig).

Definition provision_containment (p : StateAwareProvision) : ContainmentBackend :=
  match p with
  | ProvisionIsolationSession _ => IsolationSession
  | ProvisionWindowsSandbox => WindowsSandbox
  | ProvisionMicroVm _ => MicroVm
  | ProvisionWslc _ => Wslc
  end.

Inductive StateAwareOperation : Type :=
| OpProvisionSession (config : option WslcProvisionSessionConfig)
| OpProvision (provision : StateAwareProvision)
| OpStart (sandbox_id : string)
| OpExec (sandbox_id : string)
| OpStop (sandbox_id : string)
| OpDeprovision (sandbox_id : string)
| OpDeprovisionSession (session_id : string).

Definition op_phase (o : StateAwareOperation) : Phase :=
  match o with
  | OpProvisionSession _ => ProvisionSession
  | OpProvision _ => Provision
  | OpStart _ => Start
  | OpExec _ => Exec
  | OpStop _ => Stop
  | OpDeprovision _ => Deprovision
  | OpDeprovisionSession _ => DeprovisionSession
  end.

Definition op_containment (o : StateAwareOperation) : option ContainmentBackend :=
  match o with
  | OpProvisionSession _ | OpDeprovisionSession _ => Some Wslc
  | OpProvision provision => Some (provision_containment provision)
  | OpStart _ | OpExec _ | OpStop _ | OpDeprovision _ => None
  end.

Definition op_sandbox_id (o : StateAwareOperation) : option string :=
  match o with
  | OpProvisionSession _ | OpProvision _ | OpDeprovisionSession _ => None
  | OpStart id | OpExec id | OpStop id | OpDeprovision id => Some id
  end.

Definition op_session_id (o : StateAwareOperation) : option string :=
  match o with OpDeprovisionSession id => Some id | _ => None end.

(** ** Checks of an operation *)

(** [char::is_whitespace], [char::is_control] and the byte order mark, in the
    bytes of UTF-8: the lead byte of each such character begins no other one. *)
Fixpoint has_forbidden_char (s : string) : bool :=
  match s with
  | EmptyString => false
  | String a r =>
      starts_white s || byte_in 0 31 a || (byte_of a =? 0x7F)
      || match r with
         | String b r' =>
             ((byte_of a =? 0xC2) && byte_in 0x80 0x9F b)
             || match r' with
                | String c _ => (byte_of a =? 0xEF) && (byte_of b =? 0xBB) && (byte_of c =? 0xBF)
                | EmptyString => false
                end
         | EmptyString => false
         end
      || has_forbidden_char r
  end.

(** A dot with something before and after it. *)
Fixpoint dot_inside (first : bool) (s : string) : bool :=
  match s with
  | EmptyString => false
  | String c r => (bool_decide (c = "."%char) && negb first && negb (bool_decide (r = ""))) || dot_inside false r
  end.

Definition valid_registry (registry : string) : bool :=
  bool_decide (registry = "localhost") || dot_inside true registry
  || match rsplit_once ":" registry with
     | Some (host, port) =>
         negb (bool_decide (host = "")) && negb (bool_decide (port = "")) && string_all (fun c => byte_in 48 57 c) port
     | None => false
     end.

(** [ImageReference::validate]. *)
Definition image_validate (value : string) : result string unit :=
  if bool_decide (value = "") || has_forbidden_char value then
    Err "microvm.image must be a nonempty image reference without whitespace or control characters"
  else
    match split_once "/" value with
    | Some (registry, String c _) =>
        if valid_registry registry
           && negb (bool_decide (c = "/"%char) || bool_decide (c = ":"%char) || bool_decide (c = "@"%char))
        then Ok tt
        else Err "microvm.image must include a registry host and image repository, such as docker.io/library/python:3.12-alpine"
    | _ => Err "microvm.image must include a registry host and image repository, such as docker.io/library/python:3.12-alpine"
    end.

Definition SESSION_ID_TAG : string := "wslcsess:".
Definition SESSION_ID_HEX_DIGITS : Z := 32.

(** [str::strip_prefix]. *)
Fixpoint strip_tag (tag s : string) : option string :=
  match tag, s with
  | EmptyString, _ => Some s
  | String a tag, String b s => if decide (a = b) then strip_tag tag s else None
  | String _ _, EmptyString => None
  end.

Definition lower_hex (c : ascii) : bool := byte_in 48 57 c || byte_in 97 102 c.

Definition validate_wslc_session_id (session_id : string) : result MxcError unit :=
  match strip_tag SESSION_ID_TAG session_id with
  | Some token =>
      if (str_len token =? SESSION_ID_HEX_DIGITS) && string_all lower_hex token then Ok tt
      else Err (MalformedId, "a session id must be `wslcsess:` followed by 32 lowercase hex digits")
  | None => Err (MalformedId, "a session id must be `wslcsess:` followed by 32 lowercase hex digits")
  end.

(** [From<MxcError> for WxcError]. *)
Definition from_mxc (e : MxcError) : WxcError := Models.StateAware e.1 e.2.

Definition op_validate (o : StateAwareOperation) : result WxcError unit :=
  _ ← match o with
      | OpProvision (ProvisionMicroVm config) =>
          config ← ok_or config (Validation "microvm.image is required");
          map_err Validation (image_validate (image config))
      | _ => Ok tt
      end;
  match o with
  | OpProvision (ProvisionWslc (Some config)) =>
      match provision_port_mappings config with
      | Some mappings => Validator.validate_port_mappings "wslc.provision.portMappings" mappings
      | None => Ok tt
      end
  | OpDeprovisionSession session_id => map_err from_mxc (validate_wslc_session_id session_id)
  | OpProvision (ProvisionMicroVm (Some config)) => validate_memory_mib (memory_mib config)
  | _ => Ok tt
  end.

(** ** Input *)

Record StateAwareInput : Type := MkInput {
  input_common : W.CommonRequestIR;
  input_operation : StateAwareOperation;
}.

Definition present {A} (name : string) (field : option A) : list string :=
  match field with Some _ => [name] | None => [] end.

Definition contradictory (common : W.CommonRequestIR) : list string :=
  present "phase" (W.phase common) ++ present "sandboxId" (W.sandbox_id common)
  ++ present "containment" (W.containment common) ++ present "test" (W.test_feature common)
  ++ present "windowsSandbox" (W.windows_sandbox common) ++ present "containerId" (W.container_id common)
  ++ present "seatbelt" (W.seatbelt common) ++ present "processContainer" (W.process_container common)
  ++ present "lxc" (W.lxc common) ++ present "wslc" (W.wslc common) ++ present "microvm" (W.microvm common)
  ++ present "lifecycle" (W.lifecycle common).

Definition input_new (common : W.CommonRequestIR) (operation : StateAwareOperation) : result WxcError StateAwareInput :=
  _ ← fail_if (negb (is_empty (contradictory common)))
        (ConfigParse ("State-aware common input must not contain operation or one-shot field(s): "
                      +:+ string_join ", " (contradictory common)));
  _ ← op_validate operation;
  Ok (MkInput common operation).

(** ** Normalisation *)

Record ParsedStateAwareRequest : Type := MkParsed {
  parsed_request : ExecutionRequest;
  parsed_operation : StateAwareOperation;
}.

Definition state_aware_containment_from_id (sandbox_id : string) : option Wire.Containment :=
  '(prefix, _) ← split_once ":" sandbox_id;
  if bool_decide (prefix = "wslc") then Some Wire.Wslc
  else if bool_decide (prefix = "wsb") then Some Wire.WindowsSandbox
  else if bool_decide (prefix = "iso") then Some Wire.IsolationSession
  else if bool_decide (prefix = "microvm") then Some Wire.Microvm
  else None.

Definition with_containment (cfg : W.CommonRequestIR) (c : option Wire.Containment) : W.CommonRequestIR :=
  W.MkIR (W.source_contract cfg) (W.phase cfg) (W.sandbox_id cfg) (W.container_id cfg) c (W.process cfg) (W.lifecycle cfg)
    (W.process_container cfg) (W.lxc cfg) (W.wslc cfg) (W.filesystem cfg) (W.network cfg) (W.runtime_config cfg) (W.ui cfg)
    (W.seatbelt cfg) (W.telemetry cfg) (W.test_feature cfg) (W.windows_sandbox cfg) (W.hyperlight cfg) (W.microvm cfg).

(** The policy without directions, everything else kept. *)
Definition without_directions (p : ContainerPolicy) : ContainerPolicy :=
  with_network p None None (allowed_proxy_peer p) (network_proxy p) (network_specified p) (network_mode_specified p)
    (runtime_network_proxy_specified p).

(** The wire containment of the operations that declare one. *)
Definition declared_containment (o : StateAwareOperation) : option Wire.Containment :=
  match o with
  | OpProvisionSession _ | OpDeprovisionSession _ => Some Wire.Wslc
  | OpProvision (ProvisionIsolationSession _) => Some Wire.IsolationSession
  | OpProvision ProvisionWindowsSandbox => Some Wire.WindowsSandbox
  | OpProvision (ProvisionMicroVm _) => Some Wire.Microvm
  | OpProvision (ProvisionWslc _) => Some Wire.Wslc
  | OpStart _ | OpExec _ | OpStop _ | OpDeprovision _ => None
  end.

(** The struct update syntax with the contract forgotten. *)
Definition without_contract (r : ExecutionRequest) : ExecutionRequest :=
  MkRequest None (container_id r) (env r) (inherit_default_env r) (script_code r)
    (working_directory r) (script_timeout r) (containment r) (lifecycle r) (policy r) (lxc_config r) (wslc r)
    (seatbelt r) (telemetry r) (test_feature r) (windows_sandbox r) (hyperlight r) (microvm_image r)
    (microvm_memory_mib r) (experimental_enabled r) (dry_run r).

Section Normalize.
Context `{CC : CidrCrate} `{UC : UrlCrate} `{HP : P.HostPaths}.
Context (os : HostOs) (escape_diagnostic_text : string -> string) (path_missing : string -> result string bool).

Definition normalize_state_aware_common (common : W.CommonRequestIR) (phase : Phase) (declared : option Wire.Containment)
    (sandbox_id : option string) : result WxcError ExecutionRequest :=
  let network_supplied := bool_decide (is_Some (W.network common)) in
  let common :=
    with_containment common
      (if routes_by_containment phase then declared else sandbox_id ≫= state_aware_containment_from_id) in
  r ← P.normalize_common_request_ir os escape_diagnostic_text path_missing common (bool_decide (phase = Exec));
  Ok (if negb (bool_decide (phase = Provision)) && negb network_supplied
      then with_policy r (without_directions (policy r)) else r).

Definition normalize_state_aware (input : StateAwareInput) (preserve_source_contract : bool)
    : result WxcError ParsedStateAwareRequest :=
  let operation := input_operation input in
  r ← normalize_state_aware_common (input_common input) (op_phase operation) (declared_containment operation)
        (op_sandbox_id operation);
  Ok (MkParsed (if preserve_source_contract then r else without_contract r) operation).

End Normalize.

(** ** Routing *)

Section Routing.
(** [Debug] of a string and of a backend. *)
Context (debug : string -> string).

Definition backend_debug (b : ContainmentBackend) : string :=
  match b with
  | ProcessContainer => "ProcessContainer" | Wslc => "Wslc" | Lxc => "Lxc" | Vm => "Vm" | MicroVm => "MicroVm"
  | Hyperlight => "Hyperlight" | WindowsSandbox => "WindowsSandbox" | IsolationSession => "IsolationSession"
  | Seatbelt => "Seatbelt" | Bubblewrap => "Bubblewrap"
  end.

Definition parse_sandbox_id_prefix (sandbox_id : string) : result MxcError string :=
  match split_once ":" sandbox_id with
  | Some (prefix, _) =>
      if bool_decide (prefix = "") then
        Err (MalformedId, "sandbox_id " +:+ debug sandbox_id +:+ " is missing the `<prefix>:...` form")
      else Ok prefix
  | None => Err (MalformedId, "sandbox_id " +:+ debug sandbox_id +:+ " is missing the `<prefix>:...` form")
  end.

Definition backend_from_prefix (prefix : string) : result MxcError ContainmentBackend :=
  if bool_decide (prefix = "iso") then Ok IsolationSession
  else if bool_decide (prefix = "microvm") then Ok MicroVm
  else if bool_decide (prefix = "wsb") then Ok WindowsSandbox
  else if bool_decide (prefix = "wslc") then Ok Wslc
  else Err (UnsupportedContainment, "no state-aware backend registered for prefix " +:+ debug prefix).

Definition sandbox_id_required (parsed : ParsedStateAwareRequest) : result MxcError string :=
  ok_or (op_sandbox_id (parsed_operation parsed))
    (MalformedRequest, "phase " +:+ Phase_as_str (op_phase (parsed_operation parsed)) +:+ " requires a sandboxId").

Definition resolve_backend (parsed : ParsedStateAwareRequest) : result MxcError ContainmentBackend :=
  let phase := op_phase (parsed_operation parsed) in
  if routes_by_containment phase then
    ok_or (op_containment (parsed_operation parsed))
      (MalformedRequest, Phase_as_str phase +:+ " phase requires a containment field")
  else
    sandbox_id ← sandbox_id_required parsed;
    prefix ← parse_sandbox_id_prefix sandbox_id;
    backend_from_prefix prefix.

End Routing.

(** ** Lemmas *)

Lemma strip_tag_app tag s t : strip_tag tag s = Some t <-> s = tag +:+ t.
Proof.
  revert s. induction tag as [|a tag IH]; intros s; cbn.
  { split; [by intros [= ->]|by intros ->]. }
  destruct s as [|b s]; [done|]. case_decide as Hc; [subst b|].
  - rewrite IH. split; [by intros ->|by intros [= ->]].
  - split; [done|]. by intros [= <- _].
Qed.

(** The prefixes of sandbox ids. *)
Definition id_prefix (b : ContainmentBackend) : option string :=
  match b with
  | IsolationSession => Some "iso"
  | MicroVm => Some "microvm"
  | WindowsSandbox => Some "wsb"
  | Wslc => Some "wslc"
  | _ => None
  end.

Lemma backend_from_prefix_Ok debug prefix b : backend_from_prefix debug prefix = Ok b <-> id_prefix b = Some prefix.
Proof.
  unfold backend_from_prefix. split.
  - repeat case_bool_decide; intros [= <-]; by subst.
  - by destruct b; intros [= <-].
Qed.

(** What resolves a request to a backend: its declaration, or the prefix. *)
Lemma resolve_backend_Ok debug parsed b :
  resolve_backend debug parsed = Ok b <->
  match op_sandbox_id (parsed_operation parsed) with
  | Some id => exists prefix token, id = prefix +:+ String ":" token /\ lacks ":" prefix = true /\ id_prefix b = Some prefix
  | None => op_containment (parsed_operation parsed) = Some b
  end.
Proof.
  assert (Hid : forall id, (prefix ← parse_sandbox_id_prefix debug id; backend_from_prefix debug prefix) = Ok b <->
    exists prefix token, id = prefix +:+ String ":" token /\ lacks ":" prefix = true /\ id_prefix b = Some prefix).
  { intros id. unfold parse_sandbox_id_prefix. destruct (split_once ":" id) as [[prefix token]|] eqn:Hs.
    - apply split_once_Some in Hs as [-> Hl]. split.
      + case_bool_decide; [done|]. cbn. intros Hb%backend_from_prefix_Ok. by exists prefix, token.
      + intros (prefix' & token' & Heq & Hl' & Hp).
        assert (Some (prefix, token) = Some (prefix', token')) as [= <- <-].
        { rewrite <- (split_once_make ":" prefix token), <- (split_once_make ":" prefix' token') by done. by rewrite Heq. }
        rewrite bool_decide_eq_false_2; [cbn; by apply backend_from_prefix_Ok|]. by intros ->; destruct b.
    - split; [done|]. intros (prefix & token & -> & Hl & _). by rewrite split_once_make in Hs. }
  destruct parsed as [r [config|provision|id|id|id|id|id]]; try exact (Hid id); cbn; split; by intros [= <-].
Qed.

(** A request is normalised for the backend that will run it. *)
Lemma containment_from_id_agrees os id b prefix token :
  id = prefix +:+ String ":" token -> lacks ":" prefix = true -> id_prefix b = Some prefix ->
  P.map_wire_containment os (state_aware_containment_from_id id) = b.
Proof.
  intros -> Hl Hp. unfold state_aware_containment_from_id. rewrite split_once_make by done. cbn.
  destruct b; try discriminate Hp; injection Hp as <-; by destruct os.
Qed.

Lemma declared_agrees os o b : op_containment o = Some b -> P.map_wire_containment os (declared_containment o) = b.
Proof. by destruct o as [|[]| | | | |]; intros [= <-]; destruct os. Qed.

Section Normalized.
Context `{CC : CidrCrate} `{UC : UrlCrate} `{HP : P.HostPaths}.
Context (os : HostOs) (escape_diagnostic_text : string -> string) (path_missing : string -> result string bool).

Lemma input_new_inv common operation input :
  input_new common operation = Ok input ->
  input = MkInput common operation /\ contradictory common = [] /\ op_validate operation = Ok tt.
Proof.
  unfold input_new. intros ([] & He%fail_if_Ok & ([] & Hv & [= <-])%bind_Ok)%bind_Ok. split_and!; [done| |done].
  by destruct (contradictory common).
Qed.

Lemma contradictory_nil common :
  contradictory common = [] ->
  W.windows_sandbox common = None /\ W.seatbelt common = None /\ W.process_container common = None /\
  W.lxc common = None /\ W.wslc common = None.
Proof.
  unfold contradictory. intros H. repeat (apply app_eq_nil in H as [? H]).
  split_and!;
    [destruct (W.windows_sandbox common)|destruct (W.seatbelt common)|destruct (W.process_container common)
    |destruct (W.lxc common)|destruct (W.wslc common)]; done.
Qed.

(** The containment the common sections are read under. *)
Definition routed_containment (o : StateAwareOperation) : option Wire.Containment :=
  if routes_by_containment (op_phase o) then declared_containment o
  else op_sandbox_id o ≫= state_aware_containment_from_id.

Lemma routed_agrees debug parsed b :
  resolve_backend debug parsed = Ok b -> P.map_wire_containment os (routed_containment (parsed_operation parsed)) = b.
Proof.
  rewrite resolve_backend_Ok. unfold routed_containment.
  destruct (parsed_operation parsed) as [config|provision|id|id|id|id|id] eqn:Ho; cbn [op_sandbox_id op_phase];
    try (intros (prefix & token & Hid & Hl & Hp); by eapply containment_from_id_agrees).
  all: intros H; by apply declared_agrees.
Qed.

Lemma resolved_backend debug parsed b : resolve_backend debug parsed = Ok b -> is_Some (id_prefix b).
Proof.
  rewrite resolve_backend_Ok. destruct (parsed_operation parsed) as [|[]| | | | |]; cbn;
    try (intros (prefix & token & _ & _ & ->); done); by intros [= <-].
Qed.

(** Normalisation, with the changes made after the common part. *)
Lemma normalize_state_aware_inv input preserve parsed :
  normalize_state_aware os escape_diagnostic_text path_missing input preserve = Ok parsed ->
  exists r, let o := input_operation input in let r' := parsed_request parsed in
    P.normalize_common_request_ir os escape_diagnostic_text path_missing
      (with_containment (input_common input) (routed_containment o)) (bool_decide (op_phase o = Exec)) = Ok r /\
    parsed_operation parsed = o /\ containment r' = containment r /\ script_code r' = script_code r /\
    wslc r' = wslc r /\ seatbelt r' = seatbelt r /\ windows_sandbox r' = windows_sandbox r /\ hyperlight r' = hyperlight r /\
    policy r' = (if negb (bool_decide (op_phase o = Provision)) && negb (bool_decide (is_Some (W.network (input_common input))))
                 then without_directions (policy r) else policy r) /\
    source_contract r' = (if preserve then source_contract r else None).
Proof.
  unfold normalize_state_aware, normalize_state_aware_common.
  intros (r1 & (r & Hr & [= <-])%bind_Ok & [= <-])%bind_Ok. exists r. cbv zeta.
  split; [exact Hr|]. destruct (negb _ && negb _), preserve; split_and!; done.
Qed.

(** C25. A lifecycle request means the same to the parser and to the dispatcher.
    When a checked input is normalised and its backend is found, the request was
    normalised for that very backend; its command has no NUL byte, and an exec has
    a command; a phase other than provision whose input has no network section
    restricts no direction of traffic; no section of another backend is left,
    not even the one the input check does not look for; it has no capability;
    and a request the library built is attributed to no wire contract. *)
Theorem lifecycle_request_consistent debug common operation input preserve parsed b :
  input_new common operation = Ok input ->
  normalize_state_aware os escape_diagnostic_text path_missing input preserve = Ok parsed ->
  resolve_backend debug parsed = Ok b ->
  let r := parsed_request parsed in
  parsed_operation parsed = operation /\ containment r = b /\ lacks "000"%char (script_code r) = true /\
  (op_phase operation = Exec -> Validator.validate_exec_common r = Ok tt) /\
  (op_phase operation <> Provision -> W.network common = None ->
     network_egress (policy r) = None /\ network_ingress (policy r) = None) /\
  wslc r = None /\ seatbelt r = None /\ windows_sandbox r = None /\ hyperlight r = None /\ capabilities (policy r) = [] /\
  (preserve = false -> source_contract r = None).
Proof.
  intros (-> & Hc & _)%input_new_inv Hn Hb. destruct (contradictory_nil _ Hc) as (Cw & Cs & Cp & _ & Cc).
  pose proof (routed_agrees _ _ _ Hb) as Hrouted. pose proof (resolved_backend _ _ _ Hb) as Hstate.
  destruct (normalize_state_aware_inv _ _ _ Hn) as (r & Hr & Ho & Hk & Hs & Hw & Hse & Hwi & Hhy & Hp & Hcon).
  cbn [input_operation input_common] in *. cbv zeta. rewrite Ho, Hk, Hs, Hw, Hse, Hwi, Hhy, Hcon. rewrite Ho in Hrouted.
  pose proof (P.sections_of_backend _ _ _ _ _ _ Hr) as (_ & _ & _ & _ & _ & Hhl).
  pose proof (P.policy_of_section _ _ _ _ _ _ Hr) as (p0 & Hp0 & Hcaps & _).
  destruct (P.normalize_inv _ _ _ _ _ _ Hr) as (fields & p & Hf & Hsc & Hcr & _ & _ & _ & Hwr & Hser & Hwir & Hhyr).
  cbn [with_containment W.containment W.wslc W.seatbelt W.windows_sandbox W.hyperlight W.process_container W.process] in *.
  rewrite Cc in Hwr. rewrite Cs in Hser. rewrite Cw in Hwir. rewrite Cp in Hp0. rewrite Hrouted in Hcr.
  destruct (P.process_fields_inv _ _ _ Hf) as [Hnul Hcmd]. rewrite <- Hsc in Hnul, Hcmd.
  split_and!; try done.
  - intros He. unfold Validator.validate_exec_common. rewrite Hs. rewrite bool_decide_eq_false_2; [done|].
    apply Hcmd. by apply bool_decide_eq_true_2.
  - intros Hph Hnet. rewrite Hp, Hnet. by rewrite bool_decide_eq_false_2.
  - by injection Hwr as <-.
  - apply eq_None_not_Some. by intros []%Hser.
  - apply eq_None_not_Some. by intros []%Hwir.
  - apply eq_None_not_Some. intros Hsome%Hhyr%Hhl. rewrite Hcr in Hsome. rewrite Hsome in Hstate. by destruct Hstate.
  - assert (capabilities (policy r) = []) by (rewrite Hcaps; by injection Hp0 as <-).
    rewrite Hp. by destruct (negb _ && negb _).
  - by intros ->.
Qed.

End Normalized.

(** ** Witness *)

#[local] Existing Instance P.unix_paths.
#[local] Existing Instance Instances.cidr_crate.
#[local] Existing Instance Instances.url_crate.

(** An exec of a WSL container: a process, and no network section. *)
Definition exec_ir : W.CommonRequestIR :=
  W.MkIR V1_0_0 None None None None (Some P.shell_process) None None None None None None None None None None None None None None.

Definition exec_input : StateAwareInput := MkInput exec_ir (OpExec "wslc:01ab").

Definition exec_parsed : result WxcError ParsedStateAwareRequest :=
  normalize_state_aware Windows (fun s => s) (fun _ => Ok false) exec_input false.

Lemma lifecycle_request_consistent_witness :
  exists parsed, exec_parsed = Ok parsed /\ containment (parsed_request parsed) = Wslc /\
    Validator.validate_exec_common (parsed_request parsed) = Ok tt.
Proof.
  destruct exec_parsed as [parsed|] eqn:E; [|by vm_compute in E]. exists parsed. split; [done|].
  assert (Hb : resolve_backend (fun s => s) parsed = Ok Wslc) by (vm_compute in E; by injection E as <-).
  pose proof (lifecycle_request_consistent Windows (fun s => s) (fun _ => Ok false) (fun s => s) exec_ir (OpExec "wslc:01ab")
                exec_input false parsed Wslc eq_refl E Hb) as (_ & Hc & _ & He & _).
  split; [exact Hc|]. by apply He.
Defined.

End StateAware.
