(* ===== verification/ExecRelay.v ===== *)
(** * The relay of an attached exec

    The part of [core/mxc_common/state_aware_dispatch.rs] that carries the output
    of a process to the streams of this one: the pump threads, their bounded
    drain, and the order in which a process is awaited, terminated and reaped.
    The closures of the backend act on its state and on the clock; what the host
    decides (whether a handle can be duplicated, a thread started, when a pump is
    done) are arguments.  Every step the relay takes is recorded. *)

From stdpp Require Import list.
From S2P Require Import Prelude NetText Wire Models Requests NetworkBlocks ProxyEnv Crates NetworkParser UnixPath FsPolicy WireRequest Validator ConfigParser StateAware.

Module ExecRelay.
Import StateAware (MxcError).

Inductive ExecOutcome : Type :=
| Exited (code : Z)
| TimedOut.

(** [PipeHandle] is a kernel handle or a descriptor. *)
Record ExecHandle (B : Type) : Type := MkHandle {
  stdout : Z;
  stderr : Z;
  stdin : Z;
  waiter : B -> Z -> result MxcError ExecOutcome * B * Z;
  terminator : B -> Z -> result MxcError unit * B * Z;
}.
Arguments MkHandle {B}.
Arguments stdout {B}.
Arguments stderr {B}.
Arguments stdin {B}.
Arguments waiter {B}.
Arguments terminator {B}.

(** ** One pump *)

(** What one [read] returns; no byte is the end of the stream. *)
Inductive Read : Type :=
| ReadBytes (chunk : list Z)
| Interrupted
| ReadError.

Section Pump.
Context {D : Type}.
(** [write_all] and [flush] of the destination, and the flag as each pass reads it. *)
Context (write_flush : list Z -> D -> bool * D).

(** The loop: the reads that are left, each with the flag.  The result is the
    destination and the reads that were not taken. *)
Fixpoint pump_loop (src : list (Read * bool)) (dst : D) (discarding : bool) : D * list (Read * bool) :=
  match src with
  | [] => (dst, [])
  | (ReadBytes [], _) :: rest => (dst, rest)
  | (ReadBytes chunk, muted) :: rest =>
      if negb discarding && negb muted then
        let '(wrote, dst) := write_flush chunk dst in pump_loop rest dst (negb wrote)
      else pump_loop rest dst discarding
  | (Interrupted, _) :: rest => pump_loop rest dst discarding
  | (ReadError, _) :: rest => (dst, rest)
  end.

Definition pump_stream (src : list (Read * bool)) (dst : D) : D * list (Read * bool) := pump_loop src dst false.

End Pump.

(** The end of a stream, or a failed read. *)
Definition ends (r : Read) : bool :=
  match r with ReadBytes [] | ReadError => true | _ => false end.

(** ** Draining *)

(** A pump and the time at which it signals its end, if it does. *)
Record Pump : Type := MkPump {
  pump_name : string;
  finished : option Z;
}.

Inductive Event : Type :=
| Started (name : string)
| Waited
| Terminated
| Joined (name : string)
| Muted (name : string).

Definition POST_EXIT_DRAIN_GRACE : Z := 5000.

(** [recv_timeout] from [now], and the time at which it returns. *)
Definition recv_timeout (p : Pump) (now remaining : Z) : bool * Z :=
  match finished p with
  | Some t => if t <=? now + remaining then (true, Z.max now t) else (false, now + remaining)
  | None => (false, now + remaining)
  end.

Fixpoint drain_until (pumps : list Pump) (deadline now : Z) : list Event * Z :=
  match pumps with
  | [] => ([], now)
  | p :: rest =>
      let remaining := Z.max 0 (deadline - now) in
      let '(ok, now) := recv_timeout p now remaining in
      let '(events, now) := drain_until rest deadline now in
      ((if ok then Joined (pump_name p) else Muted (pump_name p)) :: events, now)
  end.

Definition drain_pumps_within (pumps : list Pump) (grace now : Z) : list Event * Z :=
  drain_until pumps (now + grace) now.

Definition drain_pumps (pumps : list Pump) (now : Z) : list Event * Z :=
  drain_pumps_within pumps POST_EXIT_DRAIN_GRACE now.

(** ** The relay *)

(** [classify_stream]. *)
Definition classify_stream {T} (is_null : bool) (wrap : option T) (stream : string) : result MxcError (option T) :=
  if is_null then Ok None
  else match wrap with
       | Some t => Ok (Some t)
       | None => Err (BackendError, "failed to duplicate the exec " +:+ stream +:+ " pipe handle")
       end.

(** The state of the backend, the clock and the steps so far. *)
Record Run (B : Type) : Type := MkRun {
  self : B;
  now : Z;
  events : list Event;
}.
Arguments MkRun {B}.
Arguments self {B}.
Arguments now {B}.
Arguments events {B}.

Section Relay.
Context {B : Type}.
(** The host: null handles, duplication, thread creation and the pumps. *)
Context (is_null_pipe : Z -> bool) (wrap_read : Z -> option Z).
Context (spawn_error : string -> option string) (done_at : string -> option Z).

Definition log (es : list Event) (t : Z) (s : Run B) : Run B := MkRun (self s) t (events s ++ es).

Definition run_waiter (h : ExecHandle B) (s : Run B) : result MxcError ExecOutcome * Run B :=
  let '(outcome, b, t) := waiter h (self s) (now s) in (outcome, MkRun b t (events s ++ [Waited])).

Definition run_terminator (h : ExecHandle B) (s : Run B) : Run B :=
  let '(_, b, t) := terminator h (self s) (now s) in MkRun b t (events s ++ [Terminated]).

Definition run_drain (pumps : list Pump) (s : Run B) : Run B :=
  let '(es, t) := drain_pumps pumps (now s) in log es t s.

Definition wrap_read_checked (handle : Z) (stream : string) : result MxcError (option Z) :=
  classify_stream (is_null_pipe handle) (wrap_read handle) stream.

Definition spawn_pump (name : string) (s : Run B) : result MxcError Pump * Run B :=
  match spawn_error name with
  | Some error => (Err (BackendError, "failed to start " +:+ name +:+ ": " +:+ error), s)
  | None => (Ok (MkPump name (done_at name)), log [Started name] (now s) s)
  end.

Definition abort_relay (h : ExecHandle B) (pumps : list Pump) (error : MxcError) (s : Run B) : result MxcError Z * Run B :=
  let s := run_terminator h s in
  let s := run_drain pumps s in
  let '(_, s) := run_waiter h s in
  (Err error, s).

(** The end of the relay, once the pumps run. *)
Definition await_relay (h : ExecHandle B) (pumps : list Pump) (s : Run B) : result MxcError Z * Run B :=
  let '(outcome, s) := run_waiter h s in
  let s := match outcome with Err _ => run_terminator h s | Ok _ => s end in
  let s := run_drain pumps s in
  match outcome with
  | Ok (Exited code) => (Ok code, s)
  | Ok TimedOut =>
      (Err (BackendError, "backend reported a timeout to the relay, which has no way to represent one; a backend serving ExecStdio::Relayed must report ExecOutcome::Exited"), s)
  | Err error => (Err error, s)
  end.

(** One stream: absent, or a pump that starts or not. *)
Definition start_stream (name : string) (stream : option Z) (pumps : list Pump) (s : Run B)
    : result MxcError (list Pump) * Run B :=
  match stream with
  | None => (Ok pumps, s)
  | Some _ =>
      match spawn_pump name s with
      | (Ok pump, s) => (Ok (pumps ++ [pump]), s)
      | (Err error, s) => (Err error, s)
      end
  end.

Definition relay_prepared_streams (streams : result MxcError (option Z * option Z)) (h : ExecHandle B) (s : Run B)
    : result MxcError Z * Run B :=
  match streams with
  | Err error => abort_relay h [] error s
  | Ok (out, err) =>
      match start_stream "mxc-relay-stdout" out [] s with
      | (Err error, s) => abort_relay h [] error s
      | (Ok pumps, s) =>
          match start_stream "mxc-relay-stderr" err pumps s with
          | (Err error, s) => abort_relay h pumps error s
          | (Ok pumps, s) => await_relay h pumps s
          end
      end
  end.

Definition relay_exec_to_stdio (h : ExecHandle B) (s : Run B) : result MxcError Z * Run B :=
  let streams :=
    out ← wrap_read_checked (stdout h) "stdout";
    err ← wrap_read_checked (stderr h) "stderr";
    Ok (out, err) in
  relay_prepared_streams streams h s.

End Relay.

(** ** A pump never leaves a writer stuck *)

(** The reads up to the one that ends the stream, and those after it. *)
Fixpoint until_end (src : list (Read * bool)) : list (Read * bool) :=
  match src with
  | [] => []
  | (r, m) :: rest => if ends r then [] else (r, m) :: until_end rest
  end.

Fixpoint after_end (src : list (Read * bool)) : list (Read * bool) :=
  match src with
  | [] => []
  | (r, _) :: rest => if ends r then rest else after_end rest
  end.

(** The chunks that are not muted. *)
Definition heard (src : list (Read * bool)) : list (list Z) :=
  omap (fun rm => match rm with (ReadBytes chunk, false) => Some chunk | _ => None end) src.

(** A destination that answers by the chunks handed to it so far. *)
Definition answering (ok : list (list Z) -> bool) (chunk : list Z) (calls : list (list Z)) : bool * list (list Z) :=
  (ok (calls ++ [chunk]), calls ++ [chunk]).

Lemma pump_reads_on {D} (write_flush : list Z -> D -> bool * D) src dst discarding :
  (pump_loop write_flush src dst discarding).2 = after_end src.
Proof.
  revert dst discarding. induction src as [|[[[|b chunk]| |] m] src IH]; intros dst discarding; cbn; try done.
  destruct (negb discarding && negb m); [|apply IH]. destruct (write_flush _ dst) as [wrote dst']. apply IH.
Qed.

Lemma pump_discards {D} (write_flush : list Z -> D -> bool * D) src dst : (pump_loop write_flush src dst true).1 = dst.
Proof. revert dst. induction src as [|[[[|b chunk]| |] m] src IH]; intros dst; cbn; done. Qed.

(** What is handed on: chunks in order, until one fails. *)
Lemma pump_hands_on ok src calls :
  exists more, (pump_loop (answering ok) src calls false).1 = calls ++ more /\ more `prefix_of` heard (until_end src) /\
    (forall k, (0 < k < length more)%nat -> ok (calls ++ take k more) = true) /\
    (more = heard (until_end src) \/ (more <> [] /\ ok (calls ++ more) = false)).
Proof.
  revert calls. induction src as [|[[[|b chunk]| |] m] src IH]; intros calls; cbn.
  1,2,5: exists []; rewrite app_nil_r; split_and!; [done..| |by left]; cbn; lia.
  - destruct m; cbn; [apply IH|]. destruct (ok (calls ++ [b :: chunk])) eqn:E; cbn.
    + destruct (IH (calls ++ [b :: chunk])) as (more & -> & Hp & Hk & Hend). exists ((b :: chunk) :: more).
      rewrite <- app_assoc in *. split_and!; [done|by apply prefix_cons| |].
      * intros [|[|k]] Hlen; cbn in *; [lia|done|]. specialize (Hk (S k) ltac:(lia)). by rewrite <- app_assoc in Hk.
      * destruct Hend as [->|[_ Hf]]; [by left|]. by right.
    + rewrite pump_discards. exists [b :: chunk]. split_and!; [done|apply prefix_cons, prefix_nil|cbn; lia|by right].
  - apply IH.
Qed.

(** A pump drains its source whatever becomes of its destination: it stops
    reading only at the end of the stream or a failed read, the same read whether
    writes succeed, fail or are muted, so it never leaves a process blocked on a
    full pipe.  The destination is handed the chunks that are not muted, in order
    and without a gap; after a chunk it refuses it is not touched again, and
    without a refusal it gets them all. *)
Theorem pump_drains_source ok src :
  let '(calls, rest) := pump_stream (answering ok) src [] in
  rest = after_end src /\ calls `prefix_of` heard (until_end src) /\
  (forall k, (0 < k < length calls)%nat -> ok (take k calls) = true) /\
  (calls = heard (until_end src) \/ (calls <> [] /\ ok calls = false)).
Proof.
  pose proof (pump_reads_on (answering ok) src [] false) as Hrest.
  destruct (pump_hands_on ok src []) as (more & Hcalls & Hp & Hk & Hend).
  unfold pump_stream. destruct (pump_loop (answering ok) src [] false) as [calls rest]. cbn in Hrest, Hcalls. by subst.
Qed.

(** ** The drain is bounded *)

(** How a pump fares against a deadline. *)
Definition settled_at (done_at : string -> option Z) (deadline : Z) (name : string) : Event :=
  match done_at name with
  | Some t => if t <=? deadline then Joined name else Muted name
  | None => Muted name
  end.

Definition pump_of (done_at : string -> option Z) (name : string) : Pump := MkPump name (done_at name).

Lemma drain_until_spec done_at names deadline t :
  t <= deadline ->
  (drain_until (pump_of done_at <$> names) deadline t).1 = settled_at done_at deadline <$> names /\
  t <= (drain_until (pump_of done_at <$> names) deadline t).2 <= deadline.
Proof.
  revert t. induction names as [|name names IH]; intros t Ht; cbn; [split; [done|lia]|].
  unfold recv_timeout, settled_at at 1. cbn. rewrite Z.max_r by lia. replace (t + (deadline - t)) with deadline by lia.
  destruct (done_at name) as [d|]; [destruct (Z.leb_spec d deadline)|];
    [destruct (IH (Z.max t d) ltac:(lia)) as [He Ht'], (drain_until _ _ (Z.max t d)) as [es t'] eqn:Hd
    |destruct (IH deadline ltac:(lia)) as [He Ht'], (drain_until _ _ deadline) as [es t'] eqn:Hd..];
    cbn in *; subst es; split; (done || lia).
Qed.

Section Reaped.
Context {B : Type} (is_null_pipe : Z -> bool) (wrap_read : Z -> option Z).
Context (spawn_error : string -> option string) (done_at : string -> option Z).

Lemma run_drain_spec names (s : Run B) :
  exists t, run_drain (pump_of done_at <$> names) s = log (settled_at done_at (now s + POST_EXIT_DRAIN_GRACE) <$> names) t s /\
    now s <= t <= now s + POST_EXIT_DRAIN_GRACE.
Proof.
  unfold run_drain, drain_pumps, drain_pumps_within.
  destruct (drain_until_spec done_at names (now s + POST_EXIT_DRAIN_GRACE) (now s)) as [He Ht]; [unfold POST_EXIT_DRAIN_GRACE; lia|].
  destruct (drain_until _ _ _) as [es t]. cbn in He, Ht. subst es. by exists t.
Qed.

(** The streams the process has, each with its pump. *)
Definition live (h : ExecHandle B) : list string :=
  (if is_null_pipe (stdout h) then [] else ["mxc-relay-stdout"])
  ++ (if is_null_pipe (stderr h) then [] else ["mxc-relay-stderr"]).

(** Every such stream can be read and has a thread. *)
Definition relayable (h : ExecHandle B) : bool :=
  (is_null_pipe (stdout h) || bool_decide (is_Some (wrap_read (stdout h)) /\ spawn_error "mxc-relay-stdout" = None))
  && (is_null_pipe (stderr h) || bool_decide (is_Some (wrap_read (stderr h)) /\ spawn_error "mxc-relay-stderr" = None)).

(** The steps of a relay that could be set up, and of one that could not. *)
Definition awaited (h : ExecHandle B) (s : Run B) (r : result MxcError Z) (s' : Run B) : Prop :=
  let '(outcome, b, t) := waiter h (self s) (now s) in
  let '(b, t, ended) :=
    match outcome with
    | Ok _ => (b, t, [Waited])
    | Err _ => let '(_, b, t) := terminator h b t in (b, t, [Waited; Terminated])
    end in
  self s' = b /\
  events s' = events s ++ (Started <$> live h) ++ ended ++ (settled_at done_at (t + POST_EXIT_DRAIN_GRACE) <$> live h) /\
  t <= now s' <= t + POST_EXIT_DRAIN_GRACE /\ (forall code, r = Ok code <-> outcome = Ok (Exited code)).

Definition aborted (h : ExecHandle B) (s : Run B) (r : result MxcError Z) (s' : Run B) : Prop :=
  exists names, names `prefix_of` live h /\
  let '(_, b, t) := terminator h (self s) (now s) in
  exists t', t <= t' <= t + POST_EXIT_DRAIN_GRACE /\
  let '(_, b, t'') := waiter h b t' in
  self s' = b /\ now s' = t'' /\ (exists message, r = Err (BackendError, message)) /\
  events s' = events s ++ (Started <$> names) ++ [Terminated] ++ (settled_at done_at (t + POST_EXIT_DRAIN_GRACE) <$> names) ++ [Waited].

Abbreviation relay := (relay_exec_to_stdio is_null_pipe wrap_read spawn_error done_at).
Abbreviation pumps_of names := (pump_of done_at <$> names).

Lemma await_spec (h : ExecHandle B) s0 :
  awaited h s0 (await_relay h (pumps_of (live h)) (log (Started <$> live h) (now s0) s0)).1
    (await_relay h (pumps_of (live h)) (log (Started <$> live h) (now s0) s0)).2.
Proof.
  unfold awaited, await_relay, run_waiter. cbn [self now events log].
  destruct (waiter h (self s0) (now s0)) as [[[outcome|error] b] t].
  - destruct (run_drain_spec (live h) (MkRun b t ((events s0 ++ (Started <$> live h)) ++ [Waited]))) as (t' & -> & Ht).
    cbn in *. destruct outcome; cbn; (split_and!; [done|by rewrite <- !app_assoc|lia..|naive_solver]).
  - unfold run_terminator. cbn [self now events]. destruct (terminator h b t) as [[x b'] t1].
    destruct (run_drain_spec (live h) (MkRun b' t1 (((events s0 ++ (Started <$> live h)) ++ [Waited]) ++ [Terminated]))) as (t' & -> & Ht).
    cbn in *. split_and!; [done|by rewrite <- !app_assoc|lia..|naive_solver].
Qed.

Lemma abort_spec (h : ExecHandle B) s0 names message :
  names `prefix_of` live h ->
  aborted h s0 (abort_relay h (pumps_of names) (BackendError, message) (log (Started <$> names) (now s0) s0)).1
    (abort_relay h (pumps_of names) (BackendError, message) (log (Started <$> names) (now s0) s0)).2.
Proof.
  intros Hp. exists names. split; [done|]. unfold abort_relay, run_terminator, run_waiter. cbn [self now events log].
  destruct (terminator h (self s0) (now s0)) as [[x b] t].
  destruct (run_drain_spec names (MkRun b t ((events s0 ++ (Started <$> names)) ++ [Terminated]))) as (t' & -> & Ht).
  exists t'. split; [exact Ht|]. cbn [self now events log].
  destruct (waiter h b t') as [[y b'] t'']. cbn. split_and!; [done|done|by eexists|by rewrite <- !app_assoc].
Qed.

Lemma log_nothing (s : Run B) : log [] (now s) s = s.
Proof. destruct s as [b t es]. unfold log. cbn. by rewrite app_nil_r. Qed.

Lemma log_log es es' t (s : Run B) : log es' t (log es t s) = log (es ++ es') t s.
Proof. unfold log. cbn. by rewrite app_assoc. Qed.

(** One stream: not there, pumped, or in the way. *)
Lemma stream_cases handle stream name :
  (is_null_pipe handle = true /\ wrap_read_checked is_null_pipe wrap_read handle stream = Ok None) \/
  (is_null_pipe handle = false /\ wrap_read handle = None /\
     exists message, wrap_read_checked is_null_pipe wrap_read handle stream = Err (BackendError, message)) \/
  (is_null_pipe handle = false /\ exists d, wrap_read handle = Some d /\
     wrap_read_checked is_null_pipe wrap_read handle stream = Ok (Some d) /\
     ((spawn_error name = None /\
         forall (s : Run B), spawn_pump spawn_error done_at name s = (Ok (pump_of done_at name), log [Started name] (now s) s)) \/
      exists e message, spawn_error name = Some e /\
        forall (s : Run B), spawn_pump spawn_error done_at name s = (Err (BackendError, message), s))).
Proof.
  unfold wrap_read_checked, classify_stream, spawn_pump.
  destruct (is_null_pipe handle); [by left|right]. destruct (wrap_read handle) as [d|]; [|left; by eauto].
  right. split; [done|]. exists d. split_and!; [done..|]. destruct (spawn_error name) as [e|]; [right|left]; eauto.
Qed.

Lemma relay_cases (h : ExecHandle B) (s : Run B) :
  (relayable h = true /\ relay h s = await_relay h (pumps_of (live h)) (log (Started <$> live h) (now s) s)) \/
  (relayable h = false /\ exists names message, names `prefix_of` live h /\
     relay h s = abort_relay h (pumps_of names) (BackendError, message) (log (Started <$> names) (now s) s)).
Proof.
  unfold relay_exec_to_stdio, relayable, live.
  destruct (stream_cases (stdout h) "stdout" "mxc-relay-stdout")
    as [[-> ->]|[(-> & -> & m & ->)|(-> & d & -> & -> & [[-> Hs]|(e & m & -> & Hs)])]];
  destruct (stream_cases (stderr h) "stderr" "mxc-relay-stderr")
    as [[-> ->]|[(-> & -> & m' & ->)|(-> & d' & -> & -> & [[-> Hs']|(e' & m' & -> & Hs')])]];
  cbn [mbind result_bind relay_prepared_streams start_stream app fmap list_fmap]; rewrite ?Hs; cbn [app]; rewrite ?Hs', ?log_log;
  first
    [ left; split; [reflexivity|by rewrite ?log_nothing]
    | right; split; [reflexivity|];
      first [exists [], m; split; [apply prefix_nil|by rewrite log_nothing]
            |exists [], m'; split; [apply prefix_nil|by rewrite log_nothing]
            |exists ["mxc-relay-stdout"], m'; split; [apply prefix_cons, prefix_nil|done]] ].
Qed.

(** C23. An attached exec is always awaited, exactly once, on every path: when
    its streams can be relayed, the pumps of all of them start before the wait,
    the process is terminated only if the wait could not tell its exit, and the
    exit code is what the relay returns; when a stream cannot be duplicated or
    pumped, the process is terminated and then reaped, and the answer is an
    error.  Either way every pump that started is joined or silenced within the
    grace period, joined exactly if it was done by then, so output that is left
    over delays the answer by at most that long. *)
Theorem exec_relay_reaps (h : ExecHandle B) (s : Run B) :
  if relayable h then awaited h s (relay h s).1 (relay h s).2 else aborted h s (relay h s).1 (relay h s).2.
Proof.
  destruct (relay_cases h s) as [[-> ->]|(-> & names & message & Hp & ->)]; [apply await_spec|by apply abort_spec].
Qed.

End Reaped.

End ExecRelay.
