(* ===== verification/Lifecycle.v ===== *)
(** * Lifecycle dispatch

    [core/mxc_common/state_aware_backend.rs], [state_aware_binding.rs],
    [state_aware_dispatch.rs] and, of the engine, [state_aware.rs],
    [experimental.rs] and [backend_registry.rs].  A backend is an interface, the
    [StatefulSandboxBackend] class, over the state it keeps; a request is bound
    to exactly one backend, its phase is validated and run there, and the typed
    result becomes a response envelope.  The engine keeps one state per backend
    that has a lifecycle. *)

From Stdlib Require Import Ascii.
From stdpp Require Import list.
From S2P Require Import Prelude NetText Wire Models Requests NetworkBlocks ProxyEnv Crates NetworkParser UnixPath FsPolicy WireRequest Validator ConfigParser StateAware ExecRelay.

Module Lifecycle.
Import StateAware ExecRelay.

(** ** Envelopes *)

(** The JSON values the responses are made of. *)
Inductive Value : Type :=
| JString (s : string)
| JArray (items : list Value)
| JObject (members : list (string * Value))
| JOther (text : string).

Definition response (body : Value) : Value := JObject [("result", body)].

Definition metadata_member (metadata : option Value) : list (string * Value) :=
  match metadata with Some m => [("metadata", m)] | None => [] end.

(** ** The interface of a backend *)

Inductive ExecStdio : Type := Relayed | Piped.

Record ProvisionResult (M : Type) : Type := MkProvisionResult {
  result_sandbox_id : string;
  result_metadata : option M;
}.
Arguments MkProvisionResult {M}.
Arguments result_sandbox_id {M}.
Arguments result_metadata {M}.

(** The phases of a backend over its state, the hooks that check them, which only
    read it, and the derived serialisation of the metadata.  The terminal form of an
    exec is left out.  The configurations of
    the phases after provision are all the unit type, as binding requires. *)
Class StatefulSandboxBackend (B ProvisionConfig : Type) : Type := {
  ID_PREFIX : string;
  BACKEND_KEY : string;
  ProvisionMetadata : Type;
  StartMetadata : Type;
  StopMetadata : Type;
  DeprovisionMetadata : Type;
  provision_session : ExecutionRequest -> option WslcProvisionSessionConfig -> B -> result MxcError string * B;
  provision : ExecutionRequest -> option ProvisionConfig -> B -> result MxcError (ProvisionResult ProvisionMetadata) * B;
  start : string -> ExecutionRequest -> option () -> B -> result MxcError (option StartMetadata) * B;
  exec : string -> ExecutionRequest -> option () -> ExecStdio -> B -> result MxcError (ExecHandle B) * B;
  stop : string -> ExecutionRequest -> option () -> B -> result MxcError (option StopMetadata) * B;
  deprovision : string -> ExecutionRequest -> option () -> B -> result MxcError (option DeprovisionMetadata) * B;
  deprovision_session : string -> ExecutionRequest -> B -> result MxcError () * B;
  validate_provision_session : B -> ExecutionRequest -> option WslcProvisionSessionConfig -> result MxcError ();
  validate_provision : B -> ExecutionRequest -> option ProvisionConfig -> result MxcError ();
  validate_start : B -> string -> ExecutionRequest -> option () -> result MxcError ();
  validate_exec : B -> string -> ExecutionRequest -> option () -> result MxcError ();
  validate_stop : B -> string -> ExecutionRequest -> option () -> result MxcError ();
  validate_deprovision : B -> string -> ExecutionRequest -> option () -> result MxcError ();
  validate_deprovision_session : B -> string -> ExecutionRequest -> result MxcError ();
  to_value_provision : ProvisionMetadata -> result string Value;
  to_value_start : StartMetadata -> result string Value;
  to_value_stop : StopMetadata -> result string Value;
  to_value_deprovision : DeprovisionMetadata -> result string Value;
}.

(** The default bodies. *)
Definition unsupported_session_operation (backend operation : string) : MxcError :=
  (UnsupportedPhase, "the " +:+ backend +:+ " backend does not support " +:+ operation
                       +:+ ": it owns no session that sandboxes are placed into").

Definition default_provision {M C} (id_prefix token : string) (r : ExecutionRequest) (config : option C)
    : result MxcError (ProvisionResult M) :=
  Ok (MkProvisionResult (id_prefix +:+ ":" +:+ token) None).

Definition default_provision_session (backend_key : string) (r : ExecutionRequest) (config : option WslcProvisionSessionConfig)
    : result MxcError string :=
  Err (unsupported_session_operation backend_key "provisioning a session").

Definition default_deprovision_session (backend_key : string) (session_id : string) (r : ExecutionRequest)
    : result MxcError () :=
  Err (unsupported_session_operation backend_key "deprovisioning a session").

(** What the later phases rely on: a sandbox is named under the prefix of its
    backend. *)
Class MintsOwnIds (B C : Type) `{SB : StatefulSandboxBackend B C} : Prop :=
  provision_mints : forall r config b result b',
    provision r config b = (Ok result, b') -> exists token, result_sandbox_id result = ID_PREFIX +:+ String ":" token.

(** ** Binding *)

Inductive BoundStateAwareOperation (C : Type) : Type :=
| BoundProvisionSession (config : option WslcProvisionSessionConfig)
| BoundProvision (config : option C)
| BoundStart (sandbox_id : string) (config : option ())
| BoundExec (sandbox_id : string) (config : option ())
| BoundStop (sandbox_id : string) (config : option ())
| BoundDeprovision (sandbox_id : string) (config : option ())
| BoundDeprovisionSession (session_id : string).
Arguments BoundProvisionSession {C}.
Arguments BoundProvision {C}.
Arguments BoundStart {C}.
Arguments BoundExec {C}.
Arguments BoundStop {C}.
Arguments BoundDeprovision {C}.
Arguments BoundDeprovisionSession {C}.

Record BoundStateAwareRequest (C : Type) : Type := MkBound {
  bound_request : ExecutionRequest;
  bound_operation : BoundStateAwareOperation C;
}.
Arguments MkBound {C}.
Arguments bound_request {C}.
Arguments bound_operation {C}.

Definition bound_phase {C} (bound : BoundStateAwareRequest C) : Phase :=
  match bound_operation bound with
  | BoundProvisionSession _ => ProvisionSession
  | BoundProvision _ => Provision
  | BoundStart _ _ => Start
  | BoundExec _ _ => Exec
  | BoundStop _ _ => Stop
  | BoundDeprovision _ _ => Deprovision
  | BoundDeprovisionSession _ => DeprovisionSession
  end.

Section Binding.
Context (debug : string -> string).

Definition incompatible_payload (actual : ContainmentBackend) (backend : string) : MxcError :=
  (MalformedRequest, "state-aware " +:+ backend_debug actual +:+ " operation is incompatible with backend " +:+ debug backend).

Definition bind (B : Type) {C} `{SB : StatefulSandboxBackend B C} (parsed : ParsedStateAwareRequest)
    (expected : ContainmentBackend) (id_prefix : string)
    (provision : StateAwareProvision -> result MxcError (option C)) : result MxcError (BoundStateAwareRequest C) :=
  actual ← resolve_backend debug parsed;
  _ ← fail_if (negb (bool_decide (actual = expected)) || negb (bool_decide (BACKEND_KEY = wire_name expected))
               || negb (bool_decide (ID_PREFIX = id_prefix)))
        (incompatible_payload actual BACKEND_KEY);
  operation ←
    match parsed_operation parsed with
    | OpProvisionSession config => Ok (BoundProvisionSession config)
    | OpProvision config => config ← provision config; Ok (BoundProvision config)
    | OpStart id => Ok (BoundStart id None)
    | OpExec id => Ok (BoundExec id None)
    | OpStop id => Ok (BoundStop id None)
    | OpDeprovision id => Ok (BoundDeprovision id None)
    | OpDeprovisionSession id => Ok (BoundDeprovisionSession id)
    end;
  Ok (MkBound (parsed_request parsed) operation).

Definition bind_isolation_session (B : Type) `{SB : StatefulSandboxBackend B IsolationSessionProvisionConfig}
    (parsed : ParsedStateAwareRequest) : result MxcError (BoundStateAwareRequest IsolationSessionProvisionConfig) :=
  bind B parsed IsolationSession "iso"
    (fun provision => match provision with
                      | ProvisionIsolationSession config => Ok config
                      | other => Err (incompatible_payload (provision_containment other) BACKEND_KEY)
                      end).

Definition bind_windows_sandbox (B : Type) `{SB : StatefulSandboxBackend B ()}
    (parsed : ParsedStateAwareRequest) : result MxcError (BoundStateAwareRequest ()) :=
  bind B parsed WindowsSandbox "wsb"
    (fun provision => match provision with
                      | ProvisionWindowsSandbox => Ok None
                      | other => Err (incompatible_payload (provision_containment other) BACKEND_KEY)
                      end).

Definition bind_microvm (B : Type) `{SB : StatefulSandboxBackend B MicroVmProvisionConfig}
    (parsed : ParsedStateAwareRequest) : result MxcError (BoundStateAwareRequest MicroVmProvisionConfig) :=
  let p := policy (parsed_request parsed) in
  let exec_phase := bool_decide (op_phase (parsed_operation parsed) = Exec) in
  _ ← fail_if (exec_phase && (runtime_network_proxy_specified p || is_enabled (network_proxy p)))
        (PolicyValidation, "MicroVM network proxy policy is fixed at provision");
  _ ← fail_if (exec_phase && network_specified p) (PolicyValidation, "MicroVM network policy is fixed at provision");
  bind B parsed MicroVm "microvm"
    (fun provision => match provision with
                      | ProvisionMicroVm config => Ok config
                      | other => Err (incompatible_payload (provision_containment other) BACKEND_KEY)
                      end).

Definition bind_wslc (B : Type) `{SB : StatefulSandboxBackend B WslcProvisionConfig}
    (parsed : ParsedStateAwareRequest) : result MxcError (BoundStateAwareRequest WslcProvisionConfig) :=
  bind B parsed Wslc "wslc"
    (fun provision => match provision with
                      | ProvisionWslc config => Ok config
                      | other => Err (incompatible_payload (provision_containment other) BACKEND_KEY)
                      end).

End Binding.

(** ** Dispatch *)

Inductive TypedDispatchOutcome (P A O D : Type) : Type :=
| TypedDryRun
| TypedProvisionSession (session_id : string)
| TypedProvision (result : ProvisionResult P)
| TypedStart (metadata : option A)
| TypedExecCompleted (exit_code : Z)
| TypedStop (metadata : option O)
| TypedDeprovision (metadata : option D)
| TypedDeprovisionSession.
Arguments TypedDryRun {P A O D}.
Arguments TypedProvisionSession {P A O D}.
Arguments TypedProvision {P A O D}.
Arguments TypedStart {P A O D}.
Arguments TypedExecCompleted {P A O D}.
Arguments TypedStop {P A O D}.
Arguments TypedDeprovision {P A O D}.
Arguments TypedDeprovisionSession {P A O D}.

Inductive DispatchOutcome : Type :=
| Envelope (value : Value)
| ExecCompleted (exit_code : Z).

(** The host the relay runs on. *)
Record RelayHost : Type := MkRelayHost {
  host_null_pipe : Z -> bool;
  host_wrap_read : Z -> option Z;
  host_spawn_error : string -> option string;
  host_done_at : string -> option Z;
}.

Definition with_self {B} (s : Run B) (b : B) : Run B := MkRun b (now s) (events s).

(** One phase: check, stop here on a dry run, then run it. *)
Definition phase_step {B R O} (check : B -> result MxcError ()) (dry_run : bool) (on_dry_run : O)
    (work : B -> result MxcError R * B) (outcome : R -> O) (s : Run B) : result MxcError O * Run B :=
  match check (self s) with
  | Err e => (Err e, s)
  | Ok _ =>
      if dry_run then (Ok on_dry_run, s)
      else match work (self s) with
           | (Ok r, b) => (Ok (outcome r), with_self s b)
           | (Err e, b) => (Err e, with_self s b)
           end
  end.

Section Dispatch.
Context (host : RelayHost).
Context {B C : Type} `{SB : StatefulSandboxBackend B C}.

Definition TypedOutcome : Type := TypedDispatchOutcome ProvisionMetadata StartMetadata StopMetadata DeprovisionMetadata.

Definition relay_handle (h : ExecHandle B) (s : Run B) : result MxcError Z * Run B :=
  relay_exec_to_stdio (host_null_pipe host) (host_wrap_read host) (host_spawn_error host) (host_done_at host) h s.

Definition check_exec (r : ExecutionRequest) (id : string) (config : option ()) (b : B) : result MxcError () :=
  _ ← Validator.validate_exec_common r;
  validate_exec b id r config.

Definition dispatch_state_aware_typed (bound : BoundStateAwareRequest C) (dry_run : bool) (s : Run B)
    : result MxcError TypedOutcome * Run B :=
  let r := bound_request bound in
  match bound_operation bound with
  | BoundProvisionSession config =>
      phase_step (fun b => validate_provision_session b r config) dry_run TypedDryRun
        (provision_session r config) TypedProvisionSession s
  | BoundProvision config =>
      phase_step (fun b => validate_provision b r config) dry_run TypedDryRun (provision r config) TypedProvision s
  | BoundStart id config =>
      phase_step (fun b => validate_start b id r config) dry_run TypedDryRun (start id r config) TypedStart s
  | BoundExec id config =>
      match phase_step (check_exec r id config) dry_run None (exec id r config Relayed) Some s with
      | (Ok None, s) => (Ok TypedDryRun, s)
      | (Ok (Some h), s) =>
          match relay_handle h s with
          | (Ok exit_code, s) => (Ok (TypedExecCompleted exit_code), s)
          | (Err e, s) => (Err e, s)
          end
      | (Err e, s) => (Err e, s)
      end
  | BoundStop id config =>
      phase_step (fun b => validate_stop b id r config) dry_run TypedDryRun (stop id r config) TypedStop s
  | BoundDeprovision id config =>
      phase_step (fun b => validate_deprovision b id r config) dry_run TypedDryRun (deprovision id r config) TypedDeprovision s
  | BoundDeprovisionSession id =>
      phase_step (fun b => validate_deprovision_session b id r) dry_run TypedDryRun
        (deprovision_session id r) (fun _ => TypedDeprovisionSession) s
  end.

(** The streaming form: the handle goes to the caller. *)
Definition dispatch_state_aware_exec (bound : BoundStateAwareRequest C) (s : Run B)
    : result MxcError (ExecHandle B) * Run B :=
  match bound_operation bound with
  | BoundExec id config =>
      match check_exec (bound_request bound) id config (self s) with
      | Err e => (Err e, s)
      | Ok _ => let '(handle, b) := exec id (bound_request bound) config Piped (self s) in (handle, with_self s b)
      end
  | _ => (Err (MalformedRequest, "streaming exec requires the exec phase, got " +:+ Phase_as_str (bound_phase bound)), s)
  end.

Definition provision_envelope (provisioned : ProvisionResult ProvisionMetadata) : result MxcError Value :=
  metadata ← map_err (fun e => (BackendError, "provision envelope serialisation failed: " +:+ e))
               (map_transpose to_value_provision (result_metadata provisioned));
  Ok (response (JObject (("sandboxId", JString (result_sandbox_id provisioned)) :: metadata_member metadata))).

Definition metadata_envelope {M} (to_value : M -> result string Value) (metadata : option M) : result MxcError Value :=
  metadata ← map_err (fun e => (BackendError, "metadata envelope serialisation failed: " +:+ e))
               (map_transpose to_value metadata);
  Ok (response (JObject (metadata_member metadata))).

Definition provision_session_envelope (session_id : string) : Value :=
  response (JObject [("sessionId", JString session_id)]).

Definition empty_result_envelope : Value := response (JObject []).

Definition encode_outcome (outcome : TypedOutcome) : result MxcError DispatchOutcome :=
  match outcome with
  | TypedDryRun => Ok (Envelope empty_result_envelope)
  | TypedProvisionSession id => Ok (Envelope (provision_session_envelope id))
  | TypedProvision result => Envelope <$> provision_envelope result
  | TypedStart metadata => Envelope <$> metadata_envelope to_value_start metadata
  | TypedExecCompleted exit_code => Ok (ExecCompleted exit_code)
  | TypedStop metadata => Envelope <$> metadata_envelope to_value_stop metadata
  | TypedDeprovision metadata => Envelope <$> metadata_envelope to_value_deprovision metadata
  | TypedDeprovisionSession => Ok (Envelope empty_result_envelope)
  end.

Definition dispatch_state_aware (bound : BoundStateAwareRequest C) (dry_run : bool) (s : Run B)
    : result MxcError DispatchOutcome * Run B :=
  let '(outcome, s) := dispatch_state_aware_typed bound dry_run s in
  (o ← outcome; encode_outcome o, s).

End Dispatch.

(** ** The engine *)

(** [BACKENDS] and [registration]: the backends that need an opt-in. *)
Definition registered_experimental (b : ContainmentBackend) : bool :=
  match b with
  | ProcessContainer => false
  | Wslc => false
  | Lxc => false
  | Vm => false
  | MicroVm => true
  | Hyperlight => true
  | WindowsSandbox => true
  | IsolationSession => false
  | Seatbelt => false
  | Bubblewrap => false
  end.

Definition require_experimental_optin (backend : ContainmentBackend) (experimental_enabled : bool) : result MxcError () :=
  fail_if (registered_experimental backend && negb experimental_enabled)
    (BackendUnavailable, "the '" +:+ wire_name backend +:+ "' backend is experimental; enable experimental features to use it").

(** What the library was built with. *)
Record Build : Type := MkBuild {
  target_windows : bool;
  feature_isolation_session : bool;
  feature_wslc : bool;
  feature_microvm : bool; (* and an x86-64 target *)
}.

(** The states of the backends that have a lifecycle. *)
Record Engine (I S M W : Type) : Type := MkEngine {
  iso_state : Run I;
  wsb_state : Run S;
  microvm_state : Run M;
  wslc_state : Run W;
}.
Arguments MkEngine {I S M W}.
Arguments iso_state {I S M W}.
Arguments wsb_state {I S M W}.
Arguments microvm_state {I S M W}.
Arguments wslc_state {I S M W}.

(** The runner of MicroVM closes its client when a request is over, which can
    only turn the answer into a failure. *)
Class NvxRunner (M : Type) : Type := {
  finish : M -> result MxcError DispatchOutcome -> result MxcError DispatchOutcome;
  finish_Ok : forall b primary outcome, finish b primary = Ok outcome -> primary = Ok outcome;
}.

Section Run.
Context (debug : string -> string) (build : Build) (host : RelayHost).
Context {I S M W : Type}.
Context `{BI : StatefulSandboxBackend I IsolationSessionProvisionConfig} `{BS : StatefulSandboxBackend S ()}.
Context `{BM : StatefulSandboxBackend M MicroVmProvisionConfig} `{NM : NvxRunner M}.
Context `{BW : StatefulSandboxBackend W WslcProvisionConfig}.

(** Bind and dispatch on one state. *)
Definition bound_dispatch {B C} `{SB : StatefulSandboxBackend B C} (bound : result MxcError (BoundStateAwareRequest C))
    (dry_run : bool) (s : Run B) : result MxcError DispatchOutcome * Run B :=
  match bound with
  | Err e => (Err e, s)
  | Ok bound => dispatch_state_aware host bound dry_run s
  end.

Definition run_state_aware_fallback (parsed : ParsedStateAwareRequest) : result MxcError DispatchOutcome :=
  backend ← resolve_backend debug parsed;
  Err (UnsupportedPhase, "backend " +:+ backend_debug backend +:+ " does not implement state-aware lifecycle").

Definition run_backend (backend : ContainmentBackend) (parsed : ParsedStateAwareRequest) (dry_run : bool) (e : Engine I S M W)
    : result MxcError DispatchOutcome * Engine I S M W :=
  match backend with
  | WindowsSandbox =>
      if target_windows build then
        let '(r, s) := bound_dispatch (bind_windows_sandbox debug S parsed) dry_run (wsb_state e) in
        (r, MkEngine (iso_state e) s (microvm_state e) (wslc_state e))
      else (run_state_aware_fallback parsed, e)
  | IsolationSession =>
      if target_windows build && feature_isolation_session build then
        let '(r, s) := bound_dispatch (bind_isolation_session debug I parsed) dry_run (iso_state e) in
        (r, MkEngine s (wsb_state e) (microvm_state e) (wslc_state e))
      else (Err (BackendUnavailable, "the IsolationSession backend is not available in this build (requires Windows with the `isolation_session` feature)"), e)
  | Wslc =>
      if target_windows build && feature_wslc build then
        let '(r, s) := bound_dispatch (bind_wslc debug W parsed) dry_run (wslc_state e) in
        (r, MkEngine (iso_state e) (wsb_state e) (microvm_state e) s)
      else (Err (BackendUnavailable, "the WSLc backend is not available in this build (compiled without the `wslc` feature)"), e)
  | MicroVm =>
      if target_windows build && feature_microvm build then
        let '(r, s) :=
          match bind_microvm debug M parsed with
          | Err error => (Err error, microvm_state e)
          | Ok bound => let '(r, s) := dispatch_state_aware host bound dry_run (microvm_state e) in (finish (self s) r, s)
          end in
        (r, MkEngine (iso_state e) (wsb_state e) s (wslc_state e))
      else (run_state_aware_fallback parsed, e)
  | _ => (run_state_aware_fallback parsed, e)
  end.

Definition run_state_aware (parsed : ParsedStateAwareRequest) (dry_run : bool) (e : Engine I S M W)
    : result MxcError DispatchOutcome * Engine I S M W :=
  match (backend ← resolve_backend debug parsed;
         _ ← require_experimental_optin backend (experimental_enabled (parsed_request parsed));
         Ok backend) with
  | Err error => (Err error, e)
  | Ok backend => run_backend backend parsed dry_run e
  end.

End Run.

(** ** What a dispatch may do *)

(** The hook of the phase. *)
Definition phase_check {B C} `{SB : StatefulSandboxBackend B C} (bound : BoundStateAwareRequest C) (b : B) : result MxcError () :=
  let r := bound_request bound in
  match bound_operation bound with
  | BoundProvisionSession config => validate_provision_session b r config
  | BoundProvision config => validate_provision b r config
  | BoundStart id config => validate_start b id r config
  | BoundExec id config => check_exec r id config b
  | BoundStop id config => validate_stop b id r config
  | BoundDeprovision id config => validate_deprovision b id r config
  | BoundDeprovisionSession id => validate_deprovision_session b id r
  end.

Section OneBackend.
Context (debug : string -> string) (host : RelayHost).
Context {B C : Type} `{SB : StatefulSandboxBackend B C}.

Lemma phase_step_inv {R O} check dry_run (on_dry_run : O) (work : B -> result MxcError R * B) outcome s r s' :
  phase_step check dry_run on_dry_run work outcome s = (r, s') ->
  (s' = s /\ (r = Ok on_dry_run \/ exists e, r = Err e)) \/
  (dry_run = false /\ check (self s) = Ok tt /\ exists x, s' = with_self s x.2 /\ work (self s) = x /\ r = outcome <$> x.1).
Proof.
  unfold phase_step. destruct (check (self s)) as [[]|e]; [|naive_solver].
  destruct dry_run; [naive_solver|]. intros H. right. split_and!; [done..|].
  exists (work (self s)). by destruct (work (self s)) as [[x|e] b]; injection H as <- <-.
Qed.

Lemma typed_dispatch_checked bound dry_run s r s' :
  dispatch_state_aware_typed host bound dry_run s = (r, s') ->
  s' = s \/ (dry_run = false /\ phase_check bound (self s) = Ok tt).
Proof.
  unfold dispatch_state_aware_typed, phase_check.
  destruct (bound_operation bound) as [config|config|id config|id config|id config|id config|id];
    try (intros [[-> _]|(-> & Hc & _)]%phase_step_inv; [by left|by right]).
  destruct (phase_step _ _ _ _ _ _) as [o s1] eqn:Hp. apply phase_step_inv in Hp as [[-> Ho]|(-> & Hc & _)].
  - destruct Ho as [->|[e ->]]; intros [= <- <-]; by left.
  - intros _. by right.
Qed.

Lemma dispatch_checked bound dry_run s r s' :
  dispatch_state_aware host bound dry_run s = (r, s') ->
  s' = s \/ (dry_run = false /\ phase_check bound (self s) = Ok tt).
Proof.
  unfold dispatch_state_aware. destruct (dispatch_state_aware_typed host bound dry_run s) as [o s1] eqn:Hd.
  intros [= <- <-]. by eapply typed_dispatch_checked.
Qed.

Lemma bound_dispatch_checked bound dry_run s r s' :
  bound_dispatch host bound dry_run s = (r, s') ->
  s' = s \/ (dry_run = false /\ exists bound', bound = Ok bound' /\ phase_check bound' (self s) = Ok tt).
Proof.
  unfold bound_dispatch. destruct bound as [bound|e]; [|intros [= <- <-]; by left].
  intros [->|[-> Hc]]%dispatch_checked; [by left|right]. eauto.
Qed.

Lemma bind_inv parsed expected prefix f bound :
  bind debug B parsed expected prefix f = Ok bound ->
  resolve_backend debug parsed = Ok expected /\ ID_PREFIX = prefix /\ bound_request bound = parsed_request parsed /\
  bound_phase bound = op_phase (parsed_operation parsed) /\
  (forall p, parsed_operation parsed = OpProvision p -> exists c, bound_operation bound = BoundProvision c).
Proof.
  unfold bind. intros (actual & Hr & ([] & Hk%fail_if_Ok & (op & Ho & [= <-])%bind_Ok)%bind_Ok)%bind_Ok.
  apply orb_false_iff in Hk as [Hk Hp%negb_false_iff%bool_decide_eq_true_1].
  apply orb_false_iff in Hk as [Hk%negb_false_iff%bool_decide_eq_true_1 _]. subst actual.
  split; [exact Hr|]. split; [exact Hp|]. split; [done|]. cbn.
  destruct (parsed_operation parsed); try (injection Ho as <-; split; [done|by intros]).
  apply bind_Ok in Ho as (c & _ & [= <-]). split; [done|]. intros _ _. by exists c.
Qed.

(** A provision that succeeds answers with an id of the backend. *)
Lemma dispatch_provision `{MI : !MintsOwnIds B C} bound c s outcome s' :
  bound_operation bound = BoundProvision c ->
  dispatch_state_aware host bound false s = (Ok outcome, s') ->
  exists token rest,
    outcome = Envelope (response (JObject (("sandboxId", JString (ID_PREFIX +:+ String ":" token)) :: rest))).
Proof.
  unfold dispatch_state_aware, dispatch_state_aware_typed. intros ->. unfold phase_step.
  destruct (validate_provision _ _ _) as [[]|]; [|done].
  destruct (provision (bound_request bound) c (self s)) as [[p|] b] eqn:Hp; [|done]. cbn.
  intros [= Ho <-]. apply fmap_Ok in Ho as (v & Hv & ->). unfold provision_envelope in Hv.
  apply bind_Ok in Hv as (m & _ & [= <-]). destruct (MI _ _ _ _ _ Hp) as [token ->]. by exists token, (metadata_member m).
Qed.

Lemma provision_answer `{MI : !MintsOwnIds B C} parsed expected prefix f bound s outcome s' p :
  bind debug B parsed expected prefix f = Ok bound -> parsed_operation parsed = OpProvision p ->
  dispatch_state_aware host bound false s = (Ok outcome, s') ->
  exists token rest, outcome = Envelope (response (JObject (("sandboxId", JString (prefix +:+ String ":" token)) :: rest))).
Proof.
  intros (_ & <- & _ & _ & Hp)%bind_inv Ho Hd. destruct (Hp _ Ho) as [c Hc]. by eapply dispatch_provision.
Qed.

End OneBackend.

Lemma id_prefix_lacks b prefix : id_prefix b = Some prefix -> lacks ":" prefix = true.
Proof. by destruct b; intros [= <-]. Qed.

Lemma minted_id_resolves debug b prefix token r o :
  id_prefix b = Some prefix -> op_sandbox_id o = Some (prefix +:+ String ":" token) ->
  resolve_backend debug (MkParsed r o) = Ok b.
Proof.
  intros Hb Ho. apply resolve_backend_Ok. cbn. rewrite Ho. exists prefix, token.
  split; [done|]. split; [by eapply id_prefix_lacks|done].
Qed.

(** ** What the engine may do *)

Section Authorised.
Context (debug : string -> string) (build : Build) (host : RelayHost).
Context {I S M W : Type}.
Context `{BI : StatefulSandboxBackend I IsolationSessionProvisionConfig} `{BS : StatefulSandboxBackend S ()}.
Context `{BM : StatefulSandboxBackend M MicroVmProvisionConfig} `{NM : NvxRunner M}.
Context `{BW : StatefulSandboxBackend W WslcProvisionConfig}.
Implicit Types e : Engine I S M W.

(** The states of all other backends are as they were. *)
Definition only (b : ContainmentBackend) e e' : Prop :=
  (b <> IsolationSession -> iso_state e' = iso_state e) /\ (b <> WindowsSandbox -> wsb_state e' = wsb_state e) /\
  (b <> MicroVm -> microvm_state e' = microvm_state e) /\ (b <> Wslc -> wslc_state e' = wslc_state e).

(** The backend was given the request and its hook accepts the phase. *)
Definition authorised (b : ContainmentBackend) (parsed : ParsedStateAwareRequest) e : Prop :=
  match b with
  | IsolationSession => exists bound, bind_isolation_session debug I parsed = Ok bound /\ phase_check bound (self (iso_state e)) = Ok tt
  | WindowsSandbox => exists bound, bind_windows_sandbox debug S parsed = Ok bound /\ phase_check bound (self (wsb_state e)) = Ok tt
  | MicroVm => exists bound, bind_microvm debug M parsed = Ok bound /\ phase_check bound (self (microvm_state e)) = Ok tt
  | Wslc => exists bound, bind_wslc debug W parsed = Ok bound /\ phase_check bound (self (wslc_state e)) = Ok tt
  | _ => False
  end.

Lemma run_backend_authorised b parsed dry_run e r e' :
  run_backend debug build host b parsed dry_run e = (r, e') ->
  e' = e \/ (dry_run = false /\ authorised b parsed e /\ only b e e').
Proof.
  destruct e as [ei es em ew]. unfold run_backend, authorised, only. cbn [iso_state wsb_state microvm_state wslc_state].
  destruct b; try (intros [= <- <-]; by left).
  - destruct (_ && _); [|intros [= <- <-]; by left]. destruct (bound_dispatch _ _ _ _) as [r1 s1] eqn:Hd.
    apply bound_dispatch_checked in Hd as [->|[-> Hc]]; intros [= <- <-]; [by left|right]. cbn. naive_solver.
  - destruct (_ && _); [|intros [= <- <-]; by left]. destruct (bind_microvm debug M parsed) as [bound|]; [|intros [= <- <-]; by left].
    destruct (dispatch_state_aware _ _ _ _) as [r1 s1] eqn:Hd.
    apply dispatch_checked in Hd as [->|[-> Hc]]; intros [= <- <-]; [by left|right]. cbn. naive_solver.
  - destruct (target_windows build); [|intros [= <- <-]; by left]. destruct (bound_dispatch _ _ _ _) as [r1 s1] eqn:Hd.
    apply bound_dispatch_checked in Hd as [->|[-> Hc]]; intros [= <- <-]; [by left|right]. cbn. naive_solver.
  - destruct (_ && _); [|intros [= <- <-]; by left]. destruct (bound_dispatch _ _ _ _) as [r1 s1] eqn:Hd.
    apply bound_dispatch_checked in Hd as [->|[-> Hc]]; intros [= <- <-]; [by left|right]. cbn. naive_solver.
Qed.

(** The request the hook saw is the one that was parsed. *)
Lemma authorised_exec b parsed e :
  authorised b parsed e -> op_phase (parsed_operation parsed) = Exec ->
  script_code (parsed_request parsed) <> "" /\
  (b = MicroVm -> network_specified (policy (parsed_request parsed)) = false /\
     is_enabled (network_proxy (policy (parsed_request parsed))) = false).
Proof.
  assert (Hcmd : forall B C (SB : StatefulSandboxBackend B C) expected prefix f bound (x : B),
    bind debug B parsed expected prefix f = Ok bound -> phase_check bound x = Ok tt ->
    op_phase (parsed_operation parsed) = Exec -> script_code (parsed_request parsed) <> "").
  { intros B C SB expected prefix f bound x (_ & _ & Hr & Hp & _)%bind_inv Hc Hex. rewrite Hex in Hp. unfold phase_check, bound_phase in *.
    destruct (bound_operation bound); try done. unfold check_exec in Hc. apply bind_Ok in Hc as (y & Hc & _).
    rewrite Hr in Hc. unfold Validator.validate_exec_common in Hc. by case_bool_decide. }
  intros Ha Hex. unfold authorised in Ha. destruct b; try done; destruct Ha as (bound & Hb & Hc).
  2: { unfold bind_microvm in Hb. rewrite Hex in Hb.
       apply bind_Ok in Hb as ([] & H1%fail_if_Ok & ([] & H2%fail_if_Ok & Hb)%bind_Ok). cbn in H1, H2.
       apply orb_false_iff in H1 as [_ H1]. split; [exact (Hcmd _ _ _ _ _ _ _ _ Hb Hc Hex)|done]. }
  all: split; [exact (Hcmd _ _ _ _ _ _ _ _ Hb Hc Hex)|done].
Qed.

(** C22. A lifecycle request acts on one sandbox backend and only when it may.
    Unless nothing changes, the request is no dry run, names the backend that
    acts by its containment or by the prefix of its id, was opted in when that
    backend is experimental, and the backend's own check accepted the phase in
    the state it was in; no other backend's state is touched; a command to run is
    not empty, and on MicroVM, whose network is fixed when it is provisioned, an
    exec brings no network policy or proxy of its own. *)
Theorem lifecycle_acts_when_authorised parsed dry_run e r e' :
  run_state_aware debug build host parsed dry_run e = (r, e') ->
  e' = e \/
  exists b, resolve_backend debug parsed = Ok b /\ dry_run = false /\
    (registered_experimental b = true -> experimental_enabled (parsed_request parsed) = true) /\
    authorised b parsed e /\ only b e e' /\
    (op_phase (parsed_operation parsed) = Exec ->
       script_code (parsed_request parsed) <> "" /\
       (b = MicroVm -> network_specified (policy (parsed_request parsed)) = false /\
          is_enabled (network_proxy (policy (parsed_request parsed))) = false)).
Proof.
  unfold run_state_aware. destruct (resolve_backend debug parsed) as [b|]; cbn; [|intros [= <- <-]; by left].
  unfold require_experimental_optin. destruct (registered_experimental b && _) eqn:Hx; cbn; [intros [= <- <-]; by left|].
  intros [->|(-> & Ha & Ho)]%run_backend_authorised; [by left|right]. exists b. split_and!; try done.
  - intros Hr. rewrite Hr in Hx. by apply negb_false_iff in Hx.
  - by apply authorised_exec with e.
Qed.


End Authorised.

(** ** A backend that keeps a register of its sandboxes *)

(** The state: the ids handed out, and those that run. *)
Record Register : Type := MkRegister {
  known : list string;
  running : list string;
}.

Definition next_token (b : Register) : string := dec (Z.of_nat (length (known b))).

Definition register_backend (C : Type) (prefix key : string) : StatefulSandboxBackend Register C := {|
  ID_PREFIX := prefix;
  BACKEND_KEY := key;
  ProvisionMetadata := ();
  StartMetadata := ();
  StopMetadata := ();
  DeprovisionMetadata := ();
  provision_session := fun r config b => (default_provision_session key r config, b);
  provision := fun r config b =>
    (default_provision prefix (next_token b) r config, MkRegister (known b ++ [prefix +:+ ":" +:+ next_token b]) (running b));
  start := fun id _ _ b => (Ok None, MkRegister (known b) (id :: running b));
  exec := fun id _ _ _ b =>
    (Ok (MkHandle (-1) (-1) (-1) (fun b t => (Ok (Exited 0), b, t + 1)) (fun b t => (Ok tt, b, t))), b);
  stop := fun id _ _ b => (Ok None, MkRegister (known b) (List.filter (fun x => negb (bool_decide (x = id))) (running b)));
  deprovision := fun id _ _ b =>
    (Ok None, MkRegister (List.filter (fun x => negb (bool_decide (x = id))) (known b)) (running b));
  deprovision_session := fun id r b => (default_deprovision_session key id r, b);
  validate_provision_session := fun _ r config => _ ← default_provision_session key r config; Ok tt;
  validate_provision := fun _ _ _ => Ok tt;
  validate_start := fun b id _ _ => fail_if (negb (bool_decide (id ∈ known b))) (NotProvisioned, id);
  validate_exec := fun b id _ _ => fail_if (negb (bool_decide (id ∈ running b))) (NotStarted, id);
  validate_stop := fun b id _ _ => Ok tt;
  validate_deprovision := fun b id _ _ => Ok tt;
  validate_deprovision_session := fun _ id r => default_deprovision_session key id r;
  to_value_provision := fun _ => Ok (JObject []);
  to_value_start := fun _ => Ok (JObject []);
  to_value_stop := fun _ => Ok (JObject []);
  to_value_deprovision := fun _ => Ok (JObject []);
|}.

Lemma register_mints C prefix key : @MintsOwnIds Register C (register_backend C prefix key).
Proof. intros r config b result b' [= <- <-]. by exists (next_token b). Qed.

Definition plain_runner : NvxRunner Register.
Proof. by refine {| finish := fun _ r => r |}. Defined.

Definition quiet_host : RelayHost := MkRelayHost (fun h => h <? 0) Some (fun _ => None) (fun _ => None).
Definition full_build : Build := MkBuild true true true true.
Definition empty_register : Run Register := MkRun (MkRegister [] []) 0 [].

Definition run_register (parsed : ParsedStateAwareRequest) (dry_run : bool)
    (e : Engine Register Register Register Register) : result MxcError DispatchOutcome * Engine Register Register Register Register :=
  @run_state_aware (fun s => s) full_build quiet_host Register Register Register Register
    (register_backend _ "iso" "isolation_session") (register_backend _ "wsb" "windows_sandbox")
    (register_backend _ "microvm" "microvm") plain_runner (register_backend _ "wslc" "wslc") parsed dry_run e.

Definition fresh_engine : Engine Register Register Register Register :=
  MkEngine empty_register empty_register empty_register empty_register.

Definition wslc_register (b : Register) : Engine Register Register Register Register :=
  MkEngine empty_register empty_register empty_register (MkRun b 0 []).

Definition plain_request (command : string) : ExecutionRequest :=
  let r := ExecutionRequest_default in
  MkRequest None (container_id r) (env r) (inherit_default_env r) command (working_directory r) (script_timeout r) Wslc
    (Requests.lifecycle r) (policy r) (lxc_config r) (wslc r) (seatbelt r) (telemetry r) (test_feature r) (windows_sandbox r)
    (hyperlight r) (microvm_image r) (microvm_memory_mib r) false false.

(** A provision, a start and an exec of one sandbox. *)
Definition after_provision : Engine Register Register Register Register :=
  wslc_register (MkRegister ["wslc:0"] []).
Definition after_start : Engine Register Register Register Register :=
  wslc_register (MkRegister ["wslc:0"] ["wslc:0"]).

Lemma register_provision :
  run_register (MkParsed (plain_request "") (OpProvision (ProvisionWslc None))) false fresh_engine
  = (Ok (Envelope (response (JObject [("sandboxId", JString "wslc:0")]))), after_provision).
Proof. by vm_compute. Qed.

Lemma register_start :
  run_register (MkParsed (plain_request "") (OpStart "wslc:0")) false after_provision
  = (Ok (Envelope empty_result_envelope), after_start).
Proof. by vm_compute. Qed.

(** The start of the sandbox, for which the property says why it may act. *)
Lemma lifecycle_acts_when_authorised_witness :
  resolve_backend (fun s => s) (MkParsed (plain_request "") (OpStart "wslc:0")) = Ok Wslc /\ wsb_state after_start = wsb_state after_provision.
Proof.
  destruct (lifecycle_acts_when_authorised _ _ _ _ _ _ _ _ register_start) as [Heq|(b & Hb & _ & _ & _ & Ho & _)];
    [discriminate Heq|].
  assert (b = Wslc) as -> by (by injection Hb as <-). split; [exact Hb|]. apply Ho. discriminate.
Defined.


End Lifecycle.
