(* ===== verification/Consent.v ===== *)
(** * Telemetry consent

    [core/mxc_common/telemetry/consent.rs], [policy.rs] and the gates of
    [telemetry/mod.rs]: whether anything is collected is the user's decision,
    kept in a file of theirs, below a ceiling the administrator sets.  Every file
    operation may fail, before or after it took effect, and the program may die
    between any two of them; other processes decide in the meantime.  The store
    carries a history of the decisions it was written for, which no operation
    reads. *)

From Stdlib Require Import Ascii.
From stdpp Require Import list.
From S2P Require Import Prelude NetText Wire Models Requests.

Module Consent.

(** ** Administrative policy *)

Inductive PolicyState : Type := Unrestricted | PolicyAllowed | PolicyBlocked | PolicyNotApplicable.
#[global] Instance PolicyState_eq_dec : EqDecision PolicyState.
Proof. solve_decision. Defined.

Definition policy_allows_collection (p : PolicyState) : bool := negb (bool_decide (p = PolicyBlocked)).

Inductive PolicyValue : Type := ValueAbsent | Value (v : Z) | ValueUnreadable.

Definition POLICY_VALUE_OPTIONAL : Z := 3.

Definition policy_state_from_value (v : PolicyValue) : PolicyState :=
  match v with
  | ValueAbsent => Unrestricted
  | Value v => if v =? POLICY_VALUE_OPTIONAL then PolicyAllowed else PolicyBlocked
  | ValueUnreadable => PolicyBlocked
  end.

(** What the registry answers for the key and for its value. *)
Inductive RegistryError : Type := RegNotFound | RegOther.

Record Registry : Type := MkRegistry {
  open_subkey : result RegistryError unit;
  get_value : result RegistryError Z;
}.

Definition read_policy_value (r : Registry) : PolicyValue :=
  match open_subkey r with
  | Err RegNotFound => ValueAbsent
  | Err RegOther => ValueUnreadable
  | Ok _ =>
      match get_value r with
      | Ok v => Value v
      | Err RegNotFound => ValueAbsent
      | Err RegOther => ValueUnreadable
      end
  end.

Definition get_policy (windows : bool) (r : Registry) : PolicyState :=
  if windows then policy_state_from_value (read_policy_value r) else PolicyNotApplicable.

(** ** Consent *)

Inductive ConsentState : Type := Granted | Denied | Undetermined | NotApplicable.
#[global] Instance ConsentState_eq_dec : EqDecision ConsentState.
Proof. solve_decision. Defined.

Inductive ConsentStatusReason : Type :=
| NoRecord | StoreUnreadable | StoreMalformed | ConsentSchemaUnsupported | PromptVersionMissing
| PromptVersionUnsupported | ReasonNotApplicable.

Record ConsentStatus : Type := MkStatus {
  stored_state : ConsentState;
  effective_state : ConsentState;
  reason : option ConsentStatusReason;
}.

Inductive ConsentDecision : Type := Yes | No | Dismissed.
#[global] Instance ConsentDecision_eq_dec : EqDecision ConsentDecision.
Proof. solve_decision. Defined.

Inductive ConsentActionResult : Type :=
| ResultGranted | ResultDenied | ResultDismissed | ResultWithdrawn | ResultAlreadyGranted | ResultPolicyBlocked
| ResultNotApplicable.

Record ConsentActionOutcome : Type := MkOutcome {
  action_result : ConsentActionResult;
  action_status : ConsentStatus;
  action_policy : PolicyState;
}.

Definition consent_allows_collection (c : ConsentState) : bool := bool_decide (c = Granted).

Record ConsentPrompt : Type := MkPrompt {
  resource_version : Z;
  locale : string;
}.

Record ConsentRecord : Type := MkRecord {
  schema_version : Z;
  consent : string;
  record_source : string;
  prompted_mxc_version : string;
  prompt_resource_version : option Z;
  prompt_locale : string;
  updated_at_epoch : Z;
  revision : Z;
}.

Definition CONSENT_SCHEMA_VERSION : Z := 2.
Definition MAX_CONSENT_FILE_BYTES : Z := 16 * 1024.
Definition WITHDRAWAL_MARKER_STALE_AFTER : Z := 5000.
Definition IO_RETRY_ATTEMPTS : nat := 5.
Definition IO_RETRY_DELAY : Z := 20.

(** The derived serialisation of a record, and the resource embedded at build
    time; a record is read back as it was written. *)
Class ConsentEnv : Type := {
  from_str : string -> option ConsentRecord;
  to_string_pretty : ConsentRecord -> result string string;
  from_to : forall r json, to_string_pretty r = Ok json -> from_str json = Some r;
  valid_utf8 : string -> bool;
  EN_US_CONSENT_PROMPT : ConsentPrompt;
  CONSENT_RESOURCE_VERSION : Z;
  FALLBACK_LOCALE : string;
  mxc_version : string;
  io_text : Z -> string; (* the text of an error of the system *)
}.

(** ** The store and the system below it *)

(** An error of the system: its kind and code. *)
Inductive IoKind : Type := NotFound | PermissionDenied | Interrupted | InvalidData | OtherKind.
#[global] Instance IoKind_eq_dec : EqDecision IoKind.
Proof. solve_decision. Defined.

Record IoError : Type := MkIoError { kind : IoKind; raw_os_error : option Z }.

Definition ERROR_SHARING_VIOLATION : Z := 32.
Definition ERROR_LOCK_VIOLATION : Z := 33.

Definition is_transient_io_error (e : IoError) : bool :=
  bool_decide (raw_os_error e = Some ERROR_SHARING_VIOLATION) || bool_decide (raw_os_error e = Some ERROR_LOCK_VIOLATION)
  || bool_decide (kind e = PermissionDenied) || bool_decide (kind e = Interrupted).

(** A failure that does not depend on the files: a lock, access, the device. *)
Inductive Trouble : Type := Sharing | Locked | NoAccess | Signal | Device (code : Z).

Definition trouble_error (t : Trouble) : IoError :=
  match t with
  | Sharing => MkIoError OtherKind (Some ERROR_SHARING_VIOLATION)
  | Locked => MkIoError OtherKind (Some ERROR_LOCK_VIOLATION)
  | NoAccess => MkIoError PermissionDenied (Some 5)
  | Signal => MkIoError Interrupted None
  | Device code => MkIoError OtherKind (Some code)
  end.

Definition not_found : IoError := MkIoError NotFound (Some 2).
Definition invalid_data : IoError := MkIoError InvalidData None.

(** What happens to one operation: nothing, or trouble before or after it took
    effect. *)
Inductive Fault : Type := Fine | Before (t : Trouble) | After (t : Trouble).

(** The decisions the store was written for. *)
Inductive Event : Type :=
| Recorded (granted : bool)
| WithdrawalBegun.

(** The consent file, the time of the marker of a withdrawal, and the history. *)
Record Store : Type := MkStore {
  file : option string;
  marker : option Z;
  history : list Event;
}.

(** One process at the store: the clock, the troubles ahead, and every state the
    store has had since it began. *)
Record Io : Type := MkIo {
  store : Store;
  clock : Z;
  faults : list Fault;
  seen : list Store;
}.

Definition put (st : Store) (s : Io) : Io := MkIo st (clock s) (faults s) (seen s ++ [st]).

(** One operation of the system. *)
Definition io {A} (effect : Store -> Z -> result IoError (A * Store)) : stateful Io IoError A := fun s =>
  let f := default Fine (head (faults s)) in
  let s := MkIo (store s) (clock s) (tail (faults s)) (seen s) in
  match f with
  | Before t => (Err (trouble_error t), s)
  | _ =>
      match effect (store s) (clock s) with
      | Err e => (Err e, s)
      | Ok (a, st) =>
          match f with
          | After t => (Err (trouble_error t), put st s)
          | _ => (Ok a, put st s)
          end
      end
  end.

(** An operation that leaves the two files alone: directories, temporary files
    and locks. *)
Definition elsewhere : stateful Io IoError unit := io (fun st _ => Ok (tt, st)).

Definition marker_metadata : stateful Io IoError Z :=
  io (fun st _ => match marker st with Some t => Ok (t, st) | None => Err not_found end).

Definition create_marker : stateful Io IoError unit :=
  io (fun st now => Ok (tt, MkStore (file st) (Some now) (history st ++ [WithdrawalBegun]))).

Definition remove_marker : stateful Io IoError unit :=
  io (fun st _ => match marker st with
                  | Some _ => Ok (tt, MkStore (file st) None (history st))
                  | None => Err not_found
                  end).

Definition replace_file (json : string) (granted : bool) : stateful Io IoError unit :=
  io (fun st _ => Ok (tt, MkStore (Some json) (marker st) (history st ++ [Recorded granted]))).

(** [with_io_retry], with the attempts that are left after this one. *)
Fixpoint retry {A} (attempts : nat) (op : stateful Io IoError A) : stateful Io IoError A := fun s =>
  match op s with
  | (Ok a, s) => (Ok a, s)
  | (Err e, s) =>
      match attempts with
      | O => (Err e, s)
      | S attempts =>
          if is_transient_io_error e
          then retry attempts op (MkIo (store s) (clock s + IO_RETRY_DELAY) (faults s) (seen s))
          else (Err e, s)
      end
  end.

Definition with_io_retry {A} (op : stateful Io IoError A) : stateful Io IoError A := retry (Nat.pred IO_RETRY_ATTEMPTS) op.

Section Store.
Context `{CE : ConsentEnv}.
(** Whether the folder of the user was found. *)
Context (located : bool).

Definition error_text (e : IoError) : string := io_text (default 0 (raw_os_error e)).

(** The result of an operation with its error made a message. *)
Definition in_text {A} (what : string) (op : stateful Io IoError A) : stateful Io string A := fun s =>
  let '(r, s) := op s in (map_err (fun e => what +:+ error_text e) r, s).

(** A [match] on the result of an operation. *)
Definition try_io {A B} (op : stateful Io IoError A) (k : result IoError A -> stateful Io string B) : stateful Io string B :=
  fun s => let '(r, s) := op s in k r s.

Definition consent_file_path : stateful Io string unit :=
  if located then mret tt else throw "could not resolve %LocalAppData%; cannot persist telemetry consent".

Definition read_bounded : stateful Io IoError string :=
  io (fun st _ =>
    match file st with
    | None => Err not_found
    | Some data =>
        if MAX_CONSENT_FILE_BYTES <? str_len data then Err invalid_data
        else if valid_utf8 data then Ok (data, st) else Err invalid_data
    end).

Definition read_record : stateful Io string (option ConsentRecord) :=
  try_io (with_io_retry read_bounded) (fun r =>
    match r with
    | Ok data => mret (from_str data)
    | Err e =>
        if bool_decide (kind e = NotFound) then mret None
        else throw ("failed to read telemetry consent record revision: " +:+ error_text e)
    end).

Definition clear_withdrawal_marker : stateful Io string unit :=
  try_io (with_io_retry remove_marker) (fun r =>
    match r with
    | Ok _ => mret tt
    | Err e =>
        if bool_decide (kind e = NotFound) then mret tt
        else throw ("failed to clear withdrawal marker: " +:+ error_text e)
    end).

(** [checked_add] of a [u64]. *)
Definition next_revision (record : option ConsentRecord) : option Z :=
  let n := from_option revision 0 record + 1 in if n <? 2 ^ 64 then Some n else None.

(** The temporary file is created, written and synced in one retried closure; a
    leftover is removed without looking at the result. *)
Definition write_record (granted : bool) (source : string) (version : option Z) (prompt_locale : string)
    : stateful Io string unit :=
  _ ← consent_file_path;
  _ ← in_text "failed to create " elsewhere;
  record ← read_record;
  revision ← match next_revision record with
             | Some n => mret n
             | None => throw "telemetry consent record revision is exhausted"
             end;
  epoch ← gets (fun s => clock s `div` 1000);
  json ← match to_string_pretty
                 (MkRecord CONSENT_SCHEMA_VERSION (if granted then "granted" else "denied") source mxc_version version
                    prompt_locale epoch revision) with
         | Ok json => mret json
         | Err e => throw ("failed to serialize telemetry consent record: " +:+ e)
         end;
  _ ← try_io (with_io_retry elsewhere) (fun r =>
        match r with
        | Ok _ => mret tt
        | Err e => try_io elsewhere (fun _ => throw ("failed to write " +:+ error_text e))
        end);
  _ ← try_io (with_io_retry (replace_file json granted)) (fun r =>
        match r with
        | Ok _ => mret tt
        | Err e => try_io elsewhere (fun _ => throw ("failed to finalize " +:+ error_text e))
        end);
  clear_withdrawal_marker.

Definition write (granted : bool) (source : string) : stateful Io string unit :=
  write_record granted source (Some CONSENT_RESOURCE_VERSION) FALLBACK_LOCALE.

Definition write_presented (granted : bool) (source : string) (prompt : ConsentPrompt) : stateful Io string unit :=
  write_record granted source (Some (resource_version prompt)) (locale prompt).

Definition begin_withdrawal : stateful Io string unit :=
  _ ← consent_file_path;
  _ ← in_text "failed to create " elsewhere;
  in_text "failed to durably mark withdrawal pending: " (with_io_retry create_marker).

Definition finish_withdrawal : stateful Io string unit :=
  _ ← consent_file_path;
  clear_withdrawal_marker.

(** ** Reading the status *)

Inductive WithdrawalMarkerState : Type := MarkerAbsent | MarkerPending | MarkerStale.

Definition withdrawal_marker_state : stateful Io IoError WithdrawalMarkerState := fun s =>
  match with_io_retry marker_metadata s with
  | (Ok modified, s) =>
      let is_stale := (modified <=? clock s) && (WITHDRAWAL_MARKER_STALE_AFTER <=? clock s - modified) in
      (Ok (if is_stale then MarkerStale else MarkerPending), s)
  | (Err e, s) => if bool_decide (kind e = NotFound) then (Ok MarkerAbsent, s) else (Err e, s)
  end.

Definition recover_stale_withdrawal_marker : stateful Io string unit :=
  state ← in_text "failed to inspect stale withdrawal marker: " withdrawal_marker_state;
  match state with
  | MarkerAbsent => mret tt
  | MarkerPending | MarkerStale => write_record false "withdrawal-recovery" (Some CONSENT_RESOURCE_VERSION) FALLBACK_LOCALE
  end.

Definition unreadable_status : ConsentStatus := MkStatus Undetermined Undetermined (Some StoreUnreadable).
Definition malformed_status : ConsentStatus := MkStatus Undetermined Undetermined (Some StoreMalformed).
Definition no_record_status : ConsentStatus := MkStatus Undetermined Undetermined (Some NoRecord).

(** The status a record stands for. *)
Definition record_status (record : ConsentRecord) : ConsentStatus :=
  if bool_decide (consent record = "granted") then
    if negb (schema_version record =? CONSENT_SCHEMA_VERSION) then
      MkStatus Granted Undetermined
        (Some (if bool_decide (prompt_resource_version record = None) then PromptVersionMissing else ConsentSchemaUnsupported))
    else
      match prompt_resource_version record with
      | Some v =>
          if v =? CONSENT_RESOURCE_VERSION then
            if bool_decide (prompt_locale record = FALLBACK_LOCALE) then MkStatus Granted Granted None
            else MkStatus Granted Undetermined (Some PromptVersionUnsupported)
          else MkStatus Granted Undetermined (Some PromptVersionUnsupported)
      | None => MkStatus Granted Undetermined (Some PromptVersionMissing)
      end
  else if bool_decide (consent record = "denied") then MkStatus Denied Denied None
  else malformed_status.

(** The part after the marker has been looked at. *)
Definition read_file_status : stateful Io string ConsentStatus :=
  try_io (with_io_retry read_bounded) (fun r =>
    match r with
    | Ok data => mret (from_option record_status malformed_status (from_str data))
    | Err e => mret (if bool_decide (kind e = NotFound) then no_record_status else unreadable_status)
    end).

Definition read_status_located : stateful Io string ConsentStatus :=
  if negb located then mret unreadable_status
  else
    try_io withdrawal_marker_state (fun r =>
      match r with
      | Ok MarkerAbsent => read_file_status
      | Ok MarkerPending | Err _ => mret unreadable_status
      | Ok MarkerStale =>
          recovered ← attempt recover_stale_withdrawal_marker;
          match recovered with
          | Ok _ => read_file_status
          | Err _ => mret unreadable_status
          end
      end).

(** ** The platform: Windows, or a stub that keeps nothing *)

Context (windows : bool).

Definition not_applicable_status : ConsentStatus := MkStatus NotApplicable NotApplicable (Some ReasonNotApplicable).

Definition read_status_unlocked : stateful Io string ConsentStatus :=
  if windows then read_status_located else mret not_applicable_status.

Definition read_revision_unlocked : stateful Io string (option Z) :=
  if windows && located then (record ← read_record; mret (revision <$> record)) else mret None.

Definition with_store_lock {A} (operation : stateful Io string A) : stateful Io string A :=
  if windows then
    _ ← (if located then mret tt else throw "could not resolve %LocalAppData%; cannot lock telemetry consent");
    _ ← in_text "failed to create " elsewhere;
    _ ← in_text "failed to open telemetry consent lock: " (with_io_retry elsewhere);
    _ ← in_text "failed to lock telemetry consent: " elsewhere;
    operation
  else operation.

Definition platform_write_presented (granted : bool) (source : string) (prompt : ConsentPrompt) : stateful Io string unit :=
  if windows then write_presented granted source prompt
  else throw "telemetry is Windows-only; consent is not applicable on this platform".

Definition get_status : stateful Io string ConsentStatus :=
  if windows then
    r ← attempt (with_store_lock read_status_unlocked);
    mret (match r with Ok status => status | Err _ => unreadable_status end)
  else mret not_applicable_status.

Definition get_consent : stateful Io string ConsentState := status ← get_status; mret (effective_state status).

(** ** Requesting and withdrawing consent *)

Context (registry : Registry).

Inductive ConsentPreflight : Type :=
| Complete (outcome : ConsentActionOutcome)
| Failed (error : string)
| Present (prompt : ConsentPrompt) (policy : PolicyState) (status : ConsentStatus) (revision : option Z).

(** Every locale falls back to the one resource. *)
Definition prompt_for_locale (locale : option string) : ConsentPrompt := EN_US_CONSENT_PROMPT.

Definition consent_preflight (locale : option string) : stateful Io string ConsentPreflight :=
  let policy := get_policy windows registry in
  snapshot ← attempt (with_store_lock (
    status ← read_status_unlocked;
    revision ← read_revision_unlocked;
    mret (status, revision)));
  mret match snapshot with
       | Err error => Failed error
       | Ok (status, revision) =>
           if bool_decide (effective_state status = NotApplicable) then
             Complete (MkOutcome ResultNotApplicable status policy)
           else if negb (policy_allows_collection policy) then Complete (MkOutcome ResultPolicyBlocked status policy)
           else if bool_decide (effective_state status = Granted) then
             Complete (MkOutcome ResultAlreadyGranted status policy)
           else Present (prompt_for_locale locale) policy status revision
       end.

Definition persist_presented_decision (decision : ConsentDecision) (prompt : ConsentPrompt) (policy : PolicyState)
    (status : ConsentStatus) (revision : option Z) : stateful Io string ConsentActionOutcome :=
  with_store_lock (
    let current_policy := get_policy windows registry in
    current_status ← read_status_unlocked;
    current_revision ← read_revision_unlocked;
    if bool_decide (effective_state current_status = NotApplicable) then
      mret (MkOutcome ResultNotApplicable current_status current_policy)
    else if negb (policy_allows_collection current_policy) then
      mret (MkOutcome ResultPolicyBlocked current_status current_policy)
    else if bool_decide (effective_state current_status = Granted) && negb (bool_decide (decision = No)) then
      mret (MkOutcome ResultAlreadyGranted current_status current_policy)
    else
      let is_concurrent_grant_being_withdrawn :=
        bool_decide (decision = No) && bool_decide (effective_state current_status = Granted)
        && negb (bool_decide (effective_state status = Granted)) in
      if negb (bool_decide (current_policy = policy))
         || (negb (bool_decide (effective_state current_status = effective_state status))
             || negb (bool_decide (current_revision = revision)))
            && negb is_concurrent_grant_being_withdrawn
      then throw "consent state changed while the presenter was open; no decision was written"
      else
        match decision with
        | Yes =>
            _ ← platform_write_presented true "prompt" prompt;
            status ← read_status_unlocked;
            mret (MkOutcome ResultGranted status current_policy)
        | No =>
            _ ← platform_write_presented false "prompt" prompt;
            status ← read_status_unlocked;
            mret (MkOutcome ResultDenied status current_policy)
        | Dismissed => mret (MkOutcome ResultDismissed current_status current_policy)
        end).

Definition withdraw_consent : stateful Io string ConsentActionOutcome :=
  if windows then
    with_store_lock (
      _ ← begin_withdrawal;
      _ ← write false "withdrawal";
      _ ← finish_withdrawal;
      status ← read_status_unlocked;
      mret (MkOutcome ResultWithdrawn status (get_policy windows registry)))
  else
    status ← get_status;
    mret (MkOutcome ResultNotApplicable status (get_policy windows registry)).

(** ** The gates *)

Definition is_enabled (config : TelemetryConfig) : stateful Io string bool :=
  if negb (bool_decide (telemetry_enabled config = Some true)) then mret false
  else if policy_allows_collection (get_policy windows registry) then
    c ← get_consent; mret (consent_allows_collection c)
  else mret false.

(** Each emission asks again; a development contract asks only the build. *)
Definition authorization_allows_emission (critical_events required_collection_eligible : bool) : stateful Io string bool :=
  if critical_events then mret required_collection_eligible
  else
    c ← get_consent;
    mret (consent_allows_collection c && policy_allows_collection (get_policy windows registry)).

Definition init_for_request (config : option TelemetryConfig) (source_contract : option ContractVersion)
    (required_collection_eligible provider_registers : bool) : stateful Io string bool :=
  match source_contract with
  | Some V1_1_0Alpha => mret (required_collection_eligible && provider_registers)
  | _ =>
      match config with
      | Some config => enabled ← is_enabled config; mret (enabled && provider_registers)
      | None => mret false
      end
  end.

End Store.

(** ** What the store goes through *)

Section Evolution.
Context `{CE : ConsentEnv}.

(** The record in the file, and a number that grows with its revision. *)
Definition record_of (st : Store) : option ConsentRecord := file st ≫= from_str.
Definition revision_key (r : option Z) : Z := default (-1) r.
Definition key (st : Store) : Z := revision_key (revision <$> record_of st).

(** The record by itself allows collection. *)
Definition authorises (st : Store) : Prop :=
  exists r, record_of st = Some r /\ effective_state (record_status r) = Granted.

(** Either it was the last decision, or a withdrawal is under way. *)
Definition settled (st : Store) : Prop := authorises st -> last (history st) = Some (Recorded true).
Definition sound (st : Store) : Prop := marker st = None -> settled st.

Definition recorded (e : Event) : bool := match e with Recorded _ => true | WithdrawalBegun => false end.

(** From one state to a later one: events of certain kinds, and a revision that
    grows with every record. *)
Definition evolves (allowed : Event -> Prop) (st st' : Store) : Prop :=
  exists ext, history st' = history st ++ ext /\ Forall allowed ext /\ key st <= key st' /\
    (Exists (fun e => recorded e = true) ext -> key st < key st').

Lemma evolves_refl allowed st : evolves allowed st st.
Proof. exists []. rewrite app_nil_r. split_and!; [done|constructor|lia|]. by intros H%Exists_nil. Qed.

Lemma evolves_weaken (allowed allowed' : Event -> Prop) st st' :
  (forall e, allowed e -> allowed' e) -> evolves allowed st st' -> evolves allowed' st st'.
Proof. intros Hw (ext & Hh & Hall & Hk). exists ext. split_and!; try apply Hk; [done|]. eapply Forall_impl; eauto. Qed.

Lemma evolves_trans allowed st1 st2 st3 : evolves allowed st1 st2 -> evolves allowed st2 st3 -> evolves allowed st1 st3.
Proof.
  intros (e1 & H1 & A1 & K1 & S1) (e2 & H2 & A2 & K2 & S2). exists (e1 ++ e2).
  split_and!; [by rewrite H2, H1, app_assoc|by apply Forall_app|lia|].
  intros [H|H]%Exists_app; [specialize (S1 H)|specialize (S2 H)]; lia.
Qed.

(** ** Reasoning about runs *)

Section Runs.
Context (allowed : Event -> Prop) (origin : Store).

Definition fit (st : Store) : Prop := sound st /\ evolves allowed origin st.

(** Every state so far is fit, and [P] holds of the current one. *)
Definition inv (P : Store -> Prop) (s : Io) : Prop := Forall fit (seen s) /\ fit (store s) /\ P (store s).

Definition hoare {E A} (P : Store -> Prop) (c : stateful Io E A) (Q : result E A -> Store -> Prop) : Prop :=
  forall s r s', inv P s -> c s = (r, s') -> inv (Q r) s'.

Lemma hoare_conseq {E A} (P P' : Store -> Prop) (c : stateful Io E A) (Q Q' : result E A -> Store -> Prop) :
  hoare P c Q -> (forall st, fit st -> P' st -> P st) -> (forall r st, fit st -> Q r st -> Q' r st) -> hoare P' c Q'.
Proof.
  intros Hc HP HQ s r s' (Hs & Hf & Hp) Hr. destruct (Hc s r s') as (Hs' & Hf' & Hq); [|done|].
  - split_and!; auto.
  - split_and!; auto.
Qed.

Lemma hoare_bind {E A B} P (c : stateful Io E A) (k : A -> stateful Io E B) Q Q' :
  hoare P c Q -> (forall a, hoare (Q (Ok a)) (k a) Q') -> (forall e st, Q (Err e) st -> Q' (Err e) st) ->
  hoare P (c ≫= k) Q'.
Proof.
  intros Hc Hk He s r s' Hs Hr. unfold mbind, stateful_bind in Hr. destruct (c s) as [[a|e] s1] eqn:E1.
  - eapply Hk; [|exact Hr]. by eapply Hc.
  - injection Hr as <- <-. destruct (Hc _ _ _ Hs E1) as (? & ? & ?). split_and!; auto.
Qed.

Lemma hoare_ret {E A} (P : Store -> Prop) (a : A) Q : (forall st, fit st -> P st -> Q (Ok a) st) -> hoare P (mret a : stateful Io E A) Q.
Proof. intros HQ s r s' (? & ? & ?) [= <- <-]. split_and!; auto. Qed.

Lemma hoare_throw {E A} (P : Store -> Prop) (e : E) Q :
  (forall st, fit st -> P st -> Q (Err e) st) -> hoare P (throw e : stateful Io E A) Q.
Proof. intros HQ s r s' (? & ? & ?) [= <- <-]. split_and!; auto. Qed.

Lemma hoare_attempt {E A} P (c : stateful Io E A) Q :
  hoare P c Q -> hoare P (attempt c) (fun r st => match r with Ok x => Q x st | Err _ => False end).
Proof.
  intros Hc s r s' Hs Hr. unfold attempt in Hr. destruct (c s) as [x s1] eqn:E1. injection Hr as <- <-. by eapply Hc.
Qed.

Lemma hoare_in_text {A} P what (c : stateful Io IoError A) (Q : result string A -> Store -> Prop) :
  hoare P c (fun r st => Q (map_err (fun e => what +:+ error_text e) r) st) -> hoare P (in_text what c) Q.
Proof.
  intros Hc s r s' Hs Hr. unfold in_text in Hr. destruct (c s) as [x s1] eqn:E1. injection Hr as <- <-. by eapply Hc.
Qed.

Lemma hoare_try {A B} P (c : stateful Io IoError A) (k : result IoError A -> stateful Io string B) Q Q' :
  hoare P c Q -> (forall r, hoare (Q r) (k r) Q') -> hoare P (try_io c k) Q'.
Proof.
  intros Hc Hk s r s' Hs Hr. unfold try_io in Hr. destruct (c s) as [x s1] eqn:E1. eapply Hk; [|exact Hr]. by eapply Hc.
Qed.

Lemma hoare_retry {A} n P (c : stateful Io IoError A) Q :
  hoare P c Q -> (forall e st, Q (Err e) st -> P st) -> hoare P (retry n c) Q.
Proof.
  intros Hc He. induction n as [|n IH]; intros s r s' Hs Hr; cbn in Hr; destruct (c s) as [[a|e] s1] eqn:E1.
  1,3: injection Hr as <- <-; by eapply Hc.
  - injection Hr as <- <-. by eapply Hc.
  - pose proof (Hc _ _ _ Hs E1) as Hs1. destruct (is_transient_io_error e).
    + eapply IH; [|exact Hr]. destruct Hs1 as (? & ? & ?). split_and!; cbn; eauto.
    + by injection Hr as <- <-.
Qed.

(** An operation: what it does to a fit state, and that trouble is never that a
    file is missing. *)
Lemma hoare_io {A} (effect : Store -> Z -> result IoError (A * Store)) (P : Store -> Prop) (Q : result IoError A -> Store -> Prop) :
  (forall st now, fit st -> P st ->
     match effect st now with
     | Ok (a, st') => fit st' /\ Q (Ok a) st' /\ (forall t, Q (Err (trouble_error t)) st')
     | Err e => Q (Err e) st
     end) ->
  (forall st t, fit st -> P st -> Q (Err (trouble_error t)) st) ->
  hoare P (io effect) Q.
Proof.
  intros He Ht s r s' (Hs & Hf & Hp) Hr. unfold io in Hr. cbn [store clock seen] in Hr.
  specialize (He (store s) (clock s) Hf Hp).
  destruct (default Fine (head (faults s))) as [|t|t];
    [destruct (effect (store s) (clock s)) as [[a st]|e]|
    |destruct (effect (store s) (clock s)) as [[a st]|e]];
    injection Hr as <- <-; unfold inv, put; cbn; rewrite ?Forall_app, ?Forall_singleton; naive_solver.
Qed.

Lemma trouble_found t : kind (trouble_error t) <> NotFound.
Proof. by destruct t. Qed.

(** ** The operations *)

Lemma elsewhere_spec P : hoare P elsewhere (fun _ => P).
Proof. apply hoare_io; [|done]. intros st now Hf Hp. cbn. naive_solver. Qed.

Lemma retry_elsewhere P : hoare P (with_io_retry elsewhere) (fun _ => P).
Proof. apply hoare_retry; [apply elsewhere_spec|done]. Qed.

Lemma in_text_elsewhere P what : hoare P (in_text what elsewhere) (fun _ => P).
Proof. apply (hoare_in_text _ _ _ (fun _ => P)), elsewhere_spec. Qed.

Lemma in_text_retry_elsewhere P what : hoare P (in_text what (with_io_retry elsewhere)) (fun _ => P).
Proof. apply (hoare_in_text _ _ _ (fun _ => P)), retry_elsewhere. Qed.

Lemma read_bounded_spec P :
  hoare P (with_io_retry read_bounded) (fun r st => P st /\
    match r with Ok data => file st = Some data | Err e => kind e = NotFound -> file st = None end).
Proof.
  apply hoare_retry; [|by intros e st [? _]]. apply hoare_io.
  - intros st now Hf Hp. destruct (file st) as [data|] eqn:Hd; [|done].
    destruct (_ <? _); [done|]. destruct (valid_utf8 data); [|done].
    split_and!; [done..|]. intros t. split; [done|]. by intros []%trouble_found.
  - intros st t Hf Hp. split; [done|]. by intros []%trouble_found.
Qed.

Lemma read_record_spec P :
  hoare P read_record (fun r st => P st /\ match r with Ok record => record = record_of st | Err _ => True end).
Proof.
  eapply hoare_try; [apply read_bounded_spec|]. intros [data|e]; cbn.
  - apply hoare_ret. unfold record_of. by intros st Hf [Hp ->].
  - case_bool_decide; [|by apply hoare_throw; intros st Hf [Hp _]].
    apply hoare_ret. unfold record_of. intros st Hf [Hp Hn]. by rewrite Hn.
Qed.

Lemma marker_metadata_spec P :
  hoare P (with_io_retry marker_metadata) (fun r st => P st /\
    match r with Ok _ => True | Err e => kind e = NotFound -> marker st = None end).
Proof.
  apply hoare_retry; [|by intros e st [? _]]. apply hoare_io.
  - intros st now Hf Hp. destruct (marker st) as [t|] eqn:Hm; [|done].
    split_and!; [done..|]. intros t'. split; [done|]. by intros []%trouble_found.
  - intros st t Hf Hp. split; [done|]. by intros []%trouble_found.
Qed.

Lemma marker_state_spec P :
  hoare P withdrawal_marker_state (fun r st => P st /\ (r = Ok MarkerAbsent -> marker st = None)).
Proof.
  intros s r s' Hs Hr. unfold withdrawal_marker_state in Hr.
  destruct (with_io_retry marker_metadata s) as [x s1] eqn:E1. pose proof (marker_metadata_spec P _ _ _ Hs E1) as (H1 & H2 & H3 & H4).
  destruct x as [m|e]; [|case_bool_decide]; injection Hr as <- <-; split_and!; try done; [|by intros _; apply H4].
  by destruct (_ && _).
Qed.

(** Without a marker the record must speak for itself. *)
Lemma clear_marker_spec (F : option string -> Prop) :
  hoare (fun st => settled st /\ F (file st)) clear_withdrawal_marker
    (fun r st => (settled st /\ F (file st)) /\ match r with Ok _ => marker st = None | Err _ => True end).
Proof.
  eapply hoare_try with (Q := fun r st => (settled st /\ F (file st)) /\
    match r with Ok _ => marker st = None | Err e => kind e = NotFound -> marker st = None end).
  - apply hoare_retry; [|by intros e st [? _]]. apply hoare_io.
    + intros st now [Hs He] [Hset HF]. destruct (marker st) as [t|] eqn:Hm; [|done].
      split; [split; [by intros _|exact He]|]. split; [done|]. intros t'. split; [done|]. by intros []%trouble_found.
    + intros st t Hf Hp. split; [done|]. by intros []%trouble_found.
  - intros [[]|e]; cbn; [apply hoare_ret; naive_solver|].
    case_bool_decide; [apply hoare_ret; naive_solver|apply hoare_throw; naive_solver].
Qed.

Definition granted_text (granted : bool) : string := if granted then "granted" else "denied".

Lemma denied_not_granted r : consent r = "denied" -> effective_state (record_status r) <> Granted.
Proof. unfold record_status. intros ->. by vm_compute. Qed.

(** The new record in place: it is settled, by its own event or by denying. *)
Lemma replace_file_spec json r granted :
  from_str json = Some r -> consent r = granted_text granted -> allowed (Recorded granted) -> key origin < revision r ->
  hoare (fun _ => True) (with_io_retry (replace_file json granted))
    (fun x st => match x with Ok _ => settled st /\ file st = Some json | Err _ => True end).
Proof.
  intros Hj Hc Ha Hk. apply hoare_retry; [|done]. apply hoare_io; [|done]. intros st now [_ (ext & Hh & Hall & _)] _.
  set (st' := MkStore _ _ _).
  assert (Hrec : record_of st' = Some r) by (cbn; exact Hj).
  assert (Hset : settled st').
  { intros (r' & Hr' & Heff). rewrite Hrec in Hr'. injection Hr' as <-. cbn. rewrite last_snoc.
    destruct granted; [done|]. by destruct (denied_not_granted _ Hc). }
  split; [|done]. split; [by intros _|]. exists (ext ++ [Recorded granted]).
  assert (key st' = revision r) as Hkey by (unfold key; by rewrite Hrec).
  split_and!; [cbn; by rewrite Hh, app_assoc|apply Forall_app; by rewrite Forall_singleton|lia|intros _; lia].
Qed.

Lemma next_revision_spec record n : next_revision record = Some n -> revision_key (revision <$> record) < n.
Proof. unfold next_revision, revision_key. destruct (_ <? _); [|done]. intros [= <-]. destruct record; cbn; lia. Qed.

Lemma consent_file_path_spec located P : hoare P (consent_file_path located) (fun _ => P).
Proof. unfold consent_file_path. destruct located; [by apply hoare_ret|by apply hoare_throw]. Qed.

(** A step whose failure needs nothing said about it. *)
Lemma hoare_step {E A B} P (c : stateful Io E A) (k : A -> stateful Io E B) Q Q' :
  hoare P c Q -> (forall a, hoare (Q (Ok a)) (k a) Q') -> (forall e st, Q' (Err e) st) -> hoare P (c ≫= k) Q'.
Proof. intros Hc Hk He. eapply hoare_bind; eauto. Qed.

Definition written (granted : bool) (r : result string unit) (st : Store) : Prop :=
  match r with
  | Ok _ => settled st /\ marker st = None /\ (granted = false -> ~ authorises st)
  | Err _ => True
  end.

Lemma hoare_pure {E A} (phi : Prop) (P : Store -> Prop) (c : stateful Io E A) Q :
  (phi -> hoare P c Q) -> hoare (fun st => phi /\ P st) c Q.
Proof. intros Hc s r s' (Hs & Hf & Hphi & Hp). by apply Hc. Qed.

Lemma write_record_spec located granted source version loc :
  allowed (Recorded granted) -> hoare (fun _ => True) (write_record located granted source version loc) (written granted).
Proof.
  intros Ha. unfold write_record.
  eapply hoare_step; [apply consent_file_path_spec| |done]. intros []. cbn.
  eapply hoare_step; [apply in_text_elsewhere| |done]. intros []. cbn.
  eapply hoare_step; [apply read_record_spec| |done]. intros record. cbn.
  eapply (hoare_step _ _ _ (fun r _ => match r with Ok n => key origin < n /\ True | Err _ => True end)); [| |done].
  { destruct (next_revision record) as [n|] eqn:Hn; [|by apply hoare_throw]. apply hoare_ret.
    intros st [_ (_ & _ & _ & Hk & _)] [_ ->]. apply next_revision_spec in Hn. unfold key in *. split; [lia|done]. }
  intros n. cbn. apply hoare_pure. intros Hk.
  eapply (hoare_step _ _ _ (fun _ _ => True)); [by intros s r s' Hs [= <- <-]| |done]. intros epoch. cbn.
  set (rec := MkRecord _ _ _ _ _ _ _ _).
  eapply (hoare_step _ _ _ (fun r _ => match r with Ok json => from_str json = Some rec /\ True | Err _ => True end)); [| |done].
  { destruct (to_string_pretty rec) as [json|] eqn:Hj; [|by apply hoare_throw].
    apply hoare_ret. intros st _ _. split; [by apply from_to|done]. }
  intros json. cbn. apply hoare_pure. intros Hj.
  eapply (hoare_step _ _ _ (fun _ _ => True)); [eapply hoare_try; [apply retry_elsewhere|]| |done].
  { intros [[]|e]; cbn; [by apply hoare_ret|]. eapply hoare_try; [apply elsewhere_spec|]. intros x. by apply hoare_throw. }
  intros []. cbn.
  eapply (hoare_step _ _ _ (fun r st => match r with Ok _ => settled st /\ file st = Some json | Err _ => True end));
    [eapply hoare_try; [by apply (replace_file_spec json rec granted)|]| |done].
  { intros [[]|e]; cbn; [apply hoare_ret; naive_solver|].
    eapply hoare_try; [apply elsewhere_spec|]. intros x. by apply hoare_throw. }
  intros []. cbn. eapply hoare_conseq; [apply (clear_marker_spec (fun f => f = Some json))|done|].
  intros [[]|e] st _ [[Hset Hf] Hm]; cbn; [|done]. split_and!; [done..|]. intros -> (r & Hr & Heff).
  unfold record_of in Hr. rewrite Hf in Hr. cbn in Hr. rewrite Hj in Hr. injection Hr as <-. by destruct (denied_not_granted rec).
Qed.

(** ** The status *)

(** A status that allows collection is what the store says, with nothing under
    way. *)
Definition honest (r : result string ConsentStatus) (st : Store) : Prop :=
  forall status, r = Ok status -> effective_state status = Granted -> marker st = None /\ authorises st.

Lemma read_file_status_spec (P : Store -> Prop) :
  (forall st, P st -> marker st = None) -> hoare P read_file_status (fun r st => P st /\ honest r st).
Proof.
  intros Hm. eapply hoare_try; [apply read_bounded_spec|]. intros [data|e]; cbn; apply hoare_ret.
  - intros st _ [Hp Hd]. split; [done|]. intros status [= <-] Heff. split; [by apply Hm|].
    destruct (from_str data) as [r|] eqn:Hj; [|done]. exists r. unfold record_of. by rewrite Hd.
  - intros st _ [Hp _]. split; [done|]. intros status [= <-]. by case_bool_decide.
Qed.

Lemma recover_spec located : allowed (Recorded false) ->
  hoare (fun _ => True) (recover_stale_withdrawal_marker located)
    (fun r st => match r with Ok _ => marker st = None | Err _ => True end).
Proof.
  intros Ha. unfold recover_stale_withdrawal_marker.
  eapply (hoare_step _ _ _ (fun r st => match r with Ok MarkerAbsent => marker st = None | _ => True end)); [| |done].
  { apply hoare_in_text. eapply hoare_conseq; [apply marker_state_spec|done|]. intros [[]|e] st _ [_ Hm]; naive_solver. }
  intros []; cbn; [by apply hoare_ret| |];
    (eapply hoare_conseq; [by apply write_record_spec|done|]; intros [[]|e] st _ Hw; cbn in Hw; naive_solver).
Qed.

Lemma read_status_spec located windows :
  allowed (Recorded false) -> hoare (fun _ => True) (read_status_unlocked located windows) honest.
Proof.
  intros Ha. unfold read_status_unlocked. destruct windows; [|by apply hoare_ret; intros st _ _ status [= <-]].
  unfold read_status_located. destruct located; [|by apply hoare_ret; intros st _ _ status [= <-]]. cbn.
  eapply hoare_try; [apply marker_state_spec|].
  assert (Hfile : hoare (fun st => marker st = None) read_file_status honest).
  { eapply hoare_conseq; [by apply (read_file_status_spec (fun st => marker st = None))|done|]. by intros r st _ [_ ?]. }
  intros [[| |]|e]; cbn; [|by apply hoare_ret; intros st _ _ status [= <-]| |by apply hoare_ret; intros st _ _ status [= <-]].
  - eapply hoare_conseq; [exact Hfile| |done]. naive_solver.
  - eapply (hoare_step _ _ _ (fun r st => match r with Ok (Ok _) => marker st = None | _ => True end)).
    + eapply hoare_conseq; [apply hoare_attempt; by apply (recover_spec true)|done|]. by intros [[[]|]|].
    + intros [[]|e]; cbn; [exact Hfile|]. by apply hoare_ret; intros st _ _ status [= <-].
    + done.
Qed.

Lemma read_revision_spec located windows P :
  hoare P (read_revision_unlocked located windows) (fun r st => P st /\
    match r with Ok rev => windows && located = true -> revision_key rev = key st | Err _ => True end).
Proof.
  unfold read_revision_unlocked. destruct (windows && located) eqn:E; [|by apply hoare_ret].
  eapply hoare_bind; [apply read_record_spec| |done]. intros record. apply hoare_ret. by intros st _ [Hp ->].
Qed.

Lemma with_store_lock_spec {A} located windows P (op : stateful Io string A) Q :
  (windows && negb located = false -> hoare P op Q) -> (forall e st, P st -> Q (Err e) st) ->
  hoare P (with_store_lock located windows op) Q.
Proof.
  intros Hop He. unfold with_store_lock. destruct windows; [|by apply Hop].
  eapply (hoare_bind _ _ _ (fun r st => P st /\ match r with Ok _ => located = true | Err _ => True end));
    [destruct located; [by apply hoare_ret|by apply hoare_throw]| |naive_solver].
  intros []. cbn. eapply hoare_conseq with (P := fun st => located = true /\ P st); [|naive_solver|by intros ??? HQ; exact HQ].
  apply hoare_pure. intros ->.
  eapply hoare_bind; [apply in_text_elsewhere| |done]. intros []. cbn.
  eapply hoare_bind; [apply in_text_retry_elsewhere| |done]. intros []. cbn.
  eapply hoare_bind; [apply in_text_elsewhere| |done]. intros []. by apply Hop.
Qed.

(** ** The actions *)

Lemma get_consent_spec located windows :
  allowed (Recorded false) ->
  hoare (fun _ => True) (get_consent located windows)
    (fun r st => r = Ok Granted -> windows = true /\ marker st = None /\ authorises st).
Proof.
  intros Ha. unfold get_consent, get_status. destruct windows.
  - eapply (hoare_bind _ _ _ honest); [| |done].
    + eapply (hoare_bind _ _ _ (fun r st => match r with Ok x => honest x st | Err _ => True end)); [| |done].
      * eapply hoare_conseq; [apply hoare_attempt, with_store_lock_spec; [intros _; by apply read_status_spec|done]|done|].
        by intros [x|] st _ H.
      * intros x. apply hoare_ret. intros st _ Hx status [= <-] Heff. destruct x as [x|]; [by apply (Hx x)|done].
    + intros status. apply hoare_ret. intros st _ Hh [= Heff]. split; [done|]. by apply (Hh status).
  - eapply (hoare_bind _ _ _ (fun r _ => forall x, r = Ok x -> x = not_applicable_status)); [by apply hoare_ret; intros st _ _ x [= <-]| |done].
    intros status. apply hoare_ret. by intros st _ Hx [= He]; rewrite (Hx status eq_refl) in He.
Qed.

Lemma status_off_windows located windows :
  allowed (Recorded false) ->
  hoare (fun _ => True) (read_status_unlocked located windows)
    (fun r _ => match r with Ok status => windows = false -> status = not_applicable_status | Err _ => True end).
Proof.
  intros Ha. destruct windows; [|by apply hoare_ret].
  eapply hoare_conseq; [by apply read_status_spec|done|]. by intros [] st _ _.
Qed.

Lemma preflight_spec located windows registry loc :
  allowed (Recorded false) ->
  hoare (fun _ => True) (consent_preflight located windows registry loc)
    (fun r st => forall prompt pol status rev, r = Ok (Present prompt pol status rev) -> revision_key rev = key st).
Proof.
  intros Ha. unfold consent_preflight.
  eapply (hoare_bind _ _ _ (fun r st => forall status rev, r = Ok (Ok (status, rev)) ->
            effective_state status <> NotApplicable -> revision_key rev = key st)); [| |done].
  - eapply hoare_conseq; [apply hoare_attempt, (with_store_lock_spec _ _ (fun _ => True) _ (fun r st => forall status rev, r = Ok (status, rev) ->
            effective_state status <> NotApplicable -> revision_key rev = key st)); [|done]|done|by intros [x|] st _ H; naive_solver].
    intros Hl. eapply hoare_bind; [by apply status_off_windows| |done].
    intros status. eapply hoare_bind; [apply read_revision_spec| |done]. intros rev. apply hoare_ret.
    intros st _ [Hw Hk] ? ? [= <- <-] Hna. apply Hk. destruct windows, located; try done.
    all: by specialize (Hw eq_refl); subst status.
  - intros snapshot. apply hoare_ret. intros st _ Hsnap prompt pol status rev [= Hp].
    destruct snapshot as [[status' rev']|]; [|done]. case_bool_decide as Hna; [done|].
    destruct (negb _); [done|]. case_bool_decide; [done|]. injection Hp as _ _ <- <-. by eapply Hsnap.
Qed.

Lemma withdraw_spec located windows registry :
  allowed (Recorded false) -> allowed WithdrawalBegun ->
  hoare (fun _ => True) (withdraw_consent located windows registry) (fun _ _ => True).
Proof.
  intros Ha Hb. unfold withdraw_consent. destruct windows.
  2: { eapply hoare_bind; [|intros status; by apply hoare_ret|done].
       eapply hoare_conseq; [by apply (hoare_ret (fun _ => True) _ (fun _ _ => True))|done|done]. }
  apply with_store_lock_spec; [intros _|done].
  eapply (hoare_step _ _ _ (fun _ _ => True)); [| |done].
  { unfold begin_withdrawal. eapply hoare_step; [apply consent_file_path_spec| |done]. intros [].
    eapply hoare_step; [apply in_text_elsewhere| |done]. intros []. apply (hoare_in_text _ _ _ (fun _ _ => True)).
    apply hoare_retry; [|done]. apply hoare_io; [|done]. intros st now [Hs (ext & Hh & Hall & Hk & Hr)] _.
    split; [|done]. split; [done|]. exists (ext ++ [WithdrawalBegun]).
    split_and!; [cbn; by rewrite Hh, app_assoc|apply Forall_app; by rewrite Forall_singleton|done|].
    intros [He|He]%Exists_app; [by apply Hr|]. by apply Exists_cons in He as [?|?%Exists_nil]. }
  intros []. eapply hoare_step; [by apply write_record_spec| |done]. intros [].
  eapply (hoare_step _ _ _ (fun _ _ => True)); [| |done].
  { unfold finish_withdrawal. eapply hoare_step; [apply consent_file_path_spec| |done]. intros [].
    eapply hoare_conseq; [apply (clear_marker_spec (fun _ => True))| |done]. intros st _ (Hset & _). done. }
  intros []. eapply (hoare_step _ _ _ (fun _ _ => True)); [| |done]; [|intros; by apply hoare_ret].
  eapply hoare_conseq; [by apply read_status_spec|done|done].
Qed.

(** What the state at this point implies. *)
Lemma hoare_given {E A} (phi : Prop) (P : Store -> Prop) (c : stateful Io E A) Q :
  (forall st, fit st -> P st -> phi) -> (phi -> hoare P c Q) -> hoare P c Q.
Proof. intros Hphi Hc s r s' Hs. pose proof Hs as (_ & Hf & Hp). apply Hc; [by eapply Hphi|done]. Qed.

Lemma persist_write_spec located windows granted source prompt outcome :
  allowed (Recorded false) -> allowed (Recorded granted) ->
  hoare (fun _ => True)
    (_ ← platform_write_presented located windows granted source prompt;
     status ← read_status_unlocked located windows;
     mret (outcome status) : stateful Io string ConsentActionOutcome) (fun _ _ => True).
Proof.
  intros Ha Hg. unfold platform_write_presented. destruct windows; [|eapply hoare_bind; [by apply (hoare_throw _ _ (fun _ _ => True))| |done]].
  2: { intros []. eapply hoare_bind; [by apply (hoare_ret _ _ (fun _ _ => True))| |done]. intros. by apply hoare_ret. }
  eapply hoare_step; [by apply write_record_spec| |done]. intros [].
  eapply (hoare_step _ _ _ (fun _ _ => True)); [eapply hoare_conseq; [by apply read_status_spec|done|done]| |done].
  intros. by apply hoare_ret.
Qed.

(** A decision is recorded as it was made, and a grant only if the record is
    still the one that was seen when the user was asked. *)
Lemma persist_spec located windows registry decision prompt pol status rev :
  allowed (Recorded false) ->
  (decision = Yes -> allowed (Recorded true) \/ revision_key rev < key origin) ->
  hoare (fun _ => True) (persist_presented_decision located windows registry decision prompt pol status rev) (fun _ _ => True).
Proof.
  intros Ha Hyes. unfold persist_presented_decision. apply with_store_lock_spec; [intros Hl|done].
  eapply hoare_step; [by apply status_off_windows| |done]. intros current. cbn.
  eapply hoare_step; [apply read_revision_spec| |done]. intros rev'. cbn.
  apply hoare_pure. intros Hoff.
  case_bool_decide as Hna; [by apply hoare_ret|].
  assert (windows && located = true) as Hon by (destruct windows, located; try done; by specialize (Hoff eq_refl); subst).
  destruct (negb (policy_allows_collection _)); [by apply hoare_ret|].
  destruct (bool_decide (effective_state current = Granted) && _); [by apply hoare_ret|].
  destruct (negb (bool_decide (get_policy windows registry = pol)) || _) eqn:Hsame; [by apply hoare_throw|].
  apply (hoare_given (key origin <= revision_key rev')).
  { intros st [_ (_ & _ & _ & Hk & _)] Hrev. by rewrite (Hrev Hon). }
  intros Hk. destruct decision; [| |by apply hoare_ret].
  - eapply hoare_conseq; [apply persist_write_spec; [done|]|done|done].
    destruct (Hyes eq_refl) as [|Hlt]; [done|]. exfalso. apply orb_false_iff in Hsame as [_ Hsame].
    rewrite andb_true_r in Hsame. apply orb_false_iff in Hsame as [_ Hr%negb_false_iff%bool_decide_eq_true_1]. subst rev'. lia.
  - eapply hoare_conseq; [by apply persist_write_spec|done|done].
Qed.

End Runs.

(** ** Many processes, deaths and changes of policy *)

(** Someone is being asked: what the request saw, and when. *)
Record Presenter : Type := MkPresenter {
  seen_prompt : ConsentPrompt;
  seen_policy : PolicyState;
  seen_status : ConsentStatus;
  seen_revision : option Z;
  asked_at : Store;
}.

Record Sys : Type := MkSys {
  disk : Store;
  presenters : list Presenter;
}.

Inductive Act : Type :=
| ReadStatus
| Preflight
| Decide (presenter : Presenter) (decision : ConsentDecision)
| Withdraw.

(** How an operation leaves the disk: as it ended, or as it was when its process
    died. *)
Definition leaves {A} (op : stateful Io string A) (st st' : Store) : Prop :=
  exists now troubles r s', op (MkIo st now troubles []) = (r, s') /\ (st' = store s' \/ st' ∈ st :: seen s').

(** One act of one process, which holds the lock meanwhile; the folder, the
    platform, the registry, the clock and the troubles are any. *)
Inductive step : Act -> Sys -> Sys -> Prop :=
| step_status located windows y disk' :
    leaves (get_status located windows) (disk y) disk' ->
    step ReadStatus y (MkSys disk' (presenters y))
| step_preflight_dies located windows registry loc y disk' :
    leaves (consent_preflight located windows registry loc) (disk y) disk' ->
    step Preflight y (MkSys disk' (presenters y))
| step_preflight located windows registry loc y now troubles s' prompt pol status rev :
    consent_preflight located windows registry loc (MkIo (disk y) now troubles []) = (Ok (Present prompt pol status rev), s') ->
    step Preflight y (MkSys (store s') (MkPresenter prompt pol status rev (store s') :: presenters y))
| step_decide located windows registry decision y p disk' :
    p ∈ presenters y ->
    leaves (persist_presented_decision located windows registry decision
              (seen_prompt p) (seen_policy p) (seen_status p) (seen_revision p)) (disk y) disk' ->
    step (Decide p decision) y (MkSys disk' (presenters y))
| step_withdraw located windows registry y disk' :
    leaves (withdraw_consent located windows registry) (disk y) disk' ->
    step Withdraw y (MkSys disk' (presenters y)).

(** A run: the acts, each with the events it left, from a store in which nobody
    has decided. *)
Inductive run : list (Act * list Event) -> Sys -> Prop :=
| run_start st : ~ authorises st -> history st = [] -> run [] (MkSys st [])
| run_step acts y act y' events :
    run acts y -> step act y y' -> history (disk y') = history (disk y) ++ events -> run (acts ++ [(act, events)]) y'.

(** The events an act may leave. *)
Definition may_leave (act : Act) (e : Event) : Prop :=
  match e with
  | Recorded false => True
  | Recorded true => exists p, act = Decide p Yes
  | WithdrawalBegun => act = Withdraw
  end.

Lemma leaves_fit {A} allowed (op : stateful Io string A) Q st st' :
  sound st -> hoare allowed st (fun _ => True) op Q -> leaves op st st' -> sound st' /\ evolves allowed st st'.
Proof.
  intros Hs Hop (now & troubles & r & s' & Hr & Hst').
  assert (fit allowed st st) as Hfit by (split; [done|apply evolves_refl]).
  destruct (Hop (MkIo st now troubles []) r s') as (Hseen & Hf & _); [by split_and!|done|].
  destruct Hst' as [->|[->|Hin]%elem_of_cons]; [exact Hf|exact Hfit|]. rewrite Forall_forall in Hseen. by apply Hseen.
Qed.

Lemma get_status_spec allowed origin located windows :
  allowed (Recorded false) -> hoare allowed origin (fun _ => True) (get_status located windows) (fun _ _ => True).
Proof.
  intros Ha. unfold get_status. destruct windows; [|by apply hoare_ret].
  eapply (hoare_bind _ _ _ _ _ (fun _ _ => True)); [|intros; by apply hoare_ret|done].
  eapply hoare_conseq; [apply hoare_attempt, (with_store_lock_spec _ _ _ _ (fun _ => True) _ (fun _ _ => True)); [|done]|done|done].
  intros _. eapply hoare_conseq; [by apply read_status_spec|done|done].
Qed.

Lemma step_fit act y y' :
  sound (disk y) -> step act y y' -> sound (disk y') /\ evolves (may_leave act) (disk y) (disk y').
Proof.
  intros Hs Hst. destruct Hst as [located windows y disk' H|located windows registry loc y disk' H
    |located windows registry loc y now troubles s' prompt pol status rev H
    |located windows registry decision y p disk' Hp H|located windows registry y disk' H]; cbn.
  - by eapply leaves_fit; [|by apply get_status_spec|].
  - by eapply leaves_fit; [|by apply preflight_spec|].
  - eapply leaves_fit; [done|by apply preflight_spec|]. exists now, troubles. eexists _, s'. split; [exact H|by left].
  - eapply leaves_fit; [done|apply persist_spec; [done|]|exact H]. intros ->. left. by exists p.
  - by eapply leaves_fit; [|by apply withdraw_spec|].
Qed.

(** ** What holds in every run *)

Lemma run_history acts y :
  run acts y -> sound (disk y) /\ history (disk y) = concat acts.*2 /\ Forall (fun a => Forall (may_leave a.1) a.2) acts.
Proof.
  induction 1 as [st Hn Hh|acts y act y' new Hrun (Hs & Hh & Hall) Hst Hnew];
    [split_and!; [by intros _ []%Hn|done|constructor]|].
  destruct (step_fit _ _ _ Hs Hst) as (Hs' & ext & Hext & Hleft & _).
  assert (new = ext) as -> by (rewrite Hext in Hnew; by apply app_inv_head in Hnew).
  split_and!; [done| |by apply Forall_app; rewrite Forall_singleton].
  by rewrite fmap_app, concat_app, <- Hh, Hext; cbn; rewrite app_nil_r.
Qed.

Lemma last_concat {A B} (acts : list (A * list B)) e :
  last (concat acts.*2) = Some e ->
  exists acts1 a new acts2, acts = acts1 ++ (a, new) :: acts2 /\ last new = Some e /\ Forall (fun x => x.2 = []) acts2.
Proof.
  induction acts as [|[a new] acts IH] using rev_ind; [done|].
  rewrite fmap_app, concat_app. cbn. rewrite app_nil_r, last_app. destruct (last new) as [e'|] eqn:Hl.
  - intros [= ->]. by exists acts, a, new, [].
  - intros (acts1 & a' & new' & acts2 & -> & Hl' & Hall)%IH. exists acts1, a', new', (acts2 ++ [(a, new)]).
    rewrite <- app_assoc. split_and!; [done..|]. apply Forall_app. rewrite Forall_singleton. split; [done|].
    by apply last_None in Hl.
Qed.

(** The last act that left anything was an explicit yes. *)
Definition last_said_yes (acts : list (Act * list Event)) : Prop :=
  exists acts1 p new acts2, acts = acts1 ++ (Decide p Yes, new) :: acts2 /\ last new = Some (Recorded true) /\
    Forall (fun a => a.2 = []) acts2.

Lemma granted_reading acts y located windows now troubles s' :
  run acts y -> get_consent located windows (MkIo (disk y) now troubles []) = (Ok Granted, s') ->
  windows = true /\ last_said_yes acts.
Proof.
  intros (Hs & Hh & Hall)%run_history Hr.
  assert (inv (fun e => e = Recorded false) (disk y) (fun _ => True) (MkIo (disk y) now troubles [])) as Hinv
    by (split_and!; [constructor|split; [done|apply evolves_refl]|done]).
  destruct (get_consent_spec (fun e => e = Recorded false) (disk y) located windows eq_refl _ _ _ Hinv Hr)
    as (_ & [Hs' (ext & Hext & Hfalse & _)] & Hg). destruct (Hg eq_refl) as (Hw & Hm & Hauth). split; [done|].
  specialize (Hs' Hm Hauth). rewrite Hext, last_app in Hs'. destruct (last ext) as [e|] eqn:Hl.
  { injection Hs' as ->. apply last_Some in Hl as [ext' ->]. apply Forall_app in Hfalse as [_ Hfalse].
    rewrite Forall_singleton in Hfalse. discriminate Hfalse. }
  rewrite Hh in Hs'. destruct (last_concat _ _ Hs') as (acts1 & a & new & acts2 & -> & Hlast & Hnil).
  apply Forall_app in Hall as [_ Hall]. apply Forall_cons in Hall as [Ha _]. cbn in Ha.
  pose proof Hlast as Hin. apply last_Some in Hin as [new' ->]. apply Forall_app in Ha as [_ Ha].
  rewrite Forall_singleton in Ha. destruct Ha as [p ->]. by exists acts1, p, (new' ++ [Recorded true]), acts2.
Qed.

(** C21. Telemetry is collected only under an explicit, current yes: in any
    history of requests, decisions, withdrawals and failures of any number of
    processes, some of which died half-way, a run that is told to collect, or may
    send one more event under a published contract, is on Windows, asked for
    telemetry where that is its own switch, and is not blocked by the
    administrator; and the last act that left a trace in the store was a presenter
    answering yes.  No withdrawal begun since, no other answer, and no repair
    after a crash is behind it. *)
Theorem collection_needs_consent acts y located windows registry config eligible now troubles s' :
  run acts y ->
  (is_enabled located windows registry config (MkIo (disk y) now troubles []) = (Ok true, s') ->
     telemetry_enabled config = Some true /\ windows = true /\ get_policy windows registry <> PolicyBlocked /\ last_said_yes acts) /\
  (authorization_allows_emission located windows registry false eligible (MkIo (disk y) now troubles []) = (Ok true, s') ->
     windows = true /\ get_policy windows registry <> PolicyBlocked /\ last_said_yes acts).
Proof.
  intros Hrun. split.
  - unfold is_enabled. case_bool_decide as He; cbn; [|done]. unfold policy_allows_collection. case_bool_decide as Hp; [done|]. cbn.
    intros (c & s1 & Hc & [= Hg <-])%stateful_bind_Ok. unfold consent_allows_collection in Hg.
    apply bool_decide_eq_true_1 in Hg as ->. destruct (granted_reading _ _ _ _ _ _ _ Hrun Hc). by split_and!.
  - unfold authorization_allows_emission, policy_allows_collection, consent_allows_collection.
    intros (c & s1 & Hc & [= Hg <-])%stateful_bind_Ok.
    apply andb_true_iff in Hg as [->%bool_decide_eq_true_1 Hp%negb_true_iff%bool_decide_eq_false_1].
    by destruct (granted_reading _ _ _ _ _ _ _ Hrun Hc).
Qed.

Lemma run_presenters acts y p :
  run acts y -> p ∈ presenters y ->
  revision_key (seen_revision p) = key (asked_at p) /\ evolves (fun _ => True) (asked_at p) (disk y).
Proof.
  intros Hrun. revert p. induction Hrun as [st Hn Hh|acts y act y' new Hrun IH Hst Hnew]; intros p; [by intros ?%elem_of_nil|].
  pose proof (run_history _ _ Hrun) as (Hs & _). destruct (step_fit _ _ _ Hs Hst) as (_ & Hev).
  assert (Hold : p ∈ presenters y -> revision_key (seen_revision p) = key (asked_at p) /\ evolves (fun _ => True) (asked_at p) (disk y')).
  { intros [Hk Hp]%IH. split; [done|]. eapply evolves_trans; [exact Hp|]. by eapply evolves_weaken; [|exact Hev]. }
  destruct Hst as [| |located windows registry loc y now troubles s' prompt pol status rev H| |]; cbn; try exact Hold.
  intros [->|Hin]%elem_of_cons; [|by apply Hold]. cbn. split; [|apply evolves_refl].
  eapply (preflight_spec (may_leave Preflight) (disk y) located windows registry loc); [done| |exact H|done].
  split_and!; [constructor|split; [done|apply evolves_refl]|done].
Qed.

(** C24. A yes that comes too late records nothing: once any decision has been
    recorded since the user was asked, by another process or by the repair of a
    withdrawal that died, the answer yes to the old question leaves no grant in
    the store, however far its process gets. *)
Theorem stale_yes_not_recorded acts y p y' since new :
  run acts y -> step (Decide p Yes) y y' -> history (disk y) = history (asked_at p) ++ since ->
  Exists (fun e => recorded e = true) since -> history (disk y') = history (disk y) ++ new -> Recorded true ∉ new.
Proof.
  intros Hrun Hst Hsince Hex Hnew Hin. inversion Hst as [| | |located windows registry decision y0 p0 disk' Hp Hl|]; subst.
  destruct (run_presenters _ _ _ Hrun Hp) as (Hk & ext & Hext & _ & _ & Hlt).
  assert (ext = since) as -> by (rewrite Hext in Hsince; by apply app_inv_head in Hsince). specialize (Hlt Hex).
  pose proof (run_history _ _ Hrun) as (Hs & _).
  eapply (leaves_fit (fun e => e <> Recorded true)) in Hl as (_ & ext' & Hext' & Hno & _);
    [|done|apply persist_spec; [done|intros _; right; by rewrite Hk]].
  cbn in Hnew. rewrite Hext' in Hnew. apply app_inv_head in Hnew as ->.
  rewrite Forall_forall in Hno. by apply (Hno (Recorded true)).
Qed.

(** ** Without trouble *)

(** The file can be read: there is none, or it is text of a bounded size. *)
Definition readable (st : Store) : Prop :=
  forall data, file st = Some data -> str_len data <= MAX_CONSENT_FILE_BYTES /\ valid_utf8 data = true.

Lemma read_bounded_fine st now seen0 data :
  file st = Some data -> str_len data <= MAX_CONSENT_FILE_BYTES -> valid_utf8 data = true ->
  with_io_retry read_bounded (MkIo st now [] seen0) = (Ok data, MkIo st now [] (seen0 ++ [st])).
Proof.
  intros Hf Hl Hv. unfold with_io_retry, read_bounded. cbn. rewrite Hf, Hv.
  by rewrite (proj2 (Z.ltb_ge _ _) Hl).
Qed.

Lemma read_record_fine st now seen0 :
  readable st -> exists seen1, read_record (MkIo st now [] seen0) = (Ok (record_of st), MkIo st now [] seen1).
Proof.
  intros Hr. unfold read_record, try_io, record_of. destruct (file st) as [data|] eqn:Hf; cbn [mbind option_bind].
  - destruct (Hr data Hf) as [Hl Hv]. rewrite (read_bounded_fine _ _ _ data) by done. by eexists.
  - unfold with_io_retry, read_bounded. cbn. rewrite Hf. by eexists.
Qed.

Lemma read_bounded_stuck st now seen0 data :
  file st = Some data -> MAX_CONSENT_FILE_BYTES < str_len data \/ valid_utf8 data = false ->
  with_io_retry read_bounded (MkIo st now [] seen0) = (Err invalid_data, MkIo st now [] seen0).
Proof.
  intros Hf Hbad. unfold with_io_retry, read_bounded. cbn. rewrite Hf.
  destruct Hbad as [Hl|Hv]; [rewrite (proj2 (Z.ltb_lt _ _) Hl)|rewrite Hv; destruct (_ <? _)]; done.
Qed.

Lemma read_record_stuck st now seen0 data :
  file st = Some data -> MAX_CONSENT_FILE_BYTES < str_len data \/ valid_utf8 data = false ->
  exists e, read_record (MkIo st now [] seen0) = (Err e, MkIo st now [] seen0).
Proof.
  intros Hf Hbad. unfold read_record, try_io. rewrite (read_bounded_stuck st now seen0 data Hf Hbad). by eexists.
Qed.

(** The record a withdrawal writes. *)
Definition withdrawal_record (now n : Z) : ConsentRecord :=
  MkRecord CONSENT_SCHEMA_VERSION "denied" "withdrawal" mxc_version (Some CONSENT_RESOURCE_VERSION) FALLBACK_LOCALE (now `div` 1000) n.

Lemma run_bind {E A B} (m : stateful Io E A) (k : A -> stateful Io E B) s a s1 y :
  m s = (Ok a, s1) -> k a s1 = y -> (m ≫= k) s = y.
Proof. unfold mbind, stateful_bind. by intros -> <-. Qed.

Lemma run_bind_Err {E A B} (m : stateful Io E A) (k : A -> stateful Io E B) s e s1 :
  m s = (Err e, s1) -> (m ≫= k) s = (Err e, s1).
Proof. unfold mbind, stateful_bind. by intros ->. Qed.

Lemma run_try {A B} (op : stateful Io IoError A) (k : result IoError A -> stateful Io string B) s r s1 y :
  op s = (r, s1) -> k r s1 = y -> try_io op k s = y.
Proof. unfold try_io. by intros -> <-. Qed.

Lemma write_withdrawal_fine st now t seen0 n json :
  marker st = Some t -> readable st -> next_revision (record_of st) = Some n ->
  to_string_pretty (withdrawal_record now n) = Ok json ->
  exists seen1, write true false "withdrawal" (MkIo st now [] seen0)
    = (Ok tt, MkIo (MkStore (Some json) None (history st ++ [Recorded false])) now [] seen1).
Proof.
  intros Hm Hr Hn Hj. destruct (read_record_fine st now (seen0 ++ [st]) Hr) as (seen1 & Hrec). eexists. unfold write, write_record.
  do 2 (eapply run_bind; [reflexivity|]). eapply run_bind; [exact Hrec|]. rewrite Hn.
  do 2 (eapply run_bind; [reflexivity|]). 
  change (to_string_pretty _) with (to_string_pretty (withdrawal_record now n)). rewrite Hj. eapply run_bind; [reflexivity|].
  do 2 (eapply run_bind; [reflexivity|]). unfold clear_withdrawal_marker, try_io, with_io_retry. cbn. rewrite Hm. reflexivity.
Qed.

(** A withdrawal that meets no trouble is done when it returns: the record is a
    denial, no marker is left, and that is the status reported. *)
Theorem withdrawal_takes_effect registry st now seen0 n json :
  readable st -> next_revision (record_of st) = Some n -> to_string_pretty (withdrawal_record now n) = Ok json ->
  str_len json <= MAX_CONSENT_FILE_BYTES -> valid_utf8 json = true ->
  exists seen1, withdraw_consent true true registry (MkIo st now [] seen0)
    = (Ok (MkOutcome ResultWithdrawn (MkStatus Denied Denied None) (get_policy true registry)),
       MkIo (MkStore (Some json) None (history st ++ [WithdrawalBegun; Recorded false])) now [] seen1).
Proof.
  intros Hr Hn Hj Hl Hv.
  set (st1 := MkStore (file st) (Some now) (history st ++ [WithdrawalBegun])).
  destruct (write_withdrawal_fine st1 now now ((((seen0 ++ [st]) ++ [st]) ++ [st]) ++ [st] ++ [st1]) n json) as (seen1 & Hw); try done.
  eexists. unfold withdraw_consent, with_store_lock. do 4 (eapply run_bind; [reflexivity|]).
  eapply run_bind; [rewrite app_assoc in Hw; reflexivity|]. rewrite app_assoc in Hw. eapply run_bind; [exact Hw|].
  eapply run_bind; [reflexivity|]. eapply run_bind.
  { eapply run_try; [reflexivity|]. eapply run_try; [by apply read_bounded_fine|].
    cbv beta iota. rewrite (from_to _ _ Hj). reflexivity. }
  cbn. by rewrite <- app_assoc.
Qed.

(** A file that cannot be read as text of a bounded size is never replaced: a
    withdrawal fails with its marker left behind, and a request to consent fails
    before anyone is asked. *)
Theorem unreadable_record_stays registry st now seen0 data loc :
  file st = Some data -> MAX_CONSENT_FILE_BYTES < str_len data \/ valid_utf8 data = false -> marker st = None ->
  (exists e s', withdraw_consent true true registry (MkIo st now [] seen0) = (Err e, s') /\
     file (store s') = Some data /\ marker (store s') = Some now) /\
  exists e s', consent_preflight true true registry loc (MkIo st now [] seen0) = (Ok (Failed e), s').
Proof.
  intros Hf Hbad Hm. set (st1 := MkStore (file st) (Some now) (history st ++ [WithdrawalBegun])). split.
  - destruct (read_record_stuck st1 now (((((seen0 ++ [st]) ++ [st]) ++ [st]) ++ [st] ++ [st1]) ++ [st1]) data) as (e & He); [done..|].
    rewrite (app_assoc _ [st] [st1]) in He. exists e. eexists.
    split; [unfold withdraw_consent, with_store_lock|]. 1: do 4 (eapply run_bind; [reflexivity|]).
    1: eapply run_bind; [reflexivity|]. 1: apply run_bind_Err; unfold write, write_record.
    1: do 2 (eapply run_bind; [reflexivity|]). 1: apply run_bind_Err; exact He. by split.
  - destruct (read_record_stuck st now (((seen0 ++ [st]) ++ [st]) ++ [st]) data) as (e & He); [done..|].
    assert (Hlocked : exists s', with_store_lock true true
      (status ← read_status_unlocked true true; revision ← read_revision_unlocked true true; mret (status, revision))
      (MkIo st now [] seen0) = (Err e, s')).
    { eexists. unfold with_store_lock. do 4 (eapply run_bind; [reflexivity|]). eapply run_bind.
      - eapply run_try; [unfold withdrawal_marker_state, with_io_retry, marker_metadata; cbn; by rewrite Hm|]. cbn.
        eapply run_try; [by apply (read_bounded_stuck st now _ data)|reflexivity].
      - apply run_bind_Err. cbn. apply run_bind_Err. exact He. }
    destruct Hlocked as (s' & Hlocked). exists e, s'. unfold consent_preflight. eapply run_bind; [unfold attempt; by rewrite Hlocked|done].
Qed.

End Evolution.

(** ** Witnesses *)

(** Records as lines of text, refused when they would not be read back. *)
Fixpoint parse_dec (acc : Z) (s : string) : Z :=
  match s with
  | EmptyString => acc
  | String c r => parse_dec (acc * 10 + (byte_of c - 48)) r
  end.

Definition line_encode (r : ConsentRecord) : string :=
  string_join "|" [dec (schema_version r); consent r; record_source r; prompted_mxc_version r;
                   from_option dec "-" (prompt_resource_version r); prompt_locale r; dec (updated_at_epoch r); dec (revision r)].

Definition line_decode (s : string) : option ConsentRecord :=
  match string_split "|" s with
  | [schema; c; src; mxc; version; loc; epoch; rev] =>
      Some (MkRecord (parse_dec 0 schema) c src mxc (if bool_decide (version = "-") then None else Some (parse_dec 0 version))
              loc (parse_dec 0 epoch) (parse_dec 0 rev))
  | _ => None
  end.

#[global] Instance ConsentRecord_eq_dec : EqDecision ConsentRecord.
Proof. solve_decision. Defined.

Definition line_env : ConsentEnv.
Proof.
  refine {| from_str := line_decode;
            to_string_pretty := fun r => if decide (line_decode (line_encode r) = Some r) then Ok (line_encode r) else Err "text";
            valid_utf8 := fun _ => true; EN_US_CONSENT_PROMPT := MkPrompt 4 "en-US"; CONSENT_RESOURCE_VERSION := 4;
            FALLBACK_LOCALE := "en-US"; mxc_version := "1.0.0"; io_text := dec |}.
  intros r json. case_decide; [|done]. by intros [= <-].
Defined.

#[local] Existing Instance line_env.

Definition open_registry : Registry := MkRegistry (Err RegNotFound) (Err RegNotFound).
Definition fresh : Store := MkStore None None [].

(** Two processes ask; the first answer is recorded, with trouble on the way. *)
Definition asked : Presenter := MkPresenter (MkPrompt 4 "en-US") Unrestricted no_record_status None fresh.

Definition answered (granted : bool) : Store :=
  MkStore (Some (line_encode (MkRecord 2 (granted_text granted) "prompt" "1.0.0" (Some 4) "en-US" 3 1))) None [Recorded granted].

Lemma fresh_run : run [] (MkSys fresh []).
Proof. constructor; [|done]. by intros (r & Hr & _). Qed.

Lemma asked_run : run [(Preflight, [])] (MkSys fresh [asked]).
Proof.
  apply (run_step [] (MkSys fresh [])); [exact fresh_run| |done].
  let s' := eval vm_compute in (consent_preflight true true open_registry None (MkIo fresh 1000 [] [])).2 in
  apply (step_preflight true true open_registry None (MkSys fresh []) 1000 [] s' (MkPrompt 4 "en-US") Unrestricted no_record_status None).
  by vm_compute.
Qed.

Lemma answered_run (decision : ConsentDecision) (granted : bool) :
  decision = (if granted then Yes else No) ->
  run [(Preflight, []); (Decide asked decision, [Recorded granted])] (MkSys (answered granted) [asked]).
Proof.
  intros ->. apply (run_step [(Preflight, [])] (MkSys fresh [asked])); [exact asked_run| |done].
  eapply (step_decide true true open_registry _ (MkSys fresh [asked])); [by left|].
  exists 3000, [Fine; Before Sharing]. destruct granted; (eexists _, _; split; [vm_compute; reflexivity|left; by vm_compute]).
Qed.

(** Telemetry on, in the run in which the user said yes. *)
Lemma collection_needs_consent_witness :
  last_said_yes [(Preflight, []); (Decide asked Yes, [Recorded true])].
Proof.
  eapply (proj1 (collection_needs_consent _ _ true true open_registry (MkTelemetry (Some true) None) false 9000 [] _
    (answered_run Yes true eq_refl))). vm_compute. reflexivity.
Defined.

(** The second process still shows its question when the first has recorded a
    no; the yes it gets is dropped. *)
Lemma stale_step : step (Decide asked Yes) (MkSys (answered false) [asked]) (MkSys (answered false) [asked]).
Proof.
  eapply (step_decide true true open_registry _ (MkSys (answered false) [asked])); [by left|].
  exists 9000, []. eexists _, _. split; [vm_compute; reflexivity|left; by vm_compute].
Qed.

Lemma stale_yes_not_recorded_witness :
  step (Decide asked Yes) (MkSys (answered false) [asked]) (MkSys (answered false) [asked]) /\ Recorded true ∉ ([] : list Event).
Proof.
  split; [exact stale_step|]. apply (stale_yes_not_recorded _ _ _ _ [Recorded false] [] (answered_run No false eq_refl) stale_step);
    [done|by constructor|done].
Defined.

End Consent.
