(* ===== verification/LxcBindings.v ===== *)
(** * The LXC tools

    [backends/lxc/common/lxc_bindings.rs]: the command lines of a container's
    tools and what their outcomes mean.  Tools that are run to completion go
    through [exec] of the [Host] of LxcFirewall; [LxcOs] adds the ways in which
    the bindings observe output, wait under a deadline and attach.  The theorems
    say that a start without network replaces every interface the container's
    configuration declares, that an attached command gets the environment it is
    given and no other, and which answers of the tools release a container. *)

From Stdlib Require Import Ascii.
From stdpp Require Import gmap.
From S2P Require Import Prelude NetText Models Requests UnixPath FsPolicy BwrapCommand LxcEgress LxcFirewall LxcMounts.

Module LxcTools.

Import Firewall (Host, World, exec, ExecOutcome, Exited, SpawnFailed).

(** ** Where containers are stored *)

Definition nonempty (o : option string) : option string :=
  match o with Some s => if bool_decide (s = "") then None else Some s | None => None end.

Definition resolve_lxcpath_with_env (get_env : string -> option string) (euid : Z) : string :=
  match nonempty (get_env "LXC_PATH") with
  | Some p => p
  | None =>
      if euid =? 0 then "/var/lib/lxc"
      else match nonempty (get_env "XDG_DATA_HOME") with
      | Some xdg => trim_end_matches is_slash xdg +:+ "/lxc"
      | None =>
          match nonempty (get_env "HOME") with
          | Some home => trim_end_matches is_slash home +:+ "/.local/share/lxc"
          | None => "/var/lib/lxc"
          end
      end
  end.

(** ** Attaching *)

Definition set_var_arg (kv : string) : option string :=
  match split_once "="%char kv with
  | Some (key, _) => if bool_decide (key = "") then None else Some ("--set-var=" +:+ kv)
  | None => None
  end.

Definition CD_WRAPPER : string :=
  "cd -- " +:+ String (ascii_of_nat 34) ("$1" +:+ String (ascii_of_nat 34) (" && exec /bin/sh -c " +:+
    String (ascii_of_nat 34) ("$2" +:+ String (ascii_of_nat 34) ""))).

Definition build_attach_args_with_env_control (env : list string) (working_directory command : string)
    (force_clear_env : bool) : list string :=
  (if force_clear_env || negb (is_empty env) then "--clear-env" :: omap set_var_arg env else []) ++
  ["--"; "/bin/sh"; "-c"] ++
  (if bool_decide (working_directory = "") then [command]
   else [CD_WRAPPER; "_"; working_directory; command]).

Inductive ContainerFirewall : Type := Installed | Absent.
#[global] Instance ContainerFirewall_eq_dec : EqDecision ContainerFirewall.
Proof. solve_decision. Defined.

(** ** Interfaces at start *)

Inductive StartNetwork : Type := FromContainerConfig | NoInterface.
#[global] Instance StartNetwork_eq_dec : EqDecision StartNetwork.
Proof. solve_decision. Defined.

Definition empty_interface_args (index : nat) : list string :=
  ["-s"; "lxc.net." +:+ dec (Z.of_nat index) +:+ ".type=empty";
   "-s"; "lxc.net." +:+ dec (Z.of_nat index) +:+ ".flags=up"].

Definition to_start_args (network : StartNetwork) (configured_interfaces : nat) : list string :=
  match network with
  | FromContainerConfig => []
  | NoInterface => seq 0 (Nat.max configured_interfaces 1) ≫= empty_interface_args
  end.

(** [str::parse::<usize>] on a 64-bit target, and [str::parse::<u32>]. *)
Definition parse_unsigned (max : Z) (s : string) : option Z :=
  let digits := default s (strip_prefix_char "+"%char s) in
  v ← if decide (digits = "") then None else parse_digits digits;
  if v <=? max then Some v else None.

Definition first_piece (sep : ascii) (s : string) : string := default "" (head (string_split sep s)).

(** The interface a line of the configuration is about. *)
Definition interface_index (line : string) : option Z :=
  rest ← BwrapCommand.strip_prefix "lxc.net." (trim (first_piece "="%char line));
  parse_unsigned u64_max (first_piece "."%char rest).

Definition max_option (a : option Z) (b : Z) : option Z :=
  Some (match a with Some x => Z.max x b | None => b end).

Definition highest_interface_index (config : string) : option Z :=
  foldl max_option None (omap interface_index (LxcMounts.lines config)).

(** The addition is the one of a release build. *)
Definition configured_interface_count (config : result string string) : Z :=
  match config with
  | Err _ => 0
  | Ok config =>
      match highest_interface_index config with Some index => wrap 64 (index + 1) | None => 0 end
  end.

(** ** The init process *)

Definition line_pid (line : string) : option Z :=
  let token := trim line in
  let token := match BwrapCommand.strip_prefix "PID:" token with Some t => trim t | None => token end in
  pid ← parse_unsigned u32_max token;
  if 0 <? pid then Some pid else None.

Definition first_pid (stdout : string) : option Z := head (omap line_pid (LxcMounts.lines stdout)).

(** ** The container *)

Record LxcContainer : Type := MkContainer { name : string; lxc_path : string }.

Definition lxc_command (c : LxcContainer) (tool : string) : list string :=
  [tool; "-P"; lxc_path c; "-n"; name c].

Definition config_file_path (c : LxcContainer) : string := lxc_path c +:+ "/" +:+ name c +:+ "/config".

(** How a tool ends that is given a deadline; its standard error is captured. *)
Inductive DeadlineOutcome : Type :=
| NotSpawned (msg : string)
| PipeNotWrapped (msg : string)
| Finished (success : bool) (code : Z) (stdout stderr : string)
| DeadlinePassed
| WaitFailed (msg : string).

Inductive PtyOutcome : Type := PtyExited (code : Z) | PtyTimedOut.

(** What the bindings use of the operating system besides [exec]: the output of
    a query, a captured child under a deadline in milliseconds, a child behind
    a pseudo terminal, the configuration file and what the mounts ask of the
    file system.  The flag of a child says that its network capabilities were
    dropped between fork and exec. *)
Class LxcOs (H : Host) : Type := {
  output : list string -> World -> option (bool * string) * World;
  capture : list string -> bool -> option Z -> World -> DeadlineOutcome * World;
  run_with_pty : list string -> bool -> option Z -> World -> result string PtyOutcome * World;
  arch : string;
  config_file : string -> World -> LxcMounts.ConfigFile;
  store_config : string -> result string string -> World -> World;
  canonicalize : World -> list UnixPath.Component -> option (list UnixPath.Component);
  path_is_utf8 : World -> string -> bool;
  path_is_symlink : World -> string -> bool;
  path_is_file : World -> string -> bool;
  probe : World -> string -> result string unit;
  debug : string -> string;
}.

Section WithOs.
Context {H : Host} {O : LxcOs H}.

Definition tool_of (argv : list string) : string := default "" (head argv).

Definition run_tool (argv : list string) (w : World) : result string unit * World :=
  let '(outcome, w) := exec [] argv w in
  (match outcome with
   | Exited true _ => Ok tt
   | Exited false stderr => Err (tool_of argv +:+ " failed: " +:+ stderr)
   | SpawnFailed e => Err ("Failed to run " +:+ tool_of argv +:+ ": " +:+ e)
   end, w).

Definition RELEASE_TIMEOUT : Z := 120000.

Definition run_release_tool (argv : list string) (w : World) : result string unit * World :=
  let '(outcome, w) := capture argv false (Some RELEASE_TIMEOUT) w in
  (match outcome with
   | NotSpawned e => Err ("Failed to run " +:+ tool_of argv +:+ ": " +:+ e)
   | PipeNotWrapped e => Err ("Failed to wrap the " +:+ tool_of argv +:+ " stderr pipe: " +:+ e)
   | DeadlinePassed => Err (tool_of argv +:+ " did not finish within " +:+ dec (RELEASE_TIMEOUT / 1000) +:+ "s")
   | WaitFailed e => Err ("Failed to wait for " +:+ tool_of argv +:+ ": " +:+ e)
   | Finished true _ _ _ => Ok tt
   | Finished false _ _ stderr => Err (tool_of argv +:+ " failed: " +:+ trim stderr)
   end, w).

Definition is_defined (c : LxcContainer) (w : World) : bool * World :=
  let '(out, w) := output (lxc_command c "lxc-info") w in
  (match out with Some (success, _) => success | None => false end, w).

Definition is_running (c : LxcContainer) (w : World) : bool * World :=
  let '(out, w) := output (lxc_command c "lxc-info" ++ ["-s"]) w in
  (match out with Some (_, stdout) => str_contains "RUNNING" stdout | None => false end, w).

Definition init_pid (c : LxcContainer) (w : World) : option Z * World :=
  let '(out, w) := output (lxc_command c "lxc-info" ++ ["-p"]) w in
  (match out with Some (true, stdout) => first_pid stdout | _ => None end, w).

Definition create (c : LxcContainer) (distribution release : string) : World -> result string unit * World :=
  run_tool (lxc_command c "lxc-create" ++
    ["-t"; "download"; "--"; "-d"; distribution; "-r"; release; "-a"; arch]).

Definition start (c : LxcContainer) (network : StartNetwork) (w : World) : result string unit * World :=
  let count := configured_interface_count (LxcMounts.contents (config_file (config_file_path c) w)) in
  run_tool (lxc_command c "lxc-start" ++ to_start_args network (Z.to_nat count)) w.

Definition stop (c : LxcContainer) : World -> result string unit * World :=
  run_release_tool (lxc_command c "lxc-stop" ++ ["-k"]).

Definition destroy (c : LxcContainer) : World -> result string unit * World :=
  run_release_tool (lxc_command c "lxc-destroy" ++ ["-f"]).

(** [configure_filesystem_mounts] on the container's configuration file. *)
Definition configure_mounts (c : LxcContainer) (p : ContainerPolicy) (w : World) : result string unit * World :=
  let path := config_file_path c in
  let '(r, config) := LxcMounts.configure_filesystem_mounts (canonicalize w) (path_is_utf8 w)
    (path_is_symlink w) (path_is_file w) (probe w) debug path (config_file path w) p in
  (r, store_config path config w).

Definition attach_argv (c : LxcContainer) (command working_directory : string) (env : list string)
    (force_clear_env : bool) : list string :=
  lxc_command c "lxc-attach" ++ build_attach_args_with_env_control env working_directory command force_clear_env.

Definition confined (firewall : ContainerFirewall) : bool := bool_decide (firewall = Installed).

Definition timeout_text (timeout : option Z) : string := dec (default 0 timeout).

Definition attach_run (c : LxcContainer) (command working_directory : string) (env : list string)
    (force_clear_env : bool) (timeout : option Z) (firewall : ContainerFirewall) (w : World)
    : result string (Z * string * string) * World :=
  let '(r, w) := run_with_pty (attach_argv c command working_directory env force_clear_env)
    (confined firewall) timeout w in
  (match r with
   | Err e => Err e
   | Ok (PtyExited code) => Ok (code, "", "")
   | Ok PtyTimedOut => Err ("script timed out after " +:+ timeout_text timeout +:+ "ms")
   end, w).

Definition attach_capture (c : LxcContainer) (command working_directory : string) (env : list string)
    (force_clear_env : bool) (timeout : option Z) (firewall : ContainerFirewall) (w : World)
    : result string (Z * string * string) * World :=
  let '(outcome, w) := capture (attach_argv c command working_directory env force_clear_env)
    (confined firewall) timeout w in
  (match outcome with
   | NotSpawned e => Err ("Failed to run lxc-attach: " +:+ e)
   | PipeNotWrapped e => Err ("Failed to wrap an lxc-attach pipe: " +:+ e)
   | DeadlinePassed => Err ("lxc-attach timed out after " +:+ timeout_text timeout +:+ "ms")
   | WaitFailed e => Err ("Failed to wait for lxc-attach: " +:+ e)
   | Finished _ code out err => Ok (code, out, err)
   end, w).

End WithOs.

(** ** A start without network *)

Lemma max_option_bound l (acc : option Z) (x : Z) :
  x ∈ l \/ acc = Some x -> exists h, foldl max_option acc l = Some h /\ x <= h.
Proof.
  revert acc x. induction l as [|y l IH]; intros acc x Hx.
  - destruct Hx as [[]%elem_of_nil| ->]. by exists x.
  - cbn. destruct (decide (x ∈ l)) as [Hl|Hl]; [by apply IH; left|].
    assert (exists z, max_option acc y = Some z /\ x <= z) as (z & Hz & Hle).
    { destruct Hx as [[->|?]%elem_of_cons| ->]; [|done|].
      - destruct acc; eexists; (split; [reflexivity|lia]).
      - eexists. split; [reflexivity|lia]. }
    destruct (IH (max_option acc y) z (or_intror Hz)) as (h & Hh & Hzh). exists h. split; [done|lia].
Qed.

Lemma parse_unsigned_bound max s v : parse_unsigned max s = Some v -> 0 <= v <= max.
Proof.
  unfold parse_unsigned. case_decide; [done|]. destruct (parse_digits _) as [d|] eqn:E; cbn; [|done].
  destruct (Z.leb_spec d max); [|done]. intros [= <-]. split; [by eapply parse_digits_nonneg|done].
Qed.

Lemma interface_index_bound line i : interface_index line = Some i -> 0 <= i <= u64_max.
Proof.
  unfold interface_index. destruct (BwrapCommand.strip_prefix _ _); cbn; [|done]. apply parse_unsigned_bound.
Qed.

Lemma max_option_all (P : Z -> Prop) l acc h :
  Forall P l -> (forall x, acc = Some x -> P x) -> foldl max_option acc l = Some h -> P h.
Proof.
  intros Hl. revert acc. induction Hl as [|y l Hy Hl IH]; intros acc Hacc Hh; [by apply Hacc|].
  apply (IH (max_option acc y)); [|done]. intros x [= <-]. destruct acc as [z|]; [|done].
  destruct (Z.max_spec z y) as [[_ ->]|[_ ->]]; [done|by apply Hacc].
Qed.

Lemma highest_interface_bound config h : highest_interface_index config = Some h -> 0 <= h <= u64_max.
Proof.
  apply (max_option_all (fun i => 0 <= i <= u64_max)); [|done].
  apply Forall_forall. intros i (l & _ & Hl)%list_elem_of_omap. by eapply interface_index_bound.
Qed.

Lemma empty_interface_args_in i n :
  (i < Nat.max n 1)%nat -> "lxc.net." +:+ dec (Z.of_nat i) +:+ ".type=empty" ∈ to_start_args NoInterface n.
Proof.
  intros Hi. cbn [to_start_args]. apply list_elem_of_bind. exists i. split; [|apply elem_of_seq; lia].
  unfold empty_interface_args. set_solver.
Qed.

(** A container that is started without network has every interface its
    configuration declares, and the first one even if it declares none,
    overridden with an empty one: for each line of the configuration about an
    interface, the start command carries that interface's override.  An index
    that no successor can be counted for is the only exception. *)
Theorem isolated_start_covers_interfaces (config line : string) (index : Z) :
  line ∈ LxcMounts.lines config -> interface_index line = Some index ->
  highest_interface_index config <> Some u64_max ->
  "lxc.net." +:+ dec index +:+ ".type=empty" ∈
    to_start_args NoInterface (Z.to_nat (configured_interface_count (Ok config))) /\
  "lxc.net.0.type=empty" ∈
    to_start_args NoInterface (Z.to_nat (configured_interface_count (Ok config))).
Proof.
  intros Hline Hi Hmax. pose proof (interface_index_bound _ _ Hi) as Hb. cbn [configured_interface_count].
  assert (Hh : exists h, highest_interface_index config = Some h /\ index <= h).
  { apply max_option_bound. left. apply list_elem_of_omap. eauto. }
  destruct Hh as (h & Hh & Hle).
  pose proof (highest_interface_bound _ _ Hh) as Hhb.
  rewrite Hh in *. assert (h <> u64_max) by congruence.
  assert (wrap 64 (h + 1) = h + 1) as ->
    by (unfold wrap; apply Z.mod_small; unfold u64_max in *; lia).
  split.
  - rewrite <- (Z2Nat.id index) at 1 by lia. apply empty_interface_args_in. lia.
  - apply (empty_interface_args_in 0). lia.
Qed.

Definition two_interfaces : string :=
  LxcMounts.unlines ["lxc.rootfs.path = dir:/x"; "lxc.net.0.type = veth"; " lxc.net.3.link=br0"].

Lemma isolated_start_covers_interfaces_witness :
  "lxc.net.3.type=empty" ∈ to_start_args NoInterface (Z.to_nat (configured_interface_count (Ok two_interfaces))).
Proof.
  apply (isolated_start_covers_interfaces two_interfaces " lxc.net.3.link=br0" 3).
  - vm_compute. right. right. left.
  - vm_compute. reflexivity.
  - vm_compute. discriminate.
Defined.

(** ** What an attached command gets *)

(** [lxc-attach] as documented: options up to the double dash, then the command.
    The environment is the one of the options if it is cleared. *)
Record Attached : Type := MkAttached {
  cleared : bool;
  variables : list string;
  argv : list string;
}.

Fixpoint read_attach (args : list string) : option Attached :=
  match args with
  | [] => None
  | a :: rest =>
      if bool_decide (a = "--") then Some (MkAttached false [] rest)
      else
        attached ← read_attach rest;
        if bool_decide (a = "--clear-env") then Some (MkAttached true (variables attached) (argv attached))
        else
          kv ← BwrapCommand.strip_prefix "--set-var=" a;
          Some (MkAttached (cleared attached) (kv :: variables attached) (argv attached))
  end.

(** The shell's own reading of its arguments: the script and the directory it is
    run in, the root if none is named. *)
Definition read_shell (args : list string) : option (string * string) :=
  match args with
  | ["/bin/sh"; "-c"; command] => Some ("", command)
  | ["/bin/sh"; "-c"; script; _; directory; command] =>
      if bool_decide (script = CD_WRAPPER) then Some (directory, command) else None
  | _ => None
  end.

(** An entry with a name. *)
Definition named_entry (kv : string) : Prop := is_Some (set_var_arg kv).

#[global] Instance named_entry_dec kv : Decision (named_entry kv).
Proof. unfold named_entry. apply _. Defined.

Lemma read_set_vars env rest attached :
  read_attach rest = Some attached ->
  read_attach (omap set_var_arg env ++ rest) =
  Some (MkAttached (cleared attached) (filter named_entry env ++ variables attached) (argv attached)).
Proof.
  intros Hr. induction env as [|kv env IH]; [by destruct attached|]. cbn [omap list_omap].
  rewrite filter_cons. case_decide as Hn.
  - destruct Hn as [a E]. rewrite E. unfold set_var_arg in E. destruct (split_once _ kv) as [[key v]|]; [|done].
    case_bool_decide; [done|]. injection E as <-. cbn [app read_attach]. rewrite IH. by cbn.
  - destruct (set_var_arg kv) as [a|] eqn:E; [|done]. by destruct Hn; exists a.
Qed.

(** An attached command runs in exactly the environment it is given: the
    options clear whatever the host has, an empty list included, and set the
    entries that have a name, in their order; the script and its directory reach
    the shell as they are, whatever characters they contain. *)
Theorem attach_args_roundtrip (env : list string) (working_directory command : string) :
  exists attached,
    read_attach (build_attach_args_with_env_control env working_directory command true) = Some attached /\
    cleared attached = true /\ variables attached = filter named_entry env /\
    read_shell (argv attached) = Some (working_directory, command).
Proof.
  unfold build_attach_args_with_env_control. cbn [orb].
  set (tail := if bool_decide _ then [command] else _).
  assert (Hr : read_attach (["--"; "/bin/sh"; "-c"] ++ tail) = Some (MkAttached false [] (["/bin/sh"; "-c"] ++ tail)))
    by done.
  rewrite <- app_comm_cons. cbn [read_attach]. rewrite bool_decide_false by done.
  rewrite (read_set_vars env _ _ Hr). eexists. split; [reflexivity|].
  cbn [cleared variables argv mbind option_bind]. rewrite app_nil_r. split_and!; [done..|].
  unfold tail. case_bool_decide; [by subst|]. cbn. by rewrite bool_decide_true.
Qed.

End LxcTools.
