(* ===== verification/LxcRunner.v ===== *)
(** * Running a workload in an LXC container

    [backends/lxc/common/lxc_runner.rs] and [availability.rs]: preparing a
    container for a request, running a script in it to completion or behind a
    handle, and releasing it.  The firewalls, the mounts and the tools are those
    of LxcFirewall, LxcIngress, LxcMounts and LxcBindings; the rest of the
    operating system is [RunnerOs].  The state has the names in use by this
    process and a history of what was done to the container, from which the
    theorems are read.  Values that Rust drops at the end of a scope are dropped
    where the scope ends.  Log lines are not modelled, nor are panics; of the
    streams of a handle only what can fail is. *)

From Stdlib Require Import Ascii.
From stdpp Require Import gmap.
From S2P Require Import Prelude Wire NetText Models Requests ProxyEnv UnixPath FsPolicy DefaultEnv NetworkBlocks Netfilter LxcNames EgressSpec LxcEgress LxcFirewall LxcIngress LxcMounts NetworkParser Validator BwrapCommand BwrapResolve LxcBindings.

Module LxcRunner.

Import Blocks (IpFamily, FamilyV4, FamilyV6).
Import Lxc (plan_network, omits_interface, installs_firewall, needs_network, validate_egress_lowering).
Import Firewall (Host, World, exec, Sys, world, set_world, set_active, set_active_pid,
  NetworkIptablesManager, EgressHookPoint, ContainerNetns, Unhooked, is_hooked).
Import LxcTools.

(** ** Availability *)

Inductive LxcLsOutcome : Type := ExitedSuccess | ExitedFailure | LsNotFound | LsSpawnFailed | LsTimedOut.
Inductive LxcTooling : Type := Available | Unavailable | ProbeFailed.

Definition tooling_from (outcome : LxcLsOutcome) : LxcTooling :=
  match outcome with
  | ExitedSuccess => Available
  | ExitedFailure | LsNotFound => Unavailable
  | LsSpawnFailed | LsTimedOut => ProbeFailed
  end.

(** ** The environment of the workload *)

Definition DEFAULT_PATH : string := "/usr/local/sbin:/usr/local/bin:/usr/sbin:/usr/bin:/sbin:/bin".
Definition DEFAULT_TERM : string := "xterm-256color".

Definition start_directory (r : ExecutionRequest) : option string :=
  if bool_decide (working_directory r = "") then None else Some (sandbox_absolute_path (working_directory r)).

Definition default_env (r : ExecutionRequest) : list (string * string) :=
  [("PATH", DEFAULT_PATH)] ++ match start_directory r with Some home => [("HOME", home)] | None => [] end
  ++ [("TERM", DEFAULT_TERM)].

Definition resolved_env (r : ExecutionRequest) : list string :=
  Proxy.apply_proxy_env (DefaultEnv.resolve_env r (default_env r)) (network_proxy (policy r)).

(** ** Readiness *)

Definition octet (n : Z) (address : Z) : Z := Z.land (Z.shiftr address (8 * (3 - n))) 255.

(** Not loopback, unspecified, link local, multicast or broadcast. *)
Definition routable (address : Z) : bool :=
  negb (octet 0 address =? 127) && negb (address =? 0)
  && negb ((octet 0 address =? 169) && (octet 1 address =? 254))
  && negb ((224 <=? octet 0 address) && (octet 0 address <=? 239)) && negb (address =? 4294967295).

Definition first_routable_ipv4 (lxc_info_addresses : string) : option Z :=
  List.find routable (omap (fun line => parse_ipv4 (trim line)) (LxcMounts.lines lxc_info_addresses)).

(** ** The commands on [/etc/hosts] *)

Definition HOSTS_PIN_MARKER : string := "#mxc-proxy-pin".
Definition HOSTS_COMMAND_TIMEOUT : Z := 30000.

Definition quoted (s : string) : string := String (ascii_of_nat 34) (s +:+ String (ascii_of_nat 34) "").

Definition refuse_unreadable : string :=
  "if [ " +:+ quoted "$status" +:+ " -gt 1 ]; then " +:+
  "printf 'mxc: refusing to rewrite /etc/hosts: reading it exited %s\n' " +:+
  quoted "$status" +:+ " >&2; exit " +:+ quoted "$status" +:+ "; fi; ".

Definition hosts_read_prologue : string :=
  "if [ -h /etc/hosts ]; then " +:+
  "printf 'mxc: refusing to rewrite /etc/hosts: it is a symbolic link\n' >&2; exit 4; fi; " +:+
  "kept=''; if [ -e /etc/hosts ]; then " +:+
  "if grep -q '" +:+ HOSTS_PIN_MARKER +:+ "' /etc/hosts 2>/dev/null; then :; else status=$?; " +:+
  refuse_unreadable +:+ "exit 0; fi; " +:+
  "kept=$(grep -v '" +:+ HOSTS_PIN_MARKER +:+ "' /etc/hosts 2>/dev/null); status=$?; " +:+
  refuse_unreadable +:+ "else exit 0; fi; ".

Definition build_hosts_unpin_command : string :=
  hosts_read_prologue +:+ "{ if [ -n " +:+ quoted "$kept" +:+ " ]; then printf '%s\n' " +:+
  quoted "$kept" +:+ "; fi; } > /etc/hosts".

Definition hosts_command_failure (exit_code : Z) (stderr : string) : string :=
  let detail := trim stderr in
  let code := if exit_code <? 0 then "-" +:+ dec (- exit_code) else dec exit_code in
  if bool_decide (detail = "") then "clearing /etc/hosts exited with " +:+ code
  else "clearing /etc/hosts exited with " +:+ code +:+ ": " +:+ detail.

(** ** Validation *)

Definition lxc_network_policy_support : Validator.NetworkPolicySupport :=
  foldr Validator.support_or 0 [Validator.EGRESS_DEFAULT; Validator.EGRESS_RULES; Validator.INGRESS_DEFAULT;
    Validator.HOST_LOOPBACK; Validator.RUNTIME_PROXY].

Definition unsupported_network_proxy (p : ContainerPolicy) : option string :=
  if is_enabled (network_proxy p) && negb (runtime_network_proxy_specified p) then Some "network.proxy" else None.

Definition check_runtime_proxy_address (address : ProxyAddress) : result ScriptResponse unit :=
  if negb (Parser.host_is_canonical_loopback (proxy_address address)) then
    Err (response_error ("LXC: runtimeConfig.networkProxy host '" +:+ proxy_address address +:+
      "' must be localhost, 127.0.0.1, or ::1. The proxy is relayed into the container at the same " +:+
      "loopback address and port."))
  else if Proxy.proxy_url_has_credentials (to_url address) then
    Err (response_error ("LXC: runtimeConfig.networkProxy must not carry credentials ('" +:+
      Proxy.redact_proxy_url (to_url address) +:+ "'). LXC passes the proxy URL to lxc-attach as a " +:+
      "--set-var command-line argument, and process arguments are world-readable through " +:+
      "/proc/<pid>/cmdline."))
  else Ok tt.

Definition validate_runtime_proxy (p : ContainerPolicy) : result ScriptResponse unit :=
  _ ← match proxy_config_address (network_proxy p) with
      | Some address => check_runtime_proxy_address address
      | None => Ok tt
      end;
  if is_some_and (fun egress => negb (bool_decide (egress_default egress = Deny))
                                || negb (is_empty (allow egress)) || negb (is_empty (deny egress)))
       (network_egress p) then
    Err (response_error ("LXC: runtimeConfig.networkProxy cannot be combined with network.egress rules or " +:+
      "default='allow'. The relayed proxy port is the container's only outbound path. Use " +:+
      "network.egress.default='deny' with no rules, or remove the proxy."))
  else Ok tt.

Definition validate_runner (r : ExecutionRequest) : result ScriptResponse unit :=
  _ ← if runtime_network_proxy_specified (policy r) then validate_runtime_proxy (policy r) else Ok tt;
  match unsupported_network_proxy (policy r) with
  | Some field =>
      Err (response_error ("LXC: " +:+ field +:+ " is not supported and cannot be enforced; " +:+
                           "remove the proxy request."))
  | None => Validator.validate_network_policy_support r lxc_network_policy_support
  end.

(** ** The host *)

Inductive StdioMode : Type := Pipes | Inherit | Pty.

Inductive WaitOutcome : Type := WaitExited (code : Z) | WaitTimeout | WaitIo (msg : string).

(** What the runner uses of the operating system besides the tools: clocks in
    milliseconds and nanoseconds, the probe of [lxc-ls], the identity of objects
    and the access of the caller, the loopback relay, and a launched child, whose
    results the code looks at or drops.  The last four are the texts of errors. *)
Class RunnerOs (H : Host) : Type := {
  now : World -> Z;
  sleep : Z -> World -> World;
  unix_nanos : World -> Z * World;
  hex8 : Z -> string;
  get_env : World -> string -> option string;
  geteuid : World -> Z;
  probe_lxc_ls : World -> LxcLsOutcome * World;
  resolve_object : World -> string -> result string FsPolicy.PathResolution;
  check_access : World -> string -> BwrapResolve.AccessMode -> result string BwrapResolve.UserAccess;
  Relay : Type;
  relay_start : Z -> string -> Z -> World -> result string Relay * World;
  relay_stop : Relay -> World -> World;
  Child : Type;
  attach_spawn : list string -> bool -> StdioMode -> World -> result string Child * World;
  wrap_pipes : Child -> World -> result string unit * World;
  child_kill : Child -> World -> World;
  child_wait : Child -> World -> World;
  child_try_wait : Child -> World -> result string (option Z) * World;
  wait_with_timeout : Child -> option Z -> World -> WaitOutcome * World;
  take_unclaimed_reader : Child -> World -> result string unit * World;
  lowering_text : Lxc.EgressError -> string;
  egress_text : Firewall.FirewallError -> string;
  ingress_text : Ingress.IngressError -> string;
}.

(** What was done to the container, and what was seen of the workload: its
    attach process ended.  [Unfiltered]: the hooked outbound chain was taken out
    by a command. *)
Inductive Event : Type :=
| Created
| Started (network : StartNetwork) (ok : bool)
| Stopped (ok : bool)
| Destroyed (ok : bool)
| Launched
| Ended
| Unfiltered.
#[global] Instance Event_eq_dec : EqDecision Event.
Proof. solve_decision. Defined.

Inductive ContainerRelease : Type := Destroy | Stop.

Definition verb (r : ContainerRelease) : string := match r with Destroy => "destroy" | Stop => "stop" end.

Record LxcScriptRunner : Type := MkRunner {
  config : LxcConfig;
  runner_container_id : string;
  runner_destroy_on_exit : bool;
  cleanup_policy : bool;
}.

Definition runner_new (config : LxcConfig) (container_id : string) (lifecycle : LifecycleConfig) : LxcScriptRunner :=
  MkRunner config container_id (Requests.destroy_on_exit lifecycle) (negb (Requests.preserve_policy lifecycle)).

Definition release_kind (r : LxcScriptRunner) (container_created : bool) : ContainerRelease :=
  if runner_destroy_on_exit r || container_created then Destroy else Stop.

Definition egress_hook_point (netns_pid : option Z) (installs : bool) : option EgressHookPoint :=
  match netns_pid with
  | Some pid => Some (ContainerNetns pid)
  | None => if installs then None else Some Unhooked
  end.

Definition launch_failure_message (reason : string) (cleanup_failures : list string) : string :=
  if is_empty cleanup_failures then reason
  else reason +:+ " Cleanup after the failure did not finish: " +:+ string_join "; " cleanup_failures +:+ ".".

Section WithHost.
Context {H : Host} {OS : LxcOs H} {RO : RunnerOs H} (sha256 : string -> list Z).

(** The process: the host with the watchdog's slot, the names of live
    sandboxes, whether the tooling was found, and the history, newest first. *)
Record Run : Type := MkRun {
  sys : Sys;
  live : gset string;
  confirmed : bool;
  events : list Event;
}.

Definition set_sys (y : Sys) (s : Run) : Run := MkRun y (live s) (confirmed s) (events s).
Definition set_live (l : gset string) (s : Run) : Run := MkRun (sys s) l (confirmed s) (events s).
Definition record (e : Event) (s : Run) : Run := MkRun (sys s) (live s) (confirmed s) (e :: events s).

Definition on_world {A} (f : World -> A * World) (s : Run) : A * Run :=
  let '(a, w) := f (world (sys s)) in (a, set_sys (set_world w (sys s)) s).

Definition change_world (f : World -> World) (s : Run) : Run :=
  set_sys (set_world (f (world (sys s))) (sys s)) s.

(** An operation on the container, noted with its outcome. *)
Definition noted (note : bool -> Event) (f : World -> result string unit * World) (s : Run)
    : result string unit * Run :=
  let '(r, s) := on_world f s in (r, record (note (is_ok r)) s).

Definition start_container (c : LxcContainer) (network : StartNetwork) : Run -> result string unit * Run :=
  noted (Started network) (LxcTools.start c network).
Definition stop_container (c : LxcContainer) : Run -> result string unit * Run := noted Stopped (stop c).
Definition destroy_container (c : LxcContainer) : Run -> result string unit * Run := noted Destroyed (destroy c).

Definition release_container (c : LxcContainer) (release : ContainerRelease) : Run -> result string unit * Run :=
  match release with Destroy => destroy_container c | Stop => stop_container c end.

(** A failure is turned into a response after [cleanup]. *)
Definition or_fail {A} (f : Run -> result string A * Run) (cleanup : Run -> Run) (err : string -> ScriptResponse)
    : stateful Run ScriptResponse A := fun s =>
  match f s with
  | (Ok a, s) => (Ok a, s)
  | (Err e, s) => (Err (err e), cleanup s)
  end.

(** What the end of a scope drops when the code in it returns early. *)
Definition on_error {A} (cleanup : Run -> Run) (c : stateful Run ScriptResponse A)
    : stateful Run ScriptResponse A := fun s =>
  match c s with
  | (Ok a, s) => (Ok a, s)
  | (Err e, s) => (Err e, cleanup s)
  end.

Definition of_result {A} (r : result ScriptResponse A) : stateful Run ScriptResponse A := fun s => (r, s).

(** ** Names *)

Definition GENERATED_NAME_ATTEMPTS : nat := 8.

Definition uuid_simple (w : World) : string * World :=
  let '(t, w) := unix_nanos w in (hex8 (Z.land t 0xFFFFFFFF), w).

Definition acquire (name : string) (s : Run) : bool * Run :=
  if decide (name ∈ live s) then (false, s) else (true, set_live ({[name]} ∪ live s) s).

(** [Drop] of the claim. *)
Definition drop_claim (name : string) (s : Run) : Run := set_live (live s ∖ {[name]}) s.

Definition resolve_container_name (r : LxcScriptRunner) (s : Run) : string * Run :=
  if bool_decide (runner_container_id r = "") then
    let '(u, s) := on_world uuid_simple s in ("mxc-" +:+ u, s)
  else (runner_container_id r, s).

Fixpoint claim_generated_name (attempts : nat) (r : LxcScriptRunner) : stateful Run ScriptResponse string := fun s =>
  match attempts with
  | O => (Err (failed LaunchFailed ("LXC: could not find a free container name for this run; every generated name " +:+
            "was already in use by another run in this process. Retry, or set containerId to a name of your own.")), s)
  | S attempts =>
      let '(name, s) := resolve_container_name r s in
      match acquire name s with
      | (true, s) => (Ok name, s)
      | (false, s) => claim_generated_name attempts r s
      end
  end.

Definition claim_container_name (r : LxcScriptRunner) : stateful Run ScriptResponse string := fun s =>
  if bool_decide (runner_container_id r = "") then claim_generated_name GENERATED_NAME_ATTEMPTS r s
  else match acquire (runner_container_id r) s with
  | (true, s) => (Ok (runner_container_id r), s)
  | (false, s) =>
      (Err (failed LaunchFailed ("LXC: container '" +:+ runner_container_id r +:+ "' is already in use by a run in " +:+
         "this process. LXC reads a run's network section only when the container starts, so a second run would " +:+
         "stop the first one's workload to restart it under its own policy. Let the first run finish, or give this " +:+
         "one its own containerId.")), s)
  end.

(** ** Waiting for an address *)

Definition POLL_INTERVAL : Z := 500.
Definition READINESS_TIMEOUT : Z := 30000.

(** [lxc-info] is given the name only. *)
Fixpoint wait_for_network (fuel : nat) (name : string) (start timeout : Z) (w : World) : bool * World :=
  match fuel with
  | O => (false, w)
  | S fuel =>
      if now w - start <? timeout then
        let '(out, w) := output ["lxc-info"; "-n"; name; "-iH"] w in
        match out ≫= (fun '(_, stdout) => first_routable_ipv4 stdout) with
        | Some _ => (true, w)
        | None => wait_for_network fuel name start timeout (sleep POLL_INTERVAL w)
        end
      else (false, w)
  end.

Definition POLLS : nat := 61.

(** ** A prepared sandbox *)

Record PreparedSandbox : Type := MkPrepared {
  fw_manager : NetworkIptablesManager;
  ingress_manager : option Ingress.IngressManager;
  container : LxcContainer;
  container_created : bool;
  firewall : ContainerFirewall;
  relay : option Relay;
  released : bool;
  force_stopped : bool;
  stop_failed : bool;
  prepared_script : string;
  prepared_directory : string;
  exec_env : list string;
  timeout : option Z;
}.

Definition set_managers (fw : NetworkIptablesManager) (ingress : option Ingress.IngressManager) (p : PreparedSandbox)
    : PreparedSandbox :=
  MkPrepared fw ingress (container p) (container_created p) (firewall p) (relay p) (released p) (force_stopped p)
    (stop_failed p) (prepared_script p) (prepared_directory p) (exec_env p) (timeout p).
Definition set_flags (released force_stopped stop_failed : bool) (p : PreparedSandbox) : PreparedSandbox :=
  MkPrepared (fw_manager p) (ingress_manager p) (container p) (container_created p) (firewall p) (relay p)
    released force_stopped stop_failed (prepared_script p) (prepared_directory p) (exec_env p) (timeout p).
Definition without_relay (p : PreparedSandbox) : PreparedSandbox :=
  MkPrepared (fw_manager p) (ingress_manager p) (container p) (container_created p) (firewall p) None (released p)
    (force_stopped p) (stop_failed p) (prepared_script p) (prepared_directory p) (exec_env p) (timeout p).

(** [Drop] of the relay. *)
Definition drop_relay (relay : option Relay) (s : Run) : Run :=
  match relay with Some relay => change_world (relay_stop relay) s | None => s end.

(** The removal of the outbound chain, noted if the chain was hooked. *)
Definition note_unfiltered (fw : NetworkIptablesManager) (s : Run) : Run :=
  if is_hooked fw then record Unfiltered s else s.

Definition remove_egress (fw : NetworkIptablesManager) (s : Run) : NetworkIptablesManager * Run :=
  let '(fw', y) := Firewall.remove_firewall_rules fw (sys s) in (fw', note_unfiltered fw (set_sys y s)).

(** [Drop] of the managers. *)
Definition drop_egress (fw : NetworkIptablesManager) (s : Run) : Run :=
  let dropped := set_sys (Firewall.drop_manager fw (sys s)) s in
  if Firewall.rules_applied fw && negb (Firewall.preserve_policy fw) then note_unfiltered fw dropped else dropped.

Definition drop_ingress_manager (ingress : option Ingress.IngressManager) (s : Run) : Run :=
  match ingress with Some mgr => change_world (Ingress.drop_ingress mgr) s | None => s end.

(** The fields in the order of their declaration. *)
Definition drop_prepared (p : PreparedSandbox) (s : Run) : Run :=
  drop_claim (name (container p)) (drop_relay (relay p) (drop_ingress_manager (ingress_manager p) (drop_egress (fw_manager p) s))).

(** ** Preparing *)

Definition lxc_tooling_for_execution (s : Run) : LxcTooling * Run :=
  if confirmed s then (Available, s)
  else
    let '(outcome, s) := on_world probe_lxc_ls s in
    let tooling := tooling_from outcome in
    (tooling, MkRun (sys s) (live s) (match tooling with Available => true | _ => false end) (events s)).

Definition LXC_TOOLING_UNAVAILABLE : string :=
  "LXC: the LXC runtime is not available on this host — `lxc-ls --version` did not run. Install the LXC tools " +:+
  "(e.g. apt install lxc) and make sure they are on PATH, or select a backend this host can provide.".

Definition check_tooling : stateful Run ScriptResponse unit := fun s =>
  match lxc_tooling_for_execution s with
  | (Available, s) => (Ok tt, s)
  | (Unavailable, s) => (Err (response_error LXC_TOOLING_UNAVAILABLE), s)
  | (ProbeFailed, s) =>
      (Err (failed LaunchFailed ("LXC: probing the LXC tooling (`lxc-ls --version`) timed out or could not run; " +:+
              "retry once the host is responsive")), s)
  end.

(** The request with the aliases of one object tightened. *)
Definition normalized (r : ExecutionRequest) (w : World) : result ScriptResponse ExecutionRequest :=
  tightened ← map_err (fun e => response_error (BwrapResolve.message e))
    (FsPolicy.normalize_object_conflicts_with (resolve_object w) (policy r));
  Ok (with_policy r (default (policy r) tightened)).

Definition check_delegation (r : ExecutionRequest) (w : World) : result ScriptResponse unit :=
  map_err (fun e => response_error (BwrapResolve.message e))
    (BwrapResolve.check_delegation_with (check_access w) (policy r)).

Section Runner.
Context (self : LxcScriptRunner).

Definition destroy_if_ours (c : LxcContainer) (created : bool) (s : Run) : Run :=
  if runner_destroy_on_exit self || created then (destroy_container c s).2 else s.

Definition release_after_failure (c : LxcContainer) (created : bool) (s : Run) : Run :=
  (release_container c (release_kind self created) s).2.

(** The container exists afterwards: whether this run created it. *)
Definition define_container (c : LxcContainer) : stateful Run ScriptResponse bool := fun s =>
  match on_world (is_defined c) s with
  | (true, s) => (Ok false, s)
  | (false, s) =>
      match on_world (create c (distribution (config self)) (release (config self))) s with
      | (Ok _, s) => (Ok true, record Created s)
      | (Err e, s) => (Err (failed LaunchFailed ("Failed to create container: " +:+ e)), s)
      end
  end.

Definition stop_stale (c : LxcContainer) (created : bool) : stateful Run ScriptResponse unit := fun s =>
  match on_world (is_running c) s with
  | (false, s) => (Ok tt, s)
  | (true, s) =>
      or_fail (stop_container c) (destroy_if_ours c created) (fun e => failed LaunchFailed
        ("Failed to stop a container left running by an earlier run: " +:+ e +:+
         ". Its network policy is the earlier run's, so the script was not run.")) s
  end.

Definition start_network (p : ContainerPolicy) : StartNetwork :=
  if omits_interface (plan_network p) then NoInterface else FromContainerConfig.

Definition enforce_network_readiness (c : LxcContainer) (created : bool) : stateful Run ScriptResponse unit := fun s =>
  let begun := now (world (sys s)) in
  match on_world (wait_for_network POLLS (name c) begun READINESS_TIMEOUT) s with
  | (true, s) => (Ok tt, s)
  | (false, s) =>
      (Err (failed PostLaunchFailed ("Container did not receive an IPv4 address within " +:+
        dec (READINESS_TIMEOUT / 1000) +:+ "s; check that lxc-net/dnsmasq is running and able to assign one. " +:+
        "A bridge offering only IPv6 leaves the container unable to reach the IPv4 destinations its policy names.")),
       (release_container c (release_kind self created) s).2)
  end.

(** The steps up to a container that runs with this run's network section:
    whether it was created. *)
Definition bring_up (c : LxcContainer) (p : ContainerPolicy) : stateful Run ScriptResponse bool :=
  created ← define_container c;
  _ ← or_fail (on_world (configure_mounts c p)) (destroy_if_ours c created)
        (fun e => failed LaunchFailed ("Failed to configure filesystem: " +:+ e));
  _ ← stop_stale c created;
  _ ← or_fail (start_container c (start_network p)) (destroy_if_ours c created)
        (fun e => failed LaunchFailed ("Failed to start container: " +:+ e));
  _ ← if needs_network p then enforce_network_readiness c created else mret tt;
  mret created.

Definition set_up_network_rules (container_name : string) (hook : EgressHookPoint) (netns_pid : option Z)
    (p : ContainerPolicy) (s : Run)
    : result string (NetworkIptablesManager * option Ingress.IngressManager) * Run :=
  let '(r, (fw, y)) := Firewall.apply_firewall_rules p (Firewall.manager_new sha256 container_name hook, sys s) in
  let s := set_sys y s in
  match r with
  | Err e => (Err ("Network policy error: " +:+ egress_text e), drop_egress fw s)
  | Ok _ =>
      let fw := Firewall.set_preserve_policy (negb (cleanup_policy self)) fw in
      match netns_pid with
      | None => (Ok (fw, None), s)
      | Some pid =>
          let '(r, (mgr, w)) :=
            Ingress.apply_firewall_rules p (Ingress.ingress_new sha256 container_name pid, world (sys s)) in
          let s := set_sys (set_world w (sys s)) s in
          match r with
          | Err e => (Err ("Inbound network policy error: " +:+ ingress_text e), drop_egress fw (drop_ingress_manager (Some mgr) s))
          | Ok _ => (Ok (fw, Some (Ingress.set_preserve_policy (negb (cleanup_policy self)) mgr)), s)
          end
      end
  end.

Definition is_firewall_installed (fw : NetworkIptablesManager) (ingress : option Ingress.IngressManager)
    : ContainerFirewall :=
  if Firewall.rules_applied fw || is_some_and Ingress.rules_applied ingress then Installed else Absent.

Definition allow_ping (fw : NetworkIptablesManager) (s : Run) : result string unit * Run :=
  let '(r, y) := Firewall.allow_ping_sockets fw (sys s) in (map_err egress_text r, set_sys y s).

Definition clear_stale_hosts_pin (c : LxcContainer) (created : bool) (installed : ContainerFirewall) (s : Run)
    : result string unit * Run :=
  if created then (Ok tt, s)
  else
    let '(r, s) := on_world (attach_capture c build_hosts_unpin_command "/" [] true (Some HOSTS_COMMAND_TIMEOUT) installed) s in
    (match r with
     | Err e => Err e
     | Ok (code, _, stderr) => if code =? 0 then Ok tt else Err (hosts_command_failure code stderr)
     end, s).

Definition start_relay (p : ContainerPolicy) (netns_pid : option Z) (s : Run) : result string (option Relay) * Run :=
  match proxy_config_address (network_proxy p), runtime_network_proxy_specified p with
  | Some address, true =>
      match netns_pid with
      | None => (Err "the container's init PID is not known", s)
      | Some pid =>
          match on_world (relay_start pid (proxy_address address) (proxy_port address)) s with
          | (Ok relay, s) => (Ok (Some relay), s)
          | (Err e, s) => (Err e, s)
          end
      end
  | _, _ => (Ok None, s)
  end.

(** The steps with the firewalls in place; the managers are dropped if one fails,
    the inbound one first. *)
Definition finish (r : ExecutionRequest) (c : LxcContainer) (created : bool) (netns_pid : option Z)
    (fw : NetworkIptablesManager) (ingress : option Ingress.IngressManager)
    : stateful Run ScriptResponse PreparedSandbox :=
  let installed := is_firewall_installed fw ingress in
  let release := release_after_failure c created in
  on_error (fun s => drop_egress fw (drop_ingress_manager ingress s))
    (_ ← if decide (installed = Installed) then or_fail (allow_ping fw) release (failed PostLaunchFailed) else mret tt;
     _ ← or_fail (clear_stale_hosts_pin c created installed) release (fun reason => failed PostLaunchFailed
           ("Failed to clear a stale network proxy pin from the container's /etc/hosts: " +:+ reason +:+
            ". The script was not run, because it could have resolved the pinned hostname to an address this " +:+
            "policy did not authorize."));
     relay ← or_fail (start_relay (policy r) netns_pid) release (fun e => failed PostLaunchFailed
           ("LXC: cannot relay runtimeConfig.networkProxy into the container: " +:+ e +:+ ". The script was not run."));
     mret (MkPrepared fw ingress c created installed relay false false false (script_code r)
             (default "" (start_directory r)) (resolved_env r)
             (if script_timeout r =? 0 then None else Some (script_timeout r)))).

(** The steps on the running container. *)
Definition enforce (r : ExecutionRequest) (c : LxcContainer) (created : bool)
    : stateful Run ScriptResponse PreparedSandbox := fun s =>
  let '(netns_pid, s) := on_world (init_pid c) s in
  match egress_hook_point netns_pid (installs_firewall (plan_network (policy r))) with
  | None =>
      (Err (failed PostLaunchFailed ("Failed to discover the container init PID; cannot enter the container network " +:+
         "namespace to install its firewall. Aborting rather than running without it.")),
       release_after_failure c created s)
  | Some hook =>
      let s := match netns_pid with
               | Some pid => if runner_destroy_on_exit self then set_sys (set_active_pid pid (sys s)) s else s
               | None => s
               end in
      match set_up_network_rules (name c) hook netns_pid (policy r) s with
      | (Err e, s) => (Err (failed PostLaunchFailed e), release_after_failure c created s)
      | (Ok (fw, ingress), s) => finish r c created netns_pid fw ingress s
      end
  end.

(** The steps that hold the name. *)
Definition prepare_claimed (r : ExecutionRequest) (container_name : string)
    : stateful Run ScriptResponse PreparedSandbox :=
  _ ← of_result (map_err (fun e => response_error (lowering_text e)) (validate_egress_lowering (policy r)));
  _ ← check_tooling;
  _ ← modify (fun s => if runner_destroy_on_exit self then set_sys (set_active container_name (sys s)) s else s);
  c ← gets (fun s => let w := world (sys s) in
              MkContainer container_name (resolve_lxcpath_with_env (get_env w) (geteuid w)));
  created ← bring_up c (policy r);
  enforce r c created.

Definition prepare (r : ExecutionRequest) : stateful Run ScriptResponse PreparedSandbox :=
  _ ← of_result (validate_runner r);
  w ← gets (fun s => world (sys s));
  r ← of_result (normalized r w);
  _ ← of_result (check_delegation r w);
  _ ← of_result (fail_if (bool_decide (distribution (config self) = "") || bool_decide (release (config self) = ""))
        (response_error ("LXC distribution and release are required (e.g., " +:+ quoted "distribution" +:+ ": " +:+
           quoted "alpine" +:+ ", " +:+ quoted "release" +:+ ": " +:+ quoted "3.23" +:+ ")")));
  container_name ← claim_container_name self;
  on_error (drop_claim container_name) (prepare_claimed r container_name).

End Runner.

(** ** Releasing *)

Definition retain_rules_past_drop (p : PreparedSandbox) : PreparedSandbox :=
  set_managers (Firewall.set_preserve_policy true (fw_manager p))
    (Ingress.set_preserve_policy true <$> ingress_manager p) p.

Definition note_namespace_gone (p : PreparedSandbox) : PreparedSandbox :=
  set_managers (if is_hooked (fw_manager p) then Firewall.forget (fw_manager p) else fw_manager p)
    (Ingress.forget <$> ingress_manager p) p.

Definition RETAINED : string :=
  "the container could not be stopped, so its firewall rules were left in place rather than removed around a " +:+
  "workload that may still be running".
Definition MAY_BE_RUNNING : string := "the container could not be stopped, so it may still be running".

(** The removal of each chain with what is reported of it. *)
Definition remove_egress_rules (cleanup_policy : bool) (p : PreparedSandbox) (s : Run)
    : list string * PreparedSandbox * Run :=
  if Firewall.rules_applied (fw_manager p) && cleanup_policy then
    let '(fw, s) := remove_egress (fw_manager p) s in
    (if Firewall.rules_applied fw then ["failed to remove the egress firewall chain " +:+ Firewall.chain_name fw] else [],
     set_managers fw (ingress_manager p) p, s)
  else ([], p, s).

Definition remove_ingress_rules (cleanup_policy : bool) (p : PreparedSandbox) (s : Run)
    : list string * PreparedSandbox * Run :=
  match ingress_manager p with
  | Some mgr =>
      if Ingress.rules_applied mgr && cleanup_policy then
        let '(_, (mgr, w)) := Ingress.remove_firewall_rules (mgr, world (sys s)) in
        (if Ingress.rules_applied mgr then ["failed to remove the ingress firewall chain " +:+ Ingress.chain_name mgr] else [],
         set_managers (fw_manager p) (Some mgr) p, set_sys (set_world w (sys s)) s)
      else ([], p, s)
  | None => ([], p, s)
  end.

Definition remove_in_container_state (cleanup_policy : bool) (p : PreparedSandbox) (s : Run)
    : list string * PreparedSandbox * Run :=
  let hooked := is_hooked (fw_manager p) in
  if stop_failed p && hooked then ([RETAINED], retain_rules_past_drop p, s)
  else
    let '(f1, p, s) := remove_egress_rules cleanup_policy p s in
    let '(f2, p, s) := remove_ingress_rules cleanup_policy p s in
    ((if stop_failed p then [MAY_BE_RUNNING] else []) ++ f1 ++ f2, p, s).

Definition tear_down (cleanup_policy destroy_on_exit : bool) (p : PreparedSandbox) (s : Run)
    : list string * PreparedSandbox * Run :=
  let s := drop_relay (relay p) s in
  let p := without_relay p in
  let destroying := destroy_on_exit && negb (released p) in
  let skipped_in_container := destroying && is_hooked (fw_manager p) in
  let '(failures, p, s) :=
    if skipped_in_container then ([], p, s) else remove_in_container_state cleanup_policy p s in
  if destroying then
    match destroy_container (container p) s with
    | (Ok _, s) => (failures, note_namespace_gone (set_flags true (force_stopped p) (stop_failed p) p), s)
    | (Err e, s) =>
        (failures ++ ["failed to destroy container: " +:+ e],
         if skipped_in_container then retain_rules_past_drop p else p, s)
    end
  else (failures, p, s).

Definition force_stop (p : PreparedSandbox) (s : Run) : result string unit * PreparedSandbox * Run :=
  if force_stopped p then (Ok tt, p, s)
  else match stop_container (container p) s with
  | (Err e, s) => (Err e, set_flags (released p) (force_stopped p) true p, s)
  | (Ok _, s) => (Ok tt, note_namespace_gone (set_flags (released p) true false p), s)
  end.

Definition abandon_prepared (self : LxcScriptRunner) (p : PreparedSandbox) (s : Run)
    : list string * PreparedSandbox * Run :=
  let s := drop_relay (relay p) s in
  let p := without_relay p in
  let '(failures, p, s) := remove_in_container_state (cleanup_policy self) p s in
  let release := release_kind self (container_created p) in
  let '(result, s) :=
    match release with
    | Destroy => destroy_container (container p) s
    | Stop => if force_stopped p then (Ok tt, s) else stop_container (container p) s
    end in
  match result with
  | Ok _ =>
      (failures, note_namespace_gone
         (set_flags (match release with Destroy => true | Stop => false end) (force_stopped p) (stop_failed p) p), s)
  | Err e => (failures ++ ["failed to " +:+ verb release +:+ " container: " +:+ e], p, s)
  end.

(** ** Running to completion *)

Definition completed (result : result string (Z * string * string)) : ScriptResponse :=
  match result with
  | Ok (code, stdout, stderr) => MkResponse code stdout stderr "" "" NoFailure None None
  | Err e => response_error ("Execution failed: " +:+ e)
  end.

Definition run_internal (self : LxcScriptRunner) (r : ExecutionRequest) (s : Run) : ScriptResponse * Run :=
  match prepare self r s with
  | (Err response, s) => (response, s)
  | (Ok p, s) =>
      let s := record Launched s in
      let '(result, s) := on_world (attach_run (container p) (prepared_script p) (prepared_directory p) (exec_env p)
                                      true (timeout p) (firewall p)) s in
      let '(_, p, s) := tear_down (cleanup_policy self) (runner_destroy_on_exit self) p s in
      (completed result, drop_prepared p s)
  end.

(** ** Running behind a handle *)

Inductive IoError : Type := IoTimedOut (msg : string) | IoOther (msg : string).

Definition io_text (e : IoError) : string := match e with IoTimedOut m | IoOther m => m end.

(** [LxcSandboxProcess] with the [LxcChild] inside it; the streams are left out. *)
Record LxcSandboxProcess : Type := MkProcess {
  child : Child;
  is_pty : bool;
  child_timeout : option Z;
  started : Z;
  timed_out : bool;
  termination_error : option string;
  prepared : PreparedSandbox;
  process_cleanup_policy : bool;
  process_destroy_on_exit : bool;
  teardown_done : bool;
  teardown_failures : list string;
}.

Definition set_prepared (p : PreparedSandbox) (h : LxcSandboxProcess) : LxcSandboxProcess :=
  MkProcess (child h) (is_pty h) (child_timeout h) (started h) (timed_out h) (termination_error h) p
    (process_cleanup_policy h) (process_destroy_on_exit h) (teardown_done h) (teardown_failures h).
Definition set_timed_out (h : LxcSandboxProcess) : LxcSandboxProcess :=
  MkProcess (child h) (is_pty h) (child_timeout h) (started h) true (termination_error h) (prepared h)
    (process_cleanup_policy h) (process_destroy_on_exit h) (teardown_done h) (teardown_failures h).
Definition set_termination_error (e : string) (h : LxcSandboxProcess) : LxcSandboxProcess :=
  MkProcess (child h) (is_pty h) (child_timeout h) (started h) (timed_out h) (Some e) (prepared h)
    (process_cleanup_policy h) (process_destroy_on_exit h) (teardown_done h) (teardown_failures h).
Definition set_teardown (p : PreparedSandbox) (done : bool) (failures : list string) (h : LxcSandboxProcess)
    : LxcSandboxProcess :=
  MkProcess (child h) (is_pty h) (child_timeout h) (started h) (timed_out h) (termination_error h) p
    (process_cleanup_policy h) (process_destroy_on_exit h) done failures.

(** Operations on the handle: the outcome, the handle and the state. *)
Abbreviation step A := (LxcSandboxProcess -> Run -> result IoError A * LxcSandboxProcess * Run).

Definition terminate : step unit := fun h s =>
  let s := change_world (child_kill (child h)) s in
  let '(r, p, s) := force_stop (prepared h) s in
  (map_err IoOther r, set_prepared p h, s).

Definition run_teardown (h : LxcSandboxProcess) (s : Run) : LxcSandboxProcess * Run :=
  if teardown_done h then (h, s)
  else
    let '(failures, p, s) := tear_down (process_cleanup_policy h) (process_destroy_on_exit h) (prepared h) s in
    (set_teardown p (is_empty failures) failures h, s).

Definition kill : step unit := fun h s =>
  if teardown_done h then (Ok tt, h, s) else terminate h s.

Definition REAP_TIMEOUT : Z := 5000.

Definition kill_for_timeout : step unit := fun h s =>
  match kill h s with
  | (Err e, h, s) => (Err e, h, s)
  | (Ok _, h, s) =>
      match on_world (wait_with_timeout (child h) (Some REAP_TIMEOUT)) s with
      | (WaitExited _, s) => (Ok tt, set_timed_out h, s)
      | (WaitTimeout, s) =>
          (Err (IoTimedOut "LXC: killed attach process did not become reapable within 5 seconds"), h, s)
      | (WaitIo e, s) => (Err (IoOther e), h, s)
      end
  end.

Definition TIMED_OUT : string := "LXC: script timed out".

(** What both waits do at the deadline. *)
Definition deadline {A} : step A := fun h s =>
  match kill_for_timeout h s with
  | (Err e, h, s) =>
      let error := "LXC: script timed out, and the container could not be stopped, so the workload may still be running: "
                   +:+ io_text e in
      (Err (IoOther error), set_termination_error error h, s)
  | (Ok _, h, s) => (Err (IoTimedOut TIMED_OUT), set_timed_out h, s)
  end.

Definition overdue (h : LxcSandboxProcess) (s : Run) : bool :=
  is_some_and (fun timeout => timeout <=? now (world (sys s)) - started h) (child_timeout h).

Definition try_wait : step (option Z) := fun h s =>
  match termination_error h with
  | Some e => (Err (IoOther e), h, s)
  | None =>
      if timed_out h then (Err (IoTimedOut TIMED_OUT), h, s)
      else match on_world (child_try_wait (child h)) s with
      | (Err e, s) => (Err (IoOther e), h, s)
      | (Ok (Some code), s) => (Ok (Some code), h, s)
      | (Ok None, s) => if overdue h s then deadline h s else (Ok None, h, s)
      end
  end.

(** The outcome of [wait], before the drains are joined and the sandbox is torn
    down. *)
Definition wait_outcome : step Z := fun h s =>
  let '(setup, s) := if is_pty h then on_world (take_unclaimed_reader (child h)) s else (Ok tt, s) in
  let remaining := (fun t => Z.max 0 (t - (now (world (sys s)) - started h))) <$> child_timeout h in
  match setup with
  | Err error =>
      let '(_, h, s) := kill h s in
      let '(_, s) := on_world (wait_with_timeout (child h) (Some REAP_TIMEOUT)) s in
      (Err (IoOther ("LXC: failed to prepare PTY output draining: " +:+ error)), h, s)
  | Ok _ =>
      match termination_error h with
      | Some e => (Err (IoOther e), h, s)
      | None =>
          if timed_out h then (Err (IoTimedOut TIMED_OUT), h, s)
          else match on_world (wait_with_timeout (child h) remaining) s with
          | (WaitExited code, s) => (Ok code, h, record Ended s)
          | (WaitTimeout, s) => deadline h s
          | (WaitIo e, s) =>
              let '(_, h, s) := kill h s in
              (Err (IoOther ("LXC: wait failed: " +:+ e)), h, change_world (child_wait (child h)) s)
          end
      end
  end.

Definition wait : step Z := fun h s =>
  let '(r, h, s) := wait_outcome h s in
  let '(h, s) := run_teardown h s in
  (r, h, s).

(** [Drop] of the handle and then of what it holds. *)
Definition drop_process (h : LxcSandboxProcess) (s : Run) : Run :=
  let '(_, h, s) := kill h s in
  let s := change_world (child_wait (child h)) s in
  let '(h, s) := run_teardown h s in
  drop_prepared (prepared h) s.

(** Giving up a launch: the cleanup's failures go into the response. *)
Definition abandon (self : LxcScriptRunner) (phase : FailurePhase) (reason : string) (p : PreparedSandbox) (s : Run)
    : result ScriptResponse LxcSandboxProcess * Run :=
  let '(cleanup, p, s) := abandon_prepared self p s in
  (Err (failed phase (launch_failure_message reason cleanup)), drop_prepared p s).

Definition launch_streaming (self : LxcScriptRunner) (r : ExecutionRequest) (stdio : StdioMode)
    : stateful Run ScriptResponse LxcSandboxProcess := fun s =>
  match prepare self r s with
  | (Err response, s) => (Err response, s)
  | (Ok p, s) =>
      let begun := now (world (sys s)) in
      let argv := attach_argv (container p) (prepared_script p) (prepared_directory p) (exec_env p) true in
      match on_world (attach_spawn argv (confined (firewall p)) stdio) (record Launched s) with
      | (Err e, s) => abandon self LaunchFailed ("Execution failed: " +:+ e) p s
      | (Ok child, s) =>
          match on_world (wrap_pipes child) s with
          | (Err e, s) =>
              let '(stopped, p, s) := force_stop p s in
              let s := if is_ok stopped then s else change_world (child_kill child) s in
              let s := change_world (child_wait child) s in
              abandon self PostLaunchFailed ("Failed to wrap the lxc-attach stdio pipes: " +:+ e) p s
          | (Ok _, s) =>
              (Ok (MkProcess child (match stdio with Pty => true | _ => false end) (timeout p) begun false None p
                     (cleanup_policy self) (runner_destroy_on_exit self) false []), s)
          end
      end
  end.

Definition LXC_INHERIT_STDIO_UNSUPPORTED : string :=
  "LXC: inherited stdio is not available from the in-process sandbox API. LXC gives a workload the host's own " +:+
  "stdin/stdout/stderr by allocating a pty and bridging it, which runs the script to completion and cannot hand back " +:+
  "a live handle; it also reads the host's stdin and installs a process-wide window-size handler, neither of which a " +:+
  "library may do to its caller. Use pipes, request a caller-owned PTY, or run the lxc-exec binary.".

Definition spawn_internal (self : LxcScriptRunner) (r : ExecutionRequest) (stdio : StdioMode)
    : stateful Run ScriptResponse LxcSandboxProcess :=
  match stdio with
  | Inherit => throw (response_error LXC_INHERIT_STDIO_UNSUPPORTED)
  | Pty | Pipes =>
      _ ← of_result (Validator.validate_common r);
      _ ← of_result (validate_runner r);
      launch_streaming self r stdio
  end.

(** What the owner of a handle can do with it, in any order. *)
Inductive Operation : Type := TryWait | Kill | KillForTimeout | Wait.

Definition perform (op : Operation) (st : LxcSandboxProcess * Run) : LxcSandboxProcess * Run :=
  let '(h, s) := st in
  match op with
  | TryWait => let '(_, h, s) := try_wait h s in (h, s)
  | Kill => let '(_, h, s) := kill h s in (h, s)
  | KillForTimeout => let '(_, h, s) := kill_for_timeout h s in (h, s)
  | Wait => let '(_, h, s) := wait h s in (h, s)
  end.

Definition perform_all (ops : list Operation) (st : LxcSandboxProcess * Run) : LxcSandboxProcess * Run :=
  foldl (fun st op => perform op st) st ops.

(** ** The history of a handle *)

Implicit Types (p : PreparedSandbox) (h : LxcSandboxProcess) (s : Run) (es : list Event).

Definition stop_of (e : Event) : option bool := match e with Stopped ok => Some ok | _ => None end.

(** How the latest attempt to stop the container ended. *)
Definition last_stop es : option bool := head (omap stop_of es).

(** The hooked chain was taken out only when the attach process had ended and the
    latest attempt to stop the container, if there was one, had not failed. *)
Fixpoint guarded es : Prop :=
  match es with
  | [] => True
  | e :: es => (e = Unfiltered -> Ended ∈ es /\ last_stop es <> Some false) /\ guarded es
  end.

(** What is true of a launched sandbox after the events [es]. *)
Record settled (cleanup : bool) p es : Prop := MkSettled {
  settled_guarded : guarded es;
  settled_hooked : is_hooked (fw_manager p) = true;
  settled_stop : last_stop es = Some false -> stop_failed p = true;
  settled_forced : force_stopped p = true -> Firewall.rules_applied (fw_manager p) = false;
  settled_preserve : cleanup = false -> Firewall.preserve_policy (fw_manager p) = true;
  settled_released : released p = true ->
    Destroyed true ∈ es /\ Firewall.rules_applied (fw_manager p) = false;
}.

(** The drop of the managers takes out no hooked chain. *)
Definition drops_quietly p : Prop :=
  Firewall.rules_applied (fw_manager p) = false \/ Firewall.preserve_policy (fw_manager p) = true.

(** Nothing is in force, or the workload may be running behind it. *)
Definition guarded_stop p : Prop :=
  Firewall.rules_applied (fw_manager p) = false \/ stop_failed p = true.

Lemma events_on_world {A} (f : World -> A * World) s a s' :
  on_world f s = (a, s') -> events s' = events s /\ live s' = live s.
Proof. unfold on_world. destruct (f _). by intros [= _ <-]. Qed.

Lemma events_noted note f s r s' :
  noted note f s = (r, s') -> events s' = note (is_ok r) :: events s /\ live s' = live s.
Proof.
  unfold noted. destruct (on_world f s) as [r0 s0] eqn:E. apply events_on_world in E as [E1 E2].
  intros [= <- <-]. cbn. by rewrite E1, E2.
Qed.

Lemma events_drop_relay o s : events (drop_relay o s) = events s /\ live (drop_relay o s) = live s.
Proof. by destruct o. Qed.

Lemma remove_egress_spec fw s fw' s' :
  remove_egress fw s = (fw', s') ->
  is_hooked fw' = is_hooked fw /\ Firewall.preserve_policy fw' = Firewall.preserve_policy fw /\
  live s' = live s /\ events s' = (if is_hooked fw then [Unfiltered] else []) ++ events s.
Proof.
  unfold remove_egress. destruct (Firewall.remove_firewall_rules fw (sys s)) as [fw0 y] eqn:E. intros [= <- <-].
  unfold note_unfiltered, Firewall.remove_firewall_rules in *.
  destruct (negb (Firewall.rules_applied fw)).
  - injection E as <- <-. by destruct (is_hooked fw).
  - destruct (Firewall.teardown_created _ _ _) as [residual y0]. injection E as <- <-. split; [done|]. by destruct (is_hooked fw).
Qed.

Lemma settled_weaken cleanup p p' es e :
  settled cleanup p es -> e <> Unfiltered -> is_hooked (fw_manager p') = true ->
  (last_stop (e :: es) = Some false -> stop_failed p' = true) ->
  (force_stopped p' = true -> Firewall.rules_applied (fw_manager p') = false) ->
  (cleanup = false -> Firewall.preserve_policy (fw_manager p') = true) ->
  (released p' = true -> Destroyed true ∈ e :: es /\ Firewall.rules_applied (fw_manager p') = false) ->
  settled cleanup p' (e :: es).
Proof. intros [] He. by split; [split|..]. Qed.

Lemma force_stop_settled cleanup p es base s r p' s' :
  settled cleanup p es -> events s = es ++ base -> force_stop p s = (r, p', s') ->
  live s' = live s /\ name (container p') = name (container p) /\ guarded_stop p' /\
  exists es', events s' = es' ++ base /\ settled cleanup p' es' /\ es ⊆ es'.
Proof.
  intros Hp He Hf. pose proof Hp as []. unfold force_stop in Hf. destruct (force_stopped p) eqn:Ef.
  - injection Hf as _ <- <-. split_and!; [done..|left; auto|]. by exists es.
  - destruct (stop_container (container p) s) as [[[]|e] s1] eqn:Es; apply events_noted in Es as [Es El];
      injection Hf as _ <- <-.
    + split_and!; [done|done|left; cbn; by rewrite settled_hooked0|].
      exists (Stopped true :: es). split_and!; [by rewrite Es, He| |set_solver].
      apply (settled_weaken cleanup p); cbn; rewrite ?settled_hooked0; try done.
      intros Hr. destruct (settled_released0 Hr). split; [set_solver|done].
    + split_and!; [done|done|by right|].
      exists (Stopped false :: es). split_and!; [by rewrite Es, He| |set_solver].
      apply (settled_weaken cleanup p); cbn; try done.
      intros Hr. destruct (settled_released0 Hr). split; [set_solver|done].
Qed.

Lemma remove_ingress_spec cleanup p s f p' s' :
  remove_ingress_rules cleanup p s = (f, p', s') ->
  events s' = events s /\ live s' = live s /\ exists mgr, p' = set_managers (fw_manager p) mgr p.
Proof.
  unfold remove_ingress_rules. intros Hr. assert (Hp : p = set_managers (fw_manager p) (ingress_manager p) p) by (by destruct p).
  destruct (ingress_manager p) as [mgr|]; [|injection Hr as _ <- <-; eauto].
  destruct (Ingress.rules_applied mgr && cleanup); [|injection Hr as _ <- <-; eauto].
  destruct (Ingress.remove_firewall_rules _) as [r [mgr' w]]. injection Hr as _ <- <-. eauto.
Qed.

(** Taking the chains out of a container: the rules go only from behind a
    workload that has ended, and stay past the drop if it may be running. *)
Lemma remove_in_container_settled cleanup p es base s f p' s' :
  settled cleanup p es -> Ended ∈ es \/ guarded_stop p -> events s = es ++ base ->
  remove_in_container_state cleanup p s = (f, p', s') ->
  live s' = live s /\ container p' = container p /\ released p' = released p /\
  (f = [] \/ guarded_stop p -> drops_quietly p') /\ (guarded_stop p -> guarded_stop p') /\
  exists es', events s' = es' ++ base /\ settled cleanup p' es' /\ es ⊆ es'.
Proof.
  intros Hp Hend He Hr. pose proof Hp as [Hg Hh Hs Hf Hc Hre]. unfold remove_in_container_state in Hr. rewrite Hh in Hr.
  destruct (stop_failed p) eqn:Esf; cbn [andb] in Hr.
  { injection Hr as <- <- <-. split_and!; [done..|by right|by right|]. exists es. split_and!; [done| |done]. by split. }
  destruct (remove_egress_rules cleanup p s) as [[f1 p1] s1] eqn:E1.
  destruct (remove_ingress_rules cleanup p1 s1) as [[f2 p2] s2] eqn:E2.
  apply remove_ingress_spec in E2 as (Ev2 & Lv2 & mgr & ->). injection Hr as <- <- <-.
  unfold remove_egress_rules in E1. destruct (Firewall.rules_applied (fw_manager p)) eqn:Era.
  - destruct cleanup; cbn [andb] in E1.
    + destruct (remove_egress (fw_manager p) s) as [fw' s0] eqn:Er. apply remove_egress_spec in Er as (Hk & Hpr & Hl & Hev).
      rewrite Hh in Hk, Hev. injection E1 as <- <- <-. cbn.
      split_and!; [by rewrite Lv2|done|done| |intros [?|?]; congruence|].
      * rewrite Esf. intros [Hf0|[?|?]]; [|congruence..]. left. cbn.
        by destruct (Firewall.rules_applied fw').
      * exists (Unfiltered :: es). split_and!; [by rewrite Ev2, Hev, He| |set_solver].
        assert (Ended ∈ es) by (destruct Hend as [?|[?|?]]; [done|congruence..]).
        split; cbn; try done.
        -- split; [|done]. intros _. split; [done|]. intros Hl'. specialize (Hs Hl'). congruence.
        -- intros Hl'. specialize (Hs Hl'). congruence.
        -- intros Hfs. specialize (Hf Hfs). congruence.
        -- intros Hrel. destruct (Hre Hrel). congruence.
    + injection E1 as <- <- <-. cbn. split_and!; [by rewrite Lv2|done|done|intros _; right; auto|done|].
      exists es. split_and!; [by rewrite Ev2|by destruct Hp; split|done].
  - injection E1 as <- <- <-. cbn. split_and!; [by rewrite Lv2|done|done|intros _; by left|done|].
    exists es. split_and!; [by rewrite Ev2|by destruct Hp; split|done].
Qed.

Lemma tear_down_settled cleanup d p es base s f p' s' :
  settled cleanup p es -> Ended ∈ es \/ guarded_stop p -> events s = es ++ base ->
  tear_down cleanup d p s = (f, p', s') ->
  live s' = live s /\ container p' = container p /\ (f = [] \/ guarded_stop p -> drops_quietly p') /\ (guarded_stop p -> guarded_stop p') /\
  exists es', events s' = es' ++ base /\ settled cleanup p' es' /\ es ⊆ es' /\
    (d = true -> (exists ok, Destroyed ok ∈ es') /\ (f = [] -> Destroyed true ∈ es')).
Proof.
  intros Hp Hend He Ht. unfold tear_down in Ht.
  assert (Hp0 : settled cleanup (without_relay p) es) by (by destruct Hp).
  change (Ended ∈ es \/ guarded_stop (without_relay p)) in Hend.
  change (guarded_stop p) with (guarded_stop (without_relay p)).
  change (container p) with (container (without_relay p)).
  destruct (events_drop_relay (relay p) s) as [Ev0 Lv0].
  generalize dependent (drop_relay (relay p) s). intros s0 Ht Ev0 Lv0. rewrite <- Lv0. rewrite He in Ev0.
  generalize dependent (without_relay p). clear Hp He Lv0 p s. intros p Hend Hp Ht.
  pose proof Hp as [Hg Hh Hs Hf Hc Hre]. rewrite Hh, andb_true_r in Ht.
  destruct (d && negb (released p)) eqn:Ed.
  - apply andb_prop in Ed as [-> Hrel]. cbn in Ht.
    destruct (destroy_container (container p) s0) as [[[]|e] s1] eqn:Es; apply events_noted in Es as [Es El];
      injection Ht as <- <- <-.
    + split_and!; [done|done|left; cbn; by rewrite Hh|left; cbn; by rewrite Hh|]. exists (Destroyed true :: es).
      split_and!; [by rewrite Es, Ev0| |set_solver|intros _; split; [exists true|intros _]; left].
      apply (settled_weaken cleanup p); cbn; rewrite ?Hh; try done.
      intros _. split; [left|done].
    + split_and!; [done|done|by right|done|]. exists (Destroyed false :: es).
      split_and!; [by rewrite Es, Ev0| |set_solver|intros _; split; [exists false; left|done]].
      apply (settled_weaken cleanup p); cbn; try done.
      by destruct (released p).
  - destruct (remove_in_container_state cleanup p s0) as [[f0 p0] s1] eqn:Er. cbn in Ht. injection Ht as <- <- <-.
    destruct (remove_in_container_settled _ _ _ _ _ _ _ _ Hp Hend Ev0 Er) as (Hl & Hct & Hr0 & Hq & Hgs & es' & He' & Hp' & Hsub).
    split_and!; [done..|]. exists es'. split_and!; [done..|]. intros ->.
    cbn in Ed. destruct (released p) eqn:Erel; [|done]. destruct (Hre eq_refl) as [Hd _].
    split; [exists true|]; auto.
Qed.

(** The sandbox is torn down, or its teardown cannot take out a chain. *)
Definition quiet h : Prop := guarded_stop (prepared h) \/ teardown_done h = true.

(** What is true of a handle after the events [es]. *)
Record steady h es : Prop := MkSteady {
  steady_settled : settled (process_cleanup_policy h) (prepared h) es;
  steady_over : timed_out h = true \/ termination_error h <> None -> quiet h;
  steady_done : teardown_done h = true ->
    drops_quietly (prepared h) /\ (process_destroy_on_exit h = true -> Destroyed true ∈ es);
}.

(** A step of the handle from [(h, s)] to [(h', s')] on a history that began at
    [base], after which [Q] holds. *)
Definition moves (base : list Event) h s h' s' (Q : list Event -> Prop) : Prop :=
  forall es, events s = es ++ base -> steady h es ->
    live s' = live s /\ container (prepared h') = container (prepared h) /\
    process_destroy_on_exit h' = process_destroy_on_exit h /\
    exists es', events s' = es' ++ base /\ steady h' es' /\ es ⊆ es' /\ Q es'.

Lemma moves_same base h s s' (Q : list Event -> Prop) :
  events s' = events s -> live s' = live s -> (forall es, steady h es -> Q es) -> moves base h s h s' Q.
Proof.
  intros He Hl Hd es Hes Hh. split_and!; [done..|]. exists es. split_and!; [by rewrite He|done..|]. auto.
Qed.

Lemma moves_trans base h s h1 s1 h2 s2 Q1 Q2 :
  moves base h s h1 s1 Q1 -> moves base h1 s1 h2 s2 Q2 -> moves base h s h2 s2 Q2.
Proof.
  intros M1 M2 es He Hh. destruct (M1 es He Hh) as (L1 & C1 & D1 & es1 & E1 & I1 & S1 & _).
  destruct (M2 es1 E1 I1) as (L2 & C2 & D2 & es2 & E2 & I2 & S2 & Hd).
  split_and!; [congruence..|]. exists es2. split_and!; [done|done|set_solver|done].
Qed.

Lemma moves_state base h s s1 h' s' Q :
  events s1 = events s -> live s1 = live s -> moves base h s1 h' s' Q -> moves base h s h' s' Q.
Proof. intros He Hl M. eapply (moves_trans _ _ _ h s1); [by apply (moves_same _ _ _ _ (fun _ => True))|done]. Qed.

Lemma moves_after base h s h' s1 s' Q :
  events s' = events s1 -> live s' = live s1 -> moves base h s h' s1 Q -> moves base h s h' s' Q.
Proof.
  intros He Hl M es Hes Hh. destruct (M es Hes Hh) as (L & C & D & es' & E & I & S & HQ).
  split_and!; [congruence..|]. exists es'. split_and!; [congruence|done..].
Qed.

Lemma moves_mono base h s h' s' (Q Q' : list Event -> Prop) :
  moves base h s h' s' Q -> (forall es, Q es -> Q' es) -> moves base h s h' s' Q'.
Proof.
  intros M HQ es Hes Hh. destruct (M es Hes Hh) as (L & C & D & es' & E & I & S & Hq).
  split_and!; [done..|]. exists es'. auto.
Qed.

Lemma force_stop_container p s r p' s' : force_stop p s = (r, p', s') -> container p' = container p.
Proof.
  unfold force_stop. destruct (force_stopped p); [by intros [= _ <- _]|].
  destruct (stop_container _ _) as [[[]|?] ?]; by intros [= _ <- _].
Qed.

Lemma kill_moves base h s r h' s' :
  kill h s = (r, h', s') -> moves base h s h' s' (fun _ => quiet h').
Proof.
  unfold kill, terminate. destruct (teardown_done h) eqn:Ed.
  { intros [= _ <- <-]. apply moves_same; [done..|]. by right. }
  set (s1 := change_world _ s). destruct (force_stop (prepared h) s1) as [[r0 p'] s2] eqn:Ef. intros [= _ <- <-].
  intros es He [Hp Ho Hd]. change (events s) with (events s1) in He.
  destruct (force_stop_settled _ _ _ base _ _ _ _ Hp He Ef) as (L & C & G & es' & E' & P' & Sub).
  split_and!; [done|by eapply force_stop_container|done|].
  exists es'. split_and!; [done| |done|by left]. split; cbn; [done|by left|]. by rewrite Ed.
Qed.

(** The latches are set only when the handle is quiet. *)
Lemma latch_moves base h s h' s' over e :
  moves base h s h' s' (fun _ => quiet h') ->
  let h2 := MkProcess (child h') (is_pty h') (child_timeout h') (started h') over e (prepared h')
    (process_cleanup_policy h') (process_destroy_on_exit h') (teardown_done h') (teardown_failures h') in
  moves base h s h2 s' (fun _ => quiet h2).
Proof.
  intros M h2 es He Hh. destruct (M es He Hh) as (L & C & D & es' & E' & [P' O' D'] & Sub & Hq).
  split_and!; [done..|]. exists es'. split_and!; [done| |done|done]. by split.
Qed.

Lemma kill_for_timeout_moves base h s r h' s' :
  kill_for_timeout h s = (r, h', s') -> moves base h s h' s' (fun _ => quiet h').
Proof.
  unfold kill_for_timeout. destruct (kill h s) as [[rk hk] sk] eqn:Ek. apply (kill_moves base) in Ek.
  destruct rk as [[]|e]; [|by intros [= _ <- <-]].
  destruct (on_world _ sk) as [o sw] eqn:Ew. apply events_on_world in Ew as [Ev El].
  apply (moves_after _ _ _ _ _ sw) in Ek; [|done..].
  destruct o; intros [= _ <- <-]; [by apply latch_moves|done..].
Qed.

Lemma deadline_moves base A h s (r : result IoError A) h' s' :
  deadline h s = (r, h', s') -> moves base h s h' s' (fun _ => quiet h').
Proof.
  unfold deadline. destruct (kill_for_timeout h s) as [[rk hk] sk] eqn:Ek. apply (kill_for_timeout_moves base) in Ek.
  destruct rk; intros [= _ <- <-]; by apply latch_moves.
Qed.

Lemma try_wait_moves base h s r h' s' : try_wait h s = (r, h', s') -> moves base h s h' s' (fun _ => True).
Proof.
  unfold try_wait. assert (Hsame : moves base h s h s (fun _ => True)) by (by apply moves_same).
  destruct (termination_error h); [by intros [= _ <- <-]|]. destruct (timed_out h); [by intros [= _ <- <-]|].
  destruct (on_world _ s) as [o sw] eqn:Ew. apply events_on_world in Ew as [Ev El].
  apply (moves_after _ _ _ _ _ sw) in Hsame; [|done..].
  destruct o as [[code|]|e]; [by intros [= _ <- <-]| |by intros [= _ <- <-]].
  destruct (overdue h sw); [|by intros [= _ <- <-]]. intros Hd%(deadline_moves base).
  eapply moves_trans; [exact Hsame|]. by eapply moves_mono.
Qed.

Lemma wait_outcome_moves base h s r h' s' :
  wait_outcome h s = (r, h', s') -> moves base h s h' s' (fun es => Ended ∈ es \/ quiet h').
Proof.
  unfold wait_outcome.
  destruct (if is_pty h then _ else _) as [setup s0] eqn:E0.
  assert (Hev : events s0 = events s /\ live s0 = live s)
    by (destruct (is_pty h); [by eapply events_on_world|by injection E0 as _ <-]).
  destruct Hev as [He0 Hl0]. intros Hw. apply (moves_state _ _ _ s0); [done..|]. clear E0 He0 Hl0.
  destruct setup as [[]|error].
  - destruct (termination_error h) eqn:Et; [|destruct (timed_out h) eqn:Eo].
    + injection Hw as _ <- <-. apply moves_same; [done..|]. intros es [_ Ho _]. right. apply Ho. right. congruence.
    + injection Hw as _ <- <-. apply moves_same; [done..|]. intros es [_ Ho _]. right. auto.
    + destruct (on_world _ s0) as [o sw] eqn:Ew. apply events_on_world in Ew as [Ev El].
      apply (moves_state _ _ _ sw); [done..|]. destruct o as [code| |e].
      * injection Hw as _ <- <-. intros es He [[] Ho Hd]. split_and!; [done..|].
        exists (Ended :: es). split_and!; [by cbn; rewrite He| |set_solver|left; left].
        split; [|done|intros Htd; destruct (Hd Htd); split; [done|set_solver]].
        apply (settled_weaken _ (prepared h) (prepared h)); [by split|done..|].
        intros Hr. destruct (settled_released0 Hr). split; [set_solver|done].
      * apply (deadline_moves base) in Hw. eapply moves_mono; [exact Hw|auto].
      * destruct (kill h sw) as [[rk hk] sk] eqn:Ek. apply (kill_moves base) in Ek. injection Hw as _ <- <-.
        eapply moves_after; [..|eapply moves_mono; [exact Ek|auto]]; done.
  - destruct (kill h s0) as [[rk hk] sk] eqn:Ek. apply (kill_moves base) in Ek.
    destruct (on_world _ sk) as [o sw] eqn:Ew. apply events_on_world in Ew as [Ev El]. injection Hw as _ <- <-.
    eapply moves_after; [..|eapply moves_mono; [exact Ek|auto]]; done.
Qed.

Lemma run_teardown_moves base h s h' s' es :
  events s = es ++ base -> steady h es -> Ended ∈ es \/ quiet h -> run_teardown h s = (h', s') ->
  live s' = live s /\ container (prepared h') = container (prepared h) /\
  process_destroy_on_exit h' = process_destroy_on_exit h /\
  (quiet h -> drops_quietly (prepared h')) /\
  exists es', events s' = es' ++ base /\ steady h' es' /\ es ⊆ es' /\
    (process_destroy_on_exit h = true -> exists ok, Destroyed ok ∈ es').
Proof.
  intros He Hh Hend Hr. pose proof Hh as [Hp Ho Hd]. unfold run_teardown in Hr.
  destruct (teardown_done h) eqn:Ed.
  { injection Hr as <- <-. destruct (Hd eq_refl) as [Hq Hde]. split_and!; [done..|].
    exists es. split_and!; [done..|]. intros Hdes. exists true. auto. }
  destruct (tear_down _ _ _ _) as [[f p'] s1] eqn:Et. injection Hr as <- <-.
  assert (Hend' : Ended ∈ es \/ guarded_stop (prepared h)) by (destruct Hend as [?|[?|?]]; [auto..|congruence]).
  destruct (tear_down_settled _ _ _ _ _ _ _ _ _ Hp Hend' He Et) as (L & C & Q & G & es' & E' & P' & Sub & Hdes).
  split_and!; [done..| |].
  - intros [?|?]; [|congruence]. apply Q. auto.
  - exists es'. split_and!; [done| |done|intros Hx; by destruct (Hdes Hx)].
    split; cbn; [done| |].
    + intros Hover. destruct (Ho Hover) as [?|?]; [|congruence]. left. auto.
    + intros Hf. destruct f; [|done]. split; [auto|]. intros Hx. by destruct (Hdes Hx); auto.
Qed.

Lemma wait_moves base h s r h' s' : wait h s = (r, h', s') -> moves base h s h' s' (fun _ => True).
Proof.
  unfold wait. destruct (wait_outcome h s) as [[r0 h0] s0] eqn:Ew. apply (wait_outcome_moves base) in Ew.
  destruct (run_teardown h0 s0) as [h1 s1] eqn:Et. intros [= _ <- <-] es He Hh.
  destruct (Ew es He Hh) as (L & C & D & es0 & E0 & I0 & S0 & Hend).
  destruct (run_teardown_moves _ _ _ _ _ _ E0 I0 Hend Et) as (L1 & C1 & D1 & _ & es1 & E1 & I1 & S1 & _).
  split_and!; [congruence..|]. exists es1. split_and!; [done|done|set_solver|done].
Qed.

Lemma perform_moves base op h s h' s' : perform op (h, s) = (h', s') -> moves base h s h' s' (fun _ => True).
Proof.
  destruct op; cbn.
  - destruct (try_wait h s) as [[r h0] s0] eqn:E. intros [= <- <-]. by eapply try_wait_moves.
  - destruct (kill h s) as [[r h0] s0] eqn:E. intros [= <- <-]. eapply moves_mono; [by eapply kill_moves|done].
  - destruct (kill_for_timeout h s) as [[r h0] s0] eqn:E. intros [= <- <-].
    eapply moves_mono; [by eapply kill_for_timeout_moves|done].
  - destruct (wait h s) as [[r h0] s0] eqn:E. intros [= <- <-]. by eapply wait_moves.
Qed.

Lemma perform_all_moves base ops h s h' s' :
  perform_all ops (h, s) = (h', s') -> moves base h s h' s' (fun _ => True).
Proof.
  unfold perform_all. revert h s. induction ops as [|op ops IH]; intros h s Hp.
  - injection Hp as <- <-. by apply moves_same.
  - cbn [foldl] in Hp. destruct (perform op (h, s)) as [h1 s1] eqn:E. eapply moves_trans; [by eapply perform_moves|by apply IH].
Qed.

Lemma drop_egress_quiet fw s :
  Firewall.rules_applied fw = false \/ Firewall.preserve_policy fw = true ->
  events (drop_egress fw s) = events s /\ live (drop_egress fw s) = live s.
Proof. unfold drop_egress. by intros [-> | ->]; rewrite ?andb_false_r. Qed.

Lemma live_drop_prepared p s : live (drop_prepared p s) = live s ∖ {[name (container p)]}.
Proof.
  unfold drop_prepared. cbn. f_equal. rewrite (proj2 (events_drop_relay _ _)).
  destruct (ingress_manager p); cbn; unfold drop_egress, note_unfiltered; by repeat case_match.
Qed.

Lemma drop_process_spec base h s es :
  events s = es ++ base -> steady h es ->
  live (drop_process h s) = live s ∖ {[name (container (prepared h))]} /\
  exists es', events (drop_process h s) = es' ++ base /\ guarded es' /\ es ⊆ es' /\
    (process_destroy_on_exit h = true -> exists ok, Destroyed ok ∈ es').
Proof.
  intros He Hh. unfold drop_process. destruct (kill h s) as [[r h1] s1] eqn:Ek.
  apply (kill_moves base) in Ek. destruct (Ek es He Hh) as (L1 & C1 & D1 & es1 & E1 & I1 & S1 & Q1).
  destruct (run_teardown h1 (change_world _ s1)) as [h2 s2] eqn:Et.
  destruct (run_teardown_moves base h1 (change_world (child_wait (child h1)) s1) h2 s2 es1 E1 I1 (or_intror Q1) Et)
    as (L2 & C2 & D2 & Q2 & es2 & E2 & [[] _ _] & S2 & Hdes).
  split; [rewrite live_drop_prepared; cbn in L2; congruence|].
  exists es2. split_and!; [|done|set_solver|by rewrite D1 in Hdes].
  unfold drop_prepared. cbn. rewrite (proj1 (events_drop_relay _ _)).
  destruct (ingress_manager (prepared h2)); cbn; by rewrite (proj1 (drop_egress_quiet _ _ (Q2 Q1))).
Qed.

(** ** The history of a preparation *)

(** Whether the container was started and nothing was done to release it since. *)
Fixpoint unreleased es : bool :=
  match es with
  | [] => false
  | Started _ true :: _ => true
  | Stopped _ :: _ | Destroyed _ :: _ => false
  | _ :: es => unreleased es
  end.

(** Whether the container was created and nothing was done to destroy it since. *)
Fixpoint undestroyed es : bool :=
  match es with
  | [] => false
  | Created :: _ => true
  | Destroyed _ :: _ => false
  | _ :: es => undestroyed es
  end.

(** Whether the container may run: it was started, and neither stopped nor
    destroyed since. *)
Fixpoint still_up es : bool :=
  match es with
  | [] => false
  | Started _ true :: _ => true
  | Stopped true :: _ | Destroyed true :: _ => false
  | _ :: es => still_up es
  end.

(** Whether the container was created and has not been destroyed since. *)
Fixpoint still_there es : bool :=
  match es with
  | [] => false
  | Created :: _ => true
  | Destroyed true :: _ => false
  | _ :: es => still_there es
  end.

(** What was run to release the container reported success. *)
Definition releases_worked es : Prop := (Stopped false ∉ es) /\ (Destroyed false ∉ es).

Lemma released_is_down es : releases_worked es -> unreleased es = false -> still_up es = false.
Proof.
  induction es as [|e es IH]; [done|]. intros [Hs Hd] Hu.
  assert (Hw : releases_worked es) by (split; set_solver). specialize (IH Hw).
  destruct e as [|? []|[]|[]| | |]; cbn in *; try done; try (by apply IH); [destruct Hs|destruct Hd]; by left.
Qed.

Lemma destroyed_is_gone es : releases_worked es -> undestroyed es = false -> still_there es = false.
Proof.
  induction es as [|e es IH]; [done|]. intros [Hs Hd] Hu.
  assert (Hw : releases_worked es) by (split; set_solver). specialize (IH Hw).
  destruct e as [|? []|[]|[]| | |]; cbn in *; try done; try (by apply IH); destruct Hd; by left.
Qed.

(** What a failed preparation leaves. *)
Definition abandoned es : Prop := unreleased es = false /\ undestroyed es = false /\ Launched ∉ es.

(** The events before the start of a container. *)
Definition before_start (created : bool) es : Prop :=
  exists running : bool, es = (if running then [Stopped true] else []) ++ (if created then [Created] else []).

(** Events of a failure after the start: the container was released. *)
Definition let_go (created : bool) es : Prop :=
  (Launched ∉ es) /\
  forall before, unreleased (es ++ before) = false /\
    (created = true \/ undestroyed before = false -> undestroyed (es ++ before) = false).

(** What a stage adds to the history. *)
Definition adds {A} (c : stateful Run ScriptResponse A) s (good : A -> list Event -> Prop) (bad : list Event -> Prop)
    : Prop :=
  live (snd (c s)) = live s /\
  exists es, events (snd (c s)) = es ++ events s /\
    match fst (c s) with Ok a => good a es | Err _ => bad es end.

Lemma adds_bind {A B} (c : stateful Run ScriptResponse A) (k : A -> stateful Run ScriptResponse B) s
    good bad good' bad' :
  adds c s good bad -> (forall es, bad es -> bad' es) ->
  (forall a s1 es1, c s = (Ok a, s1) -> good a es1 ->
     adds (k a) s1 (fun b es => good' b (es ++ es1)) (fun es => bad' (es ++ es1))) ->
  adds (c ≫= k) s good' bad'.
Proof.
  intros (L & es & E & M) Hb Hk. unfold adds, mbind, stateful_bind. destruct (c s) as [[a|e] s1] eqn:Ec; cbn in L, E, M |- *.
  - destruct (Hk a s1 es eq_refl M) as (L' & es' & E' & M'). split; [congruence|].
    exists (es' ++ es). split; [by rewrite E', E, app_assoc|done].
  - split; [done|]. exists es. auto.
Qed.

Lemma adds_mono {A} (c : stateful Run ScriptResponse A) s (good good' : A -> list Event -> Prop) (bad bad' : list Event -> Prop) :
  adds c s good bad -> (forall a es, good a es -> good' a es) -> (forall es, bad es -> bad' es) -> adds c s good' bad'.
Proof.
  intros (L & es & E & M) Hg Hb. split; [done|]. exists es. split; [done|]. destruct ((c s).1); auto.
Qed.

Lemma let_go_release self c created s :
  exists e, events (release_after_failure self c created s) = e :: events s /\
    live (release_after_failure self c created s) = live s /\ let_go created [e].
Proof.
  unfold release_after_failure, release_container, release_kind.
  destruct (runner_destroy_on_exit self || created) eqn:Ed.
  - destruct (destroy_container c s) as [r s1] eqn:Es. apply events_noted in Es as [Es El].
    eexists. split_and!; [exact Es|exact El|]. split; [set_solver|]. intros before. by split.
  - destruct (stop_container c s) as [r s1] eqn:Es. apply events_noted in Es as [Es El].
    eexists. split_and!; [exact Es|exact El|]. split; [set_solver|]. intros before. split; [done|].
    apply orb_false_iff in Ed as [_ ->]. by intros [?|?].
Qed.

Lemma destroy_if_ours_events self c created s :
  live (destroy_if_ours self c created s) = live s /\
  exists es, events (destroy_if_ours self c created s) = es ++ events s /\
    (if created then exists ok, es = [Destroyed ok] else es = [] \/ exists ok, es = [Destroyed ok]).
Proof.
  unfold destroy_if_ours. destruct (runner_destroy_on_exit self || created) eqn:Ed.
  - destruct (destroy_container c s) as [r s1] eqn:Es. apply events_noted in Es as [Es El].
    split; [done|]. exists [Destroyed (is_ok r)]. split; [exact Es|]. destruct created; eauto.
  - apply orb_false_iff in Ed as [_ ->]. split; [done|]. exists []. auto.
Qed.

(** A step that is cleaned up after by destroying what the run created. *)
Lemma or_fail_adds {A} self c created (f : Run -> result string A * Run) err s (note : bool -> list Event) :
  (forall r s', f s = (r, s') -> events s' = note (is_ok r) ++ events s /\ live s' = live s) ->
  adds (or_fail f (destroy_if_ours self c created) err) s (fun _ es => es = note true)
    (fun es => exists tail, es = tail ++ note false /\
       (if created then exists ok, tail = [Destroyed ok] else tail = [] \/ exists ok, tail = [Destroyed ok])).
Proof.
  intros Hf. unfold adds, or_fail. destruct (f s) as [r s1] eqn:E. destruct (Hf _ _ eq_refl) as [Ev El].
  destruct r as [a|e]; cbn.
  - split; [done|]. by exists (note true).
  - destruct (destroy_if_ours_events self c created s1) as (L & tail & Et & Ht).
    split; [congruence|]. exists (tail ++ note false). split; [by rewrite Et, Ev, app_assoc|]. eauto.
Qed.

Lemma define_container_adds self c s :
  adds (define_container self c) s (fun created es => es = if created then [Created] else []) (fun es => es = []).
Proof.
  unfold adds, define_container. destruct (on_world (is_defined c) s) as [[] s0] eqn:E0; apply events_on_world in E0 as [E0 L0].
  - split; [done|]. by exists [].
  - destruct (on_world (create _ _ _) s0) as [[[]|e] s1] eqn:E1; apply events_on_world in E1 as [E1 L1]; cbn.
    + split; [congruence|]. exists [Created]. split; [|done]. cbn. congruence.
    + split; [congruence|]. exists []. split; [cbn; congruence|done].
Qed.

Lemma stop_stale_adds self c created s :
  adds (stop_stale self c created) s (fun _ es => es = [] \/ es = [Stopped true])
    (fun es => exists tail, es = tail ++ [Stopped false] /\
       (if created then exists ok, tail = [Destroyed ok] else tail = [] \/ exists ok, tail = [Destroyed ok])).
Proof.
  unfold adds, stop_stale. destruct (on_world (is_running c) s) as [[] s0] eqn:E0; apply events_on_world in E0 as [E0 L0].
  - rewrite <- E0, <- L0.
    eapply (adds_mono _ s0); [apply (or_fail_adds self c created _ _ s0 (fun ok => [Stopped ok]))|..]; [|auto..].
    intros r s' Hs. by apply events_noted in Hs.
  - split; [done|]. exists []. split; [done|by left].
Qed.

Lemma readiness_adds self c created s :
  adds (enforce_network_readiness self c created) s (fun _ es => es = []) (let_go created).
Proof.
  unfold adds, enforce_network_readiness.
  destruct (on_world (wait_for_network _ _ _ _) s) as [[] s0] eqn:E0; apply events_on_world in E0 as [E0 L0]; cbn.
  - split; [done|]. by exists [].
  - destruct (let_go_release self c created s0) as (e & Ev & Lv & Hl). unfold release_after_failure in Ev, Lv.
    split; [congruence|]. exists [e]. split; [|done]. rewrite Ev, E0. done.
Qed.

(** Bringing a container up: it was not running, or was stopped, when this run
    started it with the network section of its own policy. *)
Lemma bring_up_adds self c (p : ContainerPolicy) s :
  adds (bring_up self c p) s
    (fun created es => exists pre, es = Started (start_network p) true :: pre /\ before_start created pre) abandoned.
Proof.
  unfold bring_up. eapply adds_bind; [apply define_container_adds|by intros es ->; split_and!; try set_solver|].
  intros created s1 es1 _ ->.
  assert (Hc1 : Launched ∉ (if created then [Created] else [])) by (destruct created; set_solver).
  eapply adds_bind.
  { apply (or_fail_adds self c created _ _ s1 (fun _ => [])). intros r s' Hs. by apply events_on_world in Hs. }
  { intros es (tail & -> & Ht). destruct created; [destruct Ht as [ok ->]|destruct Ht as [->|[ok ->]]];
      split_and!; try done; set_solver. }
  intros [] s2 es2 _ ->. eapply adds_bind; [apply stop_stale_adds| |].
  { intros es (tail & -> & Ht). destruct created; [destruct Ht as [ok ->]|destruct Ht as [->|[ok ->]]];
      split_and!; try done; set_solver. }
  intros [] s3 es3 _ Hst.
  assert (Hpre : before_start created (es3 ++ [] ++ (if created then [Created] else [])))
    by (destruct Hst as [->| ->]; [by exists false|by exists true]).
  eapply adds_bind.
  { apply (or_fail_adds self c created _ _ s3 (fun ok => [Started (start_network p) ok])).
    intros r s' Hs. by apply events_noted in Hs. }
  { intros es (tail & -> & Ht). destruct created; [destruct Ht as [ok ->]|destruct Ht as [->|[ok ->]]];
      destruct Hst as [->| ->]; split_and!; try done; set_solver. }
  intros [] s4 es4 _ ->. eapply adds_bind.
  - instantiate (1 := let_go created). instantiate (1 := fun _ es => es = []).
    destruct (needs_network p); [apply readiness_adds|]. split; [done|]. by exists [].
  - intros es [Hn Hl]. rewrite <- !app_assoc. destruct (Hl ([Started (start_network p) true] ++ es3 ++ [] ++ (if created then [Created] else []))) as [H1 H2].
    split_and!; [done| |].
    + apply H2. destruct created; [by left|right]. by destruct Hst as [->| ->].
    + destruct created, Hst as [->| ->]; set_solver.
  - intros [] s5 es5 _ ->. split; [done|]. exists []. split; [done|]. cbn. rewrite <- app_assoc. eauto.
Qed.

Lemma drop_managers_events fw ingress s :
  live (drop_egress fw (drop_ingress_manager ingress s)) = live s /\
  exists es, events (drop_egress fw (drop_ingress_manager ingress s)) = es ++ events s /\ (es = [] \/ es = [Unfiltered]).
Proof.
  assert (He : events (drop_ingress_manager ingress s) = events s /\ live (drop_ingress_manager ingress s) = live s) by (by destruct ingress).
  destruct He as [<- <-]. generalize (drop_ingress_manager ingress s). clear s. intros s.
  unfold drop_egress, note_unfiltered. destruct (Firewall.rules_applied fw && _); [destruct (is_hooked fw)|];
    (split; [done|]); [exists [Unfiltered]|exists []..]; auto.
Qed.

Lemma let_go_around created unf unf' e :
  let_go created [e] -> unf = [] \/ unf = [Unfiltered] -> unf' = [] \/ unf' = [Unfiltered] ->
  let_go created (unf ++ [e] ++ unf').
Proof.
  intros [Hn Hl] Hu Hu'. split; [destruct Hu as [->| ->], Hu' as [->| ->]; set_solver|]. intros before.
  destruct (Hl (unf' ++ before)) as [H1 H2]. rewrite <- !app_assoc.
  assert (Hun : undestroyed (unf' ++ before) = undestroyed before) by (by destruct Hu' as [->| ->]).
  rewrite Hun in H2. by destruct Hu as [->| ->].
Qed.

Lemma or_fail_let_go {A} self c created (f : Run -> result string A * Run) err s :
  (forall r s', f s = (r, s') -> events s' = events s /\ live s' = live s) ->
  adds (or_fail f (release_after_failure self c created) err) s (fun _ es => es = [])
    (fun es => exists e, es = [e] /\ let_go created [e]).
Proof.
  intros Hf. unfold adds, or_fail. destruct (f s) as [r s1] eqn:E. destruct (Hf _ _ eq_refl) as [Ev El].
  destruct r as [a|e]; cbn; [split; [done|]; by exists []|].
  destruct (let_go_release self c created s1) as (e' & Ev' & Lv' & Hl).
  split; [congruence|]. exists [e']. split; [rewrite Ev', Ev; done|eauto].
Qed.

Lemma start_relay_events (p : ContainerPolicy) pid s r s' : start_relay p pid s = (r, s') -> events s' = events s /\ live s' = live s.
Proof.
  unfold start_relay. repeat case_match; intros [= <- <-]; try done;
    match goal with E : on_world _ _ = _ |- _ => by apply events_on_world in E end.
Qed.

Lemma clear_pin_events c created installed s r s' :
  clear_stale_hosts_pin c created installed s = (r, s') -> events s' = events s /\ live s' = live s.
Proof.
  unfold clear_stale_hosts_pin. destruct created; [by intros [= _ <-]|].
  destruct (on_world _ s) as [r0 s0] eqn:E. apply events_on_world in E. by intros [= _ <-].
Qed.

Lemma allow_ping_events fw s r s' : allow_ping fw s = (r, s') -> events s' = events s /\ live s' = live s.
Proof. unfold allow_ping. destruct (Firewall.allow_ping_sockets fw (sys s)). by intros [= _ <-]. Qed.

Lemma finish_adds self r c created pid fw ingress s :
  adds (finish self r c created pid fw ingress) s
    (fun p es => es = [] /\ fw_manager p = fw /\ ingress_manager p = ingress /\ container p = c /\
       firewall p = is_firewall_installed fw ingress /\
       released p = false /\ force_stopped p = false /\ stop_failed p = false)
    (let_go created).
Proof.
  unfold finish. set (body := _ ≫= _).
  cut (adds body s
    (fun p es => es = [] /\ fw_manager p = fw /\ ingress_manager p = ingress /\ container p = c /\
       firewall p = is_firewall_installed fw ingress /\
       released p = false /\ force_stopped p = false /\ stop_failed p = false)
    (fun es => exists e, es = [e] /\ let_go created [e])).
  { intros (L & es & E & M). unfold adds, on_error. destruct (body s) as [[p|err] s1]; cbn in L, E, M |- *.
    - split; [done|]. eauto.
    - destruct M as (e & -> & Hl). destruct (drop_managers_events fw ingress s1) as (L' & unf & E' & Hu).
      split; [congruence|]. exists (unf ++ [e]). split; [by rewrite E', E, app_assoc|].
      rewrite <- (app_nil_r [e]). by apply let_go_around; auto. }
  unfold body. eapply adds_bind.
  - instantiate (1 := fun es => exists e, es = [e] /\ let_go created [e]). instantiate (1 := fun _ es => es = []).
    case_decide; [|by split; [done|exists []]]. apply or_fail_let_go. apply allow_ping_events.
  - done.
  - intros [] s1 es1 _ ->. eapply adds_bind; [apply or_fail_let_go; apply clear_pin_events| |].
    { intros es (e & -> & Hl). by exists e. }
    intros [] s2 es2 _ ->. eapply adds_bind; [apply or_fail_let_go; apply start_relay_events| |].
    { intros es (e & -> & Hl). by exists e. }
    intros rel s3 es3 _ ->. split; [done|]. exists []. by split_and!.
Qed.

(** A sandbox as a preparation hands it over. *)
Record fresh self (p : ContainerPolicy) (sb : PreparedSandbox) : Prop := MkFresh {
  fresh_released : released sb = false;
  fresh_force_stopped : force_stopped sb = false;
  fresh_stop_failed : stop_failed sb = false;
  fresh_preserve : Firewall.preserve_policy (fw_manager sb) = negb (cleanup_policy self);
  fresh_hooked : installs_firewall (plan_network p) = true -> is_hooked (fw_manager sb) = true;
}.

Lemma apply_keeps (p : ContainerPolicy) m (y : Sys) r m' y' :
  Firewall.apply_firewall_rules p (m, y) = (r, (m', y')) -> is_hooked m' = is_hooked m.
Proof.
  unfold Firewall.apply_firewall_rules. destruct (negb (installs_firewall _)); [by intros [= _ <- _]|].
  destruct (Firewall.rules_applied m); [by intros [= _ <- _]|].
  destruct (Firewall.apply_firewall_rules_inner m p y) as [[c|[e residual]] y0]; by intros [= _ <- _].
Qed.

Lemma set_up_spec self cn hook pid (p : ContainerPolicy) s r s' :
  set_up_network_rules self cn hook pid p s = (r, s') ->
  live s' = live s /\ exists es, events s' = es ++ events s /\
    match r with
    | Ok (fw, ingress) =>
        es = [] /\ Firewall.preserve_policy fw = negb (cleanup_policy self) /\
        (hook <> Unhooked -> is_hooked fw = true)
    | Err _ => es = [] \/ es = [Unfiltered]
    end.
Proof.
  unfold set_up_network_rules. destruct (Firewall.apply_firewall_rules _ _) as [ra [fw y]] eqn:Ea.
  apply apply_keeps in Ea. destruct ra as [[]|e].
  - assert (Hh : hook <> Unhooked -> is_hooked fw = true) by (rewrite Ea; by destruct hook).
    destruct pid as [pid|]; [|intros [= <- <-]; split; [done|]; by exists []].
    destruct (Ingress.apply_firewall_rules _ _) as [ri [mgr w]]. destruct ri as [[]|e]; intros [= <- <-].
    + split; [done|]. by exists [].
    + exact (drop_managers_events _ (Some mgr) (set_sys (set_world w y) (set_sys y s))).
  - intros [= <- <-]. exact (drop_managers_events fw None (set_sys y s)).
Qed.

Lemma enforce_adds self r c created s :
  adds (enforce self r c created) s
    (fun sb es => es = [] /\ container sb = c /\ fresh self (policy r) sb) (let_go created).
Proof.
  unfold adds, enforce. destruct (on_world (init_pid c) s) as [pid s0] eqn:E0. apply events_on_world in E0 as [E0 L0].
  destruct (egress_hook_point _ _) as [hook|] eqn:Eh; cbn.
  - set (s1 := match pid with Some _ => _ | None => _ end).
    assert (Hs1 : events s1 = events s /\ live s1 = live s)
      by (unfold s1; destruct pid; [destruct (runner_destroy_on_exit self)|]; done).
    destruct Hs1 as [<- <-]. generalize s1. clear s1 s0 E0 L0 s. intros s.
    destruct (set_up_network_rules _ _ _ _ _ s) as [ru s2] eqn:Eu. apply set_up_spec in Eu as (Lu & es & Eu & Mu).
    destruct ru as [[fw ingress]|e]; cbn.
    + destruct Mu as (-> & Hp & Hk). cbn in Eu. rewrite <- Eu, <- Lu.
      eapply adds_mono; [apply (finish_adds self r c created pid fw ingress s2)| |done].
      intros sb es (-> & Hf & _ & Hc & _ & ? & ? & ?). split_and!; [done..|]. rewrite <- Hf in Hp, Hk. split; [done..|].
      intros Hi. apply Hk. intros ->. destruct pid; [done|]. by rewrite Hi in Eh.
    + destruct (let_go_release self c created s2) as (ev & Ev & Lv & Hl). split; [congruence|].
      exists ([] ++ [ev] ++ es). split; [by rewrite Ev, Eu|]. by apply let_go_around; auto.
  - destruct (let_go_release self c created s0) as (ev & Ev & Lv & Hl). split; [congruence|].
    exists [ev]. split; [by rewrite Ev, E0|done].
Qed.

Lemma prepare_claimed_adds self r cn s :
  adds (prepare_claimed self r cn) s
    (fun sb es => exists created pre, es = Started (start_network (policy r)) true :: pre /\ before_start created pre /\
       name (container sb) = cn /\ fresh self (policy r) sb)
    abandoned.
Proof.
  assert (Hnil : abandoned []) by (split_and!; try done; set_solver).
  unfold prepare_claimed. eapply adds_bind.
  { instantiate (1 := fun es => es = []). instantiate (1 := fun _ es => es = []). unfold adds, of_result. cbn.
    split; [done|]. exists []. split; [done|]. by case_match. }
  { by intros es ->. }
  intros [] s1 es1 _ ->. eapply adds_bind.
  { instantiate (1 := fun es => es = []). instantiate (1 := fun _ es => es = []).
    unfold adds, check_tooling, lxc_tooling_for_execution. destruct (confirmed s1); [by split; [|exists []]|].
    destruct (on_world _ s1) as [o s2] eqn:E. apply events_on_world in E as [E L].
    destruct (tooling_from o); cbn; (split; [done|]); by exists []. }
  { by intros es ->. }
  intros [] s2 es2 _ ->. eapply (adds_bind _ _ _ (fun _ es => es = []) (fun es => es = [])).
  { split; [by destruct (runner_destroy_on_exit self)|]. exists []. split; [by destruct (runner_destroy_on_exit self)|done]. }
  { by intros es ->. }
  intros [] s3 es3 _ ->. eapply (adds_bind _ _ _ (fun c es => name c = cn /\ es = []) (fun es => es = [])).
  { split; [done|]. by exists []. }
  { by intros es ->. }
  intros c s4 es4 _ [Hc ->]. eapply adds_bind; [apply bring_up_adds|by intros es; rewrite !app_nil_r|].
  intros created s5 es5 _ (pre & -> & Hpre). eapply adds_mono; [apply enforce_adds| |].
  - intros sb es (-> & <- & Hf). exists created, pre. by rewrite !app_nil_r.
  - intros es [Hn Hl]. rewrite !app_nil_r. destruct (Hl (Started (start_network (policy r)) true :: pre)) as [H1 H2].
    destruct Hpre as [running ->]. split_and!; [done| |].
    + apply H2. destruct created; [by left|right]. by destruct running.
    + destruct running, created; set_solver.
Qed.

Lemma acquire_spec n s b s' :
  acquire n s = (b, s') ->
  events s' = events s /\ sys s' = sys s /\
  (if b then (n ∉ live s) /\ live s' = {[n]} ∪ live s else live s' = live s).
Proof. unfold acquire. case_decide; by intros [= <- <-]. Qed.

Lemma claim_generated_spec attempts self s r s' :
  claim_generated_name attempts self s = (r, s') ->
  events s' = events s /\
  match r with Ok n => (n ∉ live s) /\ live s' = {[n]} ∪ live s | Err _ => live s' = live s end.
Proof.
  revert s. induction attempts as [|attempts IH]; intros s Hc; cbn in Hc; [by injection Hc as <- <-|].
  destruct (resolve_container_name self s) as [n s0] eqn:En.
  assert (H0 : events s0 = events s /\ live s0 = live s).
  { unfold resolve_container_name in En. case_bool_decide; [|by injection En as _ <-].
    destruct (on_world uuid_simple s) as [u s1] eqn:Eu. apply events_on_world in Eu. by injection En as _ <-. }
  destruct H0 as [<- <-]. destruct (acquire n s0) as [[] s1] eqn:Ea; apply acquire_spec in Ea as (Ev & _ & Hl).
  - by injection Hc as <- <-.
  - destruct (IH s1 Hc) as [IH1 IH2]. split; [congruence|]. by rewrite Hl in IH2.
Qed.

Lemma claim_spec self s r s' :
  claim_container_name self s = (r, s') ->
  events s' = events s /\
  match r with Ok n => (n ∉ live s) /\ live s' = {[n]} ∪ live s | Err _ => live s' = live s end.
Proof.
  unfold claim_container_name. case_bool_decide; [by apply claim_generated_spec|].
  destruct (acquire _ s) as [[] s1] eqn:Ea; apply acquire_spec in Ea as (Ev & _ & Hl); intros [= <- <-]; by destruct Hl.
Qed.

(** A name of this process that is given back. *)
Lemma claim_returned (l : gset string) n : n ∉ l -> ({[n]} ∪ l) ∖ {[n]} = l.
Proof. set_solver. Qed.

(** The checks before the name: nothing happens in them. *)
Lemma prepare_cases self r s :
  (exists e, prepare self r s = (Err e, s)) \/
  exists r', normalized r (world (sys s)) = Ok r' /\
    prepare self r s = (cn ← claim_container_name self; on_error (drop_claim cn) (prepare_claimed self r' cn)) s.
Proof.
  unfold prepare, mbind, stateful_bind, of_result, gets.
  destruct (validate_runner r); [|eauto]. destruct (normalized r (world (sys s))) as [r'|]; [|eauto].
  destruct (check_delegation r' (world (sys s))); [|eauto]. destruct (fail_if _ _); [|eauto].
  right. by exists r'.
Qed.

Lemma normalized_network r w r' :
  normalized r w = Ok r' ->
  network_egress (policy r') = network_egress (policy r) /\ network_ingress (policy r') = network_ingress (policy r) /\
  plan_network (policy r') = plan_network (policy r) /\
  exists rw ro dn, policy r' = FsPolicy.set_paths (policy r) rw ro dn.
Proof.
  unfold normalized. destruct (FsPolicy.normalize_object_conflicts_with _ _) as [t|] eqn:E; [|done]. intros [= <-]. cbn.
  apply FsPolicy.normalized_fields in E. rewrite E. split_and!; try done. eauto.
Qed.

Lemma prepare_Ok self r s sb s' :
  prepare self r s = (Ok sb, s') ->
  exists r' s1 created pre,
    normalized r (world (sys s)) = Ok r' /\ prepare_claimed self r' (name (container sb)) s1 = (Ok sb, s') /\
    (name (container sb) ∉ live s) /\ live s' = {[name (container sb)]} ∪ live s /\
    events s' = Started (start_network (policy r)) true :: pre ++ events s /\ before_start created pre /\
    fresh self (policy r) sb.
Proof.
  intros Hp. destruct (prepare_cases self r s) as [[e He]|(r' & Hn & Hpr)]; [congruence|].
  destruct (normalized_network _ _ _ Hn) as (_ & _ & Hplan & _).
  rewrite Hpr in Hp. apply stateful_bind_Ok in Hp as (cn & s1 & Hc & Hp).
  apply claim_spec in Hc as (Ev & Hfree & Hl). unfold on_error in Hp.
  destruct (prepare_claimed_adds self r' cn s1) as (L & es & E & M).
  destruct (prepare_claimed self r' cn s1) as [[sb0|e] s2] eqn:Epc; [|done]. cbn in L, E, M.
  injection Hp as <- <-. destruct M as (created & pre & -> & Hpre & Hname & Hf). subst cn.
  exists r', s1, created, pre. split_and!; try done.
  - congruence.
  - unfold start_network in *. rewrite E, Ev, <- Hplan. done.
  - destruct Hf as [? ? ? ? Hk]. rewrite Hplan in Hk. by split.
Qed.

(** C10. A preparation that fails gives up everything this run had taken: no
    workload was launched, if the container was started, [lxc-stop] or
    [lxc-destroy] was run on it afterwards, if it was created, [lxc-destroy] was,
    whatever these report, and the name can be taken again.  If what was run
    reported success, the container is neither up nor, if this run made it,
    there.  This is so on every error path. *)
Theorem failed_preparation_releases (self : LxcScriptRunner) (r : ExecutionRequest) (s s' : Run) (e : ScriptResponse) :
  prepare self r s = (Err e, s') ->
  live s' = live s /\ exists es, events s' = es ++ events s /\
    unreleased es = false /\ undestroyed es = false /\ (Launched ∉ es) /\
    (releases_worked es -> still_up es = false /\ still_there es = false).
Proof.
  intros Hp. cut (live s' = live s /\ exists es, events s' = es ++ events s /\ abandoned es).
  { intros (Hl & es & He & Hu & Hd & Hn). split; [done|]. exists es. split_and!; try done.
    intros Hw. split; [by apply released_is_down|by apply destroyed_is_gone]. }
  assert (Hnil : abandoned []) by (split_and!; try done; set_solver).
  destruct (prepare_cases self r s) as [[e' He]|(r' & _ & Hpr)].
  { rewrite He in Hp. injection Hp as _ <-. split; [done|]. by exists []. }
  rewrite Hpr in Hp. unfold mbind, stateful_bind in Hp.
  destruct (claim_container_name self s) as [[cn|e'] s1] eqn:Ec; apply claim_spec in Ec as (Ev & Hl).
  - destruct Hl as [Hfree Hl]. unfold on_error in Hp. destruct (prepare_claimed_adds self r' cn s1) as (L & es & E & M).
    destruct (prepare_claimed self r' cn s1) as [[sb|e0] s2]; [done|]. injection Hp as _ <-. cbn in *.
    split; [by rewrite L, Hl, claim_returned|]. exists es. split; [by rewrite E, Ev|done].
  - injection Hp as _ <-. split; [done|]. by exists [].
Qed.

Lemma launch_Ok self r stdio s h s1 :
  launch_streaming self r stdio s = (Ok h, s1) ->
  exists s0, prepare self r s = (Ok (prepared h), s0) /\ events s1 = Launched :: events s0 /\ live s1 = live s0 /\
    process_cleanup_policy h = cleanup_policy self /\ process_destroy_on_exit h = runner_destroy_on_exit self /\
    timed_out h = false /\ termination_error h = None /\ teardown_done h = false.
Proof.
  unfold launch_streaming. destruct (prepare self r s) as [[sb|e] s0]; [|done].
  destruct (on_world (attach_spawn _ _ _) _) as [[ch|e] s2] eqn:E1; apply events_on_world in E1 as [E1 L1].
  - destruct (on_world (wrap_pipes ch) s2) as [[[]|e] s3] eqn:E2; apply events_on_world in E2 as [E2 L2].
    + intros [= <- <-]. exists s0. split_and!; try done; cbn in *; congruence.
    + destruct (force_stop sb s3) as [[stopped sb'] s4]. unfold abandon. by destruct (abandon_prepared _ _ _) as [[? ?] ?].
  - unfold abandon. by destruct (abandon_prepared _ _ _) as [[? ?] ?].
Qed.

(** C4. The outbound rules of a workload behind a handle outlive the workload,
    whatever its owner does: after any sequence of polls, waits, kills and
    timeouts, and after the handle is dropped, the hooked chain was taken out
    by a command only once the attach process had been seen to end, and never
    when the latest attempt to stop the container had failed.  Dropping the
    handle gives the name back, and destroys the container if the run asked for
    it. *)
Theorem enforcement_outlives_workload (self : LxcScriptRunner) (r : ExecutionRequest) (stdio : StdioMode)
    (ops : list Operation) (s s1 s2 : Run) (h h' : LxcSandboxProcess) :
  plan_network (policy r) = Lxc.Filtered ->
  launch_streaming self r stdio s = (Ok h, s1) -> perform_all ops (h, s1) = (h', s2) ->
  (exists es, events s2 = es ++ events s1 /\ guarded es) /\
  live (drop_process h' s2) = live s /\
  exists es, events (drop_process h' s2) = es ++ events s1 /\ guarded es /\
    (runner_destroy_on_exit self = true -> exists ok, Destroyed ok ∈ es).
Proof.
  intros Hplan Hl Hops. destruct (launch_Ok _ _ _ _ _ _ Hl) as (s0 & Hp & Ev & Lv & Hc & Hd & Ht & He & Htd).
  destruct (prepare_Ok _ _ _ _ _ Hp) as (r' & sc & created & pre & _ & _ & Hfree & Hlive & _ & _ & []).
  assert (Hh : steady h []).
  { split; [|intros [?|?]; congruence|congruence]. split; try done.
    - apply fresh_hooked0. by rewrite Hplan.
    - congruence.
    - rewrite Hc. by intros Hcl; rewrite fresh_preserve0, Hcl.
    - congruence. }
  destruct (perform_all_moves (events s1) ops h s1 h' s2 Hops [] eq_refl Hh) as (L & C & D & es & E & I & _ & _).
  destruct (drop_process_spec (events s1) h' s2 es E I) as (L' & es' & E' & G & _ & Hdes).
  split_and!; [exists es; by destruct I as [[] _ _]| |].
  - rewrite L', L, C, Lv, Hlive. by apply claim_returned.
  - exists es'. split_and!; [done..|]. by rewrite D, Hd in Hdes.
Qed.

Lemma drop_prepared_events p s :
  exists es, events (drop_prepared p s) = es ++ events s /\ (es = [] \/ es = [Unfiltered]).
Proof.
  destruct (drop_managers_events (fw_manager p) None s) as (_ & es & E & Hes). exists es. split; [|done].
  unfold drop_prepared. cbn. rewrite (proj1 (events_drop_relay _ _)). by destruct (ingress_manager p).
Qed.

Definition releases (e : Event) : bool := match e with Stopped _ | Destroyed _ => true | _ => false end.

(** C40. A script that is run to completion keeps no such promise: when the
    attach fails or runs into its deadline, and the container is neither
    destroyed nor its policy preserved, the hooked chain is taken out and the
    container, with the workload in it, is not stopped. *)
Theorem one_shot_unfilters_running (self : LxcScriptRunner) (r : ExecutionRequest) (s s1 s2 : Run)
    (sb : PreparedSandbox) (e : string) :
  prepare self r s = (Ok sb, s1) -> Firewall.rules_applied (fw_manager sb) = true ->
  plan_network (policy r) = Lxc.Filtered ->
  runner_destroy_on_exit self = false -> cleanup_policy self = true ->
  on_world (attach_run (container sb) (prepared_script sb) (prepared_directory sb) (exec_env sb) true (timeout sb)
    (firewall sb)) (record Launched s1) = (Err e, s2) ->
  exists es, events (snd (run_internal self r s)) = es ++ Unfiltered :: Launched :: events s1 /\
    existsb releases es = false.
Proof.
  intros Hp Hra Hplan Hd Hc Ha. destruct (prepare_Ok _ _ _ _ _ Hp) as (r' & sc & created & pre & _ & _ & _ & _ & _ & _ & []).
  rewrite Hplan in fresh_hooked0. specialize (fresh_hooked0 eq_refl).
  unfold run_internal. rewrite Hp, Ha. apply events_on_world in Ha as [Ev _]. unfold tear_down. rewrite Hd. cbn [andb].
  destruct (events_drop_relay (relay sb) s2) as [Er _]. rewrite Ev in Er. set (s3 := drop_relay (relay sb) s2) in *. clearbody s3.
  unfold remove_in_container_state. cbn [stop_failed without_relay]. rewrite fresh_stop_failed0. cbn [andb].
  unfold remove_egress_rules. cbn [fw_manager without_relay]. rewrite Hra, Hc. cbn [andb].
  destruct (remove_egress (fw_manager sb) s3) as [fw s4] eqn:Ere.
  apply remove_egress_spec in Ere as (_ & _ & _ & Ee). rewrite fresh_hooked0 in Ee.
  destruct (remove_ingress_rules _ _ s4) as [[f2 p2] s5] eqn:Ei. apply remove_ingress_spec in Ei as (Ei & _ & _ & _).
  destruct (drop_prepared_events p2 s5) as (es & Ed & Hes). exists es. cbn [snd]. split.
  - by rewrite Ed, Ei, Ee, Er.
  - by destruct Hes as [->| ->].
Qed.

End WithHost.

(** ** What a prepared sandbox enforces *)

(** What neither firewall command does leaves the filter tables of a namespace
    alone: setting a kernel parameter, a command in the container without its
    network capabilities, and the relay. *)
Class NamespaceLaws (H : Host) {L : Firewall.NetfilterLaws H} {OS : LxcOs H} {RO : RunnerOs H} : Prop := {
  sysctl_keeps : forall hook args w outcome w' pid f,
    exec [] (Firewall.command_argv hook "sysctl" args) w = (outcome, w') ->
    Firewall.filter_table w' (ContainerNetns pid) f = Firewall.filter_table w (ContainerNetns pid) f;
  confined_keeps : forall argv deadline w outcome w' pid f,
    capture argv true deadline w = (outcome, w') ->
    Firewall.filter_table w' (ContainerNetns pid) f = Firewall.filter_table w (ContainerNetns pid) f;
  relay_keeps : forall pid0 host port w r w' pid f,
    relay_start pid0 host port w = (r, w') ->
    Firewall.filter_table w' (ContainerNetns pid) f = Firewall.filter_table w (ContainerNetns pid) f;
}.

Section Laws.
Context {H : Host} {L : Firewall.NetfilterLaws H} {AL : Ingress.AbsentLaws H} {OS : LxcOs H} {RO : RunnerOs H}
  {NL : NamespaceLaws H} (sha256 : string -> list Z).

(** The table of a family in the namespace of a process. *)
Definition table (s : Run) (pid : Z) (f : IpFamily) : Firewall.ruleset :=
  Firewall.filter_table (world (sys s)) (ContainerNetns pid) f.

Lemma chain_name_prefix prefix n cn :
  exists rest, Names.chain_name_with_prefix sha256 prefix n cn = prefix +:+ rest.
Proof. unfold Names.chain_name_with_prefix. case_bool_decide; eauto. Qed.

(** The chains of a run are distinct, and neither is built in. *)
Lemma chain_names_distinct cn :
  Names.chain_name_for sha256 cn <> "OUTPUT" /\ Names.chain_name_for sha256 cn <> "INPUT" /\
  Names.ingress_chain_name_for sha256 cn <> "INPUT" /\ Names.ingress_chain_name_for sha256 cn <> "OUTPUT" /\
  Names.chain_name_for sha256 cn <> Names.ingress_chain_name_for sha256 cn.
Proof.
  unfold Names.chain_name_for, Names.ingress_chain_name_for.
  destruct (chain_name_prefix "MXC-" Names.CHAIN_SLUG_LEN cn) as [a ->].
  destruct (chain_name_prefix "MXCI-" Names.INGRESS_CHAIN_SLUG_LEN cn) as [b ->]. done.
Qed.

(** Both firewalls, in force in the namespace of [pid]. *)
Record enforced (p : ContainerPolicy) (fw : NetworkIptablesManager) (ingress : option Ingress.IngressManager)
    (pid : Z) (s : Run) : Prop := MkEnforced {
  enforced_egress : exists entries, Lxc.lower_egress p = Ok entries /\ Firewall.hook_point fw = ContainerNetns pid /\
    Firewall.rules_applied fw = true /\ Firewall.hook (Firewall.v4 (Firewall.created fw)) = true /\
    forall f, Firewall.hook (Firewall.family_of (Firewall.created fw) f) = true ->
      Firewall.chain_in_place (Firewall.chain_name fw) p entries f (table s pid f);
  enforced_ingress : exists mgr, ingress = Some mgr /\ Ingress.netns_pid mgr = pid /\
    Ingress.hooked mgr FamilyV4 = true /\
    forall f, Ingress.hooked mgr f = true -> exists before, Ingress.denies f (Ingress.chain_name mgr) before (table s pid f);
}.

Lemma denies_keeps_chain f c c' p entries rs rs' :
  Ingress.denies f c rs rs' -> c <> c' -> c <> "OUTPUT" -> c' <> "INPUT" ->
  Firewall.chain_in_place c' p entries f rs -> Firewall.chain_in_place c' p entries f rs'.
Proof.
  intros (old & _ & _ & _ & Hx) H1 H2 H3 (out & Hc & Ho). exists out. by rewrite !Hx.
Qed.

Lemma set_up_enforces self cn pid p s fw ingress s' :
  0 <= pid <= u32_max -> plan_network p = Lxc.Filtered ->
  set_up_network_rules sha256 self cn (ContainerNetns pid) (Some pid) p s = (Ok (fw, ingress), s') ->
  enforced p fw ingress pid s'.
Proof.
  intros Hpid Hplan Hs. unfold set_up_network_rules in Hs.
  destruct (chain_names_distinct cn) as (N1 & N2 & N3 & N4 & N5).
  destruct (Firewall.apply_firewall_rules _ _) as [[[]|e] [fw0 y]] eqn:Ea; [|done].
  destruct (Ingress.apply_firewall_rules _ _) as [[[]|e] [mgr w]] eqn:Ei; [|done]. injection Hs as <- <- <-.
  destruct (Firewall.apply_Ok _ _ _ _ _ Hplan Ea) as (c & Hi & ->).
  destruct (Firewall.install_Ok (Firewall.manager_new sha256 cn (ContainerNetns pid)) _ pid _ _ eq_refl Hpid N1 Hi) as (entries & rules & b & He & _ & I4 & I6 & Hcr & _).
  cbn in I4, I6, Hcr. subst c.
  destruct (Ingress.apply_denies (Ingress.ingress_new sha256 cn pid) _ _ _ _ Hpid N3 eq_refl Hplan Ei) as (_ & Hname & Hnp & H4 & _ & Hd).
  cbn in Hname, Hnp. split.
  - exists entries. split_and!; try done. intros f Hh. cbn in Hh.
    assert (Hbefore : Firewall.chain_in_place (Names.chain_name_for sha256 cn) p entries f
      (Firewall.filter_table (world y) (ContainerNetns pid) f)).
    { destruct f; [by apply Firewall.installed_in_place in I4|]. cbn in Hh. subst b.
      by apply Firewall.installed_in_place in I6. }
    specialize (Hd f). destruct (Ingress.hooked mgr f).
    + by eapply denies_keeps_chain.
    + unfold Ingress.table in Hd. cbn in Hd. unfold table. cbn. by rewrite Hd.
  - exists (Ingress.set_preserve_policy (negb (cleanup_policy self)) mgr). split_and!; [done|done|by destruct mgr|].
    intros f Hh. specialize (Hd f). change (Ingress.hooked mgr f = true) in Hh. rewrite Hh in Hd.
    eexists. change (Ingress.chain_name (Ingress.set_preserve_policy _ mgr)) with (Ingress.chain_name mgr).
    rewrite Hname. exact Hd.
Qed.

(** Stages that leave the tables of a namespace alone. *)
Definition keeps_tables (s s' : Run) : Prop := forall pid f, table s' pid f = table s pid f.

Lemma on_world_keeps {A} (g : World -> A * World) s a s' :
  (forall w a w' pid f, g w = (a, w') ->
    Firewall.filter_table w' (ContainerNetns pid) f = Firewall.filter_table w (ContainerNetns pid) f) ->
  on_world g s = (a, s') -> keeps_tables s s'.
Proof.
  intros Hg. unfold on_world. destruct (g (world (sys s))) as [a0 w] eqn:E. intros [= _ <-] pid f. by eapply Hg.
Qed.

Lemma or_fail_keeps {A} (g : Run -> result string A * Run) cleanup err s a s' :
  (forall a s', g s = (a, s') -> keeps_tables s s') ->
  or_fail g cleanup err s = (Ok a, s') -> keeps_tables s s'.
Proof.
  unfold or_fail. destruct (g s) as [[b|e] s0]; [|done]. intros Hg [= _ <-]. by eapply Hg.
Qed.

Lemma allow_ping_keeps fw s r s' : allow_ping fw s = (r, s') -> keeps_tables s s'.
Proof.
  unfold allow_ping, Firewall.allow_ping_sockets, Firewall.run_firewall_command.
  destruct (exec [] _ (world (sys s))) as [o w] eqn:E. intros Hr pid f.
  pose proof (sysctl_keeps _ _ _ _ _ pid f E) as Hk. destruct o as [[] ?|?]; by injection Hr as _ <-.
Qed.

Lemma clear_pin_keeps c created s r s' : clear_stale_hosts_pin c created Installed s = (r, s') -> keeps_tables s s'.
Proof.
  unfold clear_stale_hosts_pin. destruct created; [by intros [= _ <-]|].
  destruct (on_world _ s) as [r0 s0] eqn:E. intros [= _ <-]. eapply on_world_keeps; [|exact E].
  intros w a w' pid f Ha. unfold attach_capture in Ha. destruct (capture _ _ _ w) as [o w0] eqn:Ec.
  injection Ha as _ <-. by eapply confined_keeps.
Qed.

Lemma start_relay_keeps (p : ContainerPolicy) pid s r s' : start_relay p pid s = (r, s') -> keeps_tables s s'.
Proof.
  unfold start_relay. destruct (proxy_config_address _) as [a|]; [|by intros [= _ <-]].
  destruct (runtime_network_proxy_specified p); [|by intros [= _ <-]]. destruct pid as [pid|]; [|by intros [= _ <-]].
  destruct (on_world _ s) as [r0 s0] eqn:E. intros Hr. assert (s' = s0) as -> by (by destruct r0; injection Hr as _ <-).
  eapply on_world_keeps; [|exact E]. intros w r1 w' pid0 f. apply relay_keeps.
Qed.

Lemma finish_keeps self r c created pid fw ingress s sb s' :
  Firewall.rules_applied fw = true ->
  finish self r c created pid fw ingress s = (Ok sb, s') ->
  keeps_tables s s' /\ fw_manager sb = fw /\ ingress_manager sb = ingress /\ firewall sb = Installed.
Proof.
  intros Hra Hf. pose proof (finish_adds self r c created pid fw ingress s) as (_ & es & _ & M). rewrite Hf in M.
  destruct M as (_ & Hfw & Hing & _ & Hinst & _).
  assert (Hi : is_firewall_installed fw ingress = Installed) by (unfold is_firewall_installed; by rewrite Hra).
  split; [|by rewrite Hinst, Hi]. unfold finish, on_error in Hf. rewrite Hi in Hf.
  match type of Hf with match ?b with _ => _ end = _ => destruct b as [[sb0|e] s0] eqn:E end; [|done].
  injection Hf as <- <-.
  rewrite decide_True in E by done.
  apply stateful_bind_Ok in E as ([] & s1 & E1 & E). apply stateful_bind_Ok in E as ([] & s2 & E2 & E).
  apply stateful_bind_Ok in E as (rel & s3 & E3 & E). injection E as _ <-.
  apply or_fail_keeps in E1; [|intros; by eapply allow_ping_keeps].
  apply or_fail_keeps in E2; [|intros; by eapply clear_pin_keeps].
  apply or_fail_keeps in E3; [|intros; by eapply start_relay_keeps].
  intros p f. by rewrite E3, E2, E1.
Qed.

Lemma init_pid_bound c w pid w' : init_pid c w = (Some pid, w') -> 0 <= pid <= u32_max.
Proof.
  unfold init_pid. destruct (output _ w) as [[[[] out]|] w0]; intros [= Hp _]. unfold first_pid in Hp.
  apply head_Some_elem_of, list_elem_of_omap in Hp as (line & _ & Hl). unfold line_pid in Hl.
  destruct (parse_unsigned u32_max _) as [v|] eqn:E; [|done]. cbn in Hl. apply parse_unsigned_bound in E.
  destruct (0 <? v); [|done]. by injection Hl as <-.
Qed.

Lemma enforce_enforces self r c created s sb s' :
  plan_network (policy r) = Lxc.Filtered -> enforce sha256 self r c created s = (Ok sb, s') ->
  firewall sb = Installed /\ exists pid, 0 <= pid <= u32_max /\
    enforced (policy r) (fw_manager sb) (ingress_manager sb) pid s'.
Proof.
  intros Hplan He. unfold enforce in He. destruct (on_world (init_pid c) s) as [pid s0] eqn:E0.
  rewrite Hplan in He. destruct pid as [pid|]; [|done]. cbn in He.
  assert (Hpid : 0 <= pid <= u32_max).
  { unfold on_world in E0. destruct (init_pid c (world (sys s))) as [o w] eqn:Ei. injection E0 as -> _.
    by eapply init_pid_bound. }
  set (s1 := if runner_destroy_on_exit self then _ else s0) in He. clearbody s1.
  destruct (set_up_network_rules _ _ _ _ _ _ s1) as [[[fw ingress]|e] s2] eqn:Eu; [|done].
  apply set_up_enforces in Eu as [(entries & Hen & Hhp & Hra & H4 & Hch) (mgr & -> & Hmp & Hm4 & Hden)]; [|done..].
  destruct (finish_keeps _ _ _ _ _ _ _ _ _ _ Hra He) as (Hk & -> & -> & ->). split; [done|]. exists pid. split; [done|].
  split.
  - exists entries. split_and!; try done. intros f Hf. rewrite Hk. auto.
  - exists mgr. split_and!; try done. intros f Hf. rewrite Hk. auto.
Qed.

Lemma prepare_claimed_Ok self r cn s sb s' :
  prepare_claimed sha256 self r cn s = (Ok sb, s') ->
  exists c created s1, enforce sha256 self r c created s1 = (Ok sb, s').
Proof.
  unfold prepare_claimed. intros Hp.
  apply stateful_bind_Ok in Hp as ([] & ? & _ & Hp). apply stateful_bind_Ok in Hp as ([] & ? & _ & Hp).
  apply stateful_bind_Ok in Hp as ([] & ? & _ & Hp). apply stateful_bind_Ok in Hp as (c & ? & _ & Hp).
  apply stateful_bind_Ok in Hp as (created & s1 & _ & Hp). eauto.
Qed.

(** C2. A prepared sandbox is this run's alone and under this run's policy.  Its
    name was free in this process and is now held.  The container was started
    last, having been stopped if an earlier run had left it up, without
    interfaces if the policy permits no traffic.  If the policy permits some,
    both firewalls are in force in the namespace of its init process when the
    workload is attached: packets that leave are accepted exactly if the egress
    policy permits them or they belong to what it permits, and packets that
    arrive are dropped but for replies and control messages; the workload loses
    the capabilities to change that.  IPv6 is excepted where its hook is not
    recorded, IPv4 never. *)
Theorem prepared_sandbox_enforces (self : LxcScriptRunner) (r : ExecutionRequest) (s s' : Run) (sb : PreparedSandbox) :
  Egress.policy_ok (policy r) -> prepare sha256 self r s = (Ok sb, s') ->
  (name (container sb) ∉ live s) /\ live s' = {[name (container sb)]} ∪ live s /\
  (exists running created : bool, events s' =
     Started (if decide (plan_network (policy r) = Lxc.Isolated) then NoInterface else FromContainerConfig) true
     :: (if running then [Stopped true] else []) ++ (if created then [Created] else []) ++ events s) /\
  (plan_network (policy r) = Lxc.Filtered -> firewall sb = Installed /\
   exists pid mgr, Firewall.hook_point (fw_manager sb) = ContainerNetns pid /\
     ingress_manager sb = Some mgr /\ Ingress.netns_pid mgr = pid /\
     Firewall.hook (Firewall.v4 (Firewall.created (fw_manager sb))) = true /\ Ingress.hooked mgr FamilyV4 = true /\
     (forall pkt, Filter.packet_wf pkt ->
        Firewall.hook (Firewall.family_of (Firewall.created (fw_manager sb)) (Filter.family pkt)) = true ->
        exists v, Firewall.first_jump_verdict (table s' pid (Filter.family pkt)) "OUTPUT" pkt = Some v /\
          (v = Filter.Accept <-> Lxc.base_accepts pkt = true \/ Egress.policy_permits (policy r) pkt)) /\
     (forall pkt, Ingress.hooked mgr (Filter.family pkt) = true ->
        Firewall.first_jump_verdict (table s' pid (Filter.family pkt)) "INPUT" pkt =
        Some (if Ingress.inbound_accepted pkt then Filter.Accept else Filter.Drop))).
Proof.
  intros Hok Hp. destruct (prepare_Ok sha256 _ _ _ _ _ Hp) as (r' & s1 & created & pre & Hn & Hpc & Hfree & Hl & Ev & [run ->] & _).
  split_and!; [done..| |].
  - exists run, created. rewrite Ev, <- app_assoc. unfold start_network, omits_interface. by destruct (plan_network (policy r)).
  - intros Hplan. destruct (normalized_network _ _ _ Hn) as (_ & _ & Hplan' & rw & ro & dn & Hset).
    apply prepare_claimed_Ok in Hpc as (c & created' & s2 & He).
    apply enforce_enforces in He as (Hi & pid & Hpid & [(entries & Hen & Hhp & _ & H4 & Hch) (mgr & Hm & Hmp & Hm4 & Hden)]);
      [|by rewrite Hplan'].
    split; [done|]. exists pid, mgr. split_and!; try done.
    + intros pkt Hwf Hh. rewrite Hset in Hen, Hch. by eapply Firewall.chain_in_place_decides; [..|apply Hch].
    + intros pkt Hh. destruct (Hden _ Hh) as [before Hd]. by eapply Ingress.denies_verdict.
Qed.

End Laws.

(** ** The wait for an address ends *)

(** Clocks do not run backwards, and sleeping takes its time. *)
Class ClockLaws (H : Host) {OS : LxcOs H} {RO : RunnerOs H} : Prop := {
  output_takes_time : forall argv w out w', output argv w = (out, w') -> now w <= now w';
  sleep_takes_time : forall ms w, now w + ms <= now (sleep ms w);
}.

Section Clock.
Context {H : Host} {OS : LxcOs H} {RO : RunnerOs H} {CL : ClockLaws H}.

Lemma wait_for_network_fuel fuel extra name start timeout w :
  timeout - (now w - start) < Z.of_nat fuel * POLL_INTERVAL ->
  wait_for_network (fuel + extra) name start timeout w = wait_for_network fuel name start timeout w.
Proof.
  revert w. induction fuel as [|fuel IH]; intros w Hf.
  - destruct extra; [done|]. cbn. by rewrite (proj2 (Z.ltb_ge _ _)) by lia.
  - cbn [Nat.add wait_for_network]. destruct (Z.ltb_spec (now w - start) timeout) as [Hlt|]; [|done].
    destruct (output _ w) as [out w'] eqn:E. apply output_takes_time in E.
    destruct (out ≫= _); [done|]. apply IH. pose proof (sleep_takes_time POLL_INTERVAL w').
    unfold POLL_INTERVAL in *. lia.
Qed.

(** The loop of [wait_for_network] as the runner enters it ends within the polls
    it is given: more of them change nothing. *)
Theorem readiness_wait_ends (name : string) (extra : nat) (w : World) :
  wait_for_network (POLLS + extra) name (now w) READINESS_TIMEOUT w =
  wait_for_network POLLS name (now w) READINESS_TIMEOUT w.
Proof.
  apply wait_for_network_fuel. unfold READINESS_TIMEOUT, POLL_INTERVAL, POLLS. lia.
Qed.

End Clock.

(** ** On a host that keeps its tables in memory *)
Module Memory.

Definition is_firewall (argv : list string) : bool :=
  match head (drop (pred (Firewall.Memory.address_length argv)) argv) with
  | Some b => bool_decide (b = "iptables") || bool_decide (b = "ip6tables")
  | None => false
  end.

#[local] Instance host : Host := {|
  Firewall.World := gmap (list string) Firewall.ruleset;
  Firewall.exec := fun _ argv w => if is_firewall argv then Firewall.Memory.run argv w else (Firewall.Exited true "", w);
  Firewall.read_to_string := fun _ _ => Err Firewall.NotFound;
  Firewall.is_dir := fun _ _ => true;
|}.

Definition said (argv : list string) : string :=
  match last argv with
  | Some a => if decide (a = "-p") then "PID: 42" else if decide (a = "-iH") then "10.0.3.7" else "State: STOPPED"
  | None => ""
  end.

(** [lxc-stop] never ends; in the container [bad] no command succeeds. *)
Definition answered (argv : list string) : DeadlineOutcome :=
  match argv with
  | tool :: _ :: _ :: _ :: name :: _ =>
      if decide (tool = "lxc-stop") then if decide (name = "bad") then Finished true 0 "" "" else DeadlinePassed
      else Finished true (if decide (name = "bad") then 4 else 0) "" ""
  | _ => NotSpawned ""
  end.

#[local] Instance os : LxcOs host := {|
  output := fun argv w => (Some (true, said argv), w);
  capture := fun argv _ _ w => (answered argv, w);
  run_with_pty := fun _ _ _ w => (Ok PtyTimedOut, w);
  arch := "amd64";
  config_file := fun _ _ => LxcMounts.MkConfigFile (Ok "") (Ok tt) (Ok tt);
  store_config := fun _ _ w => w;
  canonicalize := fun _ path => Some path;
  path_is_utf8 := fun _ _ => true;
  path_is_symlink := fun _ _ => false;
  path_is_file := fun _ _ => false;
  probe := fun _ _ => Ok tt;
  debug := id;
|}.

#[local] Instance runner_os : RunnerOs host := {|
  now := fun _ => 0;
  sleep := fun _ w => w;
  unix_nanos := fun w => (0, w);
  hex8 := dec;
  get_env := fun _ _ => None;
  geteuid := fun _ => 0;
  probe_lxc_ls := fun w => (ExitedSuccess, w);
  resolve_object := fun _ _ => Ok FsPolicy.Absent;
  check_access := fun _ _ _ => Ok BwrapResolve.Granted;
  Relay := unit;
  relay_start := fun _ _ _ w => (Ok tt, w);
  relay_stop := fun _ w => w;
  Child := unit;
  attach_spawn := fun _ _ _ w => (Ok tt, w);
  wrap_pipes := fun _ w => (Ok tt, w);
  child_kill := fun _ w => w;
  child_wait := fun _ w => w;
  child_try_wait := fun _ w => (Ok None, w);
  wait_with_timeout := fun _ _ w => (WaitExited 0, w);
  take_unclaimed_reader := fun _ w => (Ok tt, w);
  lowering_text := fun _ => "";
  egress_text := fun _ => "";
  ingress_text := fun _ => "";
|}.

Lemma exec_firewall env hook f args w :
  @exec host env (Firewall.command_argv hook (Firewall.firewall_binary f) args) w =
  @exec Firewall.Memory.host env (Firewall.command_argv hook (Firewall.firewall_binary f) args) w.
Proof. by destruct hook, f. Qed.

#[local] Instance laws : Firewall.NetfilterLaws host.
Proof.
  refine (@Firewall.Build_NetfilterLaws host (@Firewall.filter_table _ Firewall.Memory.laws) _).
  intros env hook f args w outcome w'. rewrite exec_firewall. apply (@Firewall.exec_effect _ Firewall.Memory.laws).
Defined.

#[local] Instance absent_laws : Ingress.AbsentLaws host.
Proof.
  split.
  - intros pid f c w stderr w' Hpid.
    change (Ingress.build_nsenter_argv pid (Ingress.binary f) (Ingress.args (Ingress.step_unhook f c))) with
      (Firewall.command_argv (ContainerNetns pid) (Firewall.firewall_binary f) ["-D"; "INPUT"; "-j"; c]).
    rewrite exec_firewall. by apply (@Ingress.absent_jump _ _ Ingress.Memory.absent_laws).
  - intros pid f c w stderr w' step Hpid Hstep.
    change (Ingress.build_nsenter_argv pid (Ingress.binary f) (Ingress.args step)) with
      (Firewall.command_argv (ContainerNetns pid) (Firewall.firewall_binary f) (Ingress.args step)).
    rewrite exec_firewall. by apply (@Ingress.absent_chain _ _ Ingress.Memory.absent_laws).
Qed.

#[local] Instance namespace_laws : NamespaceLaws host.
Proof.
  split; [|by intros ? ? ? ? ? ? ? [= _ <-]|by intros ? ? ? ? ? ? ? ? [= _ <-]].
  intros hook args w outcome w' pid f. by destruct hook; intros [= _ <-].
Qed.

Definition sha (s : string) : list Z := [1; 2; 3; 4; 5; 6; 7; 8; 9; 10].

Definition request : ExecutionRequest :=
  MkRequest None "c" None false "true" "" 1000 Lxc LifecycleConfig_default Lxc.example_policy
    (MkLxc "alpine" "3.23") None None None None None None None None false false.

(** A reused container that is kept, without its rules. *)
Definition runner (container_id : string) : LxcScriptRunner := MkRunner (MkLxc "alpine" "3.23") container_id false true.

Definition begin : Run :=
  MkRun (Firewall.MkSys (∅ : gmap (list string) Firewall.ruleset) false
    (Firewall.MkActive None Firewall.CreatedResources_default None)) ∅ false [].

Definition ready : result ScriptResponse PreparedSandbox * Run := prepare sha (runner "c") request begin.

Definition refused : result ScriptResponse PreparedSandbox * Run := prepare sha (runner "bad") request begin.

Definition launched : result ScriptResponse LxcSandboxProcess * Run :=
  launch_streaming sha (runner "c") request Pipes begin.

Definition installed_in (r : result ScriptResponse PreparedSandbox) : bool :=
  match r with Ok sb => Firewall.rules_applied (fw_manager sb) | Err _ => false end.

Lemma ready_installed : installed_in (fst ready) = true.
Proof. vm_compute. reflexivity. Qed.

Lemma refused_fails : is_ok (fst refused) = false.
Proof. vm_compute. reflexivity. Qed.

Lemma refused_history : events (snd refused) = [Unfiltered; Stopped true; Started FromContainerConfig true].
Proof. vm_compute. reflexivity. Qed.

Lemma launched_runs : is_ok (fst launched) = true.
Proof. vm_compute. reflexivity. Qed.

Lemma prepared_sandbox_enforces_witness : exists sb, fst ready = Ok sb /\ firewall sb = Installed.
Proof.
  pose proof ready_installed as Hr. destruct ready as [[sb|e] s'] eqn:E; [|discriminate Hr].
  exists sb. split; [reflexivity|].
  destruct (prepared_sandbox_enforces sha (runner "c") request begin s' sb) as (_ & _ & _ & Hf).
  - exact Lxc.example_policy_ok.
  - exact E.
  - apply Hf. reflexivity.
Defined.

(** The container was started, and stopped when the preparation failed. *)
Lemma failed_preparation_releases_witness :
  unreleased (drop 2 (events (snd refused))) = true /\ unreleased (events (snd refused)) = false /\
  still_up (events (snd refused)) = false.
Proof.
  pose proof refused_fails as Hr. destruct refused as [[sb|e] s'] eqn:E; [discriminate Hr|].
  pose proof refused_history as Hh. rewrite E in Hh. cbn [snd] in *.
  destruct (failed_preparation_releases sha (runner "bad") request begin s' e) as (_ & es & He & Hu & _ & _ & Hw).
  { exact E. }
  change (events begin) with (@nil Event) in He. rewrite app_nil_r in He. rewrite He in Hh |- *.
  split; [rewrite Hh; reflexivity|]. split; [exact Hu|]. apply Hw. split; rewrite Hh; apply (bool_decide_unpack _); vm_compute; exact I.
Defined.

(** The container cannot be stopped, and its rules stay. *)
Lemma enforcement_outlives_workload_witness :
  exists h s1, launched = (Ok h, s1) /\
    exists es, events (drop_process (fst (perform_all [TryWait; Kill; Wait] (h, s1)))
                         (snd (perform_all [TryWait; Kill; Wait] (h, s1)))) = es ++ events s1 /\ guarded es.
Proof.
  pose proof launched_runs as Hr. destruct launched as [[h|e] s1] eqn:E; [|discriminate Hr].
  exists h, s1. split; [reflexivity|].
  destruct (enforcement_outlives_workload sha (runner "c") request Pipes [TryWait; Kill; Wait] begin s1
    (snd (perform_all [TryWait; Kill; Wait] (h, s1))) h (fst (perform_all [TryWait; Kill; Wait] (h, s1))))
    as (_ & _ & es & He & Hg & _).
  - reflexivity.
  - exact E.
  - apply surjective_pairing.
  - exists es. split; [exact He|exact Hg].
Defined.

(** The script runs into its deadline; its container goes on without rules. *)
Lemma one_shot_unfilters_running_witness :
  exists sb s1 es, ready = (Ok sb, s1) /\
    events (snd (run_internal sha (runner "c") request begin)) = es ++ Unfiltered :: Launched :: events s1 /\
    existsb releases es = false.
Proof.
  pose proof ready_installed as Hra. destruct ready as [[sb|e] s1] eqn:E; [|discriminate Hra].
  destruct (one_shot_unfilters_running sha (runner "c") request begin s1 (record Launched s1) sb
    ("script timed out after " +:+ timeout_text (timeout sb) +:+ "ms")) as (es & He & Hr).
  - exact E.
  - exact Hra.
  - reflexivity.
  - reflexivity.
  - reflexivity.
  - destruct s1 as [[w i sl] l c ev]. reflexivity.
  - exists sb, s1, es. split; [reflexivity|]. split; [exact He|exact Hr].
Defined.

End Memory.

End LxcRunner.
